(* ===== verification/_CoqProject ===== *)
-Q . S2P
Prelude.v
Bytes.v
Avl.v
AvlSpec.v
AvlThms.v
OrdTree.v
RangeTree.v
Segments.v
RangeTreeSpec.v
RangeTreeThms.v
SpaceMap.v
SpaceMapSpec.v
SpaceMapThms.v
Metaslab.v
MetaslabSpec.v
MetaslabThms.v
Zle.v
ZleThms.v
Lzjb.v
LzjbSpec.v
LzjbThms.v
Gf256.v
GfField.v
Raidz.v
RaidzSpec.v
RaidzRec.v
RaidzMat.v
RaidzInv.v
RaidzGen.v
RaidzChoice.v
RaidzMap.v
RaidzStripe.v
RaidzBlock.v
RaidzThms.v
RaidzSolve.v
Rlock.v
RlockSpec.v
RlockOps.v
RlockRead.v
RlockLock.v
RlockUnlock.v
RlockInv.v
RlockThms.v
Words.v
Fletcher.v
FletcherSpec.v
Sha256.v
Sha256Spec.v
FletcherThms.v
Blkptr.v
Lz4.v
Lz4Mem.v
Lz4Format.v
Lz4Decode.v
Lz4Scan.v
Lz4Encode.v
Lz4Thms.v
ZioCompress.v
ZioCompressThms.v
Embedded.v
EmbeddedThms.v
ZioChecksum.v
ZioChecksumSpec.v
ZioChecksumThms.v
RaidzIo.v
RaidzComb.v
RaidzDone.v
RaidzIoSpec.v
RaidzCombSpec.v
RaidzHeal.v
RaidzPhases.v
RaidzRead.v
RaidzIoThms.v
RaidzVdev.v
IdmConn.v
IdmConnSm.v
IdmSpec.v
IdmInv.v
IdmSafe.v
IdmThms.v
