(* ===== verification/Prelude.v ===== *)
(** * Verification of the storage stack: SPL and ZFS on Linux

    The repository is a fork of the Solaris Porting Layer (src/spl) and of
    ZFS on Linux (src/zfs) with an iSCSI target and cluster additions. This
    library models nine of its parts and proves them correct.

    ** The parts and how they interact

    - The AVL trees of module/avl/avl.c index every in-core ordered set.
    - The range trees of module/zfs/range_tree.c keep the free and allocated
      segments of a device in an AVL tree, with callbacks that a client uses
      to mirror the segments in a tree of its own.
    - The space maps of module/zfs/space_map.c write a range tree to an object
      as a log of 64-bit entries and load it back.
    - The allocators of module/zfs/metaslab.c keep the free segments of a
      metaslab by address and by size, the second tree through the callbacks
      of the first, and choose where a block goes.
    - RAID-Z, module/zfs/vdev_raidz.c, lays the block out over the devices,
      computes up to three parity columns over the field of 256 elements and
      rebuilds lost columns; its reads find out which columns are bad, by
      errors of the children or by the checksum of the block, and repair them.
    - Blocks are compressed before they are stored: module/zfs/zio_compress.c
      calls one of lz4.c, lzjb.c, zle.c and gzip.c (over the zlib functions of
      spl/module/spl/spl-zlib.c), and module/zfs/blkptr.c puts what became
      very small in the block pointer itself.
    - Every block has a checksum, in its block pointer or in a trailer of its
      own: module/zfs/zio_checksum.c, with the functions of
      module/zcommon/zfs_fletcher.c and module/zfs/sha256.c, the injected
      faults of zio_inject.c, and the two stages of zio.c that call it.
    - The range locks of module/zfs/zfs_rlock.c, which the POSIX layer and the
      volumes use, keep the readers and the writers of a file apart, with an
      AVL tree of the ranges locked.
    - The iSCSI data mover, module/idm, runs one state machine per
      connection, fed by the network, by its clients and by the timers of
      module/utils/callout.c.

    ** Conventions

    Machine integers are [Z] with the wrap-around written out ([u64_add],
    [u64_sub], ...). Code that can stop the kernel returns a [result]: [Panic]
    is a failed VERIFY or ASSERT, a store or load out of an array, or a null or
    freed pointer; the model is that of the debugging build, in which ASSERT
    is VERIFY. [runs m P] says that [m] returns a value and that [P] holds of
    it, so that a theorem stated with it includes the absence of panics and
    the termination of the code. Loops that are not structural carry fuel, and
    running out of it is a [Panic]; every definition chooses a bound computed
    from its input (the size of the tree, the length of the buffer, the length
    of a segment over the longest run) and the theorems, stated with [runs] or
    as an equation with [Ok], show that it is enough.

    ** Files

    - Prelude: the monad, [runs], loops, machine integers, lists. Bytes:
      arrays of bytes and the [put] of a bounded destination.
    - Avl, AvlSpec, AvlThms: avl.c, one definition per function. A node is a
      value and the parent pointers are a zipper ([ctx]). The trees are
      balanced, and are compared with their in-order list:
      insertion, removal, search, neighbours, update, destruction, the height.
    - OrdTree: the classes [AvlOps] and [AvlLaws], what the range trees and
      the allocators use of an ordered tree, with AVL trees as the instance.
    - RangeTree, Segments, RangeTreeSpec, RangeTreeThms: range_tree.c. The
      segments are a store of addresses, the tree holds addresses, the client
      is the record of callbacks [range_tree_ops]. [rt_repr] relates a tree to the
      canonical list of segments (sorted, apart, not empty) of Segments, and
      every operation is shown to do on it what set operations on offsets do,
      with its histogram and its space kept exact.
    - SpaceMap, SpaceMapSpec, SpaceMapThms: space_map.c and the encoding of
      entries of space_map.h. The object store is the class [Dmu], whose laws
      are those of a file; the witnesses use an instance of it. Writing a tree
      appends entries that replay to it; load undoes sync.
    - Metaslab, MetaslabSpec, MetaslabThms: the callbacks, the picker and the
      first-fit and dynamic-fit allocators of metaslab.c. The tree by size
      always mirrors the tree by address; what an allocator returns was free,
      and it fails only when no segment has room.
    - Zle, ZleThms, Lzjb, LzjbSpec, LzjbThms: two compressors; round trips,
      safety of the lzjb decompressor, the overrun of the zle one.
    - Lz4: lz4.c, with source and destination as arrays and pointers as
      positions. Lz4Mem: what its loads, stores and copies of words do byte
      by byte, overlapping copies included. Lz4Format: the LZ4 block format,
      what a block stands for. Lz4Decode: the decompressor on any bytes and
      on a block. Lz4Scan: comparing words, finding matches. Lz4Encode:
      writing sequences, the main loop. Lz4Thms: the
      decompressor is safe and decodes the format, the compressor writes a
      block of the format that stands for its source, and how far past its
      limit it can store.
    - ZioCompress: gzip.c and the two functions of spl-zlib.c, with zlib a
      record of functions; the table of compression functions and
      zio_compress.c. ZioCompressThms: the class [Codec], what a row of the
      table promises, with an instance for each pair of functions, and the
      round trip through the table, proved from the class. Embedded, EmbeddedThms: blkptr.c; data in a block pointer are
      restored, also after compression.
    - Gf256, GfField: the tables and the word-wide multiplications of
      vdev_raidz.c; the bytes with them are a field.
      Raidz: layout, sizes, parity generators and reconstruction.
      RaidzSpec, RaidzRec: the code that the parity columns hold, the methods
      for one and two lost columns. RaidzMat, RaidzInv, RaidzGen: elimination
      on a matrix as an action on its columns, the minors that are not zero,
      the inversion loop, the recombination of columns. RaidzChoice: the
      choice of parity columns and of a method. RaidzMap: the geometry of the
      layout. RaidzStripe: a whole stripe written, damaged and repaired.
      RaidzBlock: the maps of I/Os are stripes. RaidzSolve: reconstruction of
      any bytes, also of columns that are not what was written.
      RaidzThms: the layout is correct and blocks do not overlap, the parity
      is the code, any damage within the parity is repaired.
    - Rlock, RlockSpec, RlockOps, RlockRead, RlockLock, RlockUnlock, RlockInv,
      RlockThms: zfs_rlock.c. The structures are a store of addresses, the
      tree holds addresses; waiting threads are on queues. RlockSpec: the
      ranges in the tree and the readers whose lock was replaced by shared
      proxies. RlockOps to RlockInv: each function on that picture.
      RlockThms: the locks as a transition system with any threads in any
      order; mutual exclusion, what a request gets or waits for, release.
    - Words: words in memory on machines of either byte order, byte swapping.
      Fletcher, FletcherSpec, Sha256, Sha256Spec, FletcherThms: the checksum
      functions. The Fletcher sums are the series of the comment in the
      source, their coefficients have few factors of two, and so damage is
      noticed; the SHA-256 function is that of FIPS 180.
      Blkptr: block pointers and their bit fields. ZioChecksum,
      ZioChecksumSpec, ZioChecksumThms: injected faults, and the checksum of
      a block written and read back, on machines of the same or of different
      byte orders; any bytes are read without a panic; damage of one or two
      words is refused.
    - RaidzIo, RaidzComb, RaidzDone, RaidzVdev: the rest of vdev_raidz.c, over
      RAID-Z maps and checksums: what a read or a write issues
      ([vdev_raidz_io_start]), what is done when the children have returned
      ([vdev_raidz_io_done], with its three phases and its repairs),
      [vdev_raidz_combrec], opening. [raidz_read] and [raidz_write] put start,
      children and end together; the children are any functions.
      RaidzIoSpec: checks. RaidzCombSpec: the order in which choices of
      damaged columns are tried, as numbers that rise, and the attempts.
      RaidzHeal: a damaged map and the stripe that was written. RaidzPhases:
      the end of a read. RaidzRead: the start of an I/O, the two rounds of a
      read, writes. RaidzIoThms: a read is safe for any children and heals
      any damage within the parity, silent damage included; what was written
      can be read; and a repair that writes bytes nobody computed.
    - IdmConn: a connection, its references, events and timers. IdmConnSm:
      the handlers of idm_conn_sm.c, the validation of PDUs, and the entry
      points [idm_pdu_rx] and [idm_pdu_tx]. The client and the transport are a
      record of answers ([idm_env]) and their calls are kept in a trace.
      IdmSpec, IdmInv, IdmSafe: the invariant and what each handler does
      with it. IdmThms: the step relation of a connection, with the events of
      the network, the clients and the timers in any order; the invariant of
      reachable states, the transitions allowed by the protocol, the absence
      of panics for handled events, the destruction of a finished connection,
      and two behaviours the code does not mean to have.

    ** What the statements assume

    Range trees: offsets and sizes stay below 2^64, and the client's callbacks
    keep the client's invariant ([OpsLaws], discharged for metaslabs).
    Space maps: [DmuLaws]. RAID-Z: at most 255 columns, one to three
    parity columns, sectors of at least eight bytes, a zio_buf_alloc that
    returns a buffer of the size asked, children that never report a checksum
    error and return as many bytes as asked for. Range locks: ranges that are
    not empty, fewer than 2^32 locks, sizes and appends within 63 bits; what
    runs between two waits, with the mutex held, is one step. Checksums:
    blocks of whole pairs of 64-bit words of fewer than 2^31 bytes, log blocks
    of a multiple of 4096, in a buffer of the size of the block. Compression:
    blocks of whole words of fewer than 2^31 bytes, a destination as long as
    the source, memory for the workspaces of zlib, and a zlib that restores
    what it deflated ([zlib_ok], which the toy [run_zlib] of the witnesses
    meets). IDM: a handler runs
    as one step, because the code runs it on a task queue with one thread per
    connection under ic_state_mutex or against data only that thread changes;
    freed memory is not reused.

    ** Not modelled

    - Of range_tree.c and space_map.c locking; of space_map.c the callbacks
      of object allocation beyond the [Dmu] operations; of metaslab.c groups,
      classes, loading threads, weights and the transaction-group machinery.
    - Of lz4.c the 32-bit build, of lz4.c and spl-zlib.c the creation of the
      caches they allocate from; zlib itself.
    - Of zio.c everything but the two checksum stages; of zio_inject.c the
      faults on devices, labels and delays; log messages and event reports.
    - Of vdev_raidz.c the blocks written in aggregation (raidz_aggre.c and the
      branches that call it), the data that checksum reports keep for later,
      closing; the scheduling of the I/Os on the children.
    - Of idm the sockets (idm_so.c), text negotiation (idm_text.c), tasks and
      buffers, blocking waits on references, logging, audit records, condition
      variables and time stamps; of utils everything but the timers.
    - The rest of module/zfs (pool, transactions, caches, datasets, POSIX
      layer, other devices, cluster additions): multi-threaded code over
      disks whose operations are transactions of an object store that is
      itself not modelled.
    - module/iscsit, stmf, stmf_sbd, pppt, fct, qlt, qlf, qlf_hengwei,
      mpt2sas, mpt3sas, vmpt3sas: protocol services and drivers over hardware
      registers. cn_hbx, fmd_transport, ipmi_notify: message transports.
      nvpair, unicode, the rest of zcommon: serialisation and tables. zpios: a
      benchmark.
    - src/spl/module, but for spl-zlib.c: wrappers of kernel threads, locks
      and memory; lib and cmd of both projects: user-space tools. *)
From stdpp Require Export base tactics numbers list gmap.
From Stdlib Require Export ZArith Lia ZifyBool Bool.
Local Open Scope Z_scope.

(** ** Outcomes of kernel code

    A run of a kernel routine either returns a value or panics: a failed
    [VERIFY] / [ASSERT] of spl/include/sys/debug.h (assertions are compiled
    in, the --enable-debug build), an explicit [panic()], or a dereference
    of a null or dangling pointer. *)
Inductive result (A : Type) : Type :=
| Ok (a : A)
| Panic.
Arguments Ok {A} a.
Arguments Panic {A}.

#[global] Instance result_ret : MRet result := fun A a => Ok a.
#[global] Instance result_bind : MBind result := fun A B f m =>
  match m with Ok a => f a | Panic => Panic end.

(** [VERIFY(cond)], [ASSERT(cond)] and their typed variants. *)
Definition VERIFY (cond : bool) : result unit := if cond then Ok tt else Panic.

(** The value of an optional pointer, a panic when it is null. *)
Definition deref {A} (o : option A) : result A :=
  match o with Some a => Ok a | None => Panic end.

(** ** Unsigned 64-bit arithmetic *)
Definition W64 : Z := 2 ^ 64.
Definition u64 (z : Z) : Z := z mod W64.
Definition u64_add (x y : Z) : Z := u64 (x + y).
Definition u64_sub (x y : Z) : Z := u64 (x - y).
Definition u64_shl (x n : Z) : Z := u64 (Z.shiftl x n).
Definition is_u64 (z : Z) : Prop := 0 <= z < W64.

(** [P2PHASE], [howmany], [roundup] and [P2ROUNDUP] of sysmacros.h; [BF64_DECODE] and
    [BF64_ENCODE] of spa.h; [highbit64] is the position (from 1) of the
    highest bit set, 0 for 0. *)
Definition P2PHASE (x align : Z) : Z := Z.land x (align - 1).
Definition howmany (x y : Z) : Z := u64 (x + (y - 1)) / y.
Definition roundup (x y : Z) : Z := u64 (howmany x y * y).
Definition BF64_DECODE (x low len : Z) : Z :=
  P2PHASE (Z.shiftr x low) (u64_shl 1 len).
Definition BF64_ENCODE (x low len : Z) : Z :=
  u64_shl (P2PHASE x (u64_shl 1 len)) low.
Definition P2ROUNDUP (x align : Z) : Z := u64_add (Z.lor (u64_sub x 1) (u64_sub align 1)) 1.
Definition highbit64 (x : Z) : Z := if x =? 0 then 0 else Z.log2 x + 1.

#[global] Arguments W64 : simpl never.
#[global] Arguments u64 : simpl never.
#[global] Arguments u64_add : simpl never.
#[global] Arguments u64_sub : simpl never.
#[global] Arguments u64_shl : simpl never.
#[global] Arguments P2PHASE : simpl never.
#[global] Arguments howmany : simpl never.
#[global] Arguments roundup : simpl never.
#[global] Arguments BF64_DECODE : simpl never.
#[global] Arguments BF64_ENCODE : simpl never.
#[global] Arguments P2ROUNDUP : simpl never.
#[global] Arguments highbit64 : simpl never.

(** ** Lemmas on outcomes *)
Lemma bind_Ok {A B} (a : A) (f : A -> result B) : (x ← Ok a; f x) = f a.
Proof. reflexivity. Qed.

Lemma bind_Ok_r {A} (m : result A) : (x ← m ; Ok x) = m.
Proof. by destruct m. Qed.

Lemma bind_assoc {A B C} (m : result A) (f : A -> result B) (g : B -> result C) :
  (y ← (x ← m ; f x) ; g y) = (x ← m ; y ← f x ; g y).
Proof. by destruct m. Qed.

Lemma bind_Ok_inv {A B} (m : result A) (f : A -> result B) b :
  (x ← m; f x) = Ok b -> exists a, m = Ok a /\ f a = Ok b.
Proof. destruct m; simpl; [eauto | discriminate]. Qed.

Lemma VERIFY_Ok_inv c u : VERIFY c = Ok u -> c = true.
Proof. destruct c; simpl; congruence. Qed.

(** [runs m P]: the code does not panic, and [P] holds of what it returns.
    The lemmas below step through monadic code under it. *)
Definition runs {A} (m : result A) (P : A -> Prop) : Prop :=
  match m with Ok a => P a | Panic => False end.
Arguments runs {A} !m P /.

Lemma runs_bind {A B} (m : result A) (f : A -> result B) P Q :
  runs m P -> (forall a, P a -> runs (f a) Q) -> runs (x ← m; f x) Q.
Proof. destruct m; simpl; [auto | contradiction]. Qed.

Lemma runs_bind_eq {A B} (m : result A) (f : A -> result B) a Q :
  m = Ok a -> runs (f a) Q -> runs (x ← m; f x) Q.
Proof. by intros ->. Qed.

Lemma runs_VERIFY {B} c (k : result B) Q :
  c = true -> runs k Q -> runs (VERIFY c ;; k) Q.
Proof. by intros ->. Qed.

Lemma VERIFY_pass {B} c (k : result B) : c = true -> (VERIFY c ;; k) = k.
Proof. by intros ->. Qed.

Lemma runs_impl {A} (m : result A) (P Q : A -> Prop) :
  runs m P -> (forall a, P a -> Q a) -> runs m Q.
Proof. destruct m; simpl; auto. Qed.

Lemma runs_and {A} (m : result A) P Q : runs m P -> runs m Q -> runs m (fun a => P a /\ Q a).
Proof. by destruct m. Qed.

Lemma runs_Ok {A} (m : result A) P : runs m P <-> exists a, m = Ok a /\ P a.
Proof.
  destruct m as [a |]; simpl; [| naive_solver].
  split; [eauto | by intros (? & [= ->] & ?)].
Qed.

(** ** Counted loops

    [for (i = lo; i < hi; i++) body], the variables the body changes threaded
    through as a state, and its rule for invariants. *)
Fixpoint for_loop {S} (n : nat) (i : Z) (body : Z -> S -> result S) (st : S) : result S :=
  match n with
  | O => Ok st
  | Datatypes.S n => st ← body i st ; for_loop n (i + 1) body st
  end.

Definition for_range {S} (lo hi : Z) (body : Z -> S -> result S) (st : S) : result S :=
  for_loop (Z.to_nat (hi - lo)) lo body st.

Lemma for_range_inv {S} lo hi (body : Z -> S -> result S) st (I : Z -> S -> Prop) :
  lo <= hi -> I lo st ->
  (forall i st, lo <= i < hi -> I i st -> runs (body i st) (I (i + 1))) ->
  runs (for_range lo hi body st) (I hi).
Proof.
  intros Hle Hlo Hstep. unfold for_range.
  assert (H : forall n i st, lo <= i -> i + Z.of_nat n = hi -> I i st -> runs (for_loop n i body st) (I hi)).
  { induction n as [| n IH]; intros i st' Hi Hn HI; cbn [for_loop].
    - simpl. by replace hi with i by lia.
    - eapply runs_bind; [apply Hstep; [lia | done] |]. intros a Ha. apply IH; [lia | lia | done]. }
  apply H; [lia | lia | done].
Qed.

Lemma for_range_empty {S} lo hi (body : Z -> S -> result S) st : hi <= lo -> for_range lo hi body st = Ok st.
Proof. intros H. unfold for_range. by replace (Z.to_nat (hi - lo)) with 0%nat by lia. Qed.

(** ** Lemmas on 64-bit values *)
Lemma u64_small z : is_u64 z -> u64 z = z.
Proof. apply Z.mod_small. Qed.

Lemma u64_add_small x y : is_u64 (x + y) -> u64_add x y = x + y.
Proof. apply u64_small. Qed.

Lemma u64_sub_small x y : is_u64 (x - y) -> u64_sub x y = x - y.
Proof. apply u64_small. Qed.

Lemma u64_range z : is_u64 (u64 z).
Proof. apply Z.mod_pos_bound. reflexivity. Qed.

Lemma u64_idemp z : u64 (u64 z) = u64 z.
Proof. apply u64_small, u64_range. Qed.

Lemma P2PHASE_mod x n : 0 <= n -> P2PHASE x (2 ^ n) = x mod 2 ^ n.
Proof.
  intros Hn. unfold P2PHASE.
  rewrite Z.sub_1_r, <- Z.ones_equiv. by apply Z.land_ones.
Qed.

Lemma u64_shl_1 n : 0 <= n < 64 -> u64_shl 1 n = 2 ^ n.
Proof.
  intros Hn. unfold u64_shl. rewrite Z.shiftl_1_l. apply u64_small.
  split; [lia |]. apply Z.pow_lt_mono_r; lia.
Qed.

Lemma u64_shl_small x n : 0 <= n -> is_u64 (x * 2 ^ n) -> u64_shl x n = x * 2 ^ n.
Proof. intros Hn Hx. unfold u64_shl. rewrite Z.shiftl_mul_pow2 by done. by apply u64_small. Qed.

Lemma P2PHASE_aligned x n : 0 <= n < 64 -> (2 ^ n | x) -> P2PHASE x (u64_shl 1 n) = 0.
Proof. intros Hn Hx. rewrite u64_shl_1, P2PHASE_mod by lia. by apply Z.mod_divide; [lia |]. Qed.

Lemma BF64_DECODE_spec x low len :
  0 <= low -> 0 <= len < 64 ->
  BF64_DECODE x low len = (x / 2 ^ low) mod 2 ^ len.
Proof.
  intros ??. unfold BF64_DECODE.
  rewrite u64_shl_1, P2PHASE_mod, Z.shiftr_div_pow2 by lia. done.
Qed.

Lemma BF64_ENCODE_spec x low len :
  0 <= low -> 0 <= len < 64 -> low + len <= 64 ->
  BF64_ENCODE x low len = (x mod 2 ^ len) * 2 ^ low.
Proof.
  intros ???. unfold BF64_ENCODE. rewrite u64_shl_1, P2PHASE_mod by lia.
  unfold u64_shl. rewrite Z.shiftl_mul_pow2 by lia.
  apply u64_small. unfold is_u64, W64.
  pose proof (Z.mod_pos_bound x (2 ^ len) ltac:(lia)).
  assert (2 ^ len * 2 ^ low <= 2 ^ 64).
  { rewrite <- Z.pow_add_r by lia. apply Z.pow_le_mono_r; lia. }
  nia.
Qed.

(** Fields at disjoint positions are joined by addition. *)
Lemma lor_fields a b n : 0 <= n -> 0 <= b < 2 ^ n -> Z.lor (a * 2 ^ n) b = a * 2 ^ n + b.
Proof.
  intros Hn Hb. rewrite <- Z.add_lor_land.
  assert (Z.land (a * 2 ^ n) b = 0) as E; [| lia].
  destruct (Z.eq_dec b 0) as [-> | ?]; [apply Z.land_0_r |].
  apply Z.bits_inj'. intros k Hk. rewrite Z.land_spec, Z.bits_0.
  destruct (Z.lt_ge_cases k n).
  - by rewrite Z.mul_pow2_bits_low.
  - rewrite (Z.bits_above_log2 b), andb_false_r; [done | lia |].
    apply Z.log2_lt_pow2; [lia |].
    apply Z.lt_le_trans with (2 ^ n); [lia |]. apply Z.pow_le_mono_r; lia.
Qed.

(** ** Rounding *)
Lemma lor_ones a k : 0 <= k -> 0 <= a -> Z.lor a (2 ^ k - 1) = a / 2 ^ k * 2 ^ k + (2 ^ k - 1).
Proof.
  intros Hk Ha. rewrite <- (lor_fields (a / 2 ^ k) (2 ^ k - 1) k) by lia.
  rewrite Z.sub_1_r, <- Z.ones_equiv. apply Z.bits_inj'. intros n Hn. rewrite !Z.lor_spec.
  destruct (Z.lt_ge_cases n k).
  - rewrite Z.ones_spec_low by lia. by rewrite !orb_true_r.
  - rewrite Z.ones_spec_high, !orb_false_r by lia.
    rewrite Z.mul_pow2_bits, <- Z.shiftr_div_pow2, Z.shiftr_spec by lia. f_equal. lia.
Qed.

Lemma P2ROUNDUP_spec x k : 0 <= k < 63 -> 0 <= x < 2 ^ 63 -> P2ROUNDUP x (2 ^ k) = (x + (2 ^ k - 1)) / 2 ^ k * 2 ^ k.
Proof.
  intros Hk Hx. unfold P2ROUNDUP.
  assert (0 < 2 ^ k < 2 ^ 63) as Hp by (split; [lia | apply Z.pow_lt_mono_r; lia]).
  rewrite (u64_sub_small (2 ^ k)) by (unfold is_u64, W64; lia).
  destruct (Z.eq_dec x 0) as [-> | Hx0].
  - change (u64_sub 0 1) with (Z.ones 64). rewrite Z.add_0_l, (Z.div_small (2 ^ k - 1)) by lia.
    assert (Z.lor (Z.ones 64) (2 ^ k - 1) = Z.ones 64) as ->; [| reflexivity].
    rewrite Z.lor_comm. apply Z.lor_ones_low; [lia |].
    destruct (Z.eq_dec (2 ^ k - 1) 0) as [-> | ?]; [done |]. apply Z.log2_lt_pow2; lia.
  - rewrite (u64_sub_small x) by (unfold is_u64, W64; lia). rewrite lor_ones by lia.
    assert (x + (2 ^ k - 1) = (x - 1) + 1 * 2 ^ k) as -> by lia. rewrite Z.div_add by lia.
    pose proof (Z.mul_div_le (x - 1) (2 ^ k) ltac:(lia)).
    pose proof (Z.mul_nonneg_nonneg (2 ^ k) ((x - 1) / 2 ^ k) ltac:(lia) ltac:(apply Z.div_pos; lia)).
    rewrite u64_add_small by (unfold is_u64, W64; lia). lia.
Qed.

Lemma P2ROUNDUP_bounds x k : 0 <= k < 63 -> 0 <= x < 2 ^ 63 ->
  x <= P2ROUNDUP x (2 ^ k) < x + 2 ^ k /\ (2 ^ k | P2ROUNDUP x (2 ^ k)).
Proof.
  intros Hk Hx. rewrite P2ROUNDUP_spec by done. pose proof (Z.pow_pos_nonneg 2 k ltac:(lia) ltac:(lia)).
  split; [| apply Z.divide_factor_r].
  pose proof (Z.mul_div_le (x + (2 ^ k - 1)) (2 ^ k) ltac:(lia)).
  pose proof (Z.mul_succ_div_gt (x + (2 ^ k - 1)) (2 ^ k) ltac:(lia)). lia.
Qed.

Lemma highbit64_pos x : 0 < x -> highbit64 x = Z.log2 x + 1.
Proof. intros. unfold highbit64. destruct (Z.eqb_spec x 0); lia. Qed.

Lemma log2_lt_64 x : 0 < x < W64 -> 0 <= Z.log2 x < 64.
Proof.
  intros. split; [apply Z.log2_nonneg |].
  apply Z.log2_lt_pow2; [lia |]. unfold W64 in *. lia.
Qed.

(** ** Lemmas on lists *)
Lemma app_cons_cut {A} (l1 : list A) x l2 a b :
  l1 ++ x :: l2 = a ++ b ->
  (exists k, a = l1 ++ x :: k /\ l2 = k ++ b) \/ (exists k, b = k ++ x :: l2 /\ l1 = a ++ k).
Proof.
  revert a. induction l1 as [| y l1 IH]; intros [| z a] E; simpl in *.
  - right. by exists [].
  - injection E as -> ->. left. by exists a.
  - right. by exists (y :: l1).
  - injection E as -> E. apply IH in E as [(k & -> & ->) | (k & -> & ->)]; eauto.
Qed.

(** The position of an element in a list without duplicates is unique. *)
Lemma NoDup_cut {A} (l1 l2 k1 k2 : list A) x :
  NoDup (l1 ++ x :: l2) -> l1 ++ x :: l2 = k1 ++ x :: k2 -> l1 = k1 /\ l2 = k2.
Proof.
  revert k1. induction l1 as [| y l1 IH]; intros [| z k1] Hnd E; simpl in *;
    apply NoDup_cons in Hnd as (Hn & Hnd).
  - by injection E.
  - injection E as <- ->. set_solver.
  - clear IH. injection E as -> <-. set_solver.
  - injection E as -> E. apply IH in E as (-> & ->); done.
Qed.

(** ** Automation *)
Create HintDb zfs.
#[export] Hint Resolve u64_range : zfs.

(** Inverts successful runs of monadic code and the checks they passed. *)
Ltac inv_ok :=
  repeat match goal with
  | H : mbind ?f ?m = Ok _ |- _ =>
      let a := fresh "r" in let E := fresh "Hrun" in
      apply bind_Ok_inv in H as (a & E & H)
  | H : VERIFY _ = Ok _ |- _ => apply VERIFY_Ok_inv in H
  | H : Ok _ = Ok _ |- _ => injection H; clear H; intros; subst
  | H : Panic = Ok _ |- _ => discriminate H
  | H : Ok _ = Panic |- _ => discriminate H
  end.

(** Case analysis on the tests of the code in the goal, each test turned
    into the proposition it decides. *)
Ltac case_tests :=
  repeat match goal with
  | |- context [Z.eqb ?x ?y] => destruct (Z.eqb_spec x y)
  | |- context [Z.ltb ?x ?y] => destruct (Z.ltb_spec x y)
  | |- context [Z.leb ?x ?y] => destruct (Z.leb_spec x y)
  | |- context [bool_decide ?P] => destruct (bool_decide_reflect P)
  end.

Ltac u64_lia := unfold u64_add, u64_sub in *; unfold is_u64, W64 in *;
  rewrite ?u64_small in * by (unfold is_u64, W64; lia); lia.
