(* ===== verification/Bytes.v ===== *)
(** * Byte buffers

    What the compression and checksum code shares: buffers as lists of bytes,
    loads at a position and stores at the end, both failing out of bounds. *)
From S2P Require Import Prelude.
Local Open Scope Z_scope.

Definition is_byte (b : Z) : Prop := 0 <= b < 256.
Definition uchar (z : Z) : Z := z mod 256.

(** The bytes of [s] from position [i]. *)
Definition byte_at (s : list Z) (i : Z) : result Z :=
  deref (if 0 <=? i then s !! Z.to_nat i else None).

(** [*dst++ = b], with [d_len] bytes of room. *)
Definition put (d_len : Z) (dst : list Z) (b : Z) : result (list Z) :=
  VERIFY (Z.of_nat (length dst) <? d_len) ;; Ok (dst ++ [uchar b]).

Lemma byte_at_app pre b rest : byte_at (pre ++ b :: rest) (Z.of_nat (length pre)) = Ok b.
Proof.
  unfold byte_at. rewrite (proj2 (Z.leb_le 0 _)) by lia.
  by rewrite Nat2Z.id, list_lookup_middle.
Qed.

Lemma byte_at_next pre a b rest : byte_at (pre ++ a :: b :: rest) (Z.of_nat (length pre) + 1) = Ok b.
Proof.
  rewrite cons_middle, app_assoc. rewrite <- (byte_at_app (pre ++ [a]) b rest). f_equal.
  rewrite length_app. simpl. lia.
Qed.

Lemma uchar_byte b : is_byte b -> uchar b = b.
Proof. apply Z.mod_small. Qed.

Lemma put_Ok d_len dst b : Z.of_nat (length dst) < d_len -> is_byte b -> put d_len dst b = Ok (dst ++ [b]).
Proof. intros Hd Hb. unfold put. rewrite uchar_byte by done. by rewrite VERIFY_pass by lia. Qed.

(** ** Words *)
(** A word and its bytes in memory order (little-endian). *)
Fixpoint le_word (bs : list Z) : Z :=
  match bs with [] => 0 | b :: bs => b + 256 * le_word bs end.
Fixpoint le_bytes (n : nat) (w : Z) : list Z :=
  match n with O => [] | S n => w mod 256 :: le_bytes n (w / 256) end.

Lemma uchar_is_byte z : is_byte (uchar z).
Proof. apply Z.mod_pos_bound. lia. Qed.

Lemma le_word_range xs : Forall is_byte xs -> 0 <= le_word xs < 256 ^ Z.of_nat (length xs).
Proof.
  induction 1 as [| x xs Hx Hxs IH]; simpl le_word; simpl length; [lia |].
  rewrite Nat2Z.inj_succ, Z.pow_succ_r by lia. unfold is_byte in Hx. lia.
Qed.

Lemma le_bytes_length n w : length (le_bytes n w) = n.
Proof. revert w. induction n as [| n IH]; intros w; simpl; [done |]. by rewrite IH. Qed.

Lemma le_bytes_word xs : Forall is_byte xs -> le_bytes (length xs) (le_word xs) = xs.
Proof.
  induction 1 as [| x xs Hx Hxs IH]; simpl; [done |]. unfold is_byte in Hx.
  replace ((x + 256 * le_word xs) mod 256) with x by (Z.to_euclidean_division_equations; lia).
  replace ((x + 256 * le_word xs) / 256) with (le_word xs) by (Z.to_euclidean_division_equations; lia).
  by rewrite IH.
Qed.

Lemma le_bytes_byte n w : Forall is_byte (le_bytes n w).
Proof. revert w. induction n as [| n IH]; intros w; constructor; [apply uchar_is_byte | apply IH]. Qed.

Lemma le_word_bytes n w : 0 <= w < 256 ^ Z.of_nat n -> le_word (le_bytes n w) = w.
Proof.
  revert w. induction n as [| n IH]; intros w Hw; [simpl in *; lia |]. cbn [le_bytes le_word].
  rewrite Nat2Z.inj_succ, Z.pow_succ_r in Hw by lia. rewrite IH; [pose proof (Z.div_mod w 256); lia |].
  split; [apply Z.div_pos; lia | apply Z.div_lt_upper_bound; lia].
Qed.
