(* ===== verification/Avl.v ===== *)
(** * The AVL tree library (zfs/module/avl/avl.c)

    A tree is an [Inductive] whose nodes carry the stored balance and the
    user data; a node pointer is the identity of its data (an element of a
    type with decidable equality), and following the parent links of a node
    is walking up the list of frames ([ctx]) that leads from the root to it.
    The code is written for one hand and mirrored by an index variable
    ([left], [right]); so are the definitions ([child], [mk]). *)
From S2P Require Import Prelude.
Local Open Scope Z_scope.

(** ** Data *)

(** The two child indices 0 and 1; [AVL_BEFORE] is 0 and [AVL_AFTER] is 1. *)
Inductive ix : Type := I0 | I1.
#[global] Instance ix_eq_dec : EqDecision ix.
Proof. solve_decision. Defined.

Definition AVL_BEFORE : ix := I0.
Definition AVL_AFTER : ix := I1.
Definition flip (i : ix) : ix := match i with I0 => I1 | I1 => I0 end.

Definition avl_child2balance (i : ix) : Z := match i with I0 => -1 | I1 => 1 end.

(** [avl_balance2child[1 + b]], the array {0, 0, 1}; [None] out of bounds. *)
Definition avl_balance2child (b : Z) : option ix :=
  if b =? -1 then Some I0 else if b =? 0 then Some I0
  else if b =? 1 then Some I1 else None.

Inductive tree (A : Type) : Type :=
| Leaf
| Node (bal : Z) (data : A) (c0 c1 : tree A).
Arguments Leaf {A}.
Arguments Node {A} bal data c0 c1.

(** [node->avl_child[i]]. *)
Definition child {A} (i : ix) (t : tree A) : tree A :=
  match t with
  | Leaf => Leaf
  | Node _ _ c0 c1 => match i with I0 => c0 | I1 => c1 end
  end.

(** A node whose child at index [i] is [a] and whose other child is [b]. *)
Definition mk {A} (i : ix) (bal : Z) (x : A) (a b : tree A) : tree A :=
  match i with I0 => Node bal x a b | I1 => Node bal x b a end.

Definition is_leaf {A} (t : tree A) : bool :=
  match t with Leaf => true | Node _ _ _ _ => false end.

(** An ancestor: which child the path goes through ([AVL_XCHILD] of the node
    below), the ancestor's balance and data, and its other child. *)
Record frame (A : Type) : Type := Frame {
  fr_child : ix; fr_bal : Z; fr_data : A; fr_sib : tree A }.
Arguments Frame {A}.
Arguments fr_child {A}.
Arguments fr_bal {A}.
Arguments fr_data {A}.
Arguments fr_sib {A}.

(** The chain of parents of a node, nearest first. *)
Definition ctx (A : Type) : Type := list (frame A).

(** An ancestor with balance [b] and the subtree [t] below it. *)
Definition refill {A} (f : frame A) (b : Z) (t : tree A) : tree A :=
  mk (fr_child f) b (fr_data f) t (fr_sib f).

Fixpoint plug {A} (c : ctx A) (t : tree A) : tree A :=
  match c with
  | [] => t
  | f :: c' => plug c' (refill f (fr_bal f) t)
  end.

(** The opaque insertion cookie: a node pointer and a child bit. *)
Record avl_index (A : Type) : Type := MkIndex { ix_node : option A; ix_child : ix }.
Arguments MkIndex {A}.
Arguments ix_node {A}.
Arguments ix_child {A}.

Record avl_tree (A : Type) : Type := MkTree {
  avl_root : tree A; avl_numnodes : Z }.
Arguments MkTree {A}.
Arguments avl_root {A}.
Arguments avl_numnodes {A}.

Definition avl_create {A} : avl_tree A := MkTree Leaf 0.

(** ** Operations *)

(** The walk [for (node = t; node->avl_child[i] != NULL; ...)], which keeps
    the frames it goes through. *)
Fixpoint descend {A} (i : ix) (t : tree A) (c : ctx A) : ctx A * tree A :=
  match t with
  | Leaf => (c, Leaf)
  | Node b x c0 c1 =>
      match i with
      | I0 => if is_leaf c0 then (c, t) else descend i c0 (Frame I0 b x c1 :: c)
      | I1 => if is_leaf c1 then (c, t) else descend i c1 (Frame I1 b x c0 :: c)
      end
  end.

Definition data_of {A} (t : tree A) : option A :=
  match t with Leaf => None | Node _ x _ _ => Some x end.

Definition avl_first {A} (t : avl_tree A) : option A :=
  data_of (descend I0 (avl_root t) []).2.
Definition avl_last {A} (t : avl_tree A) : option A :=
  data_of (descend I1 (avl_root t) []).2.

(** [for (;;) { was_child = AVL_XCHILD(node); node = AVL_XPARENT(node); ... }]
    of [avl_walk]. *)
Fixpoint climb {A} (right : ix) (c : ctx A) : option A :=
  match c with
  | [] => None
  | f :: c' => if decide (fr_child f = right) then Some (fr_data f) else climb right c'
  end.

(** [avl_find]: [compar] is the comparison of the searched value with a node,
    [prev] and [which] are the loop's variables. *)
Fixpoint avl_find_loop {A} (compar : A -> Z) (t : tree A) (prev : option A) (which : ix)
    : result (A + avl_index A) :=
  match t with
  | Leaf => Ok (inr (MkIndex prev which))
  | Node _ x c0 c1 =>
      let diff := compar x in
      VERIFY ((-1 <=? diff) && (diff <=? 1)) ;;
      if diff =? 0 then Ok (inl x)
      else i ← deref (avl_balance2child diff) ;
           match i with
           | I0 => avl_find_loop compar c0 (Some x) I0
           | I1 => avl_find_loop compar c1 (Some x) I1
           end
  end.

Definition avl_find {A} (compar : A -> Z) (t : avl_tree A) : result (A + avl_index A) :=
  avl_find_loop compar (avl_root t) None I0.

(** [avl_rotation]: the subtree that takes the place of [node], and whether
    it became shorter. *)
Definition avl_rotation {A} (node : tree A) (balance : Z) : result (tree A * bool) :=
  let left := if balance <? 0 then I0 else I1 in
  let right := flip left in
  let left_heavy := Z.shiftr balance 1 in
  let right_heavy := - left_heavy in
  match node, child left node with
  | Node _ nx _ _, Node child_bal cx _ _ =>
      let c := child left node in
      let nright := child right node in
      if negb (child_bal =? right_heavy) then
        let child_bal := child_bal + right_heavy in
        let cright := child right c in
        let node' := mk left (- child_bal) nx cright nright in
        Ok (mk left child_bal cx (child left c) node', child_bal =? 0)
      else
        match child right c with
        | Leaf => Panic
        | Node gb gx _ _ =>
            let gchild := child right c in
            let gleft := child left gchild in
            let gright := child right gchild in
            let node' := mk left (if gb =? left_heavy then right_heavy else 0) nx gright nright in
            let child' := mk left (if gb =? right_heavy then left_heavy else 0) cx
                             (child left c) gleft in
            Ok (mk left 0 gx child' node', true)
        end
  | _, _ => Panic
  end.

(** The loop of [avl_insert] that backs up the tree; [t] has grown. *)
Fixpoint avl_insert_up {A} (c : ctx A) (t : tree A) : result (tree A) :=
  match c with
  | [] => Ok t
  | f :: c' =>
      let old_balance := fr_bal f in
      let new_balance := old_balance + avl_child2balance (fr_child f) in
      if new_balance =? 0 then Ok (plug c' (refill f 0 t))
      else if negb (old_balance =? 0) then
        '(t', _) ← avl_rotation (refill f old_balance t) new_balance ; Ok (plug c' t')
      else avl_insert_up c' (refill f new_balance t)
  end.

(** The loop of [avl_remove]; [t] has become shorter. *)
Fixpoint avl_remove_up {A} (c : ctx A) (t : tree A) : result (tree A) :=
  match c with
  | [] => Ok t
  | f :: c' =>
      let old_balance := fr_bal f in
      let new_balance := old_balance - avl_child2balance (fr_child f) in
      if old_balance =? 0 then Ok (plug c' (refill f new_balance t))
      else if new_balance =? 0 then avl_remove_up c' (refill f new_balance t)
      else
        '(t', shorter) ← avl_rotation (refill f old_balance t) new_balance ;
        if (shorter : bool) then avl_remove_up c' t' else Ok (plug c' t')
  end.

Section pointers.
Context {A : Type} `{!EqDecision A}.

(** The node a pointer stands for, with its parents. *)
Fixpoint locate (x : A) (t : tree A) (c : ctx A) : option (ctx A * tree A) :=
  match t with
  | Leaf => None
  | Node b y c0 c1 =>
      if decide (x = y) then Some (c, t)
      else match locate x c0 (Frame I0 b y c1 :: c) with
           | Some p => Some p
           | None => locate x c1 (Frame I1 b y c0 :: c)
           end
  end.

(** [avl_walk]: the neighbour of [oldnode] on the side [left]. *)
Definition avl_walk (t : avl_tree A) (oldnode : A) (left : ix) : result (option A) :=
  '(c, node) ← deref (locate oldnode (avl_root t) []) ;
  let right := flip left in
  if negb (is_leaf (child left node)) then
    Ok (data_of (descend right (child left node) []).2)
  else Ok (climb right c).

Definition AVL_NEXT (t : avl_tree A) (x : A) : result (option A) := avl_walk t x AVL_AFTER.
Definition AVL_PREV (t : avl_tree A) (x : A) : result (option A) := avl_walk t x AVL_BEFORE.

Definition avl_nearest (t : avl_tree A) (w : avl_index A) (direction : ix) : result (option A) :=
  match ix_node w with
  | None => VERIFY (is_leaf (avl_root t)) ;; Ok None
  | Some data =>
      if negb (bool_decide (ix_child w = direction)) then Ok (Some data)
      else avl_walk t data direction
  end.

Definition avl_insert (t : avl_tree A) (new_data : A) (w : avl_index A) : result (avl_tree A) :=
  let n := u64_add (avl_numnodes t) 1 in
  let node := Node 0 new_data Leaf Leaf in
  match ix_node w with
  | None => VERIFY (is_leaf (avl_root t)) ;; Ok (MkTree node n)
  | Some p =>
      '(c, parent) ← deref (locate p (avl_root t) []) ;
      VERIFY (is_leaf (child (ix_child w) parent)) ;;
      match parent with
      | Leaf => Panic
      | Node b x _ _ =>
          root ← avl_insert_up (Frame (ix_child w) b x (child (flip (ix_child w)) parent) :: c) node ;
          Ok (MkTree root n)
      end
  end.

(** The ordering check of a DEBUG kernel: [new_data] belongs on the side
    [which] of [n]. *)
Definition here_check (compar : A -> A -> Z) (new_data : A) (which : ix) (n : A) : bool :=
  let diff := compar new_data n in
  (-1 <=? diff) && (diff <=? 1) && negb (diff =? 0) &&
  bool_decide (which = if 0 <? diff then I1 else I0).

(** The walk of [avl_insert_here] down the children [i], with its checks. *)
Fixpoint insert_here_loop (check : A -> bool) (i : ix) (t : tree A) : result A :=
  match t with
  | Leaf => Panic
  | Node _ x c0 c1 =>
      VERIFY (check x) ;;
      match i with
      | I0 => if is_leaf c0 then Ok x else insert_here_loop check i c0
      | I1 => if is_leaf c1 then Ok x else insert_here_loop check i c1
      end
  end.

Definition avl_insert_here (compar : A -> A -> Z) (t : avl_tree A) (new_data here : A)
    (direction : ix) : result (avl_tree A) :=
  '(_, node) ← deref (locate here (avl_root t) []) ;
  VERIFY (here_check compar new_data direction here) ;;
  if negb (is_leaf (child direction node)) then
    let which := flip direction in
    p ← insert_here_loop (here_check compar new_data which) which (child direction node) ;
    avl_insert t new_data (MkIndex (Some p) which)
  else avl_insert t new_data (MkIndex (Some here) direction).

Definition avl_add (compar : A -> A -> Z) (t : avl_tree A) (new_node : A) : result (avl_tree A) :=
  r ← avl_find (compar new_node) t ;
  match r with
  | inl _ => Panic
  | inr w => avl_insert t new_node w
  end.

(** The common tail of [avl_remove]: unlink a node with at most one child. *)
Definition avl_unlink (t : avl_tree A) (c : ctx A) (delete : tree A) : result (avl_tree A) :=
  VERIFY (0 <? avl_numnodes t) ;;
  let n := u64_sub (avl_numnodes t) 1 in
  let node := if negb (is_leaf (child I0 delete)) then child I0 delete else child I1 delete in
  root ← avl_remove_up c node ;
  Ok (MkTree root n).

Definition avl_remove (t : avl_tree A) (data : A) : result (avl_tree A) :=
  '(c, delete) ← deref (locate data (avl_root t) []) ;
  match delete with
  | Leaf => Panic
  | Node old_balance _ c0 c1 =>
      if negb (is_leaf c0) && negb (is_leaf c1) then
        left ← deref (avl_balance2child old_balance) ;
        let right := flip left in
        (* the in-order neighbour takes the place of [delete], and is removed
           from where it stood *)
        let '(below, node) := descend right (child left delete) [] in
        x ← deref (data_of node) ;
        avl_unlink t (below ++ Frame left old_balance x (child right delete) :: c) node
      else avl_unlink t c delete
  end.

Definition avl_reinsert (compar : A -> A -> Z) (t : avl_tree A) (obj : A) : result (avl_tree A) :=
  t' ← avl_remove t obj ; avl_add compar t' obj.

Definition neighbor_test (o : option A) (p : A -> bool) : bool :=
  match o with Some n => p n | None => false end.

Definition avl_update_lt (compar : A -> A -> Z) (t : avl_tree A) (obj : A) : result (avl_tree A * bool) :=
  next ← AVL_NEXT t obj ;
  VERIFY (negb (neighbor_test next (fun n => 0 <? compar obj n))) ;;
  prev ← AVL_PREV t obj ;
  if neighbor_test prev (fun n => compar obj n <? 0) then
    t' ← avl_reinsert compar t obj ; Ok (t', true)
  else Ok (t, false).

Definition avl_update_gt (compar : A -> A -> Z) (t : avl_tree A) (obj : A) : result (avl_tree A * bool) :=
  prev ← AVL_PREV t obj ;
  VERIFY (negb (neighbor_test prev (fun n => compar obj n <? 0))) ;;
  next ← AVL_NEXT t obj ;
  if neighbor_test next (fun n => 0 <? compar obj n) then
    t' ← avl_reinsert compar t obj ; Ok (t', true)
  else Ok (t, false).

Definition avl_update (compar : A -> A -> Z) (t : avl_tree A) (obj : A) : result (avl_tree A * bool) :=
  prev ← AVL_PREV t obj ;
  if neighbor_test prev (fun n => compar obj n <? 0) then
    t' ← avl_reinsert compar t obj ; Ok (t', true)
  else
    next ← AVL_NEXT t obj ;
    if neighbor_test next (fun n => 0 <? compar obj n) then
      t' ← avl_reinsert compar t obj ; Ok (t', true)
    else Ok (t, false).

(** *** [avl_destroy_nodes] *)

(** The traversal cookie: a null pointer, a parent pointer with the index of
    the child visited last, or CHILDBIT alone when the tree is done. *)
Inductive cookie : Type := CkNull | CkAt (parent : A) (which : ix) | CkDone.

(** Label [done:], with the node to return and its parents. *)
Definition destroy_done (t : avl_tree A) (c : ctx A) (node : tree A)
    : result (avl_tree A * cookie * option A) :=
  x ← deref (data_of node) ;
  match c with
  | [] => Ok (t, CkDone, Some x)
  | f :: _ => Ok (t, CkAt (fr_data f) (fr_child f), Some x)
  end.

(** Label [check_right_side:]. *)
Definition destroy_check_right (t : avl_tree A) (c : ctx A) (node : tree A)
    : result (avl_tree A * cookie * option A) :=
  match node with
  | Leaf => Panic
  | Node b x c0 c1 =>
      if negb (is_leaf c1) then
        VERIFY (b =? 1) ;;
        VERIFY (is_leaf (child I0 c1) && is_leaf (child I1 c1)) ;;
        destroy_done t (Frame I1 b x c0 :: c) c1
      else
        VERIFY (b <=? 0) ;; destroy_done t c node
  end.

Definition avl_destroy_nodes (t : avl_tree A) (ck : cookie)
    : result (avl_tree A * cookie * option A) :=
  match ck with
  | CkNull =>
      match descend I0 (avl_root t) [] with
      | (_, Leaf) => Ok (t, CkDone, None)
      | (c, node) => destroy_check_right t c node
      end
  | CkDone =>
      if negb (is_leaf (avl_root t)) then
        VERIFY (avl_numnodes t =? 1) ;; Ok (MkTree Leaf 0, CkDone, None)
      else Ok (t, CkDone, None)
  | CkAt p which =>
      '(c, parent) ← deref (locate p (avl_root t) []) ;
      match parent with
      | Leaf => Panic
      | Node b x c0 c1 =>
          let parent := match which with I0 => Node b x Leaf c1 | I1 => Node b x c0 Leaf end in
          VERIFY (1 <? avl_numnodes t) ;;
          let t' := MkTree (plug c parent) (u64_sub (avl_numnodes t) 1) in
          if bool_decide (which = I1) || is_leaf (child I1 parent) then
            destroy_done t' c parent
          else
            let '(c', node) := descend I0 (child I1 parent)
                                 (Frame I1 b x (child I0 parent) :: c) in
            destroy_check_right t' c' node
      end
  end.

(** The caller's loop [while ((node = avl_destroy_nodes(t, &cookie)) != NULL)],
    with the nodes it gets, at most [fuel] of them. *)
Fixpoint destroy_loop (fuel : nat) (t : avl_tree A) (ck : cookie) : result (avl_tree A * list A) :=
  match fuel with
  | O => Panic
  | S n =>
      '(t', ck', o) ← avl_destroy_nodes t ck ;
      match o with
      | None => Ok (t', [])
      | Some x => '(t'', xs) ← destroy_loop n t' ck' ; Ok (t'', x :: xs)
      end
  end.
End pointers.
Arguments cookie A : clear implicits.
Arguments CkNull {A}.
Arguments CkDone {A}.

Definition avl_swap {A} (t1 t2 : avl_tree A) : avl_tree A * avl_tree A := (t2, t1).

Definition avl_is_empty {A} (t : avl_tree A) : bool := avl_numnodes t =? 0.

Definition avl_destroy {A} (t : avl_tree A) : result unit :=
  VERIFY (avl_numnodes t =? 0) ;; VERIFY (is_leaf (avl_root t)).

(** ** Specification vocabulary *)

(** The nodes in increasing order, which is what a user of the library sees. *)
Fixpoint inorder {A} (t : tree A) : list A :=
  match t with
  | Leaf => []
  | Node _ x l r => inorder l ++ x :: inorder r
  end.

(** The order in which [avl_destroy_nodes] promises to return the nodes. *)
Fixpoint postorder {A} (t : tree A) : list A :=
  match t with
  | Leaf => []
  | Node _ x l r => postorder l ++ postorder r ++ [x]
  end.

Fixpoint height {A} (t : tree A) : Z :=
  match t with
  | Leaf => 0
  | Node _ _ l r => 1 + Z.max (height l) (height r)
  end.

(** The AVL invariant: the stored balance is the difference of the heights
    of the children, and is -1, 0 or 1. *)
Fixpoint balanced {A} (t : tree A) : Prop :=
  match t with
  | Leaf => True
  | Node b _ l r =>
      b = height r - height l /\ -1 <= b <= 1 /\ balanced l /\ balanced r
  end.

Record avl_wf {A} (t : avl_tree A) : Prop := {
  wf_balanced : balanced (avl_root t);
  wf_nodup : NoDup (inorder (avl_root t));
  wf_numnodes : avl_numnodes t = Z.of_nat (length (inorder (avl_root t)));
  wf_count : avl_numnodes t < W64 }.
