(* ===== verification/AvlSpec.v ===== *)
(** * Correctness of the AVL tree library *)
From S2P Require Import Prelude Avl.
Local Open Scope Z_scope.

(** ** Shapes and heights *)

(** The elements to the left and to the right of the hole of a context. *)
Fixpoint ctx_left {A} (c : ctx A) : list A :=
  match c with
  | [] => []
  | f :: c' => ctx_left c' ++
      match fr_child f with I0 => [] | I1 => inorder (fr_sib f) ++ [fr_data f] end
  end.

Fixpoint ctx_right {A} (c : ctx A) : list A :=
  match c with
  | [] => []
  | f :: c' =>
      match fr_child f with I0 => fr_data f :: inorder (fr_sib f) | I1 => [] end ++ ctx_right c'
  end.

(** Plugging a balanced tree of height [h] gives a balanced tree. *)
Fixpoint ctx_balanced {A} (h : Z) (c : ctx A) : Prop :=
  match c with
  | [] => True
  | f :: c' =>
      balanced (fr_sib f) /\ -1 <= fr_bal f <= 1 /\
      fr_bal f = avl_child2balance (fr_child f) * (h - height (fr_sib f)) /\
      ctx_balanced (1 + Z.max h (height (fr_sib f))) c'
  end.

(** [w] is the gap between [lo] and [hi]: a missing child next to it. *)
Definition index_at {A} (t : tree A) (w : avl_index A) (lo hi : list A) : Prop :=
  match ix_node w with
  | None => t = Leaf /\ lo = [] /\ hi = []
  | Some p =>
      exists c b c0 c1, t = plug c (Node b p c0 c1) /\ child (ix_child w) (Node b p c0 c1) = Leaf /\
      match ix_child w with
      | I0 => lo = ctx_left c /\ hi = inorder (Node b p c0 c1) ++ ctx_right c
      | I1 => lo = ctx_left c ++ inorder (Node b p c0 c1) /\ hi = ctx_right c
      end
  end.

Section facts.
Context {A : Type}.
Implicit Types (t : tree A) (c : ctx A) (x : A).

Lemma height_nonneg t : 0 <= height t.
Proof. induction t; simpl; lia. Qed.

Lemma inorder_nil t : inorder t = [] -> t = Leaf.
Proof. destruct t; simpl; [done |]. intros E. by apply app_nil in E as (_ & ?). Qed.

Lemma postorder_inorder t : Permutation (postorder t) (inorder t).
Proof.
  induction t as [| b x l IHl r IHr]; simpl; [done |].
  by rewrite IHl, IHr, (Permutation_app_comm (inorder r)).
Qed.

Lemma postorder_length t : length (postorder t) = length (inorder t).
Proof. by rewrite postorder_inorder. Qed.

Lemma inorder_plug c t : inorder (plug c t) = ctx_left c ++ inorder t ++ ctx_right c.
Proof.
  revert t. induction c as [| [[] b x s] c IH]; intros t; simpl.
  - by rewrite app_nil_r.
  - rewrite IH. simpl. by rewrite app_nil_r, <- !app_assoc.
  - rewrite IH. simpl. by rewrite <- !app_assoc.
Qed.

Lemma plug_app c c' t : plug (c ++ c') t = plug c' (plug c t).
Proof. revert t. induction c; simpl; auto. Qed.

Lemma ctx_left_app c c' : ctx_left (c ++ c') = ctx_left c' ++ ctx_left c.
Proof.
  induction c as [| f c IH]; simpl; [by rewrite app_nil_r |].
  by rewrite IH, app_assoc.
Qed.

Lemma ctx_right_app c c' : ctx_right (c ++ c') = ctx_right c ++ ctx_right c'.
Proof. induction c as [| f c IH]; simpl; [done |]. by rewrite IH, app_assoc. Qed.

Lemma inorder_mk i b x t1 t2 :
  inorder (mk i b x t1 t2) =
  match i with I0 => inorder t1 ++ x :: inorder t2 | I1 => inorder t2 ++ x :: inorder t1 end.
Proof. by destruct i. Qed.

(** A subtree of a balanced tree is balanced, and so is its context. *)
Lemma balanced_plug c t : balanced (plug c t) <-> balanced t /\ ctx_balanced (height t) c.
Proof.
  revert t. induction c as [| [i b x s] c IH]; intros t; simpl; [tauto |].
  rewrite IH. unfold refill; destruct i; simpl; rewrite ?Z.max_assoc;
    rewrite 1?(Z.max_comm (height s)); intuition lia.
Qed.

(** The balance of a context does not depend on the data of its frames. *)
Lemma ctx_balanced_data h k i b x y s c :
  ctx_balanced h (k ++ Frame i b x s :: c) -> ctx_balanced h (k ++ Frame i b y s :: c).
Proof.
  revert h. induction k as [| f k IH]; intros h; simpl; [done |].
  intros (?&?&?&?). auto.
Qed.

Lemma plug_not_leaf c b x t1 t2 : plug c (Node b x t1 t2) <> Leaf.
Proof.
  revert b x t1 t2. induction c as [| [[] b' y s] c IH]; simpl; [done | |]; intros; apply IH.
Qed.

(** ** Rotations *)

Ltac rotated :=
  (eexists _, _; split; [reflexivity | simpl]);
  change (Z.shiftr (2 * -1) 1) with (-1); change (Z.shiftr (2 * 1) 1) with 1;
  simpl; case_tests; repeat split;
  first [done | lia | by repeat (rewrite <- app_assoc; simpl) | eauto].

(** A rotation keeps the order of the nodes, restores the balance of a node
    two levels too heavy on one side, and says whether the subtree became one
    level shorter. *)
Lemma avl_rotation_spec i b x t1 t2 :
  balanced t1 -> balanced t2 -> height t1 = height t2 + 2 ->
  exists t' shorter,
    avl_rotation (mk i b x t1 t2) (2 * avl_child2balance i) = Ok (t', shorter) /\
    balanced t' /\ inorder t' = inorder (mk i b x t1 t2) /\
    height t' = 1 + height t1 - Z.b2z shorter /\
    (shorter = false -> exists cx a d, t1 = Node 0 cx a d).
Proof.
  intros B1 B2 H. pose proof (height_nonneg t2).
  destruct t1 as [| cb cx a d]; [simpl in H; lia |].
  destruct B1 as (Hb & Hr & Ba & Bd). simpl in H.
  pose proof (height_nonneg a). pose proof (height_nonneg d).
  destruct (decide (cb = - avl_child2balance i)) as [-> | Hcb].
  - (* the grandchild comes up *)
    destruct i; simpl in Hb, Hr.
    + destruct d as [| gb gx e f]; [simpl in *; lia |].
      destruct Bd as (Hgb & Hgr & Be & Bf). simpl in Hb, H. rotated.
    + destruct a as [| gb gx e f]; [simpl in *; lia |].
      destruct Ba as (Hgb & Hgr & Be & Bf). simpl in Hb, H. rotated.
  - (* the child comes up *)
    assert (cb = 0 \/ cb = avl_child2balance i) as [-> | ->] by (destruct i; simpl in *; lia);
    destruct i; simpl in Hb, Hr; rotated.
Qed.

(** ** Rebalancing on the way up *)

Lemma inorder_refill c f b b' t :
  inorder (plug c (refill f b t)) = inorder (plug c (refill f b' t)).
Proof. rewrite !inorder_plug. unfold refill. by rewrite !inorder_mk. Qed.

(** Filling a frame with a subtree of another height keeps the balance, when
    the stored balance and the height above come out right. *)
Lemma balanced_refill c i b b' x s t h :
  balanced s -> balanced t -> -1 <= b' <= 1 ->
  b' = avl_child2balance i * (height t - height s) ->
  ctx_balanced h c -> 1 + height t `max` height s = h ->
  balanced (plug c (refill (Frame i b x s) b' t)).
Proof.
  intros ????? <-. apply balanced_plug. unfold refill; simpl.
  destruct i; simpl in *; rewrite 1?(Z.max_comm (height s)); intuition lia.
Qed.

Lemma balanced_plug_height c t h :
  balanced t -> ctx_balanced h c -> height t = h -> balanced (plug c t).
Proof. intros ?? <-. by apply balanced_plug. Qed.

(** The stored balance of a frame is even, or leans to or away from the hole. *)
Lemma frame_cases i b (h hs : Z) :
  -1 <= b <= 1 -> b = avl_child2balance i * (h - hs) ->
  b = 0 /\ h = hs \/ b = avl_child2balance i /\ h = hs + 1 \/
  b = - avl_child2balance i /\ hs = h + 1.
Proof. destruct i; simpl; lia. Qed.

Ltac by_side i := destruct i; simpl in *; lia.

(** Insertion: the subtree grew by one level, and is not perfectly balanced
    unless it is the new node. *)
Lemma avl_insert_up_spec c t :
  balanced t -> ctx_balanced (height t - 1) c ->
  (forall x l r, t = Node 0 x l r -> height t = 1) ->
  exists t', avl_insert_up c t = Ok t' /\ balanced t' /\ inorder t' = inorder (plug c t).
Proof.
  revert t. induction c as [| [i b x s] c IH]; intros t B C Hz; [by eauto |].
  destruct C as (Bs & Hb & Eb & C). cbn [avl_insert_up plug fr_bal fr_child fr_sib] in *.
  pose proof (height_nonneg s). rewrite (inorder_refill c _ b (b + avl_child2balance i)).
  destruct (frame_cases _ _ _ _ Hb Eb) as [(-> & Hh) | [(-> & Hh) | (-> & Hh)]].
  - replace (0 + avl_child2balance i =? 0) with false by (by destruct i).
    apply IH.
    + apply (balanced_refill [] _ _ _ _ _ _ (1 + height t `max` height s)); simpl; by_side i || done.
    + replace (height _ - 1) with (1 + (height t - 1) `max` height s); [done | by_side i].
    + intros y l r E. exfalso. destruct i; discriminate E.
  - replace (_ + _ =? 0) with false by (by destruct i).
    replace (negb _) with true by (by destruct i).
    replace (_ + _) with (2 * avl_child2balance i) by lia.
    destruct (avl_rotation_spec i (avl_child2balance i) x t s) as (t' & sh & E & B' & I' & H' & Hsh);
      [done | done | lia |].
    unfold refill; cbn [fr_sib fr_data fr_child]. rewrite E, bind_Ok.
    eexists; split; [reflexivity |]. rewrite !inorder_plug, I', !inorder_mk. split; [| done].
    eapply balanced_plug_height; [done | done |]. rewrite H'.
    destruct sh; [simpl; lia |]. destruct Hsh as (cx & a & d & Et); [done |].
    pose proof (Hz _ _ _ Et). lia.
  - replace (_ + _ =? 0) with true by (by destruct i).
    replace (- avl_child2balance i + avl_child2balance i) with 0 by lia.
    eexists; split; [reflexivity |]. split; [| done].
    eapply balanced_refill; [done | done | lia | by_side i | done | lia].
Qed.

(** Removal: the subtree became one level shorter. *)
Lemma avl_remove_up_spec c t :
  balanced t -> ctx_balanced (height t + 1) c ->
  exists t', avl_remove_up c t = Ok t' /\ balanced t' /\ inorder t' = inorder (plug c t).
Proof.
  revert t. induction c as [| [i b x s] c IH]; intros t B C; [by eauto |].
  destruct C as (Bs & Hb & Eb & C). cbn [avl_remove_up plug fr_bal fr_child fr_sib] in *.
  pose proof (height_nonneg s). rewrite (inorder_refill c _ b (b - avl_child2balance i)).
  destruct (frame_cases _ _ _ _ Hb Eb) as [(-> & Hh) | [(-> & Hh) | (-> & Hh)]].
  - eexists; split; [reflexivity |]. split; [| done].
    eapply balanced_refill; [done | done | by_side i | by_side i | done | lia].
  - replace (avl_child2balance i =? 0) with false by (by destruct i).
    rewrite Z.sub_diag, Z.eqb_refl. apply IH.
    + eapply (balanced_refill []); [done | done | lia | by_side i | exact I | reflexivity].
    + replace (height _ + 1) with (1 + (height t + 1) `max` height s); [done | by_side i].
  - replace (- avl_child2balance i =? 0) with false by (by destruct i).
    replace (_ - _ =? 0) with false by (by destruct i).
    destruct (avl_rotation_spec (flip i) (- avl_child2balance i) x s t)
      as (t' & sh & E & B' & I' & H' & _); [done | done | lia |].
    replace (refill (Frame i (- avl_child2balance i) x s) (- avl_child2balance i) t)
      with (mk (flip i) (- avl_child2balance i) x s t) by (by destruct i).
    replace (- avl_child2balance i - avl_child2balance i) with (2 * avl_child2balance (flip i))
      by (by destruct i).
    rewrite E, bind_Ok.
    assert (Hi : inorder (plug c t') = inorder (plug c (refill (Frame i (- avl_child2balance i) x s)
              (2 * avl_child2balance (flip i)) t)))
      by (rewrite !inorder_plug, I'; by destruct i).
    rewrite <- Hi. destruct sh; simpl in H'.
    + apply IH; [done |]. by replace (height t' + 1) with (1 + (height t + 1) `max` height s) by lia.
    + eexists; split; [reflexivity |]. split; [| done].
      eapply balanced_plug_height; [done | done | lia].
Qed.

(** ** Walking *)

Lemma descend_step i b x l r c :
  let t := Node b x l r in
  descend i t c =
  if is_leaf (child i t) then (c, t)
  else descend i (child i t) (Frame i b x (child (flip i) t) :: c).
Proof. by destruct i. Qed.

Lemma plug_child i b x l r :
  let t := Node b x l r in plug [Frame i b x (child (flip i) t)] (child i t) = t.
Proof. by destruct i. Qed.

(** Going down one side ends at a node without a child there, and passes no
    element on that side. *)
Lemma descend_spec i t c :
  t <> Leaf ->
  exists c' b x l r, descend i t c = (c' ++ c, Node b x l r) /\
    child i (Node b x l r) = Leaf /\ t = plug c' (Node b x l r) /\
    match i with I0 => ctx_left c' = [] | I1 => ctx_right c' = [] end.
Proof.
  revert c. induction t as [| b x t1 IH1 t2 IH2]; intros c Ht; [done |].
  rewrite descend_step. set (t := Node b x t1 t2) in *.
  destruct (is_leaf (child i t)) eqn:El.
  { exists [], b, x, t1, t2. destruct (child i t) eqn:Ec; [| done]. by destruct i. }
  assert (Hn : child i t <> Leaf) by (by destruct (child i t)).
  set (f := Frame i b x (child (flip i) t)).
  assert (exists c' b' x' l r, descend i (child i t) (f :: c) = (c' ++ f :: c, Node b' x' l r) /\
    child i (Node b' x' l r) = Leaf /\ child i t = plug c' (Node b' x' l r) /\
    match i with I0 => ctx_left c' = [] | I1 => ctx_right c' = [] end)
    as (c' & b' & x' & l & r & -> & Hc & Hp & Hl) by (destruct i; auto).
  exists (c' ++ [f]), b', x', l, r. rewrite <- app_assoc, plug_app, ctx_left_app, ctx_right_app, <- Hp.
  split; [done |]. split; [done |]. split; [symmetry; apply plug_child |].
  destruct i; simpl; by rewrite Hl.
Qed.

(** The nearest ancestor the path leaves on one side is the nearest element
    outside the subtree on the other side. *)
Lemma climb_spec i c :
  climb i c = match i with I0 => head (ctx_right c) | I1 => last (ctx_left c) end.
Proof.
  induction c as [| [j b x s] c IH]; [by destruct i |]. simpl.
  destruct i, j; simpl; rewrite ?IH, ?app_nil_r, ?app_assoc, ?last_snoc; done.
Qed.

(** The neighbour on the side [i] of the node [x] inside its subtree. *)
Lemma descend_neighbour i b x l r :
  child i (Node b x l r) <> Leaf ->
  data_of (descend (flip i) (child i (Node b x l r)) []).2 =
  match i with I0 => last (inorder l) | I1 => head (inorder r) end.
Proof.
  intros Hn. destruct (descend_spec (flip i) _ [] Hn) as (c' & b' & x' & l' & r' & -> & Hc & Hp & Hl).
  simpl. destruct i; simpl in *; rewrite Hp, inorder_plug, Hl; subst; simpl.
  - by rewrite app_nil_r, app_assoc, last_snoc.
  - done.
Qed.

(** ** Searching *)

(** [compar] decides on which side of the searched value a node lies: the
    nodes of [lo] are below it, those of [eq] match it, those of [hi] are
    above it. *)
Definition partitions (compar : A -> Z) (lo eq hi : list A) : Prop :=
  Forall (fun x => compar x = 1) lo /\ Forall (fun x => compar x = 0) eq /\
  Forall (fun x => compar x = -1) hi.

Lemma partitions_cut compar l1 x l2 lo eq hi :
  l1 ++ x :: l2 = lo ++ eq ++ hi -> partitions compar lo eq hi ->
  (compar x = 1 /\ exists lo', lo = l1 ++ x :: lo' /\ l2 = lo' ++ eq ++ hi) \/
  (compar x = 0 /\ x ∈ eq) \/
  (compar x = -1 /\ exists hi', hi = hi' ++ x :: l2 /\ l1 = lo ++ eq ++ hi').
Proof.
  intros E (Hlo & Heq & Hhi).
  apply app_cons_cut in E as [(k & -> & ->) | (k & E & ->)].
  { left. split; [| eauto]. rewrite Forall_forall in Hlo. apply Hlo. set_solver. }
  right. symmetry in E. apply app_cons_cut in E as [(k' & -> & ->) | (k' & -> & ->)].
  { left. rewrite Forall_forall in Heq. split; [apply Heq |]; set_solver. }
  right. rewrite Forall_forall in Hhi. split; [apply Hhi; set_solver | eauto].
Qed.

(** The loop of [avl_find] below a context whose innermost frame is [prev]. *)
Lemma avl_find_loop_spec compar t c prev which lo eq hi :
  inorder t = lo ++ eq ++ hi -> partitions compar lo eq hi ->
  match c with
  | [] => prev = None
  | f :: _ => prev = Some (fr_data f) /\ which = fr_child f
  end ->
  match eq with
  | [] => exists w, avl_find_loop compar t prev which = Ok (inr w) /\
            index_at (plug c t) w (ctx_left c ++ lo) (hi ++ ctx_right c)
  | _ => exists x, x ∈ eq /\ avl_find_loop compar t prev which = Ok (inl x)
  end.
Proof.
  revert c prev which lo hi. induction t as [| b x l IHl r IHr]; intros c prev which lo hi E P Hc.
  - symmetry in E. apply app_nil in E as (-> & E). apply app_nil in E as (-> & ->). simpl.
    eexists. split; [reflexivity |]. rewrite app_nil_r. unfold index_at; simpl.
    destruct c as [| [i b x s] c]; [by subst |]. destruct Hc as (-> & ->). simpl.
    exists c, b. destruct i; simpl; eexists _, _; (split; [reflexivity |]); simpl;
      rewrite ?app_nil_r; done.
  - destruct (partitions_cut _ _ _ _ _ _ _ E P) as
      [(Hx & lo' & -> & Er) | [(Hx & Hin) | (Hx & hi' & -> & El)]];
      simpl avl_find_loop; rewrite Hx; simpl.
    + specialize (IHr (Frame I1 b x l :: c) (Some x) I1 lo' hi Er).
      destruct P as (Plo & Peq & Phi). apply Forall_app in Plo as (_ & Plo). inversion_clear Plo.
      specialize (IHr (conj H0 (conj Peq Phi)) (conj eq_refl eq_refl)).
      simpl in IHr. by rewrite <- !app_assoc in IHr.
    + destruct eq; [by apply not_elem_of_nil in Hin | eauto].
    + specialize (IHl (Frame I0 b x r :: c) (Some x) I0 lo hi' El).
      destruct P as (Plo & Peq & Phi). apply Forall_app in Phi as (Phi & _).
      specialize (IHl (conj Plo (conj Peq Phi)) (conj eq_refl eq_refl)).
      simpl in IHl. rewrite app_nil_r in IHl. by rewrite <- app_assoc.
Qed.

End facts.

(** ** Operations on node pointers *)
Section pointer_facts.
Context {A : Type} `{!EqDecision A}.
Implicit Types (t : avl_tree A) (x : A).

Lemma locate_sound x (s : tree A) c c' n :
  locate x s c = Some (c', n) ->
  exists k b l r, c' = k ++ c /\ n = Node b x l r /\ s = plug k n.
Proof.
  revert c. induction s as [| b y s1 IH1 s2 IH2]; intros c E; simpl in E; [done |].
  case_decide; subst.
  { injection E as <- <-. by exists [], b, s1, s2. }
  destruct (locate x s1 _) as [p |] eqn:E1.
  - injection E as ->. apply IH1 in E1 as (k & b' & l & r & -> & -> & ->).
    eexists (k ++ [_]), b', l, r. rewrite <- app_assoc, plug_app. done.
  - apply IH2 in E as (k & b' & l & r & -> & -> & ->).
    eexists (k ++ [_]), b', l, r. rewrite <- app_assoc, plug_app. done.
Qed.

Lemma locate_complete x (s : tree A) c : x ∈ inorder s -> is_Some (locate x s c).
Proof.
  revert c. induction s as [| b y s1 IH1 s2 IH2]; intros c Hx; simpl in *; [by apply not_elem_of_nil in Hx |].
  case_decide; [by eauto |].
  destruct (locate x s1 _) as [p |] eqn:E1; [by eauto |].
  apply elem_of_app in Hx as [Hx | Hx].
  - destruct (IH1 (Frame I0 b y s2 :: c) Hx). congruence.
  - apply IH2. set_solver.
Qed.

(** A pointer to a node of the tree finds the node and its place. *)
Lemma locate_spec x (s : tree A) l1 l2 :
  NoDup (inorder s) -> inorder s = l1 ++ x :: l2 ->
  exists c b l r, locate x s [] = Some (c, Node b x l r) /\ s = plug c (Node b x l r) /\
    l1 = ctx_left c ++ inorder l /\ l2 = inorder r ++ ctx_right c.
Proof.
  intros Hnd E. destruct (locate_complete x s []) as ([c n] & El); [rewrite E; set_solver |].
  destruct (locate_sound _ _ _ _ _ El) as (k & b & l & r & -> & -> & ->).
  rewrite app_nil_r in El. exists k, b, l, r.
  rewrite inorder_plug in Hnd, E. simpl in Hnd, E. rewrite <- app_assoc in Hnd, E.
  rewrite (app_assoc (ctx_left k)) in Hnd, E. simpl in Hnd, E.
  apply NoDup_cut in E as (<- & <-); auto.
Qed.

(** [avl_walk] goes to the neighbour in the order of the tree. *)
Lemma avl_walk_spec t x i l1 l2 :
  avl_wf t -> inorder (avl_root t) = l1 ++ x :: l2 ->
  avl_walk t x i = Ok (match i with I0 => last l1 | I1 => head l2 end).
Proof.
  intros [] E. destruct (locate_spec _ _ _ _ wf_nodup E) as (c & b & l & r & El & _ & -> & ->).
  unfold avl_walk. rewrite El. simpl deref. rewrite bind_Ok.
  destruct (is_leaf (child i (Node b x l r))) eqn:Hi; simpl negb; cbv iota.
  - rewrite climb_spec. destruct i; simpl in Hi |- *; [destruct l | destruct r]; try done;
      simpl; by rewrite ?app_nil_r.
  - rewrite descend_neighbour by (by intros E'; rewrite E' in Hi).
    f_equal. destruct i; simpl in Hi |- *.
    + rewrite last_app. destruct (last (inorder l)) eqn:El'; [done |].
      apply last_None, inorder_nil in El' as ->. done.
    + destruct (inorder r) eqn:Er; [| done]. by apply inorder_nil in Er as ->.
Qed.

Lemma locate_None x (s : tree A) c : x ∉ inorder s -> locate x s c = None.
Proof.
  intros Hx. destruct (locate x s c) as [[c' n] |] eqn:E; [| done].
  apply locate_sound in E as (k & b & l & r & _ & -> & ->).
  exfalso. apply Hx. rewrite inorder_plug. simpl. set_solver.
Qed.

(** Following the path to a node finds that node. *)
Lemma locate_plug_aux x c (s : tree A) k n :
  (forall k', locate x s k' = Some (k ++ k', n)) -> x ∉ ctx_left c ++ ctx_right c ->
  forall k', locate x (plug c s) k' = Some (k ++ c ++ k', n).
Proof.
  revert s k. induction c as [| [i b y q] c IH]; intros s k Hs Hx k'; [by apply Hs |].
  simpl plug. rewrite (IH _ (k ++ [Frame i b y q])).
  - by rewrite <- app_assoc.
  - intros k''. rewrite <- app_assoc. unfold refill. destruct i; simpl in Hx |- *;
      rewrite decide_False by set_solver; [by rewrite Hs |].
    rewrite locate_None by set_solver. apply Hs.
  - destruct i; simpl in Hx; set_solver.
Qed.

Lemma locate_plug x c b (l r : tree A) :
  NoDup (inorder (plug c (Node b x l r))) ->
  locate x (plug c (Node b x l r)) [] = Some (c, Node b x l r).
Proof.
  intros Hnd. rewrite (locate_plug_aux _ _ _ [] (Node b x l r)); [by rewrite app_nil_r | |].
  - intros k'. simpl. by rewrite decide_True.
  - rewrite inorder_plug in Hnd. simpl in Hnd. intros Hx.
    rewrite <- app_assoc, app_assoc in Hnd. apply NoDup_app in Hnd as (_ & Hd & Hnd).
    simpl in Hnd. apply NoDup_cons in Hnd as (Hn & _).
    apply elem_of_app in Hx as [Hx | Hx]; [| set_solver]. apply (Hd x); set_solver.
Qed.

Lemma index_at_inorder (s : tree A) w lo hi : index_at s w lo hi -> inorder s = lo ++ hi.
Proof.
  unfold index_at. destruct w as [[p |] i]; simpl; [| by intros (-> & -> & ->)].
  intros (c & b & c0 & c1 & -> & _ & H). rewrite inorder_plug.
  destruct i, H as (-> & ->); [done |]. by rewrite <- app_assoc.
Qed.

(** The nodes next to an insertion point. *)
Lemma avl_nearest_spec t w lo hi i :
  avl_wf t -> index_at (avl_root t) w lo hi ->
  avl_nearest t w i = Ok (match i with I0 => last lo | I1 => head hi end).
Proof.
  intros Hwf Hw. unfold avl_nearest, index_at in *. destruct w as [[p |] j]; simpl in *.
  - destruct Hw as (c & b & c0 & c1 & Et & Hleaf & H).
    assert (E : inorder (avl_root t) = (ctx_left c ++ inorder c0) ++ p :: inorder c1 ++ ctx_right c).
    { rewrite Et, inorder_plug. simpl. by rewrite <- !app_assoc. }
    destruct i, j; simpl; try (rewrite (avl_walk_spec _ _ _ _ _ Hwf E));
      destruct H as (-> & ->); simpl in *; subst; simpl; rewrite ?app_nil_r; try done.
    by rewrite app_assoc, last_snoc.
  - destruct Hw as (-> & -> & ->). by destruct i.
Qed.

(** Searching a tree whose nodes the comparison splits. *)
Lemma avl_find_spec compar t lo eq hi :
  inorder (avl_root t) = lo ++ eq ++ hi -> partitions compar lo eq hi ->
  match eq with
  | [] => exists w, avl_find compar t = Ok (inr w) /\ index_at (avl_root t) w lo hi
  | _ => exists x, x ∈ eq /\ avl_find compar t = Ok (inl x)
  end.
Proof.
  intros E P. pose proof (avl_find_loop_spec compar (avl_root t) [] None I0 lo eq hi E P eq_refl) as H.
  destruct eq; [| done]. simpl in H. by rewrite app_nil_r in H.
Qed.

(** Inserting at an insertion point. *)
Lemma avl_insert_spec t x w lo hi :
  avl_wf t -> index_at (avl_root t) w lo hi -> x ∉ lo ++ hi -> avl_numnodes t + 1 < W64 ->
  exists t', avl_insert t x w = Ok t' /\ avl_wf t' /\ inorder (avl_root t') = lo ++ x :: hi.
Proof.
  intros [] Hw Hx Hn. pose proof (index_at_inorder _ _ _ _ Hw) as Ei.
  assert (Hnd : NoDup (lo ++ x :: hi)).
  { rewrite Ei in wf_nodup. rewrite <- Permutation_middle. by apply NoDup_cons. }
  assert (En : u64_add (avl_numnodes t) 1 = Z.of_nat (length (lo ++ x :: hi))).
  { rewrite Ei in wf_numnodes. unfold u64_add. rewrite u64_small by (unfold is_u64; lia).
    rewrite wf_numnodes, !length_app. simpl. lia. }
  enough (exists s, avl_insert t x w = Ok (MkTree s (u64_add (avl_numnodes t) 1)) /\
                    balanced s /\ inorder s = lo ++ x :: hi) as (s & -> & B & E).
  { eexists; split; [done |]. split; [| done]. split; simpl; rewrite ?E; [done | done | done |].
    rewrite En, length_app in *. simpl. rewrite Ei, length_app in wf_numnodes. lia. }
  unfold avl_insert, index_at in *. destruct w as [[p |] i]; simpl in *.
  - destruct Hw as (c & b & c0 & c1 & Et & Hleaf & H). rewrite Et in *.
    rewrite locate_plug by done. simpl. destruct (proj1 (balanced_plug _ _) wf_balanced) as (B & C).
    rewrite (Hleaf : child i (Node b p c0 c1) = Leaf) || idtac.
    destruct (avl_insert_up_spec (Frame i b p (child (flip i) (Node b p c0 c1)) :: c)
                (Node 0 x Leaf Leaf)) as (s & E & Bs & Is).
    + done.
    + destruct B as (Hb & Hr & B0 & B1). simpl in C |- *.
      destruct i; simpl in *; subst; simpl in *;
        rewrite ?Z.max_comm with (m := 0) in *; repeat split; try done; lia.
    + done.
    + exists s. rewrite Is, inorder_plug.
      destruct i; simpl in *; subst; simpl; rewrite E; destruct H as (-> & ->);
        rewrite <- ?app_assoc; done.
  - destruct Hw as (-> & -> & ->). by exists (Node 0 x Leaf Leaf).
Qed.

(** Unlinking a node with at most one child, given with its parents. *)
Lemma avl_unlink_spec t c b x l r :
  l = Leaf \/ r = Leaf -> balanced (Node b x l r) -> ctx_balanced (height (Node b x l r)) c ->
  0 < avl_numnodes t ->
  exists s, avl_unlink t c (Node b x l r) = Ok (MkTree s (u64_sub (avl_numnodes t) 1)) /\
    balanced s /\ inorder s = ctx_left c ++ inorder l ++ inorder r ++ ctx_right c.
Proof.
  intros Hl (Hb & Hr & Bl & Br) C Hn. unfold avl_unlink.
  destruct (Z.ltb_spec 0 (avl_numnodes t)); [| lia]. simpl VERIFY. simpl mbind.
  pose proof (height_nonneg l). pose proof (height_nonneg r).
  match goal with |- context [avl_remove_up c ?m] => set (n := m) end.
  assert (balanced n /\ height n + 1 = height (Node b x l r) /\ inorder n = inorder l ++ inorder r)
    as (Bn & Hh & En).
  { subst n. destruct Hl as [-> | ->]; simpl in *.
    - repeat split; [done | lia].
    - destruct l; simpl in *; rewrite ?app_nil_r; split_and!; try tauto; lia. }
  rewrite <- Hh in C. destruct (avl_remove_up_spec c n Bn C) as (s & E & Bs & Es).
  exists s. simpl in E. rewrite E. split; [done |]. split; [done |].
  by rewrite Es, inorder_plug, En, <- !app_assoc.
Qed.

(** Removing a node with two children: its neighbour on the taller side is
    unlinked and takes its place. *)
Lemma avl_remove_swapped t c b x l r :
  balanced (Node b x l r) -> ctx_balanced (height (Node b x l r)) c -> 0 < avl_numnodes t ->
  negb (is_leaf l) && negb (is_leaf r) = true ->
  exists s,
    (left ← deref (avl_balance2child b) ;
     let '(below, node) := descend (flip left) (child left (Node b x l r)) [] in
     y ← deref (data_of node) ;
     avl_unlink t (below ++ Frame left b y (child (flip left) (Node b x l r)) :: c) node)
    = Ok (MkTree s (u64_sub (avl_numnodes t) 1)) /\ balanced s /\
    inorder s = (ctx_left c ++ inorder l) ++ inorder r ++ ctx_right c.
Proof.
  intros B C Hn Htwo. pose proof B as (_ & Hr & _ & _).
  assert (exists i, avl_balance2child b = Some i) as (i & ->).
  { assert (b = -1 \/ b = 0 \/ b = 1) as [-> | [-> | ->]] by lia; by eexists. }
  simpl deref. rewrite bind_Ok.
  destruct (descend_spec (flip i) (child i (Node b x l r)) []) as
    (k & b' & y & l' & r' & -> & Hc & Hp & Hk); [destruct i, l, r; done |].
  rewrite app_nil_r. simpl data_of. simpl deref. rewrite bind_Ok.
  assert (Hpl : balanced (plug (k ++ Frame i b x (child (flip i) (Node b x l r)) :: c)
                            (Node b' y l' r'))).
  { rewrite plug_app, <- Hp. change (plug (?f :: ?c) ?t) with (plug c (plug [f] t)).
    rewrite plug_child. by apply balanced_plug. }
  apply balanced_plug in Hpl as (B' & C').
  destruct (avl_unlink_spec t (k ++ Frame i b y (child (flip i) (Node b x l r)) :: c) b' y l' r')
    as (s & E & Bs & Is); [by destruct i; [right | left] | done | by eapply ctx_balanced_data | done |].
  exists s. split; [done |]. split; [done |]. rewrite Is, ctx_left_app, ctx_right_app.
  destruct i; simpl in *; rewrite Hp, inorder_plug, Hk; subst; simpl;
    repeat (rewrite <- app_assoc; simpl); rewrite ?app_nil_r; done.
Qed.

(** Removing a node. *)
Lemma avl_remove_spec t x l1 l2 :
  avl_wf t -> inorder (avl_root t) = l1 ++ x :: l2 ->
  exists t', avl_remove t x = Ok t' /\ avl_wf t' /\ inorder (avl_root t') = l1 ++ l2.
Proof.
  intros [] E.
  assert (Hlen : avl_numnodes t = Z.of_nat (length (l1 ++ l2)) + 1).
  { rewrite wf_numnodes, E, !length_app. simpl. lia. }
  enough (exists s, avl_remove t x = Ok (MkTree s (u64_sub (avl_numnodes t) 1)) /\
                    balanced s /\ inorder s = l1 ++ l2) as (s & -> & B & Es).
  { assert (u64_sub (avl_numnodes t) 1 = Z.of_nat (length (l1 ++ l2))) as En.
    { unfold u64_sub. rewrite u64_small by (unfold is_u64; lia). lia. }
    eexists; split; [done |]. split; [| done]. split; simpl; rewrite ?Es; [done | | done | lia].
    rewrite E, <- Permutation_middle in wf_nodup. by apply NoDup_cons in wf_nodup as (_ & ?). }
  destruct (locate_spec _ _ _ _ wf_nodup E) as (c & b & l & r & El & Et & -> & ->).
  unfold avl_remove. rewrite El. simpl deref. rewrite bind_Ok.
  rewrite Et in wf_balanced. destruct (proj1 (balanced_plug _ _) wf_balanced) as (B & C).
  destruct (negb (is_leaf l) && negb (is_leaf r)) eqn:Htwo.
  - apply avl_remove_swapped; try done; lia.
  - destruct (avl_unlink_spec t c b x l r) as (s & Eu & Bs & Is); [| done | done | lia |].
    + destruct l, r; simpl in Htwo; auto; done.
    + exists s. rewrite Is, <- !app_assoc. done.
Qed.

(** The walk of [avl_insert_here] stops where [descend] does. *)
Lemma insert_here_loop_spec (check : A -> bool) i (s : tree A) :
  s <> Leaf -> (forall z, z ∈ inorder s -> check z = true) ->
  exists k b p l r, insert_here_loop check i s = Ok p /\ s = plug k (Node b p l r) /\
    child i (Node b p l r) = Leaf /\
    match i with I0 => ctx_left k = [] | I1 => ctx_right k = [] end.
Proof.
  intros Hs Hck. destruct (descend_spec i s [] Hs) as (k & b & p & l & r & Hd & Hc & Hp & Hk).
  rewrite app_nil_r in Hd. exists k, b, p, l, r. split; [| done].
  assert (Hdata : data_of (descend i s []).2 = Some p) by (by rewrite Hd).
  clear Hd Hc Hp Hk k b l r. revert Hdata. generalize (@nil (frame A)).
  induction s as [| b x l IHl r IHr]; intros c Hdata; [done |].
  rewrite descend_step in Hdata. simpl insert_here_loop. rewrite Hck by (simpl; set_solver).
  simpl mbind. destruct i; simpl in Hdata |- *.
  - destruct (is_leaf l) eqn:El; [by injection Hdata as -> |].
    eapply IHl; [by intros -> | intros; apply Hck; simpl; set_solver | done].
  - destruct (is_leaf r) eqn:Er; [by injection Hdata as -> |].
    eapply IHr; [by intros -> | intros; apply Hck; simpl; set_solver | done].
Qed.

(** The missing child [avl_insert_here] finds next to a node. *)
Lemma here_index (check : A -> bool) i c b x (l r : tree A) :
  let n := Node b x l r in
  (forall z, z ∈ inorder (child i n) -> check z = true) ->
  exists p j,
    (if negb (is_leaf (child i n))
     then q ← insert_here_loop check (flip i) (child i n) ; Ok (MkIndex (Some q) (flip i))
     else Ok (MkIndex (Some x) i)) = Ok (MkIndex (Some p) j) /\
    index_at (plug c n) (MkIndex (Some p) j)
      (match i with I0 => ctx_left c ++ inorder l | I1 => ctx_left c ++ inorder l ++ [x] end)
      (match i with I0 => x :: inorder r ++ ctx_right c | I1 => inorder r ++ ctx_right c end).
Proof.
  intros n Hck. destruct (is_leaf (child i n)) eqn:Hleaf; simpl negb; cbv iota.
  - exists x, i. split; [done |]. exists c, b, l, r. split; [done |].
    split; [by destruct (child i n) eqn:? |].
    destruct i; [destruct l | destruct r]; simpl in *; try done; rewrite ?app_nil_r; done.
  - destruct (insert_here_loop_spec check (flip i) (child i n))
      as (k & b' & p & l' & r' & -> & Hk & Hc & Hs); [by intros Hx; rewrite Hx in Hleaf | done |].
    exists p, (flip i). split; [done |].
    exists (k ++ Frame i b x (child (flip i) n) :: c), b', l', r'. simpl ix_child.
    rewrite plug_app, <- Hk. change (plug (?f :: ?c) ?t) with (plug c (plug [f] t)).
    subst n. rewrite plug_child. split; [done |]. split; [done |].
    rewrite ctx_left_app, ctx_right_app.
    destruct i; simpl in *; rewrite Hk, inorder_plug, Hs; simpl;
      repeat (rewrite <- app_assoc; simpl); rewrite ?app_nil_r; done.
Qed.

(** The element is put right before or after [here], when it belongs there. *)
Lemma avl_insert_here_spec compar t y x i l1 l2 :
  avl_wf t -> inorder (avl_root t) = l1 ++ x :: l2 -> y ∉ l1 ++ x :: l2 ->
  avl_numnodes t + 1 < W64 ->
  match i with
  | I0 => compar y x = -1 /\ Forall (fun z => compar y z = 1) l1
  | I1 => compar y x = 1 /\ Forall (fun z => compar y z = -1) l2
  end ->
  exists t', avl_insert_here compar t y x i = Ok t' /\ avl_wf t' /\
    inorder (avl_root t') =
    match i with I0 => l1 ++ y :: x :: l2 | I1 => l1 ++ x :: y :: l2 end.
Proof.
  intros Hwf E Hy Hn Hcmp.
  destruct (locate_spec _ _ _ _ (wf_nodup _ Hwf) E) as (c & b & l & r & El & Et & -> & ->).
  unfold avl_insert_here. rewrite El. simpl deref. rewrite bind_Ok.
  assert (here_check compar y i x = true) as ->.
  { unfold here_check. destruct i, Hcmp as (-> & _); done. }
  simpl VERIFY. simpl mbind.
  destruct (here_index (here_check compar y (flip i)) i c b x l r) as (p & j & Ew & Hw).
  { intros z Hz. unfold here_check.
    destruct i, Hcmp as (_ & Hcmp); rewrite Forall_forall in Hcmp; rewrite Hcmp; simpl in *; set_solver. }
  rewrite <- Et in Hw.
  destruct (avl_insert_spec t y _ _ _ Hwf Hw) as (t' & E1 & Hwf' & E'); [| done |].
  { destruct i; [done |]. by rewrite <- app_assoc, <- app_assoc, app_assoc. }
  exists t'. split; [| split; [done |]].
  - rewrite <- E1. destruct (negb _); [| by injection Ew as -> ->].
    destruct (insert_here_loop _ _ _); [| done]. by injection Ew as -> ->.
  - rewrite E'. destruct i; [done |]. by rewrite <- !app_assoc.
Qed.

(** The first and last nodes are the ends of the order. *)
Lemma avl_first_spec (t : avl_tree A) : avl_first t = head (inorder (avl_root t)).
Proof.
  unfold avl_first. destruct (avl_root t) as [| b x l r] eqn:E; [done |].
  destruct (descend_spec I0 (Node b x l r) []) as (k & b' & y & l' & r' & -> & Hc & -> & Hk); [done |].
  simpl in Hc. rewrite inorder_plug, Hk. subst. done.
Qed.

Lemma avl_last_spec (t : avl_tree A) : avl_last t = last (inorder (avl_root t)).
Proof.
  unfold avl_last. destruct (avl_root t) as [| b x l r] eqn:E; [done |].
  destruct (descend_spec I1 (Node b x l r) []) as (k & b' & y & l' & r' & -> & Hc & -> & Hk); [done |].
  simpl in Hc. rewrite inorder_plug, Hk. subst. simpl. by rewrite app_nil_r, app_assoc, last_snoc.
Qed.

Lemma avl_create_wf : avl_wf (@avl_create A).
Proof. split; simpl; [done | constructor | done | done]. Qed.

(** *** Destroying a tree *)

(** What is still to be returned once the subtree in the hole is done: right
    siblings are untouched, left ones are gone. *)
Fixpoint destroy_rest (c : ctx A) : list A :=
  match c with
  | [] => []
  | f :: c' =>
      match fr_child f with I0 => postorder (fr_sib f) | I1 => [] end
      ++ fr_data f :: destroy_rest c'
  end.

Definition destroy_frame (f : frame A) : Prop :=
  match fr_child f with I0 => balanced (fr_sib f) | I1 => fr_sib f = Leaf end.

Definition cookie_of (c : ctx A) : cookie A :=
  match c with [] => CkDone | f :: _ => CkAt (fr_data f) (fr_child f) end.

(** The tree between two calls: the node returned last is the leaf the cookie
    points at, and [out] is what the next calls return. *)
Inductive destroy_state (t : avl_tree A) : cookie A -> list A -> Prop :=
| DestroyState c b x :
    avl_root t = plug c (Node b x Leaf Leaf) -> Forall destroy_frame c ->
    NoDup (inorder (avl_root t)) ->
    avl_numnodes t = Z.of_nat (length (inorder (avl_root t))) -> avl_numnodes t < W64 ->
    destroy_state t (cookie_of c) (destroy_rest c).

Lemma postorder_plug_left k (s : tree A) c :
  ctx_left k = [] ->
  postorder (plug k s) ++ destroy_rest c = postorder s ++ destroy_rest (k ++ c).
Proof.
  revert s. induction k as [| [[] b x q] k IH]; intros s Hk; simpl in Hk |- *; [done | |].
  - rewrite app_nil_r in Hk. rewrite IH by done. simpl. by rewrite <- !app_assoc.
  - by destruct (ctx_left k), (inorder q).
Qed.

Lemma left_frames k (s : tree A) :
  ctx_left k = [] -> balanced (plug k s) -> Forall destroy_frame k.
Proof.
  revert s. induction k as [| [[] b x q] k IH]; intros s Hk B; simpl in Hk, B; [constructor | |].
  - rewrite app_nil_r in Hk. pose proof B as B'. apply balanced_plug in B' as ((_ & _ & _ & Bq) & _).
    constructor; [done |]. eauto.
  - by destruct (ctx_left k), (inorder q).
Qed.

Lemma balanced_height_1 (s : tree A) :
  balanced s -> height s = 1 -> exists y, s = Node 0 y Leaf Leaf.
Proof.
  destruct s as [| b y l r]; simpl; [lia |]. intros (Hb & Hr & _ & _) Hh.
  pose proof (height_nonneg l). pose proof (height_nonneg r).
  destruct l as [| ? ? l1 l2]; [| pose proof (height_nonneg l1); pose proof (height_nonneg l2); simpl in *; lia].
  destruct r as [| ? ? r1 r2]; [| pose proof (height_nonneg r1); pose proof (height_nonneg r2); simpl in *; lia].
  simpl in Hb. exists y. f_equal. lia.
Qed.

Lemma destroy_check_right_spec t c b x (r : tree A) :
  avl_root t = plug c (Node b x Leaf r) -> balanced (Node b x Leaf r) -> Forall destroy_frame c ->
  NoDup (inorder (avl_root t)) ->
  avl_numnodes t = Z.of_nat (length (inorder (avl_root t))) -> avl_numnodes t < W64 ->
  exists ck y out, destroy_check_right t c (Node b x Leaf r) = Ok (t, ck, Some y) /\
    destroy_state t ck out /\ y :: out = postorder r ++ x :: destroy_rest c.
Proof.
  intros Et (Hb & Hr & _ & Br) Hc Hnd Hnum Hlt. unfold destroy_check_right.
  destruct r as [| rb y r1 r2] eqn:Er; simpl is_leaf; simpl negb; cbv iota.
  - exists (cookie_of c), x, (destroy_rest c). split; [| split; [by econstructor | done]].
    simpl in Hb. subst b. simpl. by destruct c.
  - assert (height r = 1) as H1.
    { subst r. simpl in *. pose proof (height_nonneg r1). pose proof (height_nonneg r2). lia. }
    rewrite <- Er in *. destruct (balanced_height_1 r Br H1) as (z & ->). injection Er as <- <- <- <-.
    simpl in Hb. subst b. simpl.
    eexists (CkAt x I1), z, (x :: destroy_rest c). split; [done |]. split; [| done].
    apply (DestroyState t (Frame I1 1 x Leaf :: c) 0 z); [done | by constructor | done..].
Qed.

(** Cutting off a leaf keeps the bookkeeping of the tree. *)
Lemma destroy_shrink t c x (n n' : tree A) :
  avl_root t = plug c n -> Permutation (inorder n) (x :: inorder n') -> inorder n' <> [] ->
  NoDup (inorder (avl_root t)) ->
  avl_numnodes t = Z.of_nat (length (inorder (avl_root t))) -> avl_numnodes t < W64 ->
  let t' := MkTree (plug c n') (u64_sub (avl_numnodes t) 1) in
  1 < avl_numnodes t /\ NoDup (inorder (avl_root t')) /\
  avl_numnodes t' = Z.of_nat (length (inorder (avl_root t'))) /\ avl_numnodes t' < W64.
Proof.
  intros Et Hp Hne Hnd Hnum Hlt.
  assert (P : Permutation (inorder (avl_root t)) (x :: inorder (plug c n'))).
  { rewrite Et, !inorder_plug, Hp. simpl. symmetry. apply Permutation_middle. }
  assert (Hpos : inorder (plug c n') <> []).
  { rewrite inorder_plug. intros [_ [? _]%app_nil]%app_nil. done. }
  rewrite P in Hnd. apply NoDup_cons in Hnd as (_ & Hnd).
  assert (Hl : avl_numnodes t = Z.of_nat (length (inorder (plug c n'))) + 1).
  { rewrite Hnum, P. simpl. lia. }
  assert (0 < length (inorder (plug c n')))%nat by (destruct (inorder (plug c n')); simpl; [done | lia]).
  simpl. unfold u64_sub. rewrite u64_small by (unfold is_u64; lia).
  repeat split; [lia | done | lia | lia].
Qed.

(** One call of [avl_destroy_nodes] returns the next node, or the empty tree. *)
Lemma avl_destroy_nodes_step t ck out :
  destroy_state t ck out ->
  match out with
  | [] => avl_destroy_nodes t ck = Ok (MkTree Leaf 0, CkDone, None)
  | y :: out' => exists t' ck', avl_destroy_nodes t ck = Ok (t', ck', Some y) /\
                   destroy_state t' ck' out'
  end.
Proof.
  intros [c b x Et Hc Hnd Hnum Hlt]. destruct c as [| [i fb p q] c].
  { simpl in *. rewrite Et in *. simpl in *. rewrite Hnum. done. }
  apply Forall_cons in Hc as (Hf & Hc). unfold destroy_frame in Hf. simpl in Hf.
  unfold avl_destroy_nodes. simpl cookie_of. cbv iota. simpl plug in Et.
  destruct i; unfold refill in Et; simpl in Et; rewrite Et, locate_plug by congruence;
    simpl deref; rewrite bind_Ok.
  - destruct (destroy_shrink t c x _ (Node fb p Leaf q) Et) as (H1 & Hnd' & Hnum' & Hlt');
      [done | done | done | done | done |].
    apply Z.ltb_lt in H1. rewrite H1. simpl VERIFY. simpl mbind.
    simpl destroy_rest. destruct q as [| qb qx q1 q2] eqn:Eq.
    + simpl. eexists _, (cookie_of c). split; [by destruct c |]. by apply (DestroyState _ c fb p).
    + rewrite <- Eq in *. assert (Hq : is_leaf q = false) by (by subst q).
      cbn [bool_decide orb child]. rewrite Hq. simpl orb. cbv iota.
      destruct (descend_spec I0 q (Frame I1 fb p Leaf :: c)) as (k & b' & y & l' & r' & -> & Hl & Hk & Hleft);
        [by subst q |]. simpl in Hl. subst l'.
      destruct (destroy_check_right_spec (MkTree (plug c (Node fb p Leaf q)) (u64_sub (avl_numnodes t) 1))
                  (k ++ Frame I1 fb p Leaf :: c) b' y r') as (ck2 & z & out2 & E & Hst & Hout); try done.
      * rewrite plug_app, <- Hk. done.
      * rewrite Hk in Hf. by apply balanced_plug in Hf as (? & _).
      * apply Forall_app. split; [| by constructor]. rewrite Hk in Hf. by eapply left_frames.
      * assert (Ho : postorder q ++ p :: destroy_rest c = z :: out2).
        { pose proof (postorder_plug_left k (Node b' y Leaf r') (Frame I1 fb p Leaf :: c) Hleft) as Hp.
          simpl in Hp. rewrite <- app_assoc in Hp. by rewrite Hout, Hk. }
        rewrite E, Ho. eauto.
  - subst q. destruct (destroy_shrink t c x _ (Node fb p Leaf Leaf) Et) as (H1 & Hnd' & Hnum' & Hlt');
      [simpl; by rewrite Permutation_swap | done | done | done | done |].
    apply Z.ltb_lt in H1. rewrite H1. simpl.
    eexists _, (cookie_of c). split; [by destruct c |]. by apply (DestroyState _ c fb p).
Qed.

(** The calls up to the first null return every node once, children first,
    and leave the empty tree. *)
Lemma destroy_loop_state fuel t ck out :
  destroy_state t ck out -> (length out < fuel)%nat ->
  destroy_loop fuel t ck = Ok (MkTree Leaf 0, out).
Proof.
  revert t ck out. induction fuel as [| n IH]; intros t ck out Hst Hf; [lia |].
  pose proof (avl_destroy_nodes_step _ _ _ Hst) as Hs. simpl. destruct out as [| y out].
  - by rewrite Hs.
  - destruct Hs as (t' & ck' & -> & Hst'). rewrite bind_Ok. simpl in Hf.
    rewrite (IH _ _ _ Hst') by lia. done.
Qed.

Lemma destroy_loop_spec t fuel :
  avl_wf t -> avl_numnodes t < Z.of_nat fuel ->
  destroy_loop fuel t CkNull = Ok (MkTree Leaf 0, postorder (avl_root t)).
Proof.
  intros [] Hf. destruct fuel as [| n]; [lia |]. simpl destroy_loop. unfold avl_destroy_nodes.
  destruct (avl_root t) as [| rb rx rl rr] eqn:Et.
  { simpl. simpl in wf_numnodes. destruct t; simpl in *. by subst. }
  rewrite <- Et in *.
  destruct (descend_spec I0 (avl_root t) []) as (k & b & y & l & r & -> & Hl & Hk & Hleft);
    [by rewrite Et |]. simpl in Hl. subst l. rewrite app_nil_r.
  pose proof wf_balanced as B. rewrite Hk in B. pose proof B as B'. apply balanced_plug in B' as (B' & _).
  destruct (destroy_check_right_spec t k b y r) as (ck & z & out & E & Hst & Hout); try done.
  { by eapply left_frames. }
  rewrite E, bind_Ok.
  assert (Hpost : postorder (avl_root t) = z :: out).
  { pose proof (postorder_plug_left k (Node b y Leaf r) [] Hleft) as Hp.
    rewrite <- Hk, !app_nil_r in Hp. rewrite Hp, Hout. simpl. by rewrite <- app_assoc. }
  rewrite (destroy_loop_state n t ck out Hst), Hpost; [done |].
  assert (length (postorder (avl_root t)) = length (inorder (avl_root t))) as Hlen by apply postorder_length.
  rewrite Hpost in Hlen. simpl in Hlen. lia.
Qed.

End pointer_facts.
