(* ===== verification/AvlThms.v ===== *)
(** * What the AVL library promises

    The operations of avl.c on trees ordered by a comparison function, as the
    users of sys/avl.h see them. *)
From S2P Require Import Prelude Avl AvlSpec.
From stdpp Require Import sorting.
Local Open Scope Z_scope.

(** What avl.c asks of the comparison function of a tree. *)
Record comparator {A} (compar : A -> A -> Z) : Prop := {
  cmp_range x y : compar x y = -1 \/ compar x y = 0 \/ compar x y = 1;
  cmp_anti x y : compar y x = - compar x y;
  cmp_trans x y z : compar x y = -1 -> compar y z = -1 -> compar x z = -1;
  cmp_equal x y z : compar x y = 0 -> compar x z = compar y z }.

Section ordered.
Context {A : Type} `{!EqDecision A} (compar : A -> A -> Z) (Hcmp : comparator compar).
Implicit Types (t : avl_tree A) (l : list A) (x y z : A).

Definition less x y : Prop := compar x y = -1.
Definition ordered l : Prop := StronglySorted less l.

Lemma compar_refl x : compar x x = 0.
Proof. pose proof (cmp_anti _ Hcmp x x). lia. Qed.

Lemma ordered_middle l1 x l2 :
  ordered (l1 ++ x :: l2) <->
  ordered (l1 ++ l2) /\ Forall (fun y => compar x y = 1) l1 /\ Forall (fun y => compar x y = -1) l2.
Proof.
  unfold ordered. rewrite !StronglySorted_app, !Forall_forall. unfold less. split.
  - intros (H & H1 & H2). inversion_clear H2 as [| ? ? Hs Hf]. rewrite Forall_forall in Hf.
    split_and!; try done; intros; [apply H; set_solver |].
    pose proof (cmp_anti _ Hcmp x x0). specialize (H x0 x ltac:(done) ltac:(set_solver)). lia.
  - intros ((H & H1 & H2) & Hlo & Hhi). split_and!; try done.
    + intros a b Ha [-> | Hb]%elem_of_cons; [| auto]. pose proof (cmp_anti _ Hcmp x a). specialize (Hlo a Ha). lia.
    + constructor; [done | by rewrite Forall_forall].
Qed.

(** The comparison with any [x] splits an ordered list. *)
Lemma ordered_split x l :
  ordered l -> exists lo eq hi, l = lo ++ eq ++ hi /\ partitions (compar x) lo eq hi /\ (length eq <= 1)%nat.
Proof.
  induction 1 as [| y l Hs IH Hf]; [by exists [], [], []; repeat split; auto; constructor |].
  rewrite Forall_forall in Hf. unfold less in Hf.
  destruct (cmp_range _ Hcmp x y) as [E | [E | E]].
  - exists [], [], (y :: l). split_and!; [done | | simpl; lia]. repeat split; try constructor; auto.
    apply Forall_forall. intros z Hz. eapply (cmp_trans _ Hcmp); eauto.
  - exists [], [y], l. split_and!; [done | | simpl; lia]. repeat split; repeat constructor; auto.
    apply Forall_forall. intros z Hz. rewrite (cmp_equal _ Hcmp x y z E). auto.
  - destruct IH as (lo & eq & hi & -> & (P1 & P2 & P3) & Hl). exists (y :: lo), eq, hi.
    split_and!; [done | | done]. repeat split; auto.
Qed.

Lemma partitions_ordered x lo hi : ordered (lo ++ hi) -> partitions (compar x) lo [] hi -> ordered (lo ++ x :: hi).
Proof. intros Ho (P1 & _ & P3). by apply ordered_middle. Qed.

(** Adding an element that compares equal to none. *)
Lemma add_ordered t x :
  avl_wf t -> ordered (inorder (avl_root t)) -> avl_numnodes t + 1 < W64 ->
  Forall (fun y => compar x y <> 0) (inorder (avl_root t)) ->
  exists t' lo hi, avl_add compar t x = Ok t' /\ avl_wf t' /\
    inorder (avl_root t) = lo ++ hi /\ inorder (avl_root t') = lo ++ x :: hi /\
    ordered (inorder (avl_root t')).
Proof.
  intros Hwf Ho Hn Hne. destruct (ordered_split x _ Ho) as (lo & eq & hi & E & P & _).
  destruct eq as [| y eq].
  - destruct (avl_find_spec _ t _ _ _ E P) as (w & Hf & Hw). unfold avl_add. rewrite Hf. simpl.
    destruct (avl_insert_spec t x w lo hi Hwf Hw) as (t' & -> & Hwf' & E').
    + intros Hx. rewrite E, Forall_forall in Hne. apply (Hne x Hx), compar_refl.
    + done.
    + exists t', lo, hi. split_and!; try done. rewrite E'. apply partitions_ordered; [by rewrite E in Ho | done].
  - destruct P as (_ & P & _). inversion_clear P as [| ? ? Hy _]. rewrite E, Forall_forall in Hne.
    destruct (Hne y); [set_solver | done].
Qed.

(** C19: [avl_add] keeps the tree balanced, its count right and its nodes
    ordered, and adds exactly the new node; a node that compares equal to one
    of the tree is a panic. *)
Theorem avl_add_correct t x :
  avl_wf t -> ordered (inorder (avl_root t)) -> avl_numnodes t + 1 < W64 ->
  (Forall (fun y => compar x y <> 0) (inorder (avl_root t)) ->
    runs (avl_add compar t x) (fun t' => avl_wf t' /\ ordered (inorder (avl_root t')) /\
      Permutation (inorder (avl_root t')) (x :: inorder (avl_root t)))) /\
  (Exists (fun y => compar x y = 0) (inorder (avl_root t)) -> avl_add compar t x = Panic).
Proof.
  intros Hwf Ho Hn. split; intros H.
  - destruct (add_ordered t x Hwf Ho Hn H) as (t' & lo & hi & -> & Hwf' & E & E' & Ho'). simpl.
    split_and!; try done. by rewrite E', E, Permutation_middle.
  - destruct (ordered_split x _ Ho) as (lo & eq & hi & E & P & _). destruct eq as [| y eq].
    + exfalso. rewrite E in H. apply Exists_exists in H as (y & Hy & Ey). destruct P as (P1 & _ & P3).
      rewrite Forall_forall in P1, P3. apply elem_of_app in Hy as [Hy | Hy]; [specialize (P1 y Hy) | specialize (P3 y Hy)]; lia.
    + destruct (avl_find_spec _ t _ _ _ E P) as (z & _ & Hf). unfold avl_add. by rewrite Hf.
Qed.

(** [avl_find] returns the node that compares equal when there is one, and
    otherwise an insertion point whose nearest nodes are the greatest smaller
    and the least greater one. *)
Theorem avl_find_correct t x :
  avl_wf t -> ordered (inorder (avl_root t)) ->
  (exists y, avl_find (compar x) t = Ok (inl y) /\ y ∈ inorder (avl_root t) /\ compar x y = 0) \/
  (exists w lo hi, avl_find (compar x) t = Ok (inr w) /\ inorder (avl_root t) = lo ++ hi /\
     Forall (fun y => compar x y = 1) lo /\ Forall (fun y => compar x y = -1) hi /\
     avl_nearest t w AVL_BEFORE = Ok (last lo) /\ avl_nearest t w AVL_AFTER = Ok (head hi)).
Proof.
  intros Hwf Ho. destruct (ordered_split x _ Ho) as (lo & eq & hi & E & P & _).
  pose proof (avl_find_spec _ t _ _ _ E P) as Hf. destruct eq as [| y eq].
  - destruct Hf as (w & Hf & Hw). right. exists w, lo, hi. destruct P as (P1 & _ & P3).
    split_and!; try done; by apply (avl_nearest_spec t w lo hi).
  - left. destruct Hf as (z & Hz & Hf). exists z. split_and!; [done | rewrite E; rewrite !elem_of_app; tauto |].
    destruct P as (_ & P & _). rewrite Forall_forall in P. by apply P.
Qed.

(** C18: [avl_remove] of a node of the tree keeps the tree balanced, counted
    and ordered, and removes exactly that node. *)
Theorem avl_remove_correct t l1 x l2 :
  avl_wf t -> ordered (inorder (avl_root t)) -> inorder (avl_root t) = l1 ++ x :: l2 ->
  runs (avl_remove t x) (fun t' => avl_wf t' /\ ordered (inorder (avl_root t')) /\
    inorder (avl_root t') = l1 ++ l2 /\ avl_numnodes t' = avl_numnodes t - 1).
Proof.
  intros Hwf Ho E. destruct (avl_remove_spec t x l1 l2 Hwf E) as (t' & -> & Hwf' & E'). simpl.
  rewrite E in Ho. apply ordered_middle in Ho as (Ho & _). rewrite E'. split_and!; try done.
  rewrite (wf_numnodes _ Hwf), (wf_numnodes _ Hwf'), E, E', !length_app. simpl. lia.
Qed.

Lemma reinsert_ordered t l1 x l2 :
  avl_wf t -> inorder (avl_root t) = l1 ++ x :: l2 -> ordered (l1 ++ l2) ->
  Forall (fun y => compar x y <> 0) (l1 ++ l2) ->
  exists t', avl_reinsert compar t x = Ok t' /\ avl_wf t' /\ ordered (inorder (avl_root t')) /\
    Permutation (inorder (avl_root t')) (inorder (avl_root t)).
Proof.
  intros Hwf E Ho Hne. destruct (avl_remove_spec t x l1 l2 Hwf E) as (t1 & E1 & Hwf1 & I1).
  unfold avl_reinsert. rewrite E1. simpl. rewrite <- I1 in Ho, Hne.
  destruct (add_ordered t1 x Hwf1 Ho) as (t' & lo & hi & -> & Hwf' & Elo & E' & Ho'); [| done |].
  - rewrite (wf_numnodes _ Hwf1), I1. pose proof (wf_count _ Hwf). rewrite (wf_numnodes _ Hwf), E in H.
    rewrite length_app in *. simpl in H. lia.
  - exists t'. split_and!; try done. rewrite E', E, <- !Permutation_middle, <- Elo, I1. done.
Qed.

Lemma last_greatest l1 x : ordered l1 ->
  match last l1 with Some y => compar x y = 1 | None => True end -> Forall (fun y => compar x y = 1) l1.
Proof.
  intros Ho Hl. destruct l1 as [| y l1 _] using rev_ind; [constructor |]. rewrite last_snoc in Hl.
  apply Forall_app. split; [| by repeat constructor]. apply ordered_middle in Ho as (_ & Ho & _).
  rewrite Forall_forall in *. intros z Hz. specialize (Ho z Hz).
  pose proof (cmp_anti _ Hcmp x y). pose proof (cmp_anti _ Hcmp y z). pose proof (cmp_anti _ Hcmp x z).
  pose proof (cmp_trans _ Hcmp z y x). lia.
Qed.

Lemma head_least l2 x : ordered l2 ->
  match head l2 with Some y => compar x y = -1 | None => True end -> Forall (fun y => compar x y = -1) l2.
Proof.
  intros Ho Hl. destruct l2 as [| y l2]; [constructor |]. simpl in Hl. constructor; [done |].
  apply (ordered_middle []) in Ho as (_ & _ & Ho). rewrite Forall_forall in *. intros z Hz.
  apply (cmp_trans _ Hcmp x y z); auto.
Qed.

Lemma neighbor_last l1 x b :
  neighbor_test (last l1) (fun n => compar x n <? 0) = b -> Forall (fun y => compar x y <> 0) l1 -> b = false ->
  match last l1 with Some y => compar x y = 1 | None => True end.
Proof.
  intros <- Hne. destruct (last l1) as [y |] eqn:El; simpl; [| done]. rewrite Z.ltb_ge. intros.
  apply last_Some in El as (k & ->). apply Forall_app in Hne as (_ & Hne). inversion_clear Hne.
  destruct (cmp_range _ Hcmp x y) as [? | [? | ?]]; lia.
Qed.

Lemma neighbor_head l2 x b :
  neighbor_test (head l2) (fun n => 0 <? compar x n) = b -> Forall (fun y => compar x y <> 0) l2 -> b = false ->
  match head l2 with Some y => compar x y = -1 | None => True end.
Proof.
  intros <- Hne. destruct l2 as [| y l2]; simpl; [done |]. rewrite Z.ltb_ge. intros. inversion_clear Hne.
  destruct (cmp_range _ Hcmp x y) as [? | [? | ?]]; lia.
Qed.

(** [avl_update], called after the key of one node [x] changed in place so
    that the other nodes are still in order: the tree is ordered again, has
    the same nodes and is balanced, and the result says whether the node was
    moved, which happens only when it was out of order. *)
Theorem avl_update_correct t l1 x l2 :
  avl_wf t -> inorder (avl_root t) = l1 ++ x :: l2 -> ordered (l1 ++ l2) ->
  Forall (fun y => compar x y <> 0) (l1 ++ l2) ->
  runs (avl_update compar t x) (fun '(t', moved) =>
    avl_wf t' /\ ordered (inorder (avl_root t')) /\
    Permutation (inorder (avl_root t')) (inorder (avl_root t)) /\
    (moved = false <-> ordered (inorder (avl_root t))) /\ (moved = false -> t' = t)).
Proof.
  intros Hwf E Ho Hne. unfold avl_update, AVL_PREV, AVL_NEXT.
  rewrite (avl_walk_spec t x AVL_BEFORE l1 l2 Hwf E), bind_Ok. simpl.
  destruct (reinsert_ordered t l1 x l2 Hwf E Ho Hne) as (t' & Er & Hwf' & Ho' & HP).
  pose proof Hne as (Hne1 & Hne2)%Forall_app.
  assert (Hmid : ordered (l1 ++ x :: l2) <-> Forall (fun y => compar x y = 1) l1 /\ Forall (fun y => compar x y = -1) l2)
    by (rewrite ordered_middle; tauto).
  destruct (neighbor_test (last l1) _) eqn:Ep.
  - rewrite Er. simpl. split_and!; try done. rewrite E, Hmid. split; [done |]. intros (Hf & _).
    destruct (last l1) as [y |] eqn:El; simpl in Ep; [| done]. apply last_Some in El as (k & ->).
    apply Forall_app in Hf as (_ & Hf). inversion_clear Hf. lia.
  - rewrite (avl_walk_spec t x AVL_AFTER l1 l2 Hwf E), bind_Ok. simpl.
    destruct (neighbor_test (head l2) _) eqn:En.
    + rewrite Er. simpl. split_and!; try done. rewrite E, Hmid. split; [done |]. intros (_ & Hf).
      destruct l2 as [| y l2]; simpl in En; [done |]. inversion_clear Hf. lia.
    + simpl. assert (ordered (l1 ++ x :: l2)) as Hord.
      { unfold ordered in Ho. rewrite StronglySorted_app in Ho. destruct Ho as (_ & Ho1 & Ho2). apply Hmid. split.
        - apply last_greatest; [done |]. by eapply neighbor_last.
        - apply head_least; [done |]. by eapply neighbor_head. }
      rewrite E. done.
Qed.
End ordered.

(** The teardown loop [while (avl_destroy_nodes(...))] ends after one call
    per node, returns every node exactly once and its children before it, and
    leaves an empty tree that [avl_destroy] accepts. *)
Theorem avl_destroy_nodes_correct {A} `{!EqDecision A} (t : avl_tree A) fuel :
  avl_wf t -> avl_numnodes t < Z.of_nat fuel ->
  runs (destroy_loop fuel t CkNull) (fun '(t', xs) =>
    xs = postorder (avl_root t) /\ Permutation xs (inorder (avl_root t)) /\
    Z.of_nat (length xs) = avl_numnodes t /\ avl_destroy t' = Ok tt).
Proof.
  intros Hwf Hf. rewrite destroy_loop_spec by done. simpl. split_and!; try done.
  - apply postorder_inorder.
  - by rewrite postorder_length, (wf_numnodes _ Hwf).
Qed.





(** ** Instances: integers compared by a key *)
Definition key_compar (key : Z -> Z) (x y : Z) : Z :=
  if key x <? key y then -1 else if key y <? key x then 1 else 0.

Lemma key_comparator key : comparator (key_compar key).
Proof.
  split; intros *; unfold key_compar; repeat case_match; lia.
Qed.

Definition demo_tree : avl_tree Z :=
  match foldl (fun r x => t ← r ; avl_add (key_compar id) t x) (Ok avl_create) [5; 3; 8; 1; 4; 7; 2] with
  | Ok t => t | Panic => avl_create
  end.

Lemma demo_tree_wf : avl_wf demo_tree.
Proof.
  split; [vm_compute; repeat split; discriminate | | reflexivity | reflexivity].
  apply (bool_decide_unpack _). vm_compute. exact I.
Qed.

Lemma demo_tree_ordered : ordered (key_compar id) (inorder (avl_root demo_tree)).
Proof. change (inorder (avl_root demo_tree)) with [1; 2; 3; 4; 5; 7; 8]. repeat constructor. Qed.

(** The key of the node 3 is now 10. *)
Definition moved_key (x : Z) : Z := if x =? 3 then 10 else x.

Lemma avl_add_correct_witness :
  runs (avl_add (key_compar id) demo_tree 6) (fun t' => avl_wf t' /\ ordered (key_compar id) (inorder (avl_root t')) /\
    Permutation (inorder (avl_root t')) (6 :: inorder (avl_root demo_tree))).
Proof.
  apply (avl_add_correct _ (key_comparator id) demo_tree 6 demo_tree_wf demo_tree_ordered); [reflexivity |].
  change (inorder (avl_root demo_tree)) with [1; 2; 3; 4; 5; 7; 8]. repeat constructor; discriminate.
Defined.

Lemma avl_find_correct_witness :
  (exists y, avl_find (key_compar id 4) demo_tree = Ok (inl y) /\ y ∈ inorder (avl_root demo_tree) /\ key_compar id 4 y = 0) \/
  (exists w lo hi, avl_find (key_compar id 4) demo_tree = Ok (inr w) /\ inorder (avl_root demo_tree) = lo ++ hi /\
     Forall (fun y => key_compar id 4 y = 1) lo /\ Forall (fun y => key_compar id 4 y = -1) hi /\
     avl_nearest demo_tree w AVL_BEFORE = Ok (last lo) /\ avl_nearest demo_tree w AVL_AFTER = Ok (head hi)).
Proof. exact (avl_find_correct _ (key_comparator id) demo_tree 4 demo_tree_wf demo_tree_ordered). Defined.

Lemma avl_remove_correct_witness :
  runs (avl_remove demo_tree 5) (fun t' => avl_wf t' /\ ordered (key_compar id) (inorder (avl_root t')) /\
    inorder (avl_root t') = [1; 2; 3; 4; 7; 8] /\ avl_numnodes t' = avl_numnodes demo_tree - 1).
Proof. exact (avl_remove_correct _ (key_comparator id) demo_tree [1; 2; 3; 4] 5 [7; 8] demo_tree_wf demo_tree_ordered eq_refl). Defined.

Lemma avl_update_correct_witness :
  runs (avl_update (key_compar moved_key) demo_tree 3) (fun '(t', moved) =>
    avl_wf t' /\ ordered (key_compar moved_key) (inorder (avl_root t')) /\
    Permutation (inorder (avl_root t')) (inorder (avl_root demo_tree)) /\
    (moved = false <-> ordered (key_compar moved_key) (inorder (avl_root demo_tree))) /\
    (moved = false -> t' = demo_tree)).
Proof.
  apply (avl_update_correct _ (key_comparator moved_key) demo_tree [1; 2] 3 [4; 5; 7; 8] demo_tree_wf eq_refl);
    repeat constructor; discriminate.
Defined.

Lemma avl_destroy_nodes_correct_witness :
  runs (destroy_loop 8 demo_tree CkNull) (fun '(t', xs) =>
    xs = [2; 1; 4; 3; 7; 8; 5] /\ Permutation xs (inorder (avl_root demo_tree)) /\
    Z.of_nat (length xs) = avl_numnodes demo_tree /\ avl_destroy t' = Ok tt).
Proof. exact (avl_destroy_nodes_correct demo_tree 8 demo_tree_wf eq_refl). Defined.

