(* ===== verification/OrdTree.v ===== *)
(** * The interface of the AVL library to its users

    What sys/avl.h promises: a container of node pointers kept in an order,
    with insertion points between neighbours. [AvlOps] lists the operations,
    [AvlLaws] states them on the sequence of nodes ([t_elems]); the users of
    the library (range trees, space maps) are written and proved against these
    classes, and the instance at the end discharges the laws with the theorems
    of [AvlSpec]. *)
From S2P Require Import Prelude Avl AvlSpec.
Local Open Scope Z_scope.

Class AvlOps (A T : Type) := {
  t_create : T;
  t_find : (A -> Z) -> T -> result (A + avl_index A);
  t_nearest : T -> avl_index A -> ix -> result (option A);
  t_insert : T -> A -> avl_index A -> result T;
  t_insert_here : (A -> A -> Z) -> T -> A -> A -> ix -> result T;
  t_remove : T -> A -> result T;
  t_first : T -> option A;
  t_last : T -> option A;
  t_next : T -> A -> result (option A);
  t_numnodes : T -> Z;
  (** the loop over [avl_destroy_nodes], with the nodes in the order it
      returns them *)
  t_destroy_nodes : T -> result (T * list A);
  (** for statements only *)
  t_elems : T -> list A;
  t_wf : T -> Prop;
  t_gap : T -> avl_index A -> list A -> list A -> Prop }.

Class AvlLaws (A T : Type) `{AvlOps A T} : Prop := {
  law_create : t_wf t_create /\ t_elems t_create = [];
  law_nodup t : t_wf t -> NoDup (t_elems t);
  law_numnodes t : t_wf t -> t_numnodes t = Z.of_nat (length (t_elems t));
  law_find compar t lo eq hi :
    t_wf t -> t_elems t = lo ++ eq ++ hi -> partitions compar lo eq hi ->
    match eq with
    | [] => exists w, t_find compar t = Ok (inr w) /\ t_gap t w lo hi
    | _ => exists x, x ∈ eq /\ t_find compar t = Ok (inl x)
    end;
  law_nearest t w lo hi i :
    t_wf t -> t_gap t w lo hi ->
    t_nearest t w i = Ok (match i with I0 => last lo | I1 => head hi end);
  law_insert t x w lo hi :
    t_wf t -> t_gap t w lo hi -> x ∉ lo ++ hi -> t_numnodes t + 1 < W64 ->
    exists t', t_insert t x w = Ok t' /\ t_wf t' /\ t_elems t' = lo ++ x :: hi;
  law_insert_after compar t y x l1 l2 :
    t_wf t -> t_elems t = l1 ++ x :: l2 -> y ∉ l1 ++ x :: l2 -> t_numnodes t + 1 < W64 ->
    compar y x = 1 -> Forall (fun z => compar y z = -1) l2 ->
    exists t', t_insert_here compar t y x AVL_AFTER = Ok t' /\ t_wf t' /\
      t_elems t' = l1 ++ x :: y :: l2;
  law_remove t x l1 l2 :
    t_wf t -> t_elems t = l1 ++ x :: l2 ->
    exists t', t_remove t x = Ok t' /\ t_wf t' /\ t_elems t' = l1 ++ l2;
  law_first t : t_wf t -> t_first t = head (t_elems t);
  law_last t : t_wf t -> t_last t = last (t_elems t);
  law_next t x l1 l2 : t_wf t -> t_elems t = l1 ++ x :: l2 -> t_next t x = Ok (head l2);
  law_destroy t :
    t_wf t -> exists t' xs, t_destroy_nodes t = Ok (t', xs) /\ t_wf t' /\ t_elems t' = [] /\
      Permutation xs (t_elems t) }.

(** [avl_add] *)
Definition t_add {A T} `{!AvlOps A T} (compar : A -> A -> Z) (t : T) (x : A) : result T :=
  r ← t_find (compar x) t ;
  match r with
  | inl _ => Panic
  | inr w => t_insert t x w
  end.

Section walk.
Context {A T : Type} `{!AvlOps A T}.

(** [for (x = avl_first(t); x != NULL; x = AVL_NEXT(t, x))] *)
Fixpoint t_walk_from (fuel : nat) (t : T) (o : option A) : result (list A) :=
  match o with
  | None => Ok []
  | Some x =>
      match fuel with
      | O => Panic
      | S n => o' ← t_next t x ; xs ← t_walk_from n t o' ; Ok (x :: xs)
      end
  end.

Definition t_walk (t : T) : result (list A) :=
  t_walk_from (Z.to_nat (t_numnodes t)) t (t_first t).

Context `{!AvlLaws A T}.

Lemma t_walk_from_spec fuel t l1 l2 :
  t_wf t -> t_elems t = l1 ++ l2 -> (length l2 <= fuel)%nat ->
  t_walk_from fuel t (head l2) = Ok l2.
Proof.
  intros Hwf. revert l1 l2. induction fuel as [| n IH]; intros l1 l2 E Hl.
  - destruct l2; [done | simpl in Hl; lia].
  - destruct l2 as [| x l2]; [done |]. simpl. rewrite (law_next t x l1 l2) by done. simpl.
    rewrite (IH (l1 ++ [x]) l2); [done | by rewrite <- app_assoc | simpl in Hl; lia].
Qed.

(** The loop visits the nodes in order, and ends within [avl_numnodes] steps. *)
Lemma t_walk_spec t : t_wf t -> t_walk t = Ok (t_elems t).
Proof.
  intros Hwf. unfold t_walk. rewrite law_first by done.
  apply (t_walk_from_spec _ t []); [done | done |]. rewrite law_numnodes by done. lia.
Qed.
End walk.

(** The AVL tree implements the interface. *)
#[global] Instance avl_ops {A} `{!EqDecision A} : AvlOps A (avl_tree A) := {|
  t_create := avl_create;
  t_find := avl_find;
  t_nearest := avl_nearest;
  t_insert := avl_insert;
  t_insert_here := avl_insert_here;
  t_remove := avl_remove;
  t_first := avl_first;
  t_last := avl_last;
  t_next := AVL_NEXT;
  t_numnodes := avl_numnodes;
  t_destroy_nodes t := destroy_loop (S (Z.to_nat (avl_numnodes t))) t CkNull;
  t_elems t := inorder (avl_root t);
  t_wf := avl_wf;
  t_gap t := index_at (avl_root t) |}.

#[global] Instance avl_laws {A} `{!EqDecision A} : AvlLaws A (avl_tree A).
Proof.
  split; cbn -[destroy_loop]; intros.
  - split; [apply avl_create_wf | done].
  - by apply wf_nodup.
  - by apply wf_numnodes.
  - by apply avl_find_spec.
  - by apply avl_nearest_spec.
  - by apply avl_insert_spec.
  - by apply (avl_insert_here_spec compar t y x I1 l1 l2).
  - by apply avl_remove_spec.
  - by apply avl_first_spec.
  - by apply avl_last_spec.
  - by apply (avl_walk_spec t x I1 l1 l2).
  - eexists _, _. split; [apply destroy_loop_spec; [done | lia] |].
    split; [apply avl_create_wf |]. split; [done | apply postorder_inorder].
Qed.
