(* ===== verification/RangeTree.v ===== *)
(** * Range trees (zfs/module/zfs/range_tree.c)

    Segments live in a store indexed by their address ([rt_segs]); the AVL
    tree holds addresses, so that a segment updated in place through one
    pointer is seen through every other one: the picker-private tree of the
    metaslab holds the same addresses ([rt_arg], reached through [rt_ops]).
    The tree is any implementation of [AvlOps]. *)
From S2P Require Import Prelude Avl OrdTree.
Local Open Scope Z_scope.

Record range_seg : Type := MkSeg { rs_start : Z; rs_end : Z }.
#[global] Instance range_seg_eq_dec : EqDecision range_seg.
Proof. solve_decision. Defined.

(** Addresses of segments, and the memory they are in. *)
Abbreviation addr := positive.
Abbreviation seg_store := (gmap positive range_seg).

Definition RANGE_TREE_HISTOGRAM_SIZE : nat := 64.

(** [range_tree_ops_t]: the callbacks, on the state behind [rt_arg]. *)
Record range_tree_ops (S : Type) : Type := MkOps {
  rtop_create : S -> result S;
  rtop_destroy : S -> result S;
  rtop_add : seg_store -> addr -> S -> result S;
  rtop_remove : seg_store -> addr -> S -> result S;
  rtop_vacate : S -> result S }.
Arguments MkOps {S}.
Arguments rtop_create {S}.
Arguments rtop_destroy {S}.
Arguments rtop_add {S}.
Arguments rtop_remove {S}.
Arguments rtop_vacate {S}.

Record range_tree (T S : Type) : Type := MkRT {
  rt_root : T;
  rt_segs : seg_store;
  rt_space : Z;
  rt_histogram : list Z;
  rt_ops : option (range_tree_ops S);
  rt_arg : S }.
Arguments MkRT {T S}.
Arguments rt_root {T S}.
Arguments rt_segs {T S}.
Arguments rt_space {T S}.
Arguments rt_histogram {T S}.
Arguments rt_ops {T S}.
Arguments rt_arg {T S}.

(** [if (rt->rt_ops != NULL) rt->rt_ops->rtop_...(rt, rs, rt->rt_arg)] *)
Section callbacks.
Context {S : Type}.
Implicit Types (o : option (range_tree_ops S)).

Definition ops_create o (a : S) : result S :=
  match o with None => Ok a | Some ops => rtop_create ops a end.
Definition ops_destroy o (a : S) : result S :=
  match o with None => Ok a | Some ops => rtop_destroy ops a end.
Definition ops_add o (m : seg_store) (rs : addr) (a : S) : result S :=
  match o with None => Ok a | Some ops => rtop_add ops m rs a end.
Definition ops_remove o (m : seg_store) (rs : addr) (a : S) : result S :=
  match o with None => Ok a | Some ops => rtop_remove ops m rs a end.
Definition ops_vacate o (a : S) : result S :=
  match o with None => Ok a | Some ops => rtop_vacate ops a end.
End callbacks.

Definition range_tree_seg_compare (r1 r2 : range_seg) : Z :=
  if rs_start r1 <? rs_start r2 then
    if rs_start r2 <? rs_end r1 then 0 else -1
  else if rs_start r2 <? rs_start r1 then
    if rs_start r1 <? rs_end r2 then 0 else 1
  else 0.

(** The comparison as [avl_find] calls it, with the segment at an address;
    a dangling address gives no valid comparison. *)
Definition seg_compar (m : seg_store) (r1 : range_seg) (i : addr) : Z :=
  match m !! i with Some r2 => range_tree_seg_compare r1 r2 | None => 2 end.

Definition seg_compar_at (m : seg_store) (i j : addr) : Z :=
  match m !! i with Some r1 => seg_compar m r1 j | None => 2 end.

Section ops.
Context {T S : Type} `{!AvlOps addr T}.
(** the tunable [zfs_recover] of spa_misc.c *)
Variable zfs_recover : bool.
Implicit Types (rt : range_tree T S).

Definition set_root rt (t : T) : range_tree T S :=
  MkRT t (rt_segs rt) (rt_space rt) (rt_histogram rt) (rt_ops rt) (rt_arg rt).
Definition set_segs rt (m : seg_store) : range_tree T S :=
  MkRT (rt_root rt) m (rt_space rt) (rt_histogram rt) (rt_ops rt) (rt_arg rt).
Definition set_space rt (n : Z) : range_tree T S :=
  MkRT (rt_root rt) (rt_segs rt) n (rt_histogram rt) (rt_ops rt) (rt_arg rt).
Definition set_histogram rt (h : list Z) : range_tree T S :=
  MkRT (rt_root rt) (rt_segs rt) (rt_space rt) h (rt_ops rt) (rt_arg rt).
Definition set_arg rt (a : S) : range_tree T S :=
  MkRT (rt_root rt) (rt_segs rt) (rt_space rt) (rt_histogram rt) (rt_ops rt) a.

(** [zfs_panic_recover]: a warning when [zfs_recover] is set. *)
Definition zfs_panic_recover rt : result (range_tree T S) :=
  if zfs_recover then Ok rt else Panic.

Definition call_add rt (rs : addr) : result (range_tree T S) :=
  a ← ops_add (rt_ops rt) (rt_segs rt) rs (rt_arg rt) ; Ok (set_arg rt a).

Definition call_remove rt (rs : addr) : result (range_tree T S) :=
  a ← ops_remove (rt_ops rt) (rt_segs rt) rs (rt_arg rt) ; Ok (set_arg rt a).

Definition hist_idx (size : Z) : nat := Z.to_nat (highbit64 size - 1).

Definition range_tree_stat_incr rt (rs : range_seg) : result (range_tree T S) :=
  let size := u64_sub (rs_end rs) (rs_start rs) in
  let idx := hist_idx size in
  VERIFY (negb (size =? 0)) ;;
  n ← deref (rt_histogram rt !! idx) ;
  let n' := u64_add n 1 in
  VERIFY (negb (n' =? 0)) ;;
  Ok (set_histogram rt (<[idx := n']> (rt_histogram rt))).

Definition range_tree_stat_decr rt (rs : range_seg) : result (range_tree T S) :=
  let size := u64_sub (rs_end rs) (rs_start rs) in
  let idx := hist_idx size in
  VERIFY (negb (size =? 0)) ;;
  n ← deref (rt_histogram rt !! idx) ;
  VERIFY (negb (n =? 0)) ;;
  Ok (set_histogram rt (<[idx := u64_sub n 1]> (rt_histogram rt))).

(** The histogram [range_tree_stat_verify] recomputes from the segments. *)
Fixpoint stat_recount (hist : list Z) (l : list range_seg) : result (list Z) :=
  match l with
  | [] => Ok hist
  | rs :: l' =>
      let size := u64_sub (rs_end rs) (rs_start rs) in
      let idx := hist_idx size in
      n ← deref (if size =? 0 then None else hist !! idx) ;
      let n' := u64_add n 1 in
      VERIFY (negb (n' =? 0)) ;;
      stat_recount (<[idx := n']> hist) l'
  end.

(** The segments in the order of [avl_first] and [AVL_NEXT]. *)
Definition range_tree_segs rt : result (list range_seg) :=
  ids ← t_walk (rt_root rt) ;
  deref (mapM (fun i => rt_segs rt !! i) ids).

Definition range_tree_stat_verify rt : result unit :=
  l ← range_tree_segs rt ;
  hist ← stat_recount (replicate RANGE_TREE_HISTOGRAM_SIZE 0) l ;
  VERIFY (bool_decide (hist = rt_histogram rt)).

Definition range_tree_create (ops : option (range_tree_ops S)) (arg : S) : result (range_tree T S) :=
  let rt := MkRT t_create ∅ 0 (replicate RANGE_TREE_HISTOGRAM_SIZE 0) ops arg in
  a ← ops_create ops arg ;
  Ok (set_arg rt a).

(** The final contents of [rt_arg]; the tree itself is freed. *)
Definition range_tree_destroy rt : result S :=
  VERIFY (rt_space rt =? 0) ;;
  a ← ops_destroy (rt_ops rt) (rt_arg rt) ;
  VERIFY (t_numnodes (rt_root rt) =? 0) ;;
  Ok a.

(** A neighbour pointer with the segment it points at. *)
Definition load rt (o : option addr) : result (option (addr * range_seg)) :=
  match o with
  | None => Ok None
  | Some i => s ← deref (rt_segs rt !! i) ; Ok (Some (i, s))
  end.

Definition keep_if (p : range_seg -> bool) (o : option (addr * range_seg)) : option (addr * range_seg) :=
  match o with
  | Some (i, s) => if p s then Some (i, s) else None
  | None => None
  end.

Definition kmem_cache_alloc (m : seg_store) : addr := fresh (dom m).

(** The end of [range_tree_add], for the segment [rs] that covers the range. *)
Definition range_tree_add_done rt (rs : addr) (size : Z) : result (range_tree T S) :=
  rt ← call_add rt rs ;
  s ← deref (rt_segs rt !! rs) ;
  rt ← range_tree_stat_incr rt s ;
  Ok (set_space rt (u64_add (rt_space rt) size)).

Definition range_tree_add rt (start size : Z) : result (range_tree T S) :=
  let end_ := u64_add start size in
  VERIFY (negb (size =? 0)) ;;
  r ← t_find (seg_compar (rt_segs rt) (MkSeg start end_)) (rt_root rt) ;
  match r with
  | inl i =>
      s ← deref (rt_segs rt !! i) ;
      if (rs_start s <=? start) && (end_ <=? rs_end s)
      then zfs_panic_recover rt
      else Panic (* VERIFY(rs == NULL) *)
  | inr w =>
      ob ← t_nearest (rt_root rt) w AVL_BEFORE ;
      oa ← t_nearest (rt_root rt) w AVL_AFTER ;
      before ← load rt ob ;
      after ← load rt oa ;
      let merge_before := keep_if (fun s => rs_end s =? start) before in
      let merge_after := keep_if (fun s => rs_start s =? end_) after in
      match merge_before, merge_after with
      | Some (b, sb), Some (a, sa) =>
          root ← t_remove (rt_root rt) b ;
          rt ← call_remove (set_root rt root) b ;
          rt ← call_remove rt a ;
          rt ← range_tree_stat_decr rt sb ;
          rt ← range_tree_stat_decr rt sa ;
          let m := <[a := MkSeg (rs_start sb) (rs_end sa)]> (rt_segs rt) in
          range_tree_add_done (set_segs rt (delete b m)) a size
      | Some (b, sb), None =>
          rt ← call_remove rt b ;
          rt ← range_tree_stat_decr rt sb ;
          range_tree_add_done
            (set_segs rt (<[b := MkSeg (rs_start sb) end_]> (rt_segs rt))) b size
      | None, Some (a, sa) =>
          rt ← call_remove rt a ;
          rt ← range_tree_stat_decr rt sa ;
          range_tree_add_done
            (set_segs rt (<[a := MkSeg start (rs_end sa)]> (rt_segs rt))) a size
      | None, None =>
          let n := kmem_cache_alloc (rt_segs rt) in
          let rt := set_segs rt (<[n := MkSeg start end_]> (rt_segs rt)) in
          root ← t_insert (rt_root rt) n w ;
          range_tree_add_done (set_root rt root) n size
      end
  end.

(** [if (rs != NULL)] at the end of [range_tree_remove]. *)
Definition range_tree_remove_keep rt (rs : addr) : result (range_tree T S) :=
  s ← deref (rt_segs rt !! rs) ;
  rt ← range_tree_stat_incr rt s ;
  call_add rt rs.

Definition range_tree_remove rt (start size : Z) : result (range_tree T S) :=
  let end_ := u64_add start size in
  VERIFY (negb (size =? 0)) ;;
  VERIFY (size <=? rt_space rt) ;;
  r ← t_find (seg_compar (rt_segs rt) (MkSeg start end_)) (rt_root rt) ;
  match r with
  | inr _ => zfs_panic_recover rt
  | inl rs =>
      s ← deref (rt_segs rt !! rs) ;
      VERIFY (rs_start s <=? start) ;;
      VERIFY (end_ <=? rs_end s) ;;
      let left_over := negb (rs_start s =? start) in
      let right_over := negb (rs_end s =? end_) in
      rt ← range_tree_stat_decr rt s ;
      rt ← call_remove rt rs ;
      rt ← (if left_over && right_over then
              let newseg := kmem_cache_alloc (rt_segs rt) in
              let ns := MkSeg end_ (rs_end s) in
              let rt := set_segs rt (<[newseg := ns]> (rt_segs rt)) in
              rt ← range_tree_stat_incr rt ns ;
              let rt := set_segs rt (<[rs := MkSeg (rs_start s) start]> (rt_segs rt)) in
              root ← t_insert_here (seg_compar_at (rt_segs rt)) (rt_root rt) newseg rs AVL_AFTER ;
              rt ← call_add (set_root rt root) newseg ;
              range_tree_remove_keep rt rs
            else if left_over then
              range_tree_remove_keep
                (set_segs rt (<[rs := MkSeg (rs_start s) start]> (rt_segs rt))) rs
            else if right_over then
              range_tree_remove_keep
                (set_segs rt (<[rs := MkSeg end_ (rs_end s)]> (rt_segs rt))) rs
            else
              root ← t_remove (rt_root rt) rs ;
              Ok (set_segs (set_root rt root) (delete rs (rt_segs rt)))) ;
      Ok (set_space rt (u64_sub (rt_space rt) size))
  end.

Definition range_tree_find_impl rt (start size : Z) : result (option range_seg) :=
  let end_ := u64_add start size in
  VERIFY (negb (size =? 0)) ;;
  r ← t_find (seg_compar (rt_segs rt) (MkSeg start end_)) (rt_root rt) ;
  match r with
  | inl i => s ← deref (rt_segs rt !! i) ; Ok (Some s)
  | inr _ => Ok None
  end.

Definition range_tree_find rt (start size : Z) : result (option range_seg) :=
  o ← range_tree_find_impl rt start size ;
  match o with
  | Some s =>
      if (rs_start s <=? start) && (u64_add start size <=? rs_end s)
      then Ok (Some s) else Ok None
  | None => Ok None
  end.

Definition range_tree_verify rt (off size : Z) : result unit :=
  o ← range_tree_find rt off size ;
  match o with Some _ => Panic | None => Ok tt end.

Definition range_tree_contains rt (start size : Z) : result bool :=
  o ← range_tree_find rt start size ;
  match o with Some _ => Ok true | None => Ok false end.

(** The loop of [range_tree_clear], at most [fuel] rounds. *)
Fixpoint range_tree_clear_loop (fuel : nat) rt (start size : Z) : result (range_tree T S) :=
  o ← range_tree_find_impl rt start size ;
  match o with
  | None => Ok rt
  | Some s =>
      match fuel with
      | O => Panic
      | Datatypes.S n =>
          let free_start := Z.max (rs_start s) start in
          let free_end := Z.min (rs_end s) (u64_add start size) in
          rt ← range_tree_remove rt free_start (u64_sub free_end free_start) ;
          range_tree_clear_loop n rt start size
      end
  end.

(** One round per segment that was in the tree is enough. *)
Definition range_tree_clear rt (start size : Z) : result (range_tree T S) :=
  range_tree_clear_loop (Z.to_nat (t_numnodes (rt_root rt))) rt start size.

Definition range_tree_swap (rtsrc rtdst : range_tree T S)
    : result (range_tree T S * range_tree T S) :=
  VERIFY (rt_space rtdst =? 0) ;;
  VERIFY (t_numnodes (rt_root rtdst) =? 0) ;;
  Ok (rtdst, rtsrc).

(** [func(arg, rs->rs_start, rs->rs_end - rs->rs_start)] on each segment. *)
Fixpoint call_each {F} (func : F -> Z -> Z -> result F) (arg : F) (l : list range_seg) : result F :=
  match l with
  | [] => Ok arg
  | s :: l' =>
      arg ← func arg (rs_start s) (u64_sub (rs_end s) (rs_start s)) ;
      call_each func arg l'
  end.

Definition range_tree_vacate {F} rt (func : option (F -> Z -> Z -> result F)) (arg : F)
    : result (range_tree T S * F) :=
  a ← ops_vacate (rt_ops rt) (rt_arg rt) ;
  '(root, ids) ← t_destroy_nodes (rt_root rt) ;
  l ← deref (mapM (fun i => rt_segs rt !! i) ids) ;
  arg ← match func with None => Ok arg | Some f => call_each f arg l end ;
  let rt := set_segs (set_root (set_arg rt a) root) ∅ in
  Ok (set_space (set_histogram rt (replicate RANGE_TREE_HISTOGRAM_SIZE 0)) 0, arg).

Definition range_tree_walk {F} rt (func : F -> Z -> Z -> result F) (arg : F) : result F :=
  l ← range_tree_segs rt ; call_each func arg l.

Definition range_tree_space rt : Z := rt_space rt.
End ops.
