(* ===== verification/Segments.v ===== *)
(** * Canonical lists of segments

    The pure side of the range tree: sorted lists of disjoint segments that
    do not touch, the set of offsets they cover, their total size and their
    histogram by power of two. *)
From S2P Require Import Prelude RangeTree.
From stdpp Require Import propset.
Local Open Scope Z_scope.

Definition valid_seg (s : range_seg) : Prop := 0 <= rs_start s < rs_end s /\ rs_end s < W64.

Definition before_seg (a b : range_seg) : Prop := rs_end a < rs_start b.

Fixpoint canonical (l : list range_seg) : Prop :=
  match l with
  | [] => True
  | s :: l' => valid_seg s /\ Forall (before_seg s) l' /\ canonical l'
  end.

Definition seg_size (s : range_seg) : Z := rs_end s - rs_start s.

Definition seg_set (s : range_seg) : propset Z := {[ x | rs_start s <= x < rs_end s ]}.

(** The offsets a list of segments covers. *)
Definition covered (l : list range_seg) : propset Z := ⋃ (seg_set <$> l).

Definition seg_total (l : list range_seg) : Z := foldr (fun s n => seg_size s + n) 0 l.

Definition hist_count (l : list range_seg) (i : nat) : nat :=
  length (filter (fun s => hist_idx (seg_size s) = i) l).

Definition hist_of (l : list range_seg) : list Z :=
  (fun i => Z.of_nat (hist_count l i)) <$> seq 0 RANGE_TREE_HISTOGRAM_SIZE.

(** What is left of a segment without [a, b). *)
Definition remains (s : range_seg) (a b : Z) : list range_seg :=
  (if rs_start s =? a then [] else [MkSeg (rs_start s) a]) ++
  (if rs_end s =? b then [] else [MkSeg b (rs_end s)]).

Definition overlaps (q s : range_seg) : Prop := rs_start s < rs_end q /\ rs_start q < rs_end s.
#[global] Instance overlaps_dec q s : Decision (overlaps q s).
Proof. unfold overlaps. apply _. Defined.

(** Equations between sets of a few segments, by their bounds. *)
Ltac seg_sets :=
  let x := fresh "x" in intros x; unfold covered, seg_set in *; simpl;
  rewrite ?elem_of_union, ?elem_of_PropSet, ?elem_of_empty; simpl; lia.

Implicit Types (l : list range_seg) (s q : range_seg).

(** ** Structure *)
Lemma canonical_app l1 l2 :
  canonical (l1 ++ l2) <->
  canonical l1 /\ canonical l2 /\ forall a b, a ∈ l1 -> b ∈ l2 -> before_seg a b.
Proof.
  induction l1 as [| s l1 IH]; simpl.
  - split; [intros; split_and!; set_solver | tauto].
  - rewrite IH, Forall_app, !Forall_forall. split.
    + intros (Hv & (H1 & H2) & Hc1 & Hc2 & H). split_and!; try done.
      intros a b [-> | Ha]%elem_of_cons Hb; auto.
    + intros ((Hv & H1 & Hc1) & Hc2 & H). split_and!; try done; intros; apply H; set_solver.
Qed.

Lemma canonical_cons s l :
  canonical (s :: l) <-> valid_seg s /\ canonical l /\ forall b, b ∈ l -> before_seg s b.
Proof. simpl. rewrite Forall_forall. tauto. Qed.

Lemma canonical_valid l s : canonical l -> s ∈ l -> valid_seg s.
Proof.
  intros Hc (l1 & l2 & ->)%list_elem_of_split. apply canonical_app in Hc as (_ & Hc & _).
  apply canonical_cons in Hc. tauto.
Qed.

Lemma canonical_ordered l s s' :
  canonical l -> s ∈ l -> s' ∈ l -> s = s' \/ before_seg s s' \/ before_seg s' s.
Proof.
  induction l as [| a l IH]; [set_solver |].
  intros (_ & Hc & Hb)%canonical_cons Hs Hs'.
  apply elem_of_cons in Hs as [-> | Hs], Hs' as [-> | Hs']; auto.
Qed.

Lemma elem_of_covered l x : x ∈ covered l <-> exists s, s ∈ l /\ rs_start s <= x < rs_end s.
Proof.
  unfold covered. rewrite elem_of_union_list. setoid_rewrite list_elem_of_fmap.
  split; [intros (X & (s & -> & Hs) & Hx) | intros (s & Hs & Hx)]; exists s || exists (seg_set s);
    rewrite ?elem_of_PropSet in *; eauto.
Qed.

Lemma covered_app l1 l2 : covered (l1 ++ l2) ≡ covered l1 ∪ covered l2.
Proof. unfold covered. by rewrite fmap_app, union_list_app. Qed.

Lemma covered_nil : covered [] ≡ ∅.
Proof. done. Qed.

Lemma covered_cons s l : covered (s :: l) ≡ seg_set s ∪ covered l.
Proof. done. Qed.

Lemma covered_Permutation l1 l2 : Permutation l1 l2 -> covered l1 ≡ covered l2.
Proof. intros P x. rewrite !elem_of_covered. by setoid_rewrite P. Qed.

Lemma seg_set_join a b c : a <= b <= c -> seg_set (MkSeg a c) ≡ seg_set (MkSeg a b) ∪ seg_set (MkSeg b c).
Proof. intros. seg_sets. Qed.

Lemma covered_grow lo mid s q hi :
  seg_set s ≡ covered mid ∪ seg_set q -> covered (lo ++ s :: hi) ≡ covered (lo ++ mid ++ hi) ∪ seg_set q.
Proof. rewrite !covered_app, covered_cons. intros ->. set_solver. Qed.

Lemma seg_set_overlap q s :
  rs_start q < rs_end q -> rs_start s < rs_end s -> overlaps q s ->
  exists x, x ∈ seg_set q /\ x ∈ seg_set s.
Proof.
  unfold overlaps, seg_set. intros. exists (Z.max (rs_start q) (rs_start s)).
  rewrite !elem_of_PropSet. lia.
Qed.

(** The segments of a canonical list, split by a query segment into those
    that end before it, those that overlap it and those that start after it. *)
Lemma canonical_split l q :
  canonical l -> rs_start q < rs_end q ->
  exists lo eq hi, l = lo ++ eq ++ hi /\
    Forall (fun s => rs_end s <= rs_start q) lo /\ Forall (overlaps q) eq /\
    Forall (fun s => rs_end q <= rs_start s) hi.
Proof.
  intros Hc Hq. induction l as [| s l IH]; [by exists [], [], [] |].
  apply canonical_cons in Hc as (Hv & Hc & Hb). unfold valid_seg, before_seg in *.
  destruct (IH Hc) as (lo & eq & hi & -> & Hlo & Heq & Hhi).
  destruct (decide (rs_end s <= rs_start q)).
  { exists (s :: lo), eq, hi. split_and!; auto. }
  assert (lo = []) as ->.
  { destruct lo as [| a lo]; [done |]. specialize (Hb a ltac:(set_solver)).
    inversion_clear Hlo. assert (valid_seg a) as Ha by (eapply canonical_valid; [done | set_solver]).
    unfold valid_seg in Ha. lia. }
  destruct (decide (rs_end q <= rs_start s)).
  - exists [], [], (s :: eq ++ hi). split_and!; auto. constructor; [done |].
    apply Forall_forall. intros b Hb'. specialize (Hb b Hb'). lia.
  - exists [], (s :: eq), hi. split_and!; auto. constructor; [unfold overlaps; lia | done].
Qed.

(** A contiguous range that a canonical list covers is within one segment. *)
Lemma covered_contiguous l q :
  canonical l -> rs_start q < rs_end q -> seg_set q ⊆ covered l ->
  exists s, s ∈ l /\ rs_start s <= rs_start q /\ rs_end q <= rs_end s.
Proof.
  intros Hc Hq Hsub. assert (rs_start q ∈ covered l) as (s & Hs & Hx)%elem_of_covered.
  { apply Hsub. unfold seg_set. rewrite elem_of_PropSet. lia. }
  exists s. split; [done |]. split; [lia |].
  destruct (decide (rs_end q <= rs_end s)); [done |].
  assert (rs_end s ∈ covered l) as (s' & Hs' & Hx')%elem_of_covered.
  { apply Hsub. unfold seg_set. rewrite elem_of_PropSet. lia. }
  destruct (canonical_ordered l s s' Hc Hs Hs') as [<- | [H | H]]; unfold before_seg in *; lia.
Qed.

(** A canonical list is determined by the offsets it covers. *)
Lemma canonical_same_segs l1 l2 s :
  canonical l1 -> canonical l2 -> covered l1 ≡ covered l2 -> s ∈ l1 -> s ∈ l2.
Proof.
  intros H1 H2 E Hs. pose proof (canonical_valid l1 s H1 Hs) as Hv. unfold valid_seg in Hv.
  assert (Hin : forall l s', s' ∈ l -> seg_set s' ⊆ covered l).
  { intros l s' Hs' x Hx. apply elem_of_covered. unfold seg_set in Hx.
    rewrite elem_of_PropSet in Hx. eauto. }
  destruct (covered_contiguous l2 s H2) as (s' & Hs' & Ha & Hb); [lia | rewrite <- E; auto |].
  destruct (covered_contiguous l1 s' H1) as (s'' & Hs'' & Ha' & Hb'); [lia | rewrite E; auto |].
  destruct (canonical_ordered l1 s s'' H1 Hs Hs'') as [<- | [H | H]]; unfold before_seg in *; [| lia | lia].
  replace s with s'; [done |]. destruct s, s'; simpl in *; f_equal; lia.
Qed.

Lemma canonical_unique l1 l2 :
  canonical l1 -> canonical l2 -> covered l1 ≡ covered l2 -> l1 = l2.
Proof.
  revert l2. induction l1 as [| s l1 IH]; intros [| s' l2] H1 H2 E; [done | | |].
  - by pose proof (canonical_same_segs _ _ s' H2 H1 (symmetry E) ltac:(set_solver)) as ?%not_elem_of_nil.
  - by pose proof (canonical_same_segs _ _ s H1 H2 E ltac:(set_solver)) as ?%not_elem_of_nil.
  - assert (s = s') as <-.
    { pose proof (canonical_same_segs _ _ s H1 H2 E ltac:(set_solver)) as Hs.
      pose proof (canonical_same_segs _ _ s' H2 H1 (symmetry E) ltac:(set_solver)) as Hs'.
      apply canonical_cons in H1 as (? & _ & H1), H2 as (? & _ & H2). unfold before_seg, valid_seg in *.
      apply elem_of_cons in Hs as [-> | Hs]; [done |]. apply elem_of_cons in Hs' as [-> | Hs']; [done |].
      specialize (H1 _ Hs'). specialize (H2 _ Hs). lia. }
    f_equal. apply canonical_cons in H1 as (Hv & H1 & Hb1), H2 as (_ & H2 & Hb2).
    apply IH; [done.. |]. intros x. specialize (E x). rewrite !elem_of_covered in *.
    unfold before_seg in *. split; intros (t & Ht & Hx).
    + destruct E as ((t' & Ht' & Hx') & _); [exists t; set_solver |].
      apply elem_of_cons in Ht' as [-> | Ht']; [specialize (Hb1 _ Ht); lia | eauto].
    + destruct E as (_ & (t' & Ht' & Hx')); [exists t; set_solver |].
      apply elem_of_cons in Ht' as [-> | Ht']; [specialize (Hb2 _ Ht); lia | eauto].
Qed.

Lemma canonical_delete lo mid hi : canonical (lo ++ mid ++ hi) -> canonical (lo ++ hi).
Proof. rewrite !canonical_app. intros (? & (? & ? & ?) & Hx). split_and!; auto. set_solver. Qed.

Lemma canonical_insert lo s hi :
  canonical (lo ++ hi) -> valid_seg s ->
  (forall a, a ∈ lo -> before_seg a s) -> (forall b, b ∈ hi -> before_seg s b) ->
  canonical (lo ++ s :: hi).
Proof.
  rewrite !canonical_app, canonical_cons. intros (? & ? & Hx) ? Hlo Hhi. split_and!; auto.
  intros a b Ha [-> | Hb]%elem_of_cons; auto.
Qed.

Lemma canonical_middle lo s hi :
  canonical (lo ++ s :: hi) ->
  valid_seg s /\ (forall a, a ∈ lo -> before_seg a s) /\ (forall b, b ∈ hi -> before_seg s b).
Proof.
  rewrite canonical_app, canonical_cons. intros (? & (? & ? & ?) & Hx). split_and!; auto.
  intros a Ha. apply Hx; set_solver.
Qed.

(** Cutting a hole in a segment. *)
Lemma canonical_cut lo s hi a b :
  canonical (lo ++ s :: hi) -> rs_start s < a -> a < b -> b < rs_end s ->
  canonical (lo ++ MkSeg (rs_start s) a :: MkSeg b (rs_end s) :: hi).
Proof.
  intros Hc Ha Hab Hb. destruct (canonical_middle _ _ _ Hc) as (Hv & Hlo & Hhi). unfold valid_seg in Hv.
  apply canonical_insert; [apply canonical_insert |..]; [by apply (canonical_delete lo [s]) | ..];
    unfold valid_seg, before_seg in *; simpl; try lia; intros c Hin.
  - specialize (Hlo c Hin). lia.
  - by apply Hhi.
  - by apply Hlo.
  - apply elem_of_cons in Hin as [-> | Hin]; simpl; [lia |]. specialize (Hhi c Hin). lia.
Qed.

Lemma covered_remains lo s hi a b :
  canonical (lo ++ s :: hi) -> rs_start s <= a -> a < b -> b <= rs_end s ->
  covered (lo ++ remains s a b ++ hi) ≡ covered (lo ++ s :: hi) ∖ seg_set (MkSeg a b).
Proof.
  intros Hc Ha Hab Hb. destruct (canonical_middle _ _ _ Hc) as (Hv & Hlo & Hhi). unfold before_seg in *.
  assert (Hr : covered (remains s a b) ≡ seg_set s ∖ seg_set (MkSeg a b)).
  { intros x. unfold remains, covered, seg_set. case_tests; simpl;
      rewrite ?elem_of_difference, ?elem_of_union, ?elem_of_PropSet, ?elem_of_empty; simpl; lia. }
  intros x. rewrite !covered_app, covered_cons, Hr.
  rewrite !elem_of_union, !elem_of_difference, !elem_of_union, !elem_of_covered.
  unfold seg_set. rewrite !elem_of_PropSet. simpl. split.
  - intros [(t & Ht & Hx) | [Hx | (t & Ht & Hx)]]; (split; [eauto |]); try tauto.
    + specialize (Hlo t Ht). lia.
    + specialize (Hhi t Ht). lia.
  - naive_solver.
Qed.

Lemma canonical_starts l s s' :
  canonical l -> s ∈ l -> s' ∈ l -> rs_start s = rs_start s' -> s = s'.
Proof.
  intros Hc Hs Hs' E. pose proof (canonical_valid l s Hc Hs). pose proof (canonical_valid l s' Hc Hs').
  destruct (canonical_ordered l s s' Hc Hs Hs') as [? | [? | ?]]; unfold before_seg, valid_seg in *; auto; lia.
Qed.

Lemma canonical_NoDup l : canonical l -> NoDup l.
Proof.
  induction l as [| s l IH]; [constructor |]. intros (Hv & Hc & Hb)%canonical_cons.
  constructor; [| auto]. intros Hs. specialize (Hb s Hs). unfold before_seg, valid_seg in *. lia.
Qed.

(** ** Sizes *)
Lemma seg_total_app l1 l2 : seg_total (l1 ++ l2) = seg_total l1 + seg_total l2.
Proof. induction l1 as [| s l1 IH]; simpl; [done | rewrite IH; lia]. Qed.

Lemma seg_total_cons s l : seg_total (s :: l) = seg_size s + seg_total l.
Proof. done. Qed.

Lemma seg_total_Permutation l1 l2 : Permutation l1 l2 -> seg_total l1 = seg_total l2.
Proof. induction 1; simpl; lia. Qed.

(** The segments of a canonical list between two offsets. *)
Lemma canonical_between lb ub l :
  canonical l -> (forall s, s ∈ l -> lb <= rs_start s /\ rs_end s <= ub) -> lb <= ub + 1 ->
  0 <= seg_total l /\ seg_total l + Z.of_nat (length l) <= ub + 1 - lb /\ Z.of_nat (length l) <= seg_total l.
Proof.
  revert lb. induction l as [| s l IH]; intros lb Hc Hin Hb; simpl; [lia |].
  apply canonical_cons in Hc as (Hv & Hc & Hbe). pose proof (Hin s ltac:(set_solver)).
  destruct (IH (rs_end s + 1) Hc) as (? & ? & ?).
  - intros t Ht. specialize (Hbe t Ht). destruct (Hin t ltac:(set_solver)).
    unfold before_seg in *. lia.
  - lia.
  - unfold valid_seg, seg_size in *. lia.
Qed.

Lemma canonical_bounds l :
  canonical l -> 0 <= seg_total l < W64 /\ 2 * Z.of_nat (length l) <= W64 /\ (l <> [] -> 0 < seg_total l).
Proof.
  intros Hc. destruct (canonical_between 0 (W64 - 1) l Hc) as (H1 & H2 & H3).
  - intros s Hs. pose proof (canonical_valid l s Hc Hs) as Hv. unfold valid_seg in Hv. lia.
  - done.
  - destruct l; simpl length in *; [done |]. split_and!; try lia.
Qed.

Lemma seg_size_u64 s : valid_seg s -> u64_sub (rs_end s) (rs_start s) = seg_size s.
Proof. unfold valid_seg, seg_size. intros. u64_lia. Qed.

Lemma valid_seg_size s : valid_seg s -> 0 < seg_size s < W64.
Proof. unfold valid_seg, seg_size. lia. Qed.

Lemma seg_total_grow lo mid s hi n :
  seg_size s = seg_total mid + n -> seg_total (lo ++ s :: hi) = seg_total (lo ++ mid ++ hi) + n.
Proof. rewrite !seg_total_app, seg_total_cons. lia. Qed.

Lemma seg_total_remains lo s hi a b :
  seg_total (lo ++ remains s a b ++ hi) = seg_total (lo ++ s :: hi) - (b - a).
Proof.
  rewrite !seg_total_app, seg_total_cons. unfold remains. case_tests; simpl; unfold seg_size; simpl; lia.
Qed.

(** The total size is the number of offsets covered. *)
Lemma seg_total_card l (X : gset Z) :
  canonical l -> (forall x, x ∈ X <-> x ∈ covered l) -> seg_total l = Z.of_nat (size X).
Proof.
  revert X. induction l as [| s l IH]; intros X Hc HX.
  - assert (X = ∅) as -> by (apply set_eq; intros x; rewrite HX, elem_of_covered; set_solver).
    by rewrite size_empty.
  - apply canonical_cons in Hc as (Hv & Hc & Hb). rewrite seg_total_cons.
    set (Y := list_to_set (seqZ (rs_start s) (seg_size s)) : gset Z).
    assert (HY : forall x, x ∈ Y <-> rs_start s <= x < rs_end s).
    { intros x. unfold Y, seg_size. rewrite elem_of_list_to_set, elem_of_seqZ. lia. }
    rewrite (IH (X ∖ Y) Hc).
    + rewrite size_difference.
      * unfold Y at 1. rewrite (size_list_to_set (seqZ _ _)) by apply NoDup_seqZ. rewrite length_seqZ.
        assert (size Y <= size X)%nat as Hle.
        { apply subseteq_size. intros x Hx%HY. apply HX, elem_of_covered. exists s. set_solver. }
        unfold Y in Hle at 1. rewrite (size_list_to_set (seqZ _ _)), length_seqZ in Hle by apply NoDup_seqZ.
        pose proof (valid_seg_size s Hv). lia.
      * intros x Hx%HY. apply HX, elem_of_covered. exists s. set_solver.
    + intros x. rewrite elem_of_difference, HX, HY, !elem_of_covered. unfold before_seg in *. split.
      * intros ((t & Ht & Hx) & Hn). apply elem_of_cons in Ht as [-> | Ht]; [lia | eauto].
      * intros (t & Ht & Hx). split; [exists t; set_solver |]. specialize (Hb t Ht). lia.
Qed.

(** ** Histograms *)
Lemma hist_of_Permutation l1 l2 : Permutation l1 l2 -> hist_of l1 = hist_of l2.
Proof.
  intros P. unfold hist_of, hist_count. apply list_fmap_ext. intros i x _. simpl. by rewrite P.
Qed.

Lemma hist_of_lookup l i : (i < RANGE_TREE_HISTOGRAM_SIZE)%nat -> hist_of l !! i = Some (Z.of_nat (hist_count l i)).
Proof. intros Hi. unfold hist_of. by rewrite list_lookup_fmap, lookup_seq_lt. Qed.

Lemma hist_of_nil : hist_of [] = replicate RANGE_TREE_HISTOGRAM_SIZE 0.
Proof. reflexivity. Qed.

Lemma hist_idx_lt s : valid_seg s -> (hist_idx (seg_size s) < RANGE_TREE_HISTOGRAM_SIZE)%nat.
Proof.
  intros Hv%valid_seg_size. unfold hist_idx. rewrite highbit64_pos by lia.
  pose proof (log2_lt_64 (seg_size s) Hv). unfold RANGE_TREE_HISTOGRAM_SIZE. lia.
Qed.

Lemma hist_count_cons s l i :
  hist_count (s :: l) i = (if decide (hist_idx (seg_size s) = i) then S (hist_count l i) else hist_count l i).
Proof. unfold hist_count. rewrite filter_cons. by case_decide. Qed.

Lemma hist_count_le l i : (hist_count l i <= length l)%nat.
Proof. apply length_filter. Qed.

Lemma hist_of_cons s l :
  valid_seg s ->
  hist_of (s :: l) = <[hist_idx (seg_size s) := Z.of_nat (S (hist_count l (hist_idx (seg_size s))))]> (hist_of l).
Proof.
  intros Hv. apply list_eq. intros i. destruct (decide (i < RANGE_TREE_HISTOGRAM_SIZE)%nat) as [Hi | Hi].
  - rewrite hist_of_lookup by done. rewrite hist_count_cons. case_decide as E.
    + subst i. rewrite list_lookup_insert_eq; [done |]. unfold hist_of. by rewrite length_fmap, length_seq.
    + rewrite list_lookup_insert_ne by done. by rewrite hist_of_lookup.
  - rewrite !lookup_ge_None_2; [done | |]; rewrite ?length_insert; unfold hist_of; rewrite length_fmap, length_seq; lia.
Qed.
