(* ===== verification/RangeTreeSpec.v ===== *)
(** * Range trees refine sets of offsets

    [rt_repr rt l] is the representation invariant: the tree holds the
    canonical list of segments [l] in order, [rt_space] and [rt_histogram]
    agree with it, and the structure behind [rt_arg] tracks exactly the same
    segments. [rt_models rt P] abstracts it to a set of offsets: the
    operations of range_tree.c are proved to be union, difference and the
    subset test on [P]. *)
From S2P Require Import Prelude Avl AvlSpec OrdTree RangeTree Segments.
From stdpp Require Import propset.
Local Open Scope Z_scope.

(** What the range tree relies on from the callbacks it is created with:
    [Inv m X a] says that the state [a] tracks the segments at the addresses
    [X] of the store [m]. *)
Class OpsLaws {S : Type} (oo : option (range_tree_ops S)) (Init : S -> Prop)
    (Inv : seg_store -> gset addr -> S -> Prop) : Prop := {
  ops_law_create a : Init a -> runs (ops_create oo a) (fun a' => forall m, Inv m ∅ a');
  ops_law_destroy m a : Inv m ∅ a -> runs (ops_destroy oo a) (fun _ => True);
  ops_law_vacate m X a : Inv m X a -> runs (ops_vacate oo a) (fun a' => forall m', Inv m' ∅ a');
  ops_law_frame m m' X a : (forall i, i ∈ X -> m' !! i = m !! i) -> Inv m X a -> Inv m' X a;
  ops_law_add m X a i s :
    Inv m X a -> m !! i = Some s -> valid_seg s -> i ∉ X -> Z.of_nat (size X) + 1 < W64 ->
    (forall j s', j ∈ X -> m !! j = Some s' -> rs_start s' <> rs_start s) ->
    runs (ops_add oo m i a) (fun a' => Inv m ({[i]} ∪ X) a');
  ops_law_remove m X a i :
    Inv m X a -> i ∈ X -> runs (ops_remove oo m i a) (fun a' => Inv m (X ∖ {[i]}) a') }.

(** A tree without callbacks. *)
#[global] Instance no_ops_laws S : OpsLaws (S := S) None (fun _ => True) (fun _ _ _ => True).
Proof. by split. Qed.

Definition holds (m : seg_store) (ids : list addr) (l : list range_seg) : Prop :=
  Forall2 (fun i s => m !! i = Some s) ids l.

Lemma holds_app_r m ids l1 l2 :
  holds m ids (l1 ++ l2) -> exists i1 i2, ids = i1 ++ i2 /\ holds m i1 l1 /\ holds m i2 l2.
Proof. intros (i1 & i2 & ? & ? & ->)%Forall2_app_inv_r. eauto. Qed.

Lemma holds_cons_r m ids s l :
  holds m ids (s :: l) -> exists i k, ids = i :: k /\ m !! i = Some s /\ holds m k l.
Proof. intros (i & k & ? & ? & ->)%Forall2_cons_inv_r. eauto. Qed.

Lemma holds_length m ids l : holds m ids l -> length ids = length l.
Proof. apply Forall2_length. Qed.

Lemma holds_elem m ids l i s : holds m ids l -> i ∈ ids -> m !! i = Some s -> s ∈ l.
Proof.
  induction 1 as [| j t ids l Hj H IH]; [set_solver |].
  intros [-> | Hi]%elem_of_cons E; [| set_solver]. rewrite Hj in E. set_solver.
Qed.

Lemma holds_inj m ids l i j s :
  holds m ids l -> NoDup l -> i ∈ ids -> j ∈ ids -> m !! i = Some s -> m !! j = Some s -> i = j.
Proof.
  induction 1 as [| k t ids l Hk H IH]; [set_solver |].
  intros (Hn & Hnd)%NoDup_cons [-> | Hi]%elem_of_cons [-> | Hj]%elem_of_cons Ei Ej; auto.
  - assert (t = s) as -> by congruence. by destruct Hn; eapply holds_elem.
  - assert (t = s) as -> by congruence. by destruct Hn; eapply holds_elem.
Qed.

Lemma holds_agree m m' ids l :
  (forall i, i ∈ ids -> m' !! i = m !! i) -> holds m ids l -> holds m' ids l.
Proof.
  intros E H. induction H as [| i s ids l Hi H IH]; constructor.
  - rewrite E by set_solver. done.
  - apply IH. set_solver.
Qed.

Lemma holds_Forall m ids l (P : range_seg -> Prop) (Q : addr -> Prop) :
  holds m ids l -> Forall P l -> (forall i s, m !! i = Some s -> P s -> Q i) -> Forall Q ids.
Proof. induction 1; intros HP HQ; inversion_clear HP; constructor; eauto. Qed.

Lemma holds_Permutation m ids k l :
  Permutation ids k -> holds m ids l -> exists xs, Permutation l xs /\ holds m k xs.
Proof.
  intros P. revert l. induction P as [| i ids k P IH | i j ids | ids1 ids2 ids3 P1 IH1 P2 IH2]; intros l H.
  - eauto.
  - inversion_clear H as [| ? s ? l' Hi H']. destruct (IH l' H') as (xs & Px & Hx).
    exists (s :: xs). split; [by constructor | by constructor].
  - inversion_clear H as [| ? s ? l' Hi H']. inversion_clear H' as [| ? t ? l'' Hj H''].
    exists (t :: s :: l''). split; [constructor | by repeat constructor].
  - destruct (IH1 l H) as (xs & Px & Hx). destruct (IH2 xs Hx) as (ys & Py & Hy).
    exists ys. split; [by rewrite Px | done].
Qed.

Lemma seg_compar_partitions m q ilo ieq ihi lo eq hi :
  canonical (lo ++ eq ++ hi) -> rs_start q < rs_end q ->
  holds m ilo lo -> holds m ieq eq -> holds m ihi hi ->
  Forall (fun s => rs_end s <= rs_start q) lo -> Forall (overlaps q) eq ->
  Forall (fun s => rs_end q <= rs_start s) hi ->
  partitions (seg_compar m q) ilo ieq ihi.
Proof.
  intros Hc Hq H1 H2 H3 Hlo Heq Hhi.
  assert (Hv : forall s, s ∈ lo ++ eq ++ hi -> valid_seg s) by (intros; by eapply canonical_valid).
  unfold valid_seg in Hv. rewrite Forall_forall in Hlo, Heq, Hhi. unfold overlaps in Heq.
  assert (Hcmp : forall k ids l, holds m ids l ->
    (forall s, s ∈ l -> range_tree_seg_compare q s = k) -> Forall (fun i => seg_compar m q i = k) ids).
  { intros k ids l H Hk. apply (holds_Forall m ids l (fun s => range_tree_seg_compare q s = k)); [done | by apply Forall_forall |].
    intros i s Hi Hs. unfold seg_compar. rewrite Hi. exact Hs. }
  split_and!; [apply (Hcmp _ _ lo) | apply (Hcmp _ _ eq) | apply (Hcmp _ _ hi)]; try done;
    intros s Hs; pose proof (Hv s ltac:(set_solver));
    unfold range_tree_seg_compare; try specialize (Hlo s Hs); try specialize (Heq s Hs);
    try specialize (Hhi s Hs); case_tests; done || lia.
Qed.

Section spec.
Context {T S : Type} `{!AvlOps addr T} `{!AvlLaws addr T}.
Context (oo : option (range_tree_ops S)) (Init : S -> Prop) (Inv : seg_store -> gset addr -> S -> Prop).
Context `{!OpsLaws oo Init Inv}.
Implicit Types (rt : range_tree T S) (l lo hi h : list range_seg) (ids : list addr) (X : gset addr).

(** A range tree in the middle of an operation: the nodes, the store, the
    addresses the callbacks track, the segments the histogram counts and the
    recorded space, each on its own. *)
Record rt_at rt ids (m : seg_store) X h (sp : Z) : Prop := {
  at_wf : t_wf (rt_root rt);
  at_elems : t_elems (rt_root rt) = ids;
  at_segs : rt_segs rt = m;
  at_inv : Inv m X (rt_arg rt);
  at_hist : rt_histogram rt = hist_of h;
  at_space : rt_space rt = sp;
  at_ops : rt_ops rt = oo }.

Record rt_list rt ids (m : seg_store) l : Prop := {
  rl_at : rt_at rt ids m (list_to_set ids) l (seg_total l);
  rl_holds : holds m ids l;
  rl_dom : dom m = list_to_set ids;
  rl_canonical : canonical l }.

Definition rt_repr rt l : Prop := exists ids m, rt_list rt ids m l.

Definition rt_models rt (P : propset Z) : Prop := exists l, rt_repr rt l /\ covered l ≡ P.

(** ** Steps *)
Lemma rt_at_NoDup rt ids m X h sp : rt_at rt ids m X h sp -> NoDup ids.
Proof. intros [Hwf <- _ _ _ _ _]. by apply law_nodup. Qed.

Lemma rt_at_hist rt ids m X h h' sp :
  Permutation h h' -> rt_at rt ids m X h sp -> rt_at rt ids m X h' sp.
Proof. intros P []. split; try done. by rewrite <- (hist_of_Permutation _ _ P). Qed.

Lemma rt_at_X rt ids m X X' h sp : X = X' -> rt_at rt ids m X h sp -> rt_at rt ids m X' h sp.
Proof. by intros ->. Qed.

Lemma set_segs_at rt ids m m' X h sp :
  rt_at rt ids m X h sp -> (forall i, i ∈ X -> m' !! i = m !! i) ->
  rt_at (set_segs rt m') ids m' X h sp.
Proof. intros [] Hm. split; try done. by eapply ops_law_frame. Qed.

Lemma set_root_at rt ids m X h sp t ids' :
  rt_at rt ids m X h sp -> t_wf t -> t_elems t = ids' -> rt_at (set_root rt t) ids' m X h sp.
Proof. intros [] Hwf <-. by split. Qed.

Lemma set_space_at rt ids m X h sp sp' :
  rt_at rt ids m X h sp -> rt_at (set_space rt sp') ids m X h sp'.
Proof. intros []. by split. Qed.

Lemma call_remove_at rt ids m X h sp i :
  rt_at rt ids m X h sp -> i ∈ X ->
  runs (call_remove rt i) (fun rt' => rt_at rt' ids m (X ∖ {[i]}) h sp).
Proof.
  intros [Hwf He Hm Hi Hh Hs Ho] HiX. unfold call_remove. rewrite Ho, Hm.
  eapply runs_bind; [by apply ops_law_remove |]. intros a Ha. by split.
Qed.

Lemma call_add_at rt ids m X h sp i s :
  rt_at rt ids m X h sp -> m !! i = Some s -> valid_seg s -> i ∉ X -> Z.of_nat (size X) + 1 < W64 ->
  (forall j s', j ∈ X -> m !! j = Some s' -> rs_start s' <> rs_start s) ->
  runs (call_add rt i) (fun rt' => rt_at rt' ids m ({[i]} ∪ X) h sp).
Proof.
  intros [Hwf He Hm Hi Hh Hs Ho] Hmi Hv HiX Hsz Hst. unfold call_add. rewrite Ho, Hm.
  eapply runs_bind; [by eapply ops_law_add |]. intros a Ha. by split.
Qed.

Lemma stat_incr_at rt ids m X h sp s :
  rt_at rt ids m X h sp -> valid_seg s -> Z.of_nat (length h) + 1 < W64 ->
  runs (range_tree_stat_incr rt s) (fun rt' => rt_at rt' ids m X (s :: h) sp).
Proof.
  intros [Hwf He Hm Hi Hh Hs Ho] Hv Hlen. unfold range_tree_stat_incr.
  rewrite (seg_size_u64 s Hv). pose proof (valid_seg_size s Hv) as Hsz.
  apply runs_VERIFY; [case_tests; [lia | done] |].
  rewrite Hh, (hist_of_lookup _ _ (hist_idx_lt s Hv)). simpl.
  pose proof (hist_count_le h (hist_idx (seg_size s))).
  unfold u64_add. rewrite u64_small by (unfold is_u64; lia).
  apply runs_VERIFY; [case_tests; [lia | done] |]. simpl. split; try done. simpl.
  rewrite hist_of_cons by done. f_equal. lia.
Qed.

Lemma stat_decr_at rt ids m X h sp s :
  rt_at rt ids m X (s :: h) sp -> valid_seg s -> Z.of_nat (length h) + 1 < W64 ->
  runs (range_tree_stat_decr rt s) (fun rt' => rt_at rt' ids m X h sp).
Proof.
  intros [Hwf He Hm Hi Hh Hs Ho] Hv Hlen. unfold range_tree_stat_decr.
  rewrite (seg_size_u64 s Hv). pose proof (valid_seg_size s Hv) as Hsz.
  apply runs_VERIFY; [case_tests; [lia | done] |].
  rewrite Hh, (hist_of_lookup _ _ (hist_idx_lt s Hv)). simpl.
  rewrite hist_count_cons, decide_True by done.
  apply runs_VERIFY; [case_tests; [lia | done] |]. simpl. split; try done. simpl.
  rewrite hist_of_cons, list_insert_insert_eq by done.
  pose proof (hist_count_le h (hist_idx (seg_size s))).
  unfold u64_sub. rewrite u64_small by (unfold is_u64; lia).
  apply list_insert_id. rewrite hist_of_lookup by by apply hist_idx_lt. f_equal. lia.
Qed.

(** ** Searching *)
Lemma find_at rt ids m lo eq hi q :
  rt_list rt ids m (lo ++ eq ++ hi) -> rs_start q < rs_end q ->
  Forall (fun s => rs_end s <= rs_start q) lo -> Forall (overlaps q) eq ->
  Forall (fun s => rs_end q <= rs_start s) hi ->
  exists ilo ieq ihi, ids = ilo ++ ieq ++ ihi /\ holds m ilo lo /\ holds m ieq eq /\ holds m ihi hi /\
  match eq with
  | [] => exists w, t_find (seg_compar m q) (rt_root rt) = Ok (inr w) /\ t_gap (rt_root rt) w ilo ihi
  | _ => exists i s, i ∈ ieq /\ s ∈ eq /\ m !! i = Some s /\
           t_find (seg_compar m q) (rt_root rt) = Ok (inl i)
  end.
Proof.
  intros [Hat Hh _ Hc] Hq Hlo Heq Hhi. destruct Hat as [Hwf He _ _ _ _ _].
  apply holds_app_r in Hh as (ilo & k & -> & H1 & Hh).
  apply holds_app_r in Hh as (ieq & ihi & -> & H2 & H3).
  exists ilo, ieq, ihi. split_and!; try done.
  pose proof (seg_compar_partitions m q _ _ _ _ _ _ Hc Hq H1 H2 H3 Hlo Heq Hhi) as Hp.
  pose proof (law_find _ _ _ _ _ Hwf He Hp) as Hf.
  destruct H2 as [| i s ieq eq Hi H2]; [done |]. destruct Hf as (x & Hx & Hf).
  assert (exists t, m !! x = Some t) as (t & Ht).
  { apply elem_of_cons in Hx as [-> | Hx]; [eauto |].
    apply list_elem_of_lookup_1 in Hx as (n & Hn).
    destruct (Forall2_lookup_l _ _ _ _ _ H2 Hn) as (t & _ & Ht). eauto. }
  exists x, t. split_and!; try done. eapply holds_elem; [by constructor | done | done].
Qed.

(** ** Adding *)
Lemma length_bound ids m l : holds m ids l -> canonical l -> NoDup ids ->
  Z.of_nat (size (list_to_set ids : gset addr)) + 2 < W64 /\ Z.of_nat (length l) + 2 < W64.
Proof.
  intros Hh Hc Hn. pose proof (canonical_bounds l Hc). pose proof (holds_length _ _ _ Hh).
  rewrite size_list_to_set by done. unfold W64 in *. lia.
Qed.

(** The callbacks accept any further segment of a canonical list. *)
Lemma enlist_at rt ids m X h sp i s l :
  rt_at rt ids m X h sp -> holds m ids l -> canonical l -> m !! i = Some s -> i ∈ ids ->
  i ∉ X -> (forall j, j ∈ X -> j ∈ ids) ->
  runs (call_add rt i) (fun rt' => rt_at rt' ids m ({[i]} ∪ X) h sp).
Proof.
  intros Hat Hh Hc Hi Hin HiX HX. pose proof (rt_at_NoDup _ _ _ _ _ _ Hat) as Hn.
  pose proof (length_bound _ _ _ Hh Hc Hn) as (Hb & _).
  pose proof (holds_elem _ _ _ _ _ Hh Hin Hi) as Hs.
  eapply (call_add_at _ _ _ _ _ _ i s); try done.
  - by eapply canonical_valid.
  - assert (size X <= size (list_to_set ids : gset addr))%nat by (apply subseteq_size; set_solver). lia.
  - intros j s' Hj Hs' E. assert (s' = s) as -> by (eapply canonical_starts; eauto using holds_elem).
    apply HiX. by rewrite (holds_inj _ _ _ _ _ _ Hh (canonical_NoDup _ Hc) Hin (HX j Hj) Hi Hs').
Qed.

(** The rest of an operation that leaves the segment [s] at [i], between
    [lo] and [hi], to be handed to the callbacks and counted. *)
Lemma add_done_at rt ilo i ihi m lo s hi h n :
  let ids := ilo ++ i :: ihi in
  rt_at rt ids m (list_to_set (ilo ++ ihi)) h (seg_total (lo ++ s :: hi) - n) ->
  Permutation h (lo ++ hi) -> holds m ids (lo ++ s :: hi) -> length ilo = length lo ->
  canonical (lo ++ s :: hi) -> dom m = list_to_set ids ->
  runs (range_tree_add_done rt i n) (fun rt' => rt_repr rt' (lo ++ s :: hi)).
Proof.
  intros ids Hat Hp Hh Hl Hc Hd. pose proof (rt_at_NoDup _ _ _ _ _ _ Hat) as Hn.
  destruct (length_bound _ _ _ Hh Hc Hn) as (Hb1 & Hb2).
  assert (m !! i = Some s) as Hi.
  { apply Forall2_app_inv in Hh as (_ & H2); [| done]. by apply Forall2_cons in H2 as (Hi & _). }
  pose proof (canonical_middle _ _ _ Hc) as (Hv & _ & _).
  unfold ids in *. clear ids. apply NoDup_app in Hn as (Hn1 & Hn2 & Hn3). apply NoDup_cons in Hn3 as (Hn3 & Hn4).
  unfold range_tree_add_done. eapply runs_bind; [eapply enlist_at; try done; set_solver |].
  intros rt1 H1. rewrite (at_segs _ _ _ _ _ _ H1), Hi. simpl.
  eapply runs_bind.
  { eapply stat_incr_at; [exact H1 | done |]. rewrite Hp. rewrite length_app in *. simpl in *. lia. }
  intros rt2 H2. simpl. exists (ilo ++ i :: ihi), m. split; try done.
  pose proof (canonical_bounds _ Hc) as (Ht & _).
  rewrite (at_space _ _ _ _ _ _ H2). replace (u64_add _ _) with (seg_total (lo ++ s :: hi))
    by (unfold u64_add; rewrite u64_small by (unfold is_u64; lia); lia).
  eapply set_space_at, rt_at_hist, rt_at_X, H2; [by rewrite Hp, Permutation_middle | set_solver].
Qed.

Lemma merge_before_at rt ilo lo start :
  holds (rt_segs rt) ilo lo -> canonical lo -> Forall (fun s => rs_end s <= start) lo ->
  exists o, load rt (last ilo) = Ok o /\
  match keep_if (fun s => rs_end s =? start) o with
  | Some (b, sb) => exists ilo' lo', ilo = ilo' ++ [b] /\ lo = lo' ++ [sb] /\
      holds (rt_segs rt) ilo' lo' /\ rt_segs rt !! b = Some sb /\ rs_end sb = start
  | None => forall a, a ∈ lo -> rs_end a < start
  end.
Proof.
  intros Hh Hc Hlo. destruct lo as [| sb lo' _] using rev_ind.
  { apply Forall2_nil_inv_r in Hh as ->. exists None. split; [done |]. set_solver. }
  apply holds_app_r in Hh as (ilo' & k & -> & Hh & Hb).
  apply holds_cons_r in Hb as (b & k' & -> & Hb & ->%Forall2_nil_inv_r).
  rewrite last_snoc. simpl. rewrite Hb. eexists; split; [done |]. simpl.
  apply Forall_app in Hlo as (_ & Hlo). inversion_clear Hlo.
  destruct (Z.eqb_spec (rs_end sb) start); [by exists ilo', lo' |].
  intros a Ha. apply elem_of_app in Ha as [Ha | ->%list_elem_of_singleton]; [| lia].
  apply canonical_middle in Hc as (Hv & Hc & _). specialize (Hc a Ha). unfold before_seg, valid_seg in *. lia.
Qed.

Lemma merge_after_at rt ihi hi end_ :
  holds (rt_segs rt) ihi hi -> canonical hi -> Forall (fun s => end_ <= rs_start s) hi ->
  exists o, load rt (head ihi) = Ok o /\
  match keep_if (fun s => rs_start s =? end_) o with
  | Some (a, sa) => exists ihi' hi', ihi = a :: ihi' /\ hi = sa :: hi' /\
      holds (rt_segs rt) ihi' hi' /\ rt_segs rt !! a = Some sa /\ rs_start sa = end_
  | None => forall b, b ∈ hi -> end_ < rs_start b
  end.
Proof.
  intros Hh Hc Hhi. destruct hi as [| sa hi'].
  { apply Forall2_nil_inv_r in Hh as ->. exists None. split; [done |]. set_solver. }
  apply holds_cons_r in Hh as (a & k & -> & Ha & Hh).
  simpl. rewrite Ha. eexists; split; [done |]. simpl. inversion_clear Hhi.
  destruct (Z.eqb_spec (rs_start sa) end_); [by exists k, hi' |].
  intros b [-> | Hb]%elem_of_cons; [lia |].
  apply canonical_cons in Hc as (Hv & _ & Hc). specialize (Hc b Hb). unfold before_seg, valid_seg in *. lia.
Qed.

(** The four ways [range_tree_add] ends, from the split [lo], [hi] of the
    segments around the new range [q]. *)
Section add.
Context (rt : range_tree T S) (m : seg_store) (start n : Z).
Let end_ := start + n.
Hypothesis (Hstart : 0 <= start) (Hn : 0 < n) (Hend : end_ < W64).

Lemma add_alone ilo ihi lo hi w :
  rt_list rt (ilo ++ ihi) m (lo ++ hi) -> length ilo = length lo ->
  t_gap (rt_root rt) w ilo ihi ->
  (forall a, a ∈ lo -> rs_end a < start) -> (forall b, b ∈ hi -> end_ < rs_start b) ->
  let i := kmem_cache_alloc m in
  let rt' := set_segs rt (<[i := MkSeg start end_]> m) in
  runs (root ← t_insert (rt_root rt') i w ; range_tree_add_done (set_root rt' root) i n)
    (fun r => rt_repr r (lo ++ MkSeg start end_ :: hi)).
Proof.
  intros [Hat Hh Hd Hc] Hl Hg Hlo Hhi i rt'.
  assert (i ∉ ilo ++ ihi) as Hi.
  { pose proof (is_fresh (dom m)) as Hf. rewrite Hd in Hf at 2. unfold i, kmem_cache_alloc. set_solver. }
  pose proof (rt_at_NoDup _ _ _ _ _ _ Hat) as HN. pose proof (length_bound _ _ _ Hh Hc HN) as (Hb & _).
  destruct (law_insert (rt_root rt) i w ilo ihi) as (t' & Et & Hwf & He);
    [apply Hat | done | done | |].
  { rewrite law_numnodes by apply Hat. rewrite (at_elems _ _ _ _ _ _ Hat).
    rewrite size_list_to_set in Hb by done. lia. }
  rewrite (Et : t_insert (rt_root rt') i w = Ok t'). simpl.
  apply Forall2_app_inv in Hh as (Hh1 & Hh2); [| done].
  eapply (add_done_at _ ilo i ihi).
  - eapply set_root_at; [| done | done].
    assert (seg_total (lo ++ MkSeg start end_ :: hi) - n = seg_total (lo ++ hi)) as ->.
    { rewrite !seg_total_app, seg_total_cons. unfold seg_size, end_. simpl. lia. }
    eapply set_segs_at; [done |]. intros j Hj. rewrite lookup_insert_ne; [done |]. set_solver.
  - done.
  - apply Forall2_app; [| constructor]; [| by rewrite lookup_insert_eq |];
      (eapply holds_agree; [| done]; intros j Hj; rewrite lookup_insert_ne; [done | set_solver]).
  - done.
  - apply canonical_insert; [done | | done | done]. unfold valid_seg; simpl. unfold end_ in *. lia.
  - rewrite dom_insert_L, Hd. set_solver.
Qed.

(** A segment is taken from the callbacks and from the histogram ... *)
Lemma retire_at rt0 ids X h h' sp b sb {B} (k : range_tree T S -> result B) Q :
  rt_at rt0 ids m X h sp -> b ∈ X -> Permutation h (sb :: h') -> valid_seg sb ->
  Z.of_nat (length h) < W64 ->
  (forall rt2, rt_at rt2 ids m (X ∖ {[b]}) h' sp -> runs (k rt2) Q) ->
  runs (rt1 ← call_remove rt0 b ; rt2 ← range_tree_stat_decr rt1 sb ; k rt2) Q.
Proof.
  intros Hat HX HP Hv Hlen Hk.
  eapply runs_bind; [by apply (call_remove_at _ _ _ _ _ _ _ Hat HX) |]. intros rt1 H1.
  eapply runs_bind; [| exact Hk].
  apply (stat_decr_at _ _ _ _ h' sp sb); [by apply (rt_at_hist _ _ _ _ _ _ _ HP) | done |].
  rewrite HP in Hlen. simpl in Hlen. lia.
Qed.

(** ... and put back with other bounds. *)
Lemma update_done_at rt0 ilo i ihi lo s hi m' :
  rt_at rt0 (ilo ++ i :: ihi) m (list_to_set (ilo ++ ihi)) (lo ++ hi) (seg_total (lo ++ s :: hi) - n) ->
  holds m ilo lo -> holds m ihi hi -> canonical (lo ++ s :: hi) ->
  (forall j, j ∈ ilo ++ ihi -> m' !! j = m !! j) -> m' !! i = Some s -> dom m' = list_to_set (ilo ++ i :: ihi) ->
  runs (range_tree_add_done (set_segs rt0 m') i n) (fun r => rt_repr r (lo ++ s :: hi)).
Proof.
  intros Hat H1 H2 Hc Hm Hi Hd. eapply (add_done_at _ ilo i ihi m').
  - eapply set_segs_at; [done |]. intros j Hj. apply Hm. set_solver.
  - done.
  - apply Forall2_app; [| constructor]; [| done |]; (eapply holds_agree; [| done]; intros; apply Hm; set_solver).
  - by eapply holds_length.
  - done.
  - done.
Qed.

Lemma add_left ilo b ihi lo sb hi :
  rt_list rt (ilo ++ b :: ihi) m (lo ++ sb :: hi) -> holds m ilo lo -> holds m ihi hi ->
  rs_end sb = start -> (forall b, b ∈ hi -> end_ < rs_start b) ->
  runs (rt ← call_remove rt b ; rt ← range_tree_stat_decr rt sb ;
        range_tree_add_done (set_segs rt (<[b := MkSeg (rs_start sb) end_]> (rt_segs rt))) b n)
    (fun r => rt_repr r (lo ++ MkSeg (rs_start sb) end_ :: hi)).
Proof.
  intros [Hat Hh Hd Hc] Hh1 Hh2 Hs Hhi.
  pose proof (rt_at_NoDup _ _ _ _ _ _ Hat) as HN. pose proof (length_bound _ _ _ Hh Hc HN) as (_ & Hb).
  destruct (canonical_middle _ _ _ Hc) as (Hv & Hma & Hmb).
  apply NoDup_app in HN as (HN1 & HN2 & HN3). apply NoDup_cons in HN3 as (HN3 & HN4).
  eapply retire_at; [done | set_solver | by rewrite <- Permutation_middle | done | lia |].
  intros rt2 H2. rewrite (at_segs _ _ _ _ _ _ H2). eapply (update_done_at rt2 ilo b ihi); try done.
  - replace (seg_total _ - n) with (seg_total (lo ++ sb :: hi)).
    2: { rewrite !seg_total_app, !seg_total_cons. unfold seg_size, end_ in *. simpl. lia. }
    eapply rt_at_X, H2. set_solver.
  - apply canonical_insert; [by apply (canonical_delete lo [sb]) | | | done].
    + unfold valid_seg in *. simpl. unfold end_ in *. lia.
    + intros a Ha. by apply Hma.
  - intros j Hj. rewrite lookup_insert_ne; [done | set_solver].
  - by rewrite lookup_insert_eq.
  - rewrite dom_insert_L, Hd. set_solver.
Qed.

Lemma add_right ilo a ihi lo sa hi :
  rt_list rt (ilo ++ a :: ihi) m (lo ++ sa :: hi) -> holds m ilo lo -> holds m ihi hi ->
  rs_start sa = end_ -> (forall b, b ∈ lo -> rs_end b < start) ->
  runs (rt ← call_remove rt a ; rt ← range_tree_stat_decr rt sa ;
        range_tree_add_done (set_segs rt (<[a := MkSeg start (rs_end sa)]> (rt_segs rt))) a n)
    (fun r => rt_repr r (lo ++ MkSeg start (rs_end sa) :: hi)).
Proof.
  intros [Hat Hh Hd Hc] Hh1 Hh2 Hs Hlo.
  pose proof (rt_at_NoDup _ _ _ _ _ _ Hat) as HN. pose proof (length_bound _ _ _ Hh Hc HN) as (_ & Hb).
  destruct (canonical_middle _ _ _ Hc) as (Hv & Hma & Hmb).
  apply NoDup_app in HN as (HN1 & HN2 & HN3). apply NoDup_cons in HN3 as (HN3 & HN4).
  eapply retire_at; [done | set_solver | by rewrite <- Permutation_middle | done | lia |].
  intros rt2 H2. rewrite (at_segs _ _ _ _ _ _ H2). eapply (update_done_at rt2 ilo a ihi); try done.
  - replace (seg_total _ - n) with (seg_total (lo ++ sa :: hi)).
    2: { rewrite !seg_total_app, !seg_total_cons. unfold seg_size, end_ in *. simpl. lia. }
    eapply rt_at_X, H2. set_solver.
  - apply canonical_insert; [by apply (canonical_delete lo [sa]) | | done |].
    + unfold valid_seg in *. simpl. unfold end_ in *. lia.
    + intros b Hb'. by apply Hmb.
  - intros j Hj. rewrite lookup_insert_ne; [done | set_solver].
  - by rewrite lookup_insert_eq.
  - rewrite dom_insert_L, Hd. set_solver.
Qed.

Lemma add_both ilo b a ihi lo sb sa hi :
  rt_list rt (ilo ++ b :: a :: ihi) m (lo ++ sb :: sa :: hi) -> holds m ilo lo -> holds m ihi hi ->
  rs_end sb = start -> rs_start sa = end_ ->
  runs (root ← t_remove (rt_root rt) b ;
        rt ← call_remove (set_root rt root) b ; rt ← call_remove rt a ;
        rt ← range_tree_stat_decr rt sb ; rt ← range_tree_stat_decr rt sa ;
        let m := <[a := MkSeg (rs_start sb) (rs_end sa)]> (rt_segs rt) in
        range_tree_add_done (set_segs rt (delete b m)) a n)
    (fun r => rt_repr r (lo ++ MkSeg (rs_start sb) (rs_end sa) :: hi)).
Proof.
  intros [Hat Hh Hd Hc] Hh1 Hh2 Hsb Hsa.
  pose proof (rt_at_NoDup _ _ _ _ _ _ Hat) as HN. pose proof (length_bound _ _ _ Hh Hc HN) as (_ & Hb).
  destruct (canonical_middle _ _ _ Hc) as (Hv & Hma & Hmb).
  destruct (canonical_middle (lo ++ [sb]) sa hi) as (Hva & _ & Hma'); [by rewrite <- app_assoc |].
  apply NoDup_app in HN as (HN1 & HN2 & HN3). apply NoDup_cons in HN3 as (HN3 & HN4).
  apply NoDup_cons in HN4 as (HN4 & HN5). rewrite length_app in Hb. simpl in Hb.
  destruct (law_remove (rt_root rt) b ilo (a :: ihi)) as (t' & -> & Hwf & He); [apply Hat.. |]. simpl.
  pose proof (set_root_at _ _ _ _ _ _ _ _ Hat Hwf He) as H0.
  eapply runs_bind; [eapply (call_remove_at _ _ _ _ _ _ b); [exact H0 | set_solver] |]. intros rt1 H1.
  eapply runs_bind; [eapply (call_remove_at _ _ _ _ _ _ a); [exact H1 | set_solver] |]. intros rt2 H2.
  eapply runs_bind.
  { eapply (stat_decr_at _ _ _ _ (sa :: lo ++ hi) _ sb); [| done | simpl; rewrite length_app; lia].
    eapply rt_at_hist, H2. by rewrite <- !Permutation_middle. }
  intros rt3 H3. eapply runs_bind; [eapply (stat_decr_at _ _ _ _ _ _ sa); [exact H3 | done | rewrite length_app; lia] |].
  intros rt4 H4. rewrite (at_segs _ _ _ _ _ _ H4). eapply (update_done_at rt4 ilo a ihi); try done.
  - replace (seg_total _ - n) with (seg_total (lo ++ sb :: sa :: hi)).
    2: { rewrite !seg_total_app, !seg_total_cons. unfold seg_size, end_ in *. simpl. lia. }
    eapply rt_at_X, H4. set_solver.
  - apply canonical_insert; [by apply (canonical_delete lo [sb; sa]) | | |].
    + unfold valid_seg in *. simpl. unfold end_ in *. lia.
    + intros c Hc'. by apply Hma.
    + intros c Hc'. by apply Hma'.
  - intros j Hj. rewrite lookup_delete_ne, lookup_insert_ne; [done | set_solver..].
  - rewrite lookup_delete_ne, lookup_insert_eq; [done | set_solver].
  - rewrite dom_delete_L, dom_insert_L, Hd. set_solver.
Qed.
End add.

Lemma rt_repr_space rt l : rt_repr rt l -> rt_space rt = seg_total l.
Proof. intros (ids & m & [[] _ _ _]). done. Qed.

(** [add] on a range that no segment overlaps. *)
Lemma add_lists zfs_recover rt lo hi start n :
  rt_repr rt (lo ++ hi) -> 0 <= start -> 0 < n -> start + n < W64 ->
  Forall (fun s => rs_end s <= start) lo -> Forall (fun s => start + n <= rs_start s) hi ->
  runs (range_tree_add zfs_recover rt start n) (fun rt' => exists l', rt_repr rt' l' /\
    covered l' ≡ covered (lo ++ hi) ∪ seg_set (MkSeg start (start + n)) /\
    seg_total l' = seg_total (lo ++ hi) + n).
Proof.
  intros (ids & m & Hl) H0 Hn Hend Hlo Hhi. unfold range_tree_add. cbv zeta.
  rewrite u64_add_small by (unfold is_u64; lia).
  apply runs_VERIFY; [case_tests; [lia | done] |].
  destruct (find_at rt ids m lo [] hi (MkSeg start (start + n))) as
    (ilo & ieq & ihi & -> & H1 & ->%Forall2_nil_inv_r & H3 & w & Hf & Hg); [done | simpl; lia | done | done | done |].
  simpl in Hl, Hg |- *. pose proof (rl_at _ _ _ _ Hl) as Hat. pose proof (at_segs _ _ _ _ _ _ Hat) as Hm.
  rewrite Hm, Hf. simpl. rewrite !(law_nearest _ _ _ _ _ (at_wf _ _ _ _ _ _ Hat) Hg). simpl.
  pose proof (rl_canonical _ _ _ _ Hl) as (Hc1 & Hc2 & _)%canonical_app. subst m.
  destruct (merge_before_at rt ilo lo start H1 Hc1 Hlo) as (ob & -> & Hob).
  destruct (merge_after_at rt ihi hi (start + n) H3 Hc2 Hhi) as (oa & -> & Hoa). simpl.
  assert (Hv : forall s, s ∈ lo ++ hi -> valid_seg s) by (intros; eapply canonical_valid, H; apply Hl).
  destruct (keep_if _ ob) as [[b sb] |]; destruct (keep_if _ oa) as [[a sa] |].
  - destruct Hob as (ilo' & lo' & -> & -> & Hlo' & Hb & Eb). destruct Hoa as (ihi' & hi' & -> & -> & Hhi' & Ha & Ea).
    rewrite <- (app_assoc lo'), <- ?(app_assoc ilo') in *. eapply runs_impl; [by apply (add_both rt (rt_segs rt) start n H0 Hn Hend ilo' b a ihi' lo' sb sa hi') |].
    intros rt' Hr. eexists. split; [exact Hr |].
    pose proof (Hv sa ltac:(set_solver)). pose proof (Hv sb ltac:(set_solver)). unfold valid_seg in *.
    split; [apply (covered_grow lo' [sb; sa]); seg_sets |].
    apply (seg_total_grow lo' [sb; sa]). simpl. unfold seg_size. simpl. lia.
  - destruct Hob as (ilo' & lo' & -> & -> & Hlo' & Hb & Eb).
    rewrite <- (app_assoc lo'), <- ?(app_assoc ilo') in *. eapply runs_impl; [by apply (add_left rt (rt_segs rt) start n H0 Hn Hend ilo' b ihi lo' sb hi) |].
    intros rt' Hr. eexists. split; [exact Hr |]. pose proof (Hv sb ltac:(set_solver)). unfold valid_seg in *.
    split; [apply (covered_grow lo' [sb]); seg_sets |].
    apply (seg_total_grow lo' [sb]). simpl. unfold seg_size. simpl. lia.
  - destruct Hoa as (ihi' & hi' & -> & -> & Hhi' & Ha & Ea).
    eapply runs_impl; [by apply (add_right rt (rt_segs rt) start n H0 Hn Hend ilo a ihi' lo sa hi') |].
    intros rt' Hr. eexists. split; [exact Hr |]. pose proof (Hv sa ltac:(set_solver)). unfold valid_seg in *.
    split; [apply (covered_grow lo [sa]); seg_sets |].
    apply (seg_total_grow lo [sa]). simpl. unfold seg_size. simpl. lia.
  - eapply runs_impl; [apply (add_alone rt (rt_segs rt) start n H0 Hn Hend ilo ihi lo hi w);
      [done | by eapply holds_length | done..] |].
    intros rt' Hr. eexists. split; [exact Hr |].
    split; [apply (covered_grow lo []); seg_sets |]. apply (seg_total_grow lo []). simpl. unfold seg_size. simpl. lia.
Qed.

(** ** Removing *)
Lemma keep_at rt ids m X h sp i s l :
  rt_at rt ids m X h sp -> holds m ids l -> canonical l -> m !! i = Some s ->
  list_to_set ids = {[i]} ∪ X -> i ∉ X -> Permutation l (s :: h) ->
  runs (range_tree_remove_keep rt i) (fun rt' => rt_at rt' ids m (list_to_set ids) l sp).
Proof.
  intros Hat Hh Hc Hi HX HiX HP. pose proof (rt_at_NoDup _ _ _ _ _ _ Hat) as Hn.
  pose proof (length_bound _ _ _ Hh Hc Hn) as (_ & Hb).
  assert (i ∈ ids) as Hin by set_solver. assert (s ∈ l) by by eapply holds_elem.
  unfold range_tree_remove_keep. rewrite (at_segs _ _ _ _ _ _ Hat), Hi. simpl.
  eapply runs_bind.
  { eapply stat_incr_at; [done | by eapply canonical_valid |]. rewrite HP in Hb. simpl in Hb. lia. }
  intros rt1 H1. eapply runs_impl; [eapply (enlist_at _ _ _ _ _ _ i s l); [exact H1 | done..| set_solver] |].
  intros rt2 H2. eapply rt_at_hist, rt_at_X, H2; [by rewrite HP | done].
Qed.

(** The state before [rt_space] is decreased. *)
Definition removed (sp : Z) rt l : Prop :=
  exists ids m, rt_at rt ids m (list_to_set ids) l sp /\ holds m ids l /\
    dom m = list_to_set ids /\ canonical l.

Lemma split_insert rt m ilo i j ihi lo ls ns hi sp :
  rt_at rt (ilo ++ i :: ihi) m (list_to_set (ilo ++ ihi)) (ns :: lo ++ hi) sp ->
  holds m (ilo ++ i :: j :: ihi) (lo ++ ls :: ns :: hi) -> canonical (lo ++ ls :: ns :: hi) ->
  holds m ihi hi -> m !! i = Some ls -> m !! j = Some ns ->
  j ∉ ilo ++ i :: ihi -> dom m = list_to_set (ilo ++ i :: j :: ihi) ->
  runs (root ← t_insert_here (seg_compar_at (rt_segs rt)) (rt_root rt) j i AVL_AFTER ;
        rt ← call_add (set_root rt root) j ;
        range_tree_remove_keep rt i)
    (fun rt' => removed sp rt' (lo ++ ls :: ns :: hi)).
Proof.
  intros Hat Hh Hc Hhi Hi Hj Hnj Hd. pose proof (rt_at_NoDup _ _ _ _ _ _ Hat) as Hn.
  pose proof (canonical_bounds _ Hc) as (_ & Hlen & _). rewrite <- (holds_length _ _ _ Hh) in Hlen.
  rewrite length_app in Hlen. simpl in Hlen.
  rewrite (at_segs _ _ _ _ _ _ Hat).
  destruct (law_insert_after (seg_compar_at m) (rt_root rt) j i ilo ihi) as (t' & -> & Hwf & He).
  - apply Hat.
  - apply Hat.
  - done.
  - rewrite law_numnodes by apply Hat. rewrite (at_elems _ _ _ _ _ _ Hat), length_app. simpl. unfold W64 in *. lia.
  - unfold seg_compar_at, seg_compar. rewrite Hi, Hj.
    apply canonical_middle in Hc as (Hv & _ & Hb). specialize (Hb ns ltac:(set_solver)).
    unfold range_tree_seg_compare, before_seg, valid_seg in *. case_tests; done || lia.
  - eapply (holds_Forall _ _ hi (fun s => before_seg ns s)); [done | |].
    + rewrite Forall_forall. apply (canonical_middle (lo ++ [ls]) ns hi). by rewrite <- app_assoc.
    + intros k s Hk Hb. unfold seg_compar_at, seg_compar. rewrite Hj, Hk.
      assert (valid_seg ns) by (eapply canonical_valid; [exact Hc | set_solver]).
      unfold range_tree_seg_compare, before_seg, valid_seg in *. case_tests; done || lia.
  - simpl. rewrite <- Permutation_middle in Hn. apply NoDup_cons in Hn as (Hni & Hn).
    eapply runs_bind.
    { eapply enlist_at; [by eapply set_root_at | done | done | done | set_solver..]. }
    intros rt1 H1. eapply runs_impl.
    { eapply (keep_at _ _ _ _ _ _ i ls); [exact H1 | done | done | done | set_solver | set_solver |].
      by rewrite <- !Permutation_middle. }
    intros rt2 H2. by exists (ilo ++ i :: j :: ihi), m.
Qed.

Section remove.
Context (rt : range_tree T S) (ilo ihi : list addr) (i : addr) (m : seg_store).
Context (lo hi : list range_seg) (s : range_seg) (sp : Z).
Let ids := ilo ++ i :: ihi.
Hypothesis (Hat : rt_at rt ids m (list_to_set (ilo ++ ihi)) (lo ++ hi) sp).
Hypothesis (H1 : holds m ilo lo) (H2 : holds m ihi hi) (Hs : m !! i = Some s).
Hypothesis (Hd : dom m = list_to_set ids) (Hc : canonical (lo ++ s :: hi)).

Lemma remove_fresh : i ∉ ilo ++ ihi /\ NoDup (ilo ++ ihi).
Proof.
  pose proof (rt_at_NoDup _ _ _ _ _ _ Hat) as Hn. unfold ids in Hn.
  rewrite <- Permutation_middle in Hn. by apply NoDup_cons in Hn.
Qed.

Lemma remove_all :
  runs (root ← t_remove (rt_root rt) i ; Ok (set_segs (set_root rt root) (delete i (rt_segs rt))))
    (fun rt' => removed sp rt' (lo ++ hi)).
Proof.
  destruct remove_fresh as (Hi & Hn).
  destruct (law_remove (rt_root rt) i ilo ihi) as (t' & -> & Hwf & He); [apply Hat.. |]. simpl.
  rewrite (at_segs _ _ _ _ _ _ Hat). exists (ilo ++ ihi), (delete i m). split_and!.
  - eapply set_segs_at; [by eapply set_root_at |]. intros j Hj. rewrite lookup_delete_ne; [done | set_solver].
  - eapply holds_agree; [| by apply Forall2_app]. intros j Hj. rewrite lookup_delete_ne; [done | set_solver].
  - rewrite dom_delete_L, Hd. unfold ids. set_solver.
  - by apply (canonical_delete lo [s]).
Qed.

Lemma remove_shrink s' :
  rs_start s <= rs_start s' < rs_end s' -> rs_end s' <= rs_end s ->
  runs (range_tree_remove_keep (set_segs rt (<[i := s']> (rt_segs rt))) i)
    (fun rt' => removed sp rt' (lo ++ s' :: hi)).
Proof.
  intros Hb1 Hb2. destruct remove_fresh as (Hi & Hn). rewrite (at_segs _ _ _ _ _ _ Hat).
  destruct (canonical_middle _ _ _ Hc) as (Hv & Ha & Hb). unfold valid_seg, before_seg in *.
  assert (canonical (lo ++ s' :: hi)) as Hc'.
  { apply canonical_insert; [by apply (canonical_delete lo [s]) | unfold valid_seg; lia | |];
      unfold before_seg; intros a Hin; [specialize (Ha a Hin) | specialize (Hb a Hin)]; lia. }
  assert (Hm : forall j, j ∈ ilo ++ ihi -> <[i := s']> m !! j = m !! j).
  { intros j Hj. rewrite lookup_insert_ne; [done | set_solver]. }
  assert (holds (<[i := s']> m) ids (lo ++ s' :: hi)).
  { apply Forall2_app; [| constructor]; [| by rewrite lookup_insert_eq |];
      (eapply holds_agree; [| done]; intros; apply Hm; set_solver). }
  eapply runs_impl.
  { eapply (keep_at _ ids _ _ _ _ i s'); [eapply set_segs_at; [done |] | done | done | | | |].
    - intros j Hj. apply Hm. set_solver.
    - by rewrite lookup_insert_eq.
    - unfold ids. set_solver.
    - set_solver.
    - by rewrite Permutation_middle. }
  intros rt' Hr. exists ids, (<[i := s']> m). split_and!; try done. rewrite dom_insert_L, Hd. unfold ids. set_solver.
Qed.

(** The hole in the middle: [rs] keeps the left part, a new segment the right. *)
Lemma remove_split a b :
  rs_start s < a -> a < b -> b < rs_end s ->
  let newseg := kmem_cache_alloc (rt_segs rt) in
  let ns := MkSeg b (rs_end s) in
  let rt1 := set_segs rt (<[newseg := ns]> (rt_segs rt)) in
  runs (rt ← range_tree_stat_incr rt1 ns ;
        let rt := set_segs rt (<[i := MkSeg (rs_start s) a]> (rt_segs rt)) in
        root ← t_insert_here (seg_compar_at (rt_segs rt)) (rt_root rt) newseg i AVL_AFTER ;
        rt ← call_add (set_root rt root) newseg ;
        range_tree_remove_keep rt i)
    (fun rt' => removed sp rt' (lo ++ MkSeg (rs_start s) a :: ns :: hi)).
Proof.
  intros Hab1 Hab2 Hab3 j ns rt1. destruct remove_fresh as (Hi & Hn).
  pose proof (at_segs _ _ _ _ _ _ Hat) as Em.
  assert (j ∉ ids) as Hj.
  { pose proof (is_fresh (dom m)) as Hf. rewrite Hd in Hf at 2. unfold j, kmem_cache_alloc. rewrite Em. set_solver. }
  destruct (canonical_middle _ _ _ Hc) as (Hv & Hla & Hhb).
  set (ls := MkSeg (rs_start s) a). set (m' := <[i := ls]> (<[j := ns]> m)).
  assert (i <> j) as Hij by (unfold ids in Hj; set_solver).
  assert (m' !! i = Some ls) as Hmi by apply lookup_insert_eq.
  assert (m' !! j = Some ns) as Hmj by (unfold m'; by rewrite lookup_insert_ne, lookup_insert_eq).
  assert (Hm : forall k, k ∈ ilo ++ ihi -> m' !! k = m !! k).
  { intros k Hk. unfold m'. rewrite !lookup_insert_ne; [done | unfold ids in Hj; set_solver..]. }
  pose proof (canonical_cut lo s hi a b Hc Hab1 Hab2 Hab3 : canonical (lo ++ ls :: ns :: hi)) as Hc'.
  assert (holds m' (ilo ++ i :: j :: ihi) (lo ++ ls :: ns :: hi)) as Hh'.
  { apply Forall2_app; [| constructor; [done | constructor; [done |]]];
      (eapply holds_agree; [| done]; intros; apply Hm; set_solver). }
  pose proof (canonical_bounds _ Hc') as (_ & Hlen & _). rewrite length_app in Hlen. simpl in Hlen.
  eapply runs_bind.
  { eapply (stat_incr_at _ _ (<[j := ns]> m)); [unfold rt1; rewrite Em; eapply set_segs_at; [done |] | |].
    - intros k Hk. rewrite lookup_insert_ne; [done | unfold ids in Hj; set_solver].
    - eapply canonical_valid; [exact Hc' | set_solver].
    - rewrite length_app. unfold W64 in *. lia. }
  intros rt2 H4. cbv zeta. rewrite (at_segs _ _ _ _ _ _ H4).
  eapply (split_insert _ m' ilo i j ihi lo ls ns hi sp); try done.
  - eapply set_segs_at; [exact H4 |]. intros k Hk. unfold m'. rewrite lookup_insert_ne; [done | set_solver].
  - eapply holds_agree; [| exact H2]. intros; apply Hm; set_solver.
  - unfold m'. rewrite !dom_insert_L, Hd. unfold ids. set_solver.
Qed.
End remove.

Lemma remove_lists zfs_recover rt lo s hi start n :
  rt_repr rt (lo ++ s :: hi) -> 0 < n -> rs_start s <= start -> start + n <= rs_end s ->
  runs (range_tree_remove zfs_recover rt start n)
    (fun rt' => rt_repr rt' (lo ++ remains s start (start + n) ++ hi)).
Proof.
  intros (ids & m & Hl) Hn Hs He. pose proof (rl_canonical _ _ _ _ Hl) as Hc.
  destruct (canonical_middle _ _ _ Hc) as (Hv & Hlo & Hhi). unfold valid_seg, before_seg in Hv, Hlo, Hhi.
  destruct (find_at rt ids m lo [s] hi (MkSeg start (start + n))) as
    (ilo & ieq & ihi & -> & H1 & H2 & H3 & i & s' & Hi & ->%list_elem_of_singleton & Hsi & Hf);
    [done | simpl; lia | | repeat constructor; simpl; lia | |].
  { rewrite Forall_forall. intros a Ha. specialize (Hlo a Ha). simpl. lia. }
  { rewrite Forall_forall. intros a Ha. specialize (Hhi a Ha). simpl. lia. }
  apply holds_cons_r in H2 as (i' & k & -> & Hsi' & ->%Forall2_nil_inv_r).
  apply list_elem_of_singleton in Hi as ->. simpl in Hl.
  destruct Hl as [Hat Hh Hd _]. pose proof (at_segs _ _ _ _ _ _ Hat) as Em.
  pose proof (canonical_bounds _ Hc) as (Hb & Hlen & _). rewrite length_app in Hlen. simpl in Hlen.
  pose proof (canonical_bounds _ (canonical_delete lo [s] hi Hc)) as (Hb' & _).
  assert (seg_total (lo ++ s :: hi) = seg_total (lo ++ hi) + seg_size s) as Ht
    by (rewrite !seg_total_app, seg_total_cons; lia).
  unfold range_tree_remove. cbv zeta. rewrite u64_add_small by (unfold is_u64; lia).
  apply runs_VERIFY; [case_tests; [lia | done] |].
  apply runs_VERIFY; [rewrite (at_space _ _ _ _ _ _ Hat), Ht; unfold seg_size; case_tests; [done | lia] |].
  rewrite Em, Hf. simpl. rewrite Hsi. simpl.
  apply runs_VERIFY; [case_tests; [done | lia] |]. apply runs_VERIFY; [case_tests; [done | lia] |].
  eapply runs_bind.
  { eapply (stat_decr_at _ _ _ _ (lo ++ hi) _ s); [eapply rt_at_hist, Hat; by rewrite Permutation_middle | done |].
    rewrite length_app. unfold W64 in *. lia. }
  intros rt1 R1. eapply runs_bind; [eapply (call_remove_at _ _ _ _ _ _ i'); [exact R1 | set_solver] |].
  intros rt2 R2. eapply (rt_at_X _ _ _ _ (list_to_set (ilo ++ ihi))) in R2.
  2: { pose proof (rt_at_NoDup _ _ _ _ _ _ Hat) as HN. rewrite <- Permutation_middle in HN.
       apply NoDup_cons in HN as (HN & _). set_solver. }
  eapply (runs_bind _ _ (fun rt' => removed (seg_total (lo ++ s :: hi)) rt' (lo ++ remains s start (start + n) ++ hi))).
  - unfold remains. destruct (Z.eqb_spec (rs_start s) start), (Z.eqb_spec (rs_end s) (start + n)); simpl.
    + by eapply remove_all.
    + eapply remove_shrink; try done; simpl; lia.
    + eapply remove_shrink; try done; simpl; lia.
    + eapply remove_split; try done; simpl; lia.
  - intros rt3 (ids' & m' & R3 & Rh & Rd & Rc). exists ids', m'. split; try done.
    rewrite (at_space _ _ _ _ _ _ R3), u64_sub_small by (rewrite Ht; unfold is_u64, seg_size in *; lia).
    rewrite seg_total_remains. replace (start + n - start) with n by lia. by eapply set_space_at.
Qed.
End spec.
