(* ===== verification/RangeTreeThms.v ===== *)
(** * What the range tree promises

    The theorems a user of range_tree.c needs: each operation as an operation
    on the set of offsets, on every branch. *)
From S2P Require Import Prelude Avl AvlSpec OrdTree RangeTree Segments RangeTreeSpec.
From stdpp Require Import propset.
Local Open Scope Z_scope.

(** The offsets of [start, start + n). *)
Definition offsets (start n : Z) : propset Z := seg_set (MkSeg start (start + n)).

#[global] Instance offsets_dec x start n : Decision (x ∈ offsets start n).
Proof. unfold offsets, seg_set. simpl. apply (decide (start <= x < start + n)). Defined.

(** An argument that does not run past the end of the 64-bit space. *)
Definition valid_range (start n : Z) : Prop := 0 <= start /\ 0 < n /\ start + n < W64.

Section theorems.
Context {T S : Type} `{!AvlOps addr T} `{!AvlLaws addr T}.
Context (oo : option (range_tree_ops S)) (Init : S -> Prop) (Inv : seg_store -> gset addr -> S -> Prop).
Context `{!OpsLaws oo Init Inv}.
Implicit Types (rt : range_tree T S) (l : list range_seg) (P : propset Z).

Notation rt_repr := (rt_repr oo Inv).
Notation rt_models := (rt_models oo Inv).

Lemma disjoint_split l start n :
  canonical l -> valid_range start n -> covered l ## offsets start n ->
  exists lo hi, l = lo ++ hi /\ Forall (fun s => rs_end s <= start) lo /\
    Forall (fun s => start + n <= rs_start s) hi.
Proof.
  intros Hc (H0 & Hn & He) Hd.
  destruct (canonical_split l (MkSeg start (start + n))) as (lo & eq & hi & -> & Hlo & Heq & Hhi);
    [done | simpl; lia |].
  exists lo, hi. split_and!; try done. destruct eq as [| s eq]; [done |]. exfalso.
  inversion_clear Heq as [| ? ? Ho _].
  assert (valid_seg s) as Hv by (eapply canonical_valid; [done | set_solver]). unfold valid_seg in Hv.
  destruct (seg_set_overlap (MkSeg start (start + n)) s) as (x & Hx1 & Hx2); [simpl; lia | lia | done |].
  apply (Hd x); [| done]. apply elem_of_covered. exists s. unfold seg_set in Hx2.
  rewrite elem_of_PropSet in Hx2. set_solver.
Qed.

Lemma add_models zfs_recover rt P start n :
  rt_models rt P -> valid_range start n -> P ## offsets start n ->
  runs (range_tree_add zfs_recover rt start n)
    (fun rt' => rt_models rt' (P ∪ offsets start n) /\ rt_space rt' = rt_space rt + n).
Proof.
  intros (l & Hr & Hl) Hv Hd. pose proof Hr as (ids & m & [_ _ _ Hc]).
  destruct (disjoint_split l start n) as (lo & hi & -> & Hlo & Hhi); [done | done | by rewrite Hl |].
  destruct Hv as (H0 & Hn & He).
  eapply runs_impl; [by eapply add_lists |]. intros rt' (l' & Hr' & Hc' & Ht).
  split; [exists l'; split; [done | by rewrite Hc', Hl] |].
  erewrite !rt_repr_space; done.
Qed.

Lemma remove_models zfs_recover rt P start n :
  rt_models rt P -> valid_range start n -> offsets start n ⊆ P ->
  runs (range_tree_remove zfs_recover rt start n)
    (fun rt' => rt_models rt' (P ∖ offsets start n) /\ rt_space rt' = rt_space rt - n).
Proof.
  intros (l & Hr & Hl) (H0 & Hn & He) Hd. pose proof Hr as (ids & m & [_ _ _ Hc]).
  destruct (covered_contiguous l (MkSeg start (start + n))) as (s & Hs & Ha & Hb);
    [done | simpl; lia | by rewrite Hl |]. simpl in *.
  apply list_elem_of_split in Hs as (lo & hi & ->).
  eapply runs_impl; [by eapply remove_lists |]. intros rt' Hr'. split.
  - eexists. split; [exact Hr' |]. rewrite covered_remains by (done || lia). by rewrite Hl.
  - rewrite (rt_repr_space _ _ _ _ Hr'), (rt_repr_space _ _ _ _ Hr). rewrite seg_total_remains. lia.
Qed.

(** What [avl_find] yields on the segments of [l]. *)
Lemma find_impl_models rt l start n :
  rt_repr rt l -> valid_range start n ->
  exists i, t_find (seg_compar (rt_segs rt) (MkSeg start (start + n))) (rt_root rt) = Ok i /\
  match i with
  | inl i => exists s, rt_segs rt !! i = Some s /\ s ∈ l /\ overlaps (MkSeg start (start + n)) s
  | inr _ => covered l ## offsets start n
  end.
Proof.
  intros (ids & m & Hl) (H0 & Hn & He). pose proof (at_segs _ _ _ _ _ _ _ _ (rl_at _ _ _ _ _ _ Hl)) as ->.
  destruct (canonical_split l (MkSeg start (start + n))) as (lo & eq & hi & -> & Hlo & Heq & Hhi);
    [apply Hl | simpl; lia |].
  destruct (find_at oo Inv rt ids m lo eq hi (MkSeg start (start + n)) Hl ltac:(simpl; lia) Hlo Heq Hhi) as (ilo & ieq & ihi & _ & _ & _ & _ & Hf).
  destruct eq as [| s eq].
  - destruct Hf as (w & -> & _). eexists; split; [done |]. simpl. intros x (s & Hs & Hx)%elem_of_covered Hx'.
    unfold offsets, seg_set in Hx'. rewrite elem_of_PropSet in Hx'. simpl in *. rewrite Forall_forall in Hlo, Hhi.
    apply elem_of_app in Hs as [Hs | Hs]; [specialize (Hlo s Hs) | specialize (Hhi s Hs)]; lia.
  - destruct Hf as (i & s' & Hi & Hs' & Hm & ->). eexists; split; [done |]. simpl. exists s'.
    rewrite Forall_forall in Heq. split_and!; [done | set_solver | by apply Heq].
Qed.

(** A segment that overlaps a covered range contains it. *)
Lemma overlap_contains l s start n :
  canonical l -> s ∈ l -> 0 < n -> overlaps (MkSeg start (start + n)) s ->
  (rs_start s <= start /\ start + n <= rs_end s <-> offsets start n ⊆ covered l).
Proof.
  intros Hc Hs Hn Ho. unfold overlaps in Ho. simpl in Ho. split.
  - intros Hin x Hx. apply elem_of_covered. exists s. unfold offsets, seg_set in Hx.
    rewrite elem_of_PropSet in Hx. simpl in Hx. split; [done | lia].
  - intros Hsub. destruct (covered_contiguous l (MkSeg start (start + n))) as (t & Ht & Ha & Hb);
      [done | simpl; lia | done |]. simpl in *.
    destruct (canonical_ordered l s t Hc Hs Ht) as [-> | [H | H]]; unfold before_seg in *; lia.
Qed.

Lemma overlap_not_disjoint l s start n :
  canonical l -> s ∈ l -> 0 < n -> overlaps (MkSeg start (start + n)) s -> ~ covered l ## offsets start n.
Proof.
  intros Hc Hs Hn Ho Hd. pose proof (canonical_valid l s Hc Hs) as Hv. unfold valid_seg in Hv.
  destruct (seg_set_overlap (MkSeg start (start + n)) s) as (x & Hx1 & Hx2); [simpl; lia | lia | done |].
  apply (Hd x); [| done]. apply elem_of_covered. exists s. unfold seg_set in Hx2.
  rewrite elem_of_PropSet in Hx2. auto.
Qed.

Lemma offsets_nonempty start n P : 0 < n -> offsets start n ⊆ P -> ~ P ## offsets start n.
Proof.
  intros Hn Hsub Hd. assert (start ∈ offsets start n) as Hx
    by (unfold offsets, seg_set; rewrite elem_of_PropSet; simpl; lia).
  by apply (Hd start); [apply Hsub |].
Qed.

Lemma contained_test s start n :
  (rs_start s <=? start) && (start + n <=? rs_end s) = true <-> rs_start s <= start /\ start + n <= rs_end s.
Proof. rewrite andb_true_iff, !Z.leb_le. done. Qed.

(** [range_tree_find_impl] returns a segment exactly when one overlaps. *)
Lemma find_impl_spec rt l start n :
  rt_repr rt l -> valid_range start n ->
  exists o, range_tree_find_impl rt start n = Ok o /\
  match o with
  | Some s => s ∈ l /\ overlaps (MkSeg start (start + n)) s
  | None => covered l ## offsets start n
  end.
Proof.
  intros Hr Hv. destruct (find_impl_models rt l start n Hr Hv) as (r & Hf & Hm). destruct Hv as (H0 & Hn & He).
  unfold range_tree_find_impl. rewrite u64_add_small by (unfold is_u64; lia).
  destruct (Z.eqb_spec n 0); [lia |]. simpl. rewrite Hf. simpl. destruct r as [i | w].
  - destruct Hm as (s & -> & Hs & Ho). by exists (Some s).
  - by exists None.
Qed.

Lemma find_spec rt l start n :
  rt_repr rt l -> valid_range start n ->
  exists o, range_tree_find rt start n = Ok o /\ (is_Some o <-> offsets start n ⊆ covered l).
Proof.
  intros Hr Hv. destruct (find_impl_spec rt l start n Hr Hv) as (o & Hf & Ho). destruct Hv as (H0 & Hn & He).
  unfold range_tree_find. rewrite Hf. simpl. pose proof Hr as (ids & m & [_ _ _ Hc]). destruct o as [s |].
  - destruct Ho as (Hs & Ho). rewrite u64_add_small by (unfold is_u64; lia).
    pose proof (overlap_contains l s start n Hc Hs Hn Ho) as Hiff. rewrite <- contained_test in Hiff.
    destruct (_ && _); eexists; (split; [done |]); rewrite <- Hiff.
    + by split; eauto.
    + split; [by intros [? ?] | done].
  - eexists; split; [done |]. split; [by intros [? ?] |]. intros Hsub. by destruct (offsets_nonempty start n (covered l)).
Qed.

(** ** Whole-tree operations *)
Lemma segs_spec rt l : rt_repr rt l -> range_tree_segs rt = Ok l.
Proof.
  intros (ids & m & [[Hwf He Hm _ _ _ _] Hh _ _]). unfold range_tree_segs.
  rewrite t_walk_spec by done. simpl. rewrite He, Hm. clear -Hh.
  replace (mapM (fun i => m !! i) ids) with (Some l); [done |]. symmetry. by apply mapM_Some.
Qed.

Lemma stat_recount_spec h l :
  Forall valid_seg l -> Z.of_nat (length (l ++ h)) < W64 ->
  stat_recount (hist_of h) l = Ok (hist_of (l ++ h)).
Proof.
  revert h. induction l as [| s l IH]; intros h Hv Hlen; [done |]. inversion_clear Hv as [| ? ? Hs Hl].
  cbn [stat_recount]. rewrite (seg_size_u64 s Hs). pose proof (valid_seg_size s Hs).
  destruct (Z.eqb_spec (seg_size s) 0); [lia |].
  rewrite (hist_of_lookup _ _ (hist_idx_lt s Hs)). simpl.
  pose proof (hist_count_le h (hist_idx (seg_size s))). simpl in Hlen. rewrite length_app in Hlen.
  rewrite u64_add_small by (unfold is_u64; lia).
  destruct (Z.eqb_spec (Z.of_nat (hist_count h (hist_idx (seg_size s))) + 1) 0); [lia |]. simpl.
  replace (<[_ := _]> (hist_of h)) with (hist_of (s :: h)) by (rewrite hist_of_cons by done; f_equal; lia).
  rewrite IH by (done || (rewrite length_app; simpl; lia)). f_equal. apply hist_of_Permutation.
  by rewrite Permutation_middle.
Qed.

Lemma stat_verify_spec rt l : rt_repr rt l -> range_tree_stat_verify rt = Ok tt.
Proof.
  intros Hr. unfold range_tree_stat_verify. rewrite (segs_spec rt l Hr), bind_Ok.
  destruct Hr as (ids & m & [[_ _ _ _ Hh _ _] _ _ Hc]). rewrite <- hist_of_nil.
  pose proof (canonical_bounds l Hc) as (_ & Hb & _).
  rewrite stat_recount_spec, app_nil_r.
  - simpl. rewrite Hh. by rewrite bool_decide_true.
  - apply Forall_forall. intros s. by apply canonical_valid.
  - rewrite app_nil_r. unfold W64 in *. lia.
Qed.

Lemma create_spec a : Init a -> runs (range_tree_create oo a) (fun rt => rt_repr rt []).
Proof.
  intros Hi. unfold range_tree_create. eapply runs_bind; [by apply ops_law_create |]. intros a' Ha.
  destruct law_create as (Hwf & He). exists [], ∅. split; [split | constructor | |]; simpl; try done.
Qed.

Lemma destroy_spec rt : rt_repr rt [] -> runs (range_tree_destroy rt) (fun _ => True).
Proof.
  intros (ids & m & [[Hwf He Hm Hi Hh Hs Ho] Hids _ _]). apply Forall2_nil_inv_r in Hids as ->.
  unfold range_tree_destroy. rewrite Hs. simpl. rewrite Ho. eapply runs_bind; [by eapply ops_law_destroy |].
  intros a _. rewrite law_numnodes, He by done. done.
Qed.

Lemma vacate_spec {F} rt l (func : option (F -> Z -> Z -> result F)) (arg : F) :
  rt_repr rt l ->
  exists rt' xs, rt_repr rt' [] /\ Permutation xs l /\
    range_tree_vacate rt func arg =
      (arg ← match func with None => Ok arg | Some f => call_each f arg xs end ; Ok (rt', arg)).
Proof.
  intros (ids & m & [[Hwf He Hm Hi Hh Hs Ho] Hids Hd Hc]). unfold range_tree_vacate.
  pose proof (ops_law_vacate (oo := oo) _ _ _ Hi) as Hv. rewrite Ho. apply runs_Ok in Hv as (a' & -> & Ha).
  destruct (law_destroy (rt_root rt) Hwf) as (t' & js & Ed & Hwf' & He' & HP).
  rewrite bind_Ok, Ed, bind_Ok, Hm. rewrite He in HP. symmetry in HP.
  destruct (holds_Permutation _ _ _ _ HP Hids) as (xs & HPx & Hxs).
  rewrite (mapM_Some_2 _ _ _ Hxs : mapM (fun i => m !! i) js = Some xs). cbn [deref]. rewrite bind_Ok.
  eexists _, xs. split; [| split; [done | reflexivity]].
  exists [], ∅. split; [split | constructor | |]; simpl; try done.
Qed.

Lemma rt_models_equiv rt P Q : P ≡ Q -> rt_models rt P -> rt_models rt Q.
Proof. intros E (l & Hr & Hl). exists l. split; [done | by rewrite Hl]. Qed.

(** ** Clearing *)
Lemma remains_no_overlap s start n :
  overlaps (MkSeg start (start + n)) s ->
  filter (overlaps (MkSeg start (start + n)))
    (remains s (Z.max (rs_start s) start) (Z.min (rs_end s) (start + n))) = [].
Proof.
  intros Ho. unfold overlaps in Ho. simpl in Ho. unfold remains. rewrite filter_app.
  case_tests; rewrite ?filter_nil, ?filter_cons; unfold overlaps; simpl; repeat case_decide; done || lia.
Qed.

Lemma clear_loop_spec zfs_recover fuel rt l start n :
  rt_repr rt l -> valid_range start n ->
  (length (filter (overlaps (MkSeg start (start + n))) l) <= fuel)%nat ->
  runs (range_tree_clear_loop zfs_recover fuel rt start n)
    (fun rt' => rt_models rt' (covered l ∖ offsets start n)).
Proof.
  revert rt l. induction fuel as [| fuel IH]; intros rt l Hr Hv Hf;
    cbn [range_tree_clear_loop]; destruct (find_impl_spec rt l start n Hr Hv) as (o & -> & Ho); simpl;
    (destruct o as [s |]; [| exists l; split; [done | set_solver]]).
  - destruct Ho as (Hs & Ho). apply list_elem_of_split in Hs as (l1 & l2 & ->).
    rewrite filter_app, filter_cons_True, length_app in Hf by done. simpl in Hf. lia.
  - destruct Ho as (Hs & Ho). apply list_elem_of_split in Hs as (l1 & l2 & ->).
    pose proof (remains_no_overlap s start n Ho) as Hrem. pose proof Ho as Ho'. unfold overlaps in Ho'. simpl in Ho'.
    destruct Hv as (H0 & Hn & He). pose proof Hr as (ids & m & [_ _ _ Hc]).
    destruct (canonical_middle _ _ _ Hc) as (Hvs & _ & _). unfold valid_seg in Hvs.
    rewrite (u64_add_small start n) by (unfold is_u64; lia).
    set (a := Z.max (rs_start s) start) in *. set (b := Z.min (rs_end s) (start + n)) in *.
    rewrite u64_sub_small by (unfold is_u64; lia).
    eapply runs_bind; [eapply (remove_lists _ _ _ _ _ l1 s l2 a (b - a)); [done | lia..] |].
    intros rt' Hr'. replace (a + (b - a)) with b in Hr' by lia. eapply runs_impl; [eapply IH; [exact Hr' | done |] |].
    + rewrite !filter_app, Hrem. rewrite filter_app, filter_cons_True, length_app in Hf by done.
      simpl in *. rewrite length_app. lia.
    + intros rt2 (l' & Hr2 & Hl'). exists l'. split; [done |]. rewrite Hl', covered_remains by (done || lia).
      intros x. unfold offsets, seg_set. rewrite !elem_of_difference, !elem_of_PropSet. simpl.
      split; [tauto |]. intros (Hx & Hx'). split_and!; [done | lia | done].
Qed.

Lemma clear_models zfs_recover rt P start n :
  rt_models rt P -> valid_range start n ->
  runs (range_tree_clear zfs_recover rt start n) (fun rt' => rt_models rt' (P ∖ offsets start n)).
Proof.
  intros (l & Hr & Hl) Hv. eapply runs_impl.
  - apply (clear_loop_spec zfs_recover _ rt l start n Hr Hv).
    destruct Hr as (ids & m & [[Hwf He _ _ _ _ _] Hh _ _]). rewrite law_numnodes, He, (holds_length _ _ _ Hh) by done.
    pose proof (length_filter (overlaps (MkSeg start (start + n))) l). lia.
  - intros rt' Hm. eapply rt_models_equiv, Hm. by rewrite Hl.
Qed.

(** ** Moving segments between trees *)
Lemma covered_middle_disjoint lo s hi : canonical (lo ++ s :: hi) -> covered (lo ++ hi) ## seg_set s.
Proof.
  intros (_ & Hlo & Hhi)%canonical_middle x (t & Ht & Hx)%elem_of_covered Hs.
  unfold seg_set in Hs. rewrite elem_of_PropSet in Hs. unfold before_seg in *.
  apply elem_of_app in Ht as [Ht | Ht]; [specialize (Hlo t Ht) | specialize (Hhi t Ht)]; lia.
Qed.

Lemma seg_offsets s : valid_seg s ->
  valid_range (rs_start s) (u64_sub (rs_end s) (rs_start s)) /\
  offsets (rs_start s) (u64_sub (rs_end s) (rs_start s)) = seg_set s.
Proof.
  intros Hv. rewrite seg_size_u64 by done. unfold valid_range, offsets, seg_size, valid_seg in *.
  replace (rs_start s + (rs_end s - rs_start s)) with (rs_end s) by lia. destruct s. split; [lia | done].
Qed.

Lemma add_each zfs_recover rt Q xs l :
  rt_models rt Q -> canonical l -> Permutation xs l -> Q ## covered l ->
  runs (call_each (range_tree_add zfs_recover) rt xs) (fun rt' => rt_models rt' (Q ∪ covered l)).
Proof.
  revert rt Q l. induction xs as [| s xs IH]; intros rt Q l Hr Hc HP Hd; simpl.
  - apply Permutation_nil_l in HP as <-. apply (rt_models_equiv rt Q); [| done]. rewrite covered_nil. set_solver.
  - assert (s ∈ l) as Hs by (rewrite <- HP; set_solver).
    apply list_elem_of_split in Hs as (l1 & l2 & ->). rewrite <- Permutation_middle in HP. apply Permutation_cons_inv in HP.
    pose proof (covered_middle_disjoint _ _ _ Hc) as Hdis.
    assert (covered (l1 ++ s :: l2) ≡ covered (l1 ++ l2) ∪ seg_set s) as E
      by (rewrite !covered_app, covered_cons; set_solver).
    destruct (seg_offsets s) as (Hvr & Eo); [by apply (canonical_middle l1 s l2) |].
    eapply runs_bind; [apply add_models; [done | done | rewrite Eo; set_solver] |].
    intros rt' (Hm & _). rewrite Eo in Hm.
    eapply runs_impl; [eapply (IH rt' _ (l1 ++ l2)); [exact Hm | by apply (canonical_delete l1 [s]) | done |] |].
    + set_solver.
    + intros rt2 Hm2. eapply rt_models_equiv, Hm2. rewrite E. set_solver.
Qed.

(** ** The operations on sets of offsets *)

(** C1: [range_tree_add] on a tree of the offsets [P]: a range disjoint from
    [P] is added and [rt_space] grows by its size; a range already in [P] goes
    to [zfs_panic_recover] and leaves the tree as it was; a range that
    partially overlaps [P] always panics. *)
Theorem range_tree_add_correct zfs_recover rt P start n :
  rt_models rt P -> valid_range start n ->
  (P ## offsets start n ->
    runs (range_tree_add zfs_recover rt start n)
      (fun rt' => rt_models rt' (P ∪ offsets start n) /\ rt_space rt' = rt_space rt + n)) /\
  (offsets start n ⊆ P ->
    range_tree_add zfs_recover rt start n = if zfs_recover then Ok rt else Panic) /\
  (~ P ## offsets start n -> ~ offsets start n ⊆ P ->
    range_tree_add zfs_recover rt start n = Panic).
Proof.
  intros Hm Hv. split; [by apply add_models |]. destruct Hm as (l & Hr & Hl).
  destruct (find_impl_models rt l start n Hr Hv) as (r & Hf & Hres). pose proof Hr as (ids & m & [_ _ _ Hc]).
  destruct Hv as (H0 & Hn & He). unfold range_tree_add. cbv zeta. rewrite u64_add_small by (unfold is_u64; lia).
  destruct (Z.eqb_spec n 0) as [| _]; [lia |]. simpl. rewrite Hf. simpl. destruct r as [i | w].
  - destruct Hres as (s & -> & Hs & Ho). simpl. pose proof (overlap_contains l s start n Hc Hs Hn Ho) as Hiff.
    rewrite <- contained_test in Hiff. setoid_rewrite Hl in Hiff. destruct (_ && _).
    + split; [done |]. intros _ Hno. by destruct Hno; apply Hiff.
    + split; [intros Hsub; by apply Hiff in Hsub | done].
  - rewrite Hl in Hres. split; [intros Hsub; by destruct (offsets_nonempty start n P) |]. tauto.
Qed.

(** C2: [range_tree_remove]: a range within [P] is removed and [rt_space]
    shrinks by its size; a range disjoint from [P] that is not larger than the
    whole tree goes to [zfs_panic_recover] and leaves the tree as it was; any
    other range panics. *)
Theorem range_tree_remove_correct zfs_recover rt P start n :
  rt_models rt P -> valid_range start n ->
  (offsets start n ⊆ P ->
    runs (range_tree_remove zfs_recover rt start n)
      (fun rt' => rt_models rt' (P ∖ offsets start n) /\ rt_space rt' = rt_space rt - n)) /\
  (P ## offsets start n ->
    range_tree_remove zfs_recover rt start n =
      if (n <=? rt_space rt) && zfs_recover then Ok rt else Panic) /\
  (~ P ## offsets start n -> ~ offsets start n ⊆ P ->
    range_tree_remove zfs_recover rt start n = Panic).
Proof.
  intros Hm Hv. split; [by apply remove_models |]. destruct Hm as (l & Hr & Hl).
  destruct (find_impl_models rt l start n Hr Hv) as (r & Hf & Hres). pose proof Hr as (ids & m & [_ _ _ Hc]).
  destruct Hv as (H0 & Hn & He). unfold range_tree_remove. cbv zeta. rewrite u64_add_small by (unfold is_u64; lia).
  destruct (Z.eqb_spec n 0) as [| _]; [lia |]. simpl. destruct (n <=? rt_space rt); [| done]. simpl.
  rewrite Hf. simpl. destruct r as [i | w].
  - destruct Hres as (s & -> & Hs & Ho). simpl. pose proof (overlap_contains l s start n Hc Hs Hn Ho) as Hiff.
    pose proof (overlap_not_disjoint l s start n Hc Hs Hn Ho) as Hnd. setoid_rewrite Hl in Hnd.
    setoid_rewrite Hl in Hiff. split; [done |]. intros _ Hno.
    destruct (Z.leb_spec (rs_start s) start); [| done]. simpl.
    destruct (Z.leb_spec (start + n) (rs_end s)); [| done]. by destruct Hno; apply Hiff.
  - rewrite Hl in Hres. split; [done | tauto].
Qed.

(** [range_tree_contains] decides whether every offset of the range is in
    the tree, whatever segments it is stored in; [range_tree_verify] panics
    exactly on such a range. *)
Theorem range_tree_contains_correct rt P start n :
  rt_models rt P -> valid_range start n ->
  (range_tree_contains rt start n = Ok true <-> offsets start n ⊆ P) /\
  (range_tree_contains rt start n = Ok false <-> ~ offsets start n ⊆ P) /\
  (range_tree_verify rt start n = Ok tt <-> ~ offsets start n ⊆ P).
Proof.
  intros (l & Hr & Hl) Hv. destruct (find_spec rt l start n Hr Hv) as (o & Hf & Ho).
  unfold range_tree_contains, range_tree_verify. rewrite Hf. simpl. setoid_rewrite Hl in Ho.
  destruct o as [s |].
  - assert (offsets start n ⊆ P) by by apply Ho. repeat split; done || tauto.
  - assert (~ offsets start n ⊆ P) by (intros Hsub; by destruct (proj2 Ho Hsub)). repeat split; done || tauto.
Qed.

(** [range_tree_clear] terminates, within one round per segment of the
    tree, and leaves exactly the offsets of [P] outside the range, whether or
    not the range was in the tree. *)
Theorem range_tree_clear_correct zfs_recover rt P start n :
  rt_models rt P -> valid_range start n ->
  runs (range_tree_clear zfs_recover rt start n) (fun rt' => rt_models rt' (P ∖ offsets start n)).
Proof. apply clear_models. Qed.

(** [range_tree_vacate(src, range_tree_add, dst)], the way the metaslab
    moves freed space between trees, empties the source and adds exactly its
    offsets to a destination disjoint from it; without a callback it only
    empties the source. *)
Theorem range_tree_vacate_moves zfs_recover src dst P Q :
  rt_models src P -> rt_models dst Q -> Q ## P ->
  runs (range_tree_vacate src (Some (range_tree_add zfs_recover)) dst)
    (fun '(src', dst') => rt_models src' ∅ /\ rt_space src' = 0 /\ rt_models dst' (Q ∪ P)) /\
  runs (range_tree_vacate src None tt) (fun '(src', _) => rt_models src' ∅).
Proof.
  intros (l & Hr & Hl) Hdst Hd. pose proof Hr as (ids & m & [_ _ _ Hc]). split.
  - destruct (vacate_spec src l (Some (range_tree_add zfs_recover)) dst Hr) as (rt' & xs & Hr' & HP & ->).
    eapply runs_bind; [eapply (add_each _ _ _ _ l); [done | done | done | by rewrite Hl] |].
    intros dst' Hm. split_and!; [by exists [] | by rewrite (rt_repr_space _ _ _ _ Hr') |].
    eapply rt_models_equiv, Hm. by rewrite Hl.
  - destruct (vacate_spec src l None tt Hr) as (rt' & xs & Hr' & HP & ->). by exists [].
Qed.


(** The self-check [range_tree_stat_verify] never fails on a tree built by
    the operations, and [rt_space] is the number of offsets in it. *)
Theorem range_tree_stat_verify_passes rt P (X : gset Z) :
  rt_models rt P -> (forall x, x ∈ X <-> x ∈ P) ->
  range_tree_stat_verify rt = Ok tt /\ rt_space rt = Z.of_nat (size X).
Proof.
  intros (l & Hr & Hl) HX. split; [by eapply stat_verify_spec |].
  rewrite (rt_repr_space _ _ _ _ Hr). destruct Hr as (ids & m & [_ _ _ Hc]).
  apply seg_total_card; [done |]. intros x. by rewrite HX, Hl.
Qed.

(** ** Sequences of operations *)
Inductive rt_cmd : Type :=
| CmdAdd (start n : Z)
| CmdRemove (start n : Z)
| CmdClear (start n : Z)
| CmdVacate.

Definition exec_cmd zfs_recover rt (c : rt_cmd) : result (range_tree T S) :=
  match c with
  | CmdAdd start n => range_tree_add zfs_recover rt start n
  | CmdRemove start n => range_tree_remove zfs_recover rt start n
  | CmdClear start n => range_tree_clear zfs_recover rt start n
  | CmdVacate => '(rt', _) ← range_tree_vacate rt None tt ; Ok rt'
  end.

Definition exec_cmds zfs_recover rt (cs : list rt_cmd) : result (range_tree T S) :=
  foldl (fun r c => rt ← r ; exec_cmd zfs_recover rt c) (Ok rt) cs.

Definition cmd_effect P (c : rt_cmd) : propset Z :=
  match c with
  | CmdAdd start n => P ∪ offsets start n
  | CmdRemove start n | CmdClear start n => P ∖ offsets start n
  | CmdVacate => ∅
  end.

Definition cmd_legal P (c : rt_cmd) : Prop :=
  match c with
  | CmdAdd start n => valid_range start n /\ P ## offsets start n
  | CmdRemove start n => valid_range start n /\ offsets start n ⊆ P
  | CmdClear start n => valid_range start n
  | CmdVacate => True
  end.

Fixpoint cmds_legal P (cs : list rt_cmd) : Prop :=
  match cs with
  | [] => True
  | c :: cs' => cmd_legal P c /\ cmds_legal (cmd_effect P c) cs'
  end.

Lemma exec_cmd_models zfs_recover rt P c :
  rt_models rt P -> cmd_legal P c -> runs (exec_cmd zfs_recover rt c) (fun rt' => rt_models rt' (cmd_effect P c)).
Proof.
  intros Hm Hc. destruct c; simpl in *.
  - destruct Hc. eapply runs_impl; [by apply add_models | by intros rt' (H' & _)].
  - destruct Hc. eapply runs_impl; [by apply remove_models | by intros rt' (H' & _)].
  - by apply clear_models.
  - destruct Hm as (l & Hr & Hl). destruct (vacate_spec rt l None tt Hr) as (rt' & xs & Hr' & HP & ->). by exists [].
Qed.

Lemma exec_cmds_cons zfs_recover rt c cs :
  exec_cmds zfs_recover rt (c :: cs) = (rt' ← exec_cmd zfs_recover rt c ; exec_cmds zfs_recover rt' cs).
Proof.
  unfold exec_cmds. simpl. destruct (exec_cmd zfs_recover rt c) as [rt' |]; [done |]. simpl.
  induction cs as [| c' cs IH]; [done | exact IH].
Qed.

Lemma exec_cmds_models zfs_recover rt P cs :
  rt_models rt P -> cmds_legal P cs ->
  runs (exec_cmds zfs_recover rt cs) (fun rt' => rt_models rt' (foldl cmd_effect P cs)).
Proof.
  revert rt P. induction cs as [| c cs IH]; intros rt P Hm Hlegal; [done |].
  destruct Hlegal as (Hc & Hcs). rewrite exec_cmds_cons.
  eapply runs_bind; [by apply exec_cmd_models |]. intros rt' Hm'. by apply IH.
Qed.

(** A range tree, from its creation through any sequence of additions of
    absent ranges, removals of present ranges, clears and vacates, never
    panics, and ends with the set of offsets the sequence describes; the
    callbacks are always in step, so that it can be vacated and destroyed. *)
Theorem range_tree_session zfs_recover (arg : S) (cs : list rt_cmd) :
  Init arg -> cmds_legal ∅ cs ->
  runs (rt ← range_tree_create oo arg ; exec_cmds zfs_recover rt cs)
    (fun rt => rt_models rt (foldl cmd_effect ∅ cs) /\
       runs ('(rt', _) ← range_tree_vacate rt None tt ; range_tree_destroy rt') (fun _ => True)).
Proof.
  intros Hi Hlegal. eapply (runs_impl _ (fun rt => rt_models rt (foldl cmd_effect ∅ cs))); [| intros rt (l & Hr & Hl); split].
  - eapply runs_bind; [by apply create_spec |]. intros rt Hr.
    apply exec_cmds_models; [by exists [] | done].
  - by exists l.
  - destruct (vacate_spec rt l None tt Hr) as (rt' & xs & Hr' & HP & ->). by apply destroy_spec.
Qed.
End theorems.

(** ** Instances: a tree without callbacks that holds two segments *)
Ltac offs :=
  unfold valid_range, offsets, seg_set, W64; cbn [rs_start rs_end];
  first [ lia | intros x; intros; rewrite ?elem_of_difference, ?elem_of_union, ?elem_of_PropSet, ?elem_of_empty in *;
                simpl in *; try done; lia ].

Definition demo_empty : range_tree (avl_tree addr) unit :=
  MkRT avl_create ∅ 0 (replicate RANGE_TREE_HISTOGRAM_SIZE 0) None tt.

Definition demo_cmds : list rt_cmd := [CmdAdd 0 10; CmdAdd 20 10; CmdRemove 25 5].

Definition demo_rt : range_tree (avl_tree addr) unit :=
  match exec_cmds false demo_empty demo_cmds with Ok rt => rt | Panic => demo_empty end.

Definition demo_set : propset Z := foldl cmd_effect ∅ demo_cmds.

Abbreviation demo_inv := ((fun _ _ _ => True) : seg_store -> gset addr -> unit -> Prop) (only parsing).

Lemma demo_legal : cmds_legal ∅ demo_cmds.
Proof. cbn [cmds_legal demo_cmds cmd_legal cmd_effect]. split_and!; try exact I; offs. Qed.

Lemma demo_empty_models : rt_models None demo_inv demo_empty ∅.
Proof.
  destruct (proj1 (runs_Ok _ _) (create_spec (T := avl_tree addr) None (fun _ => True) demo_inv tt I))
    as (rt & [= <-] & Hr). by exists [].
Qed.

Lemma demo_models : rt_models None demo_inv demo_rt demo_set.
Proof.
  pose proof (exec_cmds_models None (fun _ => True) demo_inv false _ _ _ demo_empty_models demo_legal) as H.
  apply runs_Ok in H as (rt & E & H). unfold demo_rt. by rewrite E.
Qed.

Lemma demo_segs : range_tree_segs demo_rt = Ok [MkSeg 0 10; MkSeg 20 25].
Proof. vm_compute. reflexivity. Qed.

Lemma range_tree_add_correct_witness :
  runs (range_tree_add false demo_rt 10 5)
    (fun rt' => rt_models None demo_inv rt' (demo_set ∪ offsets 10 5) /\ rt_space rt' = rt_space demo_rt + 5).
Proof.
  apply (range_tree_add_correct None (fun _ => True) demo_inv); [exact demo_models | offs |].
  unfold demo_set; cbn [foldl demo_cmds cmd_effect]. offs.
Defined.

Lemma range_tree_remove_correct_witness :
  runs (range_tree_remove false demo_rt 3 4)
    (fun rt' => rt_models None demo_inv rt' (demo_set ∖ offsets 3 4) /\ rt_space rt' = rt_space demo_rt - 4).
Proof.
  apply (range_tree_remove_correct None (fun _ => True) demo_inv); [exact demo_models | offs |].
  unfold demo_set; cbn [foldl demo_cmds cmd_effect]. offs.
Defined.

Lemma range_tree_contains_correct_witness : range_tree_contains demo_rt 20 5 = Ok true.
Proof.
  apply (range_tree_contains_correct None (fun _ => True) demo_inv demo_rt demo_set); [exact demo_models | offs |].
  unfold demo_set; cbn [foldl demo_cmds cmd_effect]. offs.
Defined.

Lemma range_tree_clear_correct_witness :
  runs (range_tree_clear false demo_rt 5 18) (fun rt' => rt_models None demo_inv rt' (demo_set ∖ offsets 5 18)).
Proof. apply (range_tree_clear_correct None (fun _ => True) demo_inv); [exact demo_models | offs]. Defined.

Lemma range_tree_vacate_moves_witness :
  runs (range_tree_vacate demo_rt None tt) (fun '(src', _) => rt_models None demo_inv src' ∅).
Proof.
  apply (range_tree_vacate_moves None (fun _ => True) demo_inv false demo_rt demo_empty demo_set ∅);
    [exact demo_models | | intros x Hx; by apply elem_of_empty in Hx].
  exact demo_empty_models.
Defined.


Lemma range_tree_stat_verify_passes_witness :
  range_tree_stat_verify demo_empty = Ok tt /\ rt_space demo_empty = Z.of_nat (size (∅ : gset Z)).
Proof.
  apply (range_tree_stat_verify_passes None demo_inv demo_empty ∅ ∅ demo_empty_models).
  intros x. by rewrite !elem_of_empty.
Defined.

Lemma range_tree_session_witness :
  runs (rt ← range_tree_create (T := avl_tree addr) None tt ; exec_cmds false rt demo_cmds)
    (fun rt => rt_models None demo_inv rt (foldl cmd_effect ∅ demo_cmds) /\
       runs ('(rt', _) ← range_tree_vacate rt None tt ; range_tree_destroy rt') (fun _ => True)).
Proof. apply (range_tree_session None (fun _ => True) demo_inv false tt demo_cmds I demo_legal). Defined.
