(* ===== verification/SpaceMap.v ===== *)
(** * Space maps (zfs/module/zfs/space_map.c, zfs/include/sys/space_map.h)

    The on-disk log of allocations and frees of a metaslab: the encoding of
    its entries, replaying it into a range tree ([space_map_load]) and
    appending a range tree to it ([space_map_write]). The object the log is
    kept in belongs to the DMU and is reached through the interface [Dmu]. *)
From S2P Require Import Prelude Avl OrdTree RangeTree.
Local Open Scope Z_scope.

(** ** Entries *)
Definition SM_RUN_DECODE (x : Z) : Z := u64_add (BF64_DECODE x 0 15) 1.
Definition SM_RUN_ENCODE (x : Z) : Z := BF64_ENCODE (u64_sub x 1) 0 15.
Definition SM_TYPE_DECODE (x : Z) : Z := BF64_DECODE x 15 1.
Definition SM_TYPE_ENCODE (x : Z) : Z := BF64_ENCODE x 15 1.
Definition SM_OFFSET_DECODE (x : Z) : Z := BF64_DECODE x 16 47.
Definition SM_OFFSET_ENCODE (x : Z) : Z := BF64_ENCODE x 16 47.
Definition SM_DEBUG_DECODE (x : Z) : Z := BF64_DECODE x 63 1.
Definition SM_DEBUG_ENCODE (x : Z) : Z := BF64_ENCODE x 63 1.
Definition SM_DEBUG_ACTION_DECODE (x : Z) : Z := BF64_DECODE x 60 3.
Definition SM_DEBUG_ACTION_ENCODE (x : Z) : Z := BF64_ENCODE x 60 3.
Definition SM_DEBUG_SYNCPASS_DECODE (x : Z) : Z := BF64_DECODE x 50 10.
Definition SM_DEBUG_SYNCPASS_ENCODE (x : Z) : Z := BF64_ENCODE x 50 10.
Definition SM_DEBUG_TXG_DECODE (x : Z) : Z := BF64_DECODE x 0 50.
Definition SM_DEBUG_TXG_ENCODE (x : Z) : Z := BF64_ENCODE x 0 50.
Definition SM_RUN_MAX : Z := SM_RUN_DECODE (W64 - 1).

Inductive maptype : Type := SM_ALLOC | SM_FREE.
Definition maptype_code (m : maptype) : Z := match m with SM_ALLOC => 0 | SM_FREE => 1 end.

Definition sm_entry (start run_len : Z) (m : maptype) : Z :=
  Z.lor (Z.lor (SM_OFFSET_ENCODE start) (SM_TYPE_ENCODE (maptype_code m))) (SM_RUN_ENCODE run_len).

Definition sm_debug_entry (m : maptype) (syncpass txg : Z) : Z :=
  Z.lor (Z.lor (Z.lor (SM_DEBUG_ENCODE 1) (SM_DEBUG_ACTION_ENCODE (maptype_code m)))
    (SM_DEBUG_SYNCPASS_ENCODE syncpass)) (SM_DEBUG_TXG_ENCODE txg).

(** ** The object in the DMU

    Sizes and offsets are in bytes; the buffers are arrays of [uint64_t]. *)
Class Dmu (D : Type) := {
  (** an error, or 0 and the words read *)
  dmu_read : D -> Z -> Z -> Z -> Z * list Z;
  dmu_write : D -> Z -> Z -> Z -> list Z -> result D }.

Record space_map_phys : Type := MkPhys {
  smp_object : Z;
  smp_objsize : Z;
  smp_alloc : Z;
  smp_histogram : list Z }.

Record space_map : Type := MkSm {
  sm_start : Z;
  sm_size : Z;
  sm_shift : Z;
  sm_length : Z;
  sm_alloc : Z;
  sm_object : Z;
  sm_blksz : Z;
  sm_db_size : Z;   (** sm_dbuf->db_size *)
  sm_phys : space_map_phys }.

Definition SPACE_MAP_HISTOGRAM_SIZE : nat := 32.
Definition SPACE_MAP_SIZE_V0 : Z := 3 * 8.
Definition sizeof_space_map_phys : Z := (3 + 5 + 32) * 8.
Definition SPA_MINBLOCKSIZE : Z := 512.

Definition set_phys (sm : space_map) (p : space_map_phys) : space_map :=
  MkSm (sm_start sm) (sm_size sm) (sm_shift sm) (sm_length sm) (sm_alloc sm) (sm_object sm)
    (sm_blksz sm) (sm_db_size sm) p.
Definition set_objsize (p : space_map_phys) (n : Z) : space_map_phys :=
  MkPhys (smp_object p) n (smp_alloc p) (smp_histogram p).
Definition set_alloc (p : space_map_phys) (n : Z) : space_map_phys :=
  MkPhys (smp_object p) (smp_objsize p) n (smp_histogram p).
Definition set_smp_histogram (p : space_map_phys) (h : list Z) : space_map_phys :=
  MkPhys (smp_object p) (smp_objsize p) (smp_alloc p) h.
Definition set_object (p : space_map_phys) (o : Z) : space_map_phys :=
  MkPhys o (smp_objsize p) (smp_alloc p) (smp_histogram p).

(** A null [space_map_t *] is [None]. *)
Definition space_map_object (sm : option space_map) : Z := match sm with Some s => sm_object s | None => 0 end.
Definition space_map_allocated (sm : option space_map) : Z := match sm with Some s => sm_alloc s | None => 0 end.
Definition space_map_length (sm : option space_map) : Z := match sm with Some s => sm_length s | None => 0 end.

(** A value of type [int64_t]. *)
Definition s64 (z : Z) : Z := let u := u64 z in if u <? 2 ^ 63 then u else u - W64.

Definition space_map_alloc_delta (sm : option space_map) : Z :=
  match sm with
  | None => 0
  | Some s => s64 (u64_sub (smp_alloc (sm_phys s)) (space_map_allocated sm))
  end.

Definition space_map_update (sm : option space_map) : option space_map :=
  match sm with
  | None => None
  | Some s =>
      Some (MkSm (sm_start s) (sm_size s) (sm_shift s) (smp_objsize (sm_phys s)) (smp_alloc (sm_phys s))
              (sm_object s) (sm_blksz s) (sm_db_size s) (sm_phys s))
  end.

Definition space_map_histogram_clear (sm : space_map) : space_map :=
  if negb (sm_db_size sm =? sizeof_space_map_phys) then sm
  else set_phys sm (set_smp_histogram (sm_phys sm) (replicate SPACE_MAP_HISTOGRAM_SIZE 0)).

Section ops.
Context {T S D : Type} `{!AvlOps addr T} `{!Dmu D}.
Variable zfs_recover : bool.
Implicit Types (sm : space_map) (rt : range_tree T S) (d : D).

Definition space_map_histogram_verify sm rt : bool :=
  forallb (fun n => n =? 0) (take (Z.to_nat (sm_shift sm)) (rt_histogram rt)).

(** The loop of [space_map_histogram_add] over the buckets [i] of the range
    tree whose counts are [hist], with the index [idx] of the space map. *)
Fixpoint histogram_add_loop (shift : Z) (hist : list Z) (i idx : Z) (smp : list Z) : result (list Z) :=
  match hist with
  | [] => Ok smp
  | n :: hist' =>
      VERIFY (idx + shift <=? i) ;;
      b ← deref (smp !! Z.to_nat idx) ;
      let smp' := <[Z.to_nat idx := u64_add b (u64_shl n (i - idx - shift))]> smp in
      if idx <? Z.of_nat SPACE_MAP_HISTOGRAM_SIZE - 1 then
        VERIFY (idx + shift =? i) ;;
        VERIFY (idx + 1 <? Z.of_nat SPACE_MAP_HISTOGRAM_SIZE) ;;
        histogram_add_loop shift hist' (i + 1) (idx + 1) smp'
      else histogram_add_loop shift hist' (i + 1) idx smp'
  end.

Definition space_map_histogram_add sm rt : result space_map :=
  VERIFY (negb (space_map_object (Some sm) =? 0)) ;;
  if negb (sm_db_size sm =? sizeof_space_map_phys) then Ok sm
  else
    VERIFY (space_map_histogram_verify sm rt) ;;
    h ← histogram_add_loop (sm_shift sm) (drop (Z.to_nat (sm_shift sm)) (rt_histogram rt))
          (sm_shift sm) 0 (smp_histogram (sm_phys sm)) ;
    Ok (set_phys sm (set_smp_histogram (sm_phys sm) h)).

Definition space_map_entries sm rt : result Z :=
  l ← range_tree_segs rt ;
  Ok (foldl (fun entries rs =>
        let size := Z.shiftr (u64_sub (rs_end rs) (rs_start rs)) (sm_shift sm) in
        u64_add entries (howmany size SM_RUN_MAX)) 1 l).

(** ** Loading *)

(** One entry of the log. *)
Definition load_entry sm (mt : maptype) rt (e : Z) : result (range_tree T S) :=
  if negb (SM_DEBUG_DECODE e =? 0) then Ok rt
  else
    let offset := u64_add (u64_shl (SM_OFFSET_DECODE e) (sm_shift sm)) (sm_start sm) in
    let size := u64_shl (SM_RUN_DECODE e) (sm_shift sm) in
    VERIFY (P2PHASE offset (u64_shl 1 (sm_shift sm)) =? 0) ;;
    VERIFY (P2PHASE size (u64_shl 1 (sm_shift sm)) =? 0) ;;
    VERIFY (sm_start sm <=? offset) ;;
    VERIFY (u64_add offset size <=? u64_add (sm_start sm) (sm_size sm)) ;;
    if SM_TYPE_DECODE e =? maptype_code mt then
      VERIFY (u64_add (rt_space rt) size <=? sm_size sm) ;;
      range_tree_add zfs_recover rt offset size
    else range_tree_remove zfs_recover rt offset size.

Fixpoint load_entries sm (mt : maptype) rt (es : list Z) : result (range_tree T S) :=
  match es with
  | [] => Ok rt
  | e :: es' => rt' ← load_entry sm mt rt e ; load_entries sm mt rt' es'
  end.

(** The loop over the blocks of the log from [offset], at most [fuel] blocks;
    the error that ends it, or 0. *)
Fixpoint load_blocks (fuel : nat) sm d (mt : maptype) rt (end_ bufsize offset : Z)
    : result (Z * range_tree T S) :=
  if offset <? end_ then
    match fuel with
    | O => Panic
    | Datatypes.S n =>
        let size := Z.min (u64_sub end_ offset) bufsize in
        VERIFY (P2PHASE size 8 =? 0) ;;
        VERIFY (negb (size =? 0)) ;;
        VERIFY (negb (sm_blksz sm =? 0)) ;;
        let '(error, words) := dmu_read d (space_map_object (Some sm)) offset size in
        if negb (error =? 0) then Ok (error, rt)
        else
          rt' ← load_entries sm mt rt (take (Z.to_nat (size / 8)) words) ;
          load_blocks n sm d mt rt' end_ bufsize (u64_add offset bufsize)
    end
  else Ok (0, rt).

(** One round per block of the log. *)
Definition load_fuel (end_ bufsize : Z) : nat := Z.to_nat (end_ / bufsize + 1).

Definition space_map_load sm d rt (mt : maptype) : result (Z * range_tree T S) :=
  let end_ := space_map_length (Some sm) in
  let alloc := space_map_allocated (Some sm) in
  VERIFY (rt_space rt =? 0) ;;
  rt ← match mt with
       | SM_FREE => range_tree_add zfs_recover rt (sm_start sm) (sm_size sm)
       | SM_ALLOC => Ok rt
       end ;
  let space := match mt with SM_FREE => u64_sub (sm_size sm) alloc | SM_ALLOC => alloc end in
  let bufsize := Z.max (sm_blksz sm) SPA_MINBLOCKSIZE in
  '(error, rt) ← load_blocks (load_fuel end_ bufsize) sm d mt rt end_ bufsize 0 ;
  if error =? 0 then
    VERIFY (rt_space rt =? space) ;; Ok (0, rt)
  else
    '(rt, _) ← range_tree_vacate rt None tt ; Ok (error, rt).

(** ** Writing *)

(** The state of [space_map_write]: the object store, [smp_objsize], the
    entries in the buffer and the number of entries so far. *)
Record wstate : Type := MkW { w_dmu : D; w_objsize : Z; w_buf : list Z; w_actual : Z }.

(** [dmu_write] of [size] bytes of the buffer at the end of the object. *)
Definition write_flush sm (w : wstate) (size : Z) : result wstate :=
  d ← dmu_write (w_dmu w) (space_map_object (Some sm)) (w_objsize w) size (w_buf w) ;
  Ok (MkW d (u64_add (w_objsize w) size) [] (w_actual w)).

(** Storing past the end of the buffer is an error. *)
Definition write_push sm (w : wstate) (e : Z) : result wstate :=
  VERIFY (Z.of_nat (length (w_buf w)) <? sm_blksz sm / 8) ;;
  Ok (MkW (w_dmu w) (w_objsize w) (w_buf w ++ [e]) (w_actual w)).

(** [while (size != 0)], at most [fuel] runs. *)
Fixpoint write_runs (fuel : nat) sm (mt : maptype) (w : wstate) (start size : Z) : result wstate :=
  if size =? 0 then Ok w
  else
    match fuel with
    | O => Panic
    | Datatypes.S n =>
        let run_len := Z.min size SM_RUN_MAX in
        w ← (if Z.of_nat (length (w_buf w)) =? sm_blksz sm / 8 then write_flush sm w (sm_blksz sm) else Ok w) ;
        w ← write_push sm w (sm_entry start run_len mt) ;
        write_runs n sm mt (MkW (w_dmu w) (w_objsize w) (w_buf w) (u64_add (w_actual w) 1))
          (u64_add start run_len) (u64_sub size run_len)
    end.

Definition write_fuel (size : Z) : nat := Z.to_nat (howmany size SM_RUN_MAX).

(** The loop over the segments, with the running [total]. *)
Fixpoint write_segs sm (mt : maptype) (w : wstate) (total : Z) (l : list range_seg) : result (wstate * Z) :=
  match l with
  | [] => Ok (w, total)
  | rs :: l' =>
      let size := Z.shiftr (u64_sub (rs_end rs) (rs_start rs)) (sm_shift sm) in
      let start := Z.shiftr (u64_sub (rs_start rs) (sm_start sm)) (sm_shift sm) in
      w ← write_runs (write_fuel size) sm mt w start size ;
      write_segs sm mt w (u64_add total (u64_shl size (sm_shift sm))) l'
  end.

(** [syncpass] and [txg] are those of the pool and of the transaction. *)
Definition space_map_write sm d rt (mt : maptype) (syncpass txg : Z) : result (space_map * D) :=
  VERIFY (negb (space_map_object (Some sm) =? 0)) ;;
  let sm := set_phys sm (set_object (sm_phys sm) (sm_object sm)) in
  if rt_space rt =? 0 then
    VERIFY (sm_object sm =? smp_object (sm_phys sm)) ;; Ok (sm, d)
  else
    let phys := sm_phys sm in
    let phys := match mt with
                | SM_ALLOC => set_alloc phys (u64_add (smp_alloc phys) (rt_space rt))
                | SM_FREE => set_alloc phys (u64_sub (smp_alloc phys) (rt_space rt))
                end in
    expected_entries ← space_map_entries sm rt ;
    w ← write_push sm (MkW d (smp_objsize phys) [] 1) (sm_debug_entry mt syncpass txg) ;
    l ← range_tree_segs rt ;
    '(w, total) ← write_segs sm mt w 0 l ;
    w ← (match w_buf w with
         | [] => Ok w
         | buf => write_flush sm w (u64 (Z.of_nat (length buf) * 8))
         end) ;
    VERIFY (expected_entries =? w_actual w) ;;
    VERIFY (rt_space rt =? total) ;;
    Ok (set_phys sm (set_objsize phys (w_objsize w)), w_dmu w).
End ops.

#[global] Arguments load_entry : simpl never.
#[global] Arguments sm_entry : simpl never.
#[global] Arguments sm_debug_entry : simpl never.
#[global] Arguments SM_RUN_MAX : simpl never.
