(* ===== verification/SpaceMapSpec.v ===== *)
(** * Space maps are logs of sets

    The log of a space map denotes a set of allocated offsets ([log_replay]);
    loading computes it and writing extends it. *)
From S2P Require Import Prelude Avl AvlSpec OrdTree RangeTree Segments RangeTreeSpec RangeTreeThms SpaceMap.
From stdpp Require Import propset.
Local Open Scope Z_scope.

(** ** Entries *)
Lemma SM_RUN_MAX_eq : SM_RUN_MAX = 2 ^ 15.
Proof. reflexivity. Qed.

Lemma sm_entry_fields start run mt :
  0 <= start < 2 ^ 47 -> 1 <= run <= SM_RUN_MAX ->
  sm_entry start run mt = start * 2 ^ 16 + (maptype_code mt * 2 ^ 15 + (run - 1)).
Proof.
  rewrite SM_RUN_MAX_eq. intros Hs Hr. assert (0 <= maptype_code mt < 2) by (destruct mt; simpl; lia).
  unfold sm_entry, SM_OFFSET_ENCODE, SM_TYPE_ENCODE, SM_RUN_ENCODE.
  rewrite u64_sub_small by (unfold is_u64, W64; lia).
  rewrite !BF64_ENCODE_spec by lia. rewrite !Z.mod_small by lia.
  change (2 ^ 0) with 1. rewrite Z.mul_1_r, <- Z.lor_assoc.
  rewrite (lor_fields _ (run - 1)) by lia. by rewrite lor_fields by lia.
Qed.

Lemma sm_entry_decode start run mt :
  0 <= start < 2 ^ 47 -> 1 <= run <= SM_RUN_MAX ->
  let e := sm_entry start run mt in
  is_u64 e /\ SM_DEBUG_DECODE e = 0 /\ SM_OFFSET_DECODE e = start /\ SM_TYPE_DECODE e = maptype_code mt /\
  SM_RUN_DECODE e = run.
Proof.
  intros Hs Hr e. unfold e. rewrite sm_entry_fields by done. rewrite SM_RUN_MAX_eq in Hr. clear e.
  assert (0 <= maptype_code mt < 2) by (destruct mt; simpl; lia). generalize dependent (maptype_code mt). intros c Hc.
  unfold SM_DEBUG_DECODE, SM_OFFSET_DECODE, SM_TYPE_DECODE, SM_RUN_DECODE.
  rewrite !BF64_DECODE_spec by lia. unfold is_u64, W64. rewrite u64_add_small by (unfold is_u64, W64; Z.to_euclidean_division_equations; lia).
  split_and!; Z.to_euclidean_division_equations; lia.
Qed.

Lemma sm_debug_entry_fields mt syncpass txg :
  0 <= syncpass < 2 ^ 10 -> 0 <= txg ->
  sm_debug_entry mt syncpass txg =
    2 ^ 63 + (maptype_code mt * 2 ^ 60 + (syncpass * 2 ^ 50 + txg mod 2 ^ 50)).
Proof.
  intros Hs Ht. assert (0 <= maptype_code mt < 2) by (destruct mt; simpl; lia).
  unfold sm_debug_entry, SM_DEBUG_ENCODE, SM_DEBUG_ACTION_ENCODE, SM_DEBUG_SYNCPASS_ENCODE, SM_DEBUG_TXG_ENCODE.
  rewrite !BF64_ENCODE_spec by lia. rewrite (Z.mod_small (maptype_code mt)), (Z.mod_small syncpass) by lia.
  change (1 mod 2 ^ 1) with 1.
  pose proof (Z.mod_pos_bound txg (2 ^ 50) ltac:(lia)).
  change (2 ^ 0) with 1. rewrite Z.mul_1_r, <- !Z.lor_assoc.
  rewrite (lor_fields syncpass) by lia. rewrite (lor_fields (maptype_code mt)) by lia. rewrite lor_fields by lia. lia.
Qed.

Lemma sm_debug_entry_decode mt syncpass txg :
  0 <= syncpass < 2 ^ 10 -> 0 <= txg ->
  let e := sm_debug_entry mt syncpass txg in
  is_u64 e /\ SM_DEBUG_DECODE e = 1 /\ SM_DEBUG_ACTION_DECODE e = maptype_code mt /\
  SM_DEBUG_SYNCPASS_DECODE e = syncpass /\ SM_DEBUG_TXG_DECODE e = txg mod 2 ^ 50.
Proof.
  intros Hs Ht e. unfold e. rewrite sm_debug_entry_fields by done. clear e.
  assert (0 <= maptype_code mt < 2) by (destruct mt; simpl; lia). generalize dependent (maptype_code mt). intros c Hc.
  pose proof (Z.mod_pos_bound txg (2 ^ 50) ltac:(lia)) as Hm. generalize dependent (txg mod 2 ^ 50). intros t Hm.
  unfold SM_DEBUG_DECODE, SM_DEBUG_ACTION_DECODE, SM_DEBUG_SYNCPASS_DECODE, SM_DEBUG_TXG_DECODE.
  rewrite !BF64_DECODE_spec by lia. unfold is_u64, W64. split_and!; Z.to_euclidean_division_equations; lia.
Qed.

Lemma P2PHASE_words x : P2PHASE (8 * x) 8 = 0.
Proof.
  rewrite (P2PHASE_mod _ 3 ltac:(lia) : P2PHASE (8 * x) 8 = _). change (2 ^ 3) with 8.
  rewrite Z.mul_comm. by apply Z.mod_mul.
Qed.

Lemma words_div x : 8 * x / 8 = x.
Proof. rewrite Z.mul_comm. by apply Z.div_mul. Qed.

(** ** The object

    What the space map relies on: the words appended to an object are the
    words read back, whenever the read does not fail. *)
Class DmuLaws (D : Type) `{Dmu D} := {
  dmu_holds : D -> Z -> list Z -> Prop;
  law_dmu_read d o pre mid post error data :
    dmu_holds d o (pre ++ mid ++ post) ->
    dmu_read d o (8 * Z.of_nat (length pre)) (8 * Z.of_nat (length mid)) = (error, data) ->
    error = 0 -> data = mid;
  law_dmu_write d o ws buf :
    dmu_holds d o ws ->
    runs (dmu_write d o (8 * Z.of_nat (length ws)) (8 * Z.of_nat (length buf)) buf)
      (fun d' => dmu_holds d' o (ws ++ buf)) }.

(** ** Logs *)
Definition unit_size (sm : space_map) : Z := 2 ^ sm_shift sm.

Record sm_wf (sm : space_map) : Prop := {
  smw_start : 0 <= sm_start sm;
  smw_size : 0 < sm_size sm;
  smw_end : sm_start sm + sm_size sm < W64;
  smw_shift : 0 <= sm_shift sm < 64;
  smw_aligned_start : (unit_size sm | sm_start sm);
  smw_aligned_size : (unit_size sm | sm_size sm);
  smw_units : sm_size sm <= 2 ^ 47 * unit_size sm;
  smw_object : sm_object sm <> 0;
  smw_blksz : 8 <= sm_blksz sm < 2 ^ 32;
  smw_blksz_words : (8 | sm_blksz sm) }.

(** The region the map covers. *)
Definition whole (sm : space_map) : propset Z := offsets (sm_start sm) (sm_size sm).

Definition entry_start (sm : space_map) (e : Z) : Z := SM_OFFSET_DECODE e * unit_size sm + sm_start sm.
Definition entry_size (sm : space_map) (e : Z) : Z := SM_RUN_DECODE e * unit_size sm.
Definition entry_offsets (sm : space_map) (e : Z) : propset Z := offsets (entry_start sm e) (entry_size sm e).

(** An entry that lies in the region. *)
Definition entry_in (sm : space_map) (e : Z) : Prop :=
  SM_DEBUG_DECODE e = 0 /\ 0 <= SM_OFFSET_DECODE e /\ 1 <= SM_RUN_DECODE e /\
  entry_start sm e + entry_size sm e <= sm_start sm + sm_size sm.

(** [log_replay sm es A n]: the log [es] allocates only free offsets and
    frees only allocated ones, and leaves the set [A], of size [n],
    allocated. *)
Inductive log_replay (sm : space_map) : list Z -> propset Z -> Z -> Prop :=
| lr_nil : log_replay sm [] ∅ 0
| lr_debug es e A n :
    log_replay sm es A n -> SM_DEBUG_DECODE e <> 0 -> log_replay sm (es ++ [e]) A n
| lr_alloc es e A n :
    log_replay sm es A n -> entry_in sm e -> SM_TYPE_DECODE e = maptype_code SM_ALLOC ->
    A ## entry_offsets sm e ->
    log_replay sm (es ++ [e]) (A ∪ entry_offsets sm e) (n + entry_size sm e)
| lr_free es e A n :
    log_replay sm es A n -> entry_in sm e -> SM_TYPE_DECODE e = maptype_code SM_FREE ->
    entry_offsets sm e ⊆ A ->
    log_replay sm (es ++ [e]) (A ∖ entry_offsets sm e) (n - entry_size sm e)
| lr_equiv es A A' n : log_replay sm es A n -> A ≡ A' -> log_replay sm es A' n.

Lemma unit_pos sm : 0 <= sm_shift sm -> 0 < unit_size sm.
Proof. intros. unfold unit_size. lia. Qed.

Lemma entry_valid sm e : sm_wf sm -> entry_in sm e ->
  valid_range (entry_start sm e) (entry_size sm e) /\ sm_start sm <= entry_start sm e /\
  entry_size sm e <= sm_size sm.
Proof.
  intros [] (_ & Ho & Hr & He). pose proof (unit_pos sm ltac:(lia)) as Hu.
  unfold valid_range, entry_start, entry_size in *. nia.
Qed.

Lemma log_replay_prefix sm es1 es2 A n :
  log_replay sm (es1 ++ es2) A n -> exists A1 n1, log_replay sm es1 A1 n1.
Proof.
  remember (es1 ++ es2) as es eqn:E. intros H. revert es1 es2 E.
  assert (Hsnoc : forall es e A n, log_replay sm (es ++ [e]) A n ->
    (forall es1 es2, es = es1 ++ es2 -> exists A1 n1, log_replay sm es1 A1 n1) ->
    forall es1 es2, es ++ [e] = es1 ++ es2 -> exists A1 n1, log_replay sm es1 A1 n1).
  { intros es' e A' n' Hr IH es1 es2 E. destruct es2 as [| x es2 _] using rev_ind.
    - rewrite app_nil_r in E. subst es1. eauto.
    - rewrite app_assoc in E. apply app_inj_tail in E as (E & _). eauto. }
  induction H as [| es e A n H IH Hd | es e A n H IH Hin Ht Hdis | es e A n H IH Hin Ht Hsub | es A A' n H IH Heq].
  - intros es1 es2 E. symmetry in E. apply app_eq_nil in E as (-> & ->). exists ∅, 0. constructor.
  - eapply Hsnoc; [by apply lr_debug | done].
  - eapply Hsnoc; [by apply lr_alloc | done].
  - eapply Hsnoc; [by apply lr_free | done].
  - done.
Qed.

(** What is allocated lies in the region. *)
Lemma log_replay_whole sm es A n : sm_wf sm -> log_replay sm es A n -> A ⊆ whole sm.
Proof.
  intros Hwf. induction 1 as [| | es e A n H IH Hin Ht Hdis | | es A A' n H IH Heq]; try set_solver.
  apply union_subseteq. split; [done |]. destruct (entry_valid sm e Hwf Hin) as (Hv & Hs & _).
  destruct Hin as (_ & _ & _ & He). intros x. unfold entry_offsets, whole, offsets, seg_set.
  rewrite !elem_of_PropSet. simpl. lia.
Qed.

Lemma models_space_le {T S} `{!AvlOps addr T} (oo : option (range_tree_ops S)) Inv (rt : range_tree T S) P a n :
  rt_models oo Inv rt P -> P ⊆ offsets a n -> 0 <= n -> rt_space rt <= n.
Proof.
  intros (l & Hr & Hl) Hsub Hn. rewrite (rt_repr_space _ _ _ _ Hr). destruct Hr as (ids & m & [_ _ _ Hc]).
  destruct (canonical_between a (a + n) l Hc) as (H0 & H1 & _); [| lia |].
  - intros s Hs. pose proof (canonical_valid l s Hc Hs) as Hv. unfold valid_seg in Hv.
    assert (Hx : forall x, rs_start s <= x < rs_end s -> a <= x < a + n).
    { intros x Hx. assert (x ∈ offsets a n) as Hin by (apply Hsub; rewrite <- Hl; apply elem_of_covered; eauto).
      unfold offsets, seg_set in Hin. rewrite elem_of_PropSet in Hin. done. }
    pose proof (Hx (rs_start s) ltac:(lia)). pose proof (Hx (rs_end s - 1) ltac:(lia)). lia.
  - destruct l; simpl length in *; [simpl; lia | lia].
Qed.

Section load.
Context {T S D : Type} `{!AvlOps addr T} `{!AvlLaws addr T} `{!Dmu D} `{!DmuLaws D}.
Context (oo : option (range_tree_ops S)) (Init : S -> Prop) (Inv : seg_store -> gset addr -> S -> Prop).
Context `{!OpsLaws oo Init Inv}.
Variable zfs_recover : bool.
Context (sm : space_map) (Hwf : sm_wf sm).
Implicit Types (rt : range_tree T S) (es : list Z) (A : propset Z).
Notation rt_models := (rt_models oo Inv).

(** The set and the size a load of type [mt] aims at, when [A] is allocated. *)
Definition load_set (mt : maptype) A : propset Z :=
  match mt with SM_ALLOC => A | SM_FREE => whole sm ∖ A end.
Definition load_size (mt : maptype) (n : Z) : Z :=
  match mt with SM_ALLOC => n | SM_FREE => sm_size sm - n end.

Lemma load_set_whole mt A : A ⊆ whole sm -> load_set mt A ⊆ whole sm.
Proof. destruct mt; set_solver. Qed.

(** An entry in the region passes the checks of the loop. *)
Lemma load_entry_in rt mt e :
  entry_in sm e ->
  load_entry zfs_recover sm mt rt e =
    if SM_TYPE_DECODE e =? maptype_code mt then
      VERIFY (u64_add (rt_space rt) (entry_size sm e) <=? sm_size sm) ;;
      range_tree_add zfs_recover rt (entry_start sm e) (entry_size sm e)
    else range_tree_remove zfs_recover rt (entry_start sm e) (entry_size sm e).
Proof.
  intros Hin. destruct (entry_valid sm e Hwf Hin) as (Hv & Hs & Hz). destruct Hin as (Hdb & Ho & Hr & He).
  pose proof Hwf as []. pose proof (unit_pos sm ltac:(lia)). unfold valid_range in Hv.
  unfold load_entry. rewrite Hdb, Z.eqb_refl. cbn [negb]. cbv zeta.
  assert (u64_shl (SM_RUN_DECODE e) (sm_shift sm) = entry_size sm e) as ->.
  { apply u64_shl_small; [lia |]. fold (unit_size sm). fold (entry_size sm e). unfold is_u64. lia. }
  assert (u64_shl (SM_OFFSET_DECODE e) (sm_shift sm) = SM_OFFSET_DECODE e * unit_size sm) as ->.
  { apply u64_shl_small; [lia |]. fold (unit_size sm). unfold entry_start, is_u64 in *. nia. }
  rewrite u64_add_small by (fold (entry_start sm e); unfold is_u64; lia).
  fold (entry_start sm e).
  assert ((2 ^ sm_shift sm | entry_start sm e)) by (apply Z.divide_add_r; [apply Z.divide_factor_r | done]).
  assert ((2 ^ sm_shift sm | entry_size sm e)) by apply Z.divide_factor_r.
  rewrite !P2PHASE_aligned, Z.eqb_refl by done.
  rewrite !VERIFY_pass by (done || by apply Z.leb_le). rewrite (u64_add_small (entry_start sm e)) by (unfold is_u64; lia).
  rewrite (u64_add_small (sm_start sm)) by (unfold is_u64; lia).
  by rewrite VERIFY_pass by (by apply Z.leb_le).
Qed.

Lemma load_entry_debug rt mt e :
  SM_DEBUG_DECODE e <> 0 -> load_entry zfs_recover sm mt rt e = Ok rt.
Proof. intros Hd. unfold load_entry. by rewrite (proj2 (Z.eqb_neq _ _) Hd). Qed.

Lemma entry_whole e : entry_in sm e -> entry_offsets sm e ⊆ whole sm.
Proof.
  intros Hin x. destruct (entry_valid sm e Hwf Hin) as (_ & Hs & _). destruct Hin as (_ & _ & _ & He).
  unfold entry_offsets, whole, offsets, seg_set. rewrite !elem_of_PropSet. simpl. lia.
Qed.

Lemma entry_add rt mt e P :
  entry_in sm e -> SM_TYPE_DECODE e = maptype_code mt -> rt_models rt P -> P ⊆ whole sm ->
  P ## entry_offsets sm e ->
  runs (load_entry zfs_recover sm mt rt e) (fun rt' =>
    rt_models rt' (P ∪ entry_offsets sm e) /\ rt_space rt' = rt_space rt + entry_size sm e).
Proof.
  intros Hin Ht Hm Hsub Hd. destruct (entry_valid sm e Hwf Hin) as (Hv & Hs & Hz).
  pose proof (add_models oo Init Inv zfs_recover rt P _ _ Hm Hv Hd) as Hadd.
  rewrite load_entry_in, Ht, Z.eqb_refl by done. pose proof Hwf as [].
  pose proof Hadd as (rt' & Eadd & Hm' & Hsp)%runs_Ok.
  assert (rt_space rt' <= sm_size sm) as Hle.
  { eapply models_space_le; [exact Hm' | | lia]. apply union_subseteq. split; [done | by apply entry_whole]. }
  assert (0 <= rt_space rt) as Hpos.
  { destruct Hm as (l & Hrep & _). rewrite (rt_repr_space _ _ _ _ Hrep). destruct Hrep as (? & ? & [_ _ _ Hc]).
    apply (canonical_bounds l Hc). }
  unfold valid_range in Hv. rewrite u64_add_small by (unfold is_u64; lia).
  apply runs_VERIFY; [apply Z.leb_le; lia |]. done.
Qed.

Lemma entry_remove rt mt e P :
  entry_in sm e -> SM_TYPE_DECODE e <> maptype_code mt -> rt_models rt P -> entry_offsets sm e ⊆ P ->
  runs (load_entry zfs_recover sm mt rt e) (fun rt' =>
    rt_models rt' (P ∖ entry_offsets sm e) /\ rt_space rt' = rt_space rt - entry_size sm e).
Proof.
  intros Hin Ht Hm Hd. destruct (entry_valid sm e Hwf Hin) as (Hv & Hs & Hz).
  rewrite load_entry_in by done. destruct (Z.eqb_spec (SM_TYPE_DECODE e) (maptype_code mt)); [done |].
  by apply (remove_models oo Init Inv).
Qed.

Lemma load_entries_app mt rt es1 es2 :
  load_entries zfs_recover sm mt rt (es1 ++ es2) =
  (rt' ← load_entries zfs_recover sm mt rt es1 ; load_entries zfs_recover sm mt rt' es2).
Proof.
  revert rt. induction es1 as [| e es1 IH]; intros rt; [done |]. cbn [load_entries app].
  destruct (load_entry _ _ _ _ _); [apply IH | done].
Qed.

Definition loaded (mt : maptype) A (n : Z) rt : Prop :=
  rt_models rt (load_set mt A) /\ rt_space rt = load_size mt n.

(** Replaying a log into the initial tree of a load. *)
Lemma load_entries_spec mt rt0 es A n :
  loaded mt ∅ 0 rt0 -> log_replay sm es A n ->
  runs (load_entries zfs_recover sm mt rt0 es) (loaded mt A n).
Proof.
  intros H0. induction 1 as [| es e A n H IH Hd | es e A n H IH Hin Ht Hdis | es e A n H IH Hin Ht Hsub | es A A' n H IH Heq].
  - done.
  - rewrite load_entries_app. eapply runs_bind; [exact IH |]. intros rt Hl. cbn [load_entries].
    rewrite load_entry_debug by done. by rewrite bind_Ok.
  - rewrite load_entries_app. eapply runs_bind; [exact IH |]. intros rt (Hm & Hsp). cbn [load_entries].
    pose proof (log_replay_whole sm es A n Hwf H) as Hw. pose proof (entry_whole e Hin).
    apply (runs_bind _ _ (loaded mt (A ∪ entry_offsets sm e) (n + entry_size sm e))); [| done].
    destruct mt.
    + eapply runs_impl; [eapply entry_add; [done | done | done | done | done] |].
      intros rt' (Hm' & Hsp'). split; [done | simpl in *; lia].
    + eapply runs_impl; [eapply entry_remove; [done | by rewrite Ht | done | set_solver] |].
      intros rt' (Hm' & Hsp'). split; [| simpl in *; lia]. eapply rt_models_equiv, Hm'. set_solver.
  - rewrite load_entries_app. eapply runs_bind; [exact IH |]. intros rt (Hm & Hsp). cbn [load_entries].
    pose proof (log_replay_whole sm es A n Hwf H) as Hw. pose proof (entry_whole e Hin).
    apply (runs_bind _ _ (loaded mt (A ∖ entry_offsets sm e) (n - entry_size sm e))); [| done].
    destruct mt.
    + eapply runs_impl; [eapply entry_remove; [done | by rewrite Ht | done | done] |].
      intros rt' (Hm' & Hsp'). split; [done | simpl in *; lia].
    + eapply runs_impl; [eapply entry_add; [done | done | done | set_solver | set_solver] |].
      intros rt' (Hm' & Hsp'). split; [| simpl in *; lia]. eapply rt_models_equiv, Hm'. simpl.
      intros x. destruct (offsets_dec x (entry_start sm e) (entry_size sm e)); set_solver.
  - eapply runs_impl; [exact IH |]. intros rt (Hm & Hsp). split; [| done]. eapply rt_models_equiv, Hm.
    destruct mt; simpl; by rewrite Heq.
Qed.

Lemma load_blocks_past fuel d mt rt end_ bufsize offset :
  end_ <= offset -> load_blocks zfs_recover fuel sm d mt rt end_ bufsize offset = Ok (0, rt).
Proof. intros. destruct fuel; cbn [load_blocks]; by rewrite (proj2 (Z.ltb_ge _ _)). Qed.

(** The blocks of a log, read one after the other, are the log; a failed read
    leaves the tree of the blocks before it. *)
Lemma load_blocks_spec d mt rt0 es A n bufsize :
  loaded mt ∅ 0 rt0 -> log_replay sm es A n -> dmu_holds d (sm_object sm) es ->
  (8 | bufsize) -> 8 <= bufsize -> 8 * Z.of_nat (length es) + bufsize < W64 ->
  forall fuel pre post rt,
  es = pre ++ post -> load_entries zfs_recover sm mt rt0 pre = Ok rt ->
  8 * Z.of_nat (length post) <= Z.of_nat fuel * bufsize ->
  runs (load_blocks zfs_recover fuel sm d mt rt (8 * Z.of_nat (length es)) bufsize (8 * Z.of_nat (length pre)))
    (fun '(error, rt') => exists pre' post', es = pre' ++ post' /\ load_entries zfs_recover sm mt rt0 pre' = Ok rt' /\
       (error = 0 -> post' = [])).
Proof.
  intros H0 Hlog Hd [k Hk] Hb Hmax fuel. induction fuel as [| fuel IH]; intros pre post rt E Hrt Hf.
  - assert (post = []) as -> by (destruct post; [done | simpl length in Hf; lia]).
    rewrite load_blocks_past by (rewrite E, app_nil_r; lia). by exists pre, [].
  - destruct (decide (post = [])) as [-> | Hne].
    { rewrite load_blocks_past by (rewrite E, app_nil_r; lia). by exists pre, []. }
    assert (0 < Z.of_nat (length post)) by (destruct post; [done | simpl; lia]).
    assert (length es = length pre + length post)%nat as Hlen by (by rewrite E, length_app).
    cbn [load_blocks]. rewrite (proj2 (Z.ltb_lt _ _)) by lia.
    rewrite u64_sub_small by (unfold is_u64; lia).
    set (mid := take (Z.to_nat k) post). set (rest := drop (Z.to_nat k) post).
    assert (Hpost : post = mid ++ rest) by (symmetry; apply take_drop).
    assert (length mid = min (Z.to_nat k) (length post)) as Hmid by apply length_take.
    assert (length rest = length post - Z.to_nat k)%nat as Hrest by apply length_drop.
    replace (Z.min _ bufsize) with (8 * Z.of_nat (length mid)) by lia.
    rewrite P2PHASE_words. pose proof Hwf as [].
    rewrite !VERIFY_pass by (done || (apply negb_true_iff, Z.eqb_neq; lia)).
    destruct (dmu_read d _ _ _) as [error data] eqn:Er.
    destruct (Z.eqb_spec error 0) as [-> | He]; cbn [negb].
    2: { exists pre, post. done. }
    assert (data = mid) as ->.
    { eapply law_dmu_read; [| exact Er | done]. rewrite <- Hpost, <- E. exact Hd. }
    rewrite words_div, Nat2Z.id, take_ge by lia.
    destruct (log_replay_prefix sm (pre ++ mid) rest A n) as (A1 & n1 & H1);
      [by rewrite <- app_assoc, <- Hpost, <- E |].
    pose proof (load_entries_spec mt rt0 _ _ _ H0 H1) as Hrun. rewrite load_entries_app, Hrt, bind_Ok in Hrun.
    apply runs_Ok in Hrun as (rt1 & Ert & _). rewrite Ert, bind_Ok.
    assert (load_entries zfs_recover sm mt rt0 (pre ++ mid) = Ok rt1) as Hpm by (by rewrite load_entries_app, Hrt).
    rewrite u64_add_small by (unfold is_u64; lia).
    destruct (decide (Z.of_nat (length post) <= k)).
    + rewrite load_blocks_past by lia. exists (pre ++ mid), rest. split; [by rewrite <- app_assoc, <- Hpost |].
      split; [done |]. intros _. apply length_zero_iff_nil. lia.
    + replace (8 * Z.of_nat (length pre) + bufsize) with (8 * Z.of_nat (length (pre ++ mid))) by (rewrite length_app; lia).
      eapply (IH (pre ++ mid) rest); [by rewrite <- app_assoc, <- Hpost | done | lia].
Qed.

Lemma models_space_u64 rt P : rt_models rt P -> is_u64 (rt_space rt).
Proof.
  intros (l & Hr & _). rewrite (rt_repr_space _ _ _ _ Hr). destruct Hr as (? & ? & [_ _ _ Hc]).
  apply (canonical_bounds l Hc).
Qed.

Lemma load_start rt mt :
  rt_models rt ∅ ->
  runs (match mt with SM_FREE => range_tree_add zfs_recover rt (sm_start sm) (sm_size sm) | SM_ALLOC => Ok rt end)
    (loaded mt ∅ 0) /\ rt_space rt = 0.
Proof.
  intros Hm. assert (rt_space rt = 0) as Hz.
  { destruct Hm as (l & Hr & Hl). rewrite (rt_repr_space _ _ _ _ Hr). destruct l as [| s l]; [done |]. exfalso.
    destruct Hr as (? & ? & [_ _ _ Hc]). apply canonical_cons in Hc as (Hv & _). unfold valid_seg in Hv.
    assert (rs_start s ∈ covered (s :: l)) as Hx by (apply elem_of_covered; exists s; split; [set_solver | lia]).
    rewrite Hl in Hx. set_solver. }
  split; [| done]. pose proof Hwf as []. destruct mt.
  - split; [done | exact Hz].
  - eapply runs_impl; [apply (add_models oo Init Inv); [exact Hm | unfold valid_range; lia | set_solver] |].
    intros rt' (Hm' & Hsp). split; [| simpl; lia]. eapply rt_models_equiv, Hm'. unfold load_set, whole. set_solver.
Qed.

Lemma load_spec d rt0 mt es A n :
  rt_models rt0 ∅ -> log_replay sm es A n -> dmu_holds d (sm_object sm) es ->
  sm_length sm = 8 * Z.of_nat (length es) -> sm_alloc sm = n ->
  8 * Z.of_nat (length es) < W64 - 2 ^ 32 ->
  runs (space_map_load zfs_recover sm d rt0 mt) (fun '(error, rt) =>
    if error =? 0 then loaded mt A n rt else rt_models rt ∅).
Proof.
  intros Hm Hlog Hd Hlen Ha Hmax. unfold space_map_load. cbv zeta. cbn [space_map_length space_map_allocated].
  rewrite Hlen, Ha. destruct (load_start rt0 mt Hm) as (Hst & Hz).
  apply runs_VERIFY; [by rewrite Hz |]. eapply runs_bind; [exact Hst |]. intros rt1 H1.
  pose proof Hwf as []. set (bufsize := Z.max (sm_blksz sm) SPA_MINBLOCKSIZE).
  assert (8 <= bufsize < 2 ^ 32) as Hb by (unfold bufsize, SPA_MINBLOCKSIZE; lia).
  assert ((8 | bufsize)) as Hb8.
  { unfold bufsize, SPA_MINBLOCKSIZE. destruct (Z.max_spec (sm_blksz sm) 512) as [[_ ->] | [_ ->]]; [by exists 64 | done]. }
  eapply runs_bind.
  { eapply (load_blocks_spec d mt rt1 es A n bufsize H1 Hlog Hd Hb8 ltac:(lia) ltac:(lia) _ [] es rt1); [done | done |].
    unfold load_fuel. pose proof (Z.div_pos (8 * Z.of_nat (length es)) bufsize ltac:(lia) ltac:(lia)).
    rewrite Z2Nat.id by lia. pose proof (Z.mul_succ_div_gt (8 * Z.of_nat (length es)) bufsize ltac:(lia)). lia. }
  intros (error, rt) (pre & post & E & Hrt & Hpost).
  assert (exists A1 n1, log_replay sm pre A1 n1) as (A1 & n1 & Hpre)
    by (eapply (log_replay_prefix sm pre post); by rewrite <- E).
  destruct (Z.eqb_spec error 0) as [-> | He].
  - rewrite (Hpost eq_refl), app_nil_r in E. subst pre.
    pose proof (load_entries_spec mt rt1 es A n H1 Hlog) as Hl. rewrite Hrt in Hl. simpl in Hl.
    destruct Hl as (Hml & Hsl). apply runs_VERIFY; [| by split].
    apply Z.eqb_eq. pose proof (models_space_u64 _ _ Hml). rewrite Hsl in *.
    destruct mt; simpl in *; [done | by rewrite u64_sub_small].
  - pose proof (load_entries_spec mt rt1 pre A1 n1 H1 Hpre) as Hl. rewrite Hrt in Hl. simpl in Hl.
    destruct Hl as ((l & Hr & _) & _). destruct (vacate_spec oo Init Inv rt l None tt Hr) as (rt' & xs & Hr' & _ & ->).
    rewrite bind_Ok. simpl. rewrite (proj2 (Z.eqb_neq _ _) He). by exists [].
Qed.
End load.

(** ** Writing *)

(** The entries of a run of [size] units from [start]. *)
Fixpoint run_entries (fuel : nat) (mt : maptype) (start size : Z) : list Z :=
  match fuel with
  | O => []
  | S n =>
      if size =? 0 then []
      else
        let run_len := Z.min size SM_RUN_MAX in
        sm_entry start run_len mt :: run_entries n mt (start + run_len) (size - run_len)
  end.

Lemma howmany_spec x y : 0 <= x -> 0 < y -> x + y < W64 -> howmany x y = (x + (y - 1)) / y.
Proof. intros. unfold howmany. rewrite u64_small by (unfold is_u64; lia). done. Qed.

Lemma run_fuel size fuel : 0 <= size < 2 ^ 63 -> fuel = write_fuel size -> size <= Z.of_nat fuel * SM_RUN_MAX.
Proof.
  intros Hs ->. unfold write_fuel. rewrite howmany_spec, SM_RUN_MAX_eq by (rewrite ?SM_RUN_MAX_eq; unfold W64; lia).
  Z.to_euclidean_division_equations. lia.
Qed.

Lemma run_entries_length fuel mt start size :
  0 <= size < 2 ^ 63 -> fuel = write_fuel size -> Z.of_nat (length (run_entries fuel mt start size)) = howmany size SM_RUN_MAX.
Proof.
  intros Hs E. rewrite howmany_spec, SM_RUN_MAX_eq by (rewrite ?SM_RUN_MAX_eq; unfold W64; lia).
  assert (Z.of_nat fuel = (size + (2 ^ 15 - 1)) / 2 ^ 15) as Hf.
  { subst fuel. unfold write_fuel. rewrite howmany_spec, SM_RUN_MAX_eq by (rewrite ?SM_RUN_MAX_eq; unfold W64; lia).
    Z.to_euclidean_division_equations. lia. }
  clear E. revert start size Hs Hf. induction fuel as [| n IH]; intros start size Hs Hf; [done |].
  cbn [run_entries]. rewrite SM_RUN_MAX_eq. destruct (Z.eqb_spec size 0) as [-> | Hne].
  - exfalso. Z.to_euclidean_division_equations. lia.
  - cbn [length]. rewrite Nat2Z.inj_succ, IH.
    + Z.to_euclidean_division_equations. lia.
    + lia.
    + Z.to_euclidean_division_equations. lia.
Qed.

Section write.
Context {D : Type} `{!Dmu D} `{!DmuLaws D}.
Context (sm : space_map) (Hwf : sm_wf sm).
Implicit Types (w : wstate (D := D)) (ws : list Z).

(** The words on disk followed by those in the buffer. *)
Definition pending w ws : Prop :=
  exists disk, dmu_holds (w_dmu w) (sm_object sm) disk /\ w_objsize w = 8 * Z.of_nat (length disk) /\
    ws = disk ++ w_buf w /\ Z.of_nat (length (w_buf w)) <= sm_blksz sm / 8.

Lemma write_flush_spec w ws size :
  pending w ws -> size = 8 * Z.of_nat (length (w_buf w)) -> 8 * Z.of_nat (length ws) < W64 ->
  runs (write_flush sm w size) (fun w' => pending w' ws /\ w_buf w' = [] /\ w_actual w' = w_actual w /\
    dmu_holds (w_dmu w') (sm_object sm) ws /\ w_objsize w' = 8 * Z.of_nat (length ws)).
Proof.
  intros (disk & Hd & Ho & -> & Hb) -> Hmax. unfold write_flush. rewrite Ho.
  eapply runs_bind; [by apply law_dmu_write |]. intros d' Hd'. rewrite length_app in Hmax.
  rewrite u64_add_small by (unfold is_u64; lia). simpl. split_and!; try done.
  - exists (disk ++ w_buf w). simpl. rewrite app_nil_r, length_app. pose proof Hwf as [].
    split_and!; [done | lia | done |]. apply Z.div_pos; lia.
  - rewrite length_app. lia.
Qed.

Lemma write_push_spec w ws e :
  pending w ws -> Z.of_nat (length (w_buf w)) < sm_blksz sm / 8 ->
  runs (write_push sm w e) (fun w' => pending w' (ws ++ [e]) /\ w_actual w' = w_actual w).
Proof.
  intros (disk & Hd & Ho & -> & Hb) Hlt. unfold write_push. apply runs_VERIFY; [by apply Z.ltb_lt |].
  split; [| done]. exists disk. simpl. rewrite length_app. simpl. split_and!; [done | done | by rewrite app_assoc | lia].
Qed.

Lemma write_runs_spec fuel mt w ws start size :
  pending w ws -> 0 <= start -> 0 <= size -> start + size <= 2 ^ 47 -> size <= Z.of_nat fuel * SM_RUN_MAX ->
  8 * (Z.of_nat (length ws) + Z.of_nat (length (run_entries fuel mt start size))) < W64 ->
  0 <= w_actual w -> w_actual w + Z.of_nat (length (run_entries fuel mt start size)) < W64 ->
  runs (write_runs fuel sm mt w start size) (fun w' =>
    pending w' (ws ++ run_entries fuel mt start size) /\
    w_actual w' = w_actual w + Z.of_nat (length (run_entries fuel mt start size))).
Proof.
  revert w ws start size. induction fuel as [| n IH]; intros w ws start size Hp Hs Hz Hend Hf Hmax Ha Hact.
  - assert (size = 0) as -> by lia. cbn. rewrite app_nil_r. split; [done | lia].
  - cbn [write_runs run_entries] in *. destruct (Z.eqb_spec size 0) as [-> | Hne].
    { cbn. rewrite app_nil_r. split; [done | lia]. }
    pose proof SM_RUN_MAX_eq as Hrm. cbv zeta in *. set (r := Z.min size SM_RUN_MAX) in *. cbn [length] in Hmax, Hact.
    pose proof Hwf as []. assert (1 <= sm_blksz sm / 8) as Hb8 by (apply Z.div_le_lower_bound; lia).
    eapply (runs_bind _ _ (fun w1 => pending w1 ws /\ w_actual w1 = w_actual w /\
              Z.of_nat (length (w_buf w1)) < sm_blksz sm / 8)).
    { destruct (Z.eqb_spec (Z.of_nat (length (w_buf w))) (sm_blksz sm / 8)) as [Eb | Nb].
      - eapply runs_impl; [apply (write_flush_spec w ws); [done | | lia] |].
        + rewrite Eb. destruct smw_blksz_words0 as [k Hk]. rewrite Hk, Z.div_mul by lia. lia.
        + intros w1 (Hp1 & Hb1 & Ha1 & _). rewrite Hb1. simpl. split_and!; [done | done | lia].
      - simpl. split_and!; [done | done |]. destruct Hp as (disk & _ & _ & _ & Hb). lia. }
    intros w1 (Hp1 & Ha1 & Hb1). eapply runs_bind; [by apply (write_push_spec w1 ws) |].
    intros w2 (Hp2 & Ha2). rewrite u64_add_small, u64_sub_small by (unfold is_u64; unfold W64 in *; lia).
    rewrite (u64_add_small start) by (unfold is_u64; unfold W64 in *; lia).
    eapply runs_impl; [apply (IH _ (ws ++ [sm_entry start r mt])) |].
    + destruct Hp2 as (disk & H1 & H2 & H3 & H4). by exists disk.
    + lia.
    + lia.
    + lia.
    + lia.
    + rewrite length_app. simpl. lia.
    + simpl. lia.
    + simpl. lia.
    + intros w3 (Hp3 & Ha3). simpl in Ha3. rewrite <- app_assoc in Hp3. split; [exact Hp3 |]. cbn [length]. lia.
Qed.

(** A segment of whole units of the region. *)
Definition seg_in (s : range_seg) : Prop :=
  valid_seg s /\ sm_start sm <= rs_start s /\ rs_end s <= sm_start sm + sm_size sm /\
  (unit_size sm | rs_start s - sm_start sm) /\ (unit_size sm | rs_end s - rs_start s).

Definition seg_first (s : range_seg) : Z := (rs_start s - sm_start sm) / unit_size sm.
Definition seg_units (s : range_seg) : Z := (rs_end s - rs_start s) / unit_size sm.

Definition segs_entries (mt : maptype) (l : list range_seg) : list Z :=
  concat ((fun s => run_entries (write_fuel (seg_units s)) mt (seg_first s) (seg_units s)) <$> l).

Lemma seg_in_units s : seg_in s ->
  0 <= seg_first s /\ 1 <= seg_units s /\ seg_first s + seg_units s <= 2 ^ 47 /\
  seg_first s * unit_size sm + sm_start sm = rs_start s /\ seg_units s * unit_size sm = seg_size s.
Proof.
  intros (Hv & Hs & He & [a Ha] & [b Hb]). pose proof Hwf as []. pose proof (unit_pos sm ltac:(lia)) as Hu.
  unfold seg_first, seg_units, seg_size, valid_seg in *. rewrite Ha, Hb, !Z.div_mul by lia. nia.
Qed.

Lemma write_segs_spec mt w ws sum l :
  pending w ws -> Forall seg_in l -> 0 <= sum -> sum + seg_total l < W64 ->
  8 * (Z.of_nat (length ws) + Z.of_nat (length (segs_entries mt l))) < W64 ->
  0 <= w_actual w -> w_actual w + Z.of_nat (length (segs_entries mt l)) < W64 ->
  runs (write_segs sm mt w sum l) (fun '(w', sum') =>
    pending w' (ws ++ segs_entries mt l) /\ sum' = sum + seg_total l /\
    w_actual w' = w_actual w + Z.of_nat (length (segs_entries mt l))).
Proof.
  revert w ws sum. induction l as [| s l IH]; intros w ws sum Hp Hin Hs Hsum Hmax Ha Hact.
  - cbn. rewrite app_nil_r. split_and!; [done | lia | lia].
  - inversion_clear Hin as [| ? ? Hs1 Hl]. pose proof (seg_in_units s Hs1) as (H1 & H2 & H3 & H4 & H5).
    destruct Hs1 as (Hv & Hst & Hen & _). pose proof (valid_seg_size s Hv). pose proof Hwf as [].
    assert (0 <= seg_total l) by (clear - Hl; induction Hl as [| t l Ht Hl IH]; simpl; [lia |];
      destruct Ht as (Hv & _); pose proof (valid_seg_size t Hv); lia).
    cbn [write_segs]. rewrite seg_total_cons in *.
    rewrite seg_size_u64 by done. rewrite !Z.shiftr_div_pow2 by lia.
    rewrite u64_sub_small by (unfold is_u64, valid_seg in *; lia).
    fold (unit_size sm). fold (seg_first s). replace (seg_size s / unit_size sm) with (seg_units s) by done.
    unfold segs_entries in *. rewrite fmap_cons in *. cbn [concat] in *. rewrite length_app in *.
    eapply runs_bind; [apply (write_runs_spec (write_fuel (seg_units s)) mt w ws) |].
    1-4: done || lia.
    { apply run_fuel; [lia | done]. }
    1-3: lia.
    intros w1 (Hp1 & Ha1). rewrite u64_shl_small by (try lia; fold (unit_size sm); unfold is_u64; lia).
    fold (unit_size sm). rewrite H5. rewrite u64_add_small by (unfold is_u64; lia).
    eapply runs_impl; [apply (IH w1 (ws ++ run_entries (write_fuel (seg_units s)) mt (seg_first s) (seg_units s))) |];
      rewrite ?length_app; try done; try lia.
    intros (w2, sum2) (Hp2 & Hs2 & Ha2). rewrite <- app_assoc in Hp2. split_and!; [exact Hp2 | lia | lia].
Qed.

(** ** What the written entries mean *)
Definition apply_set (mt : maptype) (A X : propset Z) : propset Z :=
  match mt with SM_ALLOC => A ∪ X | SM_FREE => A ∖ X end.
Definition apply_ok (mt : maptype) (A X : propset Z) : Prop :=
  match mt with SM_ALLOC => A ## X | SM_FREE => X ⊆ A end.
Definition apply_size (mt : maptype) (n k : Z) : Z :=
  match mt with SM_ALLOC => n + k | SM_FREE => n - k end.

Lemma apply_split mt A X Y :
  apply_ok mt A (X ∪ Y) -> X ## Y ->
  apply_ok mt A X /\ apply_ok mt (apply_set mt A X) Y /\ apply_set mt (apply_set mt A X) Y ≡ apply_set mt A (X ∪ Y).
Proof. intros H1 H2. destruct mt; simpl in *; set_solver. Qed.

Lemma apply_ok_equiv mt A X Y : X ≡ Y -> apply_ok mt A X -> apply_ok mt A Y.
Proof. intros E. destruct mt; simpl; by rewrite E. Qed.

Lemma apply_set_equiv mt A X Y : X ≡ Y -> apply_set mt A X ≡ apply_set mt A Y.
Proof. intros E. destruct mt; simpl; by rewrite E. Qed.

Lemma log_replay_entry mt ws A n e :
  log_replay sm ws A n -> entry_in sm e -> SM_TYPE_DECODE e = maptype_code mt ->
  apply_ok mt A (entry_offsets sm e) ->
  log_replay sm (ws ++ [e]) (apply_set mt A (entry_offsets sm e)) (apply_size mt n (entry_size sm e)).
Proof. intros. destruct mt; by constructor. Qed.

Lemma offsets_split a n k : 0 <= n -> 0 <= k -> offsets a (n + k) ≡ offsets a n ∪ offsets (a + n) k.
Proof. intros Hn Hk x. unfold offsets, seg_set. rewrite elem_of_union, !elem_of_PropSet. simpl. lia. Qed.

Lemma replay_nothing mt ws A n a :
  log_replay sm ws A n ->
  log_replay sm (ws ++ []) (apply_set mt A (offsets a (0 * unit_size sm))) (apply_size mt n (0 * unit_size sm)).
Proof.
  intros H. rewrite app_nil_r. replace (apply_size _ _ _) with n by (destruct mt; simpl; lia).
  eapply lr_equiv; [exact H |]. assert (offsets a (0 * unit_size sm) ≡ ∅) as E.
  { intros x. unfold offsets, seg_set. rewrite elem_of_PropSet, elem_of_empty. simpl. lia. }
  rewrite (apply_set_equiv mt _ _ _ E). destruct mt; simpl; set_solver.
Qed.

Lemma run_replay mt fuel ws A n start size :
  log_replay sm ws A n -> 0 <= start -> 0 <= size ->
  start + size <= 2 ^ 47 -> (start + size) * unit_size sm <= sm_size sm -> size <= Z.of_nat fuel * SM_RUN_MAX ->
  let X := offsets (start * unit_size sm + sm_start sm) (size * unit_size sm) in
  apply_ok mt A X ->
  log_replay sm (ws ++ run_entries fuel mt start size) (apply_set mt A X) (apply_size mt n (size * unit_size sm)).
Proof.
  pose proof Hwf as []. pose proof (unit_pos sm ltac:(lia)) as Hu. pose proof SM_RUN_MAX_eq as Hrm.
  revert ws A n start size. induction fuel as [| k IH]; intros ws A n start size Hlog Hs Hz Hend Hsz Hf X Hok; subst X.
  - assert (size = 0) as -> by lia. by apply replay_nothing.
  - cbn [run_entries]. destruct (Z.eqb_spec size 0) as [-> | Hne]; [by apply replay_nothing |]. cbv zeta.
    set (r := Z.min size SM_RUN_MAX) in *.
    destruct (sm_entry_decode start r mt) as (_ & Hd & Ho & Ht & Hr); [lia | lia |].
    assert (entry_offsets sm (sm_entry start r mt) = offsets (start * unit_size sm + sm_start sm) (r * unit_size sm)) as Ee
      by (unfold entry_offsets, entry_start, entry_size; by rewrite Ho, Hr).
    assert (size * unit_size sm = r * unit_size sm + (size - r) * unit_size sm) as Esz by lia.
    pose proof (offsets_split (start * unit_size sm + sm_start sm) (r * unit_size sm) ((size - r) * unit_size sm)
      ltac:(nia) ltac:(nia)) as Eo. rewrite <- Esz in Eo.
    apply (apply_ok_equiv mt A _ _ Eo) in Hok.
    apply apply_split in Hok as (Hok1 & Hok2 & Eset).
    2: { intros x. unfold offsets, seg_set. rewrite !elem_of_PropSet. simpl. lia. }
    rewrite <- Ee in Hok1.
    assert (entry_in sm (sm_entry start r mt)) as Hin.
    { unfold entry_in, entry_start, entry_size. rewrite Hd, Ho, Hr. split_and!; try lia. nia. }
    pose proof (log_replay_entry mt ws A n _ Hlog Hin Ht Hok1) as Hlog1.
    rewrite cons_middle, app_assoc.
    replace (start * unit_size sm + sm_start sm + r * unit_size sm) with ((start + r) * unit_size sm + sm_start sm) in * by lia.
    rewrite Ee in Hlog1.
    pose proof (IH _ _ _ (start + r) (size - r) Hlog1 ltac:(lia) ltac:(lia) ltac:(lia) ltac:(nia) ltac:(lia) Hok2) as Hlog2.
    replace (apply_size mt n (size * unit_size sm)) with
      (apply_size mt (apply_size mt n (entry_size sm (sm_entry start r mt))) ((size - r) * unit_size sm)).
    2: { unfold entry_size. rewrite Hr. destruct mt; simpl; lia. }
    eapply lr_equiv; [exact Hlog2 |]. rewrite Eset. symmetry. by apply apply_set_equiv.
Qed.

Lemma seg_set_offsets s : seg_in s ->
  offsets (seg_first s * unit_size sm + sm_start sm) (seg_units s * unit_size sm) = seg_set s.
Proof.
  intros Hin. destruct (seg_in_units s Hin) as (_ & _ & _ & -> & ->). unfold offsets, seg_size.
  replace (rs_start s + (rs_end s - rs_start s)) with (rs_end s) by lia. by destruct s.
Qed.

Lemma segs_replay mt ws A n l :
  log_replay sm ws A n -> Forall seg_in l -> canonical l -> apply_ok mt A (covered l) ->
  log_replay sm (ws ++ segs_entries mt l) (apply_set mt A (covered l)) (apply_size mt n (seg_total l)).
Proof.
  revert ws A n. induction l as [| s l IH]; intros ws A n Hlog Hin Hc Hok.
  - cbn. rewrite app_nil_r. replace (apply_size mt n 0) with n by (destruct mt; simpl; lia).
    eapply lr_equiv; [exact Hlog |]. destruct mt; simpl; set_solver.
  - inversion_clear Hin as [| ? ? Hs Hl]. pose proof (seg_in_units s Hs) as (H1 & H2 & H3 & H4 & H5).
    apply (apply_ok_equiv mt A _ _ (covered_cons s l)) in Hok.
    assert (seg_set s ## covered l) as Hdis.
    { symmetry. apply (covered_middle_disjoint [] s l Hc). }
    apply apply_split in Hok as (Hok1 & Hok2 & Eset); [| done].
    pose proof (run_replay mt (write_fuel (seg_units s)) ws A n (seg_first s) (seg_units s)) as Hrun. cbv zeta in Hrun.
    rewrite seg_set_offsets, H5 in Hrun by done.
    assert (Hlog1 : log_replay sm (ws ++ run_entries (write_fuel (seg_units s)) mt (seg_first s) (seg_units s))
                      (apply_set mt A (seg_set s)) (apply_size mt n (seg_size s))).
    { apply Hrun; try done; try lia.
      - destruct Hs as (Hv & Hs1 & Hs2 & _). unfold seg_size in H5. lia.
      - apply run_fuel; [lia | done]. }
    apply canonical_cons in Hc as (_ & Hc & _). pose proof (IH _ _ _ Hlog1 Hl Hc Hok2) as Hlog2.
    unfold segs_entries in *. rewrite fmap_cons. cbn [concat]. rewrite app_assoc, seg_total_cons.
    replace (apply_size mt n (seg_size s + seg_total l)) with (apply_size mt (apply_size mt n (seg_size s)) (seg_total l))
      by (destruct mt; simpl; lia).
    eapply lr_equiv; [exact Hlog2 |]. rewrite Eset. by apply apply_set_equiv.
Qed.

Lemma segs_entries_cons mt s l :
  seg_in s ->
  Z.of_nat (length (segs_entries mt (s :: l))) = howmany (seg_units s) SM_RUN_MAX + Z.of_nat (length (segs_entries mt l)).
Proof.
  intros Hs. pose proof (seg_in_units s Hs) as (H1 & H2 & H3 & _).
  unfold segs_entries. rewrite fmap_cons. cbn [concat]. rewrite length_app, Nat2Z.inj_add.
  rewrite run_entries_length; [done | lia | done].
Qed.

Lemma segs_entries_bound mt l :
  Forall seg_in l -> Z.of_nat (length (segs_entries mt l)) * unit_size sm <= seg_total l.
Proof.
  induction 1 as [| s l Hs Hl IH]; [cbn; lia |]. rewrite segs_entries_cons, seg_total_cons by done.
  pose proof (seg_in_units s Hs) as (H1 & H2 & H3 & _ & H5). pose proof Hwf as [].
  pose proof (unit_pos sm ltac:(lia)) as Hu. rewrite <- H5.
  assert (howmany (seg_units s) SM_RUN_MAX <= seg_units s); [| nia].
  rewrite howmany_spec, SM_RUN_MAX_eq by (rewrite ?SM_RUN_MAX_eq; unfold W64; lia).
  Z.to_euclidean_division_equations. lia.
Qed.

Lemma segs_in_total l : canonical l -> Forall seg_in l -> 0 <= seg_total l <= sm_size sm.
Proof.
  intros Hc Hin. pose proof Hwf as [].
  destruct (canonical_between (sm_start sm) (sm_start sm + sm_size sm) l Hc) as (H0 & H1 & _); [| lia |].
  - rewrite Forall_forall in Hin. intros s Hs. destruct (Hin s Hs) as (_ & ? & ? & _). lia.
  - destruct l; simpl length in *; [simpl; lia | lia].
Qed.

Lemma entries_count mt l k :
  Forall seg_in l -> 0 <= k -> k + Z.of_nat (length (segs_entries mt l)) < W64 ->
  foldl (fun entries rs => u64_add entries
    (howmany (Z.shiftr (u64_sub (rs_end rs) (rs_start rs)) (sm_shift sm)) SM_RUN_MAX)) k l
  = k + Z.of_nat (length (segs_entries mt l)).
Proof.
  intros Hin. revert k. induction Hin as [| s l Hs Hl IH]; intros k Hk Hmax; [cbn; lia |].
  pose proof (segs_entries_cons mt s l Hs) as E. pose proof (seg_in_units s Hs) as (_ & H2 & H3 & _). pose proof Hwf as [].
  assert (0 <= howmany (seg_units s) SM_RUN_MAX) by (apply Z.div_pos; [apply u64_range | by rewrite SM_RUN_MAX_eq]).
  cbn [foldl]. rewrite seg_size_u64 by apply Hs. rewrite Z.shiftr_div_pow2 by lia. fold (unit_size sm).
  replace (seg_size s / unit_size sm) with (seg_units s) by done.
  rewrite u64_add_small by (unfold is_u64; lia). rewrite IH by lia. lia.
Qed.
End write.
