(* ===== verification/SpaceMapThms.v ===== *)
(** * What space maps promise

    Writing a range tree and loading the map again gives back the allocated
    or the free space; the entry encoding loses nothing. *)
From S2P Require Import Prelude Avl AvlSpec OrdTree RangeTree Segments RangeTreeSpec RangeTreeThms SpaceMap SpaceMapSpec.
From stdpp Require Import propset.
Local Open Scope Z_scope.

(** The size a log records is the size of a set within the region. *)
Lemma log_replay_size sm es A n : sm_wf sm -> log_replay sm es A n -> 0 <= n <= sm_size sm.
Proof.
  intros Hwf Hlog.
  pose proof (load_entries_spec (T := avl_tree addr) None (fun _ => True) demo_inv false sm Hwf SM_ALLOC demo_empty es A n)
    as Hl.
  destruct (proj1 (runs_Ok _ _) (Hl (conj demo_empty_models eq_refl) Hlog)) as (rt & _ & Hm & Hsp). simpl in Hsp.
  pose proof (models_space_u64 None demo_inv rt _ Hm) as Hu. unfold is_u64 in Hu. rewrite <- Hsp. split; [lia |].
  eapply models_space_le; [exact Hm | by eapply log_replay_whole | pose proof (smw_size _ Hwf); lia].
Qed.

Section theorems.
Context {T S D : Type} `{!AvlOps addr T} `{!AvlLaws addr T} `{!Dmu D} `{!DmuLaws D}.
Context (oo : option (range_tree_ops S)) (Init : S -> Prop) (Inv : seg_store -> gset addr -> S -> Prop).
Context `{!OpsLaws oo Init Inv}.
Implicit Types (rt : range_tree T S) (sm : space_map) (d : D) (es : list Z) (A P : propset Z).

(** The log of [sm] on disk, as the in-core fields being synced record it. *)
Record sm_disk sm d es A (n : Z) : Prop := {
  smd_log : log_replay sm es A n;
  smd_holds : dmu_holds d (sm_object sm) es;
  smd_objsize : smp_objsize (sm_phys sm) = 8 * Z.of_nat (length es);
  smd_alloc : smp_alloc (sm_phys sm) = n }.

(** Only the on-disk header differs. *)
Definition same_map sm sm' : Prop := set_phys sm' (sm_phys sm) = sm.

(** The same region and object. *)
Definition same_region sm sm' : Prop :=
  sm_start sm' = sm_start sm /\ sm_size sm' = sm_size sm /\ sm_shift sm' = sm_shift sm /\
  sm_object sm' = sm_object sm /\ sm_blksz sm' = sm_blksz sm.

Lemma same_map_region sm sm' : same_map sm sm' -> same_region sm sm'.
Proof. destruct sm, sm'. intros E. unfold same_region. by injection E as -> -> -> -> -> -> -> ->. Qed.

Lemma sm_wf_same sm sm' : same_region sm sm' -> sm_wf sm -> sm_wf sm'.
Proof.
  intros (E1 & E2 & E3 & E4 & E5) []. assert (unit_size sm' = unit_size sm) by (unfold unit_size; by rewrite E3).
  split; congruence.
Qed.

Lemma log_replay_same sm sm' es A n : same_region sm sm' -> log_replay sm es A n -> log_replay sm' es A n.
Proof.
  intros (E1 & E2 & E3 & _).
  assert (Hu : unit_size sm' = unit_size sm) by (unfold unit_size; by rewrite E3).
  assert (Ho : forall e, entry_start sm' e = entry_start sm e) by (intros; unfold entry_start; by rewrite Hu, E1).
  assert (Hz : forall e, entry_size sm' e = entry_size sm e) by (intros; unfold entry_size; by rewrite Hu).
  assert (Hf : forall e, entry_offsets sm' e = entry_offsets sm e) by (intros; unfold entry_offsets; by rewrite Ho, Hz).
  assert (Hi : forall e, entry_in sm e -> entry_in sm' e) by (intros e; unfold entry_in; by rewrite Ho, Hz, E1, E2).
  induction 1 as [| es e A n H IH Hd | es e A n H IH Hin Ht Hdis | es e A n H IH Hin Ht Hsub | es A A' n H IH Heq].
  - constructor.
  - by constructor.
  - rewrite <- Hf, <- Hz. constructor; [done | auto | done | by rewrite Hf].
  - rewrite <- Hf, <- Hz. constructor; [done | auto | done | by rewrite Hf].
  - by eapply lr_equiv.
Qed.

Lemma debug_replay sm es A n mt syncpass txg :
  log_replay sm es A n -> 0 <= syncpass < 2 ^ 10 -> 0 <= txg ->
  log_replay sm (es ++ [sm_debug_entry mt syncpass txg]) A n.
Proof.
  intros Hlog Hs Ht. apply lr_debug; [done |].
  destruct (sm_debug_entry_decode mt syncpass txg Hs Ht) as (_ & -> & _). done.
Qed.

(** The entries of [space_map_write], before the accounting. *)
Lemma write_log sm d l mt e es :
  sm_wf sm -> canonical l -> Forall (seg_in sm) l -> dmu_holds d (sm_object sm) es ->
  8 * Z.of_nat (length es) < 2 ^ 63 ->
  runs (w ← write_push sm (MkW d (8 * Z.of_nat (length es)) [] 1) e ;
        '(w, sum) ← write_segs sm mt w 0 l ;
        w ← (match w_buf w with [] => Ok w | buf => write_flush sm w (u64 (Z.of_nat (length buf) * 8)) end) ;
        Ok (w, sum))
    (fun '(w, sum) => dmu_holds (w_dmu w) (sm_object sm) (es ++ e :: segs_entries sm mt l) /\
       w_objsize w = 8 * Z.of_nat (length (es ++ e :: segs_entries sm mt l)) /\ sum = seg_total l /\
       w_actual w = 1 + Z.of_nat (length (segs_entries sm mt l))).
Proof.
  intros Hwf Hc Hin Hd Hmax. pose proof Hwf as []. pose proof (segs_in_total sm Hwf l Hc Hin) as Ht.
  pose proof (unit_pos sm ltac:(lia)) as Hu. pose proof (segs_entries_bound sm Hwf mt l Hin) as Hb.
  assert (Z.of_nat (length (segs_entries sm mt l)) <= 2 ^ 47) by nia.
  eapply runs_bind.
  { apply (write_push_spec sm _ es); [by exists es; rewrite app_nil_r; split_and!; try done; apply Z.div_pos; lia |].
    simpl. apply Z.div_str_pos. lia. }
  intros w1 (Hp1 & Ha1). simpl in Ha1. eapply runs_bind.
  { apply (write_segs_spec sm Hwf mt w1 (es ++ [e]) 0 l); rewrite ?length_app; simpl length; try done; unfold W64 in *; lia. }
  intros (w2, sum) (Hp2 & -> & Ha2). rewrite <- app_assoc in Hp2. simpl app in Hp2.
  eapply (runs_bind _ _ (fun w3 => dmu_holds (w_dmu w3) (sm_object sm) (es ++ e :: segs_entries sm mt l) /\
    w_objsize w3 = 8 * Z.of_nat (length (es ++ e :: segs_entries sm mt l)) /\ w_actual w3 = w_actual w2)).
  - destruct (w_buf w2) as [| x buf] eqn:Eb.
    + destruct Hp2 as (disk & H1 & H2 & H3 & _). rewrite Eb, app_nil_r in H3. subst disk. done.
    + assert (8 * Z.of_nat (length (es ++ e :: segs_entries sm mt l)) < W64)
        by (rewrite length_app; simpl length; unfold W64; lia).
      eapply runs_impl; [apply (write_flush_spec sm Hwf w2 _ _ Hp2); [| done] |].
      * rewrite Eb. pose proof Hp2 as (disk & _ & _ & E & _). rewrite Eb in E. rewrite E, length_app in *.
        rewrite u64_small by (unfold is_u64; lia). lia.
      * intros w3 (_ & _ & Ha3 & Hd3 & Ho3). done.
  - intros w3 (Hd3 & Ho3 & Ha3). simpl. split_and!; try done. lia.
Qed.

Lemma sm_wf_phys sm p : sm_wf sm -> sm_wf (set_phys sm p).
Proof. intros []. by split. Qed.

Lemma write_spec sm d rt mt syncpass txg es A n l :
  sm_wf sm -> sm_disk sm d es A n -> rt_repr oo Inv rt l -> Forall (seg_in sm) l ->
  apply_ok mt A (covered l) -> 0 <= syncpass < 2 ^ 10 -> 0 <= txg -> 8 * Z.of_nat (length es) < 2 ^ 63 ->
  runs (space_map_write sm d rt mt syncpass txg) (fun '(sm', d') => exists es',
    same_map sm sm' /\ es `prefix_of` es' /\ Z.of_nat (length es') <= Z.of_nat (length es) + 2 ^ 48 /\
    sm_disk sm' d' es' (apply_set mt A (covered l)) (apply_size mt n (rt_space rt))).
Proof.
  intros Hwf [Hlog Hd Ho Ha] Hr Hin Hok Hs Ht Hmax. pose proof (rt_repr_space _ _ _ _ Hr) as Hsp.
  pose proof Hr as (ids & m & [_ _ _ Hc]). unfold space_map_write. cbn [space_map_object].
  apply runs_VERIFY; [apply negb_true_iff, Z.eqb_neq, Hwf |]. cbv zeta.
  set (sm1 := set_phys sm (set_object (sm_phys sm) (sm_object sm))).
  pose proof (sm_wf_phys sm (set_object (sm_phys sm) (sm_object sm)) Hwf : sm_wf sm1) as Hwf1.
  destruct (Z.eqb_spec (rt_space rt) 0) as [Hz | Hnz].
  - assert (l = []) as ->.
    { destruct l as [| s l]; [done |]. pose proof (canonical_bounds _ Hc) as (_ & _ & Hp). specialize (Hp ltac:(done)). lia. }
    apply runs_VERIFY; [apply Z.eqb_refl |]. exists es. split; [by destruct sm |]. split; [done |]. split; [lia |].
    rewrite Hz. replace (apply_size mt n 0) with n by (destruct mt; simpl; lia). split; try done.
    eapply lr_equiv; [by eapply log_replay_same, Hlog |]. rewrite (apply_set_equiv mt A _ _ covered_nil). destruct mt; simpl; set_solver.
  - set (e := sm_debug_entry mt syncpass txg).
    pose proof (write_log sm1 d l mt e es Hwf1 Hc Hin Hd Hmax) as Hw.
    apply runs_Ok in Hw as ((w3, sum3) & Hw & Hd3 & Ho3 & Hs3 & Ha3).
    apply bind_Ok_inv in Hw as (w1 & E1 & Hw). apply bind_Ok_inv in Hw as ((w2, sum2) & E2 & Hw).
    apply bind_Ok_inv in Hw as (w4 & E4 & Hw). injection Hw as -> ->.
    assert (smp_objsize (match mt with
              | SM_ALLOC => set_alloc (sm_phys sm1) (u64_add (smp_alloc (sm_phys sm1)) (rt_space rt))
              | SM_FREE => set_alloc (sm_phys sm1) (u64_sub (smp_alloc (sm_phys sm1)) (rt_space rt))
              end) = 8 * Z.of_nat (length es)) as Eo by (by destruct mt).
    rewrite Eo. pose proof (segs_in_total sm Hwf l Hc Hin) as Htot. pose proof (unit_pos sm ltac:(apply Hwf)) as Hu.
    pose proof (segs_entries_bound sm Hwf mt l Hin) as Hb. pose proof Hwf as [].
    assert (Z.of_nat (length (segs_entries sm mt l)) <= 2 ^ 47) by nia.
    unfold space_map_entries. rewrite (segs_spec _ _ _ _ Hr), !bind_Ok.
    rewrite (entries_count sm1 Hwf1 mt l 1 Hin ltac:(lia)) by (change (segs_entries sm1 mt l) with (segs_entries sm mt l); unfold W64; lia).
    rewrite E1, !bind_Ok, E2, bind_Ok, E4, bind_Ok.
    apply runs_VERIFY; [rewrite Ha3; apply Z.eqb_refl |]. apply runs_VERIFY; [rewrite Hs3, Hsp; apply Z.eqb_refl |].
    exists (es ++ e :: segs_entries sm mt l). split; [by destruct sm, mt |]. split; [by eexists |].
    split; [rewrite length_app; simpl length; lia |].
    assert (log_replay sm (es ++ e :: segs_entries sm mt l) (apply_set mt A (covered l)) (apply_size mt n (rt_space rt))) as Hlog'.
    { rewrite cons_middle, app_assoc, Hsp. apply segs_replay; try done. by apply debug_replay. }
    pose proof (log_replay_size _ _ _ _ Hwf Hlog').
    split; try done.
    + by eapply log_replay_same, Hlog'; destruct mt.
    + destruct mt; simpl in *; rewrite Ha.
      * by rewrite u64_add_small by (unfold is_u64; lia).
      * by rewrite u64_sub_small by (unfold is_u64; lia).
Qed.

(** The encoding of log entries loses nothing: offset, run and type come
    back from every entry [space_map_write] writes, which is never taken for a
    debug entry; so do the fields of a debug entry, which is never taken for
    an allocation. *)
Theorem sm_entry_roundtrip start run mt syncpass txg :
  0 <= start < 2 ^ 47 -> 1 <= run <= SM_RUN_MAX -> 0 <= syncpass < 2 ^ 10 -> 0 <= txg ->
  let e := sm_entry start run mt in
  let dbg := sm_debug_entry mt syncpass txg in
  (is_u64 e /\ SM_DEBUG_DECODE e = 0 /\ SM_OFFSET_DECODE e = start /\
   SM_TYPE_DECODE e = maptype_code mt /\ SM_RUN_DECODE e = run) /\
  (is_u64 dbg /\ SM_DEBUG_DECODE dbg = 1 /\ SM_DEBUG_ACTION_DECODE dbg = maptype_code mt /\
   SM_DEBUG_SYNCPASS_DECODE dbg = syncpass /\ SM_DEBUG_TXG_DECODE dbg = txg mod 2 ^ 50).
Proof. intros. split; [by apply sm_entry_decode | by apply sm_debug_entry_decode]. Qed.

(** C32: [space_map_load] of a map whose log leaves [A] allocated: the tree
    ends with [A] (type SM_ALLOC) or with the rest of the region (SM_FREE) and
    passes the space check; when a read fails, the error is returned and the
    tree is empty. Every log is read within the fuel of the model. *)
Theorem space_map_load_correct zfs_recover sm d rt mt es A n :
  sm_wf sm -> log_replay sm es A n -> dmu_holds d (sm_object sm) es ->
  sm_length sm = 8 * Z.of_nat (length es) -> sm_alloc sm = n ->
  8 * Z.of_nat (length es) < W64 - 2 ^ 32 -> rt_models oo Inv rt ∅ ->
  runs (space_map_load zfs_recover sm d rt mt) (fun '(error, rt') =>
    (error = 0 -> rt_models oo Inv rt' (match mt with SM_ALLOC => A | SM_FREE => whole sm ∖ A end) /\
       rt_space rt' = match mt with SM_ALLOC => n | SM_FREE => sm_size sm - n end) /\
    (error <> 0 -> rt_models oo Inv rt' ∅)).
Proof.
  intros Hwf Hlog Hd Hlen Ha Hmax Hm.
  eapply runs_impl; [apply (load_spec oo Init Inv zfs_recover sm Hwf d rt mt es A n); done |].
  intros (error, rt') H. destruct (Z.eqb_spec error 0); split; done.
Qed.

(** [space_map_write] of a range tree appends to the log exactly the
    entries that make it denote the new set: [A] with the segments of the tree
    allocated, or freed; [smp_objsize] and [smp_alloc] follow, and none of the
    checks of the code fails, in particular the predicted number of entries is
    the number written. *)
Theorem space_map_write_correct sm d rt mt syncpass txg es A n l :
  sm_wf sm -> sm_disk sm d es A n -> rt_repr oo Inv rt l -> Forall (seg_in sm) l ->
  apply_ok mt A (covered l) -> 0 <= syncpass < 2 ^ 10 -> 0 <= txg -> 8 * Z.of_nat (length es) < 2 ^ 63 ->
  runs (space_map_write sm d rt mt syncpass txg) (fun '(sm', d') => exists es',
    same_map sm sm' /\ es `prefix_of` es' /\
    sm_disk sm' d' es' (apply_set mt A (covered l)) (apply_size mt n (rt_space rt))).
Proof.
  intros. eapply runs_impl; [by eapply write_spec |].
  intros (sm', d') (es' & H1' & H2' & _ & H4'). by exists es'.
Qed.

(** C7: round trip: after [space_map_write] of a tree and [space_map_update],
    [space_map_load] yields, unless a read fails, exactly the allocated (or
    the free) offsets of the region after the change. *)
Theorem space_map_sync_roundtrip zfs_recover sm d rt rt0 mt lt syncpass txg es A n l :
  sm_wf sm -> sm_disk sm d es A n -> rt_repr oo Inv rt l -> Forall (seg_in sm) l ->
  apply_ok mt A (covered l) -> 0 <= syncpass < 2 ^ 10 -> 0 <= txg -> 8 * Z.of_nat (length es) < 2 ^ 63 ->
  rt_models oo Inv rt0 ∅ ->
  runs ('(sm', d') ← space_map_write sm d rt mt syncpass txg ;
        sm'' ← deref (space_map_update (Some sm')) ;
        space_map_load zfs_recover sm'' d' rt0 lt) (fun '(error, rt') =>
    error = 0 ->
    let A' := match mt with SM_ALLOC => A ∪ covered l | SM_FREE => A ∖ covered l end in
    rt_models oo Inv rt' (match lt with SM_ALLOC => A' | SM_FREE => whole sm ∖ A' end)).
Proof.
  intros Hwf Hdisk Hr Hin Hok Hs Ht Hmax Hm0.
  eapply runs_bind; [by eapply write_spec |]. intros (sm', d') (es' & Hsame & _ & Hlen & [Hlog Hd Ho Ha]).
  cbn [space_map_update deref]. rewrite bind_Ok.
  match goal with |- context [space_map_load _ ?x] => set (sm2 := x) end.
  pose proof (same_map_region _ _ Hsame : same_region sm sm2) as Hreg.
  assert (Hlog2 : log_replay sm2 es' (apply_set mt A (covered l)) (apply_size mt n (rt_space rt)))
    by (eapply log_replay_same, Hlog; by unfold same_region).
  eapply runs_impl.
  { eapply (load_spec oo Init Inv zfs_recover sm2 (sm_wf_same _ _ Hreg Hwf) d' rt0 lt es'); try done.
    unfold W64. lia. }
  intros (error, rt') H ->. destruct H as (H & _). unfold load_set, whole in *.
  destruct Hreg as (E1 & E2 & _). rewrite E1, E2 in H. by destruct mt, lt.
Qed.
End theorems.

(** ** The histogram *)

(** The space counted by buckets of sizes [2 ^ i] units. *)
Definition weight (h : list Z) : Z := foldr (fun n w => n + 2 * w) 0 h.

Lemma weight_nonneg h : Forall (fun n => 0 <= n) h -> 0 <= weight h.
Proof. induction 1; simpl; lia. Qed.

Lemma weight_cons n h : weight (n :: h) = n + 2 * weight h.
Proof. done. Qed.

Lemma weight_insert h k b x :
  h !! k = Some b -> weight (<[k := b + x]> h) = weight h + x * 2 ^ Z.of_nat k.
Proof.
  revert k. induction h as [| n h IH]; intros [| k] E; try done.
  - injection E as ->. change (2 ^ Z.of_nat 0) with 1. cbn. lia.
  - change (<[S k := ?y]> (n :: h)) with (n :: <[k := y]> h). rewrite !weight_cons, IH by done.
    rewrite Nat2Z.inj_succ, Z.pow_succ_r by lia. lia.
Qed.

Lemma weight_lookup h k b : Forall (fun n => 0 <= n) h -> h !! k = Some b -> 0 <= b /\ b * 2 ^ Z.of_nat k <= weight h.
Proof.
  intros Hh. revert k. induction Hh as [| n h Hn Hh IH]; intros [| k] E; try done.
  - injection E as ->. pose proof (weight_nonneg h Hh). rewrite weight_cons. change (2 ^ Z.of_nat 0) with 1. lia.
  - destruct (IH k E). rewrite weight_cons, Nat2Z.inj_succ, Z.pow_succ_r by lia. lia.
Qed.

Lemma histogram_add_loop_spec shift hist i idx smp :
  length smp = SPACE_MAP_HISTOGRAM_SIZE -> Forall (fun n => 0 <= n) smp -> Forall (fun n => 0 <= n) hist ->
  0 <= idx <= 31 -> 0 <= shift -> idx + shift <= i -> (idx < 31 -> i = idx + shift) ->
  weight smp + 2 ^ (i - shift) * weight hist < W64 ->
  runs (histogram_add_loop shift hist i idx smp) (fun smp' =>
    length smp' = SPACE_MAP_HISTOGRAM_SIZE /\ weight smp' = weight smp + 2 ^ (i - shift) * weight hist).
Proof.
  revert i idx smp. induction hist as [| n hist IH]; intros i idx smp Hlen Hs Hh Hidx Hsh Hi Heq Hmax.
  { simpl. split; [done | lia]. }
  inversion_clear Hh as [| ? ? Hn Hh']. cbn [histogram_add_loop]. rewrite weight_cons in *.
  pose proof (weight_nonneg hist Hh') as Hw. pose proof (weight_nonneg smp Hs) as Hws.
  apply runs_VERIFY; [apply Z.leb_le; lia |].
  destruct (lookup_lt_is_Some_2 smp (Z.to_nat idx)) as (b & Eb); [rewrite Hlen; unfold SPACE_MAP_HISTOGRAM_SIZE; lia |].
  rewrite Eb. cbn [deref]. rewrite bind_Ok. destruct (weight_lookup _ _ _ Hs Eb) as (Hb & Hbw). rewrite Z2Nat.id in Hbw by lia.
  assert (2 ^ (i - shift) = 2 ^ (i - idx - shift) * 2 ^ idx) as Ep
    by (rewrite <- Z.pow_add_r by lia; f_equal; lia).
  pose proof (Z.pow_pos_nonneg 2 idx ltac:(lia) ltac:(lia)) as P1.
  pose proof (Z.pow_pos_nonneg 2 (i - idx - shift) ltac:(lia) ltac:(lia)) as P2.
  rewrite u64_shl_small by (try lia; unfold is_u64; nia). rewrite u64_add_small by (unfold is_u64; nia).
  set (smp1 := <[Z.to_nat idx := _]> smp).
  assert (weight smp1 = weight smp + 2 ^ (i - shift) * n) as Ew
    by (unfold smp1; rewrite weight_insert by done; rewrite Z2Nat.id by lia; rewrite Ep; lia).
  assert (length smp1 = SPACE_MAP_HISTOGRAM_SIZE) as Hl1 by (unfold smp1; by rewrite length_insert).
  assert (Forall (fun n => 0 <= n) smp1) as Hs1 by (apply Forall_insert; [done | nia]).
  assert (2 ^ (i + 1 - shift) = 2 * 2 ^ (i - shift)) as Ep1
    by (rewrite <- Z.pow_succ_r by lia; f_equal; lia).
  change (Z.of_nat SPACE_MAP_HISTOGRAM_SIZE) with 32. destruct (Z.ltb_spec idx (32 - 1)).
  - apply runs_VERIFY; [apply Z.eqb_eq; lia |]. apply runs_VERIFY; [apply Z.ltb_lt; lia |].
    eapply runs_impl; [apply IH; try done; try lia; rewrite Ep1, Ew; nia |].
    intros smp' (H1 & H2). split; [done |]. rewrite H2, Ew, Ep1. lia.
  - eapply runs_impl; [apply IH; try done; try lia; rewrite Ep1, Ew; nia |].
    intros smp' (H1 & H2). split; [done |]. rewrite H2, Ew, Ep1. lia.
Qed.

(** [space_map_histogram_add] moves every counted range of the tree into
    the 32 buckets of the map without losing space: the space the buckets
    stand for, larger ranges folded into the last one, grows by what the tree
    stands for, as long as it fits in 64 bits. *)
Theorem space_map_histogram_conserves {T S : Type} (sm : space_map) (rt : range_tree T S) :
  sm_object sm <> 0 -> 0 <= sm_shift sm -> sm_db_size sm = sizeof_space_map_phys ->
  length (smp_histogram (sm_phys sm)) = SPACE_MAP_HISTOGRAM_SIZE ->
  Forall (fun n => 0 <= n) (smp_histogram (sm_phys sm)) -> Forall (fun n => 0 <= n) (rt_histogram rt) ->
  Forall (fun n => n = 0) (take (Z.to_nat (sm_shift sm)) (rt_histogram rt)) ->
  weight (smp_histogram (sm_phys sm)) + weight (drop (Z.to_nat (sm_shift sm)) (rt_histogram rt)) < W64 ->
  runs (space_map_histogram_add sm rt) (fun sm' =>
    weight (smp_histogram (sm_phys sm')) =
    weight (smp_histogram (sm_phys sm)) + weight (drop (Z.to_nat (sm_shift sm)) (rt_histogram rt))).
Proof.
  intros Ho Hsh Hdb Hlen Hs Hr Hz Hmax. unfold space_map_histogram_add. cbn [space_map_object].
  apply runs_VERIFY; [by apply negb_true_iff, Z.eqb_neq |]. rewrite Hdb, Z.eqb_refl. cbn [negb].
  apply runs_VERIFY.
  { unfold space_map_histogram_verify. apply forallb_forall. intros n Hn%list_elem_of_In.
    rewrite Forall_forall in Hz. by rewrite (Hz n Hn). }
  eapply runs_bind; [apply (histogram_add_loop_spec (sm_shift sm)); try done; try lia |].
  - by apply Forall_drop.
  - rewrite Z.sub_diag. change (2 ^ 0) with 1. lia.
  - intros h (Hl & Hw). simpl. rewrite Hw, Z.sub_diag. change (2 ^ 0) with 1. lia.
Qed.

(** ** Instances: objects as arrays of words in memory *)
#[local] Instance mem_dmu : Dmu (gmap Z (list Z)) := {|
  dmu_read d o off size :=
    (0, take (Z.to_nat (size / 8)) (drop (Z.to_nat (off / 8)) (default [] (d !! o))));
  dmu_write d o off size buf :=
    let old := default [] (d !! o) in
    Ok (<[o := take (Z.to_nat (off / 8)) old ++ take (Z.to_nat (size / 8)) buf]> d) |}.

#[local] Instance mem_dmu_laws : DmuLaws (gmap Z (list Z)).
Proof.
  exists (fun (d : gmap Z (list Z)) o ws => default [] (d !! o) = ws).
  - intros d o pre mid post error data E Er _. cbn in Er. rewrite E, !words_div, !Nat2Z.id in Er.
    rewrite drop_app_length, take_app_length in Er. by injection Er.
  - intros d o ws buf E. cbn. rewrite lookup_insert_eq, !words_div, !Nat2Z.id, E, !take_ge by lia. done.
Defined.

Definition demo_sm : space_map :=
  MkSm 4096 65536 9 0 0 7 512 sizeof_space_map_phys
    (MkPhys 7 0 0 (replicate SPACE_MAP_HISTOGRAM_SIZE 0)).

Lemma demo_sm_wf : sm_wf demo_sm.
Proof. split; cbn; try done; [by exists 8 | by exists 128 | by exists 64]. Qed.

Lemma demo_disk : sm_disk demo_sm (∅ : gmap Z (list Z)) [] ∅ 0.
Proof. split; [constructor | done..]. Qed.

(** A tree with the second kilobyte of the region. *)
Definition demo_seg_rt : range_tree (avl_tree addr) unit :=
  match range_tree_add false demo_empty 5120 1024 with Ok rt => rt | Panic => demo_empty end.

Lemma demo_seg_repr : rt_repr None demo_inv demo_seg_rt [MkSeg 5120 6144].
Proof.
  pose proof (add_models None (fun _ => True) demo_inv false demo_empty ∅ 5120 1024 demo_empty_models
    ltac:(unfold valid_range, W64; lia) ltac:(set_solver)) as H.
  apply runs_Ok in H as (rt & E & (l & Hr & Hl) & _). unfold demo_seg_rt. rewrite E.
  replace [MkSeg 5120 6144] with l; [done |].
  apply canonical_unique; [by destruct Hr as (? & ? & [_ _ _ Hc]) | |].
  - split; [unfold valid_seg, W64; simpl; lia |]. by split.
  - rewrite Hl. unfold offsets, covered. simpl. set_solver.
Qed.

Lemma demo_seg_in : Forall (seg_in demo_sm) [MkSeg 5120 6144].
Proof.
  repeat constructor; unfold unit_size; simpl; try lia; try done; [by exists 2 | by exists 2].
Qed.

Lemma sm_entry_roundtrip_witness :
  SM_OFFSET_DECODE (sm_entry 1000 32768 SM_FREE) = 1000 /\ SM_RUN_DECODE (sm_entry 1000 32768 SM_FREE) = 32768.
Proof.
  destruct (sm_entry_roundtrip 1000 32768 SM_FREE 3 77) as ((_ & _ & H1 & _ & H2) & _);
    [lia | rewrite SM_RUN_MAX_eq; lia | lia | lia |]. split; [exact H1 | exact H2].
Defined.

Lemma space_map_load_correct_witness :
  runs (space_map_load false demo_sm (∅ : gmap Z (list Z)) demo_empty SM_FREE) (fun '(error, rt') =>
    (error = 0 -> rt_models None demo_inv rt' (whole demo_sm ∖ ∅) /\ rt_space rt' = 65536 - 0) /\
    (error <> 0 -> rt_models None demo_inv rt' ∅)).
Proof.
  apply (space_map_load_correct None (fun _ => True) demo_inv false demo_sm ∅ demo_empty SM_FREE [] ∅ 0);
    [exact demo_sm_wf | constructor | reflexivity | reflexivity | reflexivity | reflexivity | exact demo_empty_models].
Defined.

Lemma space_map_write_correct_witness :
  runs (space_map_write demo_sm (∅ : gmap Z (list Z)) demo_seg_rt SM_ALLOC 1 42) (fun '(sm', d') => exists es',
    same_map demo_sm sm' /\ [] `prefix_of` es' /\
    sm_disk sm' d' es' (apply_set SM_ALLOC ∅ (covered [MkSeg 5120 6144])) (apply_size SM_ALLOC 0 (rt_space demo_seg_rt))).
Proof.
  apply (space_map_write_correct None (fun _ => True) demo_inv demo_sm ∅ demo_seg_rt SM_ALLOC 1 42 [] ∅ 0);
    [exact demo_sm_wf | exact demo_disk | exact demo_seg_repr | exact demo_seg_in | | lia | lia | reflexivity].
  intros x Hx. by apply elem_of_empty in Hx.
Defined.

Lemma space_map_sync_roundtrip_witness :
  runs ('(sm', d') ← space_map_write demo_sm (∅ : gmap Z (list Z)) demo_seg_rt SM_ALLOC 1 42 ;
        sm'' ← deref (space_map_update (Some sm')) ;
        space_map_load false sm'' d' demo_empty SM_ALLOC) (fun '(error, rt') =>
    error = 0 -> rt_models None demo_inv rt' (∅ ∪ covered [MkSeg 5120 6144])).
Proof.
  apply (space_map_sync_roundtrip None (fun _ => True) demo_inv false demo_sm ∅ demo_seg_rt demo_empty SM_ALLOC SM_ALLOC 1 42 [] ∅ 0);
    [exact demo_sm_wf | exact demo_disk | exact demo_seg_repr | exact demo_seg_in | | lia | lia | reflexivity | exact demo_empty_models].
  intros x Hx. by apply elem_of_empty in Hx.
Defined.

Lemma space_map_histogram_conserves_witness :
  runs (space_map_histogram_add demo_sm demo_seg_rt) (fun sm' => weight (smp_histogram (sm_phys sm')) = 0 + 2).
Proof.
  apply (space_map_histogram_conserves demo_sm demo_seg_rt);
    [done | cbn; lia | done | done | cbn; repeat constructor; lia | vm_compute; repeat constructor; discriminate
    | vm_compute; repeat constructor | reflexivity].
Defined.
