(* ===== verification/Metaslab.v ===== *)
(** * Block allocation in a metaslab (zfs/module/zfs/metaslab.c)

    The free space of a loaded metaslab is a range tree whose callbacks keep
    the same segments in a second tree, ordered by size; the block allocators
    pick from one tree or the other. *)
From S2P Require Import Prelude Avl OrdTree RangeTree.
Local Open Scope Z_scope.

(** [-1ULL], no block. *)
Definition NO_BLOCK : Z := W64 - 1.

Definition metaslab_rangesize_compare (r1 r2 : range_seg) : Z :=
  let rs_size1 := u64_sub (rs_end r1) (rs_start r1) in
  let rs_size2 := u64_sub (rs_end r2) (rs_start r2) in
  if rs_size1 <? rs_size2 then -1
  else if rs_size2 <? rs_size1 then 1
  else if rs_start r1 <? rs_start r2 then -1
  else if rs_start r2 <? rs_start r1 then 1
  else 0.

Definition rangesize_compar (m : seg_store) (r1 : range_seg) (i : addr) : Z :=
  match m !! i with Some r2 => metaslab_rangesize_compare r1 r2 | None => 2 end.

Definition rangesize_compar_at (m : seg_store) (i j : addr) : Z :=
  match m !! i with Some r1 => rangesize_compar m r1 j | None => 2 end.

Section metaslab.
Context {T : Type} `{!AvlOps addr T}.

(** The part of [metaslab_t] the callbacks use. *)
Record ms_alloc : Type := MkMs { ms_size_tree : T; ms_condensing : bool }.

Definition metaslab_rt_create (msp : ms_alloc) : result ms_alloc :=
  Ok (MkMs t_create (ms_condensing msp)).

Definition metaslab_rt_destroy (msp : ms_alloc) : result ms_alloc :=
  VERIFY (t_numnodes (ms_size_tree msp) =? 0) ;; Ok msp.

Definition metaslab_rt_add (m : seg_store) (rs : addr) (msp : ms_alloc) : result ms_alloc :=
  VERIFY (negb (ms_condensing msp)) ;;
  t ← t_add (rangesize_compar_at m) (ms_size_tree msp) rs ;
  Ok (MkMs t (ms_condensing msp)).

Definition metaslab_rt_remove (m : seg_store) (rs : addr) (msp : ms_alloc) : result ms_alloc :=
  VERIFY (negb (ms_condensing msp)) ;;
  t ← t_remove (ms_size_tree msp) rs ;
  Ok (MkMs t (ms_condensing msp)).

Definition metaslab_rt_vacate (msp : ms_alloc) : result ms_alloc :=
  Ok (MkMs t_create (ms_condensing msp)).

Definition metaslab_rt_ops : range_tree_ops ms_alloc :=
  MkOps metaslab_rt_create metaslab_rt_destroy metaslab_rt_add metaslab_rt_remove metaslab_rt_vacate.

(** A metaslab: its range tree (whose [rt_arg] is the size tree), its extent
    and the cursors of the allocators. *)
Record metaslab : Type := MkMetaslab {
  ms_tree : range_tree T ms_alloc;
  ms_size : Z;
  ms_lbas : list Z }.

(** A pointer with what it points at. *)
Definition get_seg (m : seg_store) (o : option addr) : result (option (addr * range_seg)) :=
  match o with
  | None => Ok None
  | Some i => s ← deref (m !! i) ; Ok (Some (i, s))
  end.

Definition metaslab_block_maxsize (msp : metaslab) : result Z :=
  rs ← get_seg (rt_segs (ms_tree msp)) (t_last (ms_size_tree (rt_arg (ms_tree msp)))) ;
  match rs with
  | None => Ok 0
  | Some (_, s) => Ok (u64_sub (rs_end s) (rs_start s))
  end.

(** The loop of [metaslab_block_picker] from the segment [o], at most [fuel]
    segments; the block found. *)
Fixpoint picker_loop (fuel : nat) (m : seg_store) (t : T) (o : option addr) (size align : Z) : result (option Z) :=
  rs ← get_seg m o ;
  match rs with
  | None => Ok None
  | Some (i, s) =>
      let offset := P2ROUNDUP (rs_start s) align in
      if u64_add offset size <=? rs_end s then Ok (Some offset)
      else
        match fuel with
        | O => Panic
        | S n => o' ← t_next t i ; picker_loop n m t o' size align
        end
  end.

(** One search from the cursor, with the tree's own comparison function. *)
Definition picker_pass (m : seg_store) (compar : range_seg -> addr -> Z) (t : T) (cursor size align : Z)
    : result (option Z) :=
  r ← t_find (compar (MkSeg cursor (u64_add cursor size))) t ;
  o ← match r with
      | inl i => Ok (Some i)
      | inr w => t_nearest t w AVL_AFTER
      end ;
  picker_loop (Z.to_nat (t_numnodes t)) m t o size align.

(** The new cursor and the block; the recursive call is made with the cursor
    0, which does not recur. *)
Definition metaslab_block_picker (m : seg_store) (compar : range_seg -> addr -> Z) (t : T)
    (cursor size align : Z) : result (Z * Z) :=
  r ← picker_pass m compar t cursor size align ;
  match r with
  | Some offset => Ok (u64_add offset size, offset)
  | None =>
      if cursor =? 0 then Ok (cursor, NO_BLOCK)
      else
        r ← picker_pass m compar t 0 size align ;
        match r with
        | Some offset => Ok (u64_add offset size, offset)
        | None => Ok (0, NO_BLOCK)
        end
  end.

Definition set_lba (msp : metaslab) (i : nat) (cursor : Z) : metaslab :=
  MkMetaslab (ms_tree msp) (ms_size msp) (<[i := cursor]> (ms_lbas msp)).

Definition set_tree (msp : metaslab) (rt : range_tree T ms_alloc) : metaslab :=
  MkMetaslab rt (ms_size msp) (ms_lbas msp).

(** [size & -size] *)
Definition low_bit (size : Z) : Z := Z.land size (u64_sub 0 size).

Definition metaslab_ff_alloc (msp : metaslab) (size : Z) : result (metaslab * Z) :=
  let align := low_bit size in
  let i := Z.to_nat (highbit64 align - 1) in
  cursor ← deref (ms_lbas msp !! i) ;
  let rt := ms_tree msp in
  '(cursor, start) ← metaslab_block_picker (rt_segs rt) (seg_compar (rt_segs rt)) (rt_root rt) cursor size align ;
  Ok (set_lba msp i cursor, start).

Section tunables.
Variables (metaslab_df_alloc_threshold metaslab_df_free_pct : Z).

(** Storing into [int]: 32 bits. *)
Definition s32 (z : Z) : Z := let u := z mod 2 ^ 32 in if u <? 2 ^ 31 then u else u - 2 ^ 32.

Definition metaslab_df_alloc (msp : metaslab) (size : Z) : result (metaslab * Z) :=
  let align := low_bit size in
  let i := Z.to_nat (highbit64 align - 1) in
  cursor ← deref (ms_lbas msp !! i) ;
  let rt := ms_tree msp in
  let size_tree := ms_size_tree (rt_arg rt) in
  max_size ← metaslab_block_maxsize msp ;
  VERIFY (negb (ms_size msp =? 0)) ;;
  let free_pct := s32 (u64 (rt_space rt * 100) / ms_size msp) in
  VERIFY (t_numnodes (rt_root rt) =? t_numnodes size_tree) ;;
  if max_size <? size then Ok (msp, NO_BLOCK)
  else if (max_size <? metaslab_df_alloc_threshold) || (free_pct <? metaslab_df_free_pct) then
    '(cursor, start) ← metaslab_block_picker (rt_segs rt) (rangesize_compar (rt_segs rt)) size_tree 0 size 1 ;
    Ok (set_lba msp i cursor, start)
  else
    '(cursor, start) ← metaslab_block_picker (rt_segs rt) (seg_compar (rt_segs rt)) (rt_root rt) cursor size 1 ;
    Ok (set_lba msp i cursor, start).
End tunables.

(** [metaslab_block_alloc] with the allocator [msop_alloc] of the class. *)
Definition metaslab_block_alloc (zfs_recover : bool) (vdev_ashift : Z)
    (msop_alloc : metaslab -> Z -> result (metaslab * Z)) (msp : metaslab) (size : Z)
    : result (metaslab * Z) :=
  VERIFY (negb (ms_condensing (rt_arg (ms_tree msp)))) ;;
  '(msp, start) ← msop_alloc msp size ;
  if negb (start =? NO_BLOCK) then
    VERIFY (P2PHASE start (u64_shl 1 vdev_ashift) =? 0) ;;
    VERIFY (P2PHASE size (u64_shl 1 vdev_ashift) =? 0) ;;
    VERIFY (u64_sub (rt_space (ms_tree msp)) size <=? ms_size msp) ;;
    rt ← range_tree_remove zfs_recover (ms_tree msp) start size ;
    Ok (set_tree msp rt, start)
  else Ok (msp, start).
End metaslab.
Arguments ms_alloc T : clear implicits.
Arguments metaslab T : clear implicits.
