(* ===== verification/MetaslabSpec.v ===== *)
(** * The size tree mirrors the range tree

    The callbacks of the metaslab satisfy what the range tree relies on
    ([OpsLaws]), with the invariant that the size tree holds exactly the
    segments of the range tree, ordered by size and then by offset. *)
From S2P Require Import Prelude Avl AvlSpec OrdTree RangeTree Segments RangeTreeSpec RangeTreeThms Metaslab.
From stdpp Require Import propset.
Local Open Scope Z_scope.

Definition size_lt (a b : range_seg) : Prop :=
  seg_size a < seg_size b \/ (seg_size a = seg_size b /\ rs_start a < rs_start b).

Fixpoint size_sorted (l : list range_seg) : Prop :=
  match l with
  | [] => True
  | s :: l' => valid_seg s /\ Forall (size_lt s) l' /\ size_sorted l'
  end.

Lemma size_sorted_app l1 l2 :
  size_sorted (l1 ++ l2) <->
  size_sorted l1 /\ size_sorted l2 /\ forall a b, a ∈ l1 -> b ∈ l2 -> size_lt a b.
Proof.
  induction l1 as [| s l1 IH]; simpl.
  - split; [intros; split_and!; set_solver | tauto].
  - rewrite IH, Forall_app, !Forall_forall. split.
    + intros (Hv & (H1 & H2) & Hc1 & Hc2 & H). split_and!; try done.
      intros a b [-> | Ha]%elem_of_cons Hb; auto.
    + intros ((Hv & H1 & Hc1) & Hc2 & H). split_and!; try done; intros; apply H; set_solver.
Qed.

Lemma size_sorted_valid l s : size_sorted l -> s ∈ l -> valid_seg s.
Proof.
  intros Hc (l1 & l2 & ->)%list_elem_of_split. apply size_sorted_app in Hc as (_ & (? & _) & _). done.
Qed.

(** A new segment with its own start has one place in the order. *)
Lemma size_split l s :
  size_sorted l -> Forall (fun a => rs_start a <> rs_start s) l ->
  exists lo hi, l = lo ++ hi /\ Forall (fun a => size_lt a s) lo /\ Forall (size_lt s) hi.
Proof.
  induction l as [| a l IH]; intros Hc Hne; [by exists [], [] |].
  destruct Hc as (Hv & Hf & Hc). inversion_clear Hne as [| ? ? Ha Hne']. unfold size_lt in *.
  destruct (decide (seg_size a < seg_size s \/ (seg_size a = seg_size s /\ rs_start a < rs_start s))) as [Hlt | Hge].
  - destruct (IH Hc Hne') as (lo & hi & -> & Hlo & Hhi). exists (a :: lo), hi. split_and!; auto.
  - exists [], (a :: l). split_and!; auto. constructor; [lia |].
    eapply Forall_impl; [exact Hf |]. simpl. intros b Hb. lia.
Qed.

Lemma size_sorted_insert lo s hi :
  size_sorted (lo ++ hi) -> valid_seg s -> Forall (fun a => size_lt a s) lo -> Forall (size_lt s) hi ->
  size_sorted (lo ++ s :: hi).
Proof.
  rewrite !size_sorted_app, !Forall_forall. simpl. rewrite Forall_forall. intros (H1 & H2 & H3) Hv Hlo Hhi.
  split_and!; auto. intros a b Ha [-> | Hb]%elem_of_cons; auto.
Qed.

Lemma size_sorted_delete lo s hi : size_sorted (lo ++ s :: hi) -> size_sorted (lo ++ hi).
Proof.
  rewrite !size_sorted_app. simpl. rewrite Forall_forall. intros (H1 & (Hv & H2 & H3) & H4). split_and!; auto. set_solver.
Qed.

Lemma rangesize_compare_lt a b : valid_seg a -> valid_seg b ->
  size_lt a b -> metaslab_rangesize_compare a b = -1 /\ metaslab_rangesize_compare b a = 1.
Proof.
  intros Ha Hb Hlt. unfold metaslab_rangesize_compare. rewrite !seg_size_u64 by done.
  unfold size_lt in Hlt. split; case_tests; done || lia.
Qed.

Section callbacks.
Context {T : Type} `{!AvlOps addr T} `{!AvlLaws addr T}.
Implicit Types (m : seg_store) (X : gset addr) (a : ms_alloc T).

Definition ms_init a : Prop := ms_condensing a = false.

Definition ms_inv m X a : Prop :=
  ms_condensing a = false /\ t_wf (ms_size_tree a) /\ list_to_set (t_elems (ms_size_tree a)) = X /\
  exists l, holds m (t_elems (ms_size_tree a)) l /\ size_sorted l.

Lemma ms_inv_empty m : ms_inv m ∅ (MkMs t_create false).
Proof.
  destruct law_create as (Hwf & He). unfold ms_inv. simpl. rewrite He. split_and!; try done.
  exists []. split; [constructor | done].
Qed.

Lemma ms_inv_add m X a i s :
  ms_inv m X a -> m !! i = Some s -> valid_seg s -> i ∉ X -> Z.of_nat (size X) + 1 < W64 ->
  (forall j s', j ∈ X -> m !! j = Some s' -> rs_start s' <> rs_start s) ->
  runs (metaslab_rt_add m i a) (fun a' => ms_inv m ({[i]} ∪ X) a').
Proof.
  intros (Hco & Hwf & HX & l & Hh & Hs) Hi Hv HiX Hsz Hst. unfold metaslab_rt_add. rewrite Hco.
  apply runs_VERIFY; [done |]. set (ids := t_elems (ms_size_tree a)) in *.
  assert (Forall (fun b => rs_start b <> rs_start s) l) as Hne.
  { apply Forall_forall. intros b (n & Hn)%list_elem_of_lookup_1.
    destruct (Forall2_lookup_r _ _ _ _ _ Hh Hn) as (j & Hj & Hb). apply (Hst j b); [| done].
    apply list_elem_of_lookup_2 in Hj. set_solver. }
  destruct (size_split l s Hs Hne) as (lo & hi & -> & Hlo & Hhi).
  pose proof Hh as (ilo & ihi & E & H1 & H2)%holds_app_r.
  assert (partitions (rangesize_compar_at m i) ilo [] ihi) as Hp.
  { assert (Hval : forall b, b ∈ lo ++ hi -> valid_seg b) by (intros; by eapply size_sorted_valid).
    rewrite Forall_forall in Hlo, Hhi.
    split_and!; [| constructor |].
    - apply (holds_Forall m ilo lo (fun b => metaslab_rangesize_compare s b = 1)); [done | |].
      + apply Forall_forall. intros b Hb. apply rangesize_compare_lt; auto. apply Hval. set_solver.
      + intros j b Hj Hb. unfold rangesize_compar_at, rangesize_compar. by rewrite Hi, Hj.
    - apply (holds_Forall m ihi hi (fun b => metaslab_rangesize_compare s b = -1)); [done | |].
      + apply Forall_forall. intros b Hb. apply rangesize_compare_lt; auto. apply Hval. set_solver.
      + intros j b Hj Hb. unfold rangesize_compar_at, rangesize_compar. by rewrite Hi, Hj. }
  destruct (law_find _ (ms_size_tree a) ilo [] ihi Hwf E Hp) as (w & Hf & Hg).
  unfold t_add. rewrite Hf, bind_Ok.
  destruct (law_insert (ms_size_tree a) i w ilo ihi Hwf Hg) as (t' & -> & Hwf' & E').
  - rewrite <- E. set_solver.
  - rewrite law_numnodes by done. fold ids. rewrite <- HX, size_list_to_set in Hsz by by apply law_nodup. done.
  - simpl. unfold ms_inv. simpl. rewrite E'. split_and!; try done; [rewrite <- HX, E; set_solver |].
    exists (lo ++ s :: hi). split; [| by apply size_sorted_insert].
    apply Forall2_app; [done |]. by constructor.
Qed.

Lemma ms_inv_remove m X a i :
  ms_inv m X a -> i ∈ X -> runs (metaslab_rt_remove m i a) (fun a' => ms_inv m (X ∖ {[i]}) a').
Proof.
  intros (Hco & Hwf & HX & l & Hh & Hs) Hi. unfold metaslab_rt_remove. rewrite Hco.
  apply runs_VERIFY; [done |]. assert (i ∈ t_elems (ms_size_tree a)) as Hin by set_solver.
  apply list_elem_of_split in Hin as (l1 & l2 & E).
  destruct (law_remove (ms_size_tree a) i l1 l2 Hwf E) as (t' & -> & Hwf' & E').
  pose proof (law_nodup _ Hwf) as Hn. rewrite E in Hn. rewrite E in Hh.
  apply Forall2_app_inv_l in Hh as (k1 & k2' & H1 & H2 & ->). apply Forall2_cons_inv_l in H2 as (s & k2 & Hsi & H2 & ->).
  rewrite bind_Ok. simpl. unfold ms_inv. simpl. rewrite E'. split_and!; try done.
  - rewrite <- HX, E. rewrite <- Permutation_middle in Hn. apply NoDup_cons in Hn as (Hn & _). set_solver.
  - exists (k1 ++ k2). split; [by apply Forall2_app | by eapply size_sorted_delete].
Qed.

(** The callbacks of metaslab.c are what a range tree may be created with. *)
#[global] Instance metaslab_ops_laws : OpsLaws (Some metaslab_rt_ops) ms_init ms_inv.
Proof.
  split; simpl.
  - intros a Ha. unfold metaslab_rt_create. simpl. rewrite Ha. apply ms_inv_empty.
  - intros m a (_ & Hwf & HX & _). unfold metaslab_rt_destroy. rewrite law_numnodes by done.
    destruct (t_elems (ms_size_tree a)) as [| i l]; [done |]. set_solver.
  - intros m X a (Hco & _) . unfold metaslab_rt_vacate. simpl. rewrite Hco. intros; apply ms_inv_empty.
  - intros m m' X a Hm (Hco & Hwf & HX & l & Hh & Hs). split_and!; try done. exists l. split; [| done].
    eapply holds_agree; [| done]. intros i Hi. apply Hm. set_solver.
  - apply ms_inv_add.
  - apply ms_inv_remove.
Qed.
End callbacks.

(** [x & -x] is the largest power of two that divides [x]. *)
Lemma land_opp_pos p : exists k, 0 <= k /\ Z.land (Z.pos p) (- Z.pos p) = 2 ^ k /\ (2 ^ k | Z.pos p).
Proof.
  induction p as [p _ | p IH |].
  - exists 0. split; [done |]. split; [| by apply Z.divide_1_l].
    replace (Z.pos p~1) with (2 * Z.pos p + 1) by lia.
    replace (- (2 * Z.pos p + 1)) with (2 * Z.lnot (Z.pos p) + 1) by (unfold Z.lnot; lia).
    apply Z.bits_inj'. intros n Hn. rewrite Z.land_spec. destruct (Z.eq_dec n 0) as [-> | ?].
    + by rewrite !Z.testbit_odd_0.
    + replace n with (Z.succ (n - 1)) by lia. rewrite !Z.testbit_odd_succ by lia.
      rewrite Z.lnot_spec, andb_negb_r by lia.
      change (2 ^ 0) with (2 * 0 + 1). by rewrite Z.testbit_odd_succ, Z.bits_0 by lia.
  - destruct IH as (k & Hk & E & [c Hc]). exists (k + 1). split; [lia |].
    replace (Z.pos p~0) with (2 * Z.pos p) by lia. rewrite Z.pow_add_r by lia. change (2 ^ 1) with 2. split.
    + replace (- (2 * Z.pos p)) with (2 * - Z.pos p) by lia.
      apply Z.bits_inj'. intros n Hn. rewrite Z.land_spec, (Z.mul_comm _ 2). destruct (Z.eq_dec n 0) as [-> | ?].
      * by rewrite !Z.testbit_even_0.
      * replace n with (Z.succ (n - 1)) by lia. rewrite !Z.testbit_even_succ by lia. by rewrite <- E, Z.land_spec.
    + exists c. lia.
  - exists 0. done.
Qed.

Lemma low_bit_spec size : 0 < size < W64 -> exists k, 0 <= k < 64 /\ low_bit size = 2 ^ k /\ (2 ^ k | size).
Proof.
  intros Hs. destruct size as [| p |]; [lia | | lia].
  destruct (land_opp_pos p) as (k & Hk & E & Hd). exists k.
  assert (2 ^ k <= Z.pos p) as Hle by (apply Z.divide_pos_le; [lia | done]).
  assert (k < 64). { apply (Z.pow_lt_mono_r_iff 2); [lia | lia |]. unfold W64 in Hs. lia. }
  split; [lia |]. split; [| done]. unfold low_bit, u64_sub, u64. rewrite Z.sub_0_l.
  rewrite <- E. replace (- Z.pos p mod W64) with (Z.land (- Z.pos p) (Z.ones 64)) by (by rewrite Z.land_ones).
  rewrite Z.land_assoc, E. apply Z.land_ones_low; [lia |]. rewrite Z.log2_pow2; lia.
Qed.

(** ** The block picker *)

(** Bounds that keep the arithmetic of the picker within 64 bits. *)
Definition LIMIT : Z := 2 ^ 62.

Definition fits (size align : Z) (s : range_seg) : Prop := P2ROUNDUP (rs_start s) align + size <= rs_end s.
#[global] Instance fits_dec size align s : Decision (fits size align s).
Proof. unfold fits. apply _. Defined.

(** The first aligned block of [size] in a list of segments. *)
Fixpoint first_fit (size align : Z) (l : list range_seg) : option Z :=
  match l with
  | [] => None
  | s :: l' => if decide (fits size align s) then Some (P2ROUNDUP (rs_start s) align) else first_fit size align l'
  end.

Lemma first_fit_Some size align l off :
  first_fit size align l = Some off ->
  exists l1 s l2, l = l1 ++ s :: l2 /\ Forall (fun a => ~ fits size align a) l1 /\ fits size align s /\
    off = P2ROUNDUP (rs_start s) align.
Proof.
  induction l as [| s l IH]; [done |]. simpl. case_decide as Hf.
  - intros [= <-]. by exists [], s, l.
  - intros (l1 & t & l2 & -> & Hl & Ht & ->)%IH. exists (s :: l1), t, l2. split_and!; auto.
Qed.

Lemma first_fit_None size align l : first_fit size align l = None -> Forall (fun a => ~ fits size align a) l.
Proof. induction l as [| s l IH]; [constructor |]. simpl. case_decide; [done |]. constructor; auto. Qed.

(** A segment splits the order in three; at most one segment equals it. *)
Lemma size_split3 l q :
  size_sorted l ->
  exists lo eq hi, l = lo ++ eq ++ hi /\ Forall (fun a => size_lt a q) lo /\ Forall (fun a => a = q) eq /\
    Forall (size_lt q) hi /\ (length eq <= 1)%nat.
Proof.
  induction l as [| a l IH]; intros Hc; [by exists [], [], []; split_and!; auto; simpl; lia |].
  destruct Hc as (Hv & Hf & Hc). unfold size_lt in *.
  destruct (decide (seg_size a < seg_size q \/ (seg_size a = seg_size q /\ rs_start a < rs_start q))) as [Hlt | Hge].
  { destruct (IH Hc) as (lo & eq & hi & -> & Hlo & Heq & Hhi & Hl). exists (a :: lo), eq, hi. split_and!; auto. }
  destruct (decide (a = q)) as [-> | Hne].
  - exists [], [q], l. split_and!; auto.
  - exists [], [], (a :: l). split_and!; auto. constructor.
    + destruct a, q; unfold seg_size in *; simpl in *.
      assert (rs_start <> rs_start0 \/ rs_end <> rs_end0) by (destruct (decide (rs_start = rs_start0)); [right | left]; congruence). lia.
    + eapply Forall_impl; [exact Hf |]. simpl. intros b Hb.
      assert (a <> q -> ~ (seg_size a = seg_size q /\ rs_start a = rs_start q)) as Hx.
      { intros Hn (E1 & E2). apply Hn. destruct a, q; unfold seg_size in *; simpl in *. f_equal; lia. }
      specialize (Hx Hne). lia.
Qed.

Section picker.
Context {T : Type} `{!AvlOps addr T} `{!AvlLaws addr T}.
Context (m : seg_store) (t : T) (l : list range_seg) (size align k : Z).
Context (Hwf : t_wf t) (Hh : holds m (t_elems t) l) (Hval : Forall valid_seg l).
Context (Hlim : Forall (fun s => rs_end s <= LIMIT) l) (Hsize : 0 < size <= LIMIT).
Context (Hk : 0 <= k <= 62) (Halign : align = 2 ^ k).

Lemma picker_loop_spec fuel l1 l2 i1 i2 :
  t_elems t = i1 ++ i2 -> l = l1 ++ l2 -> holds m i2 l2 -> (length l2 <= fuel)%nat ->
  picker_loop fuel m t (head i2) size align = Ok (first_fit size align l2).
Proof.
  revert l1 l2 i1 i2. induction fuel as [| n IH]; intros l1 l2 i1 i2 Ei El Hh2 Hf.
  { destruct l2; [| simpl in Hf; lia]. by apply Forall2_nil_inv_r in Hh2 as ->. }
  destruct l2 as [| s l2]; [by apply Forall2_nil_inv_r in Hh2 as -> |].
  apply holds_cons_r in Hh2 as (i & i2' & -> & Hi & Hh2). cbn [picker_loop head get_seg first_fit].
  rewrite Hi. cbn [deref]. rewrite !bind_Ok.
  assert (valid_seg s /\ rs_end s <= LIMIT) as (Hv & Hl).
  { rewrite Forall_forall in Hval, Hlim. split; [apply Hval | apply Hlim]; rewrite El; set_solver. }
  assert (2 ^ k <= 2 ^ 62) by (apply Z.pow_le_mono_r; lia).
  unfold valid_seg, LIMIT in *. destruct (P2ROUNDUP_bounds (rs_start s) k) as (Hr & _); [lia | lia |].
  rewrite <- Halign in Hr. rewrite u64_add_small by (unfold is_u64, W64; lia). unfold fits.
  case_decide; case_tests; try done; try lia.
  rewrite (law_next t i i1 i2' Hwf Ei), bind_Ok.
  apply (IH (l1 ++ [s]) l2 (i1 ++ [i]) i2'); [by rewrite <- app_assoc | by rewrite <- app_assoc | done | simpl in Hf; lia].
Qed.

(** Whatever the comparison function, a pass takes the first fit from some
    point of the tree on: after the smaller segments, and after some of those
    that compare equal, but not all of them. *)
Lemma picker_pass_spec (compar : range_seg -> addr -> Z) cursor lo eq hi ilo ieq ihi :
  0 <= cursor <= LIMIT ->
  l = lo ++ eq ++ hi -> t_elems t = ilo ++ ieq ++ ihi ->
  holds m ilo lo -> holds m ieq eq -> holds m ihi hi ->
  partitions (compar (MkSeg cursor (cursor + size))) ilo ieq ihi ->
  exists pre suf, l = lo ++ pre ++ suf /\ picker_pass m compar t cursor size align = Ok (first_fit size align suf) /\
    ((pre = [] /\ eq = []) \/ exists s post, eq = pre ++ s :: post).
Proof.
  intros Hc El Ei Hlo Heq Hhi Hp. unfold picker_pass, LIMIT in *. rewrite u64_add_small by (unfold is_u64, W64; lia).
  pose proof (law_find _ t ilo ieq ihi Hwf Ei Hp) as Hf.
  assert (Hfuel : forall suf : list range_seg, (exists pre, l = pre ++ suf) -> (length suf <= Z.to_nat (t_numnodes t))%nat).
  { intros suf (pre & E). rewrite law_numnodes, (holds_length _ _ _ Hh), E, length_app by done. lia. }
  destruct ieq as [| x ieq].
  - apply Forall2_nil_inv_l in Heq as ->. destruct Hf as (w & -> & Hg). rewrite bind_Ok.
    rewrite (law_nearest t w ilo ihi AVL_AFTER Hwf Hg), bind_Ok. exists [], hi. simpl in *.
    split; [done |]. split; [| by left]. apply (picker_loop_spec _ lo hi ilo ihi); auto. apply Hfuel. eauto.
  - destruct Hf as (i & Hi & ->). rewrite !bind_Ok.
    apply list_elem_of_split in Hi as (j1 & j2 & Ej). rewrite Ej in *.
    pose proof Heq as (e1 & e2' & H1 & H2 & Ee)%Forall2_app_inv_l. apply Forall2_cons_inv_l in H2 as (s & e2 & Hs & H2 & ->).
    exists e1, (s :: e2 ++ hi). rewrite Ee in El |- *. split; [by rewrite El, <- app_assoc |]. split.
    + apply (picker_loop_spec _ (lo ++ e1) (s :: e2 ++ hi) (ilo ++ j1) (i :: j2 ++ ihi)).
      * rewrite Ei, <- !app_assoc. done.
      * rewrite El, <- !app_assoc. done.
      * constructor; [done | by apply Forall2_app].
      * apply Hfuel. exists (lo ++ e1). rewrite El, <- !app_assoc. done.
    + right. by exists s, e2.
Qed.

(** What a pass guarantees. *)
Definition pass_ok (compar : range_seg -> addr -> Z) (cursor : Z) : Prop :=
  exists pre suf, l = pre ++ suf /\ picker_pass m compar t cursor size align = Ok (first_fit size align suf) /\
    (cursor = 0 -> Forall (fun a => ~ fits size align a) pre).

Lemma fits_size s : valid_seg s -> rs_end s <= LIMIT -> fits size align s -> size <= seg_size s.
Proof.
  intros Hv Hl Hf. unfold fits, valid_seg, seg_size, LIMIT in *.
  destruct (P2ROUNDUP_bounds (rs_start s) k) as (Hr & _); [lia | lia |]. rewrite <- Halign in Hr. lia.
Qed.

Lemma pass_by_offset cursor :
  canonical l -> 0 <= cursor <= LIMIT -> pass_ok (seg_compar m) cursor.
Proof.
  intros Hc Hcur. destruct (canonical_split l (MkSeg cursor (cursor + size))) as (lo & eq & hi & El & Hlo & Heq & Hhi);
    [done | simpl; lia |].
  pose proof Hh as Hh'. rewrite El in Hh'. apply holds_app_r in Hh' as (ilo & k1 & Ei & H1 & Hh').
  apply holds_app_r in Hh' as (ieq & ihi & -> & H2 & H3).
  destruct (picker_pass_spec (seg_compar m) cursor lo eq hi ilo ieq ihi) as (pre & suf & E & Hp & Hpre); try done.
  { apply (seg_compar_partitions m _ _ _ _ lo eq hi); try done; [by rewrite <- El | simpl; lia]. }
  exists (lo ++ pre), suf. rewrite <- app_assoc. split; [done |]. split; [done |]. intros ->.
  apply Forall_forall. intros a Ha Hf. rewrite Forall_forall in Hval, Hlim, Hlo, Heq.
  assert (a ∈ l) as Hal by (rewrite E; set_solver). pose proof (Hval a Hal) as Hv. unfold valid_seg in Hv.
  apply fits_size in Hf; [| by apply Hval | by apply Hlim]. unfold seg_size in Hf.
  apply elem_of_app in Ha as [Ha | Ha]; [specialize (Hlo a Ha); simpl in Hlo; lia |].
  destruct Hpre as [[-> _] | (s & post & Ee)]; [set_solver |].
  assert (s ∈ eq) as Hs by (rewrite Ee; set_solver). specialize (Heq s Hs). unfold overlaps in Heq. simpl in Heq.
  rewrite El in Hc. apply canonical_app in Hc as (_ & (Hc & _)%canonical_app & _). rewrite Ee in Hc.
  apply canonical_app in Hc as (_ & _ & Hc). specialize (Hc a s Ha ltac:(set_solver)). unfold before_seg in Hc. lia.
Qed.

Lemma pass_by_size : size_sorted l -> pass_ok (rangesize_compar m) 0.
Proof.
  intros Hs. set (q := MkSeg 0 size).
  assert (valid_seg q /\ seg_size q = size) as (Hq & Eq).
  { unfold q, valid_seg, seg_size, LIMIT, W64 in *. simpl. lia. }
  destruct (size_split3 l q Hs) as (lo & eq & hi & El & Hlo & Heq & Hhi & Hlen).
  pose proof Hh as Hh'. rewrite El in Hh'. apply holds_app_r in Hh' as (ilo & k1 & Ei & H1 & Hh').
  apply holds_app_r in Hh' as (ieq & ihi & -> & H2 & H3).
  pose proof (proj1 (Forall_forall _ _) Hval) as Hval'.
  assert (Hcmp : forall c ids k0, holds m ids k0 -> (forall s, s ∈ k0 -> metaslab_rangesize_compare q s = c) ->
    Forall (fun i => rangesize_compar m q i = c) ids).
  { intros c ids k0 H Hc. apply (holds_Forall m ids k0 (fun s => metaslab_rangesize_compare q s = c)); [done | by apply Forall_forall |].
    intros i s Hi Hs'. unfold rangesize_compar. rewrite Hi. exact Hs'. }
  rewrite Forall_forall in Hlo, Heq, Hhi.
  destruct (picker_pass_spec (rangesize_compar m) 0 lo eq hi ilo ieq ihi) as (pre & suf & E & Hp & Hpre); try done.
  - split_and!; [apply (Hcmp 1 ilo lo) | apply (Hcmp 0 ieq eq) | apply (Hcmp (-1) ihi hi)]; try done; intros s Hin.
    + apply rangesize_compare_lt; [apply Hval'; rewrite El; set_solver | done | by apply Hlo].
    + specialize (Heq s Hin). subst s. unfold metaslab_rangesize_compare. case_tests; done || lia.
    + apply rangesize_compare_lt; [done | apply Hval'; rewrite El; set_solver | by apply Hhi].
  - exists (lo ++ pre), suf. rewrite <- app_assoc. split; [done |]. split; [done |]. intros _.
    assert (pre = []) as ->.
    { destruct Hpre as [[-> _] | (s & post & Ee)]; [done |]. rewrite Ee, length_app in Hlen. simpl in Hlen.
      destruct pre; [done | simpl in Hlen; lia]. }
    rewrite app_nil_r. apply Forall_forall. intros a Ha Hf. rewrite Forall_forall in Hlim.
    assert (a ∈ l) as Hal by (rewrite El; set_solver). pose proof (Hval' a Hal) as Hv.
    apply fits_size in Hf; [| done | by apply Hlim]. specialize (Hlo a Ha). unfold size_lt, valid_seg, q in *. simpl in *. lia.
Qed.

(** The picker takes a block from a segment that has room for it, and fails
    only when no segment has. *)
Lemma block_picker_spec compar cursor :
  0 <= cursor <= LIMIT -> pass_ok compar cursor -> pass_ok compar 0 ->
  exists c' off, metaslab_block_picker m compar t cursor size align = Ok (c', off) /\ 0 <= c' <= LIMIT /\
    ((exists s, s ∈ l /\ fits size align s /\ off = P2ROUNDUP (rs_start s) align /\ off < NO_BLOCK) \/
     (off = NO_BLOCK /\ Forall (fun a => ~ fits size align a) l)).
Proof.
  intros Hcur (pre & suf & E & Hp & Hpre) (pre0 & suf0 & E0 & Hp0 & Hpre0). specialize (Hpre0 eq_refl).
  assert (Hoff : forall pre suf off, l = pre ++ suf -> first_fit size align suf = Some off ->
    0 <= u64_add off size <= LIMIT /\
    exists s, s ∈ l /\ fits size align s /\ off = P2ROUNDUP (rs_start s) align /\ off < NO_BLOCK).
  { intros pre' suf' off E' (l1 & s & l2 & -> & _ & Hf & ->)%first_fit_Some.
    assert (s ∈ l) as Hs by (rewrite E'; set_solver).
    pose proof (proj1 (Forall_forall _ _) Hval s Hs) as Hv. pose proof (proj1 (Forall_forall _ _) Hlim s Hs) as Hl.
    simpl in Hl. unfold fits, LIMIT, NO_BLOCK, W64, valid_seg in *.
    destruct (P2ROUNDUP_bounds (rs_start s) k) as (Hr & _); [lia | lia |]. rewrite <- Halign in Hr.
    rewrite u64_add_small by (unfold is_u64, W64; lia). split; [lia |]. exists s. split_and!; try done. lia. }
  assert (Hnone : forall pre suf, l = pre ++ suf -> first_fit size align suf = None ->
    Forall (fun a => ~ fits size align a) pre -> Forall (fun a => ~ fits size align a) l).
  { intros pre' suf' E' Hn%first_fit_None Hp'. rewrite E'. by apply Forall_app. }
  unfold metaslab_block_picker. rewrite Hp, bind_Ok. destruct (first_fit size align suf) as [off |] eqn:Ef.
  { destruct (Hoff _ _ _ E Ef). eexists _, _. split; [done |]. split; [done | by left]. }
  destruct (Z.eqb_spec cursor 0) as [-> | Hc].
  - eexists _, _. split; [done |]. split; [done |]. right. split; [done |]. eapply Hnone; [exact E | exact Ef | by apply Hpre].
  - rewrite Hp0, bind_Ok. destruct (first_fit size align suf0) as [off |] eqn:Ef0.
    + destruct (Hoff _ _ _ E0 Ef0). eexists _, _. split; [done |]. split; [done | by left].
    + eexists _, _. split; [done |]. split; [done |]. right. split; [done |]. eapply Hnone; [exact E0 | exact Ef0 | done].
Qed.
End picker.
