(* ===== verification/MetaslabThms.v ===== *)
(** * What block allocation in a metaslab promises *)
From S2P Require Import Prelude Avl AvlSpec OrdTree RangeTree Segments RangeTreeSpec RangeTreeThms Metaslab MetaslabSpec.
From stdpp Require Import propset.
Local Open Scope Z_scope.

Section theorems.
Context {T : Type} `{!AvlOps addr T} `{!AvlLaws addr T}.
Implicit Types (msp : metaslab T) (l : list range_seg) (rt : range_tree T (ms_alloc T)).

Notation ms_repr := (rt_repr (Some metaslab_rt_ops) ms_inv).
Notation ms_models := (rt_models (Some metaslab_rt_ops) ms_inv).

Lemma holds_unique m ids l1 l2 : holds m ids l1 -> holds m ids l2 -> l1 = l2.
Proof.
  intros H. revert l2. induction H as [| i s ids l Hi H IH]; intros l2 H2; inversion_clear H2 as [| ? s' ? l' Hi' H'].
  - done.
  - f_equal; [congruence | auto].
Qed.

(** The size tree of a represented range tree. *)
Lemma size_tree_repr rt l :
  ms_repr rt l ->
  exists k, t_wf (ms_size_tree (rt_arg rt)) /\ holds (rt_segs rt) (t_elems (ms_size_tree (rt_arg rt))) k /\
    size_sorted k /\ Permutation k l /\ ms_condensing (rt_arg rt) = false /\
    t_numnodes (ms_size_tree (rt_arg rt)) = Z.of_nat (length l) /\ t_numnodes (rt_root rt) = Z.of_nat (length l).
Proof.
  intros (ids & m & [Hat Hh Hd Hc]). pose proof (rt_at_NoDup _ _ _ _ _ _ _ _ Hat) as Hn.
  destruct Hat as [Hwf He Hm Hi _ _ _]. rewrite Hm. destruct Hi as (Hco & Hwf2 & HX & k & Hk & Hs).
  assert (Permutation ids (t_elems (ms_size_tree (rt_arg rt)))) as HP.
  { apply NoDup_Permutation; [done | by apply law_nodup |]. intros i.
    rewrite <- (elem_of_list_to_set (C := gset addr)), <- (elem_of_list_to_set (C := gset addr) _ (t_elems _)). by rewrite HX. }
  destruct (holds_Permutation _ _ _ _ HP Hh) as (k' & HPk & Hk'). rewrite (holds_unique _ _ _ _ Hk Hk') in *.
  exists k'. split_and!; try done.
  - by rewrite law_numnodes, (holds_length _ _ _ Hk'), HPk.
  - by rewrite law_numnodes, He, (holds_length _ _ _ Hh).
Qed.

Lemma size_sorted_last l s a : size_sorted (l ++ [s]) -> a ∈ l ++ [s] -> seg_size a <= seg_size s.
Proof.
  rewrite size_sorted_app. intros (_ & _ & H) [Ha | ->%list_elem_of_singleton]%elem_of_app; [| lia].
  specialize (H a s Ha ltac:(set_solver)). unfold size_lt in H. lia.
Qed.

Lemma maxsize_spec msp l :
  ms_repr (ms_tree msp) l ->
  exists n, metaslab_block_maxsize msp = Ok n /\ Forall (fun s => seg_size s <= n) l /\
    (l = [] -> n = 0) /\ (l <> [] -> exists s, s ∈ l /\ n = seg_size s).
Proof.
  intros Hr. destruct (size_tree_repr _ _ Hr) as (k & Hwf & Hk & Hs & HP & _). unfold metaslab_block_maxsize.
  rewrite law_last by done. destruct k as [| s k _] using rev_ind.
  - apply Forall2_nil_inv_r in Hk as ->. apply Permutation_nil_l in HP as <-. by exists 0.
  - apply holds_app_r in Hk as (i1 & i2 & -> & _ & H2). apply holds_cons_r in H2 as (i & i3 & -> & Hi & ->%Forall2_nil_inv_r).
    rewrite last_snoc. cbn [get_seg]. rewrite Hi. cbn [deref]. rewrite !bind_Ok.
    assert (valid_seg s) as Hv by (eapply size_sorted_valid; [exact Hs | set_solver]).
    exists (seg_size s). split; [by rewrite seg_size_u64 |]. split.
    + rewrite <- HP. apply Forall_forall. intros a. by apply size_sorted_last.
    + split; [intros -> | intros _].
      * exfalso. apply Permutation_nil_r in HP. by destruct k.
      * exists s. split; [rewrite <- HP; set_solver | done].
Qed.

(** The private tree of a metaslab always mirrors its range tree: the same
    segments, ordered by size, so that [metaslab_block_maxsize] is the size of
    the largest free segment and the two trees have the same number of nodes. *)
Theorem metaslab_size_tree_mirror msp l :
  ms_repr (ms_tree msp) l ->
  (exists k, holds (rt_segs (ms_tree msp)) (t_elems (ms_size_tree (rt_arg (ms_tree msp)))) k /\
     size_sorted k /\ Permutation k l) /\
  t_numnodes (ms_size_tree (rt_arg (ms_tree msp))) = t_numnodes (rt_root (ms_tree msp)) /\
  exists n, metaslab_block_maxsize msp = Ok n /\ Forall (fun s => seg_size s <= n) l /\
    (l = [] -> n = 0) /\ (l <> [] -> exists s, s ∈ l /\ n = seg_size s).
Proof.
  intros Hr. destruct (size_tree_repr _ _ Hr) as (k & _ & Hk & Hs & HP & _ & Hn1 & Hn2). split; [by exists k |].
  split; [lia |]. by apply maxsize_spec.
Qed.

(** ** Allocators *)
Record ms_ok (ashift : Z) msp l : Prop := {
  mso_repr : ms_repr (ms_tree msp) l;
  mso_limit : Forall (fun s => rs_end s <= LIMIT) l;
  mso_aligned : Forall (fun s => (2 ^ ashift | rs_start s)) l;
  mso_space : rt_space (ms_tree msp) <= ms_size msp;
  mso_size : 0 < ms_size msp;
  mso_lbas : length (ms_lbas msp) = 64%nat;
  mso_cursors : Forall (fun c => 0 <= c <= LIMIT) (ms_lbas msp) }.

(** What [metaslab_block_alloc] relies on from the allocator of the class; it
    fails only when [full] holds. *)
Definition allocator_ok (ashift : Z) (full : list range_seg -> Z -> Prop)
    (alloc : metaslab T -> Z -> result (metaslab T * Z)) : Prop :=
  forall msp l size, ms_ok ashift msp l -> 0 < size <= LIMIT -> (2 ^ ashift | size) ->
  runs (alloc msp size) (fun '(msp', start) =>
    ms_tree msp' = ms_tree msp /\ ms_ok ashift msp' l /\
    ((start < NO_BLOCK /\ (2 ^ ashift | start) /\
      exists s, s ∈ l /\ rs_start s <= start /\ start + size <= rs_end s) \/
     (start = NO_BLOCK /\ full l size))).

Lemma set_lba_ok ashift msp l i c :
  ms_ok ashift msp l -> 0 <= c <= LIMIT -> ms_ok ashift (set_lba msp i c) l.
Proof.
  intros [] Hc. split; try done; simpl; [by rewrite length_insert |]. by apply Forall_insert.
Qed.

Lemma cursor_lookup ashift msp l size :
  ms_ok ashift msp l -> 0 < size <= LIMIT ->
  exists c, ms_lbas msp !! Z.to_nat (highbit64 (low_bit size) - 1) = Some c /\ 0 <= c <= LIMIT.
Proof.
  intros [] Hs. destruct (low_bit_spec size) as (k & Hk & -> & _); [unfold LIMIT, W64 in *; lia |].
  destruct (lookup_lt_is_Some_2 (ms_lbas msp) (Z.to_nat (highbit64 (2 ^ k) - 1))) as (c & Hc).
  - rewrite highbit64_pos, Z.log2_pow2 by lia. lia.
  - exists c. split; [done |]. rewrite Forall_forall in mso_cursors0. by eapply mso_cursors0, list_elem_of_lookup_2.
Qed.

Lemma fits_one size s : valid_seg s -> rs_end s <= LIMIT -> fits size 1 s <-> size <= seg_size s.
Proof.
  intros Hv Hl. unfold fits, LIMIT, valid_seg, seg_size in *. change 1 with (2 ^ 0) at 1.
  rewrite P2ROUNDUP_spec by lia. change (2 ^ 0) with 1. rewrite Z.div_1_r. lia.
Qed.

Lemma P2ROUNDUP_one s : valid_seg s -> rs_end s <= LIMIT -> P2ROUNDUP (rs_start s) 1 = rs_start s.
Proof.
  intros Hv Hl. unfold LIMIT, valid_seg in *. change 1 with (2 ^ 0).
  rewrite P2ROUNDUP_spec by lia. change (2 ^ 0) with 1. rewrite Z.div_1_r. lia.
Qed.

(** What the picker returns with [align = 1]. *)
Lemma df_pick ashift msp l k size c off :
  ms_ok ashift msp l -> Permutation k l -> 0 <= c <= LIMIT ->
  ((exists s, s ∈ k /\ fits size 1 s /\ off = P2ROUNDUP (rs_start s) 1 /\ off < NO_BLOCK) \/
   (off = NO_BLOCK /\ Forall (fun a => ~ fits size 1 a) k)) ->
  (off < NO_BLOCK /\ (2 ^ ashift | off) /\ exists s, s ∈ l /\ rs_start s <= off /\ off + size <= rs_end s) \/
  (off = NO_BLOCK /\ Forall (fun s => seg_size s < size) l).
Proof.
  intros [] HP Hc H. destruct mso_repr0 as (? & ? & [_ _ _ Hcan]). rewrite Forall_forall in mso_limit0, mso_aligned0.
  destruct H as [(s & Hs & Hf & -> & Hlt) | (-> & Hn)].
  - left. rewrite HP in Hs. assert (valid_seg s) by (by eapply canonical_valid).
    rewrite (fits_one size s) in Hf by auto. rewrite P2ROUNDUP_one in * by auto.
    split_and!; [done | auto |]. exists s. unfold seg_size in Hf. split_and!; [done | lia | lia].
  - right. split; [done |]. rewrite HP in Hn. rewrite Forall_forall in *. intros s Hs.
    specialize (Hn s Hs). rewrite (fits_one size s) in Hn; [lia | by eapply canonical_valid | auto].
Qed.

Lemma df_alloc_ok ashift threshold free_pct :
  allocator_ok ashift (fun l size => Forall (fun s => seg_size s < size) l) (metaslab_df_alloc threshold free_pct).
Proof.
  intros msp l size Hok Hs Ha. destruct (cursor_lookup ashift msp l size Hok Hs) as (c & Hc & Hcb).
  pose proof (mso_repr _ _ _ Hok) as Hr. destruct (size_tree_repr _ _ Hr) as (k & Hwf & Hk & Hks & HP & _ & Hn1 & Hn2).
  destruct (maxsize_spec msp l Hr) as (n & Hmax & Hle & _).
  unfold metaslab_df_alloc. cbv zeta. rewrite Hc. cbn [deref]. rewrite bind_Ok, Hmax, bind_Ok.
  apply runs_VERIFY; [apply negb_true_iff, Z.eqb_neq; pose proof (mso_size _ _ _ Hok); lia |].
  apply runs_VERIFY; [rewrite Hn1, Hn2; apply Z.eqb_refl |].
  destruct (Z.ltb_spec n size).
  { simpl. split; [done |]. split; [done |]. right. split; [done |]. eapply Forall_impl; [exact Hle |]. simpl. lia. }
  pose proof Hr as (ids & m & [Hat Hh _ Hcan]). pose proof (at_segs _ _ _ _ _ _ _ _ Hat) as Hm.
  assert (Forall valid_seg l) as Hval by (apply Forall_forall; intros; by eapply canonical_valid).
  pose proof (mso_limit _ _ _ Hok) as Hlim.
  destruct (_ || _).
  - assert (Hkv : Forall valid_seg k) by (by rewrite HP). assert (Hkl : Forall (fun s => rs_end s <= LIMIT) k) by (by rewrite HP).
    pose proof (pass_by_size _ _ k size 1 0 Hwf Hk Hkv Hkl Hs ltac:(lia) eq_refl Hks) as Hpass.
    destruct (block_picker_spec _ _ k size 1 0 Hwf Hk Hkv Hkl Hs ltac:(lia) eq_refl _ 0 ltac:(unfold LIMIT; lia) Hpass Hpass)
      as (c' & off & -> & Hc' & Hres).
    simpl. split; [done |]. split; [by apply set_lba_ok |]. by eapply df_pick.
  - rewrite Hm in *. pose proof (at_wf _ _ _ _ _ _ _ _ Hat) as Hwf1.
    assert (Hh1 : holds m (t_elems (rt_root (ms_tree msp))) l) by (by rewrite (at_elems _ _ _ _ _ _ _ _ Hat)).
    assert (Hpass : forall c, 0 <= c <= LIMIT -> pass_ok m (rt_root (ms_tree msp)) l size 1 (seg_compar m) c)
      by (intros; by apply (pass_by_offset _ _ l size 1 0)).
    destruct (block_picker_spec _ _ l size 1 0 Hwf1 Hh1 Hval Hlim Hs ltac:(lia) eq_refl _ c Hcb (Hpass c Hcb) (Hpass 0 ltac:(unfold LIMIT; lia)))
      as (c' & off & -> & Hc' & Hres).
    simpl. split; [done |]. split; [by apply set_lba_ok |]. by eapply (df_pick ashift msp l l).
Qed.

Lemma divide_low_bit ashift size k :
  0 <= ashift -> 0 < size -> (2 ^ ashift | size) -> low_bit size = 2 ^ k -> 0 <= k -> (2 ^ k | size) -> size < W64 ->
  (2 ^ ashift | 2 ^ k).
Proof.
  intros Ha Hs [c Hc] Hlow Hk Hd Hw. destruct (Z.lt_ge_cases k ashift) as [Hlt | Hge].
  2: { exists (2 ^ (k - ashift)). rewrite <- Z.pow_add_r by lia. f_equal. lia. }
  exfalso. assert (Z.testbit (low_bit size) k = true) as Hb by (rewrite Hlow; by apply Z.pow2_bits_true).
  unfold low_bit in Hb. rewrite Z.land_spec in Hb. apply andb_true_iff in Hb as (Hb & _).
  rewrite Hc, Z.mul_pow2_bits_low in Hb by lia. done.
Qed.

Lemma ff_alloc_ok ashift :
  0 <= ashift <= 62 ->
  allocator_ok ashift (fun l size => Forall (fun s => ~ fits size (low_bit size) s) l) metaslab_ff_alloc.
Proof.
  intros Has msp l size Hok Hs Ha. destruct (cursor_lookup ashift msp l size Hok Hs) as (c & Hc & Hcb).
  pose proof (mso_repr _ _ _ Hok) as (ids & m & [Hat Hh _ Hcan]). pose proof (at_segs _ _ _ _ _ _ _ _ Hat) as Hm.
  destruct (low_bit_spec size) as (k & Hk & Hlow & Hd); [unfold LIMIT, W64 in *; lia |].
  assert (2 ^ k <= size) as Hks by (apply Z.divide_pos_le; [lia | done]).
  assert (k <= 62). { apply (Z.pow_le_mono_r_iff 2); [lia | lia |]. unfold LIMIT in *. lia. }
  assert ((2 ^ ashift | 2 ^ k)) as Hdiv by (eapply divide_low_bit; try done; unfold LIMIT, W64 in *; lia).
  assert (Forall valid_seg l) as Hval by (apply Forall_forall; intros; by eapply canonical_valid).
  pose proof (mso_limit _ _ _ Hok) as Hlim. pose proof (at_wf _ _ _ _ _ _ _ _ Hat) as Hwf.
  assert (Hh1 : holds m (t_elems (rt_root (ms_tree msp))) l) by (by rewrite (at_elems _ _ _ _ _ _ _ _ Hat)).
  assert (Hpass : forall c, 0 <= c <= LIMIT -> pass_ok m (rt_root (ms_tree msp)) l size (low_bit size) (seg_compar m) c)
    by (intros; apply (pass_by_offset _ _ l size (low_bit size) k); try done; lia).
  unfold metaslab_ff_alloc. cbv zeta. rewrite Hc. cbn [deref]. rewrite bind_Ok, Hm.
  destruct (block_picker_spec _ _ l size (low_bit size) k Hwf Hh1 Hval Hlim Hs ltac:(lia) Hlow _ c Hcb (Hpass c Hcb)
    (Hpass 0 ltac:(unfold LIMIT; lia))) as (c' & off & -> & Hc' & Hres).
  simpl. split; [done |]. split; [by apply set_lba_ok |]. destruct Hres as [(s & Hin & Hf & -> & Hlt) | Hn]; [| by right].
  left. rewrite Forall_forall in Hval, Hlim. specialize (Hval s Hin). specialize (Hlim s Hin).
  unfold fits, valid_seg, LIMIT in *. rewrite Hlow in *. destruct (P2ROUNDUP_bounds (rs_start s) k) as (Hr & Hrd); [lia | lia |].
  split_and!; [done | by eapply Z.divide_trans |]. exists s. split_and!; [done | lia | done].
Qed.

Lemma block_alloc_spec zfs_recover ashift full alloc msp l size :
  0 <= ashift < 64 -> allocator_ok ashift full alloc -> ms_ok ashift msp l -> 0 < size <= LIMIT -> (2 ^ ashift | size) ->
  runs (metaslab_block_alloc zfs_recover ashift alloc msp size) (fun '(msp', start) =>
    (start = NO_BLOCK /\ full l size /\ ms_tree msp' = ms_tree msp /\ ms_ok ashift msp' l) \/
    (start <> NO_BLOCK /\ (2 ^ ashift | start) /\ offsets start size ⊆ covered l /\
     ms_models (ms_tree msp') (covered l ∖ offsets start size) /\
     rt_space (ms_tree msp') = rt_space (ms_tree msp) - size)).
Proof.
  intros Hash Hal Hok Hs Ha. unfold metaslab_block_alloc.
  destruct (size_tree_repr _ _ (mso_repr _ _ _ Hok)) as (k & _ & _ & _ & _ & Hco & _). rewrite Hco.
  apply runs_VERIFY; [done |]. eapply runs_bind; [by apply Hal |]. intros (msp', start) (Et & Hok' & Hres).
  destruct Hres as [(Hlt & Hdiv & s & Hin & Hs1 & Hs2) | (-> & Hfull)].
  2: { rewrite Z.eqb_refl. simpl. by left. }
  destruct (Z.eqb_spec start NO_BLOCK) as [| Hne]; [lia |]. cbn [negb].
  apply runs_VERIFY; [by rewrite P2PHASE_aligned |]. apply runs_VERIFY; [by rewrite P2PHASE_aligned |].
  pose proof (mso_repr _ _ _ Hok') as Hr. pose proof Hr as (? & ? & [_ _ _ Hc]).
  assert (valid_seg s) as Hv by (by eapply canonical_valid). pose proof (mso_limit _ _ _ Hok') as Hlim.
  rewrite Forall_forall in Hlim. specialize (Hlim s Hin). unfold valid_seg, LIMIT in *.
  assert (offsets start size ⊆ covered l) as Hsub.
  { intros y Hx. apply elem_of_covered. exists s. unfold offsets, seg_set in Hx. rewrite elem_of_PropSet in Hx.
    simpl in Hx. split; [done | lia]. }
  pose proof (remove_models (Some metaslab_rt_ops) ms_init ms_inv zfs_recover (ms_tree msp') (covered l) start size
    (ex_intro _ l (conj Hr (reflexivity _))) ltac:(unfold valid_range, W64; lia) Hsub) as Hrem.
  apply runs_Ok in Hrem as (rt' & Erem & Hm' & Hsp').
  assert (0 <= rt_space rt').
  { destruct Hm' as (l' & Hr' & _). rewrite (rt_repr_space _ _ _ _ Hr'). destruct Hr' as (? & ? & [_ _ _ Hc']).
    apply (canonical_bounds l' Hc'). }
  pose proof (canonical_bounds l Hc) as (Hbd & _). pose proof (rt_repr_space _ _ _ _ Hr) as Hspe.
  pose proof (mso_space _ _ _ Hok').
  apply runs_VERIFY; [rewrite u64_sub_small by (unfold is_u64; lia); apply Z.leb_le; lia |].
  rewrite Erem, bind_Ok. simpl. right. split_and!; try done. by rewrite Hsp', Et.
Qed.

(** C13: block allocation with the dynamic-fit allocator never panics and is
    exact: a block is returned whenever some free segment is at least as large
    as the request, the block was free, is aligned to the vdev's sector size,
    and is removed from the free space; otherwise the free space is unchanged. *)
Theorem metaslab_block_alloc_correct zfs_recover ashift threshold free_pct msp l size :
  0 <= ashift < 64 -> ms_ok ashift msp l -> 0 < size <= LIMIT -> (2 ^ ashift | size) ->
  runs (metaslab_block_alloc zfs_recover ashift (metaslab_df_alloc threshold free_pct) msp size)
    (fun '(msp', start) =>
      (start = NO_BLOCK /\ Forall (fun s => seg_size s < size) l /\ ms_tree msp' = ms_tree msp) \/
      (start <> NO_BLOCK /\ (2 ^ ashift | start) /\ offsets start size ⊆ covered l /\
       ms_models (ms_tree msp') (covered l ∖ offsets start size) /\
       rt_space (ms_tree msp') = rt_space (ms_tree msp) - size)).
Proof.
  intros H1 H2 H3 H4. eapply runs_impl; [eapply block_alloc_spec; try done; apply df_alloc_ok |].
  intros (msp', start) [(-> & Hf & Ht & _) | H]; [by left | by right].
Qed.

(** The first-fit allocator, through the same [metaslab_block_alloc]: the
    block was free and is removed from the free space, and the allocation
    fails only when no free segment has room for a block that starts at a
    multiple of the largest power of two dividing its size. *)
Theorem metaslab_ff_alloc_correct zfs_recover ashift msp l size :
  0 <= ashift <= 62 -> ms_ok ashift msp l -> 0 < size <= LIMIT -> (2 ^ ashift | size) ->
  runs (metaslab_block_alloc zfs_recover ashift metaslab_ff_alloc msp size) (fun '(msp', start) =>
    (start = NO_BLOCK /\ Forall (fun s => ~ fits size (low_bit size) s) l /\ ms_tree msp' = ms_tree msp) \/
    (start <> NO_BLOCK /\ offsets start size ⊆ covered l /\
     ms_models (ms_tree msp') (covered l ∖ offsets start size))).
Proof.
  intros H1 H2 H3 H4. eapply runs_impl; [eapply block_alloc_spec; try done; [lia | by apply ff_alloc_ok] |].
  intros (msp', start) [(-> & Hf & Ht & _) | (Ha & _ & Hb & Hc & _)]; [by left | by right].
Qed.
End theorems.

(** ** Instances: a metaslab with two free segments *)
Definition demo_ms_empty : range_tree (avl_tree addr) (ms_alloc (avl_tree addr)) :=
  MkRT avl_create ∅ 0 (replicate RANGE_TREE_HISTOGRAM_SIZE 0) (Some metaslab_rt_ops) (MkMs avl_create false).

Definition demo_ms_cmds : list rt_cmd := [CmdAdd 0 4096; CmdAdd 8192 8192].

Definition demo_ms : metaslab (avl_tree addr) :=
  MkMetaslab (match exec_cmds false demo_ms_empty demo_ms_cmds with Ok rt => rt | Panic => demo_ms_empty end)
    65536 (replicate 64 0).

Definition demo_ms_segs : list range_seg := [MkSeg 0 4096; MkSeg 8192 16384].

Lemma demo_ms_repr : rt_repr (Some metaslab_rt_ops) ms_inv (ms_tree demo_ms) demo_ms_segs.
Proof.
  destruct (proj1 (runs_Ok _ _) (create_spec (T := avl_tree addr) (Some metaslab_rt_ops) ms_init ms_inv (MkMs avl_create false) eq_refl))
    as (rt & [= <-] & Hr).
  assert (cmds_legal ∅ demo_ms_cmds) as Hlegal.
  { cbn [cmds_legal demo_ms_cmds cmd_legal cmd_effect]. split_and!; try exact I; offs. }
  pose proof (exec_cmds_models (Some metaslab_rt_ops) ms_init ms_inv false demo_ms_empty ∅ demo_ms_cmds
    (ex_intro _ [] (conj Hr covered_nil)) Hlegal) as H.
  apply runs_Ok in H as (rt & E & (l & Hl & Hc)). unfold demo_ms. rewrite E. simpl.
  replace demo_ms_segs with l; [done |]. apply canonical_unique.
  - by destruct Hl as (? & ? & [_ _ _ ?]).
  - unfold demo_ms_segs. simpl. unfold valid_seg, before_seg, W64. simpl. repeat split; repeat constructor; simpl; lia.
  - rewrite Hc. intros x. unfold demo_ms_cmds, demo_ms_segs, covered, offsets, seg_set. cbn [foldl cmd_effect fmap list_fmap union_list foldr].
    rewrite ?elem_of_union. unfold offsets, seg_set. rewrite ?elem_of_PropSet, ?elem_of_empty. simpl. lia.
Qed.

Lemma demo_ms_ok : ms_ok 9 demo_ms demo_ms_segs.
Proof.
  split; [exact demo_ms_repr | | | | reflexivity | reflexivity |].
  - repeat constructor; unfold LIMIT; simpl; lia.
  - repeat constructor; [by exists 0 | by exists 16].
  - rewrite (rt_repr_space _ _ _ _ demo_ms_repr). vm_compute. discriminate.
  - apply Forall_replicate. unfold LIMIT. lia.
Qed.

Lemma metaslab_size_tree_mirror_witness :
  t_numnodes (ms_size_tree (rt_arg (ms_tree demo_ms))) = t_numnodes (rt_root (ms_tree demo_ms)).
Proof. apply (metaslab_size_tree_mirror demo_ms demo_ms_segs demo_ms_repr). Defined.

Lemma metaslab_block_alloc_correct_witness :
  runs (metaslab_block_alloc false 9 (metaslab_df_alloc 131072 4) demo_ms 8192) (fun '(msp', start) =>
    (start = NO_BLOCK /\ Forall (fun s => seg_size s < 8192) demo_ms_segs /\ ms_tree msp' = ms_tree demo_ms) \/
    (start <> NO_BLOCK /\ (2 ^ 9 | start) /\ offsets start 8192 ⊆ covered demo_ms_segs /\
     rt_models (Some metaslab_rt_ops) ms_inv (ms_tree msp') (covered demo_ms_segs ∖ offsets start 8192) /\
     rt_space (ms_tree msp') = rt_space (ms_tree demo_ms) - 8192)).
Proof.
  apply (metaslab_block_alloc_correct false 9 131072 4 demo_ms demo_ms_segs 8192);
    [lia | exact demo_ms_ok | unfold LIMIT; lia | by exists 16].
Defined.

Lemma metaslab_ff_alloc_correct_witness :
  runs (metaslab_block_alloc false 9 metaslab_ff_alloc demo_ms 8192) (fun '(msp', start) =>
    (start = NO_BLOCK /\ Forall (fun s => ~ fits 8192 (low_bit 8192) s) demo_ms_segs /\ ms_tree msp' = ms_tree demo_ms) \/
    (start <> NO_BLOCK /\ offsets start 8192 ⊆ covered demo_ms_segs /\
     rt_models (Some metaslab_rt_ops) ms_inv (ms_tree msp') (covered demo_ms_segs ∖ offsets start 8192))).
Proof.
  apply (metaslab_ff_alloc_correct false 9 demo_ms demo_ms_segs 8192);
    [lia | exact demo_ms_ok | unfold LIMIT; lia | by exists 16].
Defined.
