(* ===== verification/Zle.v ===== *)
(** * Zero-length encoding (zfs/module/zfs/zle.c)

    The compressor and the decompressor, on buffers given as lists of bytes
    and positions in them; the level [n] separates literal lengths from runs
    of zeroes. A store past the end of the destination, or a load past the
    end of the source, is a panic. *)
From S2P Require Import Prelude Bytes.
Local Open Scope Z_scope.

(** [while (src < MIN(last, s_end) && src[0] == 0) src++], [room] bytes before
    the limit; the new [src]. *)
Fixpoint zle_zeroes (room : nat) (s : list Z) (src : Z) : result Z :=
  match room with
  | O => Ok src
  | S r => b ← byte_at s src ; if b =? 0 then zle_zeroes r s (src + 1) else Ok src
  end.

(** [while (src < MIN(last, s_end) - 1 && (src[0] | src[1])) *dst++ = *src++] *)
Fixpoint zle_literals (room : nat) (s : list Z) (src d_len : Z) (dst : list Z) : result (Z * list Z) :=
  match room with
  | O => Ok (src, dst)
  | S r =>
      b0 ← byte_at s src ;
      b1 ← byte_at s (src + 1) ;
      if negb (Z.lor b0 b1 =? 0) then
        dst ← put d_len dst b0 ; zle_literals r s (src + 1) d_len dst
      else Ok (src, dst)
  end.

(** The main loop, at most [fuel] chunks: the final [src] and [dst]. *)
Fixpoint zle_compress_loop (fuel : nat) (s : list Z) (d_len n : Z) (src : Z) (dst : list Z) : result (Z * list Z) :=
  let s_end := Z.of_nat (length s) in
  if (src <? s_end) && (Z.of_nat (length dst) <? d_len - 1) then
    match fuel with
    | O => Panic
    | S f =>
        let first := src in
        let len := length dst in
        b ← byte_at s src ;
        dst ← put d_len dst 0 ;
        if b =? 0 then
          let last := src + (256 - n) in
          src ← zle_zeroes (Z.to_nat (Z.min last s_end - src)) s src ;
          zle_compress_loop f s d_len n src (<[len := uchar (src - first - 1 + n)]> dst)
        else
          let last := src + n in
          if d_len - Z.of_nat (length dst) <? n then Ok (src, dst)
          else
            '(src, dst) ← zle_literals (Z.to_nat (Z.min last s_end - 1 - src)) s src d_len dst ;
            b ← byte_at s src ;
            '(src, dst) ← (if negb (b =? 0) then dst ← put d_len dst b ; Ok (src + 1, dst) else Ok (src, dst)) ;
            zle_compress_loop f s d_len n src (<[len := uchar (src - first - 1)]> dst)
    end
  else Ok (src, dst).

(** The value returned and the destination; each chunk consumes a byte. *)
Definition zle_compress (s : list Z) (d_len n : Z) : result (Z * list Z) :=
  let s_len := Z.of_nat (length s) in
  '(src, dst) ← zle_compress_loop (length s) s d_len n 0 [] ;
  Ok (if src =? s_len then Z.of_nat (length dst) else s_len, dst).

(** [while (len-- != 0) *dst++ = *src++] *)
Fixpoint zle_copy (len : nat) (s : list Z) (src d_len : Z) (dst : list Z) : result (Z * list Z) :=
  match len with
  | O => Ok (src, dst)
  | S l => b ← byte_at s src ; dst ← put d_len dst b ; zle_copy l s (src + 1) d_len dst
  end.

Fixpoint zle_fill (len : nat) (d_len : Z) (dst : list Z) : result (list Z) :=
  match len with
  | O => Ok dst
  | S l => dst ← put d_len dst 0 ; zle_fill l d_len dst
  end.

Fixpoint zle_decompress_loop (fuel : nat) (s : list Z) (d_len n : Z) (src : Z) (dst : list Z) : result (Z * list Z) :=
  if (src <? Z.of_nat (length s)) && (Z.of_nat (length dst) <? d_len) then
    match fuel with
    | O => Panic
    | S f =>
        b ← byte_at s src ;
        let len := 1 + b in
        if len <=? n then
          '(src, dst) ← zle_copy (Z.to_nat len) s (src + 1) d_len dst ;
          zle_decompress_loop f s d_len n src dst
        else
          dst ← zle_fill (Z.to_nat (len - n)) d_len dst ;
          zle_decompress_loop f s d_len n (src + 1) dst
    end
  else Ok (src, dst).

Definition zle_decompress (s : list Z) (d_len n : Z) : result (Z * list Z) :=
  '(_, dst) ← zle_decompress_loop (length s) s d_len n 0 [] ;
  Ok (if Z.of_nat (length dst) =? d_len then 0 else -1, dst).
