(* ===== verification/ZleThms.v ===== *)
(** * Theorems on zero-length encoding

    The compressor writes a sequence of chunks, literals or runs of zeroes,
    and the decompressor reads such a sequence back. *)
From S2P Require Import Prelude Bytes Zle.
Local Open Scope Z_scope.

(** ** Chunks *)
Inductive chunk : Type := Lits (l : list Z) | Zeros (k : nat).

Definition chunk_enc (n : Z) (c : chunk) : list Z :=
  match c with
  | Lits l => (Z.of_nat (length l) - 1) :: l
  | Zeros k => [Z.of_nat k - 1 + n]
  end.

Definition chunk_dec (c : chunk) : list Z :=
  match c with Lits l => l | Zeros k => replicate k 0 end.

Definition chunk_ok (n : Z) (c : chunk) : Prop :=
  match c with
  | Lits l => 1 <= Z.of_nat (length l) <= n /\ Forall is_byte l
  | Zeros k => 1 <= Z.of_nat k <= 256 - n
  end.

Definition encoded (n : Z) (cs : list chunk) : list Z := concat (map (chunk_enc n) cs).
Definition decoded (cs : list chunk) : list Z := concat (map chunk_dec cs).

Lemma encoded_snoc n cs c : encoded n (cs ++ [c]) = encoded n cs ++ chunk_enc n c.
Proof. unfold encoded. rewrite map_app, concat_app. simpl. by rewrite app_nil_r. Qed.

Lemma decoded_snoc cs c : decoded (cs ++ [c]) = decoded cs ++ chunk_dec c.
Proof. unfold decoded. rewrite map_app, concat_app. simpl. by rewrite app_nil_r. Qed.

(** ** The compressor *)
Lemma zle_zeroes_spec room pre rest :
  (room <= length rest)%nat ->
  exists k rest', zle_zeroes room (pre ++ rest) (Z.of_nat (length pre)) = Ok (Z.of_nat (length pre + k)) /\
    rest = replicate k 0 ++ rest' /\ (k <= room)%nat /\ (head rest = Some 0 -> (0 < room)%nat -> (0 < k)%nat).
Proof.
  revert pre rest. induction room as [| room IH]; intros pre rest Hr.
  { exists 0%nat, rest. rewrite Nat.add_0_r. repeat split; [lia | intros; lia]. }
  destruct rest as [| b rest]; [simpl in Hr; lia |]. cbn [zle_zeroes].
  rewrite byte_at_app, bind_Ok. destruct (Z.eqb_spec b 0) as [-> | Hb].
  - destruct (IH (pre ++ [0]) rest) as (k & rest' & E & -> & Hk & _); [simpl in Hr; lia |].
    exists (S k), rest'. rewrite <- app_assoc, length_app in E. simpl in E.
    replace (Z.of_nat (length pre) + 1) with (Z.of_nat (length pre + 1)) by lia. rewrite E.
    repeat split; [f_equal; lia | lia | lia].
  - exists 0%nat, (b :: rest). rewrite Nat.add_0_r. repeat split; [lia |]. simpl. intros [= ->]. done.
Qed.

Lemma zle_literals_spec room pre rest d_len dst :
  (room < length rest)%nat -> Z.of_nat (length dst + room) <= d_len -> Forall is_byte rest ->
  exists l rest', zle_literals room (pre ++ rest) (Z.of_nat (length pre)) d_len dst =
      Ok (Z.of_nat (length (pre ++ l)), dst ++ l) /\ rest = l ++ rest' /\ (length l <= room)%nat.
Proof.
  revert pre rest dst. induction room as [| room IH]; intros pre rest dst Hr Hd Hb.
  { exists [], rest. rewrite !app_nil_r. repeat split. simpl. lia. }
  destruct rest as [| b0 [| b1 rest]]; [simpl in Hr; lia | simpl in Hr; lia |]. cbn [zle_literals].
  rewrite byte_at_app, bind_Ok, byte_at_next, bind_Ok.
  apply Forall_cons in Hb as (Hb0 & Hb). destruct (negb _).
  - rewrite put_Ok by (done || lia). rewrite bind_Ok.
    destruct (IH (pre ++ [b0]) (b1 :: rest) (dst ++ [b0])) as (l & rest' & E & Hrest & Hl);
      [simpl in *; lia | rewrite length_app; simpl; lia | done |].
    exists (b0 :: l), rest'. rewrite <- !app_assoc in E. rewrite length_app in E. simpl in E.
    replace (Z.of_nat (length pre) + 1) with (Z.of_nat (length pre + 1)) by lia. rewrite E.
    repeat split; [simpl; by rewrite Hrest | simpl; lia].
  - exists [], (b0 :: b1 :: rest). rewrite !app_nil_r. repeat split. simpl. lia.
Qed.

Lemma insert_len (d : list Z) x l y : <[length d := y]> ((d ++ [x]) ++ l) = d ++ y :: l.
Proof. rewrite <- app_assoc. simpl. rewrite insert_app_r_alt by lia. by rewrite Nat.sub_diag. Qed.

(** What the compressor has written after consuming [pre]. *)
Definition written (n : Z) (pre dst : list Z) : Prop :=
  exists cs, pre = decoded cs /\ dst = encoded n cs /\ Forall (chunk_ok n) cs.

Lemma written_snoc n pre dst c :
  written n pre dst -> chunk_ok n c -> written n (pre ++ chunk_dec c) (dst ++ chunk_enc n c).
Proof.
  intros (cs & -> & -> & Hcs) Hc. exists (cs ++ [c]).
  rewrite decoded_snoc, encoded_snoc, Forall_app, Forall_singleton. done.
Qed.

(** One literal chunk: the copying loop and the last byte. *)
Lemma zle_lits_step (K : Z -> list Z -> result (Z * list Z)) n pre b0 rest d_len dst Q :
  1 <= n <= 255 -> Forall is_byte (b0 :: rest) -> b0 <> 0 -> Z.of_nat (length dst) + n < d_len ->
  (forall l rest', b0 :: rest = l ++ rest' -> 1 <= Z.of_nat (length l) <= n ->
     runs (K (Z.of_nat (length (pre ++ l))) ((dst ++ [0]) ++ l)) Q) ->
  runs ('(src, dst') ← zle_literals (Z.to_nat (Z.min (Z.of_nat (length pre) + n)
             (Z.of_nat (length (pre ++ b0 :: rest))) - 1 - Z.of_nat (length pre)))
             (pre ++ b0 :: rest) (Z.of_nat (length pre)) d_len (dst ++ [0]) ;
        b ← byte_at (pre ++ b0 :: rest) src ;
        '(src, dst') ← (if negb (b =? 0) then dst' ← put d_len dst' b ; Ok (src + 1, dst') else Ok (src, dst')) ;
        K src dst') Q.
Proof.
  intros Hn Hb Hb0 Hd HK. set (room := Z.to_nat _).
  assert (Hroom : Z.of_nat room <= n - 1 /\ (room < length (b0 :: rest))%nat).
  { unfold room. rewrite length_app. simpl. lia. }
  destruct (zle_literals_spec room pre (b0 :: rest) d_len (dst ++ [0])) as (l & rest' & E & Hrest & Hl);
    [lia | rewrite length_app; simpl; lia | done |].
  rewrite E, bind_Ok. rewrite Hrest in *.
  destruct rest' as [| b rest']; [rewrite app_nil_r in *; lia |].
  apply Forall_app in Hb as (_ & Hb). apply Forall_cons in Hb as (Hb & _).
  rewrite (app_assoc pre), byte_at_app, bind_Ok. destruct (Z.eqb_spec b 0) as [-> | Hnz]; simpl negb; cbv iota.
  - rewrite bind_Ok. destruct l as [| x l]; [simplify_eq/= |].
    apply (HK _ (0 :: rest')); [done | simpl in *; lia].
  - rewrite put_Ok by (done || (rewrite !length_app; simpl; lia)). rewrite !bind_Ok.
    specialize (HK (l ++ [b]) rest'). rewrite <- app_assoc in HK. rewrite length_app in HK. simpl in HK.
    rewrite (app_assoc pre l), (app_assoc _ l) in HK.
    replace (Z.of_nat (length (pre ++ l)) + 1) with (Z.of_nat (length ((pre ++ l) ++ [b])))
      by (rewrite (length_app _ [b]); simpl; lia).
    apply HK; [done | lia].
Qed.

Lemma zle_compress_loop_spec fuel n pre rest d_len dst :
  1 <= n <= 255 -> Forall is_byte rest -> (length rest <= fuel)%nat -> Z.of_nat (length dst) <= d_len ->
  written n pre dst ->
  runs (zle_compress_loop fuel (pre ++ rest) d_len n (Z.of_nat (length pre)) dst)
    (fun '(src, d) => Z.of_nat (length d) <= d_len /\ src <= Z.of_nat (length (pre ++ rest)) /\
       (src = Z.of_nat (length (pre ++ rest)) -> written n (pre ++ rest) d)).
Proof.
  intros Hn. revert pre rest dst. induction fuel as [| f IH]; intros pre rest dst Hb Hf Hd Hw.
  { destruct rest; [| simpl in Hf; lia]. cbn [zle_compress_loop]. rewrite app_nil_r, Z.ltb_irrefl. simpl. done. }
  cbn [zle_compress_loop]. destruct (andb _ _) eqn:Ec.
  2:{ simpl. split; [done |]. split; [rewrite length_app; lia |]. intros E. destruct rest as [| x rest].
      - by rewrite app_nil_r.
      - rewrite length_app in E. simpl in E. lia. }
  apply andb_true_iff in Ec as (E1 & E2). apply Z.ltb_lt in E1, E2.
  destruct rest as [| b rest]; [rewrite app_nil_r in E1; lia |].
  rewrite byte_at_app, bind_Ok, put_Ok, bind_Ok by (unfold is_byte; lia).
  destruct (Z.eqb_spec b 0) as [-> | Hnz].
  - set (room := Z.to_nat _).
    assert (Hroom : 1 <= Z.of_nat room <= 256 - n /\ (room <= length (0%Z :: rest))%nat).
    { unfold room. rewrite length_app. simpl. lia. }
    destruct (zle_zeroes_spec room pre (0 :: rest)) as (k & rest' & E & Hrest & Hk & Hpos); [lia |].
    specialize (Hpos eq_refl ltac:(lia)). rewrite E, bind_Ok.
    rewrite <- (app_nil_r (dst ++ [0])), insert_len.
    replace (uchar _) with (Z.of_nat k - 1 + n) by (rewrite uchar_byte; unfold is_byte; lia).
    rewrite Hrest in *. rewrite (app_assoc pre).
    replace (length pre + k)%nat with (length (pre ++ replicate k 0))
      by (rewrite length_app, length_replicate; done).
    apply IH.
    + by apply Forall_app in Hb as (_ & ?).
    + rewrite length_app, length_replicate in Hf. lia.
    + rewrite length_app. simpl. lia.
    + apply (written_snoc _ _ _ (Zeros k)); [done | simpl; lia].
  - rewrite length_app. simpl (length [0]). destruct (Z.ltb_spec (d_len - Z.of_nat (length dst + 1)) n).
    { simpl. rewrite length_app. simpl. lia. }
    apply zle_lits_step; [done | done | done | lia |].
    intros l rest' Hrest Hl. rewrite insert_len.
    rewrite length_app.
    replace (uchar _) with (Z.of_nat (length l) - 1) by (rewrite uchar_byte; unfold is_byte; lia).
    rewrite Hrest in *. rewrite (app_assoc pre), <- length_app. apply Forall_app in Hb as (Hbl & Hb).
    apply IH.
    + done.
    + rewrite length_app in Hf. lia.
    + rewrite length_app. simpl. lia.
    + apply (written_snoc _ _ _ (Lits l)); [done | simpl; auto].
Qed.

(** ** The decompressor *)
Lemma zle_copy_spec pre l rest d_len dst :
  Forall is_byte l -> Z.of_nat (length dst + length l) <= d_len ->
  zle_copy (length l) (pre ++ l ++ rest) (Z.of_nat (length pre)) d_len dst =
  Ok (Z.of_nat (length (pre ++ l)), dst ++ l).
Proof.
  intros Hb. revert pre dst. induction Hb as [| b l Hb Hl IH]; intros pre dst Hd.
  { by rewrite !app_nil_r. }
  simpl length in *. cbn [zle_copy]. simpl app.
  rewrite byte_at_app, bind_Ok, put_Ok, bind_Ok by (done || lia).
  specialize (IH (pre ++ [b]) (dst ++ [b])). rewrite <- !app_assoc in IH. simpl in IH.
  replace (Z.of_nat (length pre) + 1) with (Z.of_nat (length (pre ++ [b]))) by (rewrite length_app; simpl; lia).
  apply IH. rewrite length_app. simpl. lia.
Qed.

Lemma zle_fill_spec k d_len dst :
  Z.of_nat (length dst + k) <= d_len -> zle_fill k d_len dst = Ok (dst ++ replicate k 0).
Proof.
  revert dst. induction k as [| k IH]; intros dst Hd; cbn [zle_fill replicate].
  { by rewrite app_nil_r. }
  rewrite put_Ok, bind_Ok by (unfold is_byte; lia).
  rewrite IH by (rewrite length_app; simpl; lia). by rewrite <- app_assoc.
Qed.

Lemma zle_decompress_loop_spec fuel n pre cs out :
  1 <= n <= 255 -> Forall (chunk_ok n) cs -> (length cs <= fuel)%nat ->
  zle_decompress_loop fuel (pre ++ encoded n cs) (Z.of_nat (length (out ++ decoded cs))) n
    (Z.of_nat (length pre)) out =
  Ok (Z.of_nat (length (pre ++ encoded n cs)), out ++ decoded cs).
Proof.
  intros Hn Hcs. revert fuel pre out. induction Hcs as [| c cs Hc Hcs IH]; intros fuel pre out Hf.
  { unfold encoded, decoded. simpl. rewrite !app_nil_r. destruct fuel; cbn [zle_decompress_loop];
      by rewrite Z.ltb_irrefl. }
  destruct fuel as [| fuel]; [simpl in Hf; lia |]. cbn [zle_decompress_loop].
  change (encoded n (c :: cs)) with (chunk_enc n c ++ encoded n cs).
  change (decoded (c :: cs)) with (chunk_dec c ++ decoded cs).
  assert (Hlen : (0 < length (chunk_enc n c))%nat /\ (0 < length (chunk_dec c))%nat)
    by (destruct c; simpl in *; rewrite ?length_replicate; lia).
  rewrite (proj2 (Z.ltb_lt _ _)) by (rewrite !length_app; lia).
  rewrite (proj2 (Z.ltb_lt _ _)) by (rewrite !length_app; lia). cbn [andb].
  simpl in Hf. destruct c as [l | k]; cbn [chunk_enc chunk_dec chunk_ok] in *.
  - destruct Hc as (Hl & Hb). cbn [app]. rewrite byte_at_app, bind_Ok.
    rewrite (proj2 (Z.leb_le _ _)) by lia.
    replace (Z.to_nat (1 + _)) with (length l) by lia.
    specialize (IH fuel (pre ++ (Z.of_nat (length l) - 1) :: l) (out ++ l) ltac:(lia)).
    rewrite <- !app_assoc in IH. simpl app in *.
    pose proof (zle_copy_spec (pre ++ [Z.of_nat (length l) - 1]) l (encoded n cs)
      (Z.of_nat (length (out ++ l ++ decoded cs))) out Hb) as E.
    rewrite <- !app_assoc in E. simpl app in E.
    replace (Z.of_nat (length pre) + 1) with (Z.of_nat (length (pre ++ [Z.of_nat (length l) - 1])))
      by (rewrite length_app; simpl; lia).
    rewrite E by (rewrite !length_app; lia). rewrite bind_Ok. exact IH.
  - cbn [app]. rewrite byte_at_app, bind_Ok.
    rewrite (proj2 (Z.leb_gt _ _)) by lia.
    replace (Z.to_nat (1 + _ - n)) with k by lia.
    rewrite zle_fill_spec by (rewrite !length_app, length_replicate; lia). rewrite bind_Ok.
    specialize (IH fuel (pre ++ [Z.of_nat k - 1 + n]) (out ++ replicate k 0) ltac:(lia)).
    rewrite <- !app_assoc in IH. simpl app in *.
    replace (Z.of_nat (length pre) + 1) with (Z.of_nat (length (pre ++ [Z.of_nat k - 1 + n])))
      by (rewrite length_app; simpl; lia).
    exact IH.
Qed.

Lemma encoded_length n cs : (length cs <= length (encoded n cs))%nat.
Proof.
  induction cs as [| c cs IH]; [done |]. unfold encoded in *. simpl. rewrite length_app.
  destruct c; simpl; lia.
Qed.

Lemma zle_decompress_written n s d :
  1 <= n <= 255 -> written n s d -> zle_decompress d (Z.of_nat (length s)) n = Ok (0, s).
Proof.
  intros Hn (cs & -> & -> & Hcs). unfold zle_decompress.
  pose proof (zle_decompress_loop_spec (length (encoded n cs)) n [] cs [] Hn Hcs
    (encoded_length n cs)) as E. simpl in E. change (Z.of_nat 0) with 0 in E.
  by rewrite E, bind_Ok, Z.eqb_refl.
Qed.

(** Round trip and memory safety of ZLE. Compressing any buffer [s] into
    room for [d_len] bytes never loads or stores out of bounds and always
    terminates. When it reports success, by a length below that of [s], that
    length is the number of bytes written, and decompressing exactly those
    bytes into a buffer of the original size succeeds, in bounds, with [s]. *)
Theorem zle_roundtrip s d_len n :
  1 <= n <= 255 -> Forall is_byte s -> 0 <= d_len ->
  exists r d, zle_compress s d_len n = Ok (r, d) /\ Z.of_nat (length d) <= d_len /\
    (r < Z.of_nat (length s) ->
       r = Z.of_nat (length d) /\ zle_decompress d (Z.of_nat (length s)) n = Ok (0, s)).
Proof.
  intros Hn Hs Hd.
  assert (written n [] []) as Hw by (exists []; done).
  pose proof (zle_compress_loop_spec (length s) n [] s d_len [] Hn Hs ltac:(lia) Hd Hw) as H.
  apply runs_Ok in H as ((src & d) & E & Hlen & Hsrc & Hwr). simpl in E, Hwr. change (Z.of_nat 0) with 0 in E.
  unfold zle_compress. rewrite E, bind_Ok. eexists _, d. split; [done |]. split; [done |].
  destruct (Z.eqb_spec src (Z.of_nat (length s))); intros Hr; [| lia].
  auto using zle_decompress_written.
Qed.

Lemma zle_roundtrip_witness :
  exists r d, zle_compress [0; 0; 0; 0; 7; 0; 0; 0; 0; 0; 0; 5] 11 3 = Ok (r, d) /\ r = 6 /\
    zle_decompress d 12 3 = Ok (0, [0; 0; 0; 0; 7; 0; 0; 0; 0; 0; 0; 5]).
Proof.
  destruct (zle_roundtrip [0; 0; 0; 0; 7; 0; 0; 0; 0; 0; 0; 5] 11 3) as (r & d & E & _ & H);
    [lia | repeat constructor; unfold is_byte; lia | lia |].
  exists r, d. split; [exact E |]. vm_compute in E. injection E as <- <-.
  split; [reflexivity | apply H; reflexivity].
Defined.


