(* ===== verification/Lzjb.v ===== *)
(** * The LZJB compressor (zfs/module/zfs/lzjb.c)

    Source and destination are lists of bytes, pointers into them positions.
    [s_start] is the address of the source buffer: the hash table keeps the
    low 16 bits of addresses. The destination of the compressor is what has
    been stored so far; that of the decompressor is an array, since a match
    may read bytes of it that were not stored yet. Loads and stores out of
    bounds are panics. *)
From S2P Require Import Prelude Bytes.
Local Open Scope Z_scope.

Definition NBBY : Z := 8.
Definition MATCH_BITS : Z := 6.
Definition MATCH_MIN : Z := 3.
Definition MATCH_MAX : Z := Z.shiftl 1 MATCH_BITS + (MATCH_MIN - 1).
Definition OFFSET_MASK : Z := Z.shiftl 1 (16 - MATCH_BITS) - 1.
Definition LEMPEL_SIZE : Z := 1024.

(** ** Compression *)
Definition lzjb_hash (b0 b1 b2 : Z) : Z :=
  let hash := Z.shiftl b0 16 + Z.shiftl b1 8 + b2 in
  let hash := hash + Z.shiftr hash 9 in
  hash + Z.shiftr hash 5.

(** [for (mlen = MATCH_MIN; mlen < MATCH_MAX; mlen++) if (src[mlen] != cpy[mlen]) break] *)
Fixpoint match_len (room : nat) (s : list Z) (src cpy mlen : Z) : result Z :=
  match room with
  | O => Ok mlen
  | S r =>
      a ← byte_at s (src + mlen) ;
      b ← byte_at s (cpy + mlen) ;
      if negb (a =? b) then Ok mlen else match_len r s src cpy (mlen + 1)
  end.

(** The three-byte comparison, with the short circuits of [&&]. *)
Definition match3 (s : list Z) (src cpy : Z) : result bool :=
  a ← byte_at s src ; b ← byte_at s cpy ;
  if negb (a =? b) then Ok false else
  a ← byte_at s (src + 1) ; b ← byte_at s (cpy + 1) ;
  if negb (a =? b) then Ok false else
  a ← byte_at s (src + 2) ; b ← byte_at s (cpy + 2) ;
  Ok (a =? b).

(** The variables of the loop. *)
Record lzjb_state : Type := MkLz {
  z_src : Z;
  z_dst : list Z;
  z_copymap : option nat;
  z_copymask : Z;
  z_lempel : list Z
}.

(** [*copymap |= copymask] *)
Definition mark (dst : list Z) (copymap : option nat) (copymask : Z) : result (list Z) :=
  i ← deref copymap ; b ← deref (dst !! i) ; Ok (<[i := uchar (Z.lor b copymask)]> dst).

(** [*dst++ = *src++] *)
Definition lzjb_literal (s : list Z) (d_len : Z) (st : lzjb_state) : result lzjb_state :=
  b ← byte_at s (z_src st) ;
  dst ← put d_len (z_dst st) b ;
  Ok (MkLz (z_src st + 1) dst (z_copymap st) (z_copymask st) (z_lempel st)).

(** The rest of an iteration, after the copymap has been set up. *)
Definition lzjb_item (s_start : Z) (s : list Z) (d_len : Z) (st : lzjb_state) : result lzjb_state :=
  let s_len := Z.of_nat (length s) in
  let src := z_src st in
  if s_len - MATCH_MAX <? src then lzjb_literal s d_len st
  else
    b0 ← byte_at s src ; b1 ← byte_at s (src + 1) ; b2 ← byte_at s (src + 2) ;
    let hp := Z.to_nat (Z.land (lzjb_hash b0 b1 b2) (LEMPEL_SIZE - 1)) in
    h ← deref (z_lempel st !! hp) ;
    let offset := Z.land (s_start + src - h) OFFSET_MASK in
    let lempel := <[hp := (s_start + src) mod 2 ^ 16]> (z_lempel st) in
    let cpy := src - offset in
    m ← (if (0 <=? cpy) && negb (cpy =? src) then match3 s src cpy else Ok false) ;
    if m : bool then
      dst ← mark (z_dst st) (z_copymap st) (z_copymask st) ;
      mlen ← match_len (Z.to_nat (MATCH_MAX - MATCH_MIN)) s src cpy MATCH_MIN ;
      dst ← put d_len dst (Z.lor (Z.shiftl (mlen - MATCH_MIN) (NBBY - MATCH_BITS)) (Z.shiftr offset NBBY)) ;
      dst ← put d_len dst offset ;
      Ok (MkLz (src + mlen) dst (z_copymap st) (z_copymask st) lempel)
    else
      lzjb_literal s d_len (MkLz src (z_dst st) (z_copymap st) (z_copymask st) lempel).

(** The loop; [None] is the early return when the destination is too small. *)
Fixpoint lzjb_compress_loop (fuel : nat) (s_start : Z) (s : list Z) (d_len : Z) (st : lzjb_state) :
  result (option lzjb_state) :=
  if z_src st <? Z.of_nat (length s) then
    match fuel with
    | O => Panic
    | S f =>
        let copymask := Z.shiftl (z_copymask st) 1 in
        if copymask =? Z.shiftl 1 NBBY then
          if d_len - 1 - 2 * NBBY <=? Z.of_nat (length (z_dst st)) then Ok None
          else
            dst ← put d_len (z_dst st) 0 ;
            st ← lzjb_item s_start s d_len (MkLz (z_src st) dst (Some (length (z_dst st))) 1 (z_lempel st)) ;
            lzjb_compress_loop f s_start s d_len st
        else
          st ← lzjb_item s_start s d_len
            (MkLz (z_src st) (z_dst st) (z_copymap st) copymask (z_lempel st)) ;
          lzjb_compress_loop f s_start s d_len st
    end
  else Ok (Some st).

(** The value returned and the bytes stored; an iteration consumes a byte. *)
Definition lzjb_compress (s_start : Z) (s : list Z) (d_len : Z) : result (Z * list Z) :=
  o ← lzjb_compress_loop (length s) s_start s d_len
        (MkLz 0 [] None (Z.shiftl 1 (NBBY - 1)) (replicate (Z.to_nat LEMPEL_SIZE) 0)) ;
  match o with
  | None => Ok (Z.of_nat (length s), [])
  | Some st => Ok (Z.of_nat (length (z_dst st)), z_dst st)
  end.

(** ** Decompression *)
(** [*p = b] for a position [p] of the array [d]. *)
Definition store (d : list Z) (p b : Z) : result (list Z) :=
  VERIFY ((0 <=? p) && (p <? Z.of_nat (length d))) ;; Ok (<[Z.to_nat p := uchar b]> d).

(** [while (--mlen >= 0 && dst < d_end) *dst++ = *cpy++] *)
Fixpoint lzjb_copy (mlen : nat) (d : list Z) (dst cpy : Z) : result (list Z * Z) :=
  match mlen with
  | O => Ok (d, dst)
  | S m =>
      if dst <? Z.of_nat (length d) then
        b ← byte_at d cpy ; d ← store d dst b ; lzjb_copy m d (dst + 1) (cpy + 1)
      else Ok (d, dst)
  end.

(** One iteration below the refill of the copymap: the source position, the
    destination and the position in it, or [None] for [return (-1)]. *)
Definition lzjb_token (s : list Z) (src : Z) (d : list Z) (dst copymap copymask : Z) :
  result (option (Z * list Z * Z)) :=
  if negb (Z.land copymap copymask =? 0) then
    b0 ← byte_at s src ; b1 ← byte_at s (src + 1) ;
    let mlen := Z.shiftr b0 (NBBY - MATCH_BITS) + MATCH_MIN in
    let offset := Z.land (Z.lor (Z.shiftl b0 NBBY) b1) OFFSET_MASK in
    let cpy := dst - offset in
    if cpy <? 0 then Ok None
    else '(d, dst) ← lzjb_copy (Z.to_nat mlen) d dst cpy ; Ok (Some (src + 2, d, dst))
  else
    b ← byte_at s src ; d ← store d dst b ; Ok (Some (src + 1, d, dst + 1)).

Fixpoint lzjb_decompress_loop (fuel : nat) (s : list Z) (src : Z) (d : list Z) (dst copymap copymask : Z) :
  result (Z * list Z) :=
  if dst <? Z.of_nat (length d) then
    match fuel with
    | O => Panic
    | S f =>
        let copymask := Z.shiftl copymask 1 in
        if copymask =? Z.shiftl 1 NBBY then
          copymap ← byte_at s src ;
          o ← lzjb_token s (src + 1) d dst copymap 1 ;
          match o with
          | None => Ok (-1, d)
          | Some (src, d, dst) => lzjb_decompress_loop f s src d dst copymap 1
          end
        else
          o ← lzjb_token s src d dst copymap copymask ;
          match o with
          | None => Ok (-1, d)
          | Some (src, d, dst) => lzjb_decompress_loop f s src d dst copymap copymask
          end
    end
  else Ok (0, d).

(** [d] is the destination before the call; an iteration stores a byte. *)
Definition lzjb_decompress (s d : list Z) : result (Z * list Z) :=
  lzjb_decompress_loop (length d) s 0 d 0 0 (Z.shiftl 1 (NBBY - 1)).
