(* ===== verification/LzjbSpec.v ===== *)
(** * The LZJB stream

    Tokens (literals and matches), the bytes that encode them in groups of
    eight behind a flag byte, and the buffer they expand to. The compressor
    writes such a stream and the decompressor expands it. *)
From S2P Require Import Prelude Bytes Lzjb.
Local Open Scope Z_scope.

Inductive token : Type := Lit (b : Z) | Match (m o : nat).

Definition is_match (t : token) : bool := match t with Lit _ => false | Match _ _ => true end.

Definition token_enc (t : token) : list Z :=
  match t with
  | Lit b => [b]
  | Match m o => [Z.lor (Z.shiftl (Z.of_nat m - 3) 2) (Z.shiftr (Z.of_nat o) 8); uchar (Z.of_nat o)]
  end.

(** [m] bytes copied one by one from [o] bytes back. *)
Fixpoint copy_back (m o : nat) (out : list Z) : list Z :=
  match m with
  | O => out
  | S m => copy_back m o (out ++ [nth (length out - o) out 0])
  end.

Definition token_exp (out : list Z) (t : token) : list Z :=
  match t with Lit b => out ++ [b] | Match m o => copy_back m o out end.

Definition token_ok (out : list Z) (t : token) : Prop :=
  match t with
  | Lit b => is_byte b
  | Match m o => (3 <= m <= 66)%nat /\ (1 <= o <= 1023)%nat /\ (o <= length out)%nat
  end.

Fixpoint tokens_ok (out : list Z) (ts : list token) : Prop :=
  match ts with [] => True | t :: ts => token_ok out t /\ tokens_ok (token_exp out t) ts end.

Definition expand (out : list Z) (ts : list token) : list Z := foldl token_exp out ts.

(** The flag byte of a group whose first token has bit [k]. *)
Fixpoint flags (k : Z) (g : list token) : Z :=
  match g with
  | [] => 0
  | t :: g => Z.lor (if is_match t then 2 ^ k else 0) (flags (k + 1) g)
  end.

Definition group_enc (g : list token) : list Z := flags 0 g :: concat (map token_enc g).

(** A stream: full groups, the last one possibly short. *)
Fixpoint groups_ok (gs : list (list token)) : Prop :=
  match gs with
  | [] => True
  | [g] => (1 <= length g <= 8)%nat
  | g :: gs => length g = 8%nat /\ groups_ok gs
  end.

(** ** Tokens *)
Lemma expand_app out ts us : expand out (ts ++ us) = expand (expand out ts) us.
Proof. apply foldl_app. Qed.

Lemma tokens_ok_app out ts us :
  tokens_ok out (ts ++ us) <-> tokens_ok out ts /\ tokens_ok (expand out ts) us.
Proof.
  revert out. induction ts as [| t ts IH]; intros out; simpl; [tauto |].
  rewrite IH. unfold expand. tauto.
Qed.

Lemma copy_back_length m o out : length (copy_back m o out) = (length out + m)%nat.
Proof. revert out. induction m as [| m IH]; intros out; simpl; [lia |]. rewrite IH, length_app. simpl. lia. Qed.

Lemma copy_back_bytes m o out : Forall is_byte out -> Forall is_byte (copy_back m o out).
Proof.
  revert out. induction m as [| m IH]; intros out Hout; simpl; [done |].
  apply IH, Forall_app. split; [done |]. apply Forall_singleton.
  destruct (nth_in_or_default (length out - o) out 0) as [Hin | ->]; [| unfold is_byte; lia].
  by apply list_elem_of_In in Hin; eapply Forall_forall.
Qed.

Lemma copy_back_take s p m o :
  (1 <= o <= p)%nat -> (p + m <= length s)%nat ->
  (forall i, (i < m)%nat -> s !! (p + i)%nat = s !! (p + i - o)%nat) ->
  copy_back m o (take p s) = take (p + m) s.
Proof.
  revert p. induction m as [| m IH]; intros p Ho Hlen Hs; simpl; [by rewrite Nat.add_0_r |].
  destruct (lookup_lt_is_Some_2 s p) as (b & Hb); [lia |].
  assert (take p s ++ [nth (length (take p s) - o) (take p s) 0] = take (S p) s) as ->.
  { rewrite (take_S_r _ _ _ Hb), length_take, Nat.min_l by lia. do 2 f_equal.
    apply nth_lookup_Some. rewrite lookup_take_lt by lia.
    specialize (Hs 0%nat ltac:(lia)). rewrite Nat.add_0_r in Hs. by rewrite <- Hs. }
  rewrite IH; [f_equal; lia | lia | lia |].
  intros i Hi. specialize (Hs (S i) ltac:(lia)). rewrite <- !Nat.add_succ_comm in Hs. exact Hs.
Qed.

Lemma token_exp_bytes out t : Forall is_byte out -> token_ok out t -> Forall is_byte (token_exp out t).
Proof.
  destruct t; simpl; intros Hout Ht; [| by apply copy_back_bytes].
  apply Forall_app. by rewrite Forall_singleton.
Qed.

Lemma token_exp_length out t : token_ok out t -> (length out < length (token_exp out t))%nat.
Proof. destruct t; simpl; intros Ht; [rewrite length_app; simpl; lia |]. rewrite copy_back_length. lia. Qed.

Lemma expand_length out ts : tokens_ok out ts -> (length out + length ts <= length (expand out ts))%nat.
Proof.
  revert out. induction ts as [| t ts IH]; intros out; cbn; [lia |].
  intros (Ht & Hts). fold (expand (token_exp out t) ts). apply IH in Hts. apply token_exp_length in Ht. lia.
Qed.

(** ** Flags *)
Lemma flags_snoc k g t :
  flags k (g ++ [t]) = Z.lor (flags k g) (if is_match t then 2 ^ (k + Z.of_nat (length g)) else 0).
Proof.
  revert k. induction g as [| u g IH]; intros k; simpl.
  - by rewrite Z.lor_0_r, Z.add_0_r.
  - rewrite IH, Z.lor_assoc. by replace (k + 1 + Z.of_nat (length g)) with (k + Z.of_nat (S (length g))) by lia.
Qed.

Lemma flags_testbit k g i t :
  0 <= k -> g !! i = Some t -> Z.testbit (flags k g) (k + Z.of_nat i) = is_match t.
Proof.
  assert (Hlow : forall g k j, 0 <= j < k -> Z.testbit (flags k g) j = false).
  { clear. induction g as [| u g IH]; intros k j Hj; simpl; [apply Z.bits_0 |].
    rewrite Z.lor_spec, IH by lia. rewrite orb_false_r. destruct (is_match u); [| apply Z.bits_0].
    apply Z.pow2_bits_false. lia. }
  revert k i. induction g as [| u g IH]; intros k [| i] Hk Hi; simpl in *; try discriminate.
  - injection Hi as ->. rewrite Z.lor_spec, Z.add_0_r, Hlow by lia. rewrite orb_false_r.
    destruct (is_match t); [by apply Z.pow2_bits_true | apply Z.bits_0].
  - rewrite Z.lor_spec. replace (k + Z.of_nat (S i)) with (k + 1 + Z.of_nat i) by lia.
    rewrite IH by (done || lia). destruct (is_match u); [| by rewrite Z.bits_0].
    by rewrite Z.pow2_bits_false by lia.
Qed.

Lemma flags_byte g : (length g <= 8)%nat -> is_byte (flags 0 g).
Proof.
  assert (Hr : forall g k, 0 <= k -> 0 <= flags k g < 2 ^ (k + Z.of_nat (length g))).
  { clear. induction g as [| t g IH]; intros k Hk; simpl; [lia |].
    specialize (IH (k + 1) ltac:(lia)). replace (k + 1 + Z.of_nat (length g)) with (k + Z.of_nat (S (length g))) in IH by lia.
    assert (0 <= (if is_match t then 2 ^ k else 0) < 2 ^ (k + Z.of_nat (S (length g)))) as Ht.
    { destruct (is_match t); [| lia]. split; [lia |]. apply Z.pow_lt_mono_r; lia. }
    split; [apply Z.lor_nonneg; lia |].
    destruct (Z.eq_dec (Z.lor (if is_match t then 2 ^ k else 0) (flags (k + 1) g)) 0) as [-> | Hnz]; [lia |].
    apply Z.log2_lt_pow2; [assert (0 <= Z.lor (if is_match t then 2 ^ k else 0) (flags (k + 1) g)) by (apply Z.lor_nonneg; lia); lia |].
    rewrite Z.log2_lor by lia. apply Z.max_lub_lt.
    - destruct (is_match t); [rewrite Z.log2_pow2 by lia; lia | rewrite Z.log2_nonpos by lia; lia].
    - destruct (Z.eq_dec (flags (k + 1) g) 0) as [-> | ?]; [rewrite Z.log2_nonpos by lia; lia |].
      apply Z.log2_lt_pow2; lia. }
  intros Hg. specialize (Hr g 0 ltac:(lia)). unfold is_byte.
  assert (2 ^ (0 + Z.of_nat (length g)) <= 2 ^ 8) by (apply Z.pow_le_mono_r; lia). lia.
Qed.

Lemma land_flag c j : 0 <= j -> negb (Z.land c (2 ^ j) =? 0) = Z.testbit c j.
Proof.
  intros Hj. rewrite Z.land_comm. destruct (Z.eqb_spec (Z.land (2 ^ j) c) 0) as [E | E]; simpl.
  - apply (f_equal (fun z => Z.testbit z j)) in E.
    by rewrite Z.land_spec, Z.pow2_bits_true, Z.bits_0 in E.
  - destruct (Z.testbit c j) eqn:Eb; [done |]. exfalso. apply E, Z.bits_inj'. intros i Hi.
    rewrite Z.land_spec, Z.bits_0, Z.pow2_bits_eqb by lia.
    destruct (Z.eqb_spec j i) as [<- | ?]; [by rewrite Eb | done].
Qed.
