(* ===== verification/LzjbThms.v ===== *)
(** * Theorems on LZJB

    The decompressor expands the streams of LzjbSpec, the compressor writes
    them: hence the round trip. *)
From S2P Require Import Prelude Bytes Lzjb LzjbSpec.
Local Open Scope Z_scope.

(** ** The decompressor on a stream *)
Lemma store_app out x tail b :
  is_byte b -> store (out ++ x :: tail) (Z.of_nat (length out)) b = Ok (out ++ b :: tail).
Proof.
  intros Hb. unfold store. rewrite VERIFY_pass by (rewrite length_app; cbn [length]; apply andb_true_intro; lia).
  rewrite Nat2Z.id, uchar_byte by done. rewrite insert_app_r_alt by lia. by rewrite Nat.sub_diag.
Qed.

Lemma byte_at_nth s i : (i < length s)%nat -> byte_at s (Z.of_nat i) = Ok (nth i s 0).
Proof.
  intros Hi. destruct (lookup_lt_is_Some_2 s i Hi) as (b & Hb).
  rewrite (nth_lookup_Some _ _ _ _ Hb). unfold byte_at.
  rewrite (proj2 (Z.leb_le 0 _)), Nat2Z.id, Hb by lia. done.
Qed.

Lemma nth_byte s i : Forall is_byte s -> is_byte (nth i s 0).
Proof.
  intros Hs. destruct (nth_in_or_default i s 0) as [Hin | ->]; [| unfold is_byte; lia].
  apply list_elem_of_In in Hin. by eapply Forall_forall.
Qed.

Lemma lzjb_copy_spec m o out tail :
  Forall is_byte out -> (1 <= o <= length out)%nat -> (m <= length tail)%nat ->
  lzjb_copy m (out ++ tail) (Z.of_nat (length out)) (Z.of_nat (length out) - Z.of_nat o) =
  Ok (copy_back m o out ++ drop m tail, Z.of_nat (length out + m)).
Proof.
  revert out tail. induction m as [| m IH]; intros out tail Hout Ho Hm; cbn [lzjb_copy copy_back].
  { by rewrite Nat.add_0_r. }
  destruct tail as [| x tail]; [simpl in Hm; lia |].
  rewrite (proj2 (Z.ltb_lt _ _)) by (rewrite length_app; simpl; lia).
  rewrite <- Nat2Z.inj_sub by lia. rewrite byte_at_nth, bind_Ok by (rewrite length_app; lia).
  rewrite app_nth1 by lia. set (b := nth _ out 0).
  rewrite store_app, bind_Ok by (by apply nth_byte).
  specialize (IH (out ++ [b]) tail). rewrite length_app in IH. simpl length in *.
  rewrite <- app_assoc in IH. simpl app in IH.
  replace (Z.of_nat (length out) + 1) with (Z.of_nat (length out + 1)) by lia.
  replace (Z.of_nat (length out - o) + 1) with (Z.of_nat (length out + 1) - Z.of_nat o) by lia.
  rewrite IH; [simpl; do 2 f_equal; lia | | lia | lia].
  apply Forall_app. rewrite Forall_singleton. split; [done | by apply nth_byte].
Qed.

Lemma match_bytes m o :
  (3 <= m <= 66)%nat -> (1 <= o <= 1023)%nat ->
  let b0 := Z.lor (Z.shiftl (Z.of_nat m - 3) 2) (Z.shiftr (Z.of_nat o) 8) in
  is_byte b0 /\ Z.shiftr b0 (NBBY - MATCH_BITS) + MATCH_MIN = Z.of_nat m /\
  Z.land (Z.lor (Z.shiftl b0 NBBY) (uchar (Z.of_nat o))) OFFSET_MASK = Z.of_nat o.
Proof.
  intros Hm Ho b0.
  assert (b0 = (Z.of_nat m - 3) * 4 + Z.of_nat o / 256) as E.
  { unfold b0. rewrite Z.shiftl_mul_pow2, Z.shiftr_div_pow2 by lia. change (2 ^ 8) with 256.
    rewrite lor_fields by (change (2 ^ 2) with 4; Z.to_euclidean_division_equations; lia). done. }
  rewrite E. change (NBBY - MATCH_BITS) with 2. change MATCH_MIN with 3. change OFFSET_MASK with (Z.ones 10).
  rewrite Z.shiftr_div_pow2, Z.land_ones, Z.shiftl_mul_pow2 by (lia || done).
  unfold uchar, is_byte, NBBY.
  rewrite lor_fields by (change (2 ^ 8) with 256; Z.to_euclidean_division_equations; lia).
  change (2 ^ 8) with 256. change (2 ^ 2) with 4. change (2 ^ 10) with 1024.
  Z.to_euclidean_division_equations; lia.
Qed.

Lemma lzjb_token_spec pre t rest out tail c mask :
  token_ok out t -> Forall is_byte out -> (length (token_exp out t) <= length (out ++ tail))%nat ->
  negb (Z.land c mask =? 0) = is_match t ->
  exists tail', length (token_exp out t ++ tail') = length (out ++ tail) /\
  lzjb_token (pre ++ token_enc t ++ rest) (Z.of_nat (length pre)) (out ++ tail) (Z.of_nat (length out)) c mask =
  Ok (Some (Z.of_nat (length (pre ++ token_enc t)), token_exp out t ++ tail', Z.of_nat (length (token_exp out t)))).
Proof.
  intros Ht Hout Hlen Hm. unfold lzjb_token. rewrite Hm.
  destruct t as [b | m o]; cbn [is_match token_enc token_exp token_ok app] in *.
  - destruct tail as [| x tail]; [rewrite !length_app in Hlen; simpl in Hlen; lia |].
    exists tail. rewrite byte_at_app, bind_Ok, store_app, bind_Ok by done.
    rewrite !length_app, <- app_assoc. simpl. split; [lia |]. do 4 f_equal; lia.
  - destruct Ht as (Hm' & Ho & Hoo). rewrite length_app, copy_back_length in Hlen.
    destruct (match_bytes m o Hm' Ho) as (_ & E1 & E2).
    rewrite byte_at_app, bind_Ok, byte_at_next, bind_Ok, E1, E2.
    rewrite (proj2 (Z.ltb_ge _ _)) by lia.
    rewrite Nat2Z.id, lzjb_copy_spec by (done || lia). rewrite bind_Ok. exists (drop m tail).
    rewrite !length_app, copy_back_length, length_drop. simpl. split; [lia |]. do 4 f_equal; lia.
Qed.

Lemma lzjb_done fuel s src out c mask :
  lzjb_decompress_loop fuel s src out (Z.of_nat (length out)) c mask = Ok (0, out).
Proof. destruct fuel; cbn [lzjb_decompress_loop]; by rewrite Z.ltb_irrefl. Qed.

(** Running on from the middle of a group: [k] tokens of it are done, [cur]
    remain, and [gs] is what follows it. *)
Section decompress_groups.
  Context (gs : list (list token)).
  Context (Hgs : forall fuel pre out tail c,
    tokens_ok out (concat gs) -> Forall is_byte out -> (length (concat gs) <= fuel)%nat ->
    length (expand out (concat gs)) = length (out ++ tail) ->
    lzjb_decompress_loop fuel (pre ++ concat (map group_enc gs)) (Z.of_nat (length pre)) (out ++ tail)
      (Z.of_nat (length out)) c (2 ^ 7) = Ok (0, expand out (concat gs))).

Lemma lzjb_decompress_cur cur fuel k pre out tail c :
  (1 <= k)%nat -> (k + length cur <= 8)%nat -> (gs <> [] -> k + length cur = 8)%nat ->
  (forall i t, cur !! i = Some t -> Z.testbit c (Z.of_nat k + Z.of_nat i) = is_match t) ->
  tokens_ok out (cur ++ concat gs) -> Forall is_byte out -> (length (cur ++ concat gs) <= fuel)%nat ->
  length (expand out (cur ++ concat gs)) = length (out ++ tail) ->
  lzjb_decompress_loop fuel (pre ++ concat (map token_enc cur) ++ concat (map group_enc gs))
    (Z.of_nat (length pre)) (out ++ tail) (Z.of_nat (length out)) c (2 ^ (Z.of_nat k - 1)) =
  Ok (0, expand out (cur ++ concat gs)).
Proof.
  revert fuel k pre out tail. induction cur as [| t cur IH]; intros fuel k pre out tail Hk Hk8 Hfull Hbits Hok Hout Hf Hlen.
  - destruct (decide (gs = [])) as [-> | Hne].
    + simpl in Hlen |- *. assert (tail = []) as -> by (apply nil_length_inv; rewrite length_app in Hlen; lia).
      rewrite !app_nil_r. apply lzjb_done.
    + replace k with 8%nat by (specialize (Hfull Hne); simpl in *; lia). by apply Hgs.
  - destruct fuel as [| fuel]; [simpl in Hf; lia |].
    simpl app in Hok, Hlen. destruct Hok as (Ht & Hts). cbn [map concat]. rewrite <- app_assoc.
    assert (Hle : (length (token_exp out t) <= length (out ++ tail))%nat).
    { rewrite <- Hlen. pose proof (expand_length _ _ Hts) as H. simpl. lia. }
    pose proof (token_exp_length _ _ Ht).
    assert (Hbit : negb (Z.land c (2 ^ Z.of_nat k) =? 0) = is_match t).
    { rewrite land_flag by lia. specialize (Hbits 0%nat t eq_refl). by rewrite Z.add_0_r in Hbits. }
    destruct (lzjb_token_spec pre t (concat (map token_enc cur) ++ concat (map group_enc gs)) out tail c _
      Ht Hout Hle Hbit) as (tail' & Hl' & E).
    cbn [lzjb_decompress_loop]. rewrite (proj2 (Z.ltb_lt _ _)) by lia.
    rewrite Z.shiftl_mul_pow2, <- Z.pow_add_r by lia.
    replace (Z.of_nat k - 1 + 1) with (Z.of_nat k) by lia.
    replace (2 ^ Z.of_nat k =? Z.shiftl 1 NBBY) with false.
    2:{ symmetry. apply Z.eqb_neq. change (Z.shiftl 1 NBBY) with (2 ^ 8).
        assert (2 ^ Z.of_nat k < 2 ^ 8) by (apply Z.pow_lt_mono_r; simpl in Hk8; lia). lia. }
    rewrite E, bind_Ok, app_assoc. replace (Z.of_nat k) with (Z.of_nat (S k) - 1) by lia.
    simpl length in *. apply IH; auto.
    + lia.
    + intros Hne. specialize (Hfull Hne). lia.
    + intros i u Hi. specialize (Hbits (S i) u Hi). by replace (Z.of_nat (S k) + Z.of_nat i) with (Z.of_nat k + Z.of_nat (S i)) by lia.
    + by apply token_exp_bytes.
    + simpl in Hf. lia.
    + cbn in Hlen. rewrite Hl'. exact Hlen.
Qed.
End decompress_groups.

Lemma groups_ok_cons g gs : groups_ok (g :: gs) ->
  (1 <= length g <= 8)%nat /\ (gs <> [] -> length g = 8%nat) /\ groups_ok gs.
Proof. destruct gs; simpl; intros H; intuition (try done; lia). Qed.

Lemma lzjb_decompress_groups gs fuel pre out tail c :
  groups_ok gs -> tokens_ok out (concat gs) -> Forall is_byte out -> (length (concat gs) <= fuel)%nat ->
  length (expand out (concat gs)) = length (out ++ tail) ->
  lzjb_decompress_loop fuel (pre ++ concat (map group_enc gs)) (Z.of_nat (length pre)) (out ++ tail)
    (Z.of_nat (length out)) c (2 ^ 7) = Ok (0, expand out (concat gs)).
Proof.
  revert fuel pre out tail c. induction gs as [| g gs IH]; intros fuel pre out tail c Hg Hok Hout Hf Hlen.
  { simpl in Hlen |- *. assert (tail = []) as -> by (apply nil_length_inv; rewrite length_app in Hlen; lia).
    rewrite !app_nil_r. apply lzjb_done. }
  apply groups_ok_cons in Hg as (Hg1 & Hg8 & Hgs).
  destruct g as [| t g]; [simpl in Hg1; lia |].
  destruct fuel as [| fuel]; [simpl in Hf; lia |].
  destruct Hok as (Ht & Hts).
  assert (Hle : (length (token_exp out t) <= length (out ++ tail))%nat).
  { rewrite <- Hlen. pose proof (expand_length _ _ Hts) as H. simpl. lia. }
  pose proof (token_exp_length _ _ Ht).
  assert (Hbit : negb (Z.land (flags 0 (t :: g)) 1 =? 0) = is_match t).
  { change 1 with (2 ^ 0). rewrite land_flag by lia. by apply (flags_testbit 0 (t :: g) 0). }
  cbn [map concat group_enc app].
  destruct (lzjb_token_spec (pre ++ [flags 0 (t :: g)]) t
    (concat (map token_enc g) ++ concat (map group_enc gs)) out tail _ _ Ht Hout Hle Hbit) as (tail' & Hl' & E).
  rewrite <- !(app_assoc pre) in E. cbn [app] in E.
  cbn [lzjb_decompress_loop]. rewrite (proj2 (Z.ltb_lt _ _)) by lia.
  replace (Z.shiftl (2 ^ 7) 1 =? Z.shiftl 1 NBBY) with true by reflexivity.
  rewrite byte_at_app, bind_Ok, <- (app_assoc (token_enc t)).
  replace (Z.of_nat (length pre) + 1) with (Z.of_nat (length (pre ++ [flags 0 (t :: g)])))
    by (rewrite length_app; simpl; lia).
  rewrite E, bind_Ok.
  replace (pre ++ flags 0 (t :: g) :: token_enc t ++ concat (map token_enc g) ++ concat (map group_enc gs))
    with ((pre ++ flags 0 (t :: g) :: token_enc t) ++ concat (map token_enc g) ++ concat (map group_enc gs))
    by (rewrite <- app_assoc; done).
  change 1 with (2 ^ (Z.of_nat 1 - 1)).
  simpl in Hg1, Hf. apply (lzjb_decompress_cur gs); [by eauto | lia | lia | | | done | | lia |].
  - intros Hne. specialize (Hg8 Hne). simpl in Hg8. lia.
  - intros i u Hi. pose proof (flags_testbit 0 (t :: g) (S i) u ltac:(lia) Hi) as Hb.
    by replace (Z.of_nat 1 + Z.of_nat i) with (0 + Z.of_nat (S i)) by lia.
  - by apply token_exp_bytes.
  - rewrite Hl'. exact Hlen.
Qed.

Lemma lzjb_decompress_stream gs d :
  groups_ok gs -> tokens_ok [] (concat gs) -> length (expand [] (concat gs)) = length d ->
  lzjb_decompress (concat (map group_enc gs)) d = Ok (0, expand [] (concat gs)).
Proof.
  intros Hg Ht Hd. apply (lzjb_decompress_groups gs (length d) [] [] d 0); auto.
  rewrite <- Hd. apply (expand_length [] _ Ht).
Qed.

(** ** The compressor *)
Lemma byte_at_in s i :
  Forall is_byte s -> 0 <= i < Z.of_nat (length s) ->
  exists b, byte_at s i = Ok b /\ s !! Z.to_nat i = Some b /\ is_byte b.
Proof.
  intros Hs Hi. exists (nth (Z.to_nat i) s 0).
  rewrite <- (Z2Nat.id i) at 1 by lia. rewrite byte_at_nth by lia.
  split; [done |]. split; [| by apply nth_byte].
  destruct (lookup_lt_is_Some_2 s (Z.to_nat i)) as (b & Hb); [lia |]. by rewrite Hb, (nth_lookup_Some _ _ _ _ Hb).
Qed.

(** The [m] bytes at [src] and at [cpy] agree. *)
Definition agree (s : list Z) (src cpy m : Z) : Prop :=
  forall i, 0 <= i < m -> s !! Z.to_nat (src + i) = s !! Z.to_nat (cpy + i).

Lemma agree_step s src cpy m b :
  agree s src cpy m -> s !! Z.to_nat (src + m) = Some b -> s !! Z.to_nat (cpy + m) = Some b ->
  agree s src cpy (m + 1).
Proof.
  intros Hag H1 H2 i Hi. destruct (Z.eq_dec i m) as [-> | ?]; [congruence |]. apply Hag. lia.
Qed.

Section compress.
Context (s : list Z) (Hs : Forall is_byte s).

(** One comparison of two bytes that are in the buffer. *)
Lemma cmp_step {B} src cpy m (k1 k2 : result B) Q :
  0 <= cpy < src -> 0 <= m -> src + m < Z.of_nat (length s) -> agree s src cpy m ->
  runs k1 Q -> (agree s src cpy (m + 1) -> runs k2 Q) ->
  runs (a ← byte_at s (src + m) ; b ← byte_at s (cpy + m) ; if negb (a =? b) then k1 else k2) Q.
Proof.
  intros Hc Hm Hlen Hag H1 H2.
  destruct (byte_at_in s (src + m) Hs ltac:(lia)) as (a & -> & Ha & _). rewrite bind_Ok.
  destruct (byte_at_in s (cpy + m) Hs ltac:(lia)) as (b & -> & Hb & _). rewrite bind_Ok.
  destruct (Z.eqb_spec a b) as [-> | ?]; simpl; [| done]. eauto using agree_step.
Qed.

Lemma match3_spec src cpy :
  0 <= cpy < src -> src + 3 <= Z.of_nat (length s) ->
  runs (match3 s src cpy) (fun m => m = true -> agree s src cpy 3).
Proof.
  intros Hc Hlen. unfold match3. replace (byte_at s src) with (byte_at s (src + 0)) by (f_equal; lia).
  replace (byte_at s cpy) with (byte_at s (cpy + 0)) by (f_equal; lia).
  apply cmp_step; [done | lia | lia | intros i Hi; lia | done |]. intros H1.
  apply (cmp_step src cpy 1); [done | lia | lia | done | done |]. intros H2.
  destruct (byte_at_in s (src + 2) Hs ltac:(lia)) as (a & -> & Ha & _). rewrite bind_Ok.
  destruct (byte_at_in s (cpy + 2) Hs ltac:(lia)) as (b & -> & Hb & _). rewrite bind_Ok.
  simpl. intros E. apply Z.eqb_eq in E as ->. exact (agree_step _ _ _ 2 _ H2 Ha Hb).
Qed.

Lemma match_len_spec room src cpy mlen :
  0 <= cpy < src -> 0 <= mlen -> src + mlen + Z.of_nat room <= Z.of_nat (length s) -> agree s src cpy mlen ->
  runs (match_len room s src cpy mlen) (fun m => mlen <= m <= mlen + Z.of_nat room /\ agree s src cpy m).
Proof.
  intros Hc. revert mlen. induction room as [| room IH]; intros mlen Hm Hlen Hag; cbn [match_len].
  { simpl. split; [lia | done]. }
  apply cmp_step; [done | done | lia | done | simpl; split; [lia | done] |]. intros Hag'.
  eapply runs_impl; [apply IH; [lia | lia | done] |]. intros m (? & ?). split; [lia | done].
Qed.

Record lz_inv (d_len : Z) (gs : list (list token)) (cur : list token) (st : lzjb_state) : Prop := {
  lz_pos : 0 <= z_src st <= Z.of_nat (length s);
  lz_dst : z_dst st = concat (map group_enc gs) ++ group_enc cur;
  lz_map : z_copymap st = Some (length (concat (map group_enc gs)));
  lz_tok : tokens_ok [] (concat gs ++ cur);
  lz_exp : expand [] (concat gs ++ cur) = take (Z.to_nat (z_src st)) s;
  lz_lempel : length (z_lempel st) = Z.to_nat LEMPEL_SIZE;
  lz_full : Forall (fun g => length g = 8%nat) gs;
  lz_cur : (length cur <= 8)%nat;
  lz_room : Z.of_nat (length (z_dst st)) + 2 * (8 - Z.of_nat (length cur)) <= d_len
}.

Lemma group_enc_lit cur b : group_enc (cur ++ [Lit b]) = group_enc cur ++ [b].
Proof.
  unfold group_enc. rewrite flags_snoc, map_app, concat_app. simpl. by rewrite Z.lor_0_r.
Qed.

Lemma group_enc_match cur m o : group_enc (cur ++ [Match m o]) =
  Z.lor (flags 0 cur) (2 ^ Z.of_nat (length cur)) :: concat (map token_enc cur) ++ token_enc (Match m o).
Proof.
  unfold group_enc. rewrite flags_snoc, map_app, concat_app. simpl. done.
Qed.

Lemma token_step d_len gs cur st st' t :
  lz_inv d_len gs cur st -> (length cur < 8)%nat -> 0 <= z_src st' <= Z.of_nat (length s) ->
  token_ok (take (Z.to_nat (z_src st)) s) t ->
  token_exp (take (Z.to_nat (z_src st)) s) t = take (Z.to_nat (z_src st')) s ->
  z_dst st' = concat (map group_enc gs) ++ group_enc (cur ++ [t]) ->
  z_copymap st' = z_copymap st -> length (z_lempel st') = length (z_lempel st) ->
  Z.of_nat (length (z_dst st')) <= Z.of_nat (length (z_dst st)) + 2 ->
  lz_inv d_len gs (cur ++ [t]) st'.
Proof.
  intros [] Hcur Hpos Ht He Hd Hm Hl Hr. split; rewrite ?Hm, ?Hl, ?length_app in *; simpl; auto; try lia.
  - rewrite app_assoc. apply tokens_ok_app. rewrite lz_exp0. simpl. auto.
  - rewrite app_assoc, expand_app, lz_exp0. simpl. exact He.
Qed.

Lemma lzjb_literal_spec d_len gs cur st :
  lz_inv d_len gs cur st -> (length cur < 8)%nat -> z_src st < Z.of_nat (length s) ->
  runs (lzjb_literal s d_len st) (fun st' => z_copymask st' = z_copymask st /\ z_src st < z_src st' /\
    exists t, lz_inv d_len gs (cur ++ [t]) st').
Proof.
  intros Hinv Hcur Hsrc. pose proof (lz_pos _ _ _ _ Hinv). pose proof (lz_room _ _ _ _ Hinv).
  unfold lzjb_literal. destruct (byte_at_in s (z_src st) Hs ltac:(lia)) as (b & -> & Hb & Hbb).
  rewrite bind_Ok, put_Ok, bind_Ok by (done || lia). simpl.
  split; [done |]. split; [lia |]. exists (Lit b).
  eapply token_step; [exact Hinv | done | simpl; lia | done | | | done | done |]; simpl.
  - rewrite Z2Nat.inj_add, Nat.add_1_r by lia. symmetry. by apply take_S_r.
  - by rewrite group_enc_lit, app_assoc, (lz_dst _ _ _ _ Hinv).
  - rewrite length_app. simpl. lia.
Qed.

Lemma mark_spec gs cur :
  (length cur < 8)%nat ->
  mark (concat (map group_enc gs) ++ group_enc cur) (Some (length (concat (map group_enc gs))))
    (2 ^ Z.of_nat (length cur)) =
  Ok (concat (map group_enc gs) ++ Z.lor (flags 0 cur) (2 ^ Z.of_nat (length cur)) :: concat (map token_enc cur)).
Proof.
  intros Hcur. unfold mark. change (group_enc cur) with (flags 0 cur :: concat (map token_enc cur)). simpl deref. rewrite bind_Ok, list_lookup_middle by done.
  simpl deref. rewrite bind_Ok, uchar_byte.
  - f_equal. rewrite insert_app_r_alt by lia. by rewrite Nat.sub_diag.
  - pose proof (flags_byte (cur ++ [Match 3 1])) as H. rewrite flags_snoc in H. apply H.
    rewrite length_app. simpl. lia.
Qed.

Lemma put_any d_len dst b : Z.of_nat (length dst) < d_len -> put d_len dst b = Ok (dst ++ [uchar b]).
Proof. intros Hd. unfold put. by rewrite VERIFY_pass by lia. Qed.

Lemma land_mask_range x k : 0 <= k -> 0 <= Z.land x (2 ^ k - 1) < 2 ^ k.
Proof.
  intros Hk. replace (2 ^ k - 1) with (Z.ones k) by (rewrite Z.ones_equiv; lia).
  rewrite Z.land_ones by done. apply Z.mod_pos_bound. lia.
Qed.

(** The match branch: the flag, the two bytes, and the bytes they stand for. *)
Lemma lzjb_match_spec d_len gs cur st offset lempel :
  lz_inv d_len gs cur st -> (length cur < 8)%nat -> z_copymask st = 2 ^ Z.of_nat (length cur) ->
  z_src st + MATCH_MAX <= Z.of_nat (length s) -> 1 <= offset <= 1023 -> offset <= z_src st ->
  length lempel = length (z_lempel st) ->
  agree s (z_src st) (z_src st - offset) 3 ->
  runs (dst ← mark (z_dst st) (z_copymap st) (z_copymask st) ;
        mlen ← match_len (Z.to_nat (MATCH_MAX - MATCH_MIN)) s (z_src st) (z_src st - offset) MATCH_MIN ;
        dst ← put d_len dst (Z.lor (Z.shiftl (mlen - MATCH_MIN) (NBBY - MATCH_BITS)) (Z.shiftr offset NBBY)) ;
        dst ← put d_len dst offset ;
        Ok (MkLz (z_src st + mlen) dst (z_copymap st) (z_copymask st) lempel))
    (fun st' => z_copymask st' = z_copymask st /\ z_src st < z_src st' /\
       exists t, lz_inv d_len gs (cur ++ [t]) st').
Proof.
  intros Hinv Hcur Hmask Hlen Ho Hoff Hlem Hag. pose proof Hinv as [].
  rewrite lz_dst0, lz_map0, Hmask, mark_spec, bind_Ok by done.
  change MATCH_MAX with 66 in *. change MATCH_MIN with 3.
  eapply runs_bind; [apply (match_len_spec (Z.to_nat (66 - 3))); [lia | lia | lia | exact Hag] |].
  intros mlen (Hm & Hagm). change (NBBY - MATCH_BITS) with 2. change NBBY with 8.
  destruct (match_bytes (Z.to_nat mlen) (Z.to_nat offset)) as (Hb & _ & _); [lia | lia |].
  rewrite !Z2Nat.id in Hb by lia. rewrite lz_dst0 in lz_room0. rewrite length_app in lz_room0. simpl in lz_room0.
  rewrite put_Ok, bind_Ok by (done || (rewrite length_app; simpl; lia)).
  rewrite put_any, bind_Ok by (rewrite !length_app; simpl; lia).
  simpl. split; [done |]. split; [lia |]. exists (Match (Z.to_nat mlen) (Z.to_nat offset)).
  eapply token_step; [exact Hinv | done | simpl; lia | | | | done | done |]; simpl.
  - rewrite length_take. lia.
  - rewrite Z2Nat.inj_add by lia. apply copy_back_take; [lia | lia |]. intros i Hi.
    specialize (Hagm (Z.of_nat i) ltac:(lia)). replace (Z.to_nat _) with (Z.to_nat (z_src st) + i)%nat in Hagm by lia.
    rewrite Hagm. f_equal. lia.
  - rewrite group_enc_match. simpl. rewrite !Z2Nat.id by lia. rewrite <- !app_assoc. done.
  - rewrite lz_dst0, !length_app. simpl. lia.
Qed.

Lemma lzjb_item_spec s_start d_len gs cur st :
  lz_inv d_len gs cur st -> (length cur < 8)%nat -> z_copymask st = 2 ^ Z.of_nat (length cur) ->
  z_src st < Z.of_nat (length s) ->
  runs (lzjb_item s_start s d_len st) (fun st' => z_copymask st' = z_copymask st /\ z_src st < z_src st' /\
    exists t, lz_inv d_len gs (cur ++ [t]) st').
Proof.
  intros Hinv Hcur Hmask Hsrc. pose proof (lz_pos _ _ _ _ Hinv) as Hpos. unfold lzjb_item.
  destruct (Z.ltb_spec (Z.of_nat (length s) - MATCH_MAX) (z_src st)) as [Hend | Hend];
    [by apply lzjb_literal_spec |].
  change MATCH_MAX with 66 in Hend.
  destruct (byte_at_in s (z_src st) Hs ltac:(lia)) as (b0 & -> & _). rewrite bind_Ok.
  destruct (byte_at_in s (z_src st + 1) Hs ltac:(lia)) as (b1 & -> & _). rewrite bind_Ok.
  destruct (byte_at_in s (z_src st + 2) Hs ltac:(lia)) as (b2 & -> & _). rewrite bind_Ok.
  set (hp := Z.to_nat _). destruct (lookup_lt_is_Some_2 (z_lempel st) hp) as (h & Hh).
  { rewrite (lz_lempel _ _ _ _ Hinv). unfold hp.
    pose proof (land_mask_range (lzjb_hash b0 b1 b2) 10 ltac:(lia)) as H.
    change (LEMPEL_SIZE - 1) with (2 ^ 10 - 1). unfold LEMPEL_SIZE. lia. }
  rewrite Hh. simpl deref. rewrite bind_Ok.
  pose proof (land_mask_range (s_start + z_src st - h) 10 ltac:(lia)) as Hoff.
  change OFFSET_MASK with (2 ^ 10 - 1). set (offset := Z.land (s_start + z_src st - h) _) in *.
  set (lempel := <[hp := _]> (z_lempel st)).
  assert (Hll : length lempel = length (z_lempel st)) by apply length_insert.
  assert (Hlit : runs (lzjb_literal s d_len (MkLz (z_src st) (z_dst st) (z_copymap st) (z_copymask st) lempel))
    (fun st' => z_copymask st' = z_copymask st /\ z_src st < z_src st' /\ exists t, lz_inv d_len gs (cur ++ [t]) st')).
  { apply (lzjb_literal_spec d_len gs cur (MkLz (z_src st) (z_dst st) (z_copymap st) (z_copymask st) lempel)); [| done | done]. destruct Hinv. split; simpl; auto. by rewrite Hll. }
  destruct ((0 <=? z_src st - offset) && negb (z_src st - offset =? z_src st)) eqn:Ec.
  2:{ rewrite bind_Ok. exact Hlit. }
  eapply runs_bind; [apply (match3_spec (z_src st) (z_src st - offset)); lia |].
  intros [|] Hag; [| exact Hlit].
  change (2 ^ 10) with 1024 in Hoff. apply lzjb_match_spec; auto; try lia. change MATCH_MAX with 66. lia.
Qed.

(** The compressor between groups. *)
Record lz_base (d_len : Z) (gs : list (list token)) (st : lzjb_state) : Prop := {
  lb_pos : 0 <= z_src st <= Z.of_nat (length s);
  lb_dst : z_dst st = concat (map group_enc gs);
  lb_tok : tokens_ok [] (concat gs);
  lb_exp : expand [] (concat gs) = take (Z.to_nat (z_src st)) s;
  lb_lempel : length (z_lempel st) = Z.to_nat LEMPEL_SIZE;
  lb_full : Forall (fun g => length g = 8%nat) gs;
  lb_room : Z.of_nat (length (z_dst st)) <= d_len
}.

Definition loop_inv (d_len : Z) (st : lzjb_state) : Prop :=
  (exists gs, lz_base d_len gs st /\ z_copymask st = 2 ^ 7) \/
  (exists gs cur, lz_inv d_len gs cur st /\ (1 <= length cur < 8)%nat /\
     z_copymask st = 2 ^ (Z.of_nat (length cur) - 1)).

Lemma concat_snoc {A} (l : list (list A)) x : concat (l ++ [x]) = concat l ++ x.
Proof. rewrite concat_app. simpl. by rewrite app_nil_r. Qed.

Lemma lz_close d_len gs cur st : lz_inv d_len gs cur st -> length cur = 8%nat -> lz_base d_len (gs ++ [cur]) st.
Proof.
  intros [] H8. split; rewrite ?map_app; cbn [map]; rewrite ?concat_snoc; auto.
  - apply Forall_app. by rewrite Forall_singleton.
  - rewrite H8 in lz_room0. lia.
Qed.

Lemma lz_open d_len gs st :
  lz_base d_len gs st -> Z.of_nat (length (z_dst st)) < d_len - 1 - 2 * NBBY ->
  lz_inv d_len gs [] (MkLz (z_src st) (z_dst st ++ [0]) (Some (length (z_dst st))) 1 (z_lempel st)).
Proof.
  intros [] Hr. unfold NBBY in Hr. split; simpl; auto.
  - by rewrite lb_dst0.
  - by rewrite lb_dst0.
  - by rewrite app_nil_r.
  - by rewrite app_nil_r.
  - lia.
  - rewrite length_app. simpl. lia.
Qed.

Lemma item_loop_inv s_start d_len gs cur st :
  lz_inv d_len gs cur st -> (length cur < 8)%nat -> z_copymask st = 2 ^ Z.of_nat (length cur) ->
  z_src st < Z.of_nat (length s) ->
  runs (lzjb_item s_start s d_len st) (fun st' => loop_inv d_len st' /\ z_src st < z_src st').
Proof.
  intros Hinv Hcur Hmask Hsrc. eapply runs_impl; [by apply lzjb_item_spec |].
  intros st' (Hm & Hlt & t & Hinv'). split; [| done]. rewrite Hmask in Hm.
  destruct (decide (length cur = 7%nat)) as [H7 | H7].
  - left. exists (gs ++ [cur ++ [t]]). rewrite Hm, H7. split; [| done].
    apply lz_close; [done |]. rewrite length_app. simpl. lia.
  - right. exists gs, (cur ++ [t]). rewrite Hm, length_app. simpl. split; [done |]. split; [lia |].
    f_equal. lia.
Qed.

(** What a finished run has written. *)
Definition lz_final (d_len : Z) (o : option lzjb_state) : Prop :=
  match o with
  | None => True
  | Some st => exists gs, groups_ok gs /\ tokens_ok [] (concat gs) /\ expand [] (concat gs) = s /\
      z_dst st = concat (map group_enc gs) /\ Z.of_nat (length (z_dst st)) <= d_len
  end.

Lemma groups_ok_full gs g :
  Forall (fun g => length g = 8%nat) gs -> (1 <= length g <= 8)%nat -> groups_ok (gs ++ [g]).
Proof.
  intros Hgs Hg. induction Hgs as [| h gs Hh Hgs IH]; [done |].
  simpl. destruct (gs ++ [g]) eqn:E; [by destruct gs | done].
Qed.

Lemma loop_inv_final d_len st :
  loop_inv d_len st -> Z.of_nat (length s) <= z_src st -> lz_final d_len (Some st).
Proof.
  intros [(gs & [] & _) | (gs & cur & [] & Hcur & _)] Hsrc.
  - exists gs. rewrite take_ge in lb_exp0 by lia. repeat split; auto.
    destruct gs as [| g gs _] using rev_ind; [done |].
    apply Forall_app in lb_full0 as (? & Hg). apply Forall_inv in Hg. apply groups_ok_full; [done | lia].
  - exists (gs ++ [cur]). rewrite take_ge in lz_exp0 by lia. rewrite map_app. cbn [map]. rewrite !concat_snoc.
    repeat split; auto; [apply groups_ok_full; [done | lia] | lia].
Qed.

Lemma lzjb_compress_loop_spec fuel s_start d_len st :
  loop_inv d_len st -> Z.of_nat (length s) - z_src st <= Z.of_nat fuel ->
  runs (lzjb_compress_loop fuel s_start s d_len st) (lz_final d_len).
Proof.
  revert st. induction fuel as [| fuel IH]; intros st Hinv Hf; cbn [lzjb_compress_loop];
    (destruct (Z.ltb_spec (z_src st) (Z.of_nat (length s))) as [Hsrc | Hsrc]; [| by apply loop_inv_final]);
    [lia |].
  destruct Hinv as [(gs & Hb & Hm) | (gs & cur & Hi & Hcur & Hm)]; rewrite Hm.
  - change (Z.shiftl (2 ^ 7) 1 =? Z.shiftl 1 NBBY) with true. cbv iota.
    destruct (Z.leb_spec (d_len - 1 - 2 * NBBY) (Z.of_nat (length (z_dst st)))) as [Hr | Hr]; [done |].
    rewrite put_Ok, bind_Ok by (unfold is_byte, NBBY in *; lia).
    eapply runs_bind; [eapply item_loop_inv; [by apply lz_open | simpl; lia | done | done] |].
    simpl. intros st' (Hinv' & Hlt). apply IH; [done | lia].
  - rewrite Z.shiftl_mul_pow2, <- Z.pow_add_r by lia.
    replace (Z.of_nat (length cur) - 1 + 1) with (Z.of_nat (length cur)) by lia.
    replace (2 ^ Z.of_nat (length cur) =? Z.shiftl 1 NBBY) with false.
    2:{ symmetry. apply Z.eqb_neq. change (Z.shiftl 1 NBBY) with (2 ^ 8).
        assert (2 ^ Z.of_nat (length cur) < 2 ^ 8) by (apply Z.pow_lt_mono_r; lia). lia. }
    eapply runs_bind; [eapply (item_loop_inv _ _ gs cur); [destruct Hi; split; auto | lia | done | done] |].
    simpl. intros st' (Hinv' & Hlt). apply IH; [done | lia].
Qed.
End compress.

(** Round trip and memory safety of LZJB. Compressing any buffer, at any
    address, into room for [d_len] bytes never loads or stores out of bounds
    and always terminates. When it reports success, by a length below that of
    the source, that length is the number of bytes stored, at most [d_len],
    and decompressing those bytes into any buffer of the original size,
    whatever it held, gives back the source. *)
Theorem lzjb_roundtrip s_start s d_len d0 :
  Forall is_byte s -> 0 <= d_len -> length d0 = length s ->
  exists r d, lzjb_compress s_start s d_len = Ok (r, d) /\
    (r < Z.of_nat (length s) -> r = Z.of_nat (length d) /\ r <= d_len /\ lzjb_decompress d d0 = Ok (0, s)).
Proof.
  intros Hs Hd Hlen. unfold lzjb_compress.
  pose proof (lzjb_compress_loop_spec s Hs (length s) s_start d_len
    (MkLz 0 [] None (Z.shiftl 1 (NBBY - 1)) (replicate (Z.to_nat LEMPEL_SIZE) 0))) as H.
  apply runs_Ok in H as (o & -> & Ho); [| | simpl; lia].
  2:{ left. exists []. split; [| done]. split; simpl; auto; lia. }
  rewrite bind_Ok. destruct o as [st |]; [| exists (Z.of_nat (length s)), []; split; [done | lia]].
  destruct Ho as (gs & Hg & Ht & He & Hdst & Hroom).
  eexists _, _. split; [done |]. intros _. split; [done |]. split; [done |].
  rewrite Hdst, <- He at 1. apply lzjb_decompress_stream; [done | done | by rewrite He].
Qed.

Lemma lzjb_roundtrip_witness :
  exists r d, lzjb_compress 4096 (replicate 90 5) 60 = Ok (r, d) /\ r = 30 /\
    lzjb_decompress d (replicate 90 0) = Ok (0, replicate 90 5).
Proof.
  destruct (lzjb_roundtrip 4096 (replicate 90 5) 60 (replicate 90 0)) as (r & d & E & H);
    [apply Forall_replicate; unfold is_byte; lia | lia | reflexivity |].
  exists r, d. split; [exact E |]. vm_compute in E. injection E as <- <-.
  split; [reflexivity |]. apply H. reflexivity.
Defined.






