(* ===== verification/Gf256.v ===== *)
(** * The Galois field of RAID-Z (zfs/module/zfs/vdev_raidz.c)

    Doubling in the field with 256 elements, on a byte and on the eight bytes
    of a 64-bit word at once, the tables of powers and logarithms, and
    multiplication by a power of two through them. The lemmas show that the
    tables are those of the generator 2 and that doubling is linear. *)
From S2P Require Import Prelude Bytes.
Local Open Scope Z_scope.

(** ** Definitions *)
(** The macro on an [int]; stored into a byte, the result is truncated. *)
Definition VDEV_RAIDZ_MUL_2 (x : Z) : Z :=
  Z.lxor (Z.shiftl x 1) (if negb (Z.land x 0x80 =? 0) then 0x1d else 0).
Definition VDEV_RAIDZ_MUL_4 (x : Z) : Z := VDEV_RAIDZ_MUL_2 (VDEV_RAIDZ_MUL_2 x).

Definition VDEV_RAIDZ_64MUL_2 (x : Z) : Z :=
  let mask := Z.land x 0x8080808080808080 in
  let mask := u64_sub (u64_shl mask 1) (Z.shiftr mask 7) in
  Z.lxor (Z.land (u64_shl x 1) 0xfefefefefefefefe) (Z.land mask 0x1d1d1d1d1d1d1d1d).

Definition VDEV_RAIDZ_64MUL_4 (x : Z) : Z := VDEV_RAIDZ_64MUL_2 (VDEV_RAIDZ_64MUL_2 x).

Definition vdev_raidz_pow2 : list Z :=
  [0x01; 0x02; 0x04; 0x08; 0x10; 0x20; 0x40; 0x80; 0x1d; 0x3a; 0x74; 0xe8; 0xcd; 0x87; 0x13; 0x26;
   0x4c; 0x98; 0x2d; 0x5a; 0xb4; 0x75; 0xea; 0xc9; 0x8f; 0x03; 0x06; 0x0c; 0x18; 0x30; 0x60; 0xc0;
   0x9d; 0x27; 0x4e; 0x9c; 0x25; 0x4a; 0x94; 0x35; 0x6a; 0xd4; 0xb5; 0x77; 0xee; 0xc1; 0x9f; 0x23;
   0x46; 0x8c; 0x05; 0x0a; 0x14; 0x28; 0x50; 0xa0; 0x5d; 0xba; 0x69; 0xd2; 0xb9; 0x6f; 0xde; 0xa1;
   0x5f; 0xbe; 0x61; 0xc2; 0x99; 0x2f; 0x5e; 0xbc; 0x65; 0xca; 0x89; 0x0f; 0x1e; 0x3c; 0x78; 0xf0;
   0xfd; 0xe7; 0xd3; 0xbb; 0x6b; 0xd6; 0xb1; 0x7f; 0xfe; 0xe1; 0xdf; 0xa3; 0x5b; 0xb6; 0x71; 0xe2;
   0xd9; 0xaf; 0x43; 0x86; 0x11; 0x22; 0x44; 0x88; 0x0d; 0x1a; 0x34; 0x68; 0xd0; 0xbd; 0x67; 0xce;
   0x81; 0x1f; 0x3e; 0x7c; 0xf8; 0xed; 0xc7; 0x93; 0x3b; 0x76; 0xec; 0xc5; 0x97; 0x33; 0x66; 0xcc;
   0x85; 0x17; 0x2e; 0x5c; 0xb8; 0x6d; 0xda; 0xa9; 0x4f; 0x9e; 0x21; 0x42; 0x84; 0x15; 0x2a; 0x54;
   0xa8; 0x4d; 0x9a; 0x29; 0x52; 0xa4; 0x55; 0xaa; 0x49; 0x92; 0x39; 0x72; 0xe4; 0xd5; 0xb7; 0x73;
   0xe6; 0xd1; 0xbf; 0x63; 0xc6; 0x91; 0x3f; 0x7e; 0xfc; 0xe5; 0xd7; 0xb3; 0x7b; 0xf6; 0xf1; 0xff;
   0xe3; 0xdb; 0xab; 0x4b; 0x96; 0x31; 0x62; 0xc4; 0x95; 0x37; 0x6e; 0xdc; 0xa5; 0x57; 0xae; 0x41;
   0x82; 0x19; 0x32; 0x64; 0xc8; 0x8d; 0x07; 0x0e; 0x1c; 0x38; 0x70; 0xe0; 0xdd; 0xa7; 0x53; 0xa6;
   0x51; 0xa2; 0x59; 0xb2; 0x79; 0xf2; 0xf9; 0xef; 0xc3; 0x9b; 0x2b; 0x56; 0xac; 0x45; 0x8a; 0x09;
   0x12; 0x24; 0x48; 0x90; 0x3d; 0x7a; 0xf4; 0xf5; 0xf7; 0xf3; 0xfb; 0xeb; 0xcb; 0x8b; 0x0b; 0x16;
   0x2c; 0x58; 0xb0; 0x7d; 0xfa; 0xe9; 0xcf; 0x83; 0x1b; 0x36; 0x6c; 0xd8; 0xad; 0x47; 0x8e; 0x01].

Definition vdev_raidz_log2 : list Z :=
  [0x00; 0x00; 0x01; 0x19; 0x02; 0x32; 0x1a; 0xc6; 0x03; 0xdf; 0x33; 0xee; 0x1b; 0x68; 0xc7; 0x4b;
   0x04; 0x64; 0xe0; 0x0e; 0x34; 0x8d; 0xef; 0x81; 0x1c; 0xc1; 0x69; 0xf8; 0xc8; 0x08; 0x4c; 0x71;
   0x05; 0x8a; 0x65; 0x2f; 0xe1; 0x24; 0x0f; 0x21; 0x35; 0x93; 0x8e; 0xda; 0xf0; 0x12; 0x82; 0x45;
   0x1d; 0xb5; 0xc2; 0x7d; 0x6a; 0x27; 0xf9; 0xb9; 0xc9; 0x9a; 0x09; 0x78; 0x4d; 0xe4; 0x72; 0xa6;
   0x06; 0xbf; 0x8b; 0x62; 0x66; 0xdd; 0x30; 0xfd; 0xe2; 0x98; 0x25; 0xb3; 0x10; 0x91; 0x22; 0x88;
   0x36; 0xd0; 0x94; 0xce; 0x8f; 0x96; 0xdb; 0xbd; 0xf1; 0xd2; 0x13; 0x5c; 0x83; 0x38; 0x46; 0x40;
   0x1e; 0x42; 0xb6; 0xa3; 0xc3; 0x48; 0x7e; 0x6e; 0x6b; 0x3a; 0x28; 0x54; 0xfa; 0x85; 0xba; 0x3d;
   0xca; 0x5e; 0x9b; 0x9f; 0x0a; 0x15; 0x79; 0x2b; 0x4e; 0xd4; 0xe5; 0xac; 0x73; 0xf3; 0xa7; 0x57;
   0x07; 0x70; 0xc0; 0xf7; 0x8c; 0x80; 0x63; 0x0d; 0x67; 0x4a; 0xde; 0xed; 0x31; 0xc5; 0xfe; 0x18;
   0xe3; 0xa5; 0x99; 0x77; 0x26; 0xb8; 0xb4; 0x7c; 0x11; 0x44; 0x92; 0xd9; 0x23; 0x20; 0x89; 0x2e;
   0x37; 0x3f; 0xd1; 0x5b; 0x95; 0xbc; 0xcf; 0xcd; 0x90; 0x87; 0x97; 0xb2; 0xdc; 0xfc; 0xbe; 0x61;
   0xf2; 0x56; 0xd3; 0xab; 0x14; 0x2a; 0x5d; 0x9e; 0x84; 0x3c; 0x39; 0x53; 0x47; 0x6d; 0x41; 0xa2;
   0x1f; 0x2d; 0x43; 0xd8; 0xb7; 0x7b; 0xa4; 0x76; 0xc4; 0x17; 0x49; 0xec; 0x7f; 0x0c; 0x6f; 0xf6;
   0x6c; 0xa1; 0x3b; 0x52; 0x29; 0x9d; 0x55; 0xaa; 0xfb; 0x60; 0x86; 0xb1; 0xbb; 0xcc; 0x3e; 0x5a;
   0xcb; 0x59; 0x5f; 0xb0; 0x9c; 0xa9; 0xa0; 0x51; 0x0b; 0xf5; 0x16; 0xeb; 0x7a; 0x75; 0x2c; 0xd7;
   0x4f; 0xae; 0xd5; 0xe9; 0xe6; 0xe7; 0xad; 0xe8; 0x74; 0xd6; 0xf4; 0xea; 0xa8; 0x50; 0x58; 0xaf].

(** Indexing of the two tables; an index out of range is a panic. *)
Definition pow2_at (i : Z) : result Z := byte_at vdev_raidz_pow2 i.
Definition log2_at (i : Z) : result Z := byte_at vdev_raidz_log2 i.

Definition vdev_raidz_exp2 (a exp : Z) : result Z :=
  if a =? 0 then Ok 0 else
  VERIFY (0 <=? exp) ;;
  l ← log2_at a ;
  VERIFY ((0 <? l) || (a =? 1)) ;;
  let exp := exp + l in
  let exp := if 255 <? exp then exp - 255 else exp in
  pow2_at exp.

(** ** Doubling of a byte *)
Definition gmul2 (b : Z) : Z := uchar (VDEV_RAIDZ_MUL_2 b).
Definition gpow (k : nat) (b : Z) : Z := Nat.iter k gmul2 b.

Lemma byte_testbit b i : is_byte b -> 8 <= i -> Z.testbit b i = false.
Proof.
  intros Hb Hi. destruct (Z.eq_dec b 0) as [-> | ?]; [apply Z.bits_0 |].
  apply Z.bits_above_log2; [unfold is_byte in Hb; lia |].
  apply Z.lt_le_trans with 8; [| lia]. apply Z.log2_lt_pow2; unfold is_byte in Hb; lia.
Qed.

Lemma byte_of_bits b : 0 <= b -> (forall i, 8 <= i -> Z.testbit b i = false) -> is_byte b.
Proof.
  intros H0 H. split; [done |]. replace b with (b mod 2 ^ 8); [apply Z.mod_pos_bound; lia |].
  rewrite <- Z.land_ones by lia. apply Z.bits_inj'. intros i Hi. rewrite Z.land_spec, Z.testbit_ones_nonneg by lia.
  destruct (Z.ltb_spec i 8); [by rewrite andb_true_r |]. by rewrite H, andb_false_l by lia.
Qed.

Lemma lxor_byte a b : is_byte a -> is_byte b -> is_byte (Z.lxor a b).
Proof.
  intros Ha Hb. apply byte_of_bits; [apply Z.lxor_nonneg; unfold is_byte in *; lia |].
  intros i Hi. by rewrite Z.lxor_spec, !byte_testbit.
Qed.

Lemma gmul2_byte b : is_byte (gmul2 b).
Proof. apply uchar_is_byte. Qed.

Lemma land_0x80 b : negb (Z.land b 0x80 =? 0) = Z.testbit b 7.
Proof.
  destruct (Z.eqb_spec (Z.land b 0x80) 0) as [E | E]; simpl.
  - apply (f_equal (fun z => Z.testbit z 7)) in E. rewrite Z.land_spec, Z.bits_0 in E.
    change (Z.testbit 128 7) with true in E. by rewrite andb_true_r in E.
  - destruct (Z.testbit b 7) eqn:Eb; [done |]. exfalso. apply E, Z.bits_inj'. intros i Hi.
    change 0x80 with (2 ^ 7). rewrite Z.land_spec, Z.bits_0, Z.pow2_bits_eqb by lia.
    destruct (Z.eqb_spec 7 i) as [<- | ?]; [by rewrite Eb | by rewrite andb_false_r].
Qed.

Lemma uchar_lxor a b : uchar (Z.lxor a b) = Z.lxor (uchar a) (uchar b).
Proof.
  unfold uchar. change 256 with (2 ^ 8). rewrite <- !Z.land_ones by lia.
  apply Z.bits_inj'. intros i Hi. rewrite !Z.land_spec, !Z.lxor_spec, !Z.land_spec.
  by destruct (Z.testbit a i), (Z.testbit b i), (Z.testbit (Z.ones 8) i).
Qed.

(** Doubling is linear. *)
Lemma gmul2_lxor a b : gmul2 (Z.lxor a b) = Z.lxor (gmul2 a) (gmul2 b).
Proof.
  unfold gmul2. rewrite <- uchar_lxor. f_equal. unfold VDEV_RAIDZ_MUL_2.
  rewrite !land_0x80, Z.lxor_spec, Z.shiftl_lxor.
  apply Z.bits_inj'. intros i Hi. rewrite !Z.lxor_spec.
  destruct (Z.testbit a 7), (Z.testbit b 7); simpl; rewrite ?Z.bits_0;
    by destruct (Z.testbit (Z.shiftl a 1) i), (Z.testbit (Z.shiftl b 1) i), (Z.testbit 29 i).
Qed.

Lemma gmul2_0 : gmul2 0 = 0.
Proof. reflexivity. Qed.

Lemma gpow_lxor k a b : gpow k (Z.lxor a b) = Z.lxor (gpow k a) (gpow k b).
Proof. induction k as [| k IH]; simpl; [done |]. unfold gpow in *. by rewrite IH, gmul2_lxor. Qed.

Lemma gpow_0 k : gpow k 0 = 0.
Proof. induction k as [| k IH]; simpl; [done |]. unfold gpow in *. by rewrite IH. Qed.

Lemma gpow_add j k b : gpow (j + k) b = gpow j (gpow k b).
Proof. apply Nat.iter_add. Qed.

Lemma gpow_byte k b : is_byte b -> is_byte (gpow k b).
Proof. destruct k; [done |]. intros _. apply gmul2_byte. Qed.

(** ** The tables *)
Definition byte_range : list Z := map Z.of_nat (seq 0 256).

Lemma byte_range_spec b : is_byte b -> b ∈ byte_range.
Proof.
  intros Hb. apply list_elem_of_In, in_map_iff. exists (Z.to_nat b). unfold is_byte in Hb.
  split; [lia |]. apply in_seq. lia.
Qed.

Definition pow2 (i : Z) : Z := nth (Z.to_nat i) vdev_raidz_pow2 0.
Definition log2 (i : Z) : Z := nth (Z.to_nat i) vdev_raidz_log2 0.

Lemma pow2_at_Ok i : is_byte i -> pow2_at i = Ok (pow2 i).
Proof.
  intros Hi. unfold pow2_at, byte_at, pow2. rewrite (proj2 (Z.leb_le 0 i)) by (unfold is_byte in Hi; lia).
  destruct (lookup_lt_is_Some_2 vdev_raidz_pow2 (Z.to_nat i)) as (b & Hb).
  { change (length vdev_raidz_pow2) with 256%nat. unfold is_byte in Hi. lia. }
  by rewrite Hb, (nth_lookup_Some _ _ _ _ Hb).
Qed.

Lemma log2_at_Ok i : is_byte i -> log2_at i = Ok (log2 i).
Proof.
  intros Hi. unfold log2_at, byte_at, log2. rewrite (proj2 (Z.leb_le 0 i)) by (unfold is_byte in Hi; lia).
  destruct (lookup_lt_is_Some_2 vdev_raidz_log2 (Z.to_nat i)) as (b & Hb).
  { change (length vdev_raidz_log2) with 256%nat. unfold is_byte in Hi. lia. }
  by rewrite Hb, (nth_lookup_Some _ _ _ _ Hb).
Qed.

Lemma pow2_step : forallb (fun i => pow2 (i + 1) =? gmul2 (pow2 i)) (map Z.of_nat (seq 0 255)) = true.
Proof. vm_compute. reflexivity. Qed.

Lemma log2_table :
  forallb (fun a => (a =? 0) || ((0 <=? log2 a) && (log2 a <? 255) && (pow2 (log2 a) =? a))) byte_range = true.
Proof. vm_compute. reflexivity. Qed.

Lemma pow2_gpow k : (k <= 255)%nat -> pow2 (Z.of_nat k) = gpow k 1.
Proof.
  induction k as [| k IH]; intros Hk; [reflexivity |].
  pose proof pow2_step as H. rewrite forallb_forall in H.
  specialize (H (Z.of_nat k)). rewrite in_map_iff in H.
  assert (pow2 (Z.of_nat k + 1) = gmul2 (pow2 (Z.of_nat k))) as E.
  { apply Z.eqb_eq, H. exists k. split; [done | apply in_seq; lia]. }
  replace (Z.of_nat (S k)) with (Z.of_nat k + 1) by lia. by rewrite E, IH by lia.
Qed.

Lemma log2_spec a : is_byte a -> a <> 0 -> 0 <= log2 a < 255 /\ gpow (Z.to_nat (log2 a)) 1 = a.
Proof.
  intros Ha Hnz. pose proof log2_table as H. rewrite forallb_forall in H.
  specialize (H a (proj1 (list_elem_of_In _ _) (byte_range_spec a Ha))).
  destruct (Z.eqb_spec a 0); [done |]. simpl in H. rewrite <- pow2_gpow, Z2Nat.id by lia. lia.
Qed.

Lemma gpow_255_1 : gpow 255 1 = 1.
Proof. rewrite <- pow2_gpow by lia. reflexivity. Qed.

(** The generator: doubling 255 times is the identity. *)
Lemma gpow_255 b : is_byte b -> gpow 255 b = b.
Proof.
  intros Hb. destruct (Z.eq_dec b 0) as [-> | Hnz]; [apply gpow_0 |].
  destruct (log2_spec b Hb Hnz) as (_ & <-). rewrite <- gpow_add, Nat.add_comm, gpow_add. by rewrite gpow_255_1.
Qed.

(** Multiplication by a power of two through the tables. *)
Lemma exp2_spec a e : is_byte a -> 0 <= e <= 255 -> vdev_raidz_exp2 a e = Ok (gpow (Z.to_nat e) a).
Proof.
  intros Ha He. unfold vdev_raidz_exp2. destruct (Z.eqb_spec a 0) as [-> | Hnz]; [by rewrite gpow_0 |].
  rewrite VERIFY_pass, log2_at_Ok, bind_Ok by (done || lia).
  destruct (log2_spec a Ha Hnz) as (Hl & Ea).
  rewrite VERIFY_pass.
  2:{ destruct (Z.eqb_spec a 1) as [| Ha1]; [apply orb_true_r |]. destruct (Z.ltb_spec 0 (log2 a)); [done |].
      replace (log2 a) with 0 in Ea by lia. simpl in Ea. congruence. }
  replace (gpow (Z.to_nat e) a) with (gpow (Z.to_nat e + Z.to_nat (log2 a)) 1) by (by rewrite gpow_add, Ea).
  destruct (Z.ltb_spec 255 (e + log2 a)).
  - rewrite pow2_at_Ok by (unfold is_byte; lia). f_equal.
    rewrite <- (Z2Nat.id (e + log2 a - 255)) by lia. rewrite pow2_gpow by lia.
    replace (Z.to_nat e + Z.to_nat (log2 a))%nat with (Z.to_nat (e + log2 a - 255) + 255)%nat by lia.
    by rewrite gpow_add, gpow_255_1.
  - rewrite pow2_at_Ok by (unfold is_byte; lia). f_equal.
    rewrite <- (Z2Nat.id (e + log2 a)) by lia. rewrite pow2_gpow by lia. f_equal. lia.
Qed.

(** ** Words as eight bytes *)
Lemma cons_testbit b w i : is_byte b -> 0 <= i ->
  Z.testbit (b + 256 * w) i = if i <? 8 then Z.testbit b i else Z.testbit w (i - 8).
Proof.
  intros Hb Hi. replace (b + 256 * w) with (Z.lor (w * 2 ^ 8) b).
  2:{ rewrite lor_fields by (done || lia). lia. }
  rewrite Z.lor_spec. destruct (Z.ltb_spec i 8).
  - rewrite Z.mul_pow2_bits_low by lia. done.
  - rewrite (byte_testbit b) by (done || lia). rewrite orb_false_r.
    by rewrite Z.mul_pow2_bits by lia.
Qed.

Lemma cons_bits b w x : is_byte b ->
  (forall i, 0 <= i -> Z.testbit x i = if i <? 8 then Z.testbit b i else Z.testbit w (i - 8)) -> x = b + 256 * w.
Proof. intros Hb Hx. apply Z.bits_inj'. intros i Hi. by rewrite cons_testbit, Hx. Qed.

Lemma land_byte b c : is_byte b -> is_byte (Z.land b c).
Proof.
  intros Hb. apply byte_of_bits; [apply Z.land_nonneg; unfold is_byte in Hb; lia |].
  intros i Hi. by rewrite Z.land_spec, byte_testbit.
Qed.

Lemma land_cons b c w v : is_byte b -> is_byte c ->
  Z.land (b + 256 * w) (c + 256 * v) = Z.land b c + 256 * Z.land w v.
Proof.
  intros Hb Hc. apply cons_bits; [by apply land_byte |]. intros i Hi.
  rewrite !Z.land_spec, !cons_testbit by done. by destruct (i <? 8).
Qed.

Lemma lxor_cons b c w v : is_byte b -> is_byte c ->
  Z.lxor (b + 256 * w) (c + 256 * v) = Z.lxor b c + 256 * Z.lxor w v.
Proof.
  intros Hb Hc. apply cons_bits; [by apply lxor_byte |]. intros i Hi.
  rewrite !Z.lxor_spec, !cons_testbit by done. by destruct (i <? 8).
Qed.

Lemma le_word_lxor xs ys : length xs = length ys -> Forall is_byte xs -> Forall is_byte ys ->
  Z.lxor (le_word xs) (le_word ys) = le_word (zip_with Z.lxor xs ys).
Proof.
  revert ys. induction xs as [| x xs IH]; intros [| y ys] Hl Hx Hy; simpl in *; try done.
  apply Forall_cons in Hx as (? & ?), Hy as (? & ?). by rewrite lxor_cons, IH by (done || lia).
Qed.

Lemma le_word_land c xs : is_byte c -> Forall is_byte xs ->
  Z.land (le_word xs) (le_word (replicate (length xs) c)) = le_word (map (fun x => Z.land x c) xs).
Proof.
  intros Hc. induction 1 as [| x xs Hx Hxs IH]; simpl; [done |]. by rewrite land_cons, IH.
Qed.

Lemma gmul4_table : forallb (fun b => gmul2 (gmul2 b) =? uchar (VDEV_RAIDZ_MUL_4 b)) byte_range = true.
Proof. vm_compute. reflexivity. Qed.

Lemma gmul4_uchar b : is_byte b -> gmul2 (gmul2 b) = uchar (VDEV_RAIDZ_MUL_4 b).
Proof.
  intros Hb. pose proof gmul4_table as H. rewrite forallb_forall in H.
  apply Z.eqb_eq, H, list_elem_of_In, byte_range_spec, Hb.
Qed.

(** The mask of the top bits, spread over the bytes. *)
Lemma top_bits_128 ms : Forall (fun m => m = 0 \/ m = 128) ms -> exists k, le_word ms = 128 * k.
Proof.
  induction 1 as [| m ms Hm Hms (k & IH)]; [by exists 0 |]. simpl. rewrite IH.
  destruct Hm as [-> | ->]; [exists (256 * k) | exists (1 + 256 * k)]; lia.
Qed.

Lemma spread_mask ms :
  Forall (fun m => m = 0 \/ m = 128) ms ->
  2 * le_word ms - Z.shiftr (le_word ms) 7 = le_word (map (fun m => if m =? 128 then 255 else 0) ms).
Proof.
  intros Hms. rewrite Z.shiftr_div_pow2 by lia. change (2 ^ 7) with 128.
  induction Hms as [| m ms Hm Hms IH]; [reflexivity |]. simpl.
  destruct (top_bits_128 ms Hms) as (j & Hj). rewrite Hj in *.
  replace (128 * j / 128) with j in IH by (Z.to_euclidean_division_equations; lia). rewrite <- IH.
  destruct Hm as [-> | ->]; simpl; Z.to_euclidean_division_equations; lia.
Qed.

(** The doubled bytes without the carries between them. *)
Lemma shifted_bytes xs : Forall is_byte xs ->
  Z.land (2 * le_word xs) (le_word (replicate (length xs) 254)) = le_word (map (fun x => Z.land (2 * x) 254) xs).
Proof.
  assert (Hc : forall w c n, c = 0 \/ c = 1 ->
    Z.land (c + 2 * w) (le_word (replicate n 254)) = Z.land (2 * w) (le_word (replicate n 254))).
  { intros w c n Hc. assert (Z.testbit (le_word (replicate n 254)) 0 = false) as H0.
    { destruct n; [reflexivity |]. cbn [replicate le_word]. rewrite cons_testbit by (unfold is_byte; lia). done. }
    apply Z.bits_inj'. intros i Hi. rewrite !Z.land_spec.
    destruct (Z.eq_dec i 0) as [-> | Hn]; [by rewrite H0, !andb_false_r |].
    f_equal. replace i with (Z.succ (i - 1)) by lia. destruct Hc as [-> | ->].
    - done.
    - rewrite Z.add_comm, Z.testbit_odd_succ, Z.testbit_even_succ by lia. done. }
  induction 1 as [| x xs Hx Hxs IH]; [reflexivity |]. cbn [length replicate le_word map]. rewrite <- IH.
  unfold is_byte in Hx.
  replace (2 * (x + 256 * le_word xs)) with (2 * x mod 256 + 256 * (2 * x / 256 + 2 * le_word xs))
    by (Z.to_euclidean_division_equations; lia).
  rewrite land_cons by (unfold is_byte; Z.to_euclidean_division_equations; lia).
  rewrite Hc by (Z.to_euclidean_division_equations; lia). f_equal.
  change 256 with (2 ^ 8). rewrite <- Z.land_ones by lia. by rewrite <- Z.land_assoc.
Qed.

Lemma gmul2_alt x : is_byte x ->
  gmul2 x = Z.lxor (Z.land (2 * x) 254) (Z.land (if Z.land x 128 =? 128 then 255 else 0) 29).
Proof.
  intros Hx. assert (forallb (fun x => gmul2 x =?
    Z.lxor (Z.land (2 * x) 254) (Z.land (if Z.land x 128 =? 128 then 255 else 0) 29)) byte_range = true) as H
    by (vm_compute; reflexivity).
  rewrite forallb_forall in H. apply Z.eqb_eq, H, list_elem_of_In. by apply byte_range_spec.
Qed.

Lemma mul64_bytes xs : length xs = 8%nat -> Forall is_byte xs ->
  VDEV_RAIDZ_64MUL_2 (le_word xs) = le_word (map gmul2 xs).
Proof.
  intros Hl Hx. unfold VDEV_RAIDZ_64MUL_2.
  change 0x8080808080808080 with (le_word (replicate 8 128)).
  change 0xfefefefefefefefe with (le_word (replicate 8 254)).
  change 0x1d1d1d1d1d1d1d1d with (le_word (replicate 8 29)). rewrite <- Hl.
  rewrite le_word_land by (done || (unfold is_byte; lia)).
  set (ms := map _ xs).
  assert (Hms : Forall (fun m => m = 0 \/ m = 128) ms).
  { apply Forall_map, (Forall_impl _ _ _ Hx). intros x Hb. simpl. pose proof (land_0x80 x) as E.
    destruct (Z.eqb_spec (Z.land x 128) 0) as [-> | Hne]; [by left |]. right. change (negb false) with true in E.
    apply Z.bits_inj'. intros i Hi. change 128 with (2 ^ 7).
    rewrite Z.land_spec, Z.pow2_bits_eqb by lia. destruct (Z.eqb_spec 7 i) as [<- | ?]; [by rewrite <- E | apply andb_false_r]. }
  assert (Hmb : Forall is_byte (map (fun m => if m =? 128 then 255 else 0) ms)).
  { apply Forall_map, (Forall_impl _ _ _ Hms). intros m _. simpl. unfold is_byte. destruct (m =? 128); lia. }
  replace (u64_sub (u64_shl (le_word ms) 1) (Z.shiftr (le_word ms) 7))
    with (le_word (map (fun m => if m =? 128 then 255 else 0) ms)).
  2:{ rewrite <- spread_mask by done. unfold u64_sub, u64_shl, u64. rewrite Z.shiftl_mul_pow2 by lia.
      rewrite Zminus_mod_idemp_l, Z.mod_small; [lia |].
      pose proof (le_word_range _ Hmb) as Hr. rewrite <- spread_mask in Hr by done.
      unfold ms in *. rewrite !length_map, Hl in Hr. unfold W64. change (256 ^ Z.of_nat 8) with (2 ^ 64) in Hr. lia. }
  replace (length xs) with (length (map (fun m => if m =? 128 then 255 else 0) ms)) at 2
    by (unfold ms; by rewrite !length_map).
  rewrite (le_word_land 29) by (done || (unfold is_byte; lia)).
  replace (Z.land (u64_shl (le_word xs) 1) (le_word (replicate (length xs) 254)))
    with (Z.land (2 * le_word xs) (le_word (replicate (length xs) 254))).
  2:{ unfold u64_shl, u64, W64. rewrite Hl, Z.shiftl_mul_pow2, <- (Z.land_ones _ 64) by lia.
      rewrite <- Z.land_assoc. f_equal. lia. }
  rewrite shifted_bytes by done. rewrite le_word_lxor.
  - f_equal. unfold ms. rewrite !map_map. clear -Hx. induction Hx as [| x xs Hb Hx IH]; [done |].
    cbn [map zip_with]. rewrite IH. f_equal. symmetry. by apply gmul2_alt.
  - unfold ms. by rewrite !length_map.
  - apply Forall_map, Forall_true. intros x. rewrite Z.land_comm. apply land_byte. unfold is_byte. lia.
  - apply Forall_map, Forall_true. intros x. rewrite Z.land_comm. apply land_byte. unfold is_byte. lia.
Qed.

(** ** Exponents *)
(** Every element is a power of the generator, so an identity between powers
    of the generator holds of every element. *)
Lemma gpow_comm j k b : gpow j (gpow k b) = gpow k (gpow j b).
Proof. by rewrite <- !gpow_add, Nat.add_comm. Qed.

Lemma gpow_cong e e' u : gpow e 1 = gpow e' 1 -> is_byte u -> gpow e u = gpow e' u.
Proof.
  intros H Hu. destruct (Z.eq_dec u 0) as [-> | Hnz]; [by rewrite !gpow_0 |].
  destruct (log2_spec u Hu Hnz) as (_ & <-). by rewrite (gpow_comm e), (gpow_comm e'), H.
Qed.

Lemma gpow_plus_1 e e' u : gpow e 1 = Z.lxor (gpow e' 1) 1 -> is_byte u -> gpow e u = Z.lxor (gpow e' u) u.
Proof.
  intros H Hu. destruct (Z.eq_dec u 0) as [-> | Hnz]; [by rewrite !gpow_0 |].
  destruct (log2_spec u Hu Hnz) as (_ & <-). by rewrite (gpow_comm e), (gpow_comm e'), H, gpow_lxor.
Qed.

Lemma gpow_nonzero k b : (k <= 255)%nat -> is_byte b -> b <> 0 -> gpow k b <> 0.
Proof.
  intros Hk Hb Hnz E. apply Hnz. rewrite <- (gpow_255 b Hb).
  replace 255%nat with (255 - k + k)%nat by lia. by rewrite gpow_add, E, gpow_0.
Qed.

Lemma gpow_not_1 k : (0 < k < 255)%nat -> gpow k 1 <> 1.
Proof.
  intros Hk. rewrite <- pow2_gpow by lia.
  assert (forallb (fun k => negb (pow2 (Z.of_nat k) =? 1)) (seq 1 254) = true) as H by (vm_compute; reflexivity).
  rewrite forallb_forall in H. specialize (H k). rewrite in_seq in H.
  specialize (H ltac:(lia)). by apply negb_true_iff, Z.eqb_neq in H.
Qed.

Lemma lxor_1_nonzero a : a <> 1 -> Z.lxor a 1 <> 0.
Proof. intros Ha E. apply Ha. by apply Z.lxor_eq. Qed.

(** The exponent that [vdev_raidz_exp2] and the logarithm table compute. *)
Lemma log2_exp2 a tmp k :
  a = gpow k 1 -> (tmp <= 255)%nat -> (k <= 255)%nat ->
  exists b e, vdev_raidz_exp2 a (Z.of_nat tmp) = Ok b /\ log2_at b = Ok e /\ 0 <= e <= 255 /\
    forall u, is_byte u -> gpow (Z.to_nat e) u = gpow tmp (gpow k u).
Proof.
  intros -> Ht Hk. assert (H1 : is_byte 1) by (unfold is_byte; lia).
  assert (Hb : is_byte (gpow k 1)) by by apply gpow_byte.
  assert (Hn : gpow k 1 <> 0) by by apply gpow_nonzero.
  assert (Hb' : is_byte (gpow tmp (gpow k 1))) by by apply gpow_byte.
  assert (Hn' : gpow tmp (gpow k 1) <> 0) by by apply gpow_nonzero.
  rewrite exp2_spec, Nat2Z.id by (done || lia). eexists _, _. split; [done |].
  rewrite log2_at_Ok by done. destruct (log2_spec _ Hb' Hn') as (Hr & He). split; [done |]. split; [lia |].
  intros u Hu. rewrite <- (gpow_add tmp k u). apply gpow_cong; [| done]. by rewrite He, gpow_add.
Qed.

Lemma lxor_mid a b c : Z.lxor (Z.lxor a b) (Z.lxor c b) = Z.lxor a c.
Proof.
  apply Z.bits_inj'. intros i Hi. rewrite !Z.lxor_spec.
  by destruct (Z.testbit a i), (Z.testbit b i), (Z.testbit c i).
Qed.

(** The coefficients with which two lost columns, [k] apart and the first of
    weight [2^m] in Q, are solved for. *)
Lemma pq_coeffs {B} (k m : nat) za zb (K : Z -> Z -> result B) Q :
  (1 <= k <= m)%nat -> (m <= 254)%nat -> za = 255 - Z.of_nat k -> zb = 255 - Z.of_nat m ->
  (forall aexp bexp, 0 <= aexp <= 255 -> 0 <= bexp <= 255 ->
     (forall dx dy, is_byte dx -> is_byte dy ->
        Z.lxor (gpow (Z.to_nat aexp) (Z.lxor dx dy))
          (gpow (Z.to_nat bexp) (Z.lxor (gpow m dx) (gpow (m - k) dy))) = dx) ->
     runs (K aexp bexp) Q) ->
  runs (a ← pow2_at za ; b ← pow2_at zb ; l ← log2_at (Z.lxor a 1) ;
        let tmp := 255 - l in
        ae ← vdev_raidz_exp2 a tmp ; aexp ← log2_at ae ;
        be ← vdev_raidz_exp2 b tmp ; bexp ← log2_at be ; K aexp bexp) Q.
Proof.
  intros Hk Hm -> -> HK. assert (H1 : is_byte 1) by (unfold is_byte; lia).
  rewrite (pow2_at_Ok (255 - Z.of_nat k)), bind_Ok, (pow2_at_Ok (255 - Z.of_nat m)), bind_Ok by (unfold is_byte; lia).
  replace (255 - Z.of_nat k) with (Z.of_nat (255 - k)) by lia.
  replace (255 - Z.of_nat m) with (Z.of_nat (255 - m)) by lia. rewrite !pow2_gpow by lia.
  assert (Hab : is_byte (Z.lxor (gpow (255 - k) 1) 1)) by (apply lxor_byte; [by apply gpow_byte | done]).
  assert (Han : Z.lxor (gpow (255 - k) 1) 1 <> 0) by (apply lxor_1_nonzero, gpow_not_1; lia).
  rewrite log2_at_Ok, bind_Ok by done. destruct (log2_spec _ Hab Han) as (Hl & El).
  set (l := log2 _) in *. cbv zeta. replace (255 - l) with (Z.of_nat (255 - Z.to_nat l)) by lia.
  destruct (log2_exp2 (gpow (255 - k) 1) (255 - Z.to_nat l) (255 - k)) as (ae & aexp & -> & Ea & Ra & Ha); [done | lia | lia |].
  rewrite bind_Ok, Ea, bind_Ok.
  destruct (log2_exp2 (gpow (255 - m) 1) (255 - Z.to_nat l) (255 - m)) as (be & bexp & -> & Eb & Rb & Hb); [done | lia | lia |].
  rewrite bind_Ok, Eb, bind_Ok. apply HK; [done | done |]. intros dx dy Hdx Hdy.
  rewrite Ha, Hb by (apply lxor_byte; by (done || apply gpow_byte)).
  rewrite <- gpow_lxor. transitivity (gpow (255 - Z.to_nat l) (gpow (Z.to_nat l) dx)).
  - f_equal. rewrite (gpow_plus_1 (Z.to_nat l) (255 - k)) by done.
    rewrite !gpow_lxor, <- (gpow_add (255 - m) m), <- (gpow_add (255 - m) (m - k)).
    replace (255 - m + m)%nat with 255%nat by lia. replace (255 - m + (m - k))%nat with (255 - k)%nat by lia.
    rewrite gpow_255 by done. apply lxor_mid.
  - rewrite <- gpow_add. replace (255 - Z.to_nat l + Z.to_nat l)%nat with 255%nat by lia. by apply gpow_255.
Qed.
