(* ===== verification/GfField.v ===== *)
(** * The bytes as a field

    The doubling of [Gf256] makes the bytes a field of 256 elements: sums are
    exclusive ors, a product is a repeated doubling through the logarithm. The
    field is declared to [ring] and [field]. *)
From Stdlib Require Import Field Field_theory Eqdep_dec.
From S2P Require Import Prelude Bytes Gf256.
Local Open Scope Z_scope.

(** ** Products of bytes *)
Definition gmul (a b : Z) : Z := if a =? 0 then 0 else gpow (Z.to_nat (log2 a)) b.
Definition ginv (a : Z) : Z := gpow (Z.to_nat (255 - log2 a)) 1.

Lemma byte_exp b : is_byte b -> b <> 0 -> exists k, b = gpow k 1.
Proof. intros Hb Hnz. destruct (log2_spec b Hb Hnz) as (_ & E). by exists (Z.to_nat (log2 b)). Qed.

Lemma gpow_nz k : gpow k 1 <> 0.
Proof.
  intros E. assert (Hp : forall m, gpow (k + m) 1 = 0) by (intros m; by rewrite Nat.add_comm, gpow_add, E, gpow_0).
  assert (H255 : forall m, gpow (m * 255) 1 = 1).
  { induction m as [| m IH]; [done |]. cbn [Nat.mul]. by rewrite gpow_add, IH, gpow_255_1. }
  specialize (Hp (k * 254)%nat). replace (k + k * 254)%nat with (k * 255)%nat in Hp by lia. by rewrite H255 in Hp.
Qed.

Lemma gmul_gpow k b : is_byte b -> gmul (gpow k 1) b = gpow k b.
Proof.
  intros Hb. unfold gmul. destruct (Z.eqb_spec (gpow k 1) 0) as [E | _]; [by destruct (gpow_nz k) |].
  destruct (Z.eq_dec b 0) as [-> | Hnz]; [by rewrite !gpow_0 |]. destruct (byte_exp b Hb Hnz) as (l & ->).
  rewrite (gpow_comm _ l), (gpow_comm k l). f_equal.
  apply (log2_spec (gpow k 1)); [apply gpow_byte; unfold is_byte; lia | apply gpow_nz].
Qed.

Lemma gmul_0_l b : gmul 0 b = 0.
Proof. done. Qed.
Lemma gmul_0_r a : gmul a 0 = 0.
Proof. unfold gmul. destruct (a =? 0); [done | apply gpow_0]. Qed.
Lemma gmul_byte a b : is_byte b -> is_byte (gmul a b).
Proof. intros Hb. unfold gmul. destruct (a =? 0); [unfold is_byte; lia | by apply gpow_byte]. Qed.

Ltac as_exp b := destruct (Z.eq_dec b 0) as [-> | ?]; [by rewrite ?gmul_0_l, ?gmul_0_r, ?gmul_0_l |];
  destruct (byte_exp b) as (? & ->); [done | done |].
Ltac bytes := repeat (apply gpow_byte || apply gmul_byte || apply lxor_byte); first [done | unfold is_byte; lia].

Lemma gmul_comm a b : is_byte a -> is_byte b -> gmul a b = gmul b a.
Proof. intros Ha Hb. as_exp a. as_exp b. rewrite !gmul_gpow by bytes. apply gpow_comm. Qed.

Lemma gmul_assoc a b c : is_byte a -> is_byte b -> is_byte c -> gmul a (gmul b c) = gmul (gmul a b) c.
Proof.
  intros Ha Hb Hc. as_exp a. as_exp b. rewrite !gmul_gpow by bytes.
  rewrite <- !gpow_add. by rewrite gmul_gpow.
Qed.

Lemma gmul_lxor a b c : gmul a (Z.lxor b c) = Z.lxor (gmul a b) (gmul a c).
Proof. unfold gmul. destruct (a =? 0); [done | apply gpow_lxor]. Qed.

Lemma gmul_1 a : is_byte a -> gmul 1 a = a.
Proof. intros Ha. by apply (gmul_gpow 0). Qed.

Lemma ginv_byte a : is_byte (ginv a).
Proof. bytes. Qed.

Lemma gmul_inv a : is_byte a -> a <> 0 -> gmul (ginv a) a = 1.
Proof.
  intros Ha Hnz. destruct (log2_spec a Ha Hnz) as (Hl & E). unfold ginv. rewrite gmul_gpow by done.
  rewrite <- E at 2. rewrite <- gpow_add. replace (_ + _)%nat with 255%nat by lia. apply gpow_255_1.
Qed.

(** ** The field *)
Record gf : Type := MkGf { gz : Z; gz_byte : (0 <=? gz) && (gz <? 256) = true }.

Lemma gf_eq (a b : gf) : gz a = gz b -> a = b.
Proof. destruct a as [a Ha], b as [b Hb]. simpl. intros ->. f_equal. apply UIP_dec, bool_dec. Qed.

Lemma gz_is_byte a : is_byte (gz a).
Proof. destruct a as [a Ha]. unfold is_byte. simpl. lia. Qed.

Lemma byte_bool z : (0 <=? z mod 256) && (z mod 256 <? 256) = true.
Proof. pose proof (Z.mod_pos_bound z 256). lia. Qed.
Definition gof (z : Z) : gf := MkGf (z mod 256) (byte_bool z).

Lemma gz_gof z : is_byte z -> gz (gof z) = z.
Proof. intros Hz. apply Z.mod_small. exact Hz. Qed.
Lemma gof_gz a : gof (gz a) = a.
Proof. apply gf_eq, gz_gof, gz_is_byte. Qed.

#[export] Instance gf_eq_dec : EqDecision gf.
Proof.
  intros a b. destruct (decide (gz a = gz b)) as [E | E]; [left; by apply gf_eq | right; by intros ->].
Defined.

Definition g0 : gf := gof 0.
Definition g1 : gf := gof 1.
Definition gadd (a b : gf) : gf := gof (Z.lxor (gz a) (gz b)).
Definition gtimes (a b : gf) : gf := gof (gmul (gz a) (gz b)).
Definition gsub (a b : gf) : gf := gadd a b.
Definition gopp (a : gf) : gf := a.
Definition ginverse (a : gf) : gf := gof (ginv (gz a)).
Definition gdiv (a b : gf) : gf := gtimes a (ginverse b).

Declare Scope gf_scope.
Delimit Scope gf_scope with gf.
Bind Scope gf_scope with gf.
Infix "+" := gadd : gf_scope.
Infix "-" := gsub : gf_scope.
Infix "*" := gtimes : gf_scope.
Infix "/" := gdiv : gf_scope.
Notation "0" := g0 : gf_scope.
Notation "1" := g1 : gf_scope.

Lemma gz_add a b : gz (a + b)%gf = Z.lxor (gz a) (gz b).
Proof. apply gz_gof, lxor_byte; apply gz_is_byte. Qed.
Lemma gz_mul a b : gz (a * b)%gf = gmul (gz a) (gz b).
Proof. apply gz_gof, gmul_byte, gz_is_byte. Qed.
Lemma gz_inv a : gz (ginverse a) = ginv (gz a).
Proof. apply gz_gof, ginv_byte. Qed.
Lemma gz_0 : gz 0%gf = 0.
Proof. done. Qed.
Lemma gz_1 : gz 1%gf = 1.
Proof. done. Qed.
Create HintDb gz discriminated.
#[export] Hint Rewrite gz_add gz_mul gz_inv gz_0 gz_1 : gz.
#[export] Hint Resolve gz_is_byte gmul_byte lxor_byte : gz.

Lemma gz_nz a : a <> 0%gf <-> gz a <> 0.
Proof. split; intros H E; apply H; [by apply gf_eq | by rewrite E]. Qed.

Lemma gf_ring : ring_theory 0%gf 1%gf gadd gtimes gsub gopp (@eq gf).
Proof.
  split; intros; apply gf_eq; autorewrite with gz.
  - done.
  - apply Z.lxor_comm.
  - by rewrite Z.lxor_assoc.
  - apply gmul_1, gz_is_byte.
  - apply gmul_comm; apply gz_is_byte.
  - apply gmul_assoc; apply gz_is_byte.
  - rewrite gmul_comm, gmul_lxor by auto with gz.
    f_equal; apply gmul_comm; apply gz_is_byte.
  - done.
  - apply Z.lxor_nilpotent.
Qed.

Lemma gf_field : field_theory 0%gf 1%gf gadd gtimes gsub gopp gdiv ginverse (@eq gf).
Proof.
  split.
  - exact gf_ring.
  - apply gz_nz. done.
  - done.
  - intros p Hp. apply gz_nz in Hp. apply gf_eq. autorewrite with gz. by apply gmul_inv; [apply gz_is_byte |].
Qed.

Add Field gf_field_inst : gf_field.

Lemma gadd_self a : (a + a = 0)%gf.
Proof. apply gf_eq. autorewrite with gz. apply Z.lxor_nilpotent. Qed.

Lemma gadd_0_iff a b : (a + b = 0)%gf <-> a = b.
Proof.
  split; [| intros ->; apply gadd_self]. intros E.
  transitivity (a + b + b)%gf; [| rewrite E; ring]. transitivity (a + (b + b))%gf; [rewrite gadd_self |]; ring.
Qed.

Lemma gmul_nz a b : a <> 0%gf -> b <> 0%gf -> (a * b)%gf <> 0%gf.
Proof.
  intros Ha Hb E. apply Ha. transitivity (a * b / b)%gf; [by field |]. rewrite E. by field.
Qed.

Lemma gadd_nz a b : a <> b -> (a + b)%gf <> 0%gf.
Proof. intros H E. by apply H, gadd_0_iff. Qed.
Lemma gsub_nz a b : a <> b -> (a - b)%gf <> 0%gf.
Proof. apply gadd_nz. Qed.

Lemma ginv_nz a : a <> 0%gf -> ginverse a <> 0%gf.
Proof.
  intros Ha E. apply (F_1_neq_0 gf_field). transitivity (ginverse a * a)%gf; [by field | rewrite E; ring].
Qed.
Lemma gdiv_nz a b : a <> 0%gf -> b <> 0%gf -> (a / b)%gf <> 0%gf.
Proof. intros Ha Hb. apply gmul_nz; [done | by apply ginv_nz]. Qed.

(** ** Powers of two *)
Definition gtwo (k : nat) : gf := gof (gpow k 1).

Lemma gz_gtwo k : gz (gtwo k) = gpow k 1.
Proof. apply gz_gof. bytes. Qed.
Lemma gtwo_nz k : gtwo k <> 0%gf.
Proof. apply gz_nz. rewrite gz_gtwo. apply gpow_nz. Qed.
Lemma gtwo_mul k a : gz (gtwo k * a)%gf = gpow k (gz a).
Proof. rewrite gz_mul, gz_gtwo. apply gmul_gpow, gz_is_byte. Qed.
Lemma gtwo_add j k : gtwo (j + k) = (gtwo j * gtwo k)%gf.
Proof. apply gf_eq. by rewrite gtwo_mul, !gz_gtwo, gpow_add. Qed.
Lemma gtwo_0 : gtwo 0 = 1%gf.
Proof. by apply gf_eq. Qed.
Lemma gtwo_255 k : gtwo (k + 255) = gtwo k.
Proof. apply gf_eq. by rewrite !gz_gtwo, gpow_add, gpow_255_1. Qed.

Lemma gpow_distinct : forallb (fun j => forallb (fun k => negb (pow2 j =? pow2 k) || (j =? k)) (map Z.of_nat (seq 0 255)))
  (map Z.of_nat (seq 0 255)) = true.
Proof. vm_compute. reflexivity. Qed.

Lemma gtwo_inj j k : (j < 255)%nat -> (k < 255)%nat -> gtwo j = gtwo k -> j = k.
Proof.
  intros Hj Hk E. apply (f_equal gz) in E. rewrite !gz_gtwo, <- !pow2_gpow in E by lia.
  pose proof gpow_distinct as H. rewrite forallb_forall in H.
  specialize (H (Z.of_nat j)). rewrite forallb_forall in H.
  assert (Hin : forall i, (i < 255)%nat -> In (Z.of_nat i) (map Z.of_nat (seq 0 255)))
    by (intros i Hi; apply in_map_iff; exists i; split; [done | apply in_seq; lia]).
  specialize (H (Hin j Hj) (Z.of_nat k) (Hin k Hk)). lia.
Qed.

(** The products of the code. *)
Lemma exp2_log a b : b <> 0%gf -> vdev_raidz_exp2 (gz a) (log2 (gz b)) = Ok (gz (b * a)%gf).
Proof.
  intros Hb. apply gz_nz in Hb. destruct (log2_spec (gz b) (gz_is_byte b) Hb) as (Hl & _).
  rewrite exp2_spec by (lia || apply gz_is_byte). rewrite gz_mul. unfold gmul.
  by rewrite (proj2 (Z.eqb_neq _ _) Hb).
Qed.

Lemma exp2_inv a b : b <> 0%gf -> vdev_raidz_exp2 (gz a) (255 - log2 (gz b)) = Ok (gz (a / b)%gf).
Proof.
  intros Hb. apply gz_nz in Hb. destruct (log2_spec (gz b) (gz_is_byte b) Hb) as (Hl & _).
  rewrite exp2_spec by (lia || apply gz_is_byte). do 1 f_equal. unfold gdiv. rewrite gz_mul, gz_inv. unfold ginv.
  rewrite gmul_comm by (apply gz_is_byte || bytes). by rewrite gmul_gpow by apply gz_is_byte.
Qed.
