(* ===== verification/Raidz.v ===== *)
(** * RAID-Z (zfs/module/zfs/vdev_raidz.c)

    The map of a block onto the columns of a RAID-Z vdev, the generation of
    one, two or three parity columns and the reconstruction of lost columns.
    The buffer of a column is the list of its bytes: the data columns are
    disjoint slices of the buffer of the I/O. Accesses out of bounds and
    failed assertions are panics. [zio_buf_alloc] gives the contents of a new
    buffer. *)
From S2P Require Import Prelude Bytes Gf256.
Local Open Scope Z_scope.

Record raidz_col : Type := MkCol {
  rc_devidx : Z;
  rc_offset : Z;
  rc_size : Z;
  rc_data : list Z;
  rc_error : Z;
  rc_tried : bool;
  rc_skipped : bool
}.

Record raidz_map : Type := MkRm {
  rm_cols : Z;
  rm_scols : Z;
  rm_bigcols : Z;
  rm_asize : Z;
  rm_missingdata : Z;
  rm_missingparity : Z;
  rm_firstdatacol : Z;
  rm_nskip : Z;
  rm_skipstart : Z;
  rm_col : list raidz_col
}.

Definition VDEV_RAIDZ_MAXPARITY : Z := 3.
Definition VDEV_RAIDZ_P : Z := 0.
Definition VDEV_RAIDZ_Q : Z := 1.
Definition VDEV_RAIDZ_R : Z := 2.

(** ** Columns and their buffers *)
Definition set_cols (rm : raidz_map) (l : list raidz_col) : raidz_map :=
  MkRm (rm_cols rm) (rm_scols rm) (rm_bigcols rm) (rm_asize rm) (rm_missingdata rm)
    (rm_missingparity rm) (rm_firstdatacol rm) (rm_nskip rm) (rm_skipstart rm) l.
Definition with_data (c : raidz_col) (d : list Z) : raidz_col :=
  MkCol (rc_devidx c) (rc_offset c) (rc_size c) d (rc_error c) (rc_tried c) (rc_skipped c).
Definition with_size (c : raidz_col) (n : Z) : raidz_col :=
  MkCol (rc_devidx c) (rc_offset c) n (rc_data c) (rc_error c) (rc_tried c) (rc_skipped c).
Definition with_error (c : raidz_col) (e : Z) : raidz_col :=
  MkCol (rc_devidx c) (rc_offset c) (rc_size c) (rc_data c) e (rc_tried c) (rc_skipped c).
Definition with_dev (c : raidz_col) (dev off : Z) : raidz_col :=
  MkCol dev off (rc_size c) (rc_data c) (rc_error c) (rc_tried c) (rc_skipped c).

(** [rm->rm_col[c]] *)
Definition get_col (rm : raidz_map) (c : Z) : result raidz_col :=
  deref (if 0 <=? c then rm_col rm !! Z.to_nat c else None).
Definition upd_col (rm : raidz_map) (c : Z) (f : raidz_col -> raidz_col) : result raidz_map :=
  k ← get_col rm c ; Ok (set_cols rm (<[Z.to_nat c := f k]> (rm_col rm))).

(** [*p] and [*p = w] for the [i]th word of a buffer. *)
Definition load64 (d : list Z) (i : Z) : result Z :=
  VERIFY ((0 <=? i) && (8 * i + 8 <=? Z.of_nat (length d))) ;;
  Ok (le_word (take 8 (drop (Z.to_nat (8 * i)) d))).
Definition store64 (d : list Z) (i w : Z) : result (list Z) :=
  VERIFY ((0 <=? i) && (8 * i + 8 <=? Z.of_nat (length d))) ;;
  Ok (take (Z.to_nat (8 * i)) d ++ le_bytes 8 w ++ drop (Z.to_nat (8 * i + 8)) d).
(** [*p = b] for the [i]th byte. *)
Definition store8 (d : list Z) (i b : Z) : result (list Z) :=
  VERIFY ((0 <=? i) && (i <? Z.of_nat (length d))) ;; Ok (<[Z.to_nat i := uchar b]> d).

(** ** The map of a block *)
Definition raidz_col_init (f o dcols unit_shift acols bc q c : Z) : raidz_col :=
  let col := u64_add f c in
  let wrap := dcols <=? col in
  MkCol (if wrap then u64_sub col dcols else col)
    (if wrap then u64_add o (u64_shl 1 unit_shift) else o)
    (if acols <=? c then 0
     else if c <? bc then u64_shl (u64_add q 1) unit_shift else u64_shl q unit_shift)
    [] 0 false false.

(** The buffers of the parity columns. *)
Definition alloc_parity (zio_buf_alloc : Z -> list Z) (rm : raidz_map) : result raidz_map :=
  for_range 0 (rm_firstdatacol rm) (fun c rm => upd_col rm c (fun k => with_data k (zio_buf_alloc (rc_size k)))) rm.

(** The data columns, from [c] on: slices of [io_data] starting at [off]. *)
Definition slice_data (io_data : list Z) (rm : raidz_map) : result raidz_map :=
  '(rm, _) ← for_range (rm_firstdatacol rm) (Z.max (rm_firstdatacol rm + 1) (rm_cols rm))
    (fun c '(rm, off) =>
       k ← get_col rm c ;
       rm ← upd_col rm c (fun k => with_data k (take (Z.to_nat (rc_size k)) (drop (Z.to_nat off) io_data))) ;
       Ok (rm, off + rc_size k)) (rm, 0) ;
  Ok rm.

(** The switch of the first two columns of single-parity maps. *)
Definition swap_parity (rm : raidz_map) : result raidz_map :=
  k0 ← get_col rm 0 ; k1 ← get_col rm 1 ;
  rm ← upd_col rm 0 (fun k => with_dev k (rc_devidx k1) (rc_offset k1)) ;
  rm ← upd_col rm 1 (fun k => with_dev k (rc_devidx k0) (rc_offset k0)) ;
  Ok (MkRm (rm_cols rm) (rm_scols rm) (rm_bigcols rm) (rm_asize rm) (rm_missingdata rm)
        (rm_missingparity rm) (rm_firstdatacol rm) (rm_nskip rm)
        (if rm_skipstart rm =? 0 then 1 else rm_skipstart rm) (rm_col rm)).

Definition vdev_raidz_map_alloc (zio_buf_alloc : Z -> list Z) (io_offset io_size : Z) (io_data : list Z)
    (unit_shift dcols nparity : Z) : result raidz_map :=
  VERIFY (negb (dcols =? 0) && negb (u64_sub dcols nparity =? 0)) ;;
  let b := Z.shiftr io_offset unit_shift in
  let s := Z.shiftr io_size unit_shift in
  let f := b mod dcols in
  let o := u64_shl (b / dcols) unit_shift in
  let q := s / u64_sub dcols nparity in
  let r := u64_sub s (u64 (q * u64_sub dcols nparity)) in
  let bc := if r =? 0 then 0 else u64_add r nparity in
  let tot := u64_add s (u64 (nparity * u64_add q (if r =? 0 then 0 else 1))) in
  let acols := if q =? 0 then bc else dcols in
  let scols := if q =? 0 then Z.min dcols (roundup bc (nparity + 1)) else dcols in
  VERIFY (acols <=? scols) ;;
  let cols := map (fun c => raidz_col_init f o dcols unit_shift acols bc q (Z.of_nat c)) (seq 0 (Z.to_nat scols)) in
  let asize := foldl (fun a k => u64_add a (rc_size k)) 0 cols in
  VERIFY (asize =? u64_shl tot unit_shift) ;;
  let rm_asize' := roundup asize (u64_shl (nparity + 1) unit_shift) in
  let nskip := u64_sub (roundup tot (nparity + 1)) tot in
  VERIFY (u64_sub rm_asize' asize =? u64_shl nskip unit_shift) ;;
  VERIFY (nskip <=? nparity) ;;
  rm ← alloc_parity zio_buf_alloc (MkRm acols scols bc rm_asize' 0 0 nparity nskip bc cols) ;
  rm ← slice_data io_data rm ;
  VERIFY (2 <=? rm_cols rm) ;;
  k0 ← get_col rm 0 ; k1 ← get_col rm 1 ;
  VERIFY (rc_size k0 =? rc_size k1) ;;
  if (rm_firstdatacol rm =? 1) && negb (Z.land io_offset (u64_shl 1 20) =? 0) then swap_parity rm else Ok rm.

(** The space a block of [psize] bytes takes on the vdev. *)
Definition vdev_raidz_asize (ashift cols nparity psize : Z) : Z :=
  let asize := u64_add (Z.shiftr (u64_sub psize 1) ashift) 1 in
  let asize := u64_add asize
    (u64 (nparity * (u64_sub (u64_sub (u64_add asize cols) nparity) 1 / u64_sub cols nparity))) in
  u64_shl (roundup asize (nparity + 1)) ashift.

(** ** Parity generation *)
Definition vdev_raidz_generate_parity_p (rm : raidz_map) : result raidz_map :=
  kp ← get_col rm VDEV_RAIDZ_P ;
  let pcount := rc_size kp / 8 in
  for_range (rm_firstdatacol rm) (rm_cols rm) (fun c rm =>
    kc ← get_col rm c ; kp ← get_col rm VDEV_RAIDZ_P ;
    let src := rc_data kc in
    let ccount := rc_size kc / 8 in
    p ← (if c =? rm_firstdatacol rm then
           VERIFY (ccount =? pcount) ;;
           for_range 0 ccount (fun i p => w ← load64 src i ; store64 p i w) (rc_data kp)
         else
           VERIFY (ccount <=? pcount) ;;
           for_range 0 ccount (fun i p => v ← load64 p i ; w ← load64 src i ; store64 p i (Z.lxor v w)) (rc_data kp)) ;
    upd_col rm VDEV_RAIDZ_P (fun k => with_data k p)) rm.

Definition vdev_raidz_generate_parity_pq (rm : raidz_map) : result raidz_map :=
  kp ← get_col rm VDEV_RAIDZ_P ; kq ← get_col rm VDEV_RAIDZ_Q ;
  let pcnt := rc_size kp / 8 in
  VERIFY (rc_size kp =? rc_size kq) ;;
  for_range (rm_firstdatacol rm) (rm_cols rm) (fun c rm =>
    kc ← get_col rm c ; kp ← get_col rm VDEV_RAIDZ_P ; kq ← get_col rm VDEV_RAIDZ_Q ;
    let src := rc_data kc in
    let ccnt := rc_size kc / 8 in
    '(p, q) ← (if c =? rm_firstdatacol rm then
           VERIFY ((ccnt =? pcnt) || (ccnt =? 0)) ;;
           st ← for_range 0 ccnt (fun i '(p, q) =>
             w ← load64 src i ; p ← store64 p i w ; q ← store64 q i w ; Ok (p, q)) (rc_data kp, rc_data kq) ;
           for_range ccnt pcnt (fun i '(p, q) =>
             p ← store64 p i 0 ; q ← store64 q i 0 ; Ok (p, q)) st
         else
           VERIFY (ccnt <=? pcnt) ;;
           st ← for_range 0 ccnt (fun i '(p, q) =>
             w ← load64 src i ;
             v ← load64 p i ; p ← store64 p i (Z.lxor v w) ;
             v ← load64 q i ; q ← store64 q i (Z.lxor (VDEV_RAIDZ_64MUL_2 v) w) ; Ok (p, q)) (rc_data kp, rc_data kq) ;
           for_range ccnt pcnt (fun i '(p, q) =>
             v ← load64 q i ; q ← store64 q i (VDEV_RAIDZ_64MUL_2 v) ; Ok (p, q)) st) ;
    rm ← upd_col rm VDEV_RAIDZ_P (fun k => with_data k p) ;
    upd_col rm VDEV_RAIDZ_Q (fun k => with_data k q)) rm.

Definition vdev_raidz_generate_parity_pqr (rm : raidz_map) : result raidz_map :=
  kp ← get_col rm VDEV_RAIDZ_P ; kq ← get_col rm VDEV_RAIDZ_Q ; kr ← get_col rm VDEV_RAIDZ_R ;
  let pcnt := rc_size kp / 8 in
  VERIFY (rc_size kp =? rc_size kq) ;;
  VERIFY (rc_size kp =? rc_size kr) ;;
  for_range (rm_firstdatacol rm) (rm_cols rm) (fun c rm =>
    kc ← get_col rm c ; kp ← get_col rm VDEV_RAIDZ_P ; kq ← get_col rm VDEV_RAIDZ_Q ; kr ← get_col rm VDEV_RAIDZ_R ;
    let src := rc_data kc in
    let ccnt := rc_size kc / 8 in
    '(p, q, r) ← (if c =? rm_firstdatacol rm then
           VERIFY ((ccnt =? pcnt) || (ccnt =? 0)) ;;
           st ← for_range 0 ccnt (fun i '(p, q, r) =>
             w ← load64 src i ;
             p ← store64 p i w ; q ← store64 q i w ; r ← store64 r i w ; Ok (p, q, r))
             (rc_data kp, rc_data kq, rc_data kr) ;
           for_range ccnt pcnt (fun i '(p, q, r) =>
             p ← store64 p i 0 ; q ← store64 q i 0 ; r ← store64 r i 0 ; Ok (p, q, r)) st
         else
           VERIFY (ccnt <=? pcnt) ;;
           st ← for_range 0 ccnt (fun i '(p, q, r) =>
             w ← load64 src i ;
             v ← load64 p i ; p ← store64 p i (Z.lxor v w) ;
             v ← load64 q i ; q ← store64 q i (Z.lxor (VDEV_RAIDZ_64MUL_2 v) w) ;
             v ← load64 r i ; r ← store64 r i (Z.lxor (VDEV_RAIDZ_64MUL_4 v) w) ; Ok (p, q, r))
             (rc_data kp, rc_data kq, rc_data kr) ;
           for_range ccnt pcnt (fun i '(p, q, r) =>
             v ← load64 q i ; q ← store64 q i (VDEV_RAIDZ_64MUL_2 v) ;
             v ← load64 r i ; r ← store64 r i (VDEV_RAIDZ_64MUL_4 v) ; Ok (p, q, r)) st) ;
    rm ← upd_col rm VDEV_RAIDZ_P (fun k => with_data k p) ;
    rm ← upd_col rm VDEV_RAIDZ_Q (fun k => with_data k q) ;
    upd_col rm VDEV_RAIDZ_R (fun k => with_data k r)) rm.

Definition vdev_raidz_generate_parity (rm : raidz_map) : result raidz_map :=
  if rm_firstdatacol rm =? 1 then vdev_raidz_generate_parity_p rm
  else if rm_firstdatacol rm =? 2 then vdev_raidz_generate_parity_pq rm
  else if rm_firstdatacol rm =? 3 then vdev_raidz_generate_parity_pqr rm
  else Panic.

(** ** Reconstruction of one or two columns *)
Definition vdev_raidz_reconstruct_p (rm : raidz_map) (tgts : list Z) : result (raidz_map * Z) :=
  x ← deref (tgts !! 0%nat) ;
  VERIFY (Z.of_nat (length tgts) =? 1) ;;
  VERIFY (rm_firstdatacol rm <=? x) ;;
  VERIFY (x <? rm_cols rm) ;;
  kx ← get_col rm x ; kp ← get_col rm VDEV_RAIDZ_P ;
  let xcount := rc_size kx / 8 in
  VERIFY (xcount <=? rc_size kp / 8) ;;
  VERIFY (0 <? xcount) ;;
  dst ← for_range 0 xcount (fun i dst => w ← load64 (rc_data kp) i ; store64 dst i w) (rc_data kx) ;
  dst ← for_range (rm_firstdatacol rm) (rm_cols rm) (fun c dst =>
    if c =? x then Ok dst else
    kc ← get_col rm c ;
    let count := Z.min (rc_size kc / 8) xcount in
    for_range 0 count (fun i dst =>
      v ← load64 dst i ; w ← load64 (rc_data kc) i ; store64 dst i (Z.lxor v w)) dst) dst ;
  rm ← upd_col rm x (fun k => with_data k dst) ;
  Ok (rm, Z.shiftl 1 VDEV_RAIDZ_P).

(** The eight bytes of the [i]th word, each multiplied by a power of two. *)
Definition exp2_bytes (exp i : Z) (dst : list Z) : result (list Z) :=
  for_range 0 8 (fun j dst =>
    b ← byte_at dst (8 * i + j) ; v ← vdev_raidz_exp2 b exp ; store8 dst (8 * i + j) v) dst.

Definition vdev_raidz_reconstruct_q (rm : raidz_map) (tgts : list Z) : result (raidz_map * Z) :=
  x ← deref (tgts !! 0%nat) ;
  VERIFY (Z.of_nat (length tgts) =? 1) ;;
  kx ← get_col rm x ; kq ← get_col rm VDEV_RAIDZ_Q ;
  let xcount := rc_size kx / 8 in
  VERIFY (xcount <=? rc_size kq / 8) ;;
  dst ← for_range (rm_firstdatacol rm) (rm_cols rm) (fun c dst =>
    kc ← get_col rm c ;
    let ccount := if c =? x then 0 else rc_size kc / 8 in
    let count := Z.min ccount xcount in
    if c =? rm_firstdatacol rm then
      dst ← for_range 0 count (fun i dst => w ← load64 (rc_data kc) i ; store64 dst i w) dst ;
      for_range count xcount (fun i dst => store64 dst i 0) dst
    else
      dst ← for_range 0 count (fun i dst =>
        v ← load64 dst i ; w ← load64 (rc_data kc) i ; store64 dst i (Z.lxor (VDEV_RAIDZ_64MUL_2 v) w)) dst ;
      for_range count xcount (fun i dst => v ← load64 dst i ; store64 dst i (VDEV_RAIDZ_64MUL_2 v)) dst)
    (rc_data kx) ;
  let exp := 255 - (rm_cols rm - 1 - x) in
  dst ← for_range 0 xcount (fun i dst =>
    v ← load64 dst i ; w ← load64 (rc_data kq) i ; dst ← store64 dst i (Z.lxor v w) ;
    exp2_bytes exp i dst) dst ;
  rm ← upd_col rm x (fun k => with_data k dst) ;
  Ok (rm, Z.shiftl 1 VDEV_RAIDZ_Q).

Definition vdev_raidz_reconstruct_pq (zio_buf_alloc : Z -> list Z) (rm : raidz_map) (tgts : list Z) :
  result (raidz_map * Z) :=
  x ← deref (tgts !! 0%nat) ; y ← deref (tgts !! 1%nat) ;
  VERIFY (Z.of_nat (length tgts) =? 2) ;;
  VERIFY (x <? y) ;;
  VERIFY (rm_firstdatacol rm <=? x) ;;
  VERIFY (y <? rm_cols rm) ;;
  kx ← get_col rm x ; ky ← get_col rm y ;
  VERIFY (rc_size ky <=? rc_size kx) ;;
  kp ← get_col rm VDEV_RAIDZ_P ; kq ← get_col rm VDEV_RAIDZ_Q ;
  rm ← upd_col rm VDEV_RAIDZ_P (fun k => with_data k (zio_buf_alloc (rc_size k))) ;
  rm ← upd_col rm VDEV_RAIDZ_Q (fun k => with_data k (zio_buf_alloc (rc_size k))) ;
  rm ← upd_col rm x (fun k => with_size k 0) ;
  rm ← upd_col rm y (fun k => with_size k 0) ;
  rm ← vdev_raidz_generate_parity_pq rm ;
  rm ← upd_col rm x (fun k => with_size k (rc_size kx)) ;
  rm ← upd_col rm y (fun k => with_size k (rc_size ky)) ;
  kpxy ← get_col rm VDEV_RAIDZ_P ; kqxy ← get_col rm VDEV_RAIDZ_Q ;
  a ← pow2_at (255 + x - y) ;
  b ← pow2_at (255 - (rm_cols rm - 1 - x)) ;
  l ← log2_at (Z.lxor a 1) ;
  let tmp := 255 - l in
  ae ← vdev_raidz_exp2 a tmp ; aexp ← log2_at ae ;
  be ← vdev_raidz_exp2 b tmp ; bexp ← log2_at be ;
  '(xd, yd) ← for_range 0 (rc_size kx) (fun i '(xd, yd) =>
    p ← byte_at (rc_data kp) i ; pxy ← byte_at (rc_data kpxy) i ;
    q ← byte_at (rc_data kq) i ; qxy ← byte_at (rc_data kqxy) i ;
    u ← vdev_raidz_exp2 (Z.lxor p pxy) aexp ; v ← vdev_raidz_exp2 (Z.lxor q qxy) bexp ;
    xd ← store8 xd i (Z.lxor u v) ;
    if i <? rc_size ky then
      d ← byte_at xd i ; yd ← store8 yd i (Z.lxor (Z.lxor p pxy) d) ; Ok (xd, yd)
    else Ok (xd, yd)) (rc_data kx, rc_data ky) ;
  rm ← upd_col rm x (fun k => with_data k xd) ;
  rm ← upd_col rm y (fun k => with_data k yd) ;
  rm ← upd_col rm VDEV_RAIDZ_P (fun k => with_data k (rc_data kp)) ;
  rm ← upd_col rm VDEV_RAIDZ_Q (fun k => with_data k (rc_data kq)) ;
  Ok (rm, Z.lor (Z.shiftl 1 VDEV_RAIDZ_P) (Z.shiftl 1 VDEV_RAIDZ_Q)).

(** ** The general method *)
(** Matrices: arrays of rows of bytes. *)
Definition m_get (m : list (list Z)) (i j : Z) : result Z :=
  VERIFY ((0 <=? i) && (0 <=? j)) ;; r ← deref (m !! Z.to_nat i) ; deref (r !! Z.to_nat j).
Definition m_set (m : list (list Z)) (i j v : Z) : result (list (list Z)) :=
  VERIFY ((0 <=? i) && (0 <=? j)) ;;
  r ← deref (m !! Z.to_nat i) ; _ ← deref (r !! Z.to_nat j) ;
  Ok (<[Z.to_nat i := <[Z.to_nat j := uchar v]> r]> m).
Definition at_ (l : list Z) (i : Z) : result Z := deref (if 0 <=? i then l !! Z.to_nat i else None).

Definition vdev_raidz_matrix_init (rm : raidz_map) (n nmap : Z) (map_ : list Z) (rows : list (list Z)) :
  result (list (list Z)) :=
  VERIFY (n =? rm_cols rm - rm_firstdatacol rm) ;;
  for_range 0 nmap (fun i rows =>
    mi ← at_ map_ i ;
    VERIFY (0 <=? mi) ;; VERIFY (mi <=? 2) ;;
    let pow := mi * n in
    let pow := if 255 <? pow then pow - 255 else pow in
    VERIFY (pow <=? 255) ;;
    '(rows, _) ← for_range 0 n (fun j '(rows, pow) =>
      let pow := pow - mi in
      let pow := if pow <? 0 then pow + 255 else pow in
      v ← pow2_at pow ;
      rows ← m_set rows i j v ; Ok (rows, pow)) (rows, pow) ;
    Ok rows) rows.

(** One round of the elimination: normalise row [i], then clear its pivot
    column in the other rows. *)
Definition invert_round (n nmissing : Z) (missing : list Z) (i : Z) (st : list (list Z) * list (list Z)) :
  result (list (list Z) * list (list Z)) :=
  let '(rows, invrows) := st in
  mi ← at_ missing i ;
  _ ← for_range 0 mi (fun j _ => v ← m_get rows i j ; VERIFY (v =? 0)) tt ;
  pivot ← m_get rows i mi ;
  VERIFY (negb (pivot =? 0)) ;;
  l ← log2_at pivot ;
  let log := 255 - l in
  st ← for_range 0 n (fun j '(rows, invrows) =>
    v ← m_get rows i j ; e ← vdev_raidz_exp2 v log ; rows ← m_set rows i j e ;
    v ← m_get invrows i j ; e ← vdev_raidz_exp2 v log ; invrows ← m_set invrows i j e ;
    Ok (rows, invrows)) (rows, invrows) ;
  for_range 0 nmissing (fun ii '(rows, invrows) =>
    if i =? ii then Ok (rows, invrows) else
    f ← m_get rows ii mi ;
    VERIFY (negb (f =? 0)) ;;
    log ← log2_at f ;
    for_range 0 n (fun j '(rows, invrows) =>
      v ← m_get rows i j ; e ← vdev_raidz_exp2 v log ; w ← m_get rows ii j ;
      rows ← m_set rows ii j (Z.lxor w e) ;
      v ← m_get invrows i j ; e ← vdev_raidz_exp2 v log ; w ← m_get invrows ii j ;
      invrows ← m_set invrows ii j (Z.lxor w e) ;
      Ok (rows, invrows)) (rows, invrows)) st.

Definition vdev_raidz_matrix_invert (rm : raidz_map) (n nmissing : Z) (missing : list Z)
    (rows invrows : list (list Z)) (used : list Z) : result (list (list Z) * list (list Z)) :=
  _ ← for_range 0 nmissing (fun i _ => u ← at_ used i ; VERIFY (u <? rm_firstdatacol rm)) tt ;
  _ ← for_range nmissing n (fun i _ => u ← at_ used i ; VERIFY (rm_firstdatacol rm <=? u)) tt ;
  invrows ← for_range 0 nmissing (fun i invrows =>
    for_range 0 n (fun j invrows => m_set invrows i j (if i =? j then 1 else 0)) invrows) invrows ;
  st ← for_range 0 nmissing (fun i st =>
    for_range nmissing n (fun j '(rows, invrows) =>
      u ← at_ used j ;
      VERIFY (rm_firstdatacol rm <=? u) ;;
      let jj := u - rm_firstdatacol rm in
      VERIFY (jj <? n) ;;
      v ← m_get rows i jj ;
      invrows ← m_set invrows i j v ;
      rows ← m_set rows i jj 0 ;
      Ok (rows, invrows)) st) (rows, invrows) ;
  '(rows, invrows) ← for_range 0 nmissing (invert_round n nmissing missing) st ;
  _ ← for_range 0 nmissing (fun i _ =>
    mi ← at_ missing i ;
    for_range 0 n (fun j _ =>
      v ← m_get rows i j ; VERIFY (if j =? mi then v =? 1 else v =? 0)) tt) tt ;
  Ok (rows, invrows).

(** The contribution of the byte [s] of the [i]th used column to the byte
    [x] of every missing column. *)
Definition matrix_add (rm : raidz_map) (nmissing : Z) (missing : list Z) (invlog : list (list Z))
    (i x s : Z) (dst : list (list Z)) : result (list (list Z)) :=
  for_range 0 nmissing (fun cc dst =>
    mc ← at_ missing cc ;
    kd ← get_col rm (mc + rm_firstdatacol rm) ;
    if rc_size kd <=? x then Ok dst else
    v ← (if s =? 0 then Ok 0
         else log ← log2_at s ; il ← m_get invlog cc i ;
              let ll := log + il in pow2_at (if 255 <=? ll then ll - 255 else ll)) ;
    if i =? 0 then m_set dst cc x v
    else w ← m_get dst cc x ; m_set dst cc x (Z.lxor w v)) dst.

(** [dst] holds the buffers of the missing columns while they are rebuilt. *)
Definition vdev_raidz_matrix_reconstruct (rm : raidz_map) (n nmissing : Z) (missing : list Z)
    (invrows : list (list Z)) (used : list Z) : result raidz_map :=
  invlog ← for_range 0 nmissing (fun i invlog =>
    for_range 0 n (fun j invlog =>
      v ← m_get invrows i j ;
      VERIFY (negb (v =? 0)) ;;
      l ← log2_at v ; m_set invlog i j l) invlog) invrows ;
  dst ← for_range 0 nmissing (fun j dst =>
    mj ← at_ missing j ; kd ← get_col rm (mj + rm_firstdatacol rm) ; Ok (dst ++ [rc_data kd])) [] ;
  dst ← for_range 0 n (fun i dst =>
    c ← at_ used i ;
    VERIFY (c <? rm_cols rm) ;;
    kc ← get_col rm c ;
    _ ← for_range 0 nmissing (fun j _ =>
      mj ← at_ missing j ;
      let cc := mj + rm_firstdatacol rm in
      VERIFY (rm_firstdatacol rm <=? cc) ;; VERIFY (cc <? rm_cols rm) ;; VERIFY (negb (cc =? c))) tt ;
    m0 ← at_ missing 0 ;
    k0 ← get_col rm m0 ;
    VERIFY ((rc_size k0 <=? rc_size kc) || (0 <? i)) ;;
    for_range 0 (rc_size kc) (fun x dst =>
      s ← byte_at (rc_data kc) x ; matrix_add rm nmissing missing invlog i x s dst) dst) dst ;
  for_range 0 nmissing (fun j rm =>
    mj ← at_ missing j ; d ← deref (dst !! Z.to_nat j) ;
    upd_col rm (mj + rm_firstdatacol rm) (fun k => with_data k d)) rm.

(** The parity columns used in place of [k] missing data columns: the first
    ones that are not themselves targets; with the code that names them. *)
Fixpoint pick_parity (fuel : nat) (fdc c : Z) (tgts : list Z) (k : nat) (code : Z) : result (list Z * Z) :=
  match k with
  | O => Ok ([], code)
  | S k' =>
      match fuel with
      | O => Panic
      | S f =>
          t ← deref (tgts !! 0%nat) ;
          VERIFY (c <? fdc) ;;
          if c =? t then pick_parity f fdc (c + 1) (tail tgts) k code
          else '(l, code) ← pick_parity f fdc (c + 1) tgts k' (Z.lor code (Z.shiftl 1 c)) ; Ok (c :: l, code)
      end
  end.

(** The data columns that are not missing, in order. *)
Fixpoint used_data (fuel : nat) (fdc cols c : Z) (missing : list Z) : list Z :=
  match fuel with
  | O => []
  | S f =>
      if cols <=? c then []
      else match missing with
           | m :: ms => if c =? m + fdc then used_data f fdc cols (c + 1) ms
                        else c :: used_data f fdc cols (c + 1) missing
           | [] => c :: used_data f fdc cols (c + 1) []
           end
  end.

(** The rows are scratch memory, every entry of which is written before it is
    read. *)
Definition vdev_raidz_reconstruct_general (rm : raidz_map) (tgts : list Z) : result (raidz_map * Z) :=
  let fdc := rm_firstdatacol rm in
  let n := rm_cols rm - fdc in
  let missing_rows := map (fun t => t - fdc) (filter (fun t => fdc <= t) tgts) in
  let nmissing := length missing_rows in
  '(parity_map, code) ← pick_parity (Z.to_nat fdc + 1) fdc 0 tgts nmissing 0 ;
  VERIFY (negb (code =? 0)) ;;
  VERIFY (code <? Z.shiftl 1 VDEV_RAIDZ_MAXPARITY) ;;
  let used := parity_map ++ used_data (Z.to_nat (rm_cols rm)) fdc (rm_cols rm) fdc missing_rows in
  VERIFY (Z.of_nat (length used) <=? n) ;;
  let zero := replicate nmissing (replicate (Z.to_nat n) 0) in
  rows ← vdev_raidz_matrix_init rm n (Z.of_nat nmissing) parity_map zero ;
  '(_, invrows) ← vdev_raidz_matrix_invert rm n (Z.of_nat nmissing) missing_rows rows zero used ;
  rm ← vdev_raidz_matrix_reconstruct rm n (Z.of_nat nmissing) missing_rows invrows used ;
  Ok (rm, code).

(** ** The choice of the method *)
(** Which columns are targets: those asked for in [t] and those in error,
    with the parity columns that are neither. *)
Fixpoint classify (fdc c : Z) (t : list Z) (cols : list raidz_col) : list Z * list Z :=
  match cols with
  | [] => ([], [])
  | k :: cols =>
      let '(asked, t') := match t with
        | u :: us => if c =? u then (true, us) else (false, t)
        | [] => (false, [])
        end in
      let '(tgts, valid) := classify fdc (c + 1) t' cols in
      if asked || negb (rc_error k =? 0) then (c :: tgts, valid)
      else if fdc <=? c then (tgts, valid) else (tgts, c :: valid)
  end.

Fixpoint ascending (t : list Z) : bool :=
  match t with
  | x :: (y :: _) as l => (x <? y) && ascending l
  | _ => true
  end.

Definition vdev_raidz_reconstruct (zio_buf_alloc : Z -> list Z) (vdev_raidz_default_to_general : bool)
    (rm : raidz_map) (t : list Z) : result (raidz_map * Z) :=
  VERIFY (ascending t) ;;
  let fdc := rm_firstdatacol rm in
  VERIFY (rm_cols rm <=? Z.of_nat (length (rm_col rm))) ;;
  let '(tgts, valid) := classify fdc 0 t (take (Z.to_nat (rm_cols rm)) (rm_col rm)) in
  let nbadparity := fdc - Z.of_nat (length valid) in
  let nbaddata := Z.of_nat (length (filter (fun c => fdc <= c) tgts)) in
  VERIFY (Z.of_nat (length t) <=? Z.of_nat (length tgts)) ;;
  VERIFY (nbaddata + nbadparity =? Z.of_nat (length tgts)) ;;
  VERIFY (Z.of_nat (length tgts) <=? VDEV_RAIDZ_MAXPARITY) ;;
  let dt := drop (Z.to_nat nbadparity) tgts in
  let general :=
    '(rm, code) ← vdev_raidz_reconstruct_general rm tgts ;
    VERIFY (code <? Z.shiftl 1 VDEV_RAIDZ_MAXPARITY) ;; VERIFY (0 <? code) ;; Ok (rm, code) in
  if vdev_raidz_default_to_general then general
  else if nbaddata =? 1 then
    if bool_decide (VDEV_RAIDZ_P ∈ valid) then vdev_raidz_reconstruct_p rm (take 1 dt)
    else VERIFY (1 <? fdc) ;;
         if bool_decide (VDEV_RAIDZ_Q ∈ valid) then vdev_raidz_reconstruct_q rm (take 1 dt)
         else VERIFY (2 <? fdc) ;; general
  else if nbaddata =? 2 then
    VERIFY (1 <? fdc) ;;
    if bool_decide (VDEV_RAIDZ_P ∈ valid) && bool_decide (VDEV_RAIDZ_Q ∈ valid) then
      vdev_raidz_reconstruct_pq zio_buf_alloc rm (take 2 dt)
    else VERIFY (2 <? fdc) ;; general
  else general.
