(* ===== verification/RaidzSpec.v ===== *)
(** * Parity columns as polynomials over the field

    The specification of the parity generators: byte by byte, parity [i] is
    the value at [2^i] of the polynomial whose coefficients are the data
    columns. The loops over words are shown to compute it. *)
From S2P Require Import Prelude Bytes Gf256 Raidz.
Local Open Scope Z_scope.

(** ** Buffers byte by byte *)
Definition nb (d : list Z) (j : Z) : Z := nth (Z.to_nat j) d 0.

Lemma nb_byte d j : Forall is_byte d -> is_byte (nb d j).
Proof.
  intros Hd. unfold nb. destruct (nth_in_or_default (Z.to_nat j) d 0) as [Hin | ->]; [| unfold is_byte; lia].
  apply list_elem_of_In in Hin. by eapply Forall_forall.
Qed.

Lemma byte_at_nb d j : 0 <= j < Z.of_nat (length d) -> byte_at d j = Ok (nb d j).
Proof.
  intros Hj. unfold byte_at, nb. rewrite (proj2 (Z.leb_le 0 j)) by lia.
  destruct (lookup_lt_is_Some_2 d (Z.to_nat j)) as (b & Hb); [lia |].
  by rewrite Hb, (nth_lookup_Some _ _ _ _ Hb).
Qed.

(** The [i]th word of the bytes [f]. *)
Definition word_of (f : Z -> Z) (i : Z) : Z := le_word (map (fun k => f (8 * i + Z.of_nat k)) (seq 0 8)).

Lemma word_of_ext f g i : (forall j, 8 * i <= j < 8 * i + 8 -> f j = g j) -> word_of f i = word_of g i.
Proof.
  intros H. unfold word_of. f_equal. apply map_ext_in. intros k Hk. apply in_seq in Hk. apply H. lia.
Qed.

Lemma word_bytes f i : (forall j, is_byte (f j)) -> Forall is_byte (map (fun k => f (8 * i + Z.of_nat k)) (seq 0 8)).
Proof. intros Hf. apply Forall_map, Forall_true. intros k. apply Hf. Qed.

Lemma word_lxor f g i : (forall j, is_byte (f j)) -> (forall j, is_byte (g j)) ->
  Z.lxor (word_of f i) (word_of g i) = word_of (fun j => Z.lxor (f j) (g j)) i.
Proof.
  intros Hf Hg. unfold word_of. rewrite le_word_lxor by (done || by apply word_bytes). f_equal.
Qed.

Lemma word_mul2 f i : (forall j, is_byte (f j)) -> VDEV_RAIDZ_64MUL_2 (word_of f i) = word_of (fun j => gmul2 (f j)) i.
Proof. intros Hf. unfold word_of. rewrite mul64_bytes by (done || by apply word_bytes). by rewrite map_map. Qed.

Lemma word_mul4 f i : (forall j, is_byte (f j)) ->
  VDEV_RAIDZ_64MUL_4 (word_of f i) = word_of (fun j => gmul2 (gmul2 (f j))) i.
Proof. intros Hf. unfold VDEV_RAIDZ_64MUL_4. rewrite !word_mul2; [done | intros; apply gmul2_byte | done]. Qed.

Lemma word_0 i : 0 = word_of (fun _ => 0) i.
Proof. reflexivity. Qed.

Lemma take_drop_nth (d : list Z) n k : (n + k <= length d)%nat ->
  take k (drop n d) = map (fun i => nth (n + i) d 0) (seq 0 k).
Proof.
  revert n. induction k as [| k IH]; intros n Hn; [done |].
  cbn [seq map]. rewrite <- seq_shift, map_map.
  destruct (lookup_lt_is_Some_2 d n) as (b & Hb); [lia |].
  rewrite (drop_S _ _ _ Hb), firstn_cons, IH by lia. f_equal.
  - by rewrite Nat.add_0_r, (nth_lookup_Some _ _ _ _ Hb).
  - apply map_ext. intros i. f_equal. lia.
Qed.

Lemma load64_spec d i : 0 <= i -> 8 * i + 8 <= Z.of_nat (length d) -> load64 d i = Ok (word_of (nb d) i).
Proof.
  intros Hi Hd. unfold load64. rewrite VERIFY_pass by lia. unfold word_of. do 2 f_equal.
  rewrite take_drop_nth by lia. apply map_ext. intros k. unfold nb. f_equal. lia.
Qed.

(** The buffer [d] is [old] with the bytes below [n] replaced by [new]. *)
Record upto (new : Z -> Z) (old : list Z) (n : Z) (d : list Z) : Prop := {
  up_len : length d = length old;
  up_byte : Forall is_byte d;
  up_nb : forall j, 0 <= j < Z.of_nat (length old) -> nb d j = if j <? n then new j else nb old j
}.

Lemma upto_0 new old : Forall is_byte old -> upto new old 0 old.
Proof. intros H. split; [done | done |]. intros j Hj. by rewrite (proj2 (Z.ltb_ge j 0)) by lia. Qed.

Lemma load64_upto new old i d : upto new old (8 * i) d -> 0 <= i -> 8 * i + 8 <= Z.of_nat (length old) ->
  load64 d i = Ok (word_of (nb old) i).
Proof.
  intros [] Hi Hd. rewrite load64_spec by lia. f_equal. apply word_of_ext. intros j Hj.
  rewrite up_nb0 by lia. by rewrite (proj2 (Z.ltb_ge j _)) by lia.
Qed.

Lemma nth_splice (d w : list Z) n j : (n + length w <= length d)%nat ->
  nth j (take n d ++ w ++ drop (n + length w) d) 0 =
  if decide (n <= j < n + length w)%nat then nth (j - n) w 0 else nth j d 0.
Proof.
  intros Hn. assert (Hl : length (take n d) = n) by (rewrite length_take; lia).
  case_decide as Hj.
  - rewrite app_nth2, Hl, app_nth1 by lia. done.
  - destruct (decide (j < n)%nat).
    + rewrite app_nth1, nth_firstn, (proj2 (Nat.ltb_lt j n)) by lia. done.
    + rewrite app_nth2, Hl, app_nth2, nth_skipn by lia. f_equal. lia.
Qed.

Lemma store64_upto new old i d w :
  upto new old (8 * i) d -> 0 <= i -> 8 * i + 8 <= Z.of_nat (length old) ->
  (forall j, is_byte (new j)) -> w = word_of new i -> runs (store64 d i w) (upto new old (8 * (i + 1))).
Proof.
  intros [] Hi Hd Hnew ->. unfold store64. rewrite VERIFY_pass by lia. cbn [runs].
  set (bs := map (fun k => new (8 * i + Z.of_nat k)) (seq 0 8)).
  assert (le_bytes 8 (word_of new i) = bs) as E by (apply (le_bytes_word bs); by apply word_bytes). rewrite E.
  assert (Hbs : length bs = 8%nat) by done.
  replace (Z.to_nat (8 * i + 8)) with (Z.to_nat (8 * i) + length bs)%nat by lia. split.
  - rewrite !length_app, length_take, length_drop. lia.
  - rewrite !Forall_app. split; [by apply Forall_take |]. split; [by apply word_bytes | by apply Forall_drop].
  - intros j Hj. unfold nb at 1. rewrite nth_splice by lia. case_decide as Hc.
    + rewrite (proj2 (Z.ltb_lt j _)) by lia. unfold bs.
      rewrite (nth_indep _ 0 (new (8 * i + Z.of_nat 0))) by (rewrite length_map, length_seq; lia).
      rewrite (map_nth (fun k => new (8 * i + Z.of_nat k))), seq_nth by lia. f_equal. lia.
    + change (nth (Z.to_nat j) d 0) with (nb d j). rewrite up_nb0 by lia.
      destruct (Z.ltb_spec j (8 * i)), (Z.ltb_spec j (8 * (i + 1))); lia || done.
Qed.

Lemma upto_skip new old n m d :
  upto new old n d -> (forall j, n <= j < Z.of_nat (length old) -> new j = nb old j) -> n <= m -> upto new old m d.
Proof.
  intros [] H Hm. split; [done | done |]. intros j Hj. rewrite up_nb0 by lia.
  destruct (Z.ltb_spec j n), (Z.ltb_spec j m); [done | lia | symmetry; apply H; lia | done].
Qed.

(** Stores in sequence with the rest of the code. *)
Lemma store64_bind {B} new old i d w (k : list Z -> result B) Q :
  upto new old (8 * i) d -> 0 <= i -> 8 * i + 8 <= Z.of_nat (length old) ->
  (forall j, is_byte (new j)) -> w = word_of new i ->
  (forall d', upto new old (8 * (i + 1)) d' -> runs (k d') Q) -> runs (d' ← store64 d i w ; k d') Q.
Proof. intros. eapply runs_bind; [by eapply store64_upto |]. done. Qed.

(** ** Sums with the weights of a parity *)
(** The terms [f lo], ..., [f (lo + n - 1)], each multiplied by [m] once for
    every term after it. *)
Fixpoint hsum (m : Z -> Z) (f : Z -> Z) (lo : Z) (n : nat) : Z :=
  match n with
  | O => 0
  | S n => Z.lxor (m (hsum m f lo n)) (f (lo + Z.of_nat n))
  end.

Lemma hsum_ext m f g lo n : (forall c, lo <= c < lo + Z.of_nat n -> f c = g c) -> hsum m f lo n = hsum m g lo n.
Proof.
  induction n as [| n IH]; intros H; simpl; [done |]. rewrite IH, H; [done | lia | intros; apply H; lia].
Qed.

Lemma hsum_byte k f lo n : (forall c, is_byte (f c)) -> is_byte (hsum (gpow k) f lo n).
Proof.
  intros Hf. induction n as [| n IH]; simpl; [unfold is_byte; lia |].
  apply lxor_byte; [by apply gpow_byte | done].
Qed.

Lemma lxor_swap a b c d : Z.lxor (Z.lxor a b) (Z.lxor c d) = Z.lxor (Z.lxor a c) (Z.lxor b d).
Proof. rewrite !Z.lxor_assoc. f_equal. rewrite <- !Z.lxor_assoc. f_equal. apply Z.lxor_comm. Qed.

Lemma hsum_lxor k f g lo n :
  hsum (gpow k) (fun c => Z.lxor (f c) (g c)) lo n = Z.lxor (hsum (gpow k) f lo n) (hsum (gpow k) g lo n).
Proof.
  induction n as [| n IH]; simpl; [done |]. by rewrite IH, gpow_lxor, lxor_swap.
Qed.

Lemma hsum_single k x d lo n :
  hsum (gpow k) (fun c => if c =? x then d else 0) lo n =
  if (lo <=? x) && (x <? lo + Z.of_nat n) then gpow (k * Z.to_nat (lo + Z.of_nat n - 1 - x)) d else 0.
Proof.
  induction n as [| n IH]; [simpl hsum; destruct (_ && _) eqn:E; [lia | done] |].
  cbn [hsum]. rewrite IH. clear IH. destruct (Z.eqb_spec (lo + Z.of_nat n) x) as [<- | Hne].
  - rewrite (proj2 (Z.ltb_ge _ _)), andb_false_r, gpow_0 by lia. rewrite Z.lxor_0_l.
    destruct (_ && _) eqn:E; [| lia]. replace (Z.to_nat _) with 0%nat by lia. by rewrite Nat.mul_0_r.
  - rewrite Z.lxor_0_r. destruct ((lo <=? x) && (x <? lo + Z.of_nat n)) eqn:E.
    + destruct ((lo <=? x) && (x <? lo + Z.of_nat (S n))) eqn:E'; [| lia]. rewrite <- gpow_add. f_equal.
      replace (Z.to_nat (lo + Z.of_nat (S n) - 1 - x)) with (S (Z.to_nat (lo + Z.of_nat n - 1 - x))) by lia.
      rewrite Nat.mul_succ_r. apply Nat.add_comm.
    + destruct ((lo <=? x) && (x <? lo + Z.of_nat (S n))) eqn:E'; [lia | apply gpow_0].
Qed.

(** A sum is the sum without the term [x] plus that term. *)
Lemma hsum_split k f x lo n : lo <= x < lo + Z.of_nat n ->
  hsum (gpow k) f lo n =
  Z.lxor (hsum (gpow k) (fun c => if c =? x then 0 else f c) lo n)
    (gpow (k * Z.to_nat (lo + Z.of_nat n - 1 - x)) (f x)).
Proof.
  intros Hx. transitivity (hsum (gpow k) (fun c => Z.lxor (if c =? x then 0 else f c) (if c =? x then f x else 0)) lo n).
  - apply hsum_ext. intros c Hc. destruct (Z.eqb_spec c x) as [-> | ?]; [done | by rewrite Z.lxor_0_r].
  - rewrite hsum_lxor, hsum_single. f_equal. destruct (_ && _) eqn:E; [done | lia].
Qed.

(** ** Well-formed maps *)
Record rz_ok (rm : raidz_map) (pcnt : Z) : Prop := {
  ok_np : 1 <= rm_firstdatacol rm <= 3;
  ok_cols : rm_firstdatacol rm < rm_cols rm;
  ok_len : rm_cols rm <= Z.of_nat (length (rm_col rm));
  ok_pcnt : 0 <= pcnt;
  ok_par : forall c k, 0 <= c < rm_firstdatacol rm -> rm_col rm !! Z.to_nat c = Some k ->
    rc_size k = 8 * pcnt /\ Z.of_nat (length (rc_data k)) = 8 * pcnt /\ Forall is_byte (rc_data k);
  ok_data : forall c k, rm_firstdatacol rm <= c < rm_cols rm -> rm_col rm !! Z.to_nat c = Some k ->
    0 <= rc_size k <= 8 * pcnt /\ rc_size k mod 8 = 0 /\
    rc_size k <= Z.of_nat (length (rc_data k)) /\ Forall is_byte (rc_data k)
}.

(** Byte [j] of column [c], short columns being padded with zeroes. *)
Definition cbyte (k : raidz_col) (j : Z) : Z := if (0 <=? j) && (j <? rc_size k) then nb (rc_data k) j else 0.
Definition dbyte (rm : raidz_map) (c j : Z) : Z :=
  match rm_col rm !! Z.to_nat c with Some k => cbyte k j | None => 0 end.

(** What parity column [i] must hold at byte [j]. *)
Definition ndata (rm : raidz_map) : nat := Z.to_nat (rm_cols rm - rm_firstdatacol rm).
Definition parity_byte (rm : raidz_map) (i : nat) (j : Z) : Z :=
  hsum (gpow i) (fun c => dbyte rm c j) (rm_firstdatacol rm) (ndata rm).

Lemma cbyte_byte k j : Forall is_byte (rc_data k) -> is_byte (cbyte k j).
Proof. intros H. unfold cbyte. destruct (_ && _); [by apply nb_byte | unfold is_byte; lia]. Qed.

Lemma get_col_Some rm c k : 0 <= c -> rm_col rm !! Z.to_nat c = Some k -> get_col rm c = Ok k.
Proof. intros Hc Hk. unfold get_col. rewrite (proj2 (Z.leb_le 0 c)), Hk by done. done. Qed.

Lemma ok_col rm pcnt c : rz_ok rm pcnt -> 0 <= c < rm_cols rm -> exists k, rm_col rm !! Z.to_nat c = Some k.
Proof. intros [] Hc. apply lookup_lt_is_Some_2. lia. Qed.

(** ** Replacing the buffers of the parity columns *)
Definition set_parity (rm : raidz_map) (ds : list (list Z)) : raidz_map :=
  set_cols rm (zip_with with_data (take (length ds) (rm_col rm)) ds ++ drop (length ds) (rm_col rm)).

Lemma with_data_id k : with_data k (rc_data k) = k.
Proof. by destruct k. Qed.

Lemma set_parity_id rm n : (n <= length (rm_col rm))%nat -> set_parity rm (map rc_data (take n (rm_col rm))) = rm.
Proof.
  intros Hn. unfold set_parity. rewrite length_map, length_take, Nat.min_l by done.
  replace (zip_with _ _ _) with (take n (rm_col rm)); [rewrite take_drop; by destruct rm |].
  generalize (take n (rm_col rm)). induction l as [| k l IH]; simpl; [done |]. by rewrite with_data_id, <- IH.
Qed.

Lemma set_parity_lookup rm ds c k : (length ds <= length (rm_col rm))%nat ->
  rm_col rm !! c = Some k ->
  rm_col (set_parity rm ds) !! c = Some (match ds !! c with Some d => with_data k d | None => k end).
Proof.
  intros Hl Hk. unfold set_parity. simpl.
  assert (Hz : length (zip_with with_data (take (length ds) (rm_col rm)) ds) = length ds)
    by (rewrite length_zip_with, length_take; lia).
  destruct (decide (c < length ds)%nat) as [Hc | Hc].
  - destruct (lookup_lt_is_Some_2 ds c Hc) as (d & Hd).
    rewrite lookup_app_l, lookup_zip_with, lookup_take_lt, Hk, Hd by lia. done.
  - rewrite lookup_app_r, Hz, lookup_drop, (lookup_ge_None_2 ds) by lia.
    by replace (length ds + (c - length ds))%nat with c by lia.
Qed.

Lemma set_parity_upd rm ds i d :
  (length ds <= length (rm_col rm))%nat -> (i < length ds)%nat ->
  upd_col (set_parity rm ds) (Z.of_nat i) (fun k => with_data k d) = Ok (set_parity rm (<[i := d]> ds)).
Proof.
  intros Hl Hi. destruct (lookup_lt_is_Some_2 (rm_col rm) i) as (k & Hk); [lia |].
  unfold upd_col. rewrite (get_col_Some _ _ (match ds !! i with Some d => with_data k d | None => k end)).
  2: lia. 2: by rewrite Nat2Z.id, (set_parity_lookup _ _ _ _ Hl Hk).
  rewrite bind_Ok, Nat2Z.id. destruct (lookup_lt_is_Some_2 ds i Hi) as (e & He). rewrite He.
  unfold set_parity, set_cols. simpl. do 2 f_equal. rewrite length_insert.
  rewrite insert_app_l by (rewrite length_zip_with, length_take; lia). f_equal.
  change (with_data (with_data k e) d) with (with_data k d).
  rewrite <- (list_insert_id (take (length ds) (rm_col rm)) i k) at 2 by (rewrite lookup_take_lt by lia; done).
  by rewrite insert_zip_with.
Qed.

(** ** One data column added to the parity *)
Section column.
Context (kc : raidz_col) (pcnt : Z).
Context (Hpcnt : 0 <= pcnt) (Hsize : 0 <= rc_size kc <= 8 * pcnt) (H8 : rc_size kc mod 8 = 0).
Context (Hlen : rc_size kc <= Z.of_nat (length (rc_data kc))) (Hbytes : Forall is_byte (rc_data kc)).

Lemma ccnt_spec : rc_size kc = 8 * (rc_size kc / 8).
Proof. Z.to_euclidean_division_equations; lia. Qed.

Lemma load_src i : 0 <= i < rc_size kc / 8 -> load64 (rc_data kc) i = Ok (word_of (cbyte kc) i).
Proof.
  intros Hi. pose proof ccnt_spec. rewrite load64_spec by lia. f_equal. apply word_of_ext.
  intros j Hj. unfold cbyte. destruct (_ && _) eqn:E; [done | lia].
Qed.

Lemma src_0 i : rc_size kc / 8 <= i -> word_of (cbyte kc) i = 0.
Proof.
  intros Hi. pose proof ccnt_spec. rewrite (word_0 i). apply word_of_ext.
  intros j Hj. unfold cbyte. destruct (_ && _) eqn:E; [lia | done].
Qed.

(** The new bytes of parity [i]. *)
Definition step (i : nat) (first : bool) (old : list Z) (j : Z) : Z :=
  if first then cbyte kc j else Z.lxor (gpow i (nb old j)) (cbyte kc j).

Lemma step_byte i first old j : Forall is_byte old -> is_byte (step i first old j).
Proof.
  intros Ho. unfold step. destruct first; [by apply cbyte_byte |].
  apply lxor_byte; [apply gpow_byte; by apply nb_byte | by apply cbyte_byte].
Qed.

(** The words stored for it. *)
Lemma word_step0 old w : Forall is_byte old ->
  Z.lxor (word_of (nb old) w) (word_of (cbyte kc) w) = word_of (step 0 false old) w.
Proof. intros Ho. apply word_lxor; intros j; [by apply nb_byte | by apply cbyte_byte]. Qed.
Lemma word_step1 old w : Forall is_byte old ->
  Z.lxor (VDEV_RAIDZ_64MUL_2 (word_of (nb old) w)) (word_of (cbyte kc) w) = word_of (step 1 false old) w.
Proof.
  intros Ho. rewrite word_mul2 by (intros; by apply nb_byte).
  apply word_lxor; intros j; [apply gmul2_byte | by apply cbyte_byte].
Qed.
Lemma word_step2 old w : Forall is_byte old ->
  Z.lxor (VDEV_RAIDZ_64MUL_4 (word_of (nb old) w)) (word_of (cbyte kc) w) = word_of (step 2 false old) w.
Proof.
  intros Ho. rewrite word_mul4 by (intros; by apply nb_byte).
  apply word_lxor; intros j; [apply gmul2_byte | by apply cbyte_byte].
Qed.

(** A parity buffer: full length, all bytes. *)
Definition pbuf (d : list Z) : Prop := Z.of_nat (length d) = 8 * pcnt /\ Forall is_byte d.

Lemma upto_start i first old : pbuf old -> upto (step i first old) old (8 * 0) old.
Proof. intros (_ & Hb). by apply upto_0. Qed.

(** Where the column is exhausted, parity 0 keeps its bytes. *)
Lemma upto_end0 old d :
  pbuf old -> upto (step 0 false old) old (8 * (rc_size kc / 8)) d -> upto (step 0 false old) old (8 * pcnt) d.
Proof.
  intros (Hl & Hb) Hu. pose proof ccnt_spec. eapply upto_skip; [exact Hu | | lia].
  intros j Hj. unfold step, cbyte. destruct (_ && _) eqn:E; [lia | apply Z.lxor_0_r].
Qed.

Ltac store := eapply store64_bind; [eassumption | lia | lia | intros; by apply step_byte | | intros ? ?].

Lemma inner_p first op :
  pbuf op -> (first = true -> rc_size kc = 8 * pcnt) ->
  runs (if first : bool then
          VERIFY (rc_size kc / 8 =? pcnt) ;;
          for_range 0 (rc_size kc / 8) (fun i p => w ← load64 (rc_data kc) i ; store64 p i w) op
        else
          VERIFY (rc_size kc / 8 <=? pcnt) ;;
          for_range 0 (rc_size kc / 8) (fun i p =>
            v ← load64 p i ; w ← load64 (rc_data kc) i ; store64 p i (Z.lxor v w)) op)
    (upto (step 0 first op) op (8 * pcnt)).
Proof.
  intros (Hl & Hb) Hf. pose proof ccnt_spec as Hc. destruct first.
  - specialize (Hf eq_refl). rewrite VERIFY_pass by lia.
    replace pcnt with (rc_size kc / 8) by lia.
    apply (for_range_inv _ _ _ _ (fun i p => upto (step 0 true op) op (8 * i) p)); [lia | by apply upto_start |].
    intros i p Hi Hp. rewrite load_src, bind_Ok by done.
    eapply store64_upto; [exact Hp | lia | lia | intros; by apply step_byte | done].
  - rewrite VERIFY_pass by lia. eapply runs_impl; [| intros p; by apply upto_end0].
    apply (for_range_inv _ _ _ _ (fun i p => upto (step 0 false op) op (8 * i) p)); [lia | by apply upto_start |].
    intros i p Hi Hp. rewrite (load64_upto _ _ _ _ Hp), bind_Ok, load_src, bind_Ok by lia.
    eapply store64_upto; [exact Hp | lia | lia | intros; by apply step_byte | by rewrite word_step0].
Qed.

Lemma inner_pq first op oq :
  pbuf op -> pbuf oq -> (first = true -> rc_size kc = 8 * pcnt \/ rc_size kc = 0) ->
  runs (if first : bool then
          VERIFY ((rc_size kc / 8 =? pcnt) || (rc_size kc / 8 =? 0)) ;;
          st ← for_range 0 (rc_size kc / 8) (fun i '(p, q) =>
            w ← load64 (rc_data kc) i ; p ← store64 p i w ; q ← store64 q i w ; Ok (p, q)) (op, oq) ;
          for_range (rc_size kc / 8) pcnt (fun i '(p, q) =>
            p ← store64 p i 0 ; q ← store64 q i 0 ; Ok (p, q)) st
        else
          VERIFY (rc_size kc / 8 <=? pcnt) ;;
          st ← for_range 0 (rc_size kc / 8) (fun i '(p, q) =>
            w ← load64 (rc_data kc) i ;
            v ← load64 p i ; p ← store64 p i (Z.lxor v w) ;
            v ← load64 q i ; q ← store64 q i (Z.lxor (VDEV_RAIDZ_64MUL_2 v) w) ; Ok (p, q)) (op, oq) ;
          for_range (rc_size kc / 8) pcnt (fun i '(p, q) =>
            v ← load64 q i ; q ← store64 q i (VDEV_RAIDZ_64MUL_2 v) ; Ok (p, q)) st)
    (fun '(p, q) => upto (step 0 first op) op (8 * pcnt) p /\ upto (step 1 first oq) oq (8 * pcnt) q).
Proof.
  intros (Hl & Hb) (Hl' & Hb') Hf. pose proof ccnt_spec as Hc. destruct first.
  - specialize (Hf eq_refl). rewrite VERIFY_pass by lia.
    set (I := fun i '(p, q) => upto (step 0 true op) op (8 * i) p /\ upto (step 1 true oq) oq (8 * i) q).
    eapply runs_bind; [apply (for_range_inv _ _ _ _ I); [lia | split; by apply upto_start |] |].
    + intros i (p, q) Hi (Hp & Hq). rewrite load_src, bind_Ok by done. store; [done |]. by store.
    + intros st Hst. apply (for_range_inv _ _ _ _ I); [lia | exact Hst |].
      intros i (p, q) Hi (Hp & Hq). store; [symmetry; apply src_0; lia |]. store; [symmetry; apply src_0; lia |]. done.
  - rewrite VERIFY_pass by lia.
    set (I := fun i '(p, q) => upto (step 0 false op) op (8 * i) p /\ upto (step 1 false oq) oq (8 * i) q).
    eapply runs_bind; [apply (for_range_inv _ _ _ _ I); [lia | split; by apply upto_start |] |].
    + intros i (p, q) Hi (Hp & Hq). rewrite load_src, bind_Ok by done.
      rewrite (load64_upto _ _ _ _ Hp), bind_Ok by lia. store; [by apply word_step0 |].
      rewrite (load64_upto _ _ _ _ Hq), bind_Ok by lia. store; [by apply word_step1 | done].
    + intros (p0, q0) (Hp0 & Hq0). apply upto_end0 in Hp0; [| done].
      apply (for_range_inv _ _ _ _ (fun i '(p, q) => upto (step 0 false op) op (8 * pcnt) p /\ upto (step 1 false oq) oq (8 * i) q));
        [lia | done |].
      intros i (p, q) Hi (Hp & Hq). rewrite (load64_upto _ _ _ _ Hq), bind_Ok by lia.
      store; [| done]. by rewrite <- word_step1, src_0, Z.lxor_0_r by (done || lia).
Qed.

Lemma inner_pqr first op oq or :
  pbuf op -> pbuf oq -> pbuf or -> (first = true -> rc_size kc = 8 * pcnt \/ rc_size kc = 0) ->
  runs (if first : bool then
          VERIFY ((rc_size kc / 8 =? pcnt) || (rc_size kc / 8 =? 0)) ;;
          st ← for_range 0 (rc_size kc / 8) (fun i '(p, q, r) =>
            w ← load64 (rc_data kc) i ;
            p ← store64 p i w ; q ← store64 q i w ; r ← store64 r i w ; Ok (p, q, r)) (op, oq, or) ;
          for_range (rc_size kc / 8) pcnt (fun i '(p, q, r) =>
            p ← store64 p i 0 ; q ← store64 q i 0 ; r ← store64 r i 0 ; Ok (p, q, r)) st
        else
          VERIFY (rc_size kc / 8 <=? pcnt) ;;
          st ← for_range 0 (rc_size kc / 8) (fun i '(p, q, r) =>
            w ← load64 (rc_data kc) i ;
            v ← load64 p i ; p ← store64 p i (Z.lxor v w) ;
            v ← load64 q i ; q ← store64 q i (Z.lxor (VDEV_RAIDZ_64MUL_2 v) w) ;
            v ← load64 r i ; r ← store64 r i (Z.lxor (VDEV_RAIDZ_64MUL_4 v) w) ; Ok (p, q, r)) (op, oq, or) ;
          for_range (rc_size kc / 8) pcnt (fun i '(p, q, r) =>
            v ← load64 q i ; q ← store64 q i (VDEV_RAIDZ_64MUL_2 v) ;
            v ← load64 r i ; r ← store64 r i (VDEV_RAIDZ_64MUL_4 v) ; Ok (p, q, r)) st)
    (fun '(p, q, r) => upto (step 0 first op) op (8 * pcnt) p /\ upto (step 1 first oq) oq (8 * pcnt) q /\
       upto (step 2 first or) or (8 * pcnt) r).
Proof.
  intros (Hl & Hb) (Hl' & Hb') (Hl'' & Hb'') Hf. pose proof ccnt_spec as Hc. destruct first.
  - specialize (Hf eq_refl). rewrite VERIFY_pass by lia.
    set (I := fun i '(p, q, r) => upto (step 0 true op) op (8 * i) p /\ upto (step 1 true oq) oq (8 * i) q /\
      upto (step 2 true or) or (8 * i) r).
    eapply runs_bind; [apply (for_range_inv _ _ _ _ I); [lia | split_and!; by apply upto_start |] |].
    + intros i [[p q] r] Hi (Hp & Hq & Hr). rewrite load_src, bind_Ok by done. store; [done |]. store; [done |]. by store.
    + intros st Hst. apply (for_range_inv _ _ _ _ I); [lia | exact Hst |].
      intros i [[p q] r] Hi (Hp & Hq & Hr). do 3 (store; [symmetry; apply src_0; lia |]). done.
  - rewrite VERIFY_pass by lia.
    set (I := fun i '(p, q, r) => upto (step 0 false op) op (8 * i) p /\ upto (step 1 false oq) oq (8 * i) q /\
      upto (step 2 false or) or (8 * i) r).
    eapply runs_bind; [apply (for_range_inv _ _ _ _ I); [lia | split_and!; by apply upto_start |] |].
    + intros i [[p q] r] Hi (Hp & Hq & Hr). rewrite load_src, bind_Ok by done.
      rewrite (load64_upto _ _ _ _ Hp), bind_Ok by lia. store; [by apply word_step0 |].
      rewrite (load64_upto _ _ _ _ Hq), bind_Ok by lia. store; [by apply word_step1 |].
      rewrite (load64_upto _ _ _ _ Hr), bind_Ok by lia. store; [by apply word_step2 | done].
    + intros [[p0 q0] r0] (Hp0 & Hq0 & Hr0). apply upto_end0 in Hp0; [| done].
      apply (for_range_inv _ _ _ _ (fun i '(p, q, r) => upto (step 0 false op) op (8 * pcnt) p /\
        upto (step 1 false oq) oq (8 * i) q /\ upto (step 2 false or) or (8 * i) r)); [lia | done |].
      intros i [[p q] r] Hi (Hp & Hq & Hr). rewrite (load64_upto _ _ _ _ Hq), bind_Ok by lia.
      store; [by rewrite <- word_step1, src_0, Z.lxor_0_r by (done || lia) |].
      rewrite (load64_upto _ _ _ _ Hr), bind_Ok by lia.
      store; [| done]. by rewrite <- word_step2, src_0, Z.lxor_0_r by (done || lia).
Qed.
End column.

Lemma div8 pcnt : 8 * pcnt / 8 = pcnt.
Proof. Z.to_euclidean_division_equations; lia. Qed.

(** ** All data columns *)
Section generate.
Context (rm : raidz_map) (pcnt : Z) (Hok : rz_ok rm pcnt).
Context (np : nat) (Hnp : Z.of_nat np <= rm_firstdatacol rm).
Context (Hfirst : forall k, rm_col rm !! Z.to_nat (rm_firstdatacol rm) = Some k ->
  rc_size k = 8 * pcnt \/ rc_size k = 0).

(** The parity buffers after the columns below [c]. *)
Definition parity_upto (c : Z) (ds : list (list Z)) : Prop :=
  forall i d, ds !! i = Some d -> pbuf pcnt d /\
    (rm_firstdatacol rm < c -> forall j, 0 <= j < 8 * pcnt ->
       nb d j = hsum (gpow i) (fun c' => dbyte rm c' j) (rm_firstdatacol rm) (Z.to_nat (c - rm_firstdatacol rm))).

Definition gen_inv (c : Z) (rm' : raidz_map) : Prop :=
  exists ds, rm' = set_parity rm ds /\ length ds = np /\ parity_upto c ds.

Lemma gen_start : gen_inv (rm_firstdatacol rm) rm.
Proof.
  destruct Hok. exists (map rc_data (take np (rm_col rm))).
  split; [symmetry; apply set_parity_id; lia |]. split; [rewrite length_map, length_take; lia |].
  intros i d Hd. rewrite list_lookup_fmap in Hd.
  destruct (take _ _ !! i) as [k |] eqn:Hk; [| done]. injection Hd as <-.
  apply lookup_take_Some in Hk as (Hk & Hi).
  destruct (ok_par0 (Z.of_nat i) k) as (_ & ? & ?); [lia | by rewrite Nat2Z.id |].
  split; [done | lia].
Qed.

(** One buffer after one more column. *)
Lemma gen_step c kc i d d' :
  rm_firstdatacol rm <= c < rm_cols rm -> rm_col rm !! Z.to_nat c = Some kc ->
  pbuf pcnt d -> (rm_firstdatacol rm < c -> forall j, 0 <= j < 8 * pcnt ->
       nb d j = hsum (gpow i) (fun c' => dbyte rm c' j) (rm_firstdatacol rm) (Z.to_nat (c - rm_firstdatacol rm))) ->
  upto (step kc i (c =? rm_firstdatacol rm) d) d (8 * pcnt) d' ->
  pbuf pcnt d' /\ forall j, 0 <= j < 8 * pcnt ->
    nb d' j = hsum (gpow i) (fun c' => dbyte rm c' j) (rm_firstdatacol rm) (Z.to_nat (c + 1 - rm_firstdatacol rm)).
Proof.
  intros Hc Hk (Hl & Hb) Hd []. split; [split; [lia | done] |]. intros j Hj.
  rewrite up_nb0, (proj2 (Z.ltb_lt j _)) by lia.
  replace (Z.to_nat (c + 1 - rm_firstdatacol rm)) with (S (Z.to_nat (c - rm_firstdatacol rm))) by lia. cbn [hsum].
  assert (dbyte rm (rm_firstdatacol rm + Z.of_nat (Z.to_nat (c - rm_firstdatacol rm))) j = cbyte kc j) as ->.
  { replace (rm_firstdatacol rm + _) with c by lia. unfold dbyte. by rewrite Hk. }
  unfold step. destruct (Z.eqb_spec c (rm_firstdatacol rm)) as [-> | Hne].
  - replace (Z.to_nat _) with 0%nat by lia. simpl. by rewrite gpow_0, Z.lxor_0_l.
  - by rewrite Hd by lia.
Qed.

(** The columns seen by an iteration. *)
Lemma gen_data c ds kc : length ds = np -> rm_firstdatacol rm <= c < rm_cols rm ->
  rm_col rm !! Z.to_nat c = Some kc -> get_col (set_parity rm ds) c = Ok kc.
Proof.
  intros Hl Hc Hk. destruct Hok. apply get_col_Some; [lia |].
  rewrite (set_parity_lookup rm ds _ _ ltac:(lia) Hk). by rewrite (lookup_ge_None_2 ds) by lia.
Qed.

Lemma gen_parity z i ds d : z = Z.of_nat i -> length ds = np -> ds !! i = Some d ->
  exists k, get_col (set_parity rm ds) z = Ok k /\ rc_data k = d /\ rc_size k = 8 * pcnt.
Proof.
  intros -> Hl Hd. pose proof (lookup_lt_Some _ _ _ Hd). destruct Hok.
  destruct (lookup_lt_is_Some_2 (rm_col rm) i) as (k & Hk); [lia |].
  exists (with_data k d). split; [| split; [done | apply (ok_par0 (Z.of_nat i) k); [lia | by rewrite Nat2Z.id]]].
  apply get_col_Some; [lia |]. rewrite Nat2Z.id, (set_parity_lookup rm ds _ _ ltac:(lia) Hk). by rewrite Hd.
Qed.

Lemma gen_store z ds i d : z = Z.of_nat i -> length ds = np -> (i < length ds)%nat ->
  upd_col (set_parity rm ds) z (fun k => with_data k d) = Ok (set_parity rm (<[i := d]> ds)).
Proof. intros -> Hl Hi. destruct Hok. apply set_parity_upd; lia. Qed.

(** The parity columns of the map itself. *)
Lemma own_parity i : 0 <= i < rm_firstdatacol rm -> exists k, get_col rm i = Ok k /\ rc_size k = 8 * pcnt.
Proof.
  intros Hi. destruct (ok_col _ _ i Hok) as (k & Hk); [destruct Hok; lia |]. exists k.
  split; [apply get_col_Some; [lia | done] | by apply (ok_par _ _ Hok i)].
Qed.

Lemma first_size c kc : rm_col rm !! Z.to_nat c = Some kc -> (c =? rm_firstdatacol rm) = true ->
  rc_size kc = 8 * pcnt \/ rc_size kc = 0.
Proof. intros Hk Hc. apply Z.eqb_eq in Hc as ->. by apply Hfirst. Qed.

Lemma generate_p_spec :
  np = 1%nat ->
  (forall k, rm_col rm !! Z.to_nat (rm_firstdatacol rm) = Some k -> rc_size k = 8 * pcnt) ->
  runs (vdev_raidz_generate_parity_p rm) (gen_inv (rm_cols rm)).
Proof.
  intros En Hfull. pose proof (ok_cols _ _ Hok). pose proof (ok_pcnt _ _ Hok) as Hp0. unfold vdev_raidz_generate_parity_p, VDEV_RAIDZ_P.
  destruct (own_parity 0) as (kp & -> & Sp); [lia |]. rewrite bind_Ok, Sp, div8.
  apply for_range_inv; [lia | exact gen_start |]. intros c rm' Hc (ds & -> & Hl & Hds).
  destruct (ok_col _ _ c Hok) as (kc & Hk); [lia |]. destruct (ok_data _ _ Hok c kc Hc Hk) as (Hs & H8 & Hlen & Hb).
  destruct ds as [| p [|]]; simpl in Hl; try lia.
  rewrite (gen_data c [p] kc), bind_Ok by done.
  destruct (gen_parity 0 0 [p] p) as (k0 & -> & E0 & _); [done | done | done |]. rewrite bind_Ok, E0.
  destruct (Hds 0%nat p eq_refl) as (Hpb & Hps). change (rm_firstdatacol (set_parity rm [p])) with (rm_firstdatacol rm).
  eapply runs_bind; [apply inner_p; auto; intros Hf; apply Z.eqb_eq in Hf as ->; by apply Hfull |].
  intros p' Hp'. rewrite (gen_store 0 [p] 0 p') by (done || simpl; lia). simpl.
  exists [p']. split; [done |]. split; [done |]. intros [| i] d Hd; [| done]. injection Hd as <-.
  destruct (gen_step c kc 0 p p') as (? & ?); auto.
Qed.

Lemma generate_pq_spec :
  np = 2%nat -> runs (vdev_raidz_generate_parity_pq rm) (gen_inv (rm_cols rm)).
Proof.
  intros En. pose proof (ok_cols _ _ Hok). pose proof (ok_pcnt _ _ Hok) as Hp0. unfold vdev_raidz_generate_parity_pq, VDEV_RAIDZ_P, VDEV_RAIDZ_Q.
  destruct (own_parity 0) as (kp & -> & Sp); [lia |]. rewrite bind_Ok.
  destruct (own_parity 1) as (kq & -> & Sq); [lia |]. rewrite bind_Ok, Sp, Sq, div8, VERIFY_pass by lia.
  apply for_range_inv; [lia | exact gen_start |]. intros c rm' Hc (ds & -> & Hl & Hds).
  destruct (ok_col _ _ c Hok) as (kc & Hk); [lia |]. destruct (ok_data _ _ Hok c kc Hc Hk) as (Hs & H8 & Hlen & Hb).
  destruct ds as [| p [| q [|]]]; simpl in Hl; try lia.
  rewrite (gen_data c [p; q] kc), bind_Ok by done.
  destruct (gen_parity 0 0 [p; q] p) as (k0 & -> & E0 & _); [done | done | done |]. rewrite bind_Ok.
  destruct (gen_parity 1 1 [p; q] q) as (k1 & -> & E1 & _); [done | done | done |]. rewrite bind_Ok, E0, E1.
  destruct (Hds 0%nat p eq_refl) as (Hpb & Hps). destruct (Hds 1%nat q eq_refl) as (Hqb & Hqs).
  change (rm_firstdatacol (set_parity rm [p; q])) with (rm_firstdatacol rm).
  eapply runs_bind; [apply inner_pq; auto; by apply first_size |].
  intros (p', q') (Hp' & Hq'). rewrite (gen_store 0 [p; q] 0 p'), bind_Ok by (done || simpl; lia). cbn [list_insert insert].
  rewrite (gen_store 1 [p'; q] 1 q') by (done || simpl; lia). simpl.
  exists [p'; q']. split; [done |]. split; [done |]. intros [| [| i]] d Hd; [| | done]; injection Hd as <-.
  - destruct (gen_step c kc 0 p p') as (? & ?); auto.
  - destruct (gen_step c kc 1 q q') as (? & ?); auto.
Qed.

Lemma generate_pqr_spec :
  np = 3%nat -> runs (vdev_raidz_generate_parity_pqr rm) (gen_inv (rm_cols rm)).
Proof.
  intros En. pose proof (ok_cols _ _ Hok). pose proof (ok_pcnt _ _ Hok) as Hp0. unfold vdev_raidz_generate_parity_pqr, VDEV_RAIDZ_P, VDEV_RAIDZ_Q, VDEV_RAIDZ_R.
  destruct (own_parity 0) as (kp & -> & Sp); [lia |]. rewrite bind_Ok.
  destruct (own_parity 1) as (kq & -> & Sq); [lia |]. rewrite bind_Ok.
  destruct (own_parity 2) as (kr & -> & Sr); [lia |]. rewrite bind_Ok, Sp, Sq, Sr, div8, !VERIFY_pass by lia.
  apply for_range_inv; [lia | exact gen_start |]. intros c rm' Hc (ds & -> & Hl & Hds).
  destruct (ok_col _ _ c Hok) as (kc & Hk); [lia |]. destruct (ok_data _ _ Hok c kc Hc Hk) as (Hs & H8 & Hlen & Hb).
  destruct ds as [| p [| q [| r [|]]]]; simpl in Hl; try lia.
  rewrite (gen_data c [p; q; r] kc), bind_Ok by done.
  destruct (gen_parity 0 0 [p; q; r] p) as (k0 & -> & E0 & _); [done | done | done |]. rewrite bind_Ok.
  destruct (gen_parity 1 1 [p; q; r] q) as (k1 & -> & E1 & _); [done | done | done |]. rewrite bind_Ok.
  destruct (gen_parity 2 2 [p; q; r] r) as (k2 & -> & E2 & _); [done | done | done |]. rewrite bind_Ok, E0, E1, E2.
  destruct (Hds 0%nat p eq_refl) as (Hpb & Hps). destruct (Hds 1%nat q eq_refl) as (Hqb & Hqs).
  destruct (Hds 2%nat r eq_refl) as (Hrb & Hrs).
  change (rm_firstdatacol (set_parity rm [p; q; r])) with (rm_firstdatacol rm).
  eapply runs_bind; [apply inner_pqr; auto; by apply first_size |].
  intros [[p' q'] r'] (Hp' & Hq' & Hr').
  rewrite (gen_store 0 [p; q; r] 0 p'), bind_Ok by (done || simpl; lia). cbn [list_insert insert].
  rewrite (gen_store 1 [p'; q; r] 1 q'), bind_Ok by (done || simpl; lia). cbn [list_insert insert].
  rewrite (gen_store 2 [p'; q'; r] 2 r') by (done || simpl; lia). simpl.
  exists [p'; q'; r']. split; [done |]. split; [done |]. intros [| [| [| i]]] d Hd; [| | | done]; injection Hd as <-.
  - destruct (gen_step c kc 0 p p') as (? & ?); auto.
  - destruct (gen_step c kc 1 q q') as (? & ?); auto.
  - destruct (gen_step c kc 2 r r') as (? & ?); auto.
Qed.
End generate.
