(* ===== verification/RaidzRec.v ===== *)
(** * Reconstruction of lost columns

    The optimised routines recover one lost column from P or from Q, and two
    from both. *)
From S2P Require Import Prelude Bytes Gf256 Raidz RaidzSpec.
Local Open Scope Z_scope.

(** ** Buffers updated in passes *)
Lemma upto_trans f g h old n d0 d :
  upto f old n d0 -> upto g d0 n d -> (forall j, 0 <= j < n -> j < Z.of_nat (length old) -> g j = h j) ->
  upto h old n d.
Proof.
  intros [Hl0 _ Hn0] [Hl1 Hb1 Hn1] H. split; [congruence | done |]. intros j Hj. rewrite Hn1 by lia.
  destruct (Z.ltb_spec j n); [apply H; lia |]. rewrite Hn0 by lia. by rewrite (proj2 (Z.ltb_ge j n)) by lia.
Qed.

Lemma upto_ext f g old n d : upto f old n d -> (forall j, 0 <= j < n -> f j = g j) -> upto g old n d.
Proof.
  intros [Hul Hub up_nb0] H. split; [done | done |]. intros j Hj. rewrite up_nb0 by lia.
  destruct (Z.ltb_spec j n); [apply H; lia | done].
Qed.

Lemma nb_insert d i b j : (i < length d)%nat -> 0 <= j ->
  nb (<[i := b]> d) j = if j =? Z.of_nat i then b else nb d j.
Proof.
  intros Hi Hj. unfold nb. destruct (Z.eqb_spec j (Z.of_nat i)) as [-> | Hne].
  - rewrite Nat2Z.id. apply nth_lookup_Some. by apply list_lookup_insert_eq.
  - rewrite !nth_lookup. by rewrite list_lookup_insert_ne by lia.
Qed.

Lemma store8_upto new old n d b :
  upto new old n d -> 0 <= n < Z.of_nat (length old) -> is_byte b -> b = new n ->
  runs (store8 d n b) (upto new old (n + 1)).
Proof.
  intros [Hul Hub up_nb0] Hn Hb ->. unfold store8. rewrite VERIFY_pass, uchar_byte by (done || lia). simpl. split.
  - by rewrite length_insert.
  - by apply Forall_insert.
  - intros j Hj. rewrite nb_insert, Z2Nat.id by lia. destruct (Z.eqb_spec j n) as [-> | Hne].
    + by rewrite (proj2 (Z.ltb_lt n _)) by lia.
    + rewrite up_nb0 by lia. destruct (Z.ltb_spec j n), (Z.ltb_spec j (n + 1)); lia || done.
Qed.

(** Multiplying the bytes of one word. *)
Lemma exp2_bytes_spec e i d :
  0 <= e <= 255 -> 0 <= i -> 8 * i + 8 <= Z.of_nat (length d) -> Forall is_byte d ->
  runs (exp2_bytes e i d) (upto (fun j => if j <? 8 * i then nb d j else gpow (Z.to_nat e) (nb d j)) d (8 * (i + 1))).
Proof.
  intros He Hi Hd Hb. unfold exp2_bytes. set (new := fun j => if j <? 8 * i then nb d j else _).
  replace (8 * (i + 1)) with (8 * i + 8) by lia.
  apply (for_range_inv 0 8 _ _ (fun j d' => upto new d (8 * i + j) d')); [lia | |].
  - rewrite Z.add_0_r. split; [done | done |]. intros j Hj. unfold new. by destruct (j <? 8 * i).
  - intros j d' Hj Hu. rewrite byte_at_nb by (rewrite (up_len _ _ _ _ Hu); lia). rewrite bind_Ok.
    rewrite (up_nb _ _ _ _ Hu), (proj2 (Z.ltb_ge _ _)) by lia.
    rewrite exp2_spec, bind_Ok by (done || by apply nb_byte).
    replace (8 * i + (j + 1)) with (8 * i + j + 1) by lia.
    eapply store8_upto; [exact Hu | lia | apply gpow_byte; by apply nb_byte |].
    unfold new. by rewrite (proj2 (Z.ltb_ge _ _)) by lia.
Qed.

(** One pass of [dst ^= src] over words, the source padded with zeroes. *)
Section pass.
Context (kc : raidz_col) (xcount : Z) (old : list Z).
Context (Hsize : 0 <= rc_size kc) (H8 : rc_size kc mod 8 = 0).
Context (Hlen : rc_size kc <= Z.of_nat (length (rc_data kc))) (Hbytes : Forall is_byte (rc_data kc)).
Context (Hx : 0 <= xcount) (Hold : 8 * xcount <= Z.of_nat (length old)) (Hob : Forall is_byte old).

Lemma load_pass i : 0 <= i < Z.min (rc_size kc / 8) xcount -> load64 (rc_data kc) i = Ok (word_of (cbyte kc) i).
Proof. intros Hi. apply load_src; (done || lia). Qed.

Lemma xor_pass :
  runs (for_range 0 (Z.min (rc_size kc / 8) xcount) (fun i dst =>
      v ← load64 dst i ; w ← load64 (rc_data kc) i ; store64 dst i (Z.lxor v w)) old)
    (upto (step kc 0 false old) old (8 * xcount)).
Proof.
  assert (Hc : rc_size kc = 8 * (rc_size kc / 8)) by (Z.to_euclidean_division_equations; lia).
  eapply runs_impl; [apply (for_range_inv _ _ _ _ (fun i d => upto (step kc 0 false old) old (8 * i) d)) |].
  - lia.
  - by apply upto_0.
  - intros i d Hi Hu. rewrite (load64_upto _ _ _ _ Hu), bind_Ok, load_pass, bind_Ok by lia.
    eapply store64_upto; [exact Hu | lia | lia | intros; by eapply step_byte | by apply word_step0].
  - intros d Hu. destruct (Z.le_gt_cases xcount (rc_size kc / 8)) as [Hm | Hm].
    + by rewrite Z.min_r in Hu by lia.
    + eapply upto_skip; [exact Hu | | lia]. intros j Hj. unfold step, cbyte. rewrite Z.min_l in Hj by lia.
      destruct (_ && _) eqn:E; [lia | apply Z.lxor_0_r].
Qed.

Lemma first_pass :
  runs (dst ← for_range 0 (Z.min (rc_size kc / 8) xcount) (fun i dst => w ← load64 (rc_data kc) i ; store64 dst i w) old ;
        for_range (Z.min (rc_size kc / 8) xcount) xcount (fun i dst => store64 dst i 0) dst)
    (upto (step kc 1 true old) old (8 * xcount)).
Proof.
  assert (Hc : rc_size kc = 8 * (rc_size kc / 8)) by (Z.to_euclidean_division_equations; lia).
  set (I := fun i d => upto (step kc 1 true old) old (8 * i) d).
  eapply runs_bind; [apply (for_range_inv _ _ _ _ I); [lia | by apply upto_0 |] |].
  - intros i d Hi Hu. rewrite load_pass, bind_Ok by lia.
    eapply store64_upto; [exact Hu | lia | lia | intros; by eapply step_byte | done].
  - intros d Hd. apply (for_range_inv _ _ _ _ I); [lia | exact Hd |]. intros i d' Hi Hu.
    eapply store64_upto; [exact Hu | lia | lia | intros; by eapply step_byte |]. symmetry. apply (src_0 kc); (done || lia).
Qed.

Lemma mul_pass :
  runs (dst ← for_range 0 (Z.min (rc_size kc / 8) xcount) (fun i dst =>
          v ← load64 dst i ; w ← load64 (rc_data kc) i ; store64 dst i (Z.lxor (VDEV_RAIDZ_64MUL_2 v) w)) old ;
        for_range (Z.min (rc_size kc / 8) xcount) xcount (fun i dst =>
          v ← load64 dst i ; store64 dst i (VDEV_RAIDZ_64MUL_2 v)) dst)
    (upto (step kc 1 false old) old (8 * xcount)).
Proof.
  assert (Hc : rc_size kc = 8 * (rc_size kc / 8)) by (Z.to_euclidean_division_equations; lia).
  set (I := fun i d => upto (step kc 1 false old) old (8 * i) d).
  eapply runs_bind; [apply (for_range_inv _ _ _ _ I); [lia | by apply upto_0 |] |].
  - intros i d Hi Hu. rewrite (load64_upto _ _ _ _ Hu), bind_Ok, load_pass, bind_Ok by lia.
    eapply store64_upto; [exact Hu | lia | lia | intros; by eapply step_byte | by apply word_step1].
  - intros d Hd. apply (for_range_inv _ _ _ _ I); [lia | exact Hd |]. intros i d' Hi Hu.
    rewrite (load64_upto _ _ _ _ Hu), bind_Ok by lia.
    eapply store64_upto; [exact Hu | lia | lia | intros; by eapply step_byte |].
    rewrite <- word_step1, src_0, Z.lxor_0_r by (done || lia). done.
Qed.
End pass.

Lemma upd_col_Some rm' c k f : 0 <= c -> rm_col rm' !! Z.to_nat c = Some k ->
  upd_col rm' c f = Ok (set_cols rm' (<[Z.to_nat c := f k]> (rm_col rm'))).
Proof. intros Hc Hk. unfold upd_col. by rewrite (get_col_Some _ _ _ Hc Hk). Qed.

Lemma set_cols_id rm : set_cols rm (rm_col rm) = rm.
Proof. by destruct rm. Qed.

(** ** Maps given by their columns *)
Section given.
Context (rm : raidz_map).

(** [rm'] is [rm] with the columns [F]. *)
Definition fits (F : nat -> option raidz_col) (rm' : raidz_map) : Prop :=
  exists l, rm' = set_cols rm l /\ forall c, l !! c = F c.

Lemma fits_start : fits (fun i => rm_col rm !! i) rm.
Proof. exists (rm_col rm). split; [by rewrite set_cols_id | done]. Qed.

Lemma fits_ext F G rm' : fits F rm' -> (forall i, F i = G i) -> fits G rm'.
Proof. intros (l & -> & Hl) H. exists l. split; [done |]. intros c. by rewrite Hl. Qed.

Lemma fits_get F rm' c k : fits F rm' -> 0 <= c -> F (Z.to_nat c) = Some k -> get_col rm' c = Ok k.
Proof. intros (l & -> & Hl) Hc Hk. apply get_col_Some; [done |]. simpl. by rewrite Hl. Qed.

Lemma fits_upd {B} F rm' c k f (K : raidz_map -> result B) Q :
  fits F rm' -> 0 <= c -> F (Z.to_nat c) = Some k ->
  (forall rm'', fits (fun i => if decide (i = Z.to_nat c) then Some (f k) else F i) rm'' -> runs (K rm'') Q) ->
  runs (r ← upd_col rm' c f ; K r) Q.
Proof.
  intros (l & -> & Hl) Hc Hk HK. rewrite (upd_col_Some _ c k) by (done || (simpl; by rewrite Hl)).
  rewrite bind_Ok. apply HK. exists (<[Z.to_nat c := f k]> l). split; [done |]. intros i.
  destruct (decide (i = Z.to_nat c)) as [-> | Hne].
  - apply list_lookup_insert_eq. apply lookup_lt_is_Some. rewrite Hl, Hk. eauto.
  - by rewrite list_lookup_insert_ne, Hl.
Qed.

Lemma fits_eq F l rm' : fits F rm' -> (forall i, F i = l !! i) -> rm' = set_cols rm l.
Proof. intros (l' & -> & Hl) H. f_equal. apply list_eq. intros i. by rewrite Hl. Qed.
End given.

(** ** The damaged map and what its columns should hold *)
Section reconstruct.
Context (rm : raidz_map) (pcnt : Z) (Hok : rz_ok rm pcnt).
Context (D : Z -> Z -> Z) (HD : forall c j, is_byte (D c j)).

(** Parity column [i] is intact. *)
Definition parity_valid (i : nat) (k : raidz_col) : Prop :=
  rm_col rm !! i = Some k /\ Z.of_nat i < rm_firstdatacol rm /\
  forall j, 0 <= j < 8 * pcnt ->
    nb (rc_data k) j = hsum (gpow i) (fun c => D c j) (rm_firstdatacol rm) (ndata rm).

(** The data column [x] with its buffer replaced by the bytes it should hold. *)
Definition restored (x : Z) (kx : raidz_col) (d : list Z) : Prop :=
  upto (D x) (rc_data kx) (rc_size kx) d.

Lemma ndata_eq : Z.of_nat (ndata rm) = rm_cols rm - rm_firstdatacol rm.
Proof. unfold ndata. pose proof (ok_cols _ _ Hok). lia. Qed.

Lemma parity_col i k : parity_valid i k ->
  get_col rm (Z.of_nat i) = Ok k /\ rc_size k = 8 * pcnt /\ Z.of_nat (length (rc_data k)) = 8 * pcnt /\
  Forall is_byte (rc_data k).
Proof.
  intros (Hk & Hi & _). split; [apply get_col_Some; [lia | by rewrite Nat2Z.id] |].
  apply (ok_par _ _ Hok (Z.of_nat i)); [lia | by rewrite Nat2Z.id].
Qed.


Section one.
Context (x : Z) (kx : raidz_col) (Hx : rm_firstdatacol rm <= x < rm_cols rm).
Context (Hkx : rm_col rm !! Z.to_nat x = Some kx).
Context (Hgood : forall c j, rm_firstdatacol rm <= c < rm_cols rm -> c <> x -> dbyte rm c j = D c j).

(** The data without the lost column. *)
Definition D0 (j c : Z) : Z := if c =? x then 0 else D c j.

Lemma x_facts : 0 <= rc_size kx <= 8 * pcnt /\ rc_size kx = 8 * (rc_size kx / 8) /\
  rc_size kx <= Z.of_nat (length (rc_data kx)) /\ Forall is_byte (rc_data kx).
Proof.
  destruct (ok_data _ _ Hok x kx Hx Hkx) as (? & ? & ? & ?).
  split_and!; (done || lia || (Z.to_euclidean_division_equations; lia)).
Qed.

Lemma good_col c : rm_firstdatacol rm <= c < rm_cols rm -> c <> x ->
  exists kc, get_col rm c = Ok kc /\ 0 <= rc_size kc /\ rc_size kc mod 8 = 0 /\
    rc_size kc <= Z.of_nat (length (rc_data kc)) /\ Forall is_byte (rc_data kc) /\ forall j, cbyte kc j = D0 j c.
Proof.
  intros Hc Hne. pose proof (ok_np _ _ Hok). destruct (ok_col _ _ c Hok) as (kc & Hk); [lia |].
  destruct (ok_data _ _ Hok c kc Hc Hk) as (? & ? & ? & ?). exists kc.
  split_and!; [apply get_col_Some; (done || lia) | lia | done | done | done |].
  intros j. unfold D0. rewrite (proj2 (Z.eqb_neq c x)) by done. rewrite <- (Hgood c j Hc Hne).
  unfold dbyte. by rewrite Hk.
Qed.

Lemma hsum_snoc k j c : rm_firstdatacol rm <= c ->
  hsum (gpow k) (D0 j) (rm_firstdatacol rm) (Z.to_nat (c + 1 - rm_firstdatacol rm)) =
  Z.lxor (gpow k (hsum (gpow k) (D0 j) (rm_firstdatacol rm) (Z.to_nat (c - rm_firstdatacol rm)))) (D0 j c).
Proof.
  intros Hc. replace (Z.to_nat (c + 1 - _)) with (S (Z.to_nat (c - rm_firstdatacol rm))) by lia. cbn [hsum].
  do 2 f_equal. lia.
Qed.

(** The weight of the lost column in parity [k]. *)
Lemma parity_split k j :
  hsum (gpow k) (fun c => D c j) (rm_firstdatacol rm) (ndata rm) =
  Z.lxor (hsum (gpow k) (D0 j) (rm_firstdatacol rm) (Z.to_nat (rm_cols rm - rm_firstdatacol rm)))
    (gpow (k * Z.to_nat (rm_cols rm - 1 - x)) (D x j)).
Proof.
  pose proof ndata_eq. rewrite (hsum_split k _ x) by lia. f_equal. do 3 f_equal. lia.
Qed.

Lemma reconstruct_p_spec kp :
  parity_valid 0 kp -> 0 < rc_size kx ->
  runs (vdev_raidz_reconstruct_p rm [x]) (fun '(rm', code) => code = 1 /\
    exists d, rm' = set_cols rm (<[Z.to_nat x := with_data kx d]> (rm_col rm)) /\ restored x kx d).
Proof.
  intros Hp Hpos. destruct (parity_col 0 kp Hp) as (Ep & Sp & Lp & Bp). destruct Hp as (_ & _ & Hp).
  destruct x_facts as (Sx & Sx8 & Lx & Bx). pose proof (ok_np _ _ Hok) as Hnp.
  unfold vdev_raidz_reconstruct_p, VDEV_RAIDZ_P. change (Z.of_nat 0) with 0 in Ep. cbn [lookup list_lookup deref].
  rewrite bind_Ok, !VERIFY_pass by (simpl; lia).
  rewrite (get_col_Some rm x kx), bind_Ok, Ep, bind_Ok, Sp, div8, !VERIFY_pass by (done || lia).
  set (xcount := rc_size kx / 8) in *.
  eapply runs_bind.
  { apply (for_range_inv _ _ _ _ (fun i d => upto (nb (rc_data kp)) (rc_data kx) (8 * i) d)); [lia | by apply upto_0 |].
    intros i d Hi Hu. rewrite load64_spec, bind_Ok by lia.
    eapply store64_upto; [exact Hu | lia | lia | intros; by apply nb_byte | done]. }
  intros d1 Hd1. eapply runs_bind.
  { apply (for_range_inv _ _ _ _ (fun c d => upto (fun j => Z.lxor (nb (rc_data kp) j)
      (hsum (gpow 0) (D0 j) (rm_firstdatacol rm) (Z.to_nat (c - rm_firstdatacol rm)))) (rc_data kx) (8 * xcount) d)); [lia | |].
    - eapply upto_ext; [exact Hd1 |]. intros j Hj. rewrite Z.sub_diag. simpl. by rewrite Z.lxor_0_r.
    - intros c d Hc Hu. destruct (Z.eqb_spec c x) as [-> | Hne].
      + simpl. eapply upto_ext; [exact Hu |]. intros j Hj. simpl. rewrite hsum_snoc by lia.
        unfold D0 at 3. by rewrite Z.eqb_refl, Z.lxor_0_r.
      + destruct (good_col c Hc Hne) as (kc & -> & Sc & Sc8 & Lc & Bc & Ec). rewrite bind_Ok.
        pose proof (up_len _ _ _ _ Hu) as Hlu. pose proof (up_byte _ _ _ _ Hu) as Hbu.
        eapply runs_impl; [apply (xor_pass kc xcount d); (done || lia) |]. intros d' Hd'.
        eapply upto_trans; [exact Hu | exact Hd' |]. intros j Hj Hj'. unfold step.
        rewrite (up_nb _ _ _ _ Hu), (proj2 (Z.ltb_lt j _)) by lia. rewrite hsum_snoc, Ec by lia.
        exact (Z.lxor_assoc _ _ _). }
  intros d2 Hd2. rewrite (upd_col_Some rm x kx), bind_Ok by (done || lia). simpl. split; [done |].
  exists d2. split; [done |]. unfold restored. rewrite Sx8. eapply upto_ext; [exact Hd2 |].
  intros j Hj. simpl. rewrite Hp by lia. rewrite parity_split. simpl.
  by rewrite Z.lxor_comm, <- Z.lxor_assoc, Z.lxor_nilpotent, Z.lxor_0_l.
Qed.

(** Column [c] with the lost column taken as empty, the way the loop on Q
    treats it. *)
Lemma any_col c : rm_firstdatacol rm <= c < rm_cols rm ->
  exists kc kc', get_col rm c = Ok kc /\ rc_data kc' = rc_data kc /\
    rc_size kc' / 8 = (if c =? x then 0 else rc_size kc / 8) /\ 0 <= rc_size kc' /\ rc_size kc' mod 8 = 0 /\
    rc_size kc' <= Z.of_nat (length (rc_data kc')) /\ Forall is_byte (rc_data kc') /\ forall j, cbyte kc' j = D0 j c.
Proof.
  intros Hc. pose proof (ok_np _ _ Hok). destruct (Z.eqb_spec c x) as [-> | Hne].
  - exists kx, (with_size kx 0). destruct x_facts as (_ & _ & _ & Bx).
    split_and!; try done; [apply get_col_Some; (done || lia) | simpl; lia |].
    intros j. unfold cbyte, D0. simpl. rewrite Z.eqb_refl. destruct (_ && _) eqn:E; [lia | done].
  - destruct (good_col c Hc Hne) as (kc & ? & ? & ? & ? & ? & ?). by exists kc, kc.
Qed.

(** The last loop: add Q, then divide by the weight of the lost column. *)
Lemma scale_pass kq e d0 :
  0 <= e <= 255 -> Z.of_nat (length (rc_data kq)) = 8 * pcnt -> Forall is_byte (rc_data kq) ->
  Forall is_byte d0 -> length d0 = length (rc_data kx) ->
  runs (for_range 0 (rc_size kx / 8) (fun i dst =>
      v ← load64 dst i ; w ← load64 (rc_data kq) i ; dst ← store64 dst i (Z.lxor v w) ; exp2_bytes e i dst) d0)
    (upto (fun j => gpow (Z.to_nat e) (Z.lxor (nb d0 j) (nb (rc_data kq) j))) d0 (rc_size kx)).
Proof.
  intros He Lq Bq B0 L0. destruct x_facts as (Sx & Sx8 & Lx & Bx). rewrite Sx8 at 2.
  set (new := fun j => gpow _ _).
  apply (for_range_inv _ _ _ _ (fun i d => upto new d0 (8 * i) d)); [lia | by apply upto_0 |].
  intros i d Hi Hu. set (mid := fun j => if j <? 8 * i then new j else Z.lxor (nb d0 j) (nb (rc_data kq) j)).
  assert (Hmid : forall j, is_byte (mid j)).
  { intros j. unfold mid, new. destruct (_ <? _); [apply gpow_byte |]; apply lxor_byte; by apply nb_byte. }
  assert (Hu' : upto mid d0 (8 * i) d).
  { eapply upto_ext; [exact Hu |]. intros j Hj. unfold mid. by rewrite (proj2 (Z.ltb_lt j _)) by lia. }
  rewrite (load64_upto _ _ _ _ Hu), bind_Ok, load64_spec, bind_Ok by lia.
  eapply store64_bind; [exact Hu' | lia | lia | exact Hmid | |].
  { rewrite word_lxor by (intros; by apply nb_byte). apply word_of_ext. intros j Hj. unfold mid.
    by rewrite (proj2 (Z.ltb_ge j _)) by lia. }
  intros d1 Hd1. pose proof (up_len _ _ _ _ Hd1) as L1. pose proof (up_byte _ _ _ _ Hd1) as B1.
  eapply runs_impl; [apply exp2_bytes_spec; (done || lia) |].
  intros d2 Hd2. eapply upto_trans; [exact Hd1 | exact Hd2 |]. intros j Hj Hj'. simpl.
  rewrite (up_nb _ _ _ _ Hd1), (proj2 (Z.ltb_lt j (8 * (i + 1)))) by lia. unfold mid.
  by destruct (Z.ltb_spec j (8 * i)).
Qed.

Lemma reconstruct_q_spec kq :
  parity_valid 1 kq -> rm_cols rm <= 256 ->
  runs (vdev_raidz_reconstruct_q rm [x]) (fun '(rm', code) => code = 2 /\
    exists d, rm' = set_cols rm (<[Z.to_nat x := with_data kx d]> (rm_col rm)) /\ restored x kx d).
Proof.
  intros Hq H256. destruct (parity_col 1 kq Hq) as (Eq & Sq & Lq & Bq). destruct Hq as (_ & _ & Hq).
  destruct x_facts as (Sx & Sx8 & Lx & Bx). pose proof (ok_np _ _ Hok) as Hnp.
  unfold vdev_raidz_reconstruct_q, VDEV_RAIDZ_Q. change (Z.of_nat 1) with 1 in Eq. cbn [lookup list_lookup deref].
  rewrite bind_Ok, !VERIFY_pass by (simpl; lia).
  rewrite (get_col_Some rm x kx), bind_Ok, Eq, bind_Ok, Sq, div8, !VERIFY_pass by (done || lia).
  eapply runs_bind.
  { apply (for_range_inv _ _ _ _ (fun c d => exists f, upto f (rc_data kx) (8 * (rc_size kx / 8)) d /\
      (rm_firstdatacol rm < c -> forall j, f j = hsum (gpow 1) (D0 j) (rm_firstdatacol rm) (Z.to_nat (c - rm_firstdatacol rm)))));
      [lia | |].
    - exists (nb (rc_data kx)). split; [| lia]. split; [done | done |]. intros j Hj. by destruct (j <? _).
    - intros c d Hc (f & Hu & Hf). destruct (any_col c Hc) as (kc & kc' & -> & Ed & Es & Sc & Sc8 & Lc & Bc & Ec).
      pose proof (up_len _ _ _ _ Hu) as Hlu. pose proof (up_byte _ _ _ _ Hu) as Hbu.
      rewrite bind_Ok, <- Es, <- Ed. destruct (Z.eqb_spec c (rm_firstdatacol rm)) as [-> | Hne].
      + eapply runs_impl; [apply (first_pass kc' (rc_size kx / 8) d); (done || lia) |]. intros d' Hd'.
        exists (cbyte kc'). split; [by eapply upto_trans |]. intros _ j. rewrite Ec, hsum_snoc by lia.
        rewrite Z.sub_diag. simpl hsum. by rewrite gpow_0, Z.lxor_0_l.
      + eapply runs_impl; [apply (mul_pass kc' (rc_size kx / 8) d); (done || lia) |]. intros d' Hd'.
        exists (fun j => Z.lxor (gpow 1 (f j)) (cbyte kc' j)).
        split; [eapply upto_trans; [exact Hu | exact Hd' |] |].
        * intros j Hj Hj'. unfold step. by rewrite (up_nb _ _ _ _ Hu), (proj2 (Z.ltb_lt j _)) by lia.
        * intros _ j. cbv beta. rewrite Ec, hsum_snoc, Hf by lia. done. }
  intros d1 (f & Hd1 & Hf). pose proof (up_len _ _ _ _ Hd1) as L1. pose proof (up_byte _ _ _ _ Hd1) as B1.
  eapply runs_bind; [apply (scale_pass kq); (done || lia) |]. intros d2 Hd2.
  rewrite (upd_col_Some rm x kx), bind_Ok by (done || lia). simpl. split; [done |].
  exists d2. split; [done |]. unfold restored. rewrite Sx8 in Hd2 |- *.
  eapply upto_trans; [exact Hd1 | exact Hd2 |]. intros j Hj Hj'. simpl.
  rewrite (up_nb _ _ _ _ Hd1), (proj2 (Z.ltb_lt j _)) by lia. rewrite Hf, Hq, parity_split by lia.
  rewrite <- Z.lxor_assoc, Z.lxor_nilpotent, Z.lxor_0_l, <- gpow_add.
  replace (Z.to_nat _ + _)%nat with 255%nat by lia. by apply gpow_255.
Qed.
End one.

Lemma with_size_size k n : with_size (with_size k n) (rc_size k) = k.
Proof. by destruct k. Qed.

(** ** Two lost columns *)
Section two.
Context (x y : Z) (kx ky : raidz_col) (Hxy : x < y).
Context (Hx : rm_firstdatacol rm <= x) (Hy : y < rm_cols rm) (H256 : rm_cols rm <= 255).
Context (Hkx : rm_col rm !! Z.to_nat x = Some kx) (Hky : rm_col rm !! Z.to_nat y = Some ky).
Context (Hgood : forall c j, rm_firstdatacol rm <= c < rm_cols rm -> c <> x -> c <> y -> dbyte rm c j = D c j).
Context (zio_buf_alloc : Z -> list Z).
Context (Halloc : forall n, 0 <= n -> Z.of_nat (length (zio_buf_alloc n)) = n /\ Forall is_byte (zio_buf_alloc n)).

(** The data without the lost columns. *)
Definition D00 (j c : Z) : Z := if c =? x then 0 else if c =? y then 0 else D c j.

Lemma parity_split2 k j :
  hsum (gpow k) (fun c => D c j) (rm_firstdatacol rm) (ndata rm) =
  Z.lxor (hsum (gpow k) (D00 j) (rm_firstdatacol rm) (ndata rm))
    (Z.lxor (gpow (k * Z.to_nat (rm_cols rm - 1 - x)) (D x j)) (gpow (k * Z.to_nat (rm_cols rm - 1 - y)) (D y j))).
Proof.
  pose proof ndata_eq. rewrite (hsum_split k _ x) by lia.
  rewrite (hsum_split k (fun c => if c =? x then 0 else D c j) y) by lia.
  rewrite (proj2 (Z.eqb_neq y x)) by lia. rewrite Z.lxor_assoc. f_equal.
  - apply hsum_ext. intros c Hc. unfold D00. by destruct (c =? x), (c =? y).
  - rewrite Z.lxor_comm. f_equal; do 3 f_equal; lia.
Qed.

(** The columns while the parity without [x] and [y] is computed in the
    buffers [bp] and [bq]. *)
Definition cols_xy (kp kq : raidz_col) (bp bq : list Z) (i : nat) : option raidz_col :=
  if decide (i = 0%nat) then Some (with_data kp bp)
  else if decide (i = 1%nat) then Some (with_data kq bq)
  else if decide (i = Z.to_nat x) then Some (with_size kx 0)
  else if decide (i = Z.to_nat y) then Some (with_size ky 0)
  else rm_col rm !! i.

Lemma cols_xy_ok kp kq bp bq rm1 :
  2 <= rm_firstdatacol rm -> parity_valid 0 kp -> parity_valid 1 kq -> pbuf pcnt bp -> pbuf pcnt bq ->
  fits rm (cols_xy kp kq bp bq) rm1 ->
  rz_ok rm1 pcnt /\ (forall c j, rm_firstdatacol rm <= c < rm_cols rm -> dbyte rm1 c j = D00 j c).
Proof.
  intros Hnp Hp Hq (Lp & Bp) (Lq & Bq) (l & -> & Hl).
  destruct (parity_col 0 kp Hp) as (_ & Sp & _). destruct (parity_col 1 kq Hq) as (_ & Sq & _).
  pose proof Hok as [? ? Hlen ? Hpar Hdat].
  destruct (Hdat x kx) as (? & ? & ? & ?); [lia | done |]. destruct (Hdat y ky) as (? & ? & ? & ?); [lia | done |].
  assert (Hdata : forall c, 2 <= c -> l !! Z.to_nat c = if decide (c = x) then Some (with_size kx 0)
    else if decide (c = y) then Some (with_size ky 0) else rm_col rm !! Z.to_nat c).
  { intros c Hc. rewrite Hl. unfold cols_xy. rewrite !decide_False by lia.
    destruct (decide (c = x)) as [-> | ?]; [by rewrite decide_True |].
    rewrite decide_False by lia. destruct (decide (c = y)) as [-> | ?]; [by rewrite decide_True |].
    by rewrite decide_False by lia. }
  split; [split; simpl; try done |].
  - destruct (decide (rm_cols rm <= Z.of_nat (length l))) as [| Hc]; [done |]. exfalso.
    destruct (ok_col _ _ (rm_cols rm - 1) Hok) as (k & Hk); [lia |].
    assert (l !! Z.to_nat (rm_cols rm - 1) = None) as E by (apply lookup_ge_None_2; lia).
    rewrite Hdata, Hk in E by lia. repeat case_decide; done.
  - intros c k Hc. rewrite Hl. unfold cols_xy. destruct (decide (Z.to_nat c = 0%nat)); [by intros [= <-] |].
    destruct (decide (Z.to_nat c = 1%nat)); [by intros [= <-] |].
    rewrite !decide_False by lia. intros Hk. by apply (Hpar c).
  - intros c k Hc. rewrite Hdata by lia. repeat case_decide; [intros [= <-]; simpl; auto with lia .. | by apply Hdat].
  - intros c j Hc. unfold dbyte, D00. simpl. rewrite Hdata by lia.
    destruct (Z.eqb_spec c x) as [-> | ?]; [rewrite decide_True by done | rewrite decide_False by done].
    { unfold cbyte. simpl. destruct (_ && _) eqn:E; [lia | done]. }
    destruct (Z.eqb_spec c y) as [-> | ?]; [rewrite decide_True by done | rewrite decide_False by done].
    { unfold cbyte. simpl. destruct (_ && _) eqn:E; [lia | done]. }
    rewrite <- Hgood by lia. done.
Qed.

Lemma fits_parity kp kq bp bq p q rm1 :
  fits rm (cols_xy kp kq bp bq) rm1 -> fits rm (cols_xy kp kq p q) (set_parity rm1 [p; q]).
Proof.
  intros (l & -> & Hl). pose proof (Hl 0%nat) as H0. pose proof (Hl 1%nat) as H1. unfold cols_xy in H0, H1. simpl in H0, H1.
  destruct l as [| a [| b l]]; try discriminate. injection H0 as ->. injection H1 as ->.
  exists (with_data kp p :: with_data kq q :: l). split; [done |].
  intros [| [| i]]; [done | done |]. specialize (Hl (S (S i))). unfold cols_xy in *. simpl in *. exact Hl.
Qed.

(** One byte of both columns. *)
Lemma pq_loop kp kq pxy qxy aexp bexp :
  parity_valid 0 kp -> parity_valid 1 kq ->
  (forall j, 0 <= j < 8 * pcnt -> nb pxy j = hsum (gpow 0) (D00 j) (rm_firstdatacol rm) (ndata rm)) ->
  (forall j, 0 <= j < 8 * pcnt -> nb qxy j = hsum (gpow 1) (D00 j) (rm_firstdatacol rm) (ndata rm)) ->
  pbuf pcnt pxy -> pbuf pcnt qxy -> 0 <= aexp <= 255 -> 0 <= bexp <= 255 ->
  (forall dx dy, is_byte dx -> is_byte dy ->
     Z.lxor (gpow (Z.to_nat aexp) (Z.lxor dx dy))
       (gpow (Z.to_nat bexp) (Z.lxor (gpow (Z.to_nat (rm_cols rm - 1 - x)) dx) (gpow (Z.to_nat (rm_cols rm - 1 - x) - Z.to_nat (y - x)) dy))) = dx) ->
  0 <= rc_size ky <= rc_size kx -> rc_size kx <= 8 * pcnt ->
  rc_size kx <= Z.of_nat (length (rc_data kx)) -> rc_size ky <= Z.of_nat (length (rc_data ky)) ->
  Forall is_byte (rc_data kx) -> Forall is_byte (rc_data ky) ->
  runs (for_range 0 (rc_size kx) (fun i '(xd, yd) =>
    p ← byte_at (rc_data kp) i ; pxy ← byte_at pxy i ;
    q ← byte_at (rc_data kq) i ; qxy ← byte_at qxy i ;
    u ← vdev_raidz_exp2 (Z.lxor p pxy) aexp ; v ← vdev_raidz_exp2 (Z.lxor q qxy) bexp ;
    xd ← store8 xd i (Z.lxor u v) ;
    if i <? rc_size ky then
      d ← byte_at xd i ; yd ← store8 yd i (Z.lxor (Z.lxor p pxy) d) ; Ok (xd, yd)
    else Ok (xd, yd)) (rc_data kx, rc_data ky))
  (fun '(xd, yd) => restored x kx xd /\ restored y ky yd).
Proof.
  intros Hp Hq Hpxy Hqxy (Lpx & Bpx) (Lqx & Bqx) Ha Hb Hsolve Hs Hs' Lx Ly Bx By.
  destruct (parity_col 0 kp Hp) as (_ & _ & Lp & Bp). destruct (parity_col 1 kq Hq) as (_ & _ & Lq & Bq).
  destruct Hp as (_ & _ & Hp). destruct Hq as (_ & _ & Hq).
  eapply runs_impl; [apply (for_range_inv _ _ _ _ (fun i '(xd, yd) => upto (D x) (rc_data kx) i xd /\
    upto (D y) (rc_data ky) (Z.min i (rc_size ky)) yd)) |].
  - lia.
  - rewrite Z.min_l by lia. split; by apply upto_0.
  - intros i (xd, yd) Hi (Hxd & Hyd). rewrite !byte_at_nb, !bind_Ok by lia. rewrite Hp, Hpxy, Hq, Hqxy by lia.
    rewrite !parity_split2, Nat.mul_0_l, !Nat.mul_1_l. cbn [Nat.mul]. change (gpow 0) with (fun b : Z => b).
    rewrite !(Z.lxor_comm (hsum _ (D00 i) _ _)), !Z.lxor_assoc, !Z.lxor_nilpotent, !Z.lxor_0_r. cbv beta.
    rewrite (exp2_spec _ aexp), bind_Ok by (done || by apply lxor_byte).
    rewrite (exp2_spec _ bexp), bind_Ok by (done || by apply lxor_byte; apply gpow_byte).
    replace (Z.to_nat (rm_cols rm - 1 - y)) with (Z.to_nat (rm_cols rm - 1 - x) - Z.to_nat (y - x))%nat by lia.
    rewrite Hsolve by done. eapply runs_bind; [eapply store8_upto; [exact Hxd | lia | done | done] |].
    intros xd' Hxd'. destruct (Z.ltb_spec i (rc_size ky)).
    + rewrite byte_at_nb, bind_Ok by (rewrite (up_len _ _ _ _ Hxd'); lia).
      rewrite (up_nb _ _ _ _ Hxd'), (proj2 (Z.ltb_lt i _)) by lia.
      rewrite (Z.lxor_comm (D x i)), Z.lxor_assoc, Z.lxor_nilpotent, Z.lxor_0_r.
      rewrite Z.min_l in Hyd by lia. eapply runs_bind; [eapply store8_upto; [exact Hyd | lia | done | done] |].
      intros yd' Hyd'. simpl. by rewrite Z.min_l by lia.
    + simpl. rewrite Z.min_r in Hyd |- * by lia. done.
  - intros (xd, yd) (H1 & H2). rewrite Z.min_r in H2 by lia. done.
Qed.

(** The parity of the remaining columns. *)
Lemma generate_xy kp kq bp bq rm1 :
  parity_valid 0 kp -> parity_valid 1 kq -> pbuf pcnt bp -> pbuf pcnt bq ->
  (forall k, rm_col rm !! Z.to_nat (rm_firstdatacol rm) = Some k -> rc_size k = 8 * pcnt) ->
  fits rm (cols_xy kp kq bp bq) rm1 ->
  runs (vdev_raidz_generate_parity_pq rm1) (fun rm2 => exists p q, fits rm (cols_xy kp kq p q) rm2 /\
    pbuf pcnt p /\ pbuf pcnt q /\
    (forall j, 0 <= j < 8 * pcnt -> nb p j = hsum (gpow 0) (D00 j) (rm_firstdatacol rm) (ndata rm)) /\
    (forall j, 0 <= j < 8 * pcnt -> nb q j = hsum (gpow 1) (D00 j) (rm_firstdatacol rm) (ndata rm))).
Proof.
  intros Hp Hq Bp Bq Hfull Hfit. assert (Hnp : 2 <= rm_firstdatacol rm) by (destruct Hq as (_ & ? & _); lia).
  destruct (cols_xy_ok kp kq bp bq rm1 Hnp Hp Hq Bp Bq Hfit) as (Hok1 & Hd1).
  pose proof Hfit as (l & El & Hl). pose proof (ok_cols _ _ Hok).
  assert (E1 : rm_firstdatacol rm1 = rm_firstdatacol rm) by (by subst rm1).
  assert (E2 : rm_cols rm1 = rm_cols rm) by (by subst rm1).
  eapply runs_impl; [apply (generate_pq_spec rm1 pcnt Hok1 2); [lia | | done] |].
  - intros k Hk. subst rm1. simpl in Hk. rewrite Hl in Hk. unfold cols_xy in Hk.
    rewrite !(decide_False (P := Z.to_nat (rm_firstdatacol rm) = _)) in Hk by lia.
    repeat case_decide; [injection Hk as <-; by right .. |]. left. by apply Hfull.
  - intros rm2 (ds & -> & Hlen & Hds). destruct ds as [| p [| q [|]]]; simpl in Hlen; try lia.
    exists p, q. split; [by eapply fits_parity |].
    destruct (Hds 0%nat p eq_refl) as (Hpb & Hpv). destruct (Hds 1%nat q eq_refl) as (Hqb & Hqv).
    split; [done |]. split; [done |].
    split; intros j Hj; [rewrite Hpv | rewrite Hqv]; try lia; rewrite E1, E2; apply hsum_ext; intros c Hc;
      apply Hd1; unfold ndata in Hc; lia.
Qed.

(** Storing the result and putting the parity buffers back. *)
Lemma pq_restore kp kq p q xd yd r7 :
  rm_col rm !! 0%nat = Some kp -> rm_col rm !! 1%nat = Some kq -> 2 <= rm_firstdatacol rm ->
  fits rm (fun i => if decide (i = 0%nat) then Some (with_data kp p) else if decide (i = 1%nat) then Some (with_data kq q)
                 else rm_col rm !! i) r7 ->
  runs (r ← upd_col r7 x (fun k => with_data k xd) ; r ← upd_col r y (fun k => with_data k yd) ;
        r ← upd_col r 0 (fun k => with_data k (rc_data kp)) ; r ← upd_col r 1 (fun k => with_data k (rc_data kq)) ;
        Ok (r, Z.lor (Z.shiftl 1 0) (Z.shiftl 1 1)))
    (fun '(rm', code) => code = 3 /\
       rm' = set_cols rm (<[Z.to_nat y := with_data ky yd]> (<[Z.to_nat x := with_data kx xd]> (rm_col rm)))).
Proof.
  intros Fp Fq Hnp F7.
  eapply (fits_upd rm _ _ x kx); [exact F7 | lia | cbv beta; by rewrite !decide_False by lia |]. intros r8 F8.
  eapply (fits_upd rm _ _ y ky); [exact F8 | lia | cbv beta; by rewrite !decide_False by lia |]. intros r9 F9.
  eapply (fits_upd rm _ _ 0 (with_data kp p)); [exact F9 | lia | cbv beta; by rewrite !decide_False by lia |].
  intros r10 F10.
  eapply (fits_upd rm _ _ 1 (with_data kq q)); [exact F10 | lia | cbv beta; by rewrite !decide_False by lia |].
  intros r11 F11. split; [done |]. eapply fits_eq; [exact F11 |]. intros i. cbv beta.
  apply lookup_lt_Some in Hkx as Lx. apply lookup_lt_Some in Hky as Ly.
  change (Z.to_nat 0) with 0%nat. change (Z.to_nat 1) with 1%nat.
  destruct (decide (i = 1%nat)) as [-> |]; [rewrite !list_lookup_insert_ne, Fq by lia; by destruct kq |].
  destruct (decide (i = 0%nat)) as [-> |]; [rewrite !list_lookup_insert_ne, Fp by lia; by destruct kp |].
  destruct (decide (i = Z.to_nat y)) as [-> |]; [by rewrite list_lookup_insert_eq by (rewrite length_insert; lia) |].
  rewrite list_lookup_insert_ne by done.
  destruct (decide (i = Z.to_nat x)) as [-> |]; [by rewrite list_lookup_insert_eq | by rewrite list_lookup_insert_ne].
Qed.

Lemma reconstruct_pq_spec kp kq :
  parity_valid 0 kp -> parity_valid 1 kq -> rc_size ky <= rc_size kx ->
  (forall k, rm_col rm !! Z.to_nat (rm_firstdatacol rm) = Some k -> rc_size k = 8 * pcnt) ->
  runs (vdev_raidz_reconstruct_pq zio_buf_alloc rm [x; y]) (fun '(rm', code) => code = 3 /\
    exists xd yd, rm' = set_cols rm (<[Z.to_nat y := with_data ky yd]> (<[Z.to_nat x := with_data kx xd]> (rm_col rm))) /\
      restored x kx xd /\ restored y ky yd).
Proof.
  intros Hp Hq Hsz Hfull. assert (Hnp : 2 <= rm_firstdatacol rm) by (destruct Hq as (_ & ? & _); lia).
  pose proof (ok_cols _ _ Hok) as Hcols. pose proof (ok_pcnt _ _ Hok) as Hp0.
  destruct (parity_col 0 kp Hp) as (Ep & Sp & _). destruct (parity_col 1 kq Hq) as (Eq & Sq & _).
  pose proof Hp as (Fp & _). pose proof Hq as (Fq & _).
  change (Z.of_nat 0) with 0 in Ep. change (Z.of_nat 1) with 1 in Eq.
  destruct (ok_data _ _ Hok x kx) as (Sx & _ & Lx & Bx); [lia | done |].
  destruct (ok_data _ _ Hok y ky) as (Sy & _ & Ly & By); [lia | done |].
  unfold vdev_raidz_reconstruct_pq, VDEV_RAIDZ_P, VDEV_RAIDZ_Q. cbn [lookup list_lookup deref].
  rewrite !bind_Ok, !VERIFY_pass by (simpl; lia).
  rewrite (get_col_Some rm x kx), bind_Ok, (get_col_Some rm y ky), bind_Ok, VERIFY_pass by (done || lia).
  rewrite Ep, bind_Ok, Eq, bind_Ok.
  eapply (fits_upd rm _ _ 0 kp); [exact (fits_start rm) | lia | done |]. intros r1 F1.
  eapply (fits_upd rm _ _ 1 kq); [exact F1 | lia | done |]. intros r2 F2.
  eapply (fits_upd rm _ _ x kx); [exact F2 | lia | cbv beta; by rewrite !decide_False by lia |]. intros r3 F3.
  eapply (fits_upd rm _ _ y ky); [exact F3 | lia | cbv beta; by rewrite !decide_False by lia |]. intros r4 F4.
  assert (F : fits rm (cols_xy kp kq (zio_buf_alloc (rc_size kp)) (zio_buf_alloc (rc_size kq))) r4).
  { eapply fits_ext; [exact F4 |]. intros i. cbv beta. unfold cols_xy.
    change (Z.to_nat 0) with 0%nat. change (Z.to_nat 1) with 1%nat. repeat case_decide; (done || lia). }
  clear F1 F2 F3 F4. eapply runs_bind.
  { eapply generate_xy; [exact Hp | exact Hq | | | done | exact F]; rewrite ?Sp, ?Sq; apply Halloc; lia. }
  intros r5 (p & q & F5 & Pb & Qb & Pv & Qv).
  eapply (fits_upd rm _ _ x (with_size kx 0)); [exact F5 | lia | unfold cols_xy; by rewrite !decide_False, decide_True by lia |].
  intros r6 F6.
  eapply (fits_upd rm _ _ y (with_size ky 0)); [exact F6 | lia | unfold cols_xy; by rewrite !(decide_False (P := Z.to_nat y = _)), decide_True by lia |].
  intros r7 F7.
  rewrite (fits_get rm _ r7 0 (with_data kp p) F7), bind_Ok; [| lia | cbv beta; by rewrite !decide_False by lia].
  rewrite (fits_get rm _ r7 1 (with_data kq q) F7), bind_Ok; [| lia | cbv beta; by rewrite !decide_False by lia].
  assert (E7 : rm_cols r7 = rm_cols rm) by (destruct F7 as (l & -> & _); done). rewrite E7. clear E7.
  apply (pq_coeffs (Z.to_nat (y - x)) (Z.to_nat (rm_cols rm - 1 - x))); [lia | lia | lia | lia |].
  intros aexp bexp Ha Hb Hsolve. eapply runs_bind; [simpl rc_data; apply (pq_loop kp kq p q aexp bexp); (assumption || lia) |].
  intros (xd, yd) (Rx & Ry). eapply runs_impl; [eapply pq_restore; [exact Fp | exact Fq | lia |] |].
  - eapply fits_ext; [exact F7 |]. intros i. cbv beta. unfold cols_xy.
    repeat case_decide; subst; try (done || lia); [rewrite Hky | rewrite Hkx]; f_equal; apply with_size_size.
  - intros (rm', code) (-> & ->). split; [done |]. by exists xd, yd.
Qed.
End two.
End reconstruct.
