(* ===== verification/RaidzMat.v ===== *)
(** * Elimination for the general reconstruction

    The rounds of [vdev_raidz_matrix_invert] act on the columns of the matrix
    independently. For at most three rows, chosen among those of the three
    parities, the entries they meet are quotients of determinants of
    Vandermonde matrices, none of which is zero: this is what the assertions
    of the code rely on. *)
From Stdlib Require Import Field.
From S2P Require Import Prelude Gf256 GfField.
Local Open Scope nat_scope.

(** ** Rounds on a column *)
(** Round [i] with the pivot column [a], on the column [b]. *)
Definition rnd (i : nat) (a b : nat -> gf) (r : nat) : gf :=
  if Nat.eqb r i then (b i / a i)%gf else (b r - a r * (b i / a i))%gf.

(** The first [i] rounds on [b], where column [j] of [P] is the pivot of
    round [j]. *)
Fixpoint elim (P : nat -> nat -> gf) (i : nat) (b : nat -> gf) : nat -> gf :=
  match i with
  | O => b
  | S i => rnd i (elim P i (P i)) (elim P i b)
  end.

Lemma elim_S P i b : elim P (S i) b = rnd i (elim P i (P i)) (elim P i b).
Proof. done. Qed.

Lemma rnd_ext i a a' b b' r : (forall s, a s = a' s) -> (forall s, b s = b' s) -> rnd i a b r = rnd i a' b' r.
Proof. intros Ha Hb. unfold rnd. by rewrite !Ha, !Hb. Qed.

Lemma elim_ext P i b b' r : (forall s, b s = b' s) -> elim P i b r = elim P i b' r.
Proof. intros H. revert r. induction i as [| i IH]; intros r; simpl; [done |]. by apply rnd_ext. Qed.

(** A pivot column becomes a unit column and stays one. *)
Lemma rnd_pivot i a r : a i <> 0%gf -> rnd i a a r = if Nat.eqb r i then 1%gf else 0%gf.
Proof. intros Ha. unfold rnd. destruct (Nat.eqb r i); by field. Qed.

Lemma rnd_zero i a b r : b i = 0%gf -> a i <> 0%gf -> rnd i a b r = if Nat.eqb r i then 0%gf else b r.
Proof. intros Hb Ha. unfold rnd. rewrite Hb. destruct (Nat.eqb r i); by field. Qed.

Lemma elim_unit P i j r : (forall l, l < i -> elim P l (P l) l <> 0%gf) -> j < i ->
  elim P i (P j) r = if Nat.eqb r j then 1%gf else 0%gf.
Proof.
  revert r. induction i as [| i IH]; intros r Hp Hj; [lia |]. cbn [elim].
  destruct (decide (j = i)) as [-> | Hne]; [apply rnd_pivot, Hp; lia |].
  assert (Hr : forall s, elim P i (P j) s = if Nat.eqb s j then 1%gf else 0%gf) by (intros s; apply IH; [intros; apply Hp |]; lia).
  rewrite rnd_zero, Hr; [| by rewrite Hr; destruct (Nat.eqb_spec i j); [lia |] | apply Hp; lia].
  destruct (Nat.eqb_spec r i), (Nat.eqb_spec r j); done || lia.
Qed.

(** ** Determinants *)
Open Scope gf_scope.
Definition det2 (a0 a1 b0 b1 : gf) : gf := a0 * b1 - a1 * b0.
Definition det3 (a0 a1 a2 b0 b1 b2 c0 c1 c2 : gf) : gf :=
  a0 * det2 b1 b2 c1 c2 - b0 * det2 a1 a2 c1 c2 + c0 * det2 a1 a2 b1 b2.
Definition detc (P : nat -> nat -> gf) (i j r s : nat) : gf := det2 (P i r) (P i s) (P j r) (P j s).

Lemma quot_zero (a b : gf) : a / b = 0 -> b <> 0 -> a = 0.
Proof. intros E Hb. transitivity (a / b * b); [by field | rewrite E; ring]. Qed.

Section cramer.
Context (P : nat -> nat -> gf) (b : nat -> gf).
Context (H0 : P 0%nat 0%nat <> 0).

Lemma elim_1 r : elim P 1 b r = if Nat.eqb r 0 then b 0%nat / P 0%nat 0%nat
  else det2 (P 0%nat 0%nat) (P 0%nat r) (b 0%nat) (b r) / P 0%nat 0%nat.
Proof. unfold elim, rnd, det2. destruct (Nat.eqb r 0); by field. Qed.
End cramer.

Section cramer2.
Context (P : nat -> nat -> gf) (b : nat -> gf).
Context (H0 : P 0%nat 0%nat <> 0) (H1 : detc P 0 1 0 1 <> 0).

Lemma elim_2_0 : elim P 2 b 0 = det2 (b 0%nat) (b 1%nat) (P 1%nat 0%nat) (P 1%nat 1%nat) / detc P 0 1 0 1.
Proof.
  rewrite (elim_S P 1). unfold rnd. cbn [Nat.eqb]. rewrite !(elim_1 P _ H0). cbn [Nat.eqb].
  unfold detc, det2 in *. field. done.
Qed.
Lemma elim_2_1 : elim P 2 b 1 = det2 (P 0%nat 0%nat) (P 0%nat 1%nat) (b 0%nat) (b 1%nat) / detc P 0 1 0 1.
Proof.
  rewrite (elim_S P 1). unfold rnd. cbn [Nat.eqb]. rewrite !(elim_1 P _ H0). cbn [Nat.eqb].
  unfold detc, det2 in *. field. done.
Qed.
Lemma elim_2_2 : elim P 2 b 2 =
  det3 (P 0%nat 0%nat) (P 0%nat 1%nat) (P 0%nat 2%nat) (P 1%nat 0%nat) (P 1%nat 1%nat) (P 1%nat 2%nat)
    (b 0%nat) (b 1%nat) (b 2%nat) / detc P 0 1 0 1.
Proof.
  rewrite (elim_S P 1). unfold rnd. cbn [Nat.eqb]. rewrite !(elim_1 P _ H0). cbn [Nat.eqb].
  unfold detc, det3, det2 in *. field. done.
Qed.
End cramer2.

Section cramer3.
Context (P : nat -> nat -> gf) (b : nat -> gf).
Definition colsdet (a b c : nat -> gf) : gf :=
  det3 (a 0%nat) (a 1%nat) (a 2%nat) (b 0%nat) (b 1%nat) (b 2%nat) (c 0%nat) (c 1%nat) (c 2%nat).
Context (H0 : P 0%nat 0%nat <> 0) (H1 : detc P 0 1 0 1 <> 0) (H2 : colsdet (P 0%nat) (P 1%nat) (P 2%nat) <> 0).

Lemma elim_3_0 : elim P 3 b 0 = colsdet b (P 1%nat) (P 2%nat) / colsdet (P 0%nat) (P 1%nat) (P 2%nat).
Proof.
  rewrite (elim_S P 2). unfold rnd. cbn [Nat.eqb]. rewrite !(elim_2_0 P _ H0 H1), !(elim_2_2 P _ H0 H1).
  unfold colsdet, detc, det3, det2 in *. field. done.
Qed.
Lemma elim_3_1 : elim P 3 b 1 = colsdet (P 0%nat) b (P 2%nat) / colsdet (P 0%nat) (P 1%nat) (P 2%nat).
Proof.
  rewrite (elim_S P 2). unfold rnd. cbn [Nat.eqb]. rewrite !(elim_2_1 P _ H0 H1), !(elim_2_2 P _ H0 H1).
  unfold colsdet, detc, det3, det2 in *. field. done.
Qed.
Lemma elim_3_2 : elim P 3 b 2 = colsdet (P 0%nat) (P 1%nat) b / colsdet (P 0%nat) (P 1%nat) (P 2%nat).
Proof.
  rewrite (elim_S P 2). unfold rnd. cbn [Nat.eqb]. rewrite !(elim_2_2 P _ H0 H1).
  unfold colsdet, detc, det3, det2 in *. field. done.
Qed.
End cramer3.

(** ** Rows of parities *)
Fixpoint gexp (x : gf) (p : nat) : gf := match p with O => 1 | S p => x * gexp x p end.

Lemma gtwo_mul_exp p e : gtwo (p * e) = gexp (gtwo e) p.
Proof. induction p as [| p IH]; simpl; [apply gtwo_0 |]. by rewrite gtwo_add, IH. Qed.

Lemma gexp_nz x p : x <> 0 -> gexp x p <> 0.
Proof. intros Hx. induction p as [| p IH]; simpl; [apply (gtwo_nz 0) | by apply gmul_nz]. Qed.

Lemma det2_nz p q x y : (p < q <= 2)%nat -> x <> 0 -> y <> 0 -> x <> y ->
  det2 (gexp x p) (gexp x q) (gexp y p) (gexp y q) <> 0.
Proof.
  intros Hpq Hx Hy Hxy. pose proof (gsub_nz y x (not_eq_sym Hxy)) as Hs. pose proof (gadd_nz y x (not_eq_sym Hxy)) as Ha.
  assert ((p = 0 /\ q = 1) \/ (p = 0 /\ q = 2) \/ (p = 1 /\ q = 2))%nat as [(-> & ->) | [(-> & ->) | (-> & ->)]] by lia;
    unfold det2; cbn [gexp].
  - by replace (1 * (y * 1) - x * 1 * 1) with (y - x) by ring.
  - replace (1 * (y * (y * 1)) - x * (x * 1) * 1) with ((y - x) * (y + x)) by ring. by apply gmul_nz.
  - replace (x * 1 * (y * (y * 1)) - x * (x * 1) * (y * 1)) with (x * y * (y - x)) by ring.
    by repeat apply gmul_nz.
Qed.

Lemma det3_nz x y z : x <> y -> x <> z -> y <> z ->
  colsdet (gexp x) (gexp y) (gexp z) <> 0.
Proof.
  intros Hxy Hxz Hyz. unfold colsdet, det3, det2. cbn [gexp].
  match goal with |- ?e <> 0 => replace e with ((y - x) * ((z - x) * (z - y))) by ring end.
  repeat apply gmul_nz; apply gsub_nz; congruence.
Qed.

Lemma det2_swap a0 a1 b0 b1 : det2 a0 a1 b0 b1 <> 0 -> det2 b0 b1 a0 a1 <> 0.
Proof.
  intros H E. apply H. replace (det2 a0 a1 b0 b1) with (0 - det2 b0 b1 a0 a1) by (unfold det2; ring). rewrite E. ring.
Qed.

(** The nodes [X] of the missing columns and the exponents [p] of the rows. *)
Section nodes.
Context (k : nat) (Hk : (1 <= k <= 3)%nat) (p : nat -> nat) (X : nat -> gf).
Context (Hp : forall r s, (r < s < k)%nat -> (p r < p s)%nat) (Hp2 : forall r, (r < k)%nat -> (p r <= 2)%nat).
Context (HX0 : forall i, (i < k)%nat -> X i <> 0) (HX : forall i j, (i < k)%nat -> (j < k)%nat -> X i = X j -> i = j).

Definition vand (z : gf) (r : nat) : gf := gexp z (p r).
Definition unit (j r : nat) : gf := if Nat.eqb r j then 1 else 0.
Notation P := (fun i => vand (X i)).

Lemma X_ne i j : (i < k)%nat -> (j < k)%nat -> i <> j -> X i <> X j.
Proof. intros ? ? H E. by apply H, HX. Qed.

Lemma p_three r : k = 3%nat -> (r < 3)%nat -> p r = r.
Proof.
  intros Ek Hr. pose proof (Hp 0 1 ltac:(lia)). pose proof (Hp 1 2 ltac:(lia)).
  pose proof (Hp2 2 ltac:(lia)). pose proof (Hp2 0 ltac:(lia)). destruct r as [| [| [| r]]]; lia.
Qed.

Lemma vand_det2 x y r s : (r < s < k)%nat -> x <> 0 -> y <> 0 -> x <> y ->
  det2 (vand x r) (vand x s) (vand y r) (vand y s) <> 0.
Proof. intros Hrs. apply det2_nz. split; [by apply Hp | apply Hp2; lia]. Qed.

Lemma vand_det3 x y z : k = 3%nat -> x <> y -> x <> z -> y <> z -> colsdet (vand x) (vand y) (vand z) <> 0.
Proof.
  intros Ek Hxy Hxz Hyz. pose proof (det3_nz x y z Hxy Hxz Hyz). unfold colsdet, vand in *.
  by rewrite !p_three by (done || lia).
Qed.

Lemma first_nz : vand (X 0%nat) 0 <> 0.
Proof. apply gexp_nz, HX0. lia. Qed.
Lemma second_nz : (2 <= k)%nat -> detc P 0 1 0 1 <> 0.
Proof. intros H. apply vand_det2; [lia | apply HX0; lia | apply HX0; lia | apply X_ne; lia]. Qed.
Lemma third_nz : k = 3%nat -> colsdet (P 0%nat) (P 1%nat) (P 2%nat) <> 0.
Proof. intros H. apply vand_det3; [done | apply X_ne; lia ..]. Qed.

(** Every entry of a pivot column is nonzero when its round comes. *)
Lemma pivot_nz i r : (i < k)%nat -> (r < k)%nat -> elim P i (P i) r <> 0.
Proof.
  intros Hi Hr. pose proof first_nz as F0. destruct i as [| [| [| i]]]; [| | | lia].
  - apply gexp_nz, HX0. lia.
  - rewrite elim_1 by done. destruct (Nat.eqb_spec r 0); apply gdiv_nz; try done; [apply gexp_nz, HX0; lia |].
    apply vand_det2; [lia | apply HX0; lia | apply HX0; lia | apply X_ne; lia].
  - pose proof (second_nz ltac:(lia)) as F1. destruct r as [| [| [| r]]]; [| | | lia].
    + rewrite elim_2_0 by done. apply gdiv_nz; [| done]. apply det2_swap, vand_det2; [lia | apply HX0; lia | apply HX0; lia | apply X_ne; lia].
    + rewrite elim_2_1 by done. apply gdiv_nz; [| done]. apply vand_det2; [lia | apply HX0; lia | apply HX0; lia | apply X_ne; lia].
    + rewrite elim_2_2 by done. apply gdiv_nz; [| done]. apply third_nz. lia.
Qed.

(** So is every entry that the other columns end with, *)
Lemma vand_nz z r : (r < k)%nat -> z <> 0 -> (forall i, (i < k)%nat -> X i <> z) -> elim P k (vand z) r <> 0.
Proof.
  intros Hr Hz HXz. pose proof first_nz as F0. pose proof second_nz as F1. pose proof third_nz as F2.
  assert (k = 1 \/ k = 2 \/ k = 3)%nat as [Ek | [Ek | Ek]] by lia; rewrite Ek.
  - replace r with 0%nat by lia. rewrite elim_1 by done. cbn [Nat.eqb]. apply gdiv_nz; [by apply gexp_nz | done].
  - specialize (F1 ltac:(lia)). destruct r as [| [| r]]; [| | lia].
    + rewrite elim_2_0 by done. apply gdiv_nz; [| done]. apply vand_det2; [lia | done | apply HX0; lia | apply not_eq_sym, HXz; lia].
    + rewrite elim_2_1 by done. apply gdiv_nz; [| done]. apply vand_det2; [lia | apply HX0; lia | done | apply HXz; lia].
  - specialize (F1 ltac:(lia)). specialize (F2 Ek). destruct r as [| [| [| r]]]; [| | | lia].
    + rewrite elim_3_0 by done. apply gdiv_nz; [| done]. apply vand_det3; [done | apply not_eq_sym, HXz; lia .. | apply X_ne; lia].
    + rewrite elim_3_1 by done. apply gdiv_nz; [| done]. apply vand_det3; [done | apply HXz; lia | apply X_ne; lia | apply not_eq_sym, HXz; lia].
    + rewrite elim_3_2 by done. apply gdiv_nz; [| done]. apply vand_det3; [done | apply X_ne; lia | apply HXz; lia | apply HXz; lia].
Qed.

Lemma colsdet_swap a b c : colsdet b a c <> 0 -> colsdet a b c <> 0.
Proof.
  intros H E. apply H. replace (colsdet b a c) with (0 - colsdet a b c) by (unfold colsdet, det3, det2; ring).
  rewrite E. ring.
Qed.
Lemma colsdet_rot a b c : colsdet c a b <> 0 -> colsdet a b c <> 0.
Proof. by replace (colsdet a b c) with (colsdet c a b) by (unfold colsdet, det3, det2; ring). Qed.

Lemma gopp_nz a : a <> 0 -> 0 - a <> 0.
Proof. intros H. apply gsub_nz. congruence. Qed.

Lemma unit_det3 x y j : k = 3%nat -> (j < 3)%nat -> x <> 0 -> y <> 0 -> x <> y ->
  colsdet (unit j) (vand x) (vand y) <> 0.
Proof.
  intros Ek Hj Hx Hy Hxy. assert (Hd : forall r s, (r < s < 3)%nat -> det2 (vand x r) (vand x s) (vand y r) (vand y s) <> 0)
    by (intros; apply vand_det2; [lia | done ..]).
  destruct j as [| [| [| j]]]; [| | | lia]; unfold colsdet, unit; cbn [Nat.eqb].
  - match goal with |- ?e <> 0 => replace e with (det2 (vand x 1) (vand x 2) (vand y 1) (vand y 2)) by (unfold det3, det2; ring) end.
    apply Hd. lia.
  - match goal with |- ?e <> 0 => replace e with (0 - det2 (vand x 0) (vand x 2) (vand y 0) (vand y 2)) by (unfold det3, det2; ring) end.
    apply gopp_nz, Hd. lia.
  - match goal with |- ?e <> 0 => replace e with (det2 (vand x 0) (vand x 1) (vand y 0) (vand y 1)) by (unfold det3, det2; ring) end.
    apply Hd. lia.
Qed.

(** and those that the columns of the identity end with. *)
Lemma unit_nz j r : (j < k)%nat -> (r < k)%nat -> elim P k (unit j) r <> 0.
Proof.
  intros Hj Hr. pose proof first_nz as F0. pose proof second_nz as F1. pose proof third_nz as F2.
  assert (Hv : forall i s, (i < k)%nat -> vand (X i) s <> 0) by (intros; apply gexp_nz, HX0; lia).
  assert (Hn : forall i s, (i < k)%nat -> 0 - vand (X i) s <> 0) by (intros; by apply gopp_nz, Hv).
  assert (k = 1 \/ k = 2 \/ k = 3)%nat as [Ek | [Ek | Ek]] by lia; rewrite Ek.
  - replace r with 0%nat by lia. replace j with 0%nat by lia. rewrite elim_1 by done. cbn [Nat.eqb].
    apply gdiv_nz; [apply (gtwo_nz 0) | done].
  - specialize (F1 ltac:(lia)).
    assert (j = 0 \/ j = 1)%nat as [-> | ->] by lia; (assert (r = 0 \/ r = 1)%nat as [-> | ->] by lia);
      rewrite ?elim_2_0, ?elim_2_1 by done; (apply gdiv_nz; [| done]); unfold det2, unit; cbn [Nat.eqb].
    + replace (1 * vand (X 1%nat) 1 - 0 * vand (X 1%nat) 0) with (vand (X 1%nat) 1) by ring. apply Hv. lia.
    + replace (vand (X 0%nat) 0 * 0 - vand (X 0%nat) 1 * 1) with (0 - vand (X 0%nat) 1) by ring. apply Hn. lia.
    + replace (0 * vand (X 1%nat) 1 - 1 * vand (X 1%nat) 0) with (0 - vand (X 1%nat) 0) by ring. apply Hn. lia.
    + replace (vand (X 0%nat) 0 * 1 - vand (X 0%nat) 1 * 0) with (vand (X 0%nat) 0) by ring. apply Hv. lia.
  - specialize (F1 ltac:(lia)). specialize (F2 Ek).
    assert (Hd : forall i l, (i < 3)%nat -> (l < 3)%nat -> i <> l -> colsdet (unit j) (vand (X i)) (vand (X l)) <> 0).
    { intros i l ? ? ?. apply unit_det3; [done | lia | apply HX0; lia | apply HX0; lia | apply X_ne; lia]. }
    destruct r as [| [| [| r]]]; [| | | lia]; rewrite ?elim_3_0, ?elim_3_1, ?elim_3_2 by done; (apply gdiv_nz; [| done]).
    + apply Hd; lia.
    + apply colsdet_swap, Hd; lia.
    + apply colsdet_rot, Hd; lia.
Qed.
End nodes.
