(* ===== verification/RaidzInv.v ===== *)
(** * The matrices of the general reconstruction

    [vdev_raidz_matrix_init] builds the rows of the parities in use, and
    [vdev_raidz_matrix_invert] turns them into the rows that give the missing
    columns, without failing an assertion. *)
From Stdlib Require Import Field.
From S2P Require Import Prelude Bytes Gf256 GfField RaidzMat Raidz.
Local Open Scope Z_scope.

(** ** Arrays of rows *)
Record mat (k n : Z) (m : list (list Z)) (M : Z -> Z -> gf) : Prop := {
  mat_len : Z.of_nat (length m) = k;
  mat_row : forall i r, m !! i = Some r -> Z.of_nat (length r) = n /\
    forall j, 0 <= j < n -> r !! Z.to_nat j = Some (gz (M (Z.of_nat i) j))
}.

Definition mupd (M : Z -> Z -> gf) (i j : Z) (g : gf) (a b : Z) : gf := if (a =? i) && (b =? j) then g else M a b.

Lemma mat_ext k n m M M' : mat k n m M -> (forall a b, 0 <= a < k -> 0 <= b < n -> M a b = M' a b) -> mat k n m M'.
Proof.
  intros [Hl Hr] H. split; [done |]. intros i r Hi. destruct (Hr i r Hi) as (Hn & Hj). split; [done |].
  intros j Hj'. rewrite Hj by done. apply lookup_lt_Some in Hi. by rewrite H by lia.
Qed.

Lemma m_get_Ok k n m M i j : mat k n m M -> 0 <= i < k -> 0 <= j < n -> m_get m i j = Ok (gz (M i j)).
Proof.
  intros [Hl Hr] Hi Hj. unfold m_get. rewrite VERIFY_pass by lia.
  destruct (lookup_lt_is_Some_2 m (Z.to_nat i)) as (r & E); [lia |]. rewrite E. cbn [deref]. rewrite bind_Ok.
  destruct (Hr _ _ E) as (_ & Hg). rewrite Hg by done. by rewrite Z2Nat.id by lia.
Qed.

Lemma m_set_bind {B} k n m M i j v g (K : list (list Z) -> result B) Q :
  mat k n m M -> 0 <= i < k -> 0 <= j < n -> v = gz g ->
  (forall m', mat k n m' (mupd M i j g) -> runs (K m') Q) -> runs (m' ← m_set m i j v ; K m') Q.
Proof.
  intros [Hl Hr] Hi Hj -> HK. unfold m_set. rewrite VERIFY_pass by lia.
  destruct (lookup_lt_is_Some_2 m (Z.to_nat i)) as (r & E); [lia |]. rewrite E. cbn [deref]. rewrite bind_Ok.
  destruct (Hr _ _ E) as (Hn & Hg). rewrite Hg by done. cbn [deref]. rewrite !bind_Ok. apply HK.
  split; [by rewrite length_insert |]. intros a r' Ha.
  destruct (decide (a = Z.to_nat i)) as [-> | Hne].
  - rewrite list_lookup_insert_eq in Ha by lia. injection Ha as <-. split; [by rewrite length_insert |].
    intros b Hb. unfold mupd. rewrite Z2Nat.id, Z.eqb_refl by lia. cbn [andb]. destruct (Z.eqb_spec b j) as [-> | Hbj].
    + rewrite list_lookup_insert_eq by lia. f_equal. apply uchar_byte, gz_is_byte.
    + rewrite list_lookup_insert_ne by lia. rewrite Hg by done. by rewrite Z2Nat.id by lia.
  - rewrite list_lookup_insert_ne in Ha by done. destruct (Hr _ _ Ha) as (? & Hga). split; [done |].
    intros b Hb. rewrite Hga by done. unfold mupd. destruct (Z.eqb_spec (Z.of_nat a) i); [lia | done].
Qed.

Lemma m_set_runs k n m M i j v g M' :
  mat k n m M -> 0 <= i < k -> 0 <= j < n -> v = gz g ->
  (forall a b, 0 <= a < k -> 0 <= b < n -> mupd M i j g a b = M' a b) -> runs (m_set m i j v) (fun m' => mat k n m' M').
Proof.
  intros Hm Hi Hj Hv HM. rewrite <- (bind_Ok_r (m_set m i j v)). eapply m_set_bind; [done.. |].
  intros m' Hm'. simpl. by eapply mat_ext.
Qed.

(** Comparing two ways to write the entries. *)
Ltac entries := intros; unfold mupd;
  repeat match goal with
    | |- context [?a =? ?b] => destruct (Z.eqb_spec a b)
    | |- context [?a <? ?b] => destruct (Z.ltb_spec a b)
    | |- context [?a <=? ?b] => destruct (Z.leb_spec a b)
    end; subst; cbn [andb orb negb]; first [done | lia | congruence].

Lemma at_Ok l i v : l !! Z.to_nat i = Some v -> 0 <= i -> at_ l i = Ok v.
Proof. intros E Hi. unfold at_. by rewrite (proj2 (Z.leb_le 0 i)), E by lia. Qed.

Lemma mat_zero k n : mat (Z.of_nat k) (Z.of_nat n) (replicate k (replicate n 0)) (fun _ _ => 0%gf).
Proof.
  split; [by rewrite length_replicate |]. intros i r Hr. apply lookup_replicate in Hr as (-> & _).
  rewrite length_replicate. split; [done |]. intros j Hj. apply lookup_replicate_2. lia.
Qed.

(** ** [vdev_raidz_matrix_init] *)
(** The node of data column [t] out of [n]. *)
Definition node (n t : Z) : gf := gtwo (Z.to_nat (n - 1 - t)).

Lemma node_nz n t : node n t <> 0%gf.
Proof. apply gtwo_nz. Qed.

Lemma node_inj n t u : 0 <= t < n -> 0 <= u < n -> n <= 255 -> node n t = node n u -> t = u.
Proof. intros Ht Hu Hn E. apply gtwo_inj in E; lia. Qed.

Definition gtwoz (e : Z) : gf := gtwo (Z.to_nat e).

Lemma gtwo_cancel e j mi : 0 <= e -> 0 <= mi -> 0 <= j -> gtwoz (e + mi) = gtwoz (j + mi) -> gtwoz e = gtwoz j.
Proof.
  unfold gtwoz. intros He Hm Hj E. rewrite !Z2Nat.inj_add, !gtwo_add in E by lia.
  transitivity (gtwo (Z.to_nat e) * gtwo (Z.to_nat mi) / gtwo (Z.to_nat mi))%gf; [field; apply gtwo_nz |].
  rewrite E. field. apply gtwo_nz.
Qed.

Lemma gtwoz_255 e : 0 <= e -> gtwoz (e + 255) = gtwoz e.
Proof. intros He. unfold gtwoz. rewrite Z2Nat.inj_add by lia. apply gtwo_255. Qed.

(** The exponent after a step of the inner loop. *)
Lemma pow_step n j mi pow :
  0 <= mi <= 2 -> 0 <= j < n -> 0 <= pow <= 255 -> gtwoz pow = gtwoz (mi * (n - j)) ->
  let pow' := if pow - mi <? 0 then pow - mi + 255 else pow - mi in
  0 <= pow' <= 255 /\ gtwoz pow' = gtwoz (mi * (n - (j + 1))).
Proof.
  intros Hm Hj Hp E pow'. assert (Hr : 0 <= pow' <= 255) by (unfold pow'; destruct (Z.ltb_spec (pow - mi) 0); lia).
  split; [done |]. apply (gtwo_cancel _ _ mi); [lia | lia | nia |].
  replace (mi * (n - (j + 1)) + mi) with (mi * (n - j)) by lia. rewrite <- E.
  unfold pow'. destruct (Z.ltb_spec (pow - mi) 0).
  - replace (pow - mi + 255 + mi) with (pow + 255) by lia. apply gtwoz_255. lia.
  - f_equal. lia.
Qed.

Lemma pow2_at_gtwo e : 0 <= e <= 255 -> pow2_at e = Ok (gz (gtwoz e)).
Proof.
  intros He. rewrite pow2_at_Ok by (unfold is_byte; lia). unfold gtwoz. rewrite gz_gtwo, <- pow2_gpow by lia.
  by rewrite Z2Nat.id by lia.
Qed.

Lemma node_power n j mi : 0 <= mi -> 0 <= j < n -> gtwoz (mi * (n - (j + 1))) = gexp (node n j) (Z.to_nat mi).
Proof.
  intros Hm Hj. unfold gtwoz, node. rewrite <- gtwo_mul_exp. f_equal.
  rewrite Z2Nat.inj_mul by lia. do 2 f_equal. lia.
Qed.

Lemma matrix_init_spec rm n k pmap rows M p :
  n = rm_cols rm - rm_firstdatacol rm -> 0 <= n <= 255 -> 0 <= k ->
  (forall i, 0 <= i < k -> pmap !! Z.to_nat i = Some (p i) /\ 0 <= p i <= 2) -> mat k n rows M ->
  runs (vdev_raidz_matrix_init rm n k pmap rows)
    (fun rows' => mat k n rows' (fun i j => gexp (node n j) (Z.to_nat (p i)))).
Proof.
  intros En Hn Hk Hp Hm. unfold vdev_raidz_matrix_init. rewrite VERIFY_pass by lia.
  set (V := fun i j => gexp (node n j) (Z.to_nat (p i))).
  eapply runs_impl; [apply (for_range_inv _ _ _ _ (fun i m => mat k n m (fun a b => if a <? i then V a b else M a b))) |].
  - lia.
  - eapply mat_ext; [exact Hm |]. entries.
  - intros i m Hi Him. destruct (Hp i Hi) as (Ep & Hpi). rewrite (at_Ok _ _ _ Ep), bind_Ok, !VERIFY_pass by lia.
    set (pow0 := if 255 <? p i * n then _ else _).
    assert (H0 : 0 <= pow0 <= 255 /\ gtwoz pow0 = gtwoz (p i * (n - 0))).
    { unfold pow0. destruct (Z.ltb_spec 255 (p i * n)); [| split; [nia | f_equal; lia]].
      split; [nia |]. rewrite <- gtwoz_255 by nia. f_equal. lia. }
    rewrite VERIFY_pass by lia.
    eapply runs_bind; [apply (for_range_inv _ _ _ _ (fun j '(m, pow) => 0 <= pow <= 255 /\ gtwoz pow = gtwoz (p i * (n - j)) /\
      mat k n m (fun a b => if (a <? i) || (a =? i) && (b <? j) then V a b else M a b))) |].
    + lia.
    + split; [lia |]. split; [tauto |]. eapply mat_ext; [exact Him |]. entries.
    + intros j (m', pow) Hj (Hpow & Ej & Hm'). cbv zeta. destruct (pow_step n j (p i) pow) as (Hr & E); [done.. |].
      cbv zeta in Hr, E. rewrite pow2_at_gtwo, bind_Ok by done.
      eapply m_set_bind; [exact Hm' | lia | lia | reflexivity |]. intros m2 Hm2. simpl.
      split; [done |]. split; [done |]. eapply mat_ext; [exact Hm2 |]. intros a b Ha Hb. unfold mupd.
      destruct (Z.eqb_spec a i) as [-> |], (Z.eqb_spec b j) as [-> |]; cbn [andb orb].
      * rewrite E, node_power by lia. rewrite (proj2 (Z.ltb_lt j (j + 1))) by lia. by rewrite orb_true_r.
      * entries.
      * entries.
      * entries.
    + intros (m', pow) (_ & _ & Hm'). simpl. eapply mat_ext; [exact Hm' |]. entries.
  - intros m Hm'. simpl. eapply mat_ext; [exact Hm' |]. entries.
Qed.

(** ** One round of [vdev_raidz_matrix_invert] *)
Definition zrnd (M : Z -> Z -> gf) (i t : Z) (N : Z -> Z -> gf) (a b : Z) : gf :=
  if a =? i then (N i b / M i t)%gf else (N a b - M a t * (N i b / M i t))%gf.

Lemma log2_at_gf g : log2_at (gz g) = Ok (log2 (gz g)).
Proof. apply log2_at_Ok, gz_is_byte. Qed.

(** Row [a] after it was scaled or reduced up to column [j]. *)
Definition part (i a j : Z) (N' N : Z -> Z -> gf) (x y : Z) : gf :=
  if (x =? i) || (x <? a) || (x =? a) && (y <? j) then N' x y else N x y.

Section round.
Context (k n : Z) (missing : list Z) (i t : Z) (M N : Z -> Z -> gf).
Context (Hi : 0 <= i < k) (Ht : 0 <= t < n) (Hmi : missing !! Z.to_nat i = Some t).
Context (Hzero : forall j, 0 <= j < t -> M i j = 0%gf) (Hpiv : forall a, 0 <= a < k -> M a t <> 0%gf).

Notation M' := (zrnd M i t M).
Notation N' := (zrnd M i t N).

Lemma scale_row rows invrows : mat k n rows M -> mat k n invrows N ->
  runs (for_range 0 n (fun j '(rows, invrows) =>
    v ← m_get rows i j ; e ← vdev_raidz_exp2 v (255 - log2 (gz (M i t))) ; rows ← m_set rows i j e ;
    v ← m_get invrows i j ; e ← vdev_raidz_exp2 v (255 - log2 (gz (M i t))) ; invrows ← m_set invrows i j e ;
    Ok (rows, invrows)) (rows, invrows))
  (fun '(rows, invrows) => mat k n rows (part i 0 0 M' M) /\ mat k n invrows (part i 0 0 N' N)).
Proof.
  intros Hr Hv. eapply runs_impl; [apply (for_range_inv _ _ _ _ (fun j '(rows, invrows) =>
      mat k n rows (fun a b => if (a =? i) && (b <? j) then M' a b else M a b) /\
      mat k n invrows (fun a b => if (a =? i) && (b <? j) then N' a b else N a b))) |].
  - lia.
  - split; (eapply mat_ext; [eassumption |]); entries.
  - intros j (r, v) Hj (Hmr & Hmv).
    rewrite (m_get_Ok _ _ _ _ _ _ Hmr), bind_Ok by lia. rewrite Z.eqb_refl, Z.ltb_irrefl. cbn [andb].
    rewrite exp2_inv, bind_Ok by (apply Hpiv; lia).
    eapply m_set_bind; [exact Hmr | lia | lia | reflexivity |]. intros r' Hr'.
    rewrite (m_get_Ok _ _ _ _ _ _ Hmv), bind_Ok by lia. rewrite Z.eqb_refl, Z.ltb_irrefl. cbn [andb].
    rewrite exp2_inv, bind_Ok by (apply Hpiv; lia).
    eapply m_set_bind; [exact Hmv | lia | lia | reflexivity |]. intros v' Hv'. simpl.
    split; [eapply mat_ext; [exact Hr' |] | eapply mat_ext; [exact Hv' |]]; unfold zrnd; entries.
  - intros (r, v) (Hmr & Hmv). split; [eapply mat_ext; [exact Hmr |] | eapply mat_ext; [exact Hmv |]]; unfold part, zrnd; entries.
Qed.

Lemma clear_row ii rows invrows : 0 <= ii < k -> ii <> i ->
  mat k n rows (part i ii 0 M' M) -> mat k n invrows (part i ii 0 N' N) ->
  runs (for_range 0 n (fun j '(rows, invrows) =>
      v ← m_get rows i j ; e ← vdev_raidz_exp2 v (log2 (gz (M ii t))) ; w ← m_get rows ii j ;
      rows ← m_set rows ii j (Z.lxor w e) ;
      v ← m_get invrows i j ; e ← vdev_raidz_exp2 v (log2 (gz (M ii t))) ; w ← m_get invrows ii j ;
      invrows ← m_set invrows ii j (Z.lxor w e) ;
      Ok (rows, invrows)) (rows, invrows))
  (fun '(rows, invrows) => mat k n rows (part i (ii + 1) 0 M' M) /\ mat k n invrows (part i (ii + 1) 0 N' N)).
Proof.
  intros Hii Hne Hr Hv. eapply runs_impl; [apply (for_range_inv _ _ _ _ (fun j '(rows, invrows) =>
      mat k n rows (part i ii j M' M) /\ mat k n invrows (part i ii j N' N))) |].
  - lia.
  - done.
  - assert (Hp : forall A A' j, part i ii j A' A i j = A' i j) by (intros; unfold part; by rewrite Z.eqb_refl).
    assert (Hq : forall A A' j, part i ii j A' A ii j = A ii j) by (intros; unfold part; entries).
    assert (Hs : forall A j a b, mupd (part i ii j (zrnd M i t A) A) ii j (A ii j + M ii t * zrnd M i t A i j)%gf a b =
      part i ii (j + 1) (zrnd M i t A) A a b) by (intros; unfold part, zrnd; entries).
    intros j (r, v) Hj (Hmr & Hmv).
    rewrite (m_get_Ok _ _ _ _ i j Hmr), bind_Ok, Hp by lia. rewrite exp2_log, bind_Ok by (apply Hpiv; lia).
    rewrite (m_get_Ok _ _ _ _ ii j Hmr), bind_Ok, Hq by lia.
    eapply m_set_bind; [exact Hmr | lia | lia | by rewrite gz_add |]. intros r' Hr'.
    rewrite (m_get_Ok _ _ _ _ i j Hmv), bind_Ok, Hp by lia. rewrite exp2_log, bind_Ok by (apply Hpiv; lia).
    rewrite (m_get_Ok _ _ _ _ ii j Hmv), bind_Ok, Hq by lia.
    eapply m_set_bind; [exact Hmv | lia | lia | by rewrite gz_add |]. intros v' Hv'. simpl.
    split; [eapply mat_ext; [exact Hr' |] | eapply mat_ext; [exact Hv' |]]; intros; apply Hs.
  - intros (r, v) (Hmr & Hmv). split; [eapply mat_ext; [exact Hmr |] | eapply mat_ext; [exact Hmv |]]; unfold part; entries.
Qed.

Lemma invert_round_spec rows invrows : mat k n rows M -> mat k n invrows N ->
  runs (invert_round n k missing i (rows, invrows)) (fun '(rows, invrows) => mat k n rows M' /\ mat k n invrows N').
Proof.
  intros Hr Hv. unfold invert_round. rewrite (at_Ok _ _ _ Hmi), bind_Ok by lia.
  eapply runs_bind; [apply (for_range_inv _ _ _ _ (fun _ _ => True)); [lia | done |] |].
  { intros j [] Hj _. rewrite (m_get_Ok _ _ _ _ _ _ Hr), bind_Ok, Hzero by lia. done. }
  intros _ _. rewrite (m_get_Ok _ _ _ _ _ _ Hr), bind_Ok by lia.
  rewrite VERIFY_pass by (pose proof (proj1 (gz_nz _) (Hpiv i Hi)); lia). rewrite log2_at_gf, bind_Ok.
  eapply runs_bind; [by apply scale_row |]. intros (r1, v1) (H1 & H2).
  eapply runs_impl; [apply (for_range_inv _ _ _ _ (fun ii '(rows, invrows) =>
      mat k n rows (part i ii 0 M' M) /\ mat k n invrows (part i ii 0 N' N))) |].
  - lia.
  - done.
  - intros ii (r, v) Hii (Hmr & Hmv). destruct (Z.eqb_spec i ii) as [<- | Hne].
    + simpl. split; [eapply mat_ext; [exact Hmr |] | eapply mat_ext; [exact Hmv |]]; unfold part; entries.
    + rewrite (m_get_Ok _ _ _ _ _ _ Hmr), bind_Ok by lia.
      assert (part i ii 0 M' M ii t = M ii t) as -> by (unfold part; entries).
      rewrite VERIFY_pass by (pose proof (proj1 (gz_nz _) (Hpiv ii Hii)); lia). rewrite log2_at_gf, bind_Ok.
      by apply clear_row.
  - intros (r, v) (Hmr & Hmv). split; [eapply mat_ext; [exact Hmr |] | eapply mat_ext; [exact Hmv |]]; unfold part; entries.
Qed.
End round.

(** ** The whole elimination *)
(** [missing] lists the missing data columns [ms i], [used] the parity columns
    [us i] that replace them, then the data columns that are left. *)
Record split_cols (fdc n k : Z) (missing used : list Z) (ms us : Z -> Z) : Prop := {
  sp_fdc : 0 <= fdc <= 3;
  sp_n : 0 <= n <= 255;
  sp_k : 1 <= k <= 3 /\ k <= n;
  sp_missing : forall i, 0 <= i < k -> missing !! Z.to_nat i = Some (ms i) /\ 0 <= ms i < n;
  sp_incr : forall i j, 0 <= i < j -> j < k -> ms i < ms j;
  sp_used : forall j, 0 <= j < n -> used !! Z.to_nat j = Some (us j);
  sp_parity : forall j, 0 <= j < k -> 0 <= us j < fdc;
  sp_pincr : forall i j, 0 <= i < j -> j < k -> us i < us j;
  sp_data : forall j, k <= j < n -> fdc <= us j < fdc + n;
  sp_inj : forall i j, k <= i < n -> k <= j < n -> us i = us j -> i = j;
  sp_apart : forall i j, 0 <= i < k -> k <= j < n -> us j - fdc <> ms i;
  sp_cover : forall t, 0 <= t < n -> (exists i, 0 <= i < k /\ ms i = t) \/ (exists j, k <= j < n /\ us j - fdc = t)
}.

Section inverse.
Context (rm : raidz_map) (n k : Z) (missing used : list Z) (ms us : Z -> Z).
Notation fdc := (rm_firstdatacol rm).
Context (Hn : n = rm_cols rm - fdc) (Hsp : split_cols fdc n k missing used ms us).

(** The exponents of the rows, the columns of the missing data, and those that
    [invrows] starts from. *)
Definition pn (r : nat) : nat := Z.to_nat (us (Z.of_nat r)).
Definition nodes (l : nat) : gf := node n (ms (Z.of_nat l)).
Definition pcol (l : nat) : nat -> gf := vand pn (nodes l).
Definition icol (j : Z) : nat -> gf := if j <? k then unit (Z.to_nat j) else vand pn (node n (us j - fdc)).
Definition inverse (r j : Z) : gf := elim pcol (Z.to_nat k) (icol j) (Z.to_nat r).

Lemma pn_incr r s : (r < s < Z.to_nat k)%nat -> (pn r < pn s)%nat.
Proof.
  intros H. destruct Hsp. unfold pn. pose proof (sp_pincr0 (Z.of_nat r) (Z.of_nat s)).
  pose proof (sp_parity0 (Z.of_nat r)). lia.
Qed.
Lemma pn_two r : (r < Z.to_nat k)%nat -> (pn r <= 2)%nat.
Proof. intros H. destruct Hsp. unfold pn. pose proof (sp_parity0 (Z.of_nat r)). lia. Qed.
Lemma nodes_inj i j : (i < Z.to_nat k)%nat -> (j < Z.to_nat k)%nat -> nodes i = nodes j -> i = j.
Proof.
  intros Hi Hj E. destruct Hsp. destruct (sp_missing0 (Z.of_nat i)) as (_ & ?); [lia |].
  destruct (sp_missing0 (Z.of_nat j)) as (_ & ?); [lia |].
  assert (ms (Z.of_nat i) = ms (Z.of_nat j)) by (apply (node_inj n); (done || lia)).
  destruct (Nat.lt_trichotomy i j) as [Hlt | [? | Hlt]]; [| done |].
  - pose proof (sp_incr0 (Z.of_nat i) (Z.of_nat j)). lia.
  - pose proof (sp_incr0 (Z.of_nat j) (Z.of_nat i)). lia.
Qed.

Lemma k_nat : (1 <= Z.to_nat k <= 3)%nat.
Proof. destruct Hsp. lia. Qed.
Lemma nodes_nz i : (i < Z.to_nat k)%nat -> nodes i <> 0%gf.
Proof. intros _. apply node_nz. Qed.

Lemma pcol_pivot i r : (i < Z.to_nat k)%nat -> (r < Z.to_nat k)%nat -> elim pcol i (pcol i) r <> 0%gf.
Proof. exact (pivot_nz (Z.to_nat k) k_nat pn nodes pn_incr pn_two nodes_nz nodes_inj i r). Qed.

Lemma inverse_nz r j : 0 <= r < k -> 0 <= j < n -> inverse r j <> 0%gf.
Proof.
  intros Hr Hj. unfold inverse, icol. destruct (Z.ltb_spec j k).
  - apply (unit_nz (Z.to_nat k) k_nat pn nodes pn_incr pn_two nodes_nz nodes_inj); lia.
  - apply (vand_nz (Z.to_nat k) k_nat pn nodes pn_incr pn_two nodes_nz nodes_inj); [lia | apply node_nz |].
    intros i Hi E. destruct Hsp. destruct (sp_missing0 (Z.of_nat i)) as (_ & ?); [lia |].
    pose proof (sp_data0 j). apply node_inj in E; [| lia..]. by apply (sp_apart0 (Z.of_nat i) j); [lia | lia |].
Qed.

(** The matrices before round [i]. *)
Record before (i : Z) (M N : Z -> Z -> gf) : Prop := {
  bf_miss : forall r l, 0 <= r < k -> 0 <= l < k -> M r (ms l) = elim pcol (Z.to_nat i) (pcol (Z.to_nat l)) (Z.to_nat r);
  bf_zero : forall r j, 0 <= r < k -> k <= j < n -> M r (us j - fdc) = 0%gf;
  bf_inv : forall r j, 0 <= r < k -> 0 <= j < n -> N r j = elim pcol (Z.to_nat i) (icol j) (Z.to_nat r)
}.

Lemma zrnd_elim i M N M0 b c r :
  0 <= i < k -> 0 <= r < k -> before i M0 N ->
  (forall a, 0 <= a < k -> M a b = elim pcol (Z.to_nat i) c (Z.to_nat a)) ->
  zrnd M0 i (ms i) M r b = elim pcol (Z.to_nat (i + 1)) c (Z.to_nat r).
Proof.
  intros Hi Hr HB Hc. replace (Z.to_nat (i + 1)) with (S (Z.to_nat i)) by lia. rewrite elim_S.
  unfold zrnd, rnd. rewrite !Hc, !(bf_miss _ _ _ HB) by lia.
  destruct (Z.eqb_spec r i), (Nat.eqb_spec (Z.to_nat r) (Z.to_nat i)); (done || lia).
Qed.

Lemma before_step i M N : 0 <= i < k -> before i M N -> before (i + 1) (zrnd M i (ms i) M) (zrnd M i (ms i) N).
Proof.
  intros Hi HB. pose proof HB as [Hm Hz Hv]. split.
  - intros r l Hr Hl. eapply zrnd_elim; [done | done | exact HB |]. intros a Ha. by apply Hm.
  - intros r j Hr Hj. unfold zrnd. rewrite !Hz by lia.
    assert (M i (ms i) <> 0%gf) by (rewrite Hm by lia; apply pcol_pivot; lia). destruct (r =? i); by field.
  - intros r j Hr Hj. eapply zrnd_elim; [done | done | exact HB |]. intros a Ha. by apply Hv.
Qed.

(** The part of the pivot row that the code expects to be zero. *)
Lemma before_left i j M N : 0 <= i < k -> before i M N -> 0 <= j < ms i -> M i j = 0%gf.
Proof.
  intros Hi HB Hj. pose proof Hsp as []. destruct (sp_missing0 i Hi) as (_ & ?).
  destruct (sp_cover0 j) as [(l & Hl & <-) | (u & Hu & <-)]; [lia | | by apply (bf_zero _ _ _ HB)].
  assert (l < i).
  { destruct (Z.lt_trichotomy l i) as [? | [-> | ?]]; [done | lia |]. pose proof (sp_incr0 i l). lia. }
  rewrite (bf_miss _ _ _ HB), elim_unit by (try lia; intros; apply pcol_pivot; lia).
  destruct (Nat.eqb_spec (Z.to_nat i) (Z.to_nat l)); [lia | done].
Qed.

Lemma rounds_spec rows invrows M N : mat k n rows M -> mat k n invrows N -> before 0 M N ->
  runs (for_range 0 k (invert_round n k missing) (rows, invrows))
    (fun '(rows, invrows) => exists M N, mat k n rows M /\ mat k n invrows N /\ before k M N).
Proof.
  intros Hr Hv HB. apply (for_range_inv _ _ _ _ (fun i '(rows, invrows) =>
    exists M N, mat k n rows M /\ mat k n invrows N /\ before i M N)); [destruct Hsp; lia | by exists M, N |].
  intros i (r, v) Hi (A & B & HA & HB' & Hbf). destruct (sp_missing _ _ _ _ _ _ _ Hsp i Hi) as (Em & Hm).
  eapply runs_impl; [eapply (invert_round_spec k n missing i (ms i) A B) |]; try done.
  - intros j Hj. by eapply before_left.
  - intros a Ha. rewrite (bf_miss _ _ _ Hbf) by lia. apply pcol_pivot; lia.
  - intros (r', v') (H1 & H2). exists (zrnd A i (ms i) A), (zrnd A i (ms i) B). split; [done |]. split; [done |].
    by apply before_step.
Qed.

(** The final check of the code. *)
Lemma rows_unit M N i j : before k M N -> 0 <= i < k -> 0 <= j < n -> M i j = if j =? ms i then 1%gf else 0%gf.
Proof.
  intros HB Hi Hj. pose proof Hsp as []. destruct (sp_cover0 j Hj) as [(l & Hl & <-) | (u & Hu & <-)].
  - rewrite (bf_miss _ _ _ HB), elim_unit by (try lia; intros; apply pcol_pivot; lia).
    destruct (Nat.eqb_spec (Z.to_nat i) (Z.to_nat l)).
    + replace l with i by lia. by rewrite Z.eqb_refl.
    + destruct (Z.eqb_spec (ms l) (ms i)) as [E |]; [| done].
      destruct (Z.lt_trichotomy l i) as [? | [? | ?]]; [pose proof (sp_incr0 l i) | | pose proof (sp_incr0 i l)]; lia.
  - rewrite (bf_zero _ _ _ HB) by done. destruct (Z.eqb_spec (us u - fdc) (ms i)) as [E |]; [| done].
    by destruct (sp_apart0 i u Hi Hu).
Qed.

(** Moving the columns that are left from [rows] to [invrows]. *)
Definition vrow (a t : Z) : gf := gexp (node n t) (Z.to_nat (us a)).
Definition past (i j a b : Z) : bool := (a <? i) || (a =? i) && (b <? j).
Record moving (i j : Z) (M N : Z -> Z -> gf) : Prop := {
  mv_miss : forall a l, 0 <= a < k -> 0 <= l < k -> M a (ms l) = vrow a (ms l);
  mv_data : forall a u, 0 <= a < k -> k <= u < n -> M a (us u - fdc) = if past i j a u then 0%gf else vrow a (us u - fdc);
  mv_id : forall a b, 0 <= a < k -> 0 <= b < k -> N a b = if a =? b then 1%gf else 0%gf;
  mv_inv : forall a u, 0 <= a < k -> k <= u < n -> past i j a u = true -> N a u = vrow a (us u - fdc)
}.

Lemma moving_step i j M N : 0 <= i < k -> k <= j < n -> moving i j M N ->
  moving i (j + 1) (mupd M i (us j - fdc) 0%gf) (mupd N i j (vrow i (us j - fdc))).
Proof.
  intros Hi Hj [Hm Hd Hid Hv]. pose proof Hsp as []. split.
  - intros a l Ha Hl. unfold mupd. destruct (Z.eqb_spec (ms l) (us j - fdc)) as [E |]; [by destruct (sp_apart0 l j Hl Hj) |].
    rewrite andb_false_r. by apply Hm.
  - intros a u Ha Hu. unfold mupd, past. rewrite Hd by done. unfold past.
    destruct (Z.eqb_spec a i) as [-> |]; cbn [andb]; [| by rewrite !orb_false_r].
    destruct (Z.eqb_spec (us u - fdc) (us j - fdc)) as [E |]; cbn [andb].
    + assert (u = j) as -> by (apply sp_inj0; lia). rewrite (proj2 (Z.ltb_lt j (j + 1))) by lia. by rewrite orb_true_r.
    + assert (u <> j) by congruence. destruct (Z.ltb_spec u j), (Z.ltb_spec u (j + 1)); (done || lia).
  - intros a b Ha Hb. unfold mupd. rewrite (proj2 (Z.eqb_neq b j)), andb_false_r by lia. by apply Hid.
  - intros a u Ha Hu Hp. unfold mupd. destruct ((a =? i) && (u =? j)) eqn:E.
    { apply andb_prop in E as (Ea & Eu). apply Z.eqb_eq in Ea, Eu. by subst. }
    apply Hv; [done | done |]. unfold past in *. lia.
Qed.

Lemma moving_next i M N : 0 <= i < k -> moving i n M N -> moving (i + 1) k M N.
Proof.
  intros Hi [Hm Hd Hid Hv].
  assert (Hp : forall a u, k <= u < n -> past (i + 1) k a u = past i n a u).
  { intros a u Hu. unfold past. destruct (Z.ltb_spec a i), (Z.ltb_spec a (i + 1)), (Z.eqb_spec a i), (Z.eqb_spec a (i + 1)),
      (Z.ltb_spec u k), (Z.ltb_spec u n); (done || lia). }
  split; [done | | done |].
  - intros a u Ha Hu. by rewrite Hp, Hd.
  - intros a u Ha Hu Hpast. apply Hv; [done | done | by rewrite <- Hp].
Qed.

Lemma moving_before M N : moving k k M N -> before 0 M N.
Proof.
  intros [Hm Hd Hid Hv]. assert (Hp : forall a u, 0 <= a < k -> past k k a u = true) by (intros; unfold past; lia).
  split.
  - intros r l Hr Hl. rewrite Hm by done. simpl. unfold vrow, pcol, vand, nodes, pn. by rewrite !Z2Nat.id by lia.
  - intros r j Hr Hj. by rewrite Hd, Hp.
  - intros r j Hr Hj. simpl. unfold icol. destruct (Z.ltb_spec j k).
    + rewrite Hid by lia. unfold unit. destruct (Z.eqb_spec r j), (Nat.eqb_spec (Z.to_nat r) (Z.to_nat j)); (done || lia).
    + rewrite Hv by (done || lia || by apply Hp). unfold vrow, vand, pn. by rewrite Z2Nat.id by lia.
Qed.

Lemma move_spec rows invrows N :
  mat k n rows vrow -> mat k n invrows N -> (forall a b, 0 <= a < k -> 0 <= b < n -> N a b = if a =? b then 1%gf else 0%gf) ->
  runs (for_range 0 k (fun i st =>
    for_range k n (fun j '(rows, invrows) =>
      u ← at_ used j ;
      VERIFY (fdc <=? u) ;;
      let jj := u - fdc in
      VERIFY (jj <? n) ;;
      v ← m_get rows i jj ;
      invrows ← m_set invrows i j v ;
      rows ← m_set rows i jj 0 ;
      Ok (rows, invrows)) st) (rows, invrows))
  (fun '(rows, invrows) => exists M N, mat k n rows M /\ mat k n invrows N /\ moving k k M N).
Proof.
  intros Hr Hv HN. pose proof Hsp as []. set (I := fun i j '((rows, invrows) : list (list Z) * list (list Z)) =>
    exists M N, mat k n rows M /\ mat k n invrows N /\ moving i j M N).
  apply (for_range_inv _ _ _ _ (fun i => I i k)); [lia | |].
  - exists vrow, N. split; [done |]. split; [done |].
    assert (Hp : forall a u, 0 <= a -> k <= u -> past 0 k a u = false) by (intros; unfold past; lia).
    split; [done | intros; by rewrite Hp by lia | intros; apply HN; lia |].
    intros a u Ha Hu. by rewrite Hp by lia.
  - intros i st Hi HI. eapply runs_impl; [apply (for_range_inv _ _ _ _ (I i)); [lia | exact HI |] |].
    + intros j (r, v) Hj (A & B & HA & HB & HM). rewrite (at_Ok _ _ _ (sp_used0 j ltac:(lia))), bind_Ok by lia.
      pose proof (sp_data0 j Hj). rewrite !VERIFY_pass by lia. cbv zeta.
      rewrite (m_get_Ok _ _ _ _ _ _ HA), bind_Ok by lia.
      rewrite (mv_data _ _ _ _ HM) by lia. replace (past i j i j) with false by (unfold past; lia).
      eapply m_set_bind; [exact HB | lia | lia | reflexivity |]. intros v' Hv'.
      eapply (m_set_bind k n r A i (us j - fdc) 0 0%gf); [exact HA | lia | lia | reflexivity |]. intros r' Hr'. simpl.
      eexists _, _. split; [exact Hr' |]. split; [exact Hv' |]. by apply moving_step.
    + intros (r, v) (A & B & HA & HB & HM). exists A, B. split; [done |]. split; [done |]. by apply moving_next.
Qed.

Lemma identity_spec invrows N : mat k n invrows N ->
  runs (for_range 0 k (fun i invrows =>
    for_range 0 n (fun j invrows => m_set invrows i j (if i =? j then 1 else 0)) invrows) invrows)
  (fun invrows => mat k n invrows (fun a b => if a =? b then 1%gf else 0%gf)).
Proof.
  intros Hv. pose proof Hsp as []. set (E := fun a b : Z => if a =? b then 1%gf else 0%gf).
  set (I := fun i j invrows => mat k n invrows (fun a b => if past i j a b then E a b else N a b)).
  eapply runs_impl; [apply (for_range_inv _ _ _ _ (fun i => I i 0)); [lia | |] |].
  - eapply mat_ext; [exact Hv |]. unfold past. entries.
  - intros i v Hi HI. eapply runs_impl; [apply (for_range_inv _ _ _ _ (I i)); [lia | exact HI |] |].
    + intros j v' Hj Hv'. eapply (m_set_runs _ _ _ _ _ _ _ (E i j)); [exact Hv' | lia | lia | |].
      * unfold E. by destruct (i =? j).
      * intros a b Ha Hb. unfold mupd. destruct (Z.eqb_spec a i) as [-> |], (Z.eqb_spec b j) as [-> |]; cbn [andb];
          unfold past; entries.
    + intros v' Hv'. eapply mat_ext; [exact Hv' |]. unfold past. entries.
  - intros v Hv'. eapply mat_ext; [exact Hv' |]. unfold past. entries.
Qed.

Lemma matrix_invert_spec rows invrows N : mat k n rows vrow -> mat k n invrows N ->
  runs (vdev_raidz_matrix_invert rm n k missing rows invrows used) (fun '(_, invrows) => mat k n invrows inverse).
Proof.
  intros Hr Hv. pose proof Hsp as []. unfold vdev_raidz_matrix_invert.
  eapply runs_bind; [apply (for_range_inv _ _ _ _ (fun _ _ => True)); [lia | done |] |].
  { intros i [] Hi _. rewrite (at_Ok _ _ _ (sp_used0 i ltac:(lia))), bind_Ok by lia.
    pose proof (sp_parity0 i Hi). by rewrite (proj2 (Z.ltb_lt _ _)) by lia. }
  intros _ _. eapply runs_bind; [apply (for_range_inv _ _ _ _ (fun _ _ => True)); [lia | done |] |].
  { intros i [] Hi _. rewrite (at_Ok _ _ _ (sp_used0 i ltac:(lia))), bind_Ok by lia.
    pose proof (sp_data0 i Hi). by rewrite (proj2 (Z.leb_le _ _)) by lia. }
  intros _ _. eapply runs_bind; [eapply identity_spec; exact Hv |]. intros v1 Hv1.
  eapply runs_bind; [eapply move_spec; [exact Hr | exact Hv1 | done] |]. intros (r2, v2) (M & N2 & HM & HN2 & Hmv).
  eapply runs_bind; [eapply rounds_spec; [exact HM | exact HN2 | by apply moving_before] |].
  intros (r3, v3) (M3 & N3 & HM3 & HN3 & HB).
  eapply runs_bind; [apply (for_range_inv _ _ _ _ (fun _ _ => True)); [lia | done |] |].
  { intros i [] Hi _. rewrite (at_Ok _ _ _ (proj1 (sp_missing0 i Hi))), bind_Ok by lia.
    eapply runs_impl; [apply (for_range_inv _ _ _ _ (fun _ _ => True)); [lia | done |] | done].
    intros j [] Hj _. rewrite (m_get_Ok _ _ _ _ _ _ HM3), bind_Ok by lia. rewrite (rows_unit _ _ _ _ HB) by done.
    by destruct (j =? ms i). }
  intros _ _. simpl. eapply mat_ext; [exact HN3 |]. intros a b Ha Hb. by rewrite (bf_inv _ _ _ HB).
Qed.
End inverse.
