(* ===== verification/RaidzGen.v ===== *)
(** * The general reconstruction

    The inverted rows give the missing columns as sums of the columns in use;
    [vdev_raidz_matrix_reconstruct] computes these sums, and
    [vdev_raidz_reconstruct_general] prepares its arguments. *)
From Stdlib Require Import Field.
From S2P Require Import Prelude Bytes Gf256 GfField RaidzMat Raidz RaidzSpec RaidzRec RaidzInv.
Local Open Scope Z_scope.

(** ** Sums over lists of columns *)
Definition gsum (f : Z -> gf) (l : list Z) : gf := foldr (fun x s => f x + s)%gf 0%gf l.

Lemma gsum_app f l l' : gsum f (l ++ l') = (gsum f l + gsum f l')%gf.
Proof. induction l as [| x l IH]; simpl; [ring |]. rewrite IH. ring. Qed.

Lemma gsum_ext f g l : (forall x, x ∈ l -> f x = g x) -> gsum f l = gsum g l.
Proof.
  induction l as [| x l IH]; simpl; intros H; [done |]. rewrite H by left. by rewrite IH by (intros; apply H; by right).
Qed.

Lemma gsum_perm f l l' : l ≡ₚ l' -> gsum f l = gsum f l'.
Proof. induction 1; simpl; [done | congruence | ring | congruence]. Qed.

Lemma gsum_map f (g : Z -> Z) l : gsum f (g <$> l) = gsum (fun x => f (g x)) l.
Proof. unfold gsum. induction l as [| x l IH]; cbn in *; [done | by rewrite IH]. Qed.

Lemma gsum_single f (x : Z) l : NoDup l -> x ∈ l -> (forall y, y ∈ l -> y <> x -> f y = 0%gf) -> gsum f l = f x.
Proof.
  intros Hnd Hin H0. induction Hnd as [| y l Hy Hnd IH]; [by apply not_elem_of_nil in Hin |]. simpl.
  apply elem_of_cons in Hin as [<- | Hin].
  - rewrite (gsum_ext _ (fun _ => 0%gf)).
    2:{ intros z Hz. apply H0; [by right |]. by intros ->. }
    assert (Hz : gsum (fun _ => 0%gf) l = 0%gf) by (clear; induction l as [| z l IH]; simpl; [done | rewrite IH; ring]).
    rewrite Hz. ring.
  - rewrite H0; [| left | by intros ->]. rewrite IH; [ring | done |]. intros z Hz. apply H0. by right.
Qed.

(** ** Linearity of the elimination *)
Lemma elim_linear P i x b c r :
  elim P i (fun s => x * b s + c s)%gf r = (x * elim P i b r + elim P i c r)%gf.
Proof.
  revert r. induction i as [| i IH]; intros r; [done |]. rewrite !elim_S. unfold rnd. rewrite !IH.
  destruct (Nat.eqb r i); unfold gdiv; ring.
Qed.

Lemma elim_zero P i r : elim P i (fun _ => 0%gf) r = 0%gf.
Proof.
  revert r. induction i as [| i IH]; intros r; [done |]. rewrite !elim_S. unfold rnd. rewrite !IH.
  destruct (Nat.eqb r i); unfold gdiv; ring.
Qed.

Lemma elim_gsum P i (y : Z -> gf) (b : Z -> nat -> gf) l r :
  elim P i (fun s => gsum (fun j => y j * b j s)%gf l) r = gsum (fun j => y j * elim P i (b j) r)%gf l.
Proof. induction l as [| j l IH]; simpl; [apply elim_zero |]. by rewrite elim_linear, IH. Qed.

Lemma elim_ext_lt P k i b b' r : (forall s, (s < k)%nat -> b s = b' s) -> (i <= k)%nat -> (r < k)%nat ->
  elim P i b r = elim P i b' r.
Proof.
  intros H. revert r. induction i as [| i IH]; intros r Hi Hr; [by apply H |]. rewrite !elim_S. unfold rnd.
  by rewrite !IH by lia.
Qed.

(** ** The missing data in terms of the columns in use *)
Section solution.
Context (rm : raidz_map) (n k : Z) (missing used : list Z) (ms us : Z -> Z).
Notation fdc := (rm_firstdatacol rm).
Context (Hsp : split_cols fdc n k missing used ms us).

Lemma split_perm : (ms <$> seqZ 0 k) ++ ((fun j => us j - fdc) <$> seqZ k (n - k)) ≡ₚ seqZ 0 n.
Proof.
  destruct Hsp. apply NoDup_Permutation.
  - apply NoDup_app. split; [| split].
    + apply NoDup_fmap_2_strong; [| apply NoDup_seqZ]. intros x y Hx Hy E. apply elem_of_seqZ in Hx, Hy.
      destruct (Z.lt_trichotomy x y) as [? | [? | ?]]; [pose proof (sp_incr x y) | done | pose proof (sp_incr y x)]; lia.
    + intros t Ht Hu. apply list_elem_of_fmap in Ht as (i & -> & Hi), Hu as (j & E & Hj). apply elem_of_seqZ in Hi, Hj.
      apply (sp_apart i j); lia.
    + apply NoDup_fmap_2_strong; [| apply NoDup_seqZ]. intros x y Hx Hy E. apply elem_of_seqZ in Hx, Hy.
      apply sp_inj; lia.
  - apply NoDup_seqZ.
  - intros t. rewrite elem_of_app, !list_elem_of_fmap, elem_of_seqZ. split.
    + intros [(i & -> & Hi) | (j & -> & Hj)]; [apply elem_of_seqZ in Hi | apply elem_of_seqZ in Hj].
      * destruct (sp_missing i); lia.
      * pose proof (sp_data j). lia.
    + intros Ht. destruct (sp_cover t) as [(i & Hi & <-) | (j & Hj & <-)]; [lia | left; exists i | right; exists j];
        (split; [done |]; apply elem_of_seqZ; lia).
Qed.

Lemma seqZ_split : seqZ 0 n = seqZ 0 k ++ seqZ k (n - k).
Proof.
  destruct Hsp. replace n with (k + (n - k)) at 1 by lia. rewrite seqZ_app by lia. done.
Qed.

Context (d : Z -> gf).
Definition used_val (j : Z) : gf :=
  if j <? k then gsum (fun t => vrow n us j t * d t)%gf (seqZ 0 n) else d (us j - fdc).

Lemma start_sum s : (s < Z.to_nat k)%nat ->
  gsum (fun j => used_val j * icol rm n k us j s)%gf (seqZ 0 n) =
  gsum (fun l => d (ms l) * pcol n ms us (Z.to_nat l) s)%gf (seqZ 0 k).
Proof.
  intros Hs. pose proof Hsp as Hsp'. destruct Hsp'. rewrite seqZ_split, gsum_app.
  rewrite (gsum_single _ (Z.of_nat s)).
  2: apply NoDup_seqZ. 2: apply elem_of_seqZ; lia.
  2:{ intros j Hj Hne. apply elem_of_seqZ in Hj. unfold icol. rewrite (proj2 (Z.ltb_lt j k)) by lia.
      unfold unit. destruct (Nat.eqb_spec s (Z.to_nat j)); [lia | ring]. }
  set (u := fun j => (d (us j - fdc) * vand (pn us) (node n (us j - fdc)) s)%gf).
  rewrite (gsum_ext _ u (seqZ k (n - k))).
  2:{ intros j Hj. apply elem_of_seqZ in Hj. unfold used_val, icol, u. by rewrite (proj2 (Z.ltb_ge j k)) by lia. }
  unfold used_val at 1, icol at 1. rewrite (proj2 (Z.ltb_lt _ _)) by lia. rewrite Nat2Z.id.
  unfold unit. rewrite Nat.eqb_refl.
  rewrite <- (gsum_perm _ _ _ split_perm), gsum_app, !gsum_map.
  rewrite (gsum_ext (fun x => vrow n us (Z.of_nat s) (us x - fdc) * d (us x - fdc))%gf u).
  2:{ intros j Hj. unfold u, vrow, vand, pn. ring. }
  rewrite (gsum_ext (fun x => vrow n us (Z.of_nat s) (ms x) * d (ms x))%gf
    (fun l => d (ms l) * pcol n ms us (Z.to_nat l) s)%gf).
  2:{ intros l Hl. apply elem_of_seqZ in Hl. unfold vrow, pcol, vand, nodes, pn. rewrite Z2Nat.id by lia. ring. }
  set (A := gsum u _). set (B := gsum _ (seqZ 0 k)).
  transitivity (B + (A + A))%gf; [ring |]. rewrite gadd_self. ring.
Qed.

Lemma inverse_solves r : 0 <= r < k ->
  gsum (fun j => used_val j * inverse rm n k ms us r j)%gf (seqZ 0 n) = d (ms r).
Proof.
  intros Hr. unfold inverse. rewrite <- elim_gsum.
  rewrite (elim_ext_lt _ (Z.to_nat k) _ _ _ _ start_sum) by lia. rewrite elim_gsum.
  rewrite (gsum_single _ r).
  - rewrite elim_unit by first [lia | intros; eapply pcol_pivot; [exact Hsp | lia | lia]]. rewrite Nat.eqb_refl. ring.
  - apply NoDup_seqZ.
  - apply elem_of_seqZ. lia.
  - intros l Hl Hne. apply elem_of_seqZ in Hl.
    rewrite elim_unit by first [lia | intros; eapply pcol_pivot; [exact Hsp | lia | lia]].
    destruct (Nat.eqb_spec (Z.to_nat r) (Z.to_nat l)); [lia | ring].
Qed.
End solution.

(** ** Parity as a sum *)
Lemma gexp_mul x y p : gexp (x * y)%gf p = (gexp x p * gexp y p)%gf.
Proof. induction p as [| p IH]; simpl; [ring |]. rewrite IH. ring. Qed.

Lemma node_S n t : 0 <= t < n -> node (n + 1) t = (gtwo 1 * node n t)%gf.
Proof. intros Ht. unfold node. rewrite <- gtwo_add. f_equal. lia. Qed.

Lemma seqZ_snoc n : 0 <= n -> seqZ 0 (n + 1) = seqZ 0 n ++ [n].
Proof. intros Hn. by rewrite seqZ_app by lia. Qed.

Lemma gsum_one f x : gsum f [x] = f x.
Proof. simpl. ring. Qed.

Lemma gsum_scale x f l : gsum (fun t => x * f t)%gf l = (x * gsum f l)%gf.
Proof. induction l as [| y l IH]; simpl; [ring |]. rewrite IH. ring. Qed.

Lemma hsum_gsum i f lo n : (forall c, is_byte (f c)) ->
  hsum (gpow i) f lo n = gz (gsum (fun t => gexp (node (Z.of_nat n) t) i * gof (f (lo + t)%Z))%gf (seqZ 0 (Z.of_nat n))).
Proof.
  intros Hf. induction n as [| n IH]; [done |]. cbn [hsum]. rewrite IH, Nat2Z.inj_succ. unfold Z.succ.
  rewrite seqZ_snoc, gsum_app, gsum_one by lia.
  rewrite (gsum_ext (fun t => gexp (node (Z.of_nat n + 1) t) i * gof (f (lo + t)%Z))%gf (fun t => gtwo i * (gexp (node (Z.of_nat n) t) i * gof (f (lo + t)%Z)))%gf).
  2:{ intros t Ht. apply elem_of_seqZ in Ht. rewrite node_S, gexp_mul, <- gtwo_mul_exp, Nat.mul_1_r by lia. ring. }
  rewrite gsum_scale. rewrite gz_add, gtwo_mul. f_equal.
  assert (E : node (Z.of_nat n + 1) (Z.of_nat n) = 1%gf).
  { unfold node. replace (Z.to_nat _) with 0%nat by lia. apply gtwo_0. }
  rewrite E. assert (E1 : gexp 1%gf i = 1%gf) by (clear; induction i as [| i IH]; simpl; [done | rewrite IH; ring]).
  rewrite E1. replace (1 * _)%gf with (gof (f (lo + Z.of_nat n)%Z)) by ring. by rewrite gz_gof.
Qed.

(** The product of two bytes through their logarithms. *)
Lemma mul_logs a b : a <> 0%gf -> b <> 0%gf ->
  let ll := log2 (gz a) + log2 (gz b) in pow2_at (if 255 <=? ll then ll - 255 else ll) = Ok (gz (a * b)%gf).
Proof.
  intros Ha Hb ll. apply gz_nz in Ha, Hb. destruct (log2_spec _ (gz_is_byte a) Ha) as (La & Ea).
  destruct (log2_spec _ (gz_is_byte b) Hb) as (Lb & Eb).
  assert (Em : gz (a * b)%gf = gz (gtwoz ll)).
  { rewrite gz_mul. unfold gtwoz. rewrite gz_gtwo. replace (Z.to_nat ll) with (Z.to_nat (log2 (gz a)) + Z.to_nat (log2 (gz b)))%nat by (unfold ll; lia).
    rewrite gpow_add, Eb. symmetry. rewrite <- gmul_gpow by apply gz_is_byte. by rewrite Ea. }
  rewrite Em. rewrite pow2_at_gtwo by (destruct (Z.leb_spec 255 ll); unfold ll in *; lia).
  destruct (Z.leb_spec 255 ll); [| done]. rewrite <- (gtwoz_255 (ll - 255)) by lia. do 3 f_equal. lia.
Qed.

(** ** Reading and writing the buffers of the missing columns *)
Lemma buf_get dst r d x : dst !! Z.to_nat r = Some d -> 0 <= r -> 0 <= x < Z.of_nat (length d) ->
  m_get dst r x = Ok (nb d x).
Proof.
  intros Hd Hr Hx. unfold m_get. rewrite VERIFY_pass, Hd by lia. cbn [deref]. rewrite bind_Ok.
  destruct (lookup_lt_is_Some_2 d (Z.to_nat x)) as (b & Hb); [lia |]. rewrite Hb. unfold nb.
  by rewrite (nth_lookup_Some _ _ _ _ Hb).
Qed.

Lemma buf_set dst r d x v : dst !! Z.to_nat r = Some d -> 0 <= r -> 0 <= x < Z.of_nat (length d) -> is_byte v ->
  m_set dst r x v = Ok (<[Z.to_nat r := <[Z.to_nat x := v]> d]> dst).
Proof.
  intros Hd Hr Hx Hv. unfold m_set. rewrite VERIFY_pass, Hd by lia. cbn [deref]. rewrite bind_Ok.
  destruct (lookup_lt_is_Some_2 d (Z.to_nat x)) as (b & Hb); [lia |]. rewrite Hb. cbn [deref].
  rewrite bind_Ok. by rewrite uchar_byte.
Qed.

(** ** [vdev_raidz_matrix_reconstruct] *)
Section rebuild.
Context (rm : raidz_map) (pcnt : Z) (Hok : rz_ok rm pcnt) (D : Z -> Z -> Z) (HD : forall c j, is_byte (D c j)).
Notation fdc := (rm_firstdatacol rm).
Context (n k : Z) (missing used : list Z) (ms us : Z -> Z).
Context (Hn : n = rm_cols rm - fdc) (Hsp : split_cols fdc n k missing used ms us).
Context (Hpar : forall i, 0 <= i < k -> exists kp, parity_valid rm pcnt D (Z.to_nat (us i)) kp).
Context (Hgood : forall j x, k <= j < n -> dbyte rm (us j) x = D (us j) x).

Notation inv := (inverse rm n k ms us).

(** The bytes of the columns in use, and the sums over the first [i] of them. *)
Definition ybyte (x j : Z) : gf := gof (dbyte rm (us j) x).
Definition acc (r x i : Z) : gf := gsum (fun j => ybyte x j * inv r j)%gf (seqZ 0 i).

Lemma acc_S r x i : 0 <= i -> acc r x (i + 1) = (acc r x i + ybyte x i * inv r i)%gf.
Proof. intros Hi. unfold acc. by rewrite seqZ_snoc, gsum_app, gsum_one by done. Qed.

(** A column in use. *)
Lemma use_col i : 0 <= i < n -> exists kc, get_col rm (us i) = Ok kc /\ 0 <= us i < rm_cols rm /\
  rm_col rm !! Z.to_nat (us i) = Some kc /\ 0 <= rc_size kc <= 8 * pcnt /\ rc_size kc <= Z.of_nat (length (rc_data kc)) /\
  Forall is_byte (rc_data kc) /\ (i < k -> rc_size kc = 8 * pcnt).
Proof.
  intros Hi. pose proof Hsp as []. pose proof (ok_np _ _ Hok). pose proof (ok_pcnt _ _ Hok).
  assert (Hu : 0 <= us i < rm_cols rm).
  { destruct (Z.lt_ge_cases i k); [pose proof (sp_parity i) | pose proof (sp_data i)]; lia. }
  destruct (ok_col _ _ (us i) Hok Hu) as (kc & Hk). exists kc.
  split; [apply get_col_Some; [lia | done] |]. split; [done |]. split; [done |].
  destruct (Z.lt_ge_cases i k).
  - destruct (ok_par _ _ Hok (us i) kc) as (? & ? & ?); [apply sp_parity; lia | done |]. split_and!; (done || lia).
  - destruct (ok_data _ _ Hok (us i) kc) as (? & ? & ? & ?); [pose proof (sp_data i); lia | done |]. split_and!; (done || lia).
Qed.

(** What the sums amount to. *)
Lemma acc_all r x : 0 <= r < k -> 0 <= x < 8 * pcnt -> acc r x n = gof (D (ms r + fdc) x).
Proof.
  intros Hr Hx. pose proof Hsp as [].
  set (d := fun t => gof (D (t + fdc) x)). change (gof (D (ms r + fdc) x)) with (d (ms r)).
  rewrite <- (inverse_solves rm n k missing used ms us Hsp d r Hr). apply gsum_ext. intros j Hj.
  apply elem_of_seqZ in Hj. f_equal. unfold ybyte, used_val. destruct (Z.ltb_spec j k).
  - destruct (Hpar j) as (kp & Hp); [lia |]. destruct (parity_col _ _ Hok _ _ _ Hp) as (_ & Sp & _).
    destruct Hp as (Hk & Hlt & Hp). unfold dbyte. rewrite Hk. unfold cbyte.
    rewrite (proj2 (Z.leb_le 0 x)), (proj2 (Z.ltb_lt x _)) by lia. cbn [andb]. rewrite Hp by done.
    rewrite hsum_gsum by (intros; apply HD). rewrite gof_gz.
    replace (Z.of_nat (ndata rm)) with n by (unfold ndata; lia). apply gsum_ext. intros t Ht.
    unfold vrow, d. by rewrite (Z.add_comm fdc t).
  - unfold d. rewrite Hgood by lia. do 2 f_equal. lia.
Qed.

(** The missing column [r] and its buffer, when the first [i] columns have
    been added, and column [i] up to byte [x]. *)
Definition mcol (r : Z) (kd : raidz_col) : Prop := rm_col rm !! Z.to_nat (ms r + fdc) = Some kd.

Record buf (r : Z) (kd : raidz_col) (i x : Z) (d : list Z) : Prop := {
  buf_len : length d = length (rc_data kd);
  buf_byte : Forall is_byte d;
  buf_new : forall b, 0 <= b < rc_size kd -> b < x \/ 0 < i -> nb d b = gz (acc r b (if b <? x then i + 1 else i));
  buf_old : forall b, rc_size kd <= b < Z.of_nat (length d) -> nb d b = nb (rc_data kd) b
}.

Lemma miss_col r : 0 <= r < k -> exists kd, mcol r kd /\ get_col rm (ms r + fdc) = Ok kd /\
  0 <= rc_size kd <= 8 * pcnt /\ rc_size kd <= Z.of_nat (length (rc_data kd)) /\ Forall is_byte (rc_data kd).
Proof.
  intros Hr. pose proof Hsp as []. pose proof (ok_np _ _ Hok). destruct (sp_missing r Hr) as (_ & Hm).
  destruct (ok_col _ _ (ms r + fdc) Hok) as (kd & Hk); [lia |]. exists kd. split; [done |].
  split; [apply get_col_Some; [lia | done] |].
  destruct (ok_data _ _ Hok (ms r + fdc) kd) as (? & ? & ? & ?); [lia | done |]. split_and!; (done || lia).
Qed.

Definition bufs (i : Z) (x : Z -> Z) (dst : list (list Z)) : Prop :=
  Z.of_nat (length dst) = k /\ forall r, 0 <= r < k -> exists kd d, mcol r kd /\ dst !! Z.to_nat r = Some d /\ buf r kd i (x r) d.

Definition logs : Z -> Z -> gf := fun r j => gof (log2 (gz (inv r j))).

Lemma logs_z r j : 0 <= r < k -> 0 <= j < n -> gz (logs r j) = log2 (gz (inv r j)).
Proof.
  intros Hr Hj. apply gz_gof. pose proof (inverse_nz rm n k missing used ms us Hsp r j Hr Hj) as Hnz. apply gz_nz in Hnz.
  destruct (log2_spec _ (gz_is_byte _) Hnz). unfold is_byte. lia.
Qed.

(** The product added to byte [x] of missing column [r]. *)
Lemma term_spec invlog r i x : mat k n invlog logs -> 0 <= r < k -> 0 <= i < n ->
  (if gz (ybyte x i) =? 0 then Ok 0
   else log ← log2_at (gz (ybyte x i)) ; il ← m_get invlog r i ;
        pow2_at (if 255 <=? log + il then log + il - 255 else log + il)) = Ok (gz (ybyte x i * inv r i)%gf).
Proof.
  intros Hm Hr Hi. destruct (Z.eqb_spec (gz (ybyte x i)) 0) as [E | E].
  - assert (ybyte x i = 0%gf) as -> by (by apply gf_eq). by replace (0 * _)%gf with 0%gf by ring.
  - rewrite log2_at_gf, bind_Ok, (m_get_Ok _ _ _ _ _ _ Hm), bind_Ok, logs_z by done.
    apply mul_logs; [by apply gz_nz | by eapply inverse_nz].
Qed.

Lemma buf_step r kd i x d : 0 <= r < k -> mcol r kd -> 0 <= i < n -> 0 <= x < rc_size kd ->
  rc_size kd <= Z.of_nat (length (rc_data kd)) -> buf r kd i x d ->
  buf r kd i (x + 1) (<[Z.to_nat x := gz (acc r x (i + 1))]> d).
Proof.
  intros Hr Hm Hi Hx Hl [Bl Bb Bn Bo]. split.
  - by rewrite length_insert.
  - apply Forall_insert; [done | apply gz_is_byte].
  - intros b Hb Hbx. rewrite nb_insert by lia. destruct (Z.eqb_spec b (Z.of_nat (Z.to_nat x))) as [E | E].
    + replace b with x by lia. by rewrite (proj2 (Z.ltb_lt x (x + 1))) by lia.
    + rewrite Bn by lia. destruct (Z.ltb_spec b x), (Z.ltb_spec b (x + 1)); (done || lia).
  - intros b Hb. rewrite length_insert in Hb. rewrite nb_insert by lia.
    destruct (Z.eqb_spec b (Z.of_nat (Z.to_nat x))); [lia |]. apply Bo. lia.
Qed.

Lemma buf_skip r kd i x d : rc_size kd <= x -> buf r kd i x d -> buf r kd i (x + 1) d.
Proof.
  intros Hx [Bl Bb Bn Bo]. split; [done | done | | done]. intros b Hb Hbx. rewrite Bn by lia.
  destruct (Z.ltb_spec b x), (Z.ltb_spec b (x + 1)); (done || lia).
Qed.

Lemma matrix_add_spec invlog i x dst : mat k n invlog logs -> 0 <= i < n -> 0 <= x -> bufs i (fun _ => x) dst ->
  runs (matrix_add rm k missing invlog i x (gz (ybyte x i)) dst) (bufs i (fun _ => x + 1)).
Proof.
  intros Hm Hi Hx Hb. pose proof Hsp as []. unfold matrix_add.
  eapply runs_impl; [apply (for_range_inv _ _ _ _ (fun cc => bufs i (fun r => if r <? cc then x + 1 else x))) |].
  - lia.
  - destruct Hb as (Hl & Hb). split; [done |]. intros r Hr. by rewrite (proj2 (Z.ltb_ge r 0)) by lia; apply Hb.
  - intros cc dst' Hc (Hl & Hb'). rewrite (at_Ok _ _ _ (proj1 (sp_missing cc Hc))), bind_Ok by lia.
    destruct (miss_col cc Hc) as (kd & Hkd & -> & Hs & Hlen & _). rewrite bind_Ok.
    destruct (Hb' cc Hc) as (kd' & d & Hkd' & Hd & HB). assert (kd' = kd) as -> by (unfold mcol in *; congruence).
    rewrite Z.ltb_irrefl in HB.
    assert (Hstep : forall d', buf cc kd i (x + 1) d' -> bufs i (fun r => if r <? cc + 1 then x + 1 else x) (<[Z.to_nat cc := d']> dst')).
    { intros d' HB'. split; [by rewrite length_insert |]. intros r Hr. destruct (Z.eq_dec r cc) as [-> | Hne].
      - exists kd, d'. split; [done |]. split; [apply list_lookup_insert_eq; lia |].
        by rewrite (proj2 (Z.ltb_lt cc (cc + 1))) by lia.
      - destruct (Hb' r Hr) as (k1 & d1 & ? & ? & H1). exists k1, d1. split; [done |].
        split; [by rewrite list_lookup_insert_ne by lia |].
        replace (r <? cc + 1) with (r <? cc) by (destruct (Z.ltb_spec r cc), (Z.ltb_spec r (cc + 1)); lia). done. }
    destruct (Z.leb_spec (rc_size kd) x).
    + simpl. rewrite <- (list_insert_id _ _ _ Hd). apply Hstep. by apply buf_skip.
    + pose proof (buf_len _ _ _ _ _ HB). rewrite (term_spec invlog cc i x Hm Hc Hi), bind_Ok.
      pose proof (acc_S cc x i ltac:(lia)) as Ea. destruct (Z.eqb_spec i 0) as [-> | Hi0].
      * rewrite (buf_set _ _ d) by (done || lia || apply gz_is_byte). cbn [runs]. apply Hstep.
        replace (ybyte x 0 * inv cc 0)%gf with (acc cc x (0 + 1)) by (rewrite Ea; unfold acc; simpl; ring).
        by apply buf_step.
      * rewrite (buf_get _ _ d), bind_Ok by (done || lia).
        rewrite (buf_new _ _ _ _ _ HB), Z.ltb_irrefl, <- gz_add, <- Ea by lia.
        rewrite (buf_set _ _ d) by (done || lia || apply gz_is_byte). cbn [runs]. apply Hstep. by apply buf_step.
  - intros dst' (Hl & Hb'). split; [done |]. intros r Hr. destruct (Hb' r Hr) as (kd & d & ? & ? & HB). exists kd, d.
    rewrite (proj2 (Z.ltb_lt r k)) in HB by lia. done.
Qed.

(** One column in use. *)
Lemma column_spec invlog i kc dst : mat k n invlog logs -> 0 <= i < n -> get_col rm (us i) = Ok kc -> bufs i (fun _ => 0) dst ->
  runs (for_range 0 (rc_size kc) (fun x dst =>
      s ← byte_at (rc_data kc) x ; matrix_add rm k missing invlog i x s dst) dst) (bufs (i + 1) (fun _ => 0)).
Proof.
  intros Hm Hi Hget Hb. destruct (use_col i Hi) as (kc' & Hget' & Hu & Hk & Hs & Hl & Hby & Hfull).
  assert (kc' = kc) as -> by congruence.
  assert (Hy : forall x, ybyte x i = gof (cbyte kc x)) by (intros; unfold ybyte, dbyte; by rewrite Hk).
  eapply runs_impl; [apply (for_range_inv _ _ _ _ (fun x => bufs i (fun _ => x))) |].
  - lia.
  - done.
  - intros x dst' Hx Hb'. rewrite byte_at_nb, bind_Ok by lia.
    replace (nb (rc_data kc) x) with (gz (ybyte x i)); [apply matrix_add_spec; (done || lia) |].
    rewrite Hy. unfold cbyte. rewrite (proj2 (Z.leb_le 0 x)), (proj2 (Z.ltb_lt x _)) by lia. cbn [andb].
    apply gz_gof. by apply nb_byte.
  - intros dst' (Hld & Hb'). split; [done |]. intros r Hr. destruct (Hb' r Hr) as (kd & d & Hkd & Hd & [Bl Bb Bn Bo]).
    exists kd, d. split; [done |]. split; [done |]. split; [done | done | | done].
    intros b Hbb _. rewrite (proj2 (Z.ltb_ge b 0)) by lia. destruct (Z.lt_ge_cases b (rc_size kc)) as [Hlt | Hge].
    + rewrite Bn by lia. by rewrite (proj2 (Z.ltb_lt _ _)) by lia.
    + destruct (Z.eq_dec i 0) as [-> | Hi0].
      { exfalso. destruct (miss_col r Hr) as (kd' & Hkd' & _ & Hs' & _). assert (kd' = kd) as -> by (unfold mcol in *; congruence).
        pose proof (proj1 (sp_k _ _ _ _ _ _ _ Hsp)). rewrite Hfull in Hge by lia. lia. }
      rewrite Bn by lia. rewrite (proj2 (Z.ltb_ge b _)) by lia. rewrite acc_S by lia. rewrite Hy.
      assert (cbyte kc b = 0) as -> by (unfold cbyte; destruct (Z.ltb_spec b (rc_size kc)); [lia | by rewrite andb_false_r]).
      f_equal. change (gof 0) with 0%gf. ring.
Qed.

Lemma invlog_spec invrows : mat k n invrows inv ->
  runs (for_range 0 k (fun i invlog =>
    for_range 0 n (fun j invlog =>
      v ← m_get invrows i j ;
      VERIFY (negb (v =? 0)) ;;
      l ← log2_at v ; m_set invlog i j l) invlog) invrows) (fun invlog => mat k n invlog logs).
Proof.
  intros Hv. pose proof Hsp as [].
  set (I := fun i j m => mat k n m (fun a b => if past i j a b then logs a b else inv a b)).
  eapply runs_impl; [apply (for_range_inv _ _ _ _ (fun i => I i 0)); [lia | |] |].
  - eapply mat_ext; [exact Hv |]. unfold past. entries.
  - intros i m Hi HI. eapply runs_impl; [apply (for_range_inv _ _ _ _ (I i)); [lia | exact HI |] |].
    + intros j m' Hj Hm'. rewrite (m_get_Ok _ _ _ _ _ _ Hv), bind_Ok by lia.
      pose proof (inverse_nz rm n k missing used ms us Hsp i j Hi Hj) as Hnz. apply gz_nz in Hnz.
      rewrite VERIFY_pass by lia. rewrite log2_at_gf, bind_Ok.
      eapply (m_set_runs _ _ _ _ _ _ _ (logs i j)); [exact Hm' | lia | lia | by rewrite logs_z |].
      intros a b Ha Hb. unfold mupd. destruct (Z.eqb_spec a i) as [-> |], (Z.eqb_spec b j) as [-> |]; cbn [andb];
        unfold past; entries.
    + intros m' Hm'. eapply mat_ext; [exact Hm' |]. unfold past. entries.
  - intros m Hm'. eapply mat_ext; [exact Hm' |]. unfold past. entries.
Qed.

(** The buffers as they are in the map. *)
Lemma lost_buffers_spec :
  runs (for_range 0 k (fun j dst =>
    mj ← at_ missing j ; kd ← get_col rm (mj + fdc) ; Ok (dst ++ [rc_data kd])) []) (bufs 0 (fun _ => 0)).
Proof.
  pose proof Hsp as [].
  eapply runs_impl; [apply (for_range_inv _ _ _ _ (fun j dst => Z.of_nat (length dst) = j /\
    forall r, 0 <= r < j -> exists kd, mcol r kd /\ dst !! Z.to_nat r = Some (rc_data kd))) |].
  - lia.
  - split; [done | lia].
  - intros j dst Hj (Hl & Hd). rewrite (at_Ok _ _ _ (proj1 (sp_missing j Hj))), bind_Ok by lia.
    destruct (miss_col j Hj) as (kd & Hkd & -> & _). rewrite bind_Ok. simpl. split; [rewrite length_app; simpl; lia |].
    intros r Hr. destruct (Z.eq_dec r j) as [-> | Hne].
    + exists kd. split; [done |]. rewrite lookup_app_r by lia. by replace (Z.to_nat j - length dst)%nat with 0%nat by lia.
    + destruct (Hd r) as (k1 & ? & ?); [lia |]. exists k1. split; [done |]. by rewrite lookup_app_l by lia.
  - intros dst (Hl & Hd). split; [done |]. intros r Hr. destruct (Hd r Hr) as (kd & Hkd & E). exists kd, (rc_data kd).
    destruct (miss_col r Hr) as (kd' & Hkd' & _ & _ & _ & Hb). assert (kd' = kd) as -> by (unfold mcol in *; congruence).
    split; [done |]. split; [done |]. split; [done | done | lia | done].
Qed.

Lemma buf_restored r kd d : 0 <= r < k -> mcol r kd -> buf r kd n 0 d -> restored D (ms r + fdc) kd d.
Proof.
  intros Hr Hkd [Bl Bb Bn Bo]. pose proof Hsp as []. destruct (miss_col r Hr) as (kd' & Hkd' & _ & Hs & _).
  assert (kd' = kd) as -> by (unfold mcol in *; congruence). split; [done | done |].
  intros j Hj. destruct (Z.ltb_spec j (rc_size kd)).
  - rewrite Bn by lia. rewrite (proj2 (Z.ltb_ge j 0)), acc_all by lia. apply gz_gof, HD.
  - apply Bo. lia.
Qed.

(** Storing the buffers. *)
Definition stored (j : Z) (rm' : raidz_map) : Prop :=
  exists l, rm' = set_cols rm l /\ length l = length (rm_col rm) /\
  forall c kc, rm_col rm !! c = Some kc -> exists d, l !! c = Some (with_data kc d) /\
    ((exists r, 0 <= r < j /\ Z.of_nat c = ms r + fdc /\ restored D (Z.of_nat c) kc d) \/
     ((forall r, 0 <= r < j -> Z.of_nat c <> ms r + fdc) /\ d = rc_data kc)).

Lemma stored_step j d kd rm' : 0 <= j < k -> mcol j kd -> restored D (ms j + fdc) kd d -> stored j rm' ->
  runs (upd_col rm' (ms j + fdc) (fun k => with_data k d)) (stored (j + 1)).
Proof.
  intros Hj Hkd Hd (l & -> & Hlen & Hl). pose proof Hsp as []. destruct (sp_missing j Hj) as (_ & Hm).
  destruct (Hl _ _ Hkd) as (d0 & E0 & _). rewrite (upd_col_Some _ _ (with_data kd d0)) by (done || lia).
  cbn [runs]. exists (<[Z.to_nat (ms j + fdc) := with_data kd d]> l). split; [done |]. split; [by rewrite length_insert |].
  intros c kc Hc. destruct (decide (c = Z.to_nat (ms j + fdc))) as [-> | Hne].
  - assert (kc = kd) as -> by (unfold mcol in *; congruence). exists d.
    split; [apply list_lookup_insert_eq, lookup_lt_is_Some; eauto |].
    left. exists j. rewrite Z2Nat.id by lia. split; [lia | done].
  - destruct (Hl c kc Hc) as (d1 & E1 & H1). exists d1. split; [by rewrite list_lookup_insert_ne |].
    destruct H1 as [(r & Hr & E & H1) | (Hno & ->)]; [left; exists r; split; [lia | done] |].
    right. split; [| done]. intros r Hr. destruct (Z.eq_dec r j) as [-> | ?]; [lia | apply Hno; lia].
Qed.

Lemma matrix_reconstruct_spec invrows : mat k n invrows inv ->
  runs (vdev_raidz_matrix_reconstruct rm n k missing invrows used) (stored k).
Proof.
  intros Hv. pose proof Hsp as []. pose proof (ok_pcnt _ _ Hok). unfold vdev_raidz_matrix_reconstruct.
  eapply runs_bind; [by apply invlog_spec |]. intros invlog Hlog.
  eapply runs_bind; [exact lost_buffers_spec |]. intros dst0 H0.
  eapply runs_bind; [apply (for_range_inv _ _ _ _ (fun i => bufs i (fun _ => 0))); [lia | exact H0 |] |].
  - intros i dst Hi Hb. rewrite (at_Ok _ _ _ (sp_used i Hi)), bind_Ok by lia.
    destruct (use_col i Hi) as (kc & Hget & Hu & Hk & Hs & Hlen & Hby & Hfull).
    rewrite VERIFY_pass, Hget, bind_Ok by lia.
    eapply runs_bind; [apply (for_range_inv _ _ _ _ (fun _ _ => True)); [lia | done |] |].
    { intros j [] Hj _. rewrite (at_Ok _ _ _ (proj1 (sp_missing j Hj))), bind_Ok by lia. destruct (sp_missing j Hj) as (_ & ?).
      assert (ms j + fdc <> us i).
      { destruct (Z.lt_ge_cases i k); [pose proof (sp_parity i) | pose proof (sp_apart j i)]; lia. }
      cbv zeta. rewrite !VERIFY_pass by lia. destruct (Z.eqb_spec (ms j + fdc) (us i)); [lia | done]. }
    intros _ _. destruct (sp_missing 0 ltac:(lia)) as (Em0 & Hm0). rewrite (at_Ok _ _ _ Em0), bind_Ok by lia.
    pose proof (ok_np _ _ Hok). destruct (ok_col _ _ (ms 0) Hok) as (k0 & Hk0); [lia |].
    rewrite (get_col_Some rm (ms 0) k0), bind_Ok by (done || lia). rewrite VERIFY_pass; [by apply column_spec |].
    assert (rc_size k0 <= 8 * pcnt).
    { destruct (Z.lt_ge_cases (ms 0) fdc).
      - destruct (ok_par _ _ Hok (ms 0) k0); [lia | done | lia].
      - destruct (ok_data _ _ Hok (ms 0) k0) as (? & _); [lia | done | lia]. }
    destruct (Z.ltb_spec 0 i); [by rewrite orb_true_r |]. rewrite Hfull by lia. lia.
  - intros dst (Hl & Hb). apply (for_range_inv _ _ _ _ stored); [lia | |].
    + exists (rm_col rm). split; [by destruct rm |]. split; [done |]. intros c kc Hc. exists (rc_data kc).
      split; [by rewrite Hc; destruct kc |]. right. split; [lia | done].
    + intros j rm' Hj Hst. rewrite (at_Ok _ _ _ (proj1 (sp_missing j Hj))), bind_Ok by lia.
      destruct (Hb j Hj) as (kd & d & Hkd & Hd & HB). rewrite Hd. cbn [deref]. rewrite bind_Ok.
      assert (rm_firstdatacol rm' = fdc) as -> by (by destruct Hst as (? & -> & _)).
      eapply stored_step; [done | exact Hkd | by apply buf_restored | done].
Qed.
End rebuild.
