(* ===== verification/RaidzChoice.v ===== *)
(** * Which columns are rebuilt, from which

    [vdev_raidz_reconstruct] classifies the columns, and chooses a method;
    the general method picks the parity columns to use. *)
From stdpp Require Import sorting.
From S2P Require Import Prelude Bytes Gf256 Raidz RaidzSpec RaidzRec RaidzInv RaidzGen.
Local Open Scope Z_scope.

(** ** Rising lists *)
Definition rising (l : list Z) : Prop := StronglySorted Z.lt l.

Lemma rising_lookup l i j x y : rising l -> l !! i = Some x -> l !! j = Some y -> (i < j)%nat -> x < y.
Proof.
  intros Hl. revert i j. induction Hl as [| a l Hl IH Ha]; intros i j Hi Hj Hij; [done |].
  destruct j as [| j]; [lia |]. simpl in Hj. destruct i as [| i].
  - injection Hi as <-. rewrite Forall_forall in Ha. apply Ha. by eapply list_elem_of_lookup_2.
  - eapply IH; [exact Hi | exact Hj | lia].
Qed.

Lemma rising_NoDup l : rising l -> NoDup l.
Proof.
  induction 1 as [| a l Hl IH Ha]; constructor; [| done]. intros Hin. rewrite Forall_forall in Ha. specialize (Ha a Hin). lia.
Qed.

Lemma rising_filter (P : Z -> Prop) `{!forall x, Decision (P x)} l : rising l -> rising (filter P l).
Proof.
  induction 1 as [| a l Hl IH Ha]; [constructor |]. rewrite filter_cons. case_decide; [| done]. constructor; [done |].
  rewrite Forall_forall in *. intros x Hx. apply Ha. by apply list_elem_of_filter in Hx as (_ & ?).
Qed.

Lemma seqZ_cons' a n : 0 < n -> seqZ a n = a :: seqZ (a + 1) (n - 1).
Proof. intros Hn. rewrite seqZ_cons by lia. do 2 f_equal; lia. Qed.

Lemma rising_seqZ a n : rising (seqZ a n).
Proof.
  destruct (Z.le_ge_cases n 0) as [Hn | Hn]; [rewrite seqZ_nil by lia; constructor |].
  revert a. pattern n. apply natlike_ind; [constructor | | done]. clear n Hn. intros n Hn IH a.
  rewrite seqZ_cons' by lia. replace (Z.succ n - 1) with n by lia. constructor; [apply IH |].
  apply Forall_forall. intros x Hx. apply elem_of_seqZ in Hx. lia.
Qed.

Lemma rising_take m l : rising l -> rising (take m l).
Proof.
  intros Hl. revert m. induction Hl as [| a l Hl IH Ha]; intros [| m]; simpl; try constructor; [apply IH |].
  by apply Forall_take.
Qed.

Lemma filter_keep (P : Z -> Prop) `{!forall x, Decision (P x)} l : Forall P l -> filter P l = l.
Proof. induction 1 as [| x l Hx Hl IH]; [done |]. by rewrite filter_cons, decide_True, IH. Qed.
Lemma filter_drop (P : Z -> Prop) `{!forall x, Decision (P x)} l : Forall (fun x => ~ P x) l -> filter P l = [].
Proof. induction 1 as [| x l Hx Hl IH]; [done |]. by rewrite filter_cons, decide_False. Qed.

Lemma filter_same (P Q : Z -> Prop) `{!forall x, Decision (P x), !forall x, Decision (Q x)} (l : list Z) :
  (forall x, x ∈ l -> P x <-> Q x) -> filter P l = filter Q l.
Proof.
  induction l as [| x l IH]; intros Hpq; [done |]. rewrite !filter_cons, IH by (intros; apply Hpq; by right).
  pose proof (Hpq x ltac:(left)). by destruct (decide (P x)), (decide (Q x)); try tauto.
Qed.

Lemma filter_length (bad : Z -> bool) l :
  (length (filter (fun x => bad x = true) l) + length (filter (fun x => bad x = false) l) = length l)%nat.
Proof.
  induction l as [| x l IH]; [done |]. rewrite !filter_cons. destruct (bad x) eqn:E.
  - rewrite decide_True, decide_False by congruence. simpl. lia.
  - rewrite decide_False, decide_True by congruence. simpl. lia.
Qed.

(** The element at a position. *)
Definition mth (l : list Z) (i : Z) : Z := nth (Z.to_nat i) l 0.

Lemma mth_lookup l i : 0 <= i < Z.of_nat (length l) -> l !! Z.to_nat i = Some (mth l i).
Proof.
  intros Hi. destruct (lookup_lt_is_Some_2 l (Z.to_nat i)) as (x & E); [lia |]. rewrite E. f_equal. symmetry.
  unfold mth. by apply nth_lookup_Some.
Qed.

Lemma mth_elem l i : 0 <= i < Z.of_nat (length l) -> mth l i ∈ l.
Proof. intros Hi. eapply list_elem_of_lookup_2. by apply mth_lookup. Qed.

Lemma elem_mth l x : x ∈ l -> exists i, 0 <= i < Z.of_nat (length l) /\ mth l i = x.
Proof.
  intros Hx. apply list_elem_of_lookup_1 in Hx as (i & Hi). pose proof (lookup_lt_Some _ _ _ Hi). exists (Z.of_nat i).
  split; [lia |]. unfold mth. rewrite Nat2Z.id. by apply nth_lookup_Some.
Qed.

Lemma mth_rising l i j : rising l -> 0 <= i < j -> j < Z.of_nat (length l) -> mth l i < mth l j.
Proof. intros Hl Hi Hj. eapply rising_lookup; [exact Hl | apply mth_lookup; lia | apply mth_lookup; lia | lia]. Qed.

(** ** The columns of the general method *)
Section columns.
Context (bad : Z -> bool) (fdc cols : Z) (Hfdc : 0 <= fdc <= 3) (Hcols : fdc < cols) (Hn : cols - fdc <= 255).

Definition bads (a n : Z) : list Z := filter (fun x => bad x = true) (seqZ a n).
Definition goods (a n : Z) : list Z := filter (fun x => bad x = false) (seqZ a n).

Lemma elem_bads a n x : x ∈ bads a n <-> bad x = true /\ a <= x < a + n.
Proof. unfold bads. by rewrite list_elem_of_filter, elem_of_seqZ. Qed.
Lemma elem_goods a n x : x ∈ goods a n <-> bad x = false /\ a <= x < a + n.
Proof. unfold goods. by rewrite list_elem_of_filter, elem_of_seqZ. Qed.

Lemma bads_cons a n : 0 < n -> bads a n = if bad a then a :: bads (a + 1) (n - 1) else bads (a + 1) (n - 1).
Proof.
  intros Hpos. unfold bads. rewrite seqZ_cons' by done. rewrite filter_cons.
  by destruct (bad a); [rewrite decide_True | rewrite decide_False].
Qed.
Lemma goods_cons a n : 0 < n -> goods a n = if bad a then goods (a + 1) (n - 1) else a :: goods (a + 1) (n - 1).
Proof.
  intros Hpos. unfold goods. rewrite seqZ_cons' by done. rewrite filter_cons.
  by destruct (bad a); [rewrite decide_False | rewrite decide_True].
Qed.

Lemma bads_split : bads 0 cols = bads 0 fdc ++ bads fdc (cols - fdc).
Proof.
  unfold bads. rewrite <- filter_app. f_equal. replace cols with (fdc + (cols - fdc)) at 1 by lia.
  by rewrite seqZ_app by lia.
Qed.

Lemma bads_data : filter (fun t => fdc <= t) (bads 0 cols) = bads fdc (cols - fdc).
Proof.
  rewrite bads_split, filter_app. rewrite (filter_drop _ (bads 0 fdc)), (filter_keep _ (bads fdc _)).
  - done.
  - apply Forall_forall. intros x Hx. apply elem_bads in Hx. lia.
  - apply Forall_forall. intros x Hx. apply elem_bads in Hx. lia.
Qed.

(** The parity columns that are picked, and the code that names them. *)
Definition names (l : list Z) (code code' : Z) : Prop :=
  0 <= code' /\ forall i, 0 <= i -> Z.testbit code' i = Z.testbit code i || bool_decide (i ∈ l).

Lemma pick_parity_spec fuel c k code :
  0 <= c -> 0 <= code -> 0 < Z.of_nat (length (bads fdc (cols - fdc))) -> (k <= length (goods c (fdc - c)))%nat ->
  (Z.to_nat (fdc - c) < fuel)%nat ->
  exists code', pick_parity fuel fdc c (bads c (cols - c)) k code = Ok (take k (goods c (fdc - c)), code') /\
    names (take k (goods c (fdc - c))) code code'.
Proof.
  intros Hc Hcode Hbad. revert c k code Hc Hcode. induction fuel as [| f IH]; intros c k code Hc Hcode Hk Hf; [lia |].
  destruct k as [| k]; [exists code; split; [done |]; split; [done |]; intros; by rewrite orb_false_r |].
  assert (Hlt : c < fdc).
  { destruct (Z.lt_ge_cases c fdc); [done |]. unfold goods in Hk. rewrite seqZ_nil in Hk by lia. simpl in Hk. lia. }
  assert (Hne : exists t ts, bads c (cols - c) = t :: ts /\ (bad c = false -> t <> c)).
  { destruct (bads c (cols - c)) as [| t ts] eqn:E.
    - destruct (bads fdc (cols - fdc)) as [| y ys] eqn:E'; [simpl in Hbad; lia |].
      assert (Hy : y ∈ bads fdc (cols - fdc)) by (rewrite E'; left). apply elem_bads in Hy.
      assert (Hy' : y ∈ bads c (cols - c)) by (apply elem_bads; lia). rewrite E in Hy'. by apply not_elem_of_nil in Hy'.
    - exists t, ts. split; [done |]. assert (Ht : t ∈ bads c (cols - c)) by (rewrite E; left). apply elem_bads in Ht.
      intros Hg ->. destruct Ht. congruence. }
  cbn [pick_parity]. destruct Hne as (t & ts & E & Ht). rewrite E. cbn [lookup list_lookup deref tail].
  rewrite bind_Ok, VERIFY_pass by lia. rewrite goods_cons in Hk |- * by lia. rewrite bads_cons in E by lia.
  replace (cols - c - 1) with (cols - (c + 1)) in E by lia. replace (fdc - c - 1) with (fdc - (c + 1)) in * by lia.
  destruct (bad c) eqn:Eb.
  - injection E as <- <-. rewrite Z.eqb_refl. apply IH; lia.
  - rewrite (proj2 (Z.eqb_neq c t)) by (intros ->; by apply Ht). rewrite <- E. simpl in Hk.
    destruct (IH (c + 1) k (Z.lor code (Z.shiftl 1 c))) as (code' & Ep & Hc' & Hb); [lia | | lia | lia |].
    { apply Z.lor_nonneg. split; [done |]. apply Z.shiftl_nonneg. lia. }
    exists code'. rewrite Ep, bind_Ok. split; [done |]. split; [done |]. intros i Hi. cbn [take]. rewrite Hb by done.
    rewrite Z.lor_spec, Z.shiftl_1_l, Z.pow2_bits_eqb by done. rewrite <- orb_assoc. f_equal.
    destruct (Z.eqb_spec c i) as [-> | Hci].
    + cbn [orb]. symmetry. apply bool_decide_eq_true_2. left.
    + cbn [orb]. apply bool_decide_ext. rewrite elem_of_cons. split; [by right | intros [-> | ?]; done].
Qed.

Lemma used_data_spec fuel c : fdc <= c -> (Z.to_nat (cols - c) <= fuel)%nat ->
  used_data fuel fdc cols c (map (fun t => t - fdc) (bads c (cols - c))) = goods c (cols - c).
Proof.
  revert c. induction fuel as [| f IH]; intros c Hc Hf.
  - unfold goods. rewrite seqZ_nil by lia. done.
  - cbn [used_data]. destruct (Z.leb_spec cols c); [unfold goods; by rewrite seqZ_nil by lia |].
    rewrite bads_cons, goods_cons by lia. replace (cols - c - 1) with (cols - (c + 1)) by lia.
    destruct (bad c) eqn:Eb; cbn [map].
    + rewrite (proj2 (Z.eqb_eq c (c - fdc + fdc))) by lia. apply IH; lia.
    + rewrite <- (IH (c + 1)) by lia. destruct (bads (c + 1) (cols - (c + 1))) as [| t ts] eqn:E; cbn [map]; [done |].
      assert (Ht : t ∈ bads (c + 1) (cols - (c + 1))) by (rewrite E; left). apply elem_bads in Ht.
      by rewrite (proj2 (Z.eqb_neq c _)) by lia.
Qed.

(** The missing columns and those in use, as the elimination wants them. *)
Definition nbad : nat := length (bads fdc (cols - fdc)).
Definition missing : list Z := map (fun t => t - fdc) (bads fdc (cols - fdc)).
Definition picked : list Z := take nbad (goods 0 fdc).
Definition used : list Z := picked ++ goods fdc (cols - fdc).

Lemma picked_good c : c ∈ picked -> 0 <= c < fdc /\ bad c = false.
Proof using. clear Hfdc Hcols Hn. intros Hc. assert (Hg : c ∈ goods 0 fdc) by (by eapply subseteq_take). apply elem_goods in Hg. split; [lia | tauto]. Qed.

Lemma lengths : (length (bads 0 fdc) + length (goods 0 fdc) = Z.to_nat fdc)%nat /\
  (nbad + length (goods fdc (cols - fdc)) = Z.to_nat (cols - fdc))%nat.
Proof. unfold nbad, bads, goods. rewrite !filter_length, !length_seqZ. lia. Qed.

Lemma missing_mth i : 0 <= i < Z.of_nat nbad -> mth missing i = mth (bads fdc (cols - fdc)) i - fdc.
Proof.
  intros Hi. unfold mth at 1, missing. apply nth_lookup_Some.
  by rewrite list_lookup_fmap, mth_lookup by (unfold nbad in Hi; lia).
Qed.

Section split.
Context (Hone : (1 <= length (bads fdc (cols - fdc)))%nat)
  (Hfew : Z.of_nat (length (bads 0 fdc)) + Z.of_nat (length (bads fdc (cols - fdc))) <= fdc).

Lemma used_parity j : 0 <= j < Z.of_nat nbad -> mth used j = mth (goods 0 fdc) j.
Proof.
  intros Hj. destruct lengths. unfold used, picked, mth. rewrite app_nth1 by (rewrite length_take; unfold nbad in *; lia).
  rewrite <- (take_drop nbad (goods 0 fdc)) at 2. by rewrite app_nth1 by (rewrite length_take; unfold nbad in *; lia).
Qed.

Lemma used_goods j : Z.of_nat nbad <= j -> mth used j = mth (goods fdc (cols - fdc)) (j - Z.of_nat nbad).
Proof.
  intros Hj. destruct lengths. unfold used, picked, mth. rewrite app_nth2 by (rewrite length_take; lia).
  f_equal. rewrite length_take. unfold nbad in *. lia.
Qed.

Lemma used_picked j : 0 <= j < Z.of_nat nbad -> mth used j ∈ picked.
Proof.
  intros Hj. destruct lengths. assert (Hl : length picked = nbad) by (unfold picked; rewrite length_take; unfold nbad in *; lia).
  unfold used, mth. rewrite app_nth1 by lia. apply mth_elem. lia.
Qed.

Lemma split_ok : split_cols fdc (cols - fdc) (Z.of_nat nbad) missing used (mth missing) (mth used).
Proof.
  destruct lengths as (L0 & L1). assert (Hm : length missing = nbad) by (unfold missing, nbad; by rewrite length_map).
  assert (Hu : length used = Z.to_nat (cols - fdc)) by (unfold used, picked; rewrite length_app, length_take; unfold nbad in *; lia).
  assert (Hgp : rising (goods 0 fdc)) by apply rising_filter, rising_seqZ.
  assert (Hgd : rising (goods fdc (cols - fdc))) by apply rising_filter, rising_seqZ.
  assert (Hbd : rising (bads fdc (cols - fdc))) by apply rising_filter, rising_seqZ.
  assert (Hmiss : forall i, 0 <= i < Z.of_nat nbad -> bad (mth missing i + fdc) = true /\ 0 <= mth missing i < cols - fdc).
  { intros i Hi. rewrite missing_mth by done. pose proof (mth_elem (bads fdc (cols - fdc)) i) as He.
    rewrite elem_bads in He. replace (_ - fdc + fdc) with (mth (bads fdc (cols - fdc)) i) by lia. unfold nbad in Hi. split; [tauto | lia]. }
  assert (Hdata : forall j, Z.of_nat nbad <= j < cols - fdc -> bad (mth used j) = false /\ fdc <= mth used j < cols).
  { intros j Hj. rewrite used_goods by lia. pose proof (mth_elem (goods fdc (cols - fdc)) (j - Z.of_nat nbad)) as He.
    rewrite elem_goods in He. split; [apply He; lia | lia]. }
  split.
  - done.
  - lia.
  - unfold nbad in *. lia.
  - intros i Hi. split; [apply mth_lookup; lia | by apply Hmiss].
  - intros i j Hij Hj. rewrite !missing_mth by lia. enough (mth (bads fdc (cols - fdc)) i < mth (bads fdc (cols - fdc)) j) by lia.
    apply mth_rising; [done | done | unfold nbad in Hj; lia].
  - intros j Hj. apply mth_lookup. lia.
  - intros j Hj. rewrite used_parity by done. pose proof (mth_elem (goods 0 fdc) j) as He. rewrite elem_goods in He.
    unfold nbad in *. lia.
  - intros i j Hij Hj. rewrite !used_parity by lia. apply mth_rising; [done | done | unfold nbad in *; lia].
  - intros j Hj. pose proof (Hdata j Hj). lia.
  - intros i j Hi Hj E. rewrite !used_goods in E by lia.
    destruct (Z.lt_trichotomy i j) as [Hlt | [? | Hlt]]; [| done |].
    + pose proof (mth_rising (goods fdc (cols - fdc)) (i - Z.of_nat nbad) (j - Z.of_nat nbad) Hgd). lia.
    + pose proof (mth_rising (goods fdc (cols - fdc)) (j - Z.of_nat nbad) (i - Z.of_nat nbad) Hgd). lia.
  - intros i j Hi Hj E. destruct (Hmiss i Hi) as (Hb & _). destruct (Hdata j Hj) as (Hg & _).
    replace (mth missing i + fdc) with (mth used j) in Hb by lia. congruence.
  - intros x Hx. destruct (bad (x + fdc)) eqn:Eb.
    + left. destruct (elem_mth (bads fdc (cols - fdc)) (x + fdc)) as (i & Hi & E); [apply elem_bads; lia |].
      exists i. split; [unfold nbad; lia |]. rewrite missing_mth by (unfold nbad; lia). lia.
    + right. destruct (elem_mth (goods fdc (cols - fdc)) (x + fdc)) as (i & Hi & E); [apply elem_goods; lia |].
      exists (i + Z.of_nat nbad). split; [lia |]. rewrite used_goods by lia. replace (i + _ - _) with i by lia. lia.
Qed.
End split.
End columns.

(** ** The methods *)
Section methods.
Context (rm : raidz_map) (pcnt : Z) (Hok : rz_ok rm pcnt) (D : Z -> Z -> Z) (HD : forall c j, is_byte (D c j)).
Notation fdc := (rm_firstdatacol rm).
Notation cols := (rm_cols rm).
Notation n := (rm_cols rm - rm_firstdatacol rm).
Context (H255 : cols <= 255) (bad : Z -> bool).
Context (Hpar : forall c, c ∈ picked bad fdc cols -> exists kp, parity_valid rm pcnt D (Z.to_nat c) kp).
Context (Hgood : forall c j, fdc <= c < cols -> bad c = false -> dbyte rm c j = D c j).
Context (Hone : (1 <= length (bads bad fdc n))%nat)
  (Hfew : Z.of_nat (length (bads bad 0 fdc)) + Z.of_nat (length (bads bad fdc n)) <= fdc).

(** [rm'] is [rm] with the bad data columns rebuilt. *)
Definition recovered (rm' : raidz_map) : Prop :=
  exists l, rm' = set_cols rm l /\ length l = length (rm_col rm) /\
  forall c kc, rm_col rm !! c = Some kc -> exists d, l !! c = Some (with_data kc d) /\
    if bool_decide (Z.of_nat c ∈ bads bad fdc n) then restored D (Z.of_nat c) kc d else d = rc_data kc.

(** The code tells which parity columns were used: good ones, as many as
    there are columns to rebuild. *)
Definition used_code (code : Z) : Prop :=
  exists l, names l 0 code /\ rising l /\ length l = length (bads bad fdc n) /\ Forall (fun c => 0 <= c < fdc /\ bad c = false) l.

Lemma code_range l code : names l 0 code -> l <> [] -> Forall (fun c => 0 <= c < 3) l -> 0 < code < 8.
Proof.
  intros (H0 & Hb) Hne Hl. destruct l as [| x l]; [done |]. apply Forall_cons in Hl as Hx. destruct Hx as (Hx & _). split.
  - destruct (Z.eq_dec code 0) as [-> | ?]; [| lia]. specialize (Hb x ltac:(lia)). rewrite Z.bits_0 in Hb.
    symmetry in Hb. cbn [orb] in Hb. apply bool_decide_eq_false in Hb. destruct Hb. left.
  - destruct (Z.lt_ge_cases code 8) as [| Hge]; [done |]. exfalso. assert (Hlog : 3 <= Z.log2 code) by (apply Z.log2_le_pow2; lia).
    specialize (Hb (Z.log2 code) ltac:(lia)). rewrite Z.bit_log2, Z.bits_0 in Hb by lia. cbn [orb] in Hb. symmetry in Hb.
    apply bool_decide_eq_true in Hb. rewrite Forall_forall in Hl. specialize (Hl _ Hb). simpl in Hl. lia.
Qed.

Lemma picked_ok l code : names l 0 code -> l = take (length (bads bad fdc n)) (goods bad 0 fdc) -> used_code code /\ 0 < code < 8.
Proof.
  intros Hn El. pose proof (ok_np _ _ Hok). pose proof (ok_cols _ _ Hok).
  destruct (lengths bad fdc cols) as (L & _); [lia .. |]. unfold nbad in L.
  assert (Hlen : length l = length (bads bad fdc n)) by (rewrite El, length_take; lia).
  assert (Hall : Forall (fun c => 0 <= c < fdc /\ bad c = false) l).
  { rewrite El. apply Forall_take, Forall_forall. intros x Hx. apply elem_goods in Hx. split; [lia | tauto]. }
  split; [exists l; split_and!; [done | | done | done] |].
  - rewrite El. apply rising_take, rising_filter, rising_seqZ.
  - apply (code_range l); [done | intros E; rewrite E in Hlen; simpl in Hlen; lia |]. eapply Forall_impl; [exact Hall |]. simpl. lia.
Qed.

Lemma general_spec :
  runs (vdev_raidz_reconstruct_general rm (bads bad 0 cols)) (fun '(rm', code) => recovered rm' /\ used_code code /\ 0 < code < 8).
Proof.
  pose proof (ok_np _ _ Hok) as Hnp. pose proof (ok_cols _ _ Hok) as Hc.
  pose proof (split_ok bad fdc cols ltac:(lia) ltac:(lia) ltac:(lia) Hone Hfew) as Hsp. pose proof Hsp as [].
  destruct (lengths bad fdc cols) as (L0 & L1); [lia .. |].
  unfold vdev_raidz_reconstruct_general. rewrite bads_data by lia. fold (missing bad fdc cols).
  assert (Em : length (missing bad fdc cols) = nbad bad fdc cols) by (unfold missing; by rewrite length_map). rewrite Em.
  destruct (pick_parity_spec bad fdc cols ltac:(lia) (Z.to_nat fdc + 1) 0 (nbad bad fdc cols) 0) as (code & Ep & Hcode);
    [lia | lia | lia | rewrite Z.sub_0_r; unfold nbad in *; lia | lia |].
  rewrite (Z.sub_0_r fdc), (Z.sub_0_r cols) in Ep. rewrite Z.sub_0_r in Hcode. rewrite Ep, bind_Ok.
  destruct (picked_ok _ code Hcode eq_refl) as (Hu & Hr). rewrite !VERIFY_pass by (change (Z.shiftl 1 VDEV_RAIDZ_MAXPARITY) with 8; lia).
  assert (Eu : used_data (Z.to_nat cols) fdc cols fdc (missing bad fdc cols) = goods bad fdc n)
    by (apply used_data_spec; lia). rewrite Eu. fold (picked bad fdc cols) (used bad fdc cols).
  assert (Hlu : Z.of_nat (length (used bad fdc cols)) = n).
  { unfold used, picked. rewrite length_app, length_take. unfold nbad in *. lia. }
  rewrite VERIFY_pass by lia.
  pose proof (mat_zero (nbad bad fdc cols) (Z.to_nat n)) as Hz. rewrite Z2Nat.id in Hz by lia.
  eapply runs_bind; [eapply (matrix_init_spec rm n _ _ _ _ (mth (used bad fdc cols))); [done | lia | lia | | exact Hz] |].
  - intros i Hi. split; [| pose proof (sp_parity i Hi); lia]. rewrite used_parity by (done || lia).
    unfold picked. rewrite lookup_take_lt by lia. apply mth_lookup. unfold nbad in *. lia.
  - intros rows Hrows. eapply runs_bind; [eapply (matrix_invert_spec rm n _ _ _ _ _ eq_refl Hsp); [exact Hrows | exact Hz] |].
    intros (rows', invrows) Hinv.
    eapply runs_bind; [eapply (matrix_reconstruct_spec rm pcnt Hok D HD n _ _ _ _ _ eq_refl Hsp); [| | exact Hinv] |].
    + intros i Hi. apply Hpar. apply used_picked; (done || lia).
    + intros j x Hj. apply Hgood; [pose proof (sp_data j Hj); lia |]. rewrite used_goods by (done || lia).
      apply (elem_goods bad fdc n), mth_elem. lia.
    + intros rm' (l & -> & Hl & Hst). cbn [runs]. split; [| done]. exists l. split; [done |]. split; [done |].
      intros c kc Hk. destruct (Hst c kc Hk) as (d & Ed & Hd). exists d. split; [done |].
      destruct Hd as [(r & Hr' & E & Hd) | (Hno & ->)].
      * rewrite bool_decide_true; [done |]. rewrite missing_mth in E by done. rewrite E. rewrite Z.sub_add.
        apply mth_elem. unfold nbad in *. lia.
      * rewrite bool_decide_false; [done |]. intros Hin. apply elem_mth in Hin as (i & Hi & E).
        apply (Hno i); [unfold nbad; lia |]. rewrite missing_mth by (unfold nbad; lia). lia.
Qed.
End methods.

(** ** The classification of the columns *)
Definition col_error (rm : raidz_map) (c : Z) : Z :=
  match rm_col rm !! Z.to_nat c with Some k => rc_error k | None => 0 end.
(** Asked for, or in error. *)
Definition is_bad (rm : raidz_map) (t : list Z) (c : Z) : bool := bool_decide (c ∈ t) || negb (col_error rm c =? 0).

Lemma ascending_rising t : ascending t = true -> rising t.
Proof.
  induction t as [| x [| y l] IH]; intros H; [constructor | constructor; [constructor | done] |].
  cbn [ascending] in H. apply andb_prop in H as (Hxy & H). specialize (IH H). constructor; [done |].
  constructor; [lia |]. apply StronglySorted_inv in IH as (_ & Hl). eapply Forall_impl; [exact Hl |]. simpl. lia.
Qed.

Lemma goods_trim (bad : Z -> bool) fdc c m : 0 <= m ->
  filter (fun x => bad x = false /\ x < fdc) (seqZ c m) = goods bad c (Z.min m (fdc - c)).
Proof.
  intros Hm. revert c. pattern m. apply natlike_ind; [| | done]; clear m Hm.
  - intros c. unfold goods. by rewrite !seqZ_nil by lia.
  - intros m Hm IH c. rewrite seqZ_cons', filter_cons by lia. replace (Z.succ m - 1) with m by lia. rewrite IH.
    destruct (Z.lt_ge_cases c fdc) as [Hlt | Hge].
    + rewrite (goods_cons bad c (Z.min (Z.succ m) (fdc - c))) by lia.
      replace (Z.min (Z.succ m) (fdc - c) - 1) with (Z.min m (fdc - (c + 1))) by lia.
      destruct (bad c) eqn:E; [rewrite decide_False by (intros (? & ?); congruence) | rewrite decide_True by done]; done.
    + rewrite decide_False by lia. unfold goods. by rewrite !seqZ_nil by lia.
Qed.

Lemma classify_spec fdc (E : Z -> Z) l c t :
  rising t -> Forall (fun u => c <= u) t -> (forall i k, l !! i = Some k -> E (c + Z.of_nat i) = rc_error k) ->
  let bad x := bool_decide (x ∈ t) || negb (E x =? 0) in
  classify fdc c t l = (bads bad c (Z.of_nat (length l)), filter (fun x => bad x = false /\ x < fdc) (seqZ c (Z.of_nat (length l)))).
Proof.
  revert c t. induction l as [| k l IH]; intros c t Ht Hge HE bad; [done |]. cbn [length].
  rewrite Nat2Z.inj_succ. set (m := Z.of_nat (length l)). rewrite bads_cons, seqZ_cons', filter_cons by lia.
  replace (Z.succ m - 1) with m by lia. cbn [classify].
  set (p := match t with [] => (false, []) | u :: us => if c =? u then (true, us) else (false, t) end).
  assert (Hp : fst p = bool_decide (c ∈ t) /\ rising (snd p) /\ Forall (fun u => c + 1 <= u) (snd p) /\
    forall x, c + 1 <= x -> (x ∈ snd p <-> x ∈ t)).
  { unfold p. destruct t as [| u us]; [split_and!; [done | constructor | constructor | done] |].
    apply StronglySorted_inv in Ht as Hs. destruct Hs as (Hus & Hu). apply Forall_cons in Hge as (Hcu & _).
    destruct (Z.eqb_spec c u) as [-> | Hne]; simpl.
    - split_and!; [symmetry; apply bool_decide_eq_true_2; left | done | eapply Forall_impl; [exact Hu | simpl; lia] |].
      intros x Hx. rewrite elem_of_cons. split; [by right | intros [-> | ?]; [lia | done]].
    - split_and!; [| done | | done].
      + symmetry. apply bool_decide_eq_false_2. intros Hin. apply elem_of_cons in Hin as [? | Hin]; [lia |].
        rewrite Forall_forall in Hu. specialize (Hu _ Hin). lia.
      + constructor; [lia |]. eapply Forall_impl; [exact Hu | simpl; lia]. }
  destruct p as (asked, t'). simpl in Hp. destruct Hp as (Ea & Ht' & Hge' & Hin).
  rewrite (IH (c + 1) t' Ht' Hge'). 2:{ intros i k' Hi. rewrite <- (HE (S i) k') by done. f_equal. lia. }
  assert (Hb : forall x, x ∈ seqZ (c + 1) m -> bool_decide (x ∈ t') || negb (E x =? 0) = bad x).
  { intros x Hx. apply elem_of_seqZ in Hx. unfold bad. f_equal. apply bool_decide_ext, Hin. lia. }
  assert (E0 : asked || negb (rc_error k =? 0) = bad c).
  { unfold bad. rewrite Ea. replace (E c) with (rc_error k); [done |]. rewrite <- (HE 0%nat k eq_refl). f_equal. lia. }
  assert (Hf1 : bads (fun x => bool_decide (x ∈ t') || negb (E x =? 0)) (c + 1) m = bads bad (c + 1) m)
    by (apply filter_same; intros x Hx; by rewrite Hb).
  assert (Hf2 : filter (fun x => bool_decide (x ∈ t') || negb (E x =? 0) = false /\ x < fdc) (seqZ (c + 1) m) =
    filter (fun x => bad x = false /\ x < fdc) (seqZ (c + 1) m))
    by (apply filter_same; intros x Hx; by rewrite Hb).
  fold m. rewrite Hf1, Hf2, E0. destruct (bad c) eqn:Eb.
  - by rewrite decide_False by (intros (? & ?); congruence).
  - destruct (Z.leb_spec fdc c); [by rewrite decide_False by lia | by rewrite decide_True].
Qed.

(** ** [vdev_raidz_reconstruct] *)
Section choice.
Context (rm : raidz_map) (pcnt : Z) (Hok : rz_ok rm pcnt) (D : Z -> Z -> Z) (HD : forall c j, is_byte (D c j)).
Notation fdc := (rm_firstdatacol rm).
Notation cols := (rm_cols rm).
Notation n := (rm_cols rm - rm_firstdatacol rm).
Context (H255 : cols <= 255) (t : list Z) (Hasc : ascending t = true) (Hrange : Forall (fun u => 0 <= u < cols) t).
Notation bad := (is_bad rm t).
Context (Hpar : forall c, c ∈ picked bad fdc cols -> exists kp, parity_valid rm pcnt D (Z.to_nat c) kp).
Context (Hgood : forall c j, fdc <= c < cols -> bad c = false -> dbyte rm c j = D c j).
Context (Hone : (1 <= length (bads bad fdc n))%nat)
  (Hfew : Z.of_nat (length (bads bad 0 fdc)) + Z.of_nat (length (bads bad fdc n)) <= fdc).

Lemma classify_cols : classify fdc 0 t (take (Z.to_nat cols) (rm_col rm)) = (bads bad 0 cols, goods bad 0 fdc).
Proof.
  destruct Hok. rewrite (classify_spec fdc (col_error rm)).
  - rewrite length_take, Nat.min_l, Z2Nat.id by lia. f_equal. rewrite goods_trim by lia. f_equal. lia.
  - by apply ascending_rising.
  - eapply Forall_impl; [exact Hrange |]. simpl. lia.
  - intros i k Hi. apply lookup_take_Some in Hi as (Hi & _). unfold col_error. by rewrite Z.add_0_l, Nat2Z.id, Hi.
Qed.

Lemma targets_enough : (length t <= length (bads bad 0 cols))%nat.
Proof.
  apply submseteq_length, NoDup_submseteq; [by apply rising_NoDup, ascending_rising |]. intros u Hu.
  apply elem_bads. split; [unfold is_bad; by rewrite bool_decide_eq_true_2 |].
  rewrite Forall_forall in Hrange. specialize (Hrange u Hu). lia.
Qed.

(** The results of the special methods. *)
Lemma recovered_one x kx d : bads bad fdc n = [x] -> rm_col rm !! Z.to_nat x = Some kx -> restored D x kx d ->
  recovered rm D bad (set_cols rm (<[Z.to_nat x := with_data kx d]> (rm_col rm))).
Proof.
  intros E Hk Hd. assert (Hx : 0 <= x).
  { destruct Hok. assert (Hin : x ∈ bads bad fdc n) by (rewrite E; left). apply elem_bads in Hin. lia. }
  eexists. split; [done |]. split; [apply length_insert |]. intros c kc Hc. rewrite E.
  destruct (decide (c = Z.to_nat x)) as [-> | Hne].
  - assert (kc = kx) as -> by congruence. exists d. rewrite list_lookup_insert_eq by (by eapply lookup_lt_Some).
    split; [done |]. rewrite Z2Nat.id by done. by rewrite bool_decide_eq_true_2 by left.
  - exists (rc_data kc). rewrite list_lookup_insert_ne, Hc by done. split; [by rewrite with_data_id |].
    rewrite bool_decide_eq_false_2; [done |]. intros Hin. apply list_elem_of_singleton in Hin. lia.
Qed.

Lemma recovered_two x y kx ky d e : x < y -> bads bad fdc n = [x; y] ->
  rm_col rm !! Z.to_nat x = Some kx -> rm_col rm !! Z.to_nat y = Some ky -> restored D x kx d -> restored D y ky e ->
  recovered rm D bad (set_cols rm (<[Z.to_nat y := with_data ky e]> (<[Z.to_nat x := with_data kx d]> (rm_col rm)))).
Proof.
  intros Hxy E Hkx Hky Hd He. assert (Hx : 0 <= x).
  { destruct Hok. assert (Hin : x ∈ bads bad fdc n) by (rewrite E; left). apply elem_bads in Hin. lia. }
  eexists. split; [done |]. split; [by rewrite !length_insert |]. intros c kc Hc. rewrite E.
  destruct (decide (c = Z.to_nat y)) as [-> | Hney]; [| destruct (decide (c = Z.to_nat x)) as [-> | Hnex]].
  - assert (kc = ky) as -> by congruence. exists e.
    rewrite list_lookup_insert_eq by (rewrite length_insert; by eapply lookup_lt_Some).
    split; [done |]. rewrite Z2Nat.id by lia. by rewrite bool_decide_eq_true_2 by (right; left).
  - assert (kc = kx) as -> by congruence. exists d. rewrite list_lookup_insert_ne by done.
    rewrite list_lookup_insert_eq by (by eapply lookup_lt_Some).
    split; [done |]. rewrite Z2Nat.id by lia. by rewrite bool_decide_eq_true_2 by left.
  - exists (rc_data kc). rewrite !list_lookup_insert_ne, Hc by done. split; [by rewrite with_data_id |].
    rewrite bool_decide_eq_false_2; [done |]. rewrite elem_of_cons, list_elem_of_singleton. lia.
Qed.

Lemma names_small l code : Forall (fun c => 0 <= c < 3) l ->
  forallb (fun i => Bool.eqb (Z.testbit code i) (bool_decide (i ∈ l))) [0; 1; 2] = true -> 0 <= code < 8 -> names l 0 code.
Proof.
  intros Hl Hc Hr. split; [lia |]. intros i Hi. rewrite Z.bits_0. cbn [orb]. simpl in Hc.
  apply andb_prop in Hc as (H0 & Hc). apply andb_prop in Hc as (H1 & Hc). apply andb_prop in Hc as (H2 & _).
  apply eqb_prop in H0, H1, H2. assert (i = 0 \/ i = 1 \/ i = 2 \/ 3 <= i) as [-> | [-> | [-> | Hbig]]] by lia; try done.
  rewrite bool_decide_eq_false_2 by (intros Hin; rewrite Forall_forall in Hl; specialize (Hl _ Hin); simpl in Hl; lia).
  destruct (Z.eq_dec code 0) as [-> | ?]; [apply Z.bits_0 |]. apply Z.bits_above_log2; [lia |].
  enough (Z.log2 code < 3) by lia. apply Z.log2_lt_pow2; lia.
Qed.

Context (zio_buf_alloc : Z -> list Z).
Context (Halloc : forall m, 0 <= m -> Z.of_nat (length (zio_buf_alloc m)) = m /\ Forall is_byte (zio_buf_alloc m)).
Context (Hfull : forall k, rm_col rm !! Z.to_nat fdc = Some k -> rc_size k = 8 * pcnt).
Context (Hpos : forall c k, fdc <= c < cols -> rm_col rm !! Z.to_nat c = Some k -> 0 < rc_size k).
Context (Hmono : forall c c' k k', fdc <= c < c' -> c' < cols -> rm_col rm !! Z.to_nat c = Some k ->
  rm_col rm !! Z.to_nat c' = Some k' -> rc_size k' <= rc_size k).

Definition outcome (r : raidz_map * Z) : Prop :=
  recovered rm D bad (fst r) /\ used_code rm bad (snd r) /\ 0 < snd r < 8.

Lemma general_checked :
  runs ('(rm', code) ← vdev_raidz_reconstruct_general rm (bads bad 0 cols) ;
        VERIFY (code <? Z.shiftl 1 VDEV_RAIDZ_MAXPARITY) ;; VERIFY (0 <? code) ;; Ok (rm', code)) outcome.
Proof.
  eapply runs_bind; [exact (general_spec rm pcnt Hok D HD H255 bad Hpar Hgood Hone Hfew) |].
  intros (rm', code) (Hrec & Hu & Hc). change (Z.shiftl 1 VDEV_RAIDZ_MAXPARITY) with 8. rewrite !VERIFY_pass by lia. done.
Qed.

(** The only bad column, from P or from Q. *)
Lemma single_facts x : bads bad fdc n = [x] -> exists kx, fdc <= x < cols /\ rm_col rm !! Z.to_nat x = Some kx /\
  forall c j, fdc <= c < cols -> c <> x -> dbyte rm c j = D c j.
Proof.
  intros E. assert (Hin : x ∈ bads bad fdc n) by (rewrite E; left). apply elem_bads in Hin. pose proof (ok_np _ _ Hok).
  destruct (ok_col _ _ x Hok) as (kx & Hk); [lia |]. exists kx. split; [lia |]. split; [done |].
  intros c j Hc Hne. apply Hgood; [done |]. destruct (bad c) eqn:Eb; [| done]. exfalso.
  assert (Hc' : c ∈ bads bad fdc n) by (apply elem_bads; split; [done | lia]). rewrite E in Hc'.
  apply list_elem_of_singleton in Hc'. done.
Qed.

Lemma used_code_of l code : length l = length (bads bad fdc n) -> rising l -> Forall (fun c => c ∈ goods bad 0 fdc) l ->
  forallb (fun i => Bool.eqb (Z.testbit code i) (bool_decide (i ∈ l))) [0; 1; 2] = true -> 0 <= code < 8 -> used_code rm bad code.
Proof.
  intros Hl Hr Hg Hc Hb. pose proof (ok_np _ _ Hok).
  assert (Hg' : Forall (fun c => 0 <= c < fdc /\ bad c = false) l).
  { eapply Forall_impl; [exact Hg |]. intros c Hin. apply elem_goods in Hin. split; [lia | tauto]. }
  exists l. split_and!; [| done | done | done]. apply names_small; [| done | done].
  eapply Forall_impl; [exact Hg' |]. simpl. lia.
Qed.

Lemma by_p x : bads bad fdc n = [x] -> 0 ∈ goods bad 0 fdc -> runs (vdev_raidz_reconstruct_p rm [x]) outcome.
Proof.
  intros E H0. apply elem_goods in H0 as H0'. destruct (single_facts x E) as (kx & Hx & Hk & Hg).
  destruct (Hpar 0) as (kp & Hp); [unfold picked, nbad; rewrite E, goods_cons, (proj1 H0') by lia; left |].
  eapply runs_impl; [exact (reconstruct_p_spec rm pcnt Hok D x kx Hx Hk Hg kp Hp (Hpos x kx Hx Hk)) |].
  intros (rm', code) (-> & d & -> & Hd). split; [by apply recovered_one |]. split; [| simpl; lia].
  apply (used_code_of [0]); simpl; [by rewrite E | repeat constructor | by constructor | by vm_compute | lia].
Qed.

Lemma by_q x : bads bad fdc n = [x] -> 0 ∉ goods bad 0 fdc -> 1 ∈ goods bad 0 fdc -> runs (vdev_raidz_reconstruct_q rm [x]) outcome.
Proof.
  intros E H0 H1. apply elem_goods in H1 as H1'. destruct (single_facts x E) as (kx & Hx & Hk & Hg).
  assert (Eb : bad 0 = true) by (destruct (bad 0) eqn:Eb; [done |]; destruct H0; apply elem_goods; split; [done | lia]).
  destruct (Hpar 1) as (kq & Hq); [unfold picked, nbad; rewrite E, goods_cons, Eb, goods_cons by lia; change (0 + 1) with 1; rewrite (proj1 H1'); left |].
  eapply runs_impl; [exact (reconstruct_q_spec rm pcnt Hok D HD x kx Hx Hk Hg kq Hq ltac:(lia)) |].
  intros (rm', code) (-> & d & -> & Hd). split; [by apply recovered_one |]. split; [| simpl; lia].
  apply (used_code_of [1]); simpl; [by rewrite E | repeat constructor | by constructor | by vm_compute | lia].
Qed.

Lemma by_pq x y : bads bad fdc n = [x; y] -> 0 ∈ goods bad 0 fdc -> 1 ∈ goods bad 0 fdc ->
  runs (vdev_raidz_reconstruct_pq zio_buf_alloc rm [x; y]) outcome.
Proof.
  intros E H0 H1. apply elem_goods in H0 as H0', H1 as H1'. pose proof (ok_np _ _ Hok).
  assert (Hx : x ∈ bads bad fdc n) by (rewrite E; left). assert (Hy : y ∈ bads bad fdc n) by (rewrite E; right; left).
  apply elem_bads in Hx, Hy.
  assert (Hxy : x < y). { assert (Hr : rising (bads bad fdc n)) by apply rising_filter, rising_seqZ. rewrite E in Hr.
    by apply (rising_lookup _ 0 1 x y) in Hr; [| done | done | lia]. }
  destruct (ok_col _ _ x Hok) as (kx & Hkx); [lia |]. destruct (ok_col _ _ y Hok) as (ky & Hky); [lia |].
  assert (Ep : picked bad fdc cols = [0; 1])
    by (unfold picked, nbad; rewrite E, goods_cons, (proj1 H0'), goods_cons by lia; change (0 + 1) with 1; by rewrite (proj1 H1')).
  destruct (Hpar 0) as (kp & Hp); [rewrite Ep; left |]. destruct (Hpar 1) as (kq & Hq); [rewrite Ep; right; left |].
  eapply runs_impl; [eapply (reconstruct_pq_spec rm pcnt Hok D HD x y kx ky Hxy) with (kp := kp) (kq := kq) |]; try done.
  - lia.
  - lia.
  - intros c j Hc Hnx Hny. apply Hgood; [done |]. destruct (bad c) eqn:Eb; [| done]. exfalso.
    assert (Hin : c ∈ bads bad fdc n) by (apply elem_bads; split; [done | lia]). rewrite E, elem_of_cons, list_elem_of_singleton in Hin. lia.
  - apply (Hmono x y); (done || lia).
  - intros (rm', code) (-> & xd & yd & -> & Hxd & Hyd). split; [by apply recovered_two |]. split; [| simpl; lia].
    apply (used_code_of [0; 1]); simpl; [by rewrite E | repeat constructor; lia | by repeat constructor | by vm_compute | lia].
Qed.

Lemma reconstruct_spec general : runs (vdev_raidz_reconstruct zio_buf_alloc general rm t) outcome.
Proof.
  pose proof (ok_np _ _ Hok) as Hnp. pose proof (ok_cols _ _ Hok) as Hcols. pose proof (ok_len _ _ Hok) as Hlen.
  destruct (lengths bad fdc cols) as (L0 & L1); [lia .. |]. unfold nbad in L1.
  pose proof (bads_split bad fdc cols ltac:(lia) ltac:(lia)) as Es. pose proof targets_enough as Ht.
  assert (El : length (bads bad 0 cols) = (length (bads bad 0 fdc) + length (bads bad fdc n))%nat) by (by rewrite Es, length_app).
  unfold vdev_raidz_reconstruct. rewrite !VERIFY_pass by (done || lia). rewrite classify_cols.
  rewrite bads_data by lia. do 3 rewrite VERIFY_pass by (unfold VDEV_RAIDZ_MAXPARITY; lia).
  replace (drop _ (bads bad 0 cols)) with (bads bad fdc n).
  2:{ rewrite Es. replace (Z.to_nat _) with (length (bads bad 0 fdc)) by lia. by rewrite drop_app_length. }
  pose proof general_checked as Hgen. destruct general; [exact Hgen |].
  assert (HP : forall c, 0 <= c < fdc -> c ∉ goods bad 0 fdc -> c ∈ bads bad 0 fdc).
  { intros c Hc Hn. apply elem_bads. destruct (bad c) eqn:Eb; [done |]. destruct Hn. apply elem_goods. done. }
  assert (Hlb : forall c, c ∈ bads bad 0 fdc -> 1 <= Z.of_nat (length (bads bad 0 fdc)))
    by (intros c Hc; destruct (bads bad 0 fdc); [by apply not_elem_of_nil in Hc | simpl; lia]).
  unfold VDEV_RAIDZ_P, VDEV_RAIDZ_Q. destruct (Z.eqb_spec (Z.of_nat (length (bads bad fdc n))) 1) as [E1 | E1].
  - assert (exists x, bads bad fdc n = [x]) as (x & E)
      by (destruct (bads bad fdc n) as [| x [| y l]]; simpl in E1; [lia | by exists x | lia]). rewrite E. cbn [take].
    destruct (bool_decide_reflect (0 ∈ goods bad 0 fdc)) as [H0 | H0]; [by apply by_p |].
    assert (Hb0 : 0 ∈ bads bad 0 fdc) by (apply HP; [lia | done]). pose proof (Hlb 0 Hb0).
    rewrite VERIFY_pass by lia. destruct (bool_decide_reflect (1 ∈ goods bad 0 fdc)) as [H1 | H1]; [by apply by_q |].
    assert (Hb1 : 1 ∈ bads bad 0 fdc) by (apply HP; [lia | done]). rewrite VERIFY_pass; [exact Hgen |].
    assert (2 <= length (bads bad 0 fdc))%nat; [| lia]. apply (submseteq_length [0; 1]), NoDup_submseteq.
    + repeat constructor; [rewrite list_elem_of_singleton; lia | apply not_elem_of_nil].
    + intros c Hc. rewrite elem_of_cons, list_elem_of_singleton in Hc. by destruct Hc as [-> | ->].
  - destruct (Z.eqb_spec (Z.of_nat (length (bads bad fdc n))) 2) as [E2 | E2]; [| exact Hgen].
    assert (exists x y, bads bad fdc n = [x; y]) as (x & y & E)
      by (destruct (bads bad fdc n) as [| x [| y [| z l]]]; simpl in E2; [lia | lia | by exists x, y | lia]). rewrite E. cbn [take].
    rewrite VERIFY_pass by lia.
    destruct (bool_decide_reflect (0 ∈ goods bad 0 fdc)) as [H0 | H0].
    + destruct (bool_decide_reflect (1 ∈ goods bad 0 fdc)) as [H1 | H1]; [by apply by_pq |].
      pose proof (Hlb 1 (HP 1 ltac:(lia) H1)). cbn [andb]. rewrite VERIFY_pass by lia. exact Hgen.
    + pose proof (Hlb 0 (HP 0 ltac:(lia) H0)). cbn [andb]. rewrite VERIFY_pass by lia. exact Hgen.
Qed.
End choice.
