(* ===== verification/RaidzMap.v ===== *)
(** * The geometry of RAID-Z maps

    [vdev_raidz_map_alloc] in closed form: for every I/O of a positive number
    of sectors none of its assertions fails, and the map it returns is
    written out column by column. *)
From S2P Require Import Prelude Bytes Gf256 Raidz RaidzSpec RaidzRec.
Local Open Scope Z_scope.

Lemma roundup_exact x y : 0 <= x -> 0 < y -> is_u64 (x + 2 * y) -> roundup x y = (x + (y - 1)) / y * y.
Proof.
  unfold is_u64. intros Hx Hy Hb. unfold roundup, howmany. rewrite (u64_small (x + (y - 1))) by (unfold is_u64; lia).
  apply u64_small. unfold is_u64. pose proof (Z.mul_div_le (x + (y - 1)) y Hy).
  pose proof (Z.div_pos (x + (y - 1)) y). nia.
Qed.

Lemma ceil_scale x y u : 0 < u -> 0 < y -> (x * u + (y * u - 1)) / (y * u) = (x + (y - 1)) / y.
Proof.
  intros Hu Hy. rewrite (Z.mul_comm y u), <- Z.div_div by lia. f_equal.
  replace (x * u + (u * y - 1)) with ((x + (y - 1)) * u + (u - 1)) by ring.
  rewrite Z.div_add_l, (Z.div_small (u - 1)) by lia. ring.
Qed.

Definition data_cols (rm : raidz_map) : list raidz_col :=
  take (Z.to_nat (rm_cols rm - rm_firstdatacol rm)) (drop (Z.to_nat (rm_firstdatacol rm)) (rm_col rm)).

Lemma map_seq_shift {A} (f : nat -> A) n k m :
  (n + k <= m)%nat -> take k (drop n (map f (seq 0 m))) = map (fun i => f (n + i)%nat) (seq 0 k).
Proof.
  intros H. apply list_eq. intros i. destruct (decide (i < k)%nat).
  - rewrite lookup_take_lt, lookup_drop, !list_lookup_fmap, !lookup_seq_lt by lia. done.
  - rewrite lookup_take_ge, list_lookup_fmap, lookup_seq_ge by lia. done.
Qed.

Lemma mod_shift_inj a w w' d : 0 <= w < d -> 0 <= w' < d -> (a + w) mod d = (a + w') mod d -> w = w'.
Proof.
  intros Hw Hw' E. pose proof (Z.div_mod (a + w) d). pose proof (Z.div_mod (a + w') d).
  assert ((a + w) / d = (a + w') / d \/ (a + w) / d < (a + w') / d \/ (a + w') / d < (a + w) / d) as [H1 | [H1 | H1]] by lia; nia.
Qed.

Section geometry.
Context (zio_buf_alloc : Z -> list Z) (io_offset s sh dcols np : Z) (io_data : list Z).
Notation U := (2 ^ sh).
Context (Hsh : 0 <= sh <= 31) (Hnp : 1 <= np <= 3) (Hdc : np < dcols <= 65536).
Context (Hoff : 0 <= io_offset < 2 ^ 63) (Hs : 0 < s) (Hio : s * U < 2 ^ 56).
Context (Hlen : Z.of_nat (length io_data) = s * U).

(** The first sector, the rows all columns have, the sectors left over. *)
Definition sec0 : Z := io_offset / U.
Definition quot : Z := s / (dcols - np).
Definition rem : Z := s mod (dcols - np).
Definition big : Z := if rem =? 0 then 0 else rem + np.
Definition total : Z := s + np * (quot + (if rem =? 0 then 0 else 1)).
Definition ncols : Z := if quot =? 0 then big else dcols.
Definition nscols : Z := if quot =? 0 then Z.min dcols ((big + np) / (np + 1) * (np + 1)) else dcols.
Definition nsectors : Z := (total + np) / (np + 1) * (np + 1).

(** The sectors of column [c] and of the columns before [c]. *)
Definition rows (c : Z) : Z := if ncols <=? c then 0 else if c <? big then quot + 1 else quot.
Definition rows_upto (c : Z) : Z := quot * Z.min c ncols + Z.min c big.

(** Column [c], on the device and at the row of sector [sec0 + w]. *)
Definition column (w c : Z) : raidz_col :=
  MkCol ((sec0 + w) mod dcols) ((sec0 + w) / dcols * U) (rows c * U)
    (if c <? np then zio_buf_alloc (rows c * U)
     else if c <? ncols then take (Z.to_nat (rows c * U)) (drop (Z.to_nat ((rows_upto c - rows_upto np) * U)) io_data)
     else [])
    0 false false.

(** Single-parity maps exchange the places of the first two columns in every
    other megabyte. *)
Definition swapped : bool := (np =? 1) && negb (Z.land io_offset (2 ^ 20) =? 0).
Definition place (c : Z) : Z := if swapped then (if c =? 0 then 1 else if c =? 1 then 0 else c) else c.

Definition geometry : raidz_map :=
  MkRm ncols nscols big (nsectors * U) 0 0 np (nsectors - total)
    (if swapped && (big =? 0) then 1 else big)
    (map (fun c => column (place (Z.of_nat c)) (Z.of_nat c)) (seq 0 (Z.to_nat nscols))).

(** ** Arithmetic *)
Lemma U_range : 1 <= U <= 2 ^ 31.
Proof. pose proof (Z.pow_pos_nonneg 2 sh). pose proof (Z.pow_le_mono_r 2 sh 31). lia. Qed.

Lemma s_split : s = quot * (dcols - np) + rem /\ 0 <= rem < dcols - np /\ 0 <= quot.
Proof.
  unfold quot, rem. pose proof (Z.div_mod s (dcols - np)). pose proof (Z.mod_pos_bound s (dcols - np)).
  pose proof (Z.div_pos s (dcols - np)). lia.
Qed.

Lemma shape :
  (quot = 0 /\ rem = s /\ big = s + np /\ ncols = s + np /\ total = s + np) \/
  (0 < quot /\ ncols = dcols /\ big <= dcols /\ (big = 0 \/ np < big)).
Proof.
  pose proof s_split as (E & Hr & Hq). unfold ncols, big, total. destruct (Z.eqb_spec quot 0) as [Eq | Hne].
  - left. rewrite Eq in E. destruct (Z.eqb_spec rem 0); lia.
  - right. destruct (Z.eqb_spec rem 0); lia.
Qed.

Lemma cols_bounds : np < ncols <= dcols /\ ncols <= nscols <= dcols /\ 0 <= big <= ncols.
Proof.
  pose proof s_split as (E & Hr & Hq). unfold nscols.
  destruct shape as [(E1 & E2 & E3 & E4 & E5) | (H1 & H2 & H3 & H4)].
  - rewrite E1. simpl. pose proof (Z.div_mod (big + np) (np + 1)). pose proof (Z.mod_pos_bound (big + np) (np + 1)).
    nia.
  - destruct (Z.eqb_spec quot 0); lia.
Qed.

Lemma total_split : quot * ncols + big = total.
Proof.
  pose proof s_split as (E & Hr & Hq). destruct shape as [(-> & E2 & -> & -> & ->) | (H1 & H2 & H3 & H4)]; [ring |].
  rewrite H2. unfold big, total in *. destruct (Z.eqb_spec rem 0); nia.
Qed.

Lemma total_range : s < total <= 7 * s.
Proof.
  pose proof s_split as (E & Hr & Hq). unfold total. assert (quot <= s) by nia.
  destruct (Z.eqb_spec rem 0); nia.
Qed.

Lemma nsectors_range : total <= nsectors <= total + np.
Proof.
  unfold nsectors. pose proof (Z.div_mod (total + np) (np + 1)). pose proof (Z.mod_pos_bound (total + np) (np + 1)). lia.
Qed.

Lemma rows_upto_0 : rows_upto 0 = 0.
Proof. pose proof cols_bounds. unfold rows_upto. rewrite !Z.min_l by lia. ring. Qed.

Lemma rows_upto_S c : 0 <= c -> rows_upto (c + 1) = rows_upto c + rows c.
Proof.
  intros Hc. pose proof cols_bounds. unfold rows_upto, rows.
  destruct (Z.leb_spec ncols c); [rewrite !Z.min_r by lia; ring |].
  rewrite !(Z.min_l _ ncols) by lia. destruct (Z.ltb_spec c big); [rewrite !Z.min_l | rewrite !Z.min_r]; lia.
Qed.

Lemma rows_upto_end c : ncols <= c -> rows_upto c = total.
Proof. intros H. pose proof cols_bounds. unfold rows_upto. rewrite !Z.min_r by lia. apply total_split. Qed.

Lemma rows_range c : 0 <= c -> 0 <= rows c <= total.
Proof.
  intros Hc. pose proof s_split as (E & Hr & Hq). pose proof total_split. pose proof cols_bounds.
  unfold rows. destruct (Z.leb_spec ncols c), (Z.ltb_spec c big); nia.
Qed.

Lemma rows_par c : 0 <= c <= np -> rows c = rows 0.
Proof.
  intros Hc. pose proof cols_bounds. unfold rows. rewrite !(proj2 (Z.leb_gt ncols _)) by lia.
  destruct shape as [(E1 & E2 & E3 & E4 & E5) | (H1 & H2 & H3 & H4)];
    destruct (Z.ltb_spec c big), (Z.ltb_spec 0 big); lia.
Qed.

Lemma rows_le c : 0 <= c -> rows c <= rows 0.
Proof.
  intros Hc. pose proof cols_bounds. pose proof s_split. unfold rows.
  destruct (Z.leb_spec ncols c), (Z.leb_spec ncols 0), (Z.ltb_spec c big), (Z.ltb_spec 0 big); lia.
Qed.

Lemma rows_upto_mono c c' : 0 <= c <= c' -> rows_upto c <= rows_upto c'.
Proof. pose proof s_split. unfold rows_upto. nia. Qed.

Lemma data_rows : total - rows_upto np = s.
Proof.
  pose proof cols_bounds. pose proof s_split as (E & Hr & Hq). unfold rows_upto.
  destruct shape as [(E1 & E2 & E3 & E4 & E5) | (H1 & H2 & H3 & H4)]; [lia |].
  rewrite <- total_split, H2. rewrite (Z.min_l np dcols) by lia. unfold big in *. destruct (Z.eqb_spec rem 0); nia.
Qed.

(** ** The loops *)
(** Column [c] before the buffers are attached. *)
Definition column0 (c : Z) : raidz_col :=
  MkCol ((sec0 + c) mod dcols) ((sec0 + c) / dcols * U) (rows c * U) [] 0 false false.

Lemma W64_val : W64 = 2 ^ 64.
Proof. done. Qed.

Lemma small_rows n : 0 <= n <= 8 * total -> is_u64 (n * U).
Proof. intros Hn. pose proof U_range. pose proof total_range. unfold is_u64. rewrite W64_val. nia. Qed.

Lemma sec0_range : 0 <= sec0 * U <= io_offset.
Proof.
  pose proof U_range. unfold sec0. pose proof (Z.mul_div_le io_offset U). pose proof (Z.div_pos io_offset U). nia.
Qed.

Lemma col_init c : 0 <= c < dcols ->
  raidz_col_init (sec0 mod dcols) (u64_shl (sec0 / dcols) sh) dcols sh ncols big quot c = column0 c.
Proof.
  intros Hc. pose proof U_range. pose proof sec0_range. pose proof s_split. pose proof total_split.
  pose proof cols_bounds. pose proof (Z.div_mod sec0 dcols). pose proof (Z.mod_pos_bound sec0 dcols).
  assert (Hd : 0 <= sec0 / dcols <= sec0) by (split; [apply Z.div_pos; nia | apply Z.div_le_upper_bound; nia]).
  assert (HW : W64 = 2 ^ 64) by done.
  unfold raidz_col_init, column0. rewrite (u64_add_small (sec0 mod dcols) c) by (unfold is_u64; lia).
  rewrite (u64_shl_small (sec0 / dcols)) by (unfold is_u64; nia).
  set (o := sec0 / dcols) in *. set (f := sec0 mod dcols) in *.
  assert (E : (sec0 + c) mod dcols = (if dcols <=? f + c then f + c - dcols else f + c) /\
              (sec0 + c) / dcols = (if dcols <=? f + c then o + 1 else o)).
  { destruct (Z.leb_spec dcols (f + c)).
    - split; symmetry; [apply (Z.mod_unique _ _ (o + 1)) | apply (Z.div_unique _ _ _ (f + c - dcols))]; lia.
    - split; symmetry; [apply (Z.mod_unique _ _ o) | apply (Z.div_unique _ _ _ (f + c))]; lia. }
  destruct E as (-> & ->). f_equal.
  - destruct (Z.leb_spec dcols (f + c)); [apply u64_sub_small; unfold is_u64; lia | done].
  - destruct (Z.leb_spec dcols (f + c)); [| done]. rewrite u64_shl_1 by lia.
    rewrite u64_add_small by (unfold is_u64; nia). ring.
  - unfold rows. destruct (Z.leb_spec ncols c); [done |]. destruct (Z.ltb_spec c big).
    + rewrite u64_add_small by (unfold is_u64; nia). apply u64_shl_small, small_rows; nia.
    + apply u64_shl_small, small_rows; nia.
Qed.

Lemma asize_loop n : Z.of_nat n <= 65536 ->
  foldl (fun a k => u64_add a (rc_size k)) 0 (map (fun c => column0 (Z.of_nat c)) (seq 0 n)) = rows_upto (Z.of_nat n) * U.
Proof.
  induction n as [| n IH]; intros Hn; [change (Z.of_nat 0) with 0; by rewrite rows_upto_0 |].
  rewrite seq_S, map_app, foldl_app, IH by lia. simpl.
  replace (Z.of_nat (S n)) with (Z.of_nat n + 1) by lia. rewrite rows_upto_S by lia.
  pose proof (rows_range (Z.of_nat n)). pose proof (rows_upto_mono 0 (Z.of_nat n)) as H0. rewrite rows_upto_0 in H0.
  pose proof (rows_upto_mono (Z.of_nat n) (Z.max ncols (Z.of_nat n))) as H1.
  rewrite (rows_upto_end (Z.max _ _)) in H1 by lia.
  rewrite Z.mul_add_distr_r. apply u64_add_small. rewrite <- Z.mul_add_distr_r. apply small_rows. lia.
Qed.

(** The map once the parity columns below [c] have their buffers. *)
Lemma alloc_parity_spec rm :
  (forall c, 0 <= c < np -> rm_col rm !! Z.to_nat c = Some (column0 c)) -> rm_firstdatacol rm = np ->
  runs (alloc_parity zio_buf_alloc rm)
    (fits rm (fun i => if decide (Z.of_nat i < np) then Some (with_data (column0 (Z.of_nat i)) (zio_buf_alloc (rows (Z.of_nat i) * U)))
                       else rm_col rm !! i)).
Proof.
  intros Hrm Hf. unfold alloc_parity. rewrite Hf.
  apply (for_range_inv _ _ _ _ (fun c => fits rm (fun i => if decide (Z.of_nat i < c)
    then Some (with_data (column0 (Z.of_nat i)) (zio_buf_alloc (rows (Z.of_nat i) * U))) else rm_col rm !! i))); [lia | |].
  - eapply fits_ext; [apply fits_start |]. intros i. by rewrite decide_False by lia.
  - intros c rm' Hc Hfit. rewrite <- (bind_Ok_r (upd_col _ _ _)).
    eapply (fits_upd rm _ _ c (column0 c)); [exact Hfit | lia | cbv beta; rewrite decide_False by lia; by apply Hrm |].
    intros rm'' Hfit'. simpl. eapply fits_ext; [exact Hfit' |]. intros i. cbv beta.
    destruct (decide (i = Z.to_nat c)) as [-> | Hne].
    + rewrite decide_True by lia. by rewrite Z2Nat.id by lia.
    + repeat case_decide; (done || lia).
Qed.

Definition slice (c : Z) : list Z :=
  take (Z.to_nat (rows c * U)) (drop (Z.to_nat ((rows_upto c - rows_upto np) * U)) io_data).

Lemma slice_data_spec rm :
  (forall c, np <= c < ncols -> rm_col rm !! Z.to_nat c = Some (column0 c)) ->
  rm_firstdatacol rm = np -> rm_cols rm = ncols ->
  runs (slice_data io_data rm)
    (fits rm (fun i => if decide (np <= Z.of_nat i < ncols) then Some (with_data (column0 (Z.of_nat i)) (slice (Z.of_nat i)))
                       else rm_col rm !! i)).
Proof.
  intros Hrm Hf Hn. pose proof cols_bounds. unfold slice_data. rewrite Hf, Hn, Z.max_r by lia.
  eapply runs_bind; [apply (for_range_inv _ _ _ _ (fun c '(rm', off) => off = (rows_upto c - rows_upto np) * U /\
    fits rm (fun i => if decide (np <= Z.of_nat i < c) then Some (with_data (column0 (Z.of_nat i)) (slice (Z.of_nat i)))
                      else rm_col rm !! i) rm')) |]; [lia | | |].
  - split; [ring |]. eapply fits_ext; [apply fits_start |]. intros i. by rewrite decide_False by lia.
  - intros c (rm', off) Hc (-> & Hfit).
    assert (Hk : rm_col rm !! Z.to_nat c = Some (column0 c)) by (by apply Hrm).
    rewrite (fits_get _ _ _ c (column0 c) Hfit), bind_Ok; [| lia | cbv beta; by rewrite decide_False by lia].
    eapply (fits_upd rm _ _ c (column0 c)); [exact Hfit | lia | cbv beta; by rewrite decide_False by lia |].
    intros rm'' Hfit'. cbn [runs rc_size column0]. split; [rewrite rows_upto_S by lia; ring |].
    eapply fits_ext; [exact Hfit' |]. intros i. cbv beta. destruct (decide (i = Z.to_nat c)) as [-> | Hne].
    + rewrite decide_True by lia. by rewrite Z2Nat.id by lia.
    + repeat case_decide; (done || lia).
  - intros (rm', off) (_ & Hfit). exact Hfit.
Qed.

(** The columns before the switch of [swap_parity]. *)
Definition unswapped : list raidz_col := map (fun c => column (Z.of_nat c) (Z.of_nat c)) (seq 0 (Z.to_nat nscols)).

Lemma lookup_columns (f : Z -> raidz_col) i :
  map (fun c => f (Z.of_nat c)) (seq 0 (Z.to_nat nscols)) !! i =
  if decide (Z.of_nat i < nscols) then Some (f (Z.of_nat i)) else None.
Proof.
  pose proof cols_bounds. rewrite list_lookup_fmap. case_decide.
  - rewrite lookup_seq_lt by lia. done.
  - rewrite lookup_seq_ge by lia. done.
Qed.

Lemma buffers_spec rm :
  rm_col rm = map (fun c => column0 (Z.of_nat c)) (seq 0 (Z.to_nat nscols)) ->
  rm_firstdatacol rm = np -> rm_cols rm = ncols ->
  runs (rm ← alloc_parity zio_buf_alloc rm ; slice_data io_data rm) (fun rm' => rm' = set_cols rm unswapped).
Proof.
  intros Hrm Hf Hn. pose proof cols_bounds.
  assert (Hl : forall c, 0 <= c < nscols -> rm_col rm !! Z.to_nat c = Some (column0 c)).
  { intros c Hc. rewrite Hrm, lookup_columns, decide_True, Z2Nat.id by lia. done. }
  eapply runs_bind; [apply alloc_parity_spec; [| done]; intros c Hc; apply Hl; lia |].
  intros rm1 (l1 & -> & Hl1). eapply runs_impl; [apply slice_data_spec; simpl; [| done | done] |].
  - intros c Hc. rewrite Hl1, decide_False by lia. apply Hl. lia.
  - intros rm2 (l2 & -> & Hl2). simpl in *. unfold set_cols. simpl. f_equal. apply list_eq. intros i.
    rewrite Hl2, Hl1, Hrm. unfold unswapped.
    rewrite (lookup_columns column0), (lookup_columns (fun c => column c c)). unfold column, slice, with_data. simpl.
    destruct (Z.ltb_spec (Z.of_nat i) np), (Z.ltb_spec (Z.of_nat i) ncols); repeat case_decide; (done || lia).
Qed.

Lemma swap_spec rm :
  rm_col rm = unswapped -> swapped = true -> runs (swap_parity rm) (fun rm' => rm' =
    MkRm (rm_cols rm) (rm_scols rm) (rm_bigcols rm) (rm_asize rm) (rm_missingdata rm) (rm_missingparity rm)
      (rm_firstdatacol rm) (rm_nskip rm) (if rm_skipstart rm =? 0 then 1 else rm_skipstart rm)
      (map (fun c => column (place (Z.of_nat c)) (Z.of_nat c)) (seq 0 (Z.to_nat nscols)))).
Proof.
  intros Hrm Hsw. pose proof cols_bounds. unfold swap_parity.
  assert (Hl : forall i, rm_col rm !! i = if decide (Z.of_nat i < nscols) then Some (column (Z.of_nat i) (Z.of_nat i)) else None).
  { intros i. rewrite Hrm. apply (lookup_columns (fun c => column c c)). }
  pose proof (Hl 0%nat) as H0. pose proof (Hl 1%nat) as H1. rewrite decide_True in H0 by lia. rewrite decide_True in H1 by lia.
  change (Z.of_nat 0) with 0 in H0. change (Z.of_nat 1) with 1 in H1.
  rewrite (get_col_Some rm 0 (column 0 0)), bind_Ok, (get_col_Some rm 1 (column 1 1)), bind_Ok by (done || lia).
  eapply (fits_upd rm _ _ 0 (column 0 0)); [apply fits_start | lia | done |]. intros rm1 F1.
  eapply (fits_upd rm _ _ 1 (column 1 1)); [exact F1 | lia | done |]. intros rm2 (l & -> & Hl2). simpl.
  f_equal. apply list_eq. intros i. rewrite Hl2, (lookup_columns (fun c => column (place c) c)).
  change (Z.to_nat 0) with 0%nat. change (Z.to_nat 1) with 1%nat. unfold place. rewrite Hsw.
  destruct (decide (i = 1%nat)) as [-> |]; [by rewrite decide_True by lia |].
  destruct (decide (i = 0%nat)) as [-> |]; [by rewrite decide_True by lia |].
  rewrite Hl, !(proj2 (Z.eqb_neq (Z.of_nat i) _)) by lia. done.
Qed.

Lemma finish_spec rm :
  rm_col rm = unswapped -> rm_cols rm = ncols -> rm_firstdatacol rm = np -> rm_skipstart rm = big ->
  runs (VERIFY (2 <=? rm_cols rm) ;;
        k0 ← get_col rm 0 ; k1 ← get_col rm 1 ;
        VERIFY (rc_size k0 =? rc_size k1) ;;
        if (rm_firstdatacol rm =? 1) && negb (Z.land io_offset (u64_shl 1 20) =? 0) then swap_parity rm else Ok rm)
    (fun rm' => rm' = MkRm ncols (rm_scols rm) (rm_bigcols rm) (rm_asize rm) (rm_missingdata rm) (rm_missingparity rm)
      np (rm_nskip rm) (if swapped && (big =? 0) then 1 else big)
      (map (fun c => column (place (Z.of_nat c)) (Z.of_nat c)) (seq 0 (Z.to_nat nscols)))).
Proof.
  intros Hrm Hn Hf Hsk. pose proof cols_bounds.
  assert (Hl : forall c, 0 <= c < nscols -> rm_col rm !! Z.to_nat c = Some (column c c)).
  { intros c Hc. rewrite Hrm. unfold unswapped. rewrite (lookup_columns (fun c => column c c)), decide_True, Z2Nat.id by lia. done. }
  rewrite VERIFY_pass by lia.
  rewrite (get_col_Some rm 0 (column 0 0)), bind_Ok, (get_col_Some rm 1 (column 1 1)), bind_Ok by (lia || apply Hl; lia).
  rewrite VERIFY_pass by (unfold column, rc_size; rewrite (rows_par 1) by lia; lia).
  rewrite u64_shl_1 by lia. rewrite Hf. fold swapped. destruct swapped eqn:E.
  - eapply runs_impl; [by apply swap_spec |]. intros rm' ->. rewrite Hn, Hf, Hsk. done.
  - simpl. rewrite <- Hn, <- Hf, <- Hsk at 1. destruct rm. simpl in *. subst. f_equal. unfold unswapped.
    apply map_ext. intros c. unfold place. by rewrite E.
Qed.

(** ** The whole function *)
Lemma quot_u64 : s / u64_sub dcols np = quot /\ u64_sub s (u64 (quot * u64_sub dcols np)) = rem.
Proof.
  pose proof s_split as (E & Hr & Hq). pose proof U_range. assert (HW : W64 = 2 ^ 64) by done.
  rewrite u64_sub_small by (unfold is_u64; lia). split; [done |].
  rewrite (u64_small (quot * _)) by (unfold is_u64; nia). rewrite u64_sub_small by (unfold is_u64; nia). lia.
Qed.

Lemma total_u64 :
  u64_add s (u64 (np * u64_add quot (if rem =? 0 then 0 else 1))) = total /\
  (if rem =? 0 then 0 else u64_add rem np) = big /\
  (if quot =? 0 then Z.min dcols (roundup big (np + 1)) else dcols) = nscols.
Proof.
  pose proof s_split as (E & Hr & Hq). pose proof U_range. pose proof total_range as Ht. unfold total in Ht.
  pose proof cols_bounds. assert (HW : W64 = 2 ^ 64) by done. assert (quot <= s) by nia. split; [| split].
  - rewrite (u64_add_small quot) by (unfold is_u64; destruct (rem =? 0); nia).
    rewrite (u64_small (np * _)) by (unfold is_u64; destruct (rem =? 0); nia).
    apply u64_add_small. unfold is_u64. fold total in Ht |- *. nia.
  - unfold big. destruct (rem =? 0); [done | apply u64_add_small; unfold is_u64; lia].
  - unfold nscols. rewrite roundup_exact by (unfold is_u64; lia).
    by replace (big + (np + 1 - 1)) with (big + np) by ring.
Qed.

Lemma asize_u64 :
  roundup (total * U) (u64_shl (np + 1) sh) = nsectors * U /\ roundup total (np + 1) = nsectors /\
  u64_sub nsectors total = nsectors - total /\ u64_sub (nsectors * U) (total * U) = (nsectors - total) * U.
Proof.
  pose proof U_range. pose proof total_range. pose proof nsectors_range. assert (HW : W64 = 2 ^ 64) by done.
  assert (E : (total + (np + 1 - 1)) / (np + 1) * (np + 1) = nsectors).
  { unfold nsectors. by replace (total + (np + 1 - 1)) with (total + np) by ring. }
  rewrite u64_shl_small by (try lia; unfold is_u64; nia). split; [| split; [| split]].
  - rewrite roundup_exact by (unfold is_u64; nia). rewrite ceil_scale by lia. rewrite <- E. ring.
  - rewrite roundup_exact by (unfold is_u64; nia). exact E.
  - apply u64_sub_small. unfold is_u64. nia.
  - rewrite u64_sub_small by (unfold is_u64; nia). ring.
Qed.

Lemma map_alloc_Ok :
  vdev_raidz_map_alloc zio_buf_alloc io_offset (s * U) io_data sh dcols np = Ok geometry.
Proof.
  assert (H : runs (vdev_raidz_map_alloc zio_buf_alloc io_offset (s * U) io_data sh dcols np) (fun rm => rm = geometry)).
  2: { destruct (vdev_raidz_map_alloc _ _ _ _ _ _ _); [by rewrite H | done]. }
  pose proof U_range. pose proof cols_bounds. pose proof nsectors_range. pose proof total_range.
  assert (HW : W64 = 2 ^ 64) by done. unfold vdev_raidz_map_alloc.
  rewrite (u64_sub_small dcols np) at 1 by (unfold is_u64; lia). rewrite VERIFY_pass by lia.
  rewrite !Z.shiftr_div_pow2, Z.div_mul by lia. fold sec0.
  destruct quot_u64 as (Eq & Er). rewrite !Eq, !Er. cbv zeta.
  destruct total_u64 as (Et & -> & ->). rewrite !Et. fold ncols. rewrite VERIFY_pass by lia.
  set (cols := map (fun c => raidz_col_init _ _ _ _ _ _ _ _) _).
  assert (Ec : cols = map (fun c => column0 (Z.of_nat c)) (seq 0 (Z.to_nat nscols))).
  { apply map_ext_in. intros c Hc. apply in_seq in Hc. apply col_init. lia. }
  clearbody cols. subst cols. rewrite asize_loop by lia. rewrite rows_upto_end by lia.
  destruct asize_u64 as (Ea1 & Ea2 & Ea3 & Ea4). rewrite Ea1, Ea2, Ea3, Ea4.
  rewrite (u64_shl_small total) by (try lia; apply small_rows; lia). rewrite VERIFY_pass by lia.
  rewrite (u64_shl_small (nsectors - total)) by (try lia; apply small_rows; lia). rewrite !VERIFY_pass by lia.
  rewrite <- bind_assoc. eapply runs_bind; [by apply buffers_spec |]. intros rm ->.
  eapply runs_impl; [by apply finish_spec |]. intros rm' ->. done.
Qed.

(** ** What the columns hold *)
Lemma geometry_col c : 0 <= c < nscols -> rm_col geometry !! Z.to_nat c = Some (column (place c) c).
Proof.
  intros Hc. simpl. rewrite (lookup_columns (fun c => column (place c) c)), decide_True, Z2Nat.id by lia. done.
Qed.

Lemma place_range c : 0 <= c < ncols -> 0 <= place c < ncols /\ rows (place c) = rows c.
Proof.
  intros Hc. pose proof cols_bounds. pose proof (rows_par 1). unfold place. destruct swapped; [| done].
  destruct (Z.eqb_spec c 0) as [-> |]; [split; [lia |]; rewrite !(rows_par 1) by lia; done |].
  destruct (Z.eqb_spec c 1) as [-> |]; [split; [lia |]; rewrite !(rows_par 1) by lia; done | done].
Qed.

Lemma place_inj c c' : place c = place c' -> c = c'.
Proof.
  unfold place. destruct swapped; [| done].
  destruct (Z.eqb_spec c 0), (Z.eqb_spec c 1), (Z.eqb_spec c' 0), (Z.eqb_spec c' 1); lia.
Qed.

Lemma slices_concat n : np + Z.of_nat n <= ncols ->
  concat (map (fun i => slice (np + Z.of_nat i)) (seq 0 n)) =
  take (Z.to_nat ((rows_upto (np + Z.of_nat n) - rows_upto np) * U)) io_data.
Proof.
  pose proof U_range. induction n as [| n IH]; intros Hn.
  - replace (np + Z.of_nat 0) with np by lia. by rewrite Z.sub_diag.
  - rewrite seq_S, map_app, concat_app, IH by lia. simpl. rewrite app_nil_r. unfold slice.
    pose proof (rows_upto_mono np (np + Z.of_nat n)). pose proof (rows_range (np + Z.of_nat n)).
    replace (np + Z.of_nat (S n)) with (np + Z.of_nat n + 1) by lia. rewrite rows_upto_S by lia.
    rewrite take_take_drop. f_equal. nia.
Qed.

Lemma slice_length c : np <= c < ncols -> Z.of_nat (length (slice c)) = rows c * U.
Proof.
  intros Hc. pose proof U_range. pose proof (rows_range c). pose proof (rows_upto_S c). pose proof data_rows.
  pose proof (rows_upto_mono (c + 1) ncols). rewrite (rows_upto_end ncols) in * by lia.
  pose proof (rows_upto_mono np c).
  unfold slice. rewrite length_take, length_drop. nia.
Qed.

Lemma geometry_ok : 3 <= sh -> Forall is_byte io_data ->
  (forall n, 0 <= n -> Z.of_nat (length (zio_buf_alloc n)) = n /\ Forall is_byte (zio_buf_alloc n)) ->
  rz_ok geometry (rows 0 * 2 ^ (sh - 3)).
Proof.
  intros H3 Hb Halloc. pose proof cols_bounds. pose proof U_range. pose proof (rows_range 0).
  assert (E8 : U = 8 * 2 ^ (sh - 3)) by (change 8 with (2 ^ 3); rewrite <- Z.pow_add_r by lia; f_equal; lia).
  assert (Es : 8 * (rows 0 * 2 ^ (sh - 3)) = rows 0 * U) by (rewrite E8; ring).
  split; cbn [rm_firstdatacol rm_cols geometry]; [done | lia | | lia | |].
  - cbn [rm_col geometry]. rewrite length_map, length_seq. lia.
  - intros c k Hc. rewrite geometry_col by lia. intros [= <-]. cbn [rc_size rc_data column].
    rewrite (proj2 (Z.ltb_lt c np)), (rows_par c), Es by lia. split; [done |]. apply Halloc. nia.
  - intros c k Hc. rewrite geometry_col by lia. intros [= <-]. cbn [rc_size rc_data column].
    rewrite (proj2 (Z.ltb_ge c np)), (proj2 (Z.ltb_lt c ncols)), Es by lia. fold (slice c).
    pose proof (rows_le c). pose proof (rows_range c). split; [nia |]. split.
    { rewrite E8, Z.mul_assoc, (Z.mul_comm _ 8), <- Z.mul_assoc, Z.mul_comm. by rewrite Z.mod_mul. }
    rewrite slice_length by lia. split; [lia |]. unfold slice. by apply Forall_take, Forall_drop.
Qed.

Lemma rows_pos c : 0 <= c < ncols -> 0 < rows c.
Proof.
  intros Hc. pose proof cols_bounds. unfold rows. rewrite (proj2 (Z.leb_gt ncols c)) by lia.
  destruct shape as [(E1 & E2 & E3 & E4 & E5) | (H1 & H2 & H3 & H4)]; destruct (Z.ltb_spec c big); lia.
Qed.

Lemma rows_mono c c' : 0 <= c <= c' -> rows c' <= rows c.
Proof.
  intros Hc. pose proof cols_bounds. pose proof s_split. unfold rows.
  destruct (Z.leb_spec ncols c), (Z.leb_spec ncols c'), (Z.ltb_spec c big), (Z.ltb_spec c' big); lia.
Qed.

Lemma geometry_size c k : 0 <= c < nscols -> rm_col geometry !! Z.to_nat c = Some k -> rc_size k = rows c * U.
Proof. intros Hc. rewrite geometry_col by done. by intros [= <-]. Qed.

Lemma ceil_data : (s + dcols - np - 1) / (dcols - np) = quot + (if rem =? 0 then 0 else 1).
Proof.
  pose proof s_split as (E & Hr & Hq). destruct (Z.eqb_spec rem 0) as [E0 | Hne]; symmetry.
  - apply (Z.div_unique _ _ _ (dcols - np - 1)); lia.
  - apply (Z.div_unique _ _ _ (rem - 1)); lia.
Qed.

Lemma asize_spec : vdev_raidz_asize sh dcols np (s * U) = nsectors * U.
Proof.
  pose proof U_range. pose proof total_range as Ht. pose proof nsectors_range. pose proof s_split.
  assert (HW : W64 = 2 ^ 64) by done. unfold vdev_raidz_asize. rewrite (u64_sub_small (s * U)) by (unfold is_u64; nia).
  rewrite Z.shiftr_div_pow2 by lia. replace ((s * U - 1) / U) with (s - 1)
    by (apply (Z.div_unique _ _ _ (U - 1)); nia).
  rewrite (u64_add_small (s - 1)) by (unfold is_u64; nia). replace (s - 1 + 1) with s by ring. cbv zeta.
  rewrite (u64_add_small s dcols), (u64_sub_small (s + dcols)), (u64_sub_small (s + dcols - np)), (u64_sub_small dcols)
    by (unfold is_u64; nia).
  rewrite ceil_data. unfold total in *. rewrite (u64_small (np * _)) by (unfold is_u64; nia).
  rewrite u64_add_small by (unfold is_u64; nia). fold total in *.
  destruct asize_u64 as (_ & E & _). rewrite E. apply u64_shl_small; [lia |]. apply small_rows. lia.
Qed.

(** Column [c] of the map holds, on its device, the sectors
    [sec0 + place c], [sec0 + place c + dcols], ... of the vdev. *)
Lemma column_sectors c i : 0 <= c < ncols -> 0 <= i < rows c ->
  let k := column (place c) c in
  let sector := sec0 + place c + i * dcols in
  rc_devidx k = sector mod dcols /\ rc_offset k + i * U = sector / dcols * U /\ sec0 <= sector < sec0 + total.
Proof.
  intros Hc Hi k sector. unfold k, sector. cbn [rc_devidx rc_offset column].
  destruct (place_range c Hc) as (Hp & Er). pose proof cols_bounds. pose proof s_split.
  rewrite Z.mod_add, Z.div_add by lia. split; [done |]. split; [ring |]. split; [nia |].
  rewrite <- Er in Hi. rewrite <- total_split. unfold rows in Hi. rewrite (proj2 (Z.leb_gt ncols _)) in Hi by lia.
  destruct shape as [(E1 & E2 & E3 & E4 & E5) | (H1 & H2 & H3 & H4)]; destruct (Z.ltb_spec (place c) big); nia.
Qed.

Lemma place_bound c : 0 <= c < nscols -> 0 <= place c < nscols.
Proof.
  intros Hc. pose proof cols_bounds. unfold place. destruct swapped; [| done].
  destruct (Z.eqb_spec c 0), (Z.eqb_spec c 1); lia.
Qed.

Lemma geometry_data : concat (map rc_data (data_cols geometry)) = io_data.
Proof.
  pose proof cols_bounds. unfold data_cols. cbn [rm_cols rm_firstdatacol rm_col geometry].
  rewrite map_seq_shift, map_map by lia.
  transitivity (concat (map (fun i => slice (np + Z.of_nat i)) (seq 0 (Z.to_nat (ncols - np))))).
  - f_equal. apply map_ext_in. intros i Hi. apply in_seq in Hi. cbn [rc_data column].
    replace (Z.of_nat (Z.to_nat np + i)) with (np + Z.of_nat i) by lia.
    rewrite (proj2 (Z.ltb_ge _ np)), (proj2 (Z.ltb_lt _ ncols)) by lia. done.
  - rewrite slices_concat by lia. replace (np + Z.of_nat (Z.to_nat (ncols - np))) with ncols by lia.
    rewrite rows_upto_end, data_rows by lia. apply take_ge. lia.
Qed.

Lemma geometry_devices :
  NoDup (map rc_devidx (rm_col geometry)) /\ Forall (fun k => 0 <= rc_devidx k < dcols) (rm_col geometry).
Proof.
  pose proof cols_bounds. cbn [rm_col geometry]. split.
  - apply NoDup_alt. intros i j x Hi Hj. rewrite map_map in Hi, Hj.
    rewrite list_lookup_fmap in Hi, Hj. cbn [rc_devidx column] in Hi, Hj.
    destruct (seq 0 _ !! i) as [i' |] eqn:Ei; [| done]. destruct (seq 0 _ !! j) as [j' |] eqn:Ej; [| done].
    apply lookup_seq in Ei as (-> & Hi'). apply lookup_seq in Ej as (-> & Hj'). simpl in Hi, Hj.
    injection Hi as <-. injection Hj as Hj. apply mod_shift_inj in Hj; [apply place_inj in Hj; lia | ..];
      (pose proof (place_bound (Z.of_nat i)); pose proof (place_bound (Z.of_nat j)); lia).
  - apply Forall_fmap, Forall_true. intros c. simpl. apply Z.mod_pos_bound. lia.
Qed.

(** The sector of the vdev a byte of a column belongs to. *)
Lemma byte_sector k x : k ∈ rm_col geometry -> rc_offset k <= x < rc_offset k + rc_size k ->
  exists sector, rc_devidx k = sector mod dcols /\ x / U = sector / dcols /\ sec0 <= sector < sec0 + total.
Proof.
  intros Hk Hx. pose proof U_range. apply list_elem_of_lookup in Hk as (i & Hi).
  change (map (fun c => column (place (Z.of_nat c)) (Z.of_nat c)) (seq 0 (Z.to_nat nscols)) !! i = Some k) in Hi.
  rewrite (lookup_columns (fun c => column (place c) c)) in Hi. destruct (decide _) as [Hl |]; [| done].
  injection Hi as <-. set (c := Z.of_nat i) in *. cbn [rc_offset rc_size column] in Hx.
  assert (Hc : 0 <= c < ncols).
  { split; [lia |]. destruct (Z.ltb_spec c ncols); [done |]. unfold rows in Hx. rewrite (proj2 (Z.leb_le ncols c)) in Hx; lia. }
  set (off := (sec0 + place c) / dcols * U) in *. set (r := (x - off) / U).
  pose proof (Z.div_mod (x - off) U). pose proof (Z.mod_pos_bound (x - off) U).
  assert (Hr : 0 <= r < rows c) by (unfold r; split; [apply Z.div_pos; lia | apply Z.div_lt_upper_bound; nia]).
  destruct (column_sectors c r Hc Hr) as (E1 & E2 & E3). exists (sec0 + place c + r * dcols).
  split; [exact E1 |]. split; [| exact E3]. cbn [rc_offset column] in E2. fold off in E2.
  symmetry. apply (Z.div_unique x U _ ((x - off) mod U)); [lia |]. rewrite (Z.mul_comm U), <- E2. unfold r. lia.
Qed.
End geometry.
