(* ===== verification/RaidzStripe.v ===== *)
(** * Stripes: a block with its parity, damaged and rebuilt *)
From S2P Require Import Prelude Bytes Gf256 Raidz RaidzSpec RaidzRec RaidzMap RaidzChoice.
Local Open Scope Z_scope.

(** A map whose data columns are not empty and get no longer. *)
Record stripe (rm : raidz_map) (pcnt : Z) : Prop := {
  st_ok : rz_ok rm pcnt;
  st_full : forall k, rm_col rm !! Z.to_nat (rm_firstdatacol rm) = Some k -> rc_size k = 8 * pcnt;
  st_pos : forall c k, rm_firstdatacol rm <= c < rm_cols rm -> rm_col rm !! Z.to_nat c = Some k -> 0 < rc_size k;
  st_mono : forall c c' k k', rm_firstdatacol rm <= c < c' -> c' < rm_cols rm -> rm_col rm !! Z.to_nat c = Some k ->
    rm_col rm !! Z.to_nat c' = Some k' -> rc_size k' <= rc_size k
}.

(** Two maps that differ in buffers and error codes only. *)
Definition same_shape (rm rm' : raidz_map) : Prop :=
  exists l, rm' = set_cols rm l /\ length l = length (rm_col rm) /\
  forall c k, rm_col rm !! c = Some k -> exists k', l !! c = Some k' /\ rc_size k' = rc_size k /\
    length (rc_data k') = length (rc_data k) /\ (Forall is_byte (rc_data k) -> Forall is_byte (rc_data k')).

Lemma shape_inv rm rm' c k' : same_shape rm rm' -> rm_col rm' !! c = Some k' ->
  exists k, rm_col rm !! c = Some k /\ rc_size k' = rc_size k /\ length (rc_data k') = length (rc_data k) /\
    (Forall is_byte (rc_data k) -> Forall is_byte (rc_data k')).
Proof.
  intros (l & -> & Hl & Hc) Hk. simpl in Hk. pose proof (lookup_lt_Some _ _ _ Hk).
  destruct (lookup_lt_is_Some_2 (rm_col rm) c) as (k & E); [lia |]. exists k. split; [done |].
  destruct (Hc c k E) as (k2 & E2 & H2). assert (k2 = k') as -> by congruence. done.
Qed.

Lemma shape_stripe rm rm' pcnt : same_shape rm rm' -> stripe rm pcnt -> stripe rm' pcnt.
Proof.
  intros Hs [[? ? Hlen ? Hpar Hdat] Hfull Hpos Hmono].
  assert (rm_firstdatacol rm' = rm_firstdatacol rm /\ rm_cols rm' = rm_cols rm /\ length (rm_col rm') = length (rm_col rm))
    as (Ef & Ec & El) by (by destruct Hs as (l & -> & Hl & _)).
  split; [split |..]; rewrite ?Ef, ?Ec, ?El; try done.
  - intros c k' Hc Hk. destruct (shape_inv _ _ _ _ Hs Hk) as (k & E & -> & -> & Hb).
    destruct (Hpar c k Hc E) as (? & ? & ?). split_and!; [done | done | by apply Hb].
  - intros c k' Hc Hk. destruct (shape_inv _ _ _ _ Hs Hk) as (k & E & -> & -> & Hb).
    destruct (Hdat c k Hc E) as (? & ? & ? & ?). split_and!; [lia | lia | done | done | by apply Hb].
  - intros k' Hk. destruct (shape_inv _ _ _ _ Hs Hk) as (k & E & -> & _). by apply Hfull.
  - intros c k' Hc Hk. destruct (shape_inv _ _ _ _ Hs Hk) as (k & E & -> & _). by eapply Hpos.
  - intros c c' k1 k2 Hc Hc' Hk1 Hk2. destruct (shape_inv _ _ _ _ Hs Hk1) as (k & E & -> & _).
    destruct (shape_inv _ _ _ _ Hs Hk2) as (k3 & E3 & -> & _). by eapply (Hmono c c').
Qed.

(** ** Parity of a stripe *)
(** The parity columns hold what the data columns call for. *)
Definition parity_right (rm : raidz_map) (pcnt : Z) : Prop :=
  forall i k j, Z.of_nat i < rm_firstdatacol rm -> rm_col rm !! i = Some k -> 0 <= j < 8 * pcnt ->
    nb (rc_data k) j = parity_byte rm i j.

Lemma generate_spec rm pcnt : stripe rm pcnt ->
  runs (vdev_raidz_generate_parity rm) (fun rm' => exists ds, rm' = set_parity rm ds /\
    Z.of_nat (length ds) = rm_firstdatacol rm /\ Forall (pbuf pcnt) ds /\
    forall i d j, ds !! i = Some d -> 0 <= j < 8 * pcnt -> nb d j = parity_byte rm i j).
Proof.
  intros [Hok Hfull _ _]. pose proof (ok_np _ _ Hok). pose proof (ok_cols _ _ Hok).
  assert (Hend : forall np rm', Z.of_nat np = rm_firstdatacol rm -> gen_inv rm pcnt np (rm_cols rm) rm' ->
    exists ds, rm' = set_parity rm ds /\ Z.of_nat (length ds) = rm_firstdatacol rm /\ Forall (pbuf pcnt) ds /\
    forall i d j, ds !! i = Some d -> 0 <= j < 8 * pcnt -> nb d j = parity_byte rm i j).
  { intros np rm' Hnp (ds & -> & Hl & Hds). exists ds. split; [done |]. split; [lia |]. split.
    - apply Forall_lookup. intros i d Hd. by apply (Hds i d).
    - intros i d j Hd Hj. destruct (Hds i d Hd) as (_ & Hp). by apply Hp. }
  assert (Hf : forall k, rm_col rm !! Z.to_nat (rm_firstdatacol rm) = Some k -> rc_size k = 8 * pcnt \/ rc_size k = 0)
    by (intros k Hk; left; by apply Hfull).
  unfold vdev_raidz_generate_parity.
  destruct (Z.eqb_spec (rm_firstdatacol rm) 1); [| destruct (Z.eqb_spec (rm_firstdatacol rm) 2); [| destruct (Z.eqb_spec (rm_firstdatacol rm) 3); [| lia]]].
  - eapply runs_impl; [apply (generate_p_spec rm pcnt Hok 1); (done || lia) |]. intros. eapply Hend; [| eassumption]. lia.
  - eapply runs_impl; [apply (generate_pq_spec rm pcnt Hok 2); (done || lia) |]. intros. eapply Hend; [| eassumption]. lia.
  - eapply runs_impl; [apply (generate_pqr_spec rm pcnt Hok 3); (done || lia) |]. intros. eapply Hend; [| eassumption]. lia.
Qed.

Lemma set_parity_facts rm pcnt ds : stripe rm pcnt -> Z.of_nat (length ds) = rm_firstdatacol rm -> Forall (pbuf pcnt) ds ->
  same_shape rm (set_parity rm ds) /\ forall c j, rm_firstdatacol rm <= c -> dbyte (set_parity rm ds) c j = dbyte rm c j.
Proof.
  intros [Hok _ _ _] Hl Hb. destruct Hok. split.
  - eexists. split; [reflexivity |]. split.
    { rewrite length_app, length_zip_with, length_take, length_drop. lia. }
    intros c k Hc. pose proof (set_parity_lookup rm ds c k ltac:(lia) Hc) as E. simpl in E.
    eexists. split; [exact E |]. destruct (ds !! c) as [d |] eqn:Ed; [| done]. simpl.
    rewrite Forall_lookup in Hb. destruct (Hb c d Ed) as (Hd & Hdb). pose proof (lookup_lt_Some _ _ _ Ed).
    destruct (ok_par (Z.of_nat c) k) as (_ & ? & _); [lia | by rewrite Nat2Z.id |]. split_and!; [done | lia | done].
  - intros c j Hc. unfold dbyte. destruct (rm_col rm !! Z.to_nat c) as [k |] eqn:E.
    + rewrite (set_parity_lookup rm ds _ k) by (done || lia). by rewrite (lookup_ge_None_2 ds) by lia.
    + rewrite (lookup_ge_None_2 (rm_col (set_parity rm ds))); [done |]. simpl. apply lookup_ge_None in E.
      rewrite length_app, length_zip_with, length_take, length_drop. lia.
Qed.

Lemma generate_right rm pcnt : stripe rm pcnt ->
  runs (vdev_raidz_generate_parity rm) (fun rm' => stripe rm' pcnt /\ same_shape rm rm' /\ parity_right rm' pcnt /\
    forall c k, rm_firstdatacol rm <= Z.of_nat c -> rm_col rm !! c = Some k -> rm_col rm' !! c = Some k).
Proof.
  intros Hst. eapply runs_impl; [by apply generate_spec |]. intros rm' (ds & -> & Hl & Hb & Hp).
  destruct (set_parity_facts _ _ _ Hst Hl Hb) as (Hs & Hd). pose proof (ok_len _ _ (st_ok _ _ Hst)).
  pose proof (ok_cols _ _ (st_ok _ _ Hst)).
  split; [by eapply shape_stripe |]. split; [done |]. split.
  - intros i k j Hi Hk Hj. destruct (lookup_lt_is_Some_2 ds i) as (d & Ed); [simpl in Hi; lia |].
    destruct (shape_inv _ _ _ _ Hs Hk) as (k0 & E0 & _).
    rewrite (set_parity_lookup rm ds _ k0), Ed in Hk by (done || lia). injection Hk as <-. simpl.
    rewrite (Hp i d j Ed Hj). unfold parity_byte. apply hsum_ext. intros c Hc. symmetry. apply Hd. cbn in Hc. lia.
  - intros c k Hc Hk. rewrite (set_parity_lookup rm ds c k) by (done || lia). by rewrite (lookup_ge_None_2 ds) by lia.
Qed.

(** ** Damage and repair *)
(** The columns that are neither asked for in [t] nor in error are intact. *)
Definition damaged (t : list Z) (rm rm' : raidz_map) : Prop :=
  same_shape rm rm' /\ forall c k k', rm_col rm !! c = Some k -> rm_col rm' !! c = Some k' ->
    is_bad rm' t (Z.of_nat c) = false -> rc_data k' = rc_data k.

Lemma nb_eq d d' : length d = length d' -> (forall j, 0 <= j < Z.of_nat (length d) -> nb d j = nb d' j) -> d = d'.
Proof.
  intros Hl H. apply list_eq. intros i. destruct (decide (i < length d)%nat) as [Hi | Hi].
  - destruct (lookup_lt_is_Some_2 d i Hi) as (x & Ex). destruct (lookup_lt_is_Some_2 d' i) as (y & Ey); [lia |].
    specialize (H (Z.of_nat i) ltac:(lia)). unfold nb in H. rewrite !Nat2Z.id in H.
    rewrite (nth_lookup_Some _ _ _ _ Ex), (nth_lookup_Some _ _ _ _ Ey) in H. congruence.
  - rewrite !lookup_ge_None_2 by lia. done.
Qed.

Section repair.
Context (rm rm' : raidz_map) (pcnt : Z) (t : list Z) (Hst : stripe rm pcnt) (Hright : parity_right rm pcnt).
Context (Hdam : damaged t rm rm') (H255 : rm_cols rm <= 255).

Lemma damaged_params : rm_firstdatacol rm' = rm_firstdatacol rm /\ rm_cols rm' = rm_cols rm /\ length (rm_col rm') = length (rm_col rm).
Proof. by destruct Hdam as ((l & -> & Hl & _) & _). Qed.

(** The bytes that were there. *)
Definition orig (c j : Z) : Z := uchar (dbyte rm c j).

Lemma orig_eq c j : rm_firstdatacol rm <= c < rm_cols rm -> orig c j = dbyte rm c j.
Proof.
  intros Hc. destruct (st_ok _ _ Hst). apply uchar_byte. unfold dbyte.
  destruct (rm_col rm !! Z.to_nat c) as [k |] eqn:E; [| unfold is_byte; lia]. apply cbyte_byte. by apply (ok_data c k).
Qed.

Lemma damaged_parity c : 0 <= c < rm_firstdatacol rm' -> is_bad rm' t c = false ->
  exists kp, parity_valid rm' pcnt orig (Z.to_nat c) kp.
Proof.
  destruct damaged_params as (Ef & Ec & _). intros Hc Hb. rewrite Ef in Hc.
  pose proof (shape_stripe _ _ _ (proj1 Hdam) Hst) as [Hok' _ _ _]. destruct Hok'.
  destruct (lookup_lt_is_Some_2 (rm_col rm') (Z.to_nat c)) as (k' & Ek); [lia |]. exists k'.
  destruct (shape_inv _ _ _ _ (proj1 Hdam) Ek) as (k & E & _).
  split; [done |]. split; [lia |]. intros j Hj.
  rewrite (proj2 Hdam (Z.to_nat c) k k' E Ek) by (by rewrite Z2Nat.id by lia).
  rewrite (Hright (Z.to_nat c) k j) by (done || lia). unfold parity_byte, ndata. rewrite Ef, Ec.
  apply hsum_ext. intros c' Hc'. symmetry. apply orig_eq. lia.
Qed.

Lemma damaged_data c j : rm_firstdatacol rm' <= c < rm_cols rm' -> is_bad rm' t c = false -> dbyte rm' c j = orig c j.
Proof.
  intros Hc Hb. destruct damaged_params as (Ef & Ec & El). destruct (st_ok _ _ Hst). rewrite orig_eq by lia. unfold dbyte.
  destruct (rm_col rm' !! Z.to_nat c) as [k' |] eqn:Ek.
  - destruct (shape_inv _ _ _ _ (proj1 Hdam) Ek) as (k & E & Es & _). rewrite E. unfold cbyte. rewrite Es.
    by rewrite (proj2 Hdam (Z.to_nat c) k k' E Ek) by (by rewrite Z2Nat.id by lia).
  - apply lookup_ge_None in Ek. lia.
Qed.

Context (Hexact : forall c k, rm_firstdatacol rm <= c < rm_cols rm -> rm_col rm !! Z.to_nat c = Some k ->
  Z.of_nat (length (rc_data k)) = rc_size k).

(** What was rebuilt is what was there. *)
Lemma recovered_cols rm2 c k : recovered rm' orig (is_bad rm' t) rm2 -> rm_firstdatacol rm <= c < rm_cols rm ->
  rm_col rm !! Z.to_nat c = Some k -> exists k2, rm_col rm2 !! Z.to_nat c = Some k2 /\ rc_data k2 = rc_data k.
Proof.
  intros (l & -> & Hl & Hrec) Hc Hk. destruct damaged_params as (Ef & Ec & El). pose proof (st_ok _ _ Hst) as [].
  destruct (lookup_lt_is_Some_2 (rm_col rm') (Z.to_nat c)) as (k' & Ek); [lia |].
  destruct (shape_inv _ _ _ _ (proj1 Hdam) Ek) as (k0 & E0 & Es & Elen & _). assert (k0 = k) as -> by congruence.
  destruct (Hrec _ _ Ek) as (d & Ed & Hd). exists (with_data k' d). split; [done |]. simpl. rewrite Z2Nat.id in Hd by lia.
  rewrite Ef, Ec in Hd. destruct (bool_decide_reflect (c ∈ bads (is_bad rm' t) (rm_firstdatacol rm) (rm_cols rm - rm_firstdatacol rm))) as [Hin | Hin].
  - destruct Hd as [Hdl _ Hdn]. pose proof (Hexact c k Hc Hk). apply nb_eq; [lia |]. intros j Hj.
    rewrite Hdn, orig_eq by lia. rewrite (proj2 (Z.ltb_lt j _)) by lia. unfold dbyte. rewrite Hk. unfold cbyte.
    by rewrite (proj2 (Z.leb_le 0 j)), (proj2 (Z.ltb_lt j _)) by lia.
  - subst d. apply (proj2 Hdam (Z.to_nat c) k k' Hk Ek). rewrite Z2Nat.id by lia. rewrite elem_bads in Hin.
    destruct (is_bad rm' t c); [destruct Hin; split; [done | lia] | done].
Qed.

Lemma recovered_data rm2 : recovered rm' orig (is_bad rm' t) rm2 -> map rc_data (data_cols rm2) = map rc_data (data_cols rm).
Proof.
  intros Hrec. destruct damaged_params as (Ef & Ec & El). pose proof (st_ok _ _ Hst) as [].
  assert (rm_firstdatacol rm2 = rm_firstdatacol rm /\ rm_cols rm2 = rm_cols rm /\ length (rm_col rm2) = length (rm_col rm)) as (E1 & E2 & E3).
  { destruct Hrec as (l & -> & Hl & _). simpl. split_and!; [done | done | lia]. }
  unfold data_cols. rewrite E1, E2. apply list_eq. intros i. rewrite !list_lookup_fmap.
  destruct (decide (i < Z.to_nat (rm_cols rm - rm_firstdatacol rm))%nat) as [Hi | Hi].
  - rewrite !lookup_take_lt, !lookup_drop by lia.
    replace (Z.to_nat (rm_firstdatacol rm) + i)%nat with (Z.to_nat (rm_firstdatacol rm + Z.of_nat i)) by lia.
    destruct (lookup_lt_is_Some_2 (rm_col rm) (Z.to_nat (rm_firstdatacol rm + Z.of_nat i))) as (k & Ek); [lia |].
    destruct (recovered_cols rm2 (rm_firstdatacol rm + Z.of_nat i) k Hrec) as (k2 & -> & E); [lia | done |].
    rewrite Ek. simpl. by rewrite E.
  - by rewrite !lookup_take_ge by lia.
Qed.

Lemma repair_spec alloc general :
  (forall m, 0 <= m -> Z.of_nat (length (alloc m)) = m /\ Forall is_byte (alloc m)) ->
  ascending t = true -> Forall (fun u => 0 <= u < rm_cols rm) t ->
  (1 <= length (bads (is_bad rm' t) (rm_firstdatacol rm) (rm_cols rm - rm_firstdatacol rm)))%nat ->
  Z.of_nat (length (bads (is_bad rm' t) 0 (rm_cols rm))) <= rm_firstdatacol rm ->
  runs (vdev_raidz_reconstruct alloc general rm' t) (fun '(rm2, code) =>
    map rc_data (data_cols rm2) = map rc_data (data_cols rm) /\ used_code rm' (is_bad rm' t) code /\ 0 < code < 8).
Proof.
  intros Halloc Hasc Hr Hone Hfew. destruct damaged_params as (Ef & Ec & El). pose proof (st_ok _ _ Hst) as [].
  rewrite (bads_split _ (rm_firstdatacol rm)), length_app in Hfew by lia.
  destruct (shape_stripe _ _ _ (proj1 Hdam) Hst) as [Hok' Hfull Hpos Hmono].
  eapply runs_impl; [apply (reconstruct_spec rm' pcnt Hok' orig); try done; rewrite ?Ef, ?Ec |].
  - intros. apply uchar_is_byte.
  - lia.
  - done.
  - intros c Hc. apply picked_good in Hc as (Hc & Hb). apply damaged_parity; [by rewrite Ef | done].
  - intros c j Hc. apply damaged_data. by rewrite Ef, Ec.
  - done.
  - lia.
  - intros (rm2, code) (Hrec & Hu & Hc). split; [by apply recovered_data | done].
Qed.
End repair.
