(* ===== verification/RaidzBlock.v ===== *)
(** * Blocks on a RAID-Z vdev

    The maps that [vdev_raidz_map_alloc] gives for I/Os of whole sectors are
    stripes: what the theorems on parity, reconstruction and I/O share. *)
From S2P Require Import Prelude Bytes Gf256 Raidz RaidzSpec RaidzRec RaidzMap RaidzChoice RaidzStripe.
Local Open Scope Z_scope.

(** An I/O of whole sectors on a vdev of [dcols] children, [np] of them
    parity, with sectors of [2 ^ sh] bytes. *)
Record io_ok (sh dcols np io_offset io_size : Z) (io_data : list Z) : Prop := {
  io_sh : 0 <= sh <= 31;
  io_np : 1 <= np <= 3;
  io_dcols : np < dcols <= 65536;
  io_off : 0 <= io_offset < 2 ^ 63;
  io_pos : 0 < io_size < 2 ^ 56;
  io_whole : (2 ^ sh | io_size);
  io_len : Z.of_nat (length io_data) = io_size
}.

Lemma io_geometry alloc sh dcols np io_offset io_size io_data :
  io_ok sh dcols np io_offset io_size io_data ->
  exists s, io_size = s * 2 ^ sh /\ 0 < s /\
    vdev_raidz_map_alloc alloc io_offset io_size io_data sh dcols np = Ok (geometry alloc io_offset s sh dcols np io_data).
Proof.
  intros [? ? ? ? ? (s & ->) ?]. exists s. split; [done |].
  assert (0 < 2 ^ sh) by (apply Z.pow_pos_nonneg; lia). assert (0 < s) by nia. split; [done |].
  apply map_alloc_Ok; (done || lia).
Qed.

(** What [zio_buf_alloc] promises: a buffer of the size asked for. *)
Definition alloc_ok (zio_buf_alloc : Z -> list Z) : Prop :=
  forall n, 0 <= n -> Z.of_nat (length (zio_buf_alloc n)) = n /\ Forall is_byte (zio_buf_alloc n).

(** The 64-bit words of a parity column. *)
Definition parity_words (sh dcols np io_size : Z) : Z := rows (io_size / 2 ^ sh) dcols np 0 * 2 ^ (sh - 3).

Lemma io_stripe alloc sh dcols np io_offset io_size io_data rm :
  io_ok sh dcols np io_offset io_size io_data -> 3 <= sh -> Forall is_byte io_data -> alloc_ok alloc ->
  vdev_raidz_map_alloc alloc io_offset io_size io_data sh dcols np = Ok rm ->
  let pcnt := parity_words sh dcols np io_size in
  stripe rm pcnt /\ rm_firstdatacol rm = np /\ rm_cols rm <= dcols /\ concat (map rc_data (data_cols rm)) = io_data /\
    forall c k, np <= c < rm_cols rm -> rm_col rm !! Z.to_nat c = Some k -> Z.of_nat (length (rc_data k)) = rc_size k.
Proof.
  intros Hio H3 Hb Ha E. destruct (io_geometry alloc _ _ _ _ _ _ Hio) as (s & -> & Hs & G). rewrite E in G. injection G as ->.
  destruct Hio. pose proof (cols_bounds s sh dcols np io_data io_sh0 io_np0 io_dcols0 Hs) as Hc.
  assert (E8 : 8 * (rows s dcols np 0 * 2 ^ (sh - 3)) = rows s dcols np 0 * 2 ^ sh).
  { replace sh with (3 + (sh - 3)) at 2 by lia. rewrite Z.pow_add_r by lia. change (2 ^ 3) with 8. ring. }
  assert (0 < 2 ^ sh) by (apply Z.pow_pos_nonneg; lia).
  assert (Hsize : forall c k, 0 <= c < nscols s dcols np -> rm_col (geometry alloc io_offset s sh dcols np io_data) !! Z.to_nat c = Some k ->
    rc_size k = rows s dcols np c * 2 ^ sh) by (intros c k Hc' Hk; eapply geometry_size; (done || lia)).
  replace (parity_words sh dcols np (s * 2 ^ sh)) with (rows s dcols np 0 * 2 ^ (sh - 3)) by (unfold parity_words; by rewrite Z.div_mul by lia).
  cbv zeta. split; [split |].
  - apply geometry_ok; (done || lia).
  - cbn [rm_firstdatacol geometry]. intros k Hk. rewrite (Hsize np k), E8 by (done || lia). f_equal. apply (rows_par s sh dcols np io_data); lia.
  - cbn [rm_firstdatacol rm_cols geometry]. intros c k Hc' Hk. rewrite (Hsize c k) by (done || lia).
    pose proof (rows_pos s sh dcols np io_data io_sh0 io_np0 io_dcols0 Hs c). nia.
  - cbn [rm_firstdatacol rm_cols geometry]. intros c c' k k' Hc1 Hc2 Hk Hk'. rewrite (Hsize c k), (Hsize c' k') by (done || lia).
    pose proof (rows_mono s sh dcols np io_data io_sh0 io_np0 io_dcols0 Hs c c'). nia.
  - split; [done |]. split; [simpl; lia |]. split; [by apply geometry_data |].
    cbn [rm_cols geometry]. intros c k Hc' Hk. rewrite (Hsize c k) by (done || lia).
    rewrite geometry_col in Hk by lia. injection Hk as <-. cbn [rc_data column].
    rewrite (proj2 (Z.ltb_ge c np)), (proj2 (Z.ltb_lt c _)) by lia. apply slice_length; (done || lia).
Qed.

Lemma same_data_cols rm rm1 : same_shape rm rm1 ->
  rm_firstdatacol rm <= rm_cols rm <= Z.of_nat (length (rm_col rm)) -> 0 <= rm_firstdatacol rm ->
  (forall c k, rm_firstdatacol rm <= Z.of_nat c -> rm_col rm !! c = Some k -> rm_col rm1 !! c = Some k) -> data_cols rm1 = data_cols rm.
Proof.
  intros (l & -> & Hl & _) Hc H0 H. simpl in H. unfold data_cols. simpl. f_equal. apply list_eq. intros i. rewrite !lookup_drop.
  destruct (decide (Z.to_nat (rm_firstdatacol rm) + i < length (rm_col rm))%nat) as [Hi | Hi].
  - destruct (lookup_lt_is_Some_2 _ _ Hi) as (k & Ek). rewrite Ek. apply H; [lia | done].
  - by rewrite !lookup_ge_None_2 by lia.
Qed.

(** The columns of a new map: no error, not tried. *)
Lemma io_fresh alloc sh dcols np io_offset io_size io_data rm c k :
  io_ok sh dcols np io_offset io_size io_data -> vdev_raidz_map_alloc alloc io_offset io_size io_data sh dcols np = Ok rm ->
  0 <= c < rm_cols rm -> rm_col rm !! Z.to_nat c = Some k -> rc_error k = 0 /\ rc_tried k = false /\ rc_skipped k = false.
Proof.
  intros Hio E Hc Hk. destruct (io_geometry alloc _ _ _ _ _ _ Hio) as (s & -> & Hs & G). rewrite E in G. injection G as ->. destruct Hio.
  pose proof (cols_bounds s sh dcols np io_data io_sh0 io_np0 io_dcols0 Hs). cbn [rm_cols geometry] in Hc.
  rewrite geometry_col in Hk by lia. by injection Hk as <-.
Qed.

(** Two maps of the same block, with other data. *)
Lemma io_same alloc alloc' sh dcols np io_offset io_size d d' rm rm' :
  io_ok sh dcols np io_offset io_size d -> io_ok sh dcols np io_offset io_size d' ->
  vdev_raidz_map_alloc alloc io_offset io_size d sh dcols np = Ok rm -> vdev_raidz_map_alloc alloc' io_offset io_size d' sh dcols np = Ok rm' ->
  rm_firstdatacol rm' = rm_firstdatacol rm /\ rm_cols rm' = rm_cols rm /\ length (rm_col rm') = length (rm_col rm) /\
  forall c k, rm_col rm !! Z.to_nat c = Some k -> 0 <= c < rm_cols rm -> exists k', rm_col rm' !! Z.to_nat c = Some k' /\
    rc_devidx k' = rc_devidx k /\ rc_offset k' = rc_offset k /\ rc_size k' = rc_size k.
Proof.
  intros Hio Hio' E E'. destruct (io_geometry alloc _ _ _ _ _ _ Hio) as (s & Es & Hs & G). rewrite E in G. injection G as ->.
  destruct (io_geometry alloc' _ _ _ _ _ _ Hio') as (s' & Es' & Hs' & G'). rewrite E' in G'. injection G' as ->. destruct Hio.
  assert (0 < 2 ^ sh) by (apply Z.pow_pos_nonneg; lia). assert (s' = s) as -> by nia.
  pose proof (cols_bounds s sh dcols np d io_sh0 io_np0 io_dcols0 Hs). split_and!; [done | done | by cbn [rm_col geometry]; rewrite !length_map |].
  intros c k Hk Hc. cbn [rm_cols geometry] in Hc. rewrite geometry_col in Hk by lia. injection Hk as <-. rewrite geometry_col by lia. by eexists.
Qed.

(** The rest of a new map: the space it takes, no missing columns, the places
    of the skipped sectors. *)
Lemma io_rest alloc sh dcols np io_offset io_size io_data rm :
  io_ok sh dcols np io_offset io_size io_data -> vdev_raidz_map_alloc alloc io_offset io_size io_data sh dcols np = Ok rm ->
  rm_asize rm = vdev_raidz_asize sh dcols np io_size /\ rm_missingdata rm = 0 /\ rm_missingparity rm = 0 /\
  0 <= rm_skipstart rm <= rm_scols rm /\ Z.of_nat (length (rm_col rm)) = rm_scols rm /\ 0 <= rm_nskip rm.
Proof.
  intros Hio E. destruct (io_geometry alloc _ _ _ _ _ _ Hio) as (s & -> & Hs & G). rewrite E in G. injection G as ->. destruct Hio.
  pose proof (cols_bounds s sh dcols np io_data io_sh0 io_np0 io_dcols0 Hs) as Hb. pose proof (nsectors_range s sh dcols np io_data).
  split; [symmetry; apply (asize_spec io_offset s sh dcols np io_data); (done || lia) |]. split; [done |]. split; [done |].
  cbn [rm_skipstart rm_scols rm_col rm_nskip geometry]. rewrite length_map, length_seq. split; [| lia].
  destruct (_ && _); lia.
Qed.
