(* ===== verification/RaidzThms.v ===== *)
(** * Theorems on RAID-Z *)
From S2P Require Import Prelude Bytes Gf256 Raidz RaidzSpec RaidzRec RaidzMap RaidzChoice RaidzStripe RaidzBlock.
Local Open Scope Z_scope.

(** ** The map of a block *)
(** C16: an I/O of whole sectors is mapped without a failed assertion, and the
    map is right: the data columns hold the data of the I/O in order, the
    columns lie on distinct children of the vdev, the space taken is what
    [vdev_raidz_asize] computes for the block, and at most [np] sectors of it
    are padding. *)
Theorem raidz_map_correct alloc sh dcols np io_offset io_size io_data :
  io_ok sh dcols np io_offset io_size io_data ->
  exists rm, vdev_raidz_map_alloc alloc io_offset io_size io_data sh dcols np = Ok rm /\
    rm_firstdatacol rm = np /\ np < rm_cols rm <= rm_scols rm /\ Z.of_nat (length (rm_col rm)) = rm_scols rm /\
    concat (map rc_data (data_cols rm)) = io_data /\
    NoDup (map rc_devidx (rm_col rm)) /\ Forall (fun k => 0 <= rc_devidx k < dcols) (rm_col rm) /\
    rm_asize rm = vdev_raidz_asize sh dcols np io_size /\ 0 <= rm_nskip rm <= np.
Proof.
  intros Hio. destruct (io_geometry alloc _ _ _ _ _ _ Hio) as (s & -> & Hs & E). destruct Hio. eexists. split; [exact E |].
  pose proof (cols_bounds s sh dcols np io_data io_sh io_np io_dcols Hs) as Hb.
  split; [done |]. split; [simpl; lia |]. split; [simpl; rewrite length_map, length_seq; lia |].
  split; [by apply geometry_data |]. split; [by apply geometry_devices |]. split; [by apply geometry_devices |].
  split; [symmetry; apply (asize_spec io_offset s sh dcols np io_data); (done || lia) |]. simpl. pose proof (nsectors_range s sh dcols np io_data). lia.
Qed.

(** C31: two blocks whose ranges on the vdev do not overlap, the first one
    taking the space [vdev_raidz_asize] gives it, never share a byte of a
    child device. *)
Theorem raidz_blocks_disjoint alloc sh dcols np o1 n1 d1 o2 n2 d2 rm1 rm2 k1 k2 x :
  io_ok sh dcols np o1 n1 d1 -> io_ok sh dcols np o2 n2 d2 ->
  o1 + vdev_raidz_asize sh dcols np n1 <= o2 ->
  vdev_raidz_map_alloc alloc o1 n1 d1 sh dcols np = Ok rm1 ->
  vdev_raidz_map_alloc alloc o2 n2 d2 sh dcols np = Ok rm2 ->
  k1 ∈ rm_col rm1 -> k2 ∈ rm_col rm2 -> rc_devidx k1 = rc_devidx k2 ->
  ~ (rc_offset k1 <= x < rc_offset k1 + rc_size k1 /\ rc_offset k2 <= x < rc_offset k2 + rc_size k2).
Proof.
  intros H1 H2 Ho E1 E2 Hk1 Hk2 Hd (Hx1 & Hx2).
  destruct (io_geometry alloc _ _ _ _ _ _ H1) as (s1 & -> & Hs1 & G1). rewrite E1 in G1. injection G1 as ->.
  destruct (io_geometry alloc _ _ _ _ _ _ H2) as (s2 & -> & Hs2 & G2). rewrite E2 in G2. injection G2 as ->.
  destruct H1, H2. rewrite (asize_spec o1 s1 sh dcols np d1) in Ho by (done || lia).
  apply (byte_sector alloc o1 s1 sh dcols np d1) in Hx1 as (t1 & A1 & B1 & C1); try (done || lia).
  apply (byte_sector alloc o2 s2 sh dcols np d2) in Hx2 as (t2 & A2 & B2 & C2); try (done || lia).
  assert (t1 = t2) by (rewrite (Z.div_mod t1 dcols), (Z.div_mod t2 dcols) by lia; congruence). subst t2.
  pose proof (nsectors_range s1 sh dcols np d1). assert (0 < 2 ^ sh) by (apply Z.pow_pos_nonneg; lia).
  assert (sec0 o1 sh + nsectors s1 dcols np <= sec0 o2 sh); [| lia].
  unfold sec0. rewrite <- Z.div_add by lia. apply Z.div_le_mono; lia.
Qed.

(** ** Parity and reconstruction *)
(** The parity of a mapped block is generated without a failed assertion;
    parity column [i] holds at each byte the sum over the data columns of
    their bytes, column by column multiplied by [2 ^ i] in the field of 256
    elements; the data columns are left alone. *)
Theorem raidz_parity_correct alloc sh dcols np io_offset io_size io_data rm :
  io_ok sh dcols np io_offset io_size io_data -> 3 <= sh -> Forall is_byte io_data -> alloc_ok alloc ->
  vdev_raidz_map_alloc alloc io_offset io_size io_data sh dcols np = Ok rm ->
  exists rm1, vdev_raidz_generate_parity rm = Ok rm1 /\ data_cols rm1 = data_cols rm /\
    forall i k j, (i < Z.to_nat np)%nat -> rm_col rm1 !! i = Some k -> 0 <= j < rc_size k ->
      nb (rc_data k) j = hsum (gpow i) (fun c => dbyte rm1 c j) np (Z.to_nat (rm_cols rm1 - np)).
Proof.
  intros Hio H3 Hb Ha E. destruct (io_stripe _ _ _ _ _ _ _ _ Hio H3 Hb Ha E) as (Hst & Enp & _).
  pose proof (generate_right _ _ Hst) as Hg. destruct (vdev_raidz_generate_parity rm) as [rm1 |]; [| done].
  destruct Hg as (Hst1 & Hs & Hp & Hd). exists rm1. split; [done |].
  pose proof (ok_np _ _ (st_ok _ _ Hst)). pose proof (ok_cols _ _ (st_ok _ _ Hst)). pose proof (ok_len _ _ (st_ok _ _ Hst)).
  split; [apply same_data_cols; (done || lia) |]. intros i k j Hi Hk Hj.
  assert (Ef : rm_firstdatacol rm1 = np) by (destruct Hs as (l & -> & _); done).
  destruct (ok_par _ _ (st_ok _ _ Hst1) (Z.of_nat i) k) as (Ek & _); [lia | by rewrite Nat2Z.id |].
  rewrite (Hp i k j) by (done || lia). unfold parity_byte, ndata. by rewrite Ef.
Qed.

(** C3: a block written with its parity can be read when at most as many of
    its columns are lost as it has parity columns, whichever they are:
    [vdev_raidz_reconstruct], by its special methods or by the general one,
    fails no assertion and gives the data of the block back. The code it
    returns names as many intact parity columns as data columns were lost. *)
Theorem raidz_reconstruct_correct alloc general sh dcols np io_offset io_size io_data rm rm1 rm2 t :
  io_ok sh dcols np io_offset io_size io_data -> 3 <= sh -> dcols <= 255 -> Forall is_byte io_data -> alloc_ok alloc ->
  vdev_raidz_map_alloc alloc io_offset io_size io_data sh dcols np = Ok rm -> vdev_raidz_generate_parity rm = Ok rm1 ->
  damaged t rm1 rm2 -> ascending t = true -> Forall (fun u => 0 <= u < rm_cols rm1) t ->
  (1 <= length (bads (is_bad rm2 t) np (rm_cols rm1 - np)))%nat ->
  Z.of_nat (length (bads (is_bad rm2 t) 0 (rm_cols rm1))) <= np ->
  exists rm3 code, vdev_raidz_reconstruct alloc general rm2 t = Ok (rm3, code) /\
    concat (map rc_data (data_cols rm3)) = io_data /\ used_code rm2 (is_bad rm2 t) code.
Proof.
  intros Hio H3 H255 Hb Ha E Eg Hdam Hasc Hr Hone Hfew.
  destruct (io_stripe _ _ _ _ _ _ _ _ Hio H3 Hb Ha E) as (Hst & Enp & Hdc & Hcat & Hex).
  pose proof (generate_right _ _ Hst) as Hg. rewrite Eg in Hg. destruct Hg as (Hst1 & Hs & Hp & Hd).
  assert (rm_firstdatacol rm1 = np /\ rm_cols rm1 = rm_cols rm) as (Ef & Ec) by (destruct Hs as (l & -> & _); done).
  assert (Hex1 : forall c k, rm_firstdatacol rm1 <= c < rm_cols rm1 -> rm_col rm1 !! Z.to_nat c = Some k ->
    Z.of_nat (length (rc_data k)) = rc_size k).
  { intros c k Hc Hk. destruct (shape_inv _ _ _ _ Hs Hk) as (k0 & E0 & -> & -> & _). apply (Hex c k0); [lia | done]. }
  pose proof (repair_spec rm1 rm2 _ t Hst1 Hp Hdam ltac:(lia) Hex1 alloc general Ha Hasc Hr) as Hrep.
  rewrite Ef in Hrep. specialize (Hrep Hone Hfew).
  destruct (vdev_raidz_reconstruct alloc general rm2 t) as [(rm3, code) |]; [| done]. destruct Hrep as (E3 & Hu & _).
  exists rm3, code. split; [done |]. split; [| done]. rewrite E3, <- Hcat. do 2 f_equal. pose proof (st_ok _ _ Hst) as [].
  apply same_data_cols; (done || lia).
Qed.

(** Doubling a 64-bit word of eight bytes at once, as the parity loops do,
    doubles each of its bytes. *)
Theorem raidz_mul64_bytewise w : 0 <= w < 2 ^ 64 ->
  le_bytes 8 (VDEV_RAIDZ_64MUL_2 w) = map (fun b => uchar (VDEV_RAIDZ_MUL_2 b)) (le_bytes 8 w) /\
  le_bytes 8 (VDEV_RAIDZ_64MUL_4 w) = map (fun b => uchar (VDEV_RAIDZ_MUL_4 b)) (le_bytes 8 w).
Proof.
  intros Hw. assert (Hx : Forall is_byte (le_bytes 8 w)) by apply le_bytes_byte.
  assert (Ew : w = le_word (le_bytes 8 w)) by (symmetry; apply le_word_bytes; done).
  assert (E2 : forall xs, length xs = 8%nat -> Forall is_byte xs -> le_bytes 8 (VDEV_RAIDZ_64MUL_2 (le_word xs)) = map gmul2 xs).
  { intros xs Hl Hb. rewrite mul64_bytes by done. replace 8%nat with (length (map gmul2 xs)) by (by rewrite length_map).
    apply le_bytes_word, Forall_map, Forall_true. intros; apply gmul2_byte. }
  rewrite Ew at 1 3. split; [by apply E2 |]. unfold VDEV_RAIDZ_64MUL_4. rewrite mul64_bytes by done.
  rewrite E2 by (by rewrite ?length_map || (apply Forall_map, Forall_true; intros; apply gmul2_byte)). rewrite map_map. apply map_ext_Forall.
  eapply Forall_impl; [exact Hx |]. apply gmul4_uchar.
Qed.

(** A block of three sectors and one behind it, on four children of which one
    is parity. *)
Lemma raidz_map_correct_witness :
  exists rm, vdev_raidz_map_alloc (fun n => repeat 0 (Z.to_nat n)) 4096 1536 (repeat 1 1536) 9 4 1 = Ok rm /\
    rm_asize rm = vdev_raidz_asize 9 4 1 1536.
Proof.
  assert (H : io_ok 9 4 1 4096 1536 (repeat 1 1536)).
  { split; try lia; [exists 3; reflexivity | reflexivity]. }
  destruct (raidz_map_correct (fun n => repeat 0 (Z.to_nat n)) 9 4 1 4096 1536 (repeat 1 1536) H)
    as (rm & E & _ & _ & _ & _ & _ & _ & Ha & _).
  exists rm. split; [exact E | exact Ha].
Defined.

Lemma raidz_blocks_disjoint_witness :
  exists rm1 rm2 k1 k2, k1 ∈ rm_col rm1 /\ k2 ∈ rm_col rm2 /\ rc_devidx k1 = rc_devidx k2 /\
    ~ (rc_offset k1 <= rc_offset k2 < rc_offset k1 + rc_size k1 /\
       rc_offset k2 <= rc_offset k2 < rc_offset k2 + rc_size k2).
Proof.
  assert (H1 : io_ok 9 4 1 4096 1536 (repeat 1 1536)) by (split; try lia; [exists 3; reflexivity | reflexivity]).
  assert (H2 : io_ok 9 4 1 6144 512 (repeat 2 512)) by (split; try lia; [exists 1; reflexivity | reflexivity]).
  assert (Ho : 4096 + vdev_raidz_asize 9 4 1 1536 <= 6144) by (vm_compute; discriminate).
  set (alloc := fun n => repeat 0 (Z.to_nat n)).
  destruct (vdev_raidz_map_alloc alloc 4096 1536 (repeat 1 1536) 9 4 1) as [rm1 |] eqn:E1; [| vm_compute in E1; discriminate].
  destruct (vdev_raidz_map_alloc alloc 6144 512 (repeat 2 512) 9 4 1) as [rm2 |] eqn:E2; [| vm_compute in E2; discriminate].
  destruct (rm_col rm1 !! 0%nat) as [k1 |] eqn:K1; [| vm_compute in E1; injection E1 as <-; discriminate].
  destruct (rm_col rm2 !! 0%nat) as [k2 |] eqn:K2; [| vm_compute in E2; injection E2 as <-; discriminate].
  apply list_elem_of_lookup_2 in K1 as I1. apply list_elem_of_lookup_2 in K2 as I2.
  assert (Hd : rc_devidx k1 = rc_devidx k2).
  { vm_compute in E1, E2. injection E1 as <-. injection E2 as <-. vm_compute in K1, K2. injection K1 as <-. injection K2 as <-.
    reflexivity. }
  exists rm1, rm2, k1, k2. split; [exact I1 |]. split; [exact I2 |]. split; [exact Hd |].
  exact (raidz_blocks_disjoint alloc 9 4 1 4096 1536 (repeat 1 1536) 6144 512 (repeat 2 512) rm1 rm2 k1 k2 (rc_offset k2)
           H1 H2 Ho E1 E2 I1 I2 Hd).
Defined.

(** Two sectors of eight bytes on five children with triple parity. *)
Definition zero_alloc (n : Z) : list Z := repeat 0 (Z.to_nat n).
Definition block16 : list Z := [1; 2; 3; 4; 5; 6; 7; 8; 0xff; 0x80; 0; 0x1d; 42; 0xc0; 99; 200].

Lemma zero_alloc_ok : alloc_ok zero_alloc.
Proof.
  intros n Hn. unfold zero_alloc. rewrite repeat_length. split; [lia |]. apply Forall_forall. intros x Hx.
  apply list_elem_of_In, repeat_spec in Hx. subst x. unfold is_byte. lia.
Qed.

Lemma block16_ok np : 1 <= np <= 3 -> io_ok 3 5 np 0 16 block16 /\ Forall is_byte block16.
Proof.
  intros Hnp. split; [split; try lia; [exists 2; reflexivity | reflexivity] |].
  unfold block16. repeat constructor; unfold is_byte; lia.
Qed.

Lemma raidz_parity_correct_witness :
  exists rm rm1, vdev_raidz_map_alloc zero_alloc 0 16 block16 3 5 3 = Ok rm /\ vdev_raidz_generate_parity rm = Ok rm1 /\
    data_cols rm1 = data_cols rm.
Proof.
  destruct (block16_ok 3 ltac:(lia)) as (Hio & Hb).
  destruct (vdev_raidz_map_alloc zero_alloc 0 16 block16 3 5 3) as [rm |] eqn:E; [| vm_compute in E; discriminate].
  destruct (raidz_parity_correct zero_alloc 3 5 3 0 16 block16 rm Hio ltac:(lia) Hb zero_alloc_ok E) as (rm1 & Eg & Hd & _).
  exists rm, rm1. split; [reflexivity |]. split; [exact Eg | exact Hd].
Defined.

(** All its data and the first parity are lost. *)
Definition wipe (lost : list Z) (rm : raidz_map) : raidz_map :=
  set_cols rm (imap (fun i k => if bool_decide (Z.of_nat i ∈ lost) then with_data k (repeat 0 (length (rc_data k))) else k) (rm_col rm)).

Lemma wipe_damaged lost rm : damaged lost rm (wipe lost rm).
Proof.
  assert (H0 : forall m, Forall is_byte (repeat 0 m)).
  { intros m. apply Forall_forall. intros x Hx. apply list_elem_of_In, repeat_spec in Hx. subst x. unfold is_byte. lia. }
  split.
  - eexists. split; [reflexivity |]. split; [apply length_imap |]. intros c k Hk. rewrite list_lookup_imap, Hk. simpl.
    eexists. split; [reflexivity |]. destruct (bool_decide _); [| done]. simpl. split; [done |]. split; [apply repeat_length | done].
  - intros c k k' Hk Hk' Hbad. cbn [wipe set_cols rm_col] in Hk'. rewrite list_lookup_imap, Hk in Hk'. simpl in Hk'.
    injection Hk' as <-. unfold is_bad in Hbad. destruct (bool_decide (Z.of_nat c ∈ lost)); [discriminate | reflexivity].
Qed.

Lemma raidz_reconstruct_correct_witness :
  exists rm2 rm3 code, vdev_raidz_reconstruct zero_alloc false rm2 [0; 3; 4] = Ok (rm3, code) /\
    concat (map rc_data (data_cols rm2)) <> block16 /\ concat (map rc_data (data_cols rm3)) = block16.
Proof.
  destruct (block16_ok 3 ltac:(lia)) as (Hio & Hb).
  destruct (vdev_raidz_map_alloc zero_alloc 0 16 block16 3 5 3) as [rm |] eqn:E; [| vm_compute in E; discriminate].
  destruct (vdev_raidz_generate_parity rm) as [rm1 |] eqn:Eg;
    [| vm_compute in E; injection E as <-; vm_compute in Eg; discriminate].
  assert (Hc : rm_cols rm1 = 5).
  { vm_compute in E. injection E as <-. vm_compute in Eg. injection Eg as <-. reflexivity. }
  assert (Hone : (1 <= length (bads (is_bad (wipe [0; 3; 4]%Z rm1) [0; 3; 4]%Z) 3 (rm_cols rm1 - 3)))%nat).
  { vm_compute in E. injection E as <-. vm_compute in Eg. injection Eg as <-. vm_compute. lia. }
  assert (Hfew : Z.of_nat (length (bads (is_bad (wipe [0; 3; 4]%Z rm1) [0; 3; 4]%Z) 0 (rm_cols rm1))) <= 3).
  { vm_compute in E. injection E as <-. vm_compute in Eg. injection Eg as <-. vm_compute. discriminate. }
  assert (Hne : concat (map rc_data (data_cols (wipe [0; 3; 4]%Z rm1))) <> block16).
  { vm_compute in E. injection E as <-. vm_compute in Eg. injection Eg as <-. vm_compute. discriminate. }
  destruct (raidz_reconstruct_correct zero_alloc false 3 5 3 0 16 block16 rm rm1 (wipe [0; 3; 4]%Z rm1) [0; 3; 4]%Z
    Hio ltac:(lia) ltac:(lia) Hb zero_alloc_ok E Eg (wipe_damaged _ _) eq_refl ltac:(rewrite Hc; repeat constructor; lia) Hone Hfew)
    as (rm3 & code & Er & Hd & _).
  exists (wipe [0; 3; 4]%Z rm1), rm3, code. split; [exact Er |]. split; [exact Hne | exact Hd].
Defined.

Lemma raidz_mul64_bytewise_witness :
  le_bytes 8 (VDEV_RAIDZ_64MUL_2 0xff80010000000000) = [0; 0; 0; 0; 0; 2; 0x1d; 0xe3].
Proof. rewrite (proj1 (raidz_mul64_bytewise 0xff80010000000000 ltac:(lia))). reflexivity. Defined.
