(* ===== verification/RaidzSolve.v ===== *)
(** * Reconstruction from any bytes

    Whatever the columns in use hold, there are bytes for the missing columns
    that agree with them: so [vdev_raidz_reconstruct] ends without a failed
    assertion on every map of the right shape, and changes nothing but the
    buffers of the data columns it rebuilds. *)
From Stdlib Require Import Field.
From S2P Require Import Prelude Bytes Gf256 GfField RaidzMat Raidz RaidzSpec RaidzRec RaidzInv RaidzGen RaidzChoice RaidzStripe.
Local Open Scope Z_scope.

(** ** The elimination solves the equations *)
Section solve.
Context (k : nat) (Hk : (1 <= k <= 3)%nat) (p : nat -> nat) (X : nat -> gf).
Context (Hp : forall r s, (r < s < k)%nat -> (p r < p s)%nat) (Hp2 : forall r, (r < k)%nat -> (p r <= 2)%nat).
Context (HX0 : forall i, (i < k)%nat -> X i <> 0%gf) (HX : forall i j, (i < k)%nat -> (j < k)%nat -> X i = X j -> i = j).
Notation P := (fun i => vand p (X i)).

Lemma elim_solves (b : nat -> gf) r : (r < k)%nat ->
  gsum (fun l => P (Z.to_nat l) r * elim P k b (Z.to_nat l))%gf (seqZ 0 (Z.of_nat k)) = b r.
Proof.
  intros Hr. pose proof (first_nz k Hk p X HX0) as F0. destruct k as [| [| [| [| k']]]] eqn:Ek; [lia | | | | lia].
  - change (seqZ 0 (Z.of_nat 1)) with [0]. cbn [gsum foldr]. change (Z.to_nat 0) with 0%nat. rewrite (elim_1 P b F0).
    destruct r as [| r]; [| lia]. cbn [Nat.eqb]. field. exact F0.
  - pose proof (second_nz 2 Hk p X Hp Hp2 HX0 HX ltac:(lia)) as F1. change (seqZ 0 (Z.of_nat 2)) with [0; 1]. cbn [gsum foldr].
    change (Z.to_nat 0) with 0%nat. change (Z.to_nat 1) with 1%nat.
    rewrite (elim_2_0 P b F0 F1), (elim_2_1 P b F0 F1). unfold detc, det2 in *.
    destruct r as [| [| r]]; [| | lia]; field; exact F1.
  - pose proof (second_nz 3 Hk p X Hp Hp2 HX0 HX ltac:(lia)) as F1. pose proof (third_nz 3 Hk p X Hp Hp2 HX eq_refl) as F2.
    change (seqZ 0 (Z.of_nat 3)) with [0; 1; 2]. cbn [gsum foldr].
    change (Z.to_nat 0) with 0%nat. change (Z.to_nat 1) with 1%nat. change (Z.to_nat 2) with 2%nat.
    rewrite (elim_3_0 P b F0 F1 F2), (elim_3_1 P b F0 F1 F2), (elim_3_2 P b F0 F1 F2). unfold colsdet, det3, det2 in *.
    destruct r as [| [| [| r]]]; [| | | lia]; field; exact F2.
Qed.
End solve.

(** ** Bytes for the missing columns *)
Section bytes.
Context (rm : raidz_map) (pcnt : Z) (Hok : rz_ok rm pcnt).
Notation fdc := (rm_firstdatacol rm).
Context (n k : Z) (missing used : list Z) (ms us : Z -> Z).
Context (Hn : n = rm_cols rm - fdc) (Hsp : split_cols fdc n k missing used ms us).

(** What the parities in use say of the missing columns, byte [x]. *)
Definition syndrome (x : Z) (r : nat) : gf :=
  (ybyte rm us x (Z.of_nat r) + gsum (fun j => vrow n us (Z.of_nat r) (us j - fdc) * gof (dbyte rm (us j) x)) (seqZ k (n - k)))%gf.
Definition sol (x l : Z) : gf := elim (pcol n ms us) (Z.to_nat k) (syndrome x) (Z.to_nat l).
Definition is_missing (c : Z) : bool := existsb (fun l => ms l + fdc =? c) (seqZ 0 k).
Definition fill (c x : Z) : Z :=
  if is_missing c then gz (gsum (fun l => if (ms l + fdc =? c)%Z then sol x l else 0)%gf (seqZ 0 k)) else uchar (dbyte rm c x).

Lemma fill_byte c x : is_byte (fill c x).
Proof. unfold fill. destruct (is_missing c); [apply gz_is_byte | apply uchar_is_byte]. Qed.

Lemma ms_inj i j : 0 <= i < k -> 0 <= j < k -> ms i = ms j -> i = j.
Proof.
  intros Hi Hj E. destruct Hsp. destruct (Z.lt_trichotomy i j) as [? | [? | ?]]; [pose proof (sp_incr i j) | done | pose proof (sp_incr j i)]; lia.
Qed.

Lemma fill_missing l x : 0 <= l < k -> gof (fill (ms l + fdc) x) = sol x l.
Proof.
  intros Hl. unfold fill. assert (E : is_missing (ms l + fdc) = true).
  { apply existsb_exists. exists l. split; [apply list_elem_of_In, elem_of_seqZ; lia | lia]. }
  rewrite E, gof_gz, (gsum_single _ l).
  - by rewrite Z.eqb_refl.
  - apply NoDup_seqZ.
  - apply elem_of_seqZ. lia.
  - intros y Hy Hne. apply elem_of_seqZ in Hy. destruct (Z.eqb_spec (ms y + fdc) (ms l + fdc)); [| done]. destruct Hne. apply ms_inj; lia.
Qed.

Lemma fill_good c x : fdc <= c < rm_cols rm -> is_missing c = false -> fill c x = dbyte rm c x.
Proof.
  intros Hc E. unfold fill. rewrite E. apply uchar_byte. destruct Hok. unfold dbyte.
  destruct (rm_col rm !! Z.to_nat c) as [kc |] eqn:Ek; [| unfold is_byte; lia]. apply cbyte_byte. by apply (ok_data c kc).
Qed.

Lemma used_not_missing j : k <= j < n -> is_missing (us j) = false.
Proof.
  intros Hj. apply not_true_iff_false. unfold is_missing. rewrite existsb_exists. intros (l & Hl & E).
  apply list_elem_of_In, elem_of_seqZ in Hl. destruct Hsp. apply (sp_apart l j); lia.
Qed.

Lemma fill_parity i : 0 <= i < k -> exists kp, parity_valid rm pcnt fill (Z.to_nat (us i)) kp.
Proof.
  intros Hi. pose proof Hsp as []. pose proof (ok_np _ _ Hok). destruct (sp_parity i Hi) as (U0 & U1). pose proof (ok_cols _ _ Hok).
  destruct (ok_col _ _ (us i) Hok) as (kp & Hk); [lia |]. exists kp. split; [done |]. split; [lia |]. intros x Hx.
  rewrite hsum_gsum by (intros; apply fill_byte). replace (Z.of_nat (ndata rm)) with n by (unfold ndata; lia).
  rewrite <- (gsum_perm _ _ _ (split_perm rm n k missing used ms us Hsp)), gsum_app, !gsum_map.
  rewrite (gsum_ext _ (fun l => pcol n ms us (Z.to_nat l) (Z.to_nat i) * elim (pcol n ms us) (Z.to_nat k) (syndrome x) (Z.to_nat l))%gf (seqZ 0 k)).
  2:{ intros l Hl. apply elem_of_seqZ in Hl. rewrite (Z.add_comm fdc), fill_missing by lia. unfold sol, pcol, vand, pn, nodes. by rewrite !Z2Nat.id by lia. }
  rewrite (gsum_ext _ (fun j => vrow n us i (us j - fdc) * gof (dbyte rm (us j) x))%gf (seqZ k (n - k))).
  2:{ intros j Hj. apply elem_of_seqZ in Hj. replace (fdc + (us j - fdc)) with (us j) by lia.
      rewrite fill_good; [done | pose proof (sp_data j); lia | apply used_not_missing; lia]. }
  assert (Es : gsum (fun l => pcol n ms us (Z.to_nat l) (Z.to_nat i) * elim (pcol n ms us) (Z.to_nat k) (syndrome x) (Z.to_nat l))%gf (seqZ 0 k)
    = syndrome x (Z.to_nat i)).
  { replace (seqZ 0 k) with (seqZ 0 (Z.of_nat (Z.to_nat k))) by (f_equal; lia).
    apply (elim_solves (Z.to_nat k) (k_nat rm n k missing used ms us Hsp) (pn us) (nodes n ms)).
    - apply (pn_incr rm n k missing used ms us Hsp).
    - apply (pn_two rm n k missing used ms us Hsp).
    - apply (nodes_nz n k ms).
    - apply (nodes_inj rm n k missing used ms us Hsp).
    - lia. }
  rewrite Es.
  unfold syndrome. rewrite Z2Nat.id by lia. set (A := gsum _ _). transitivity (gz (ybyte rm us x i)).
  - unfold ybyte, dbyte. rewrite Hk. destruct (ok_par _ _ Hok (us i) kp) as (Sp & Lp & Bp); [lia | done |].
    unfold cbyte. rewrite (proj2 (Z.leb_le 0 x)), (proj2 (Z.ltb_lt x _)) by lia. cbn [andb]. symmetry. apply gz_gof. by apply nb_byte.
  - f_equal. transitivity (ybyte rm us x i + (A + A))%gf; [rewrite gadd_self; ring | ring].
Qed.
End bytes.

(** ** [vdev_raidz_reconstruct] on any bytes *)
(** [rm'] is [rm] but for the bytes of the bad data columns. *)
Definition rebuilt (rm : raidz_map) (bad : Z -> bool) (rm' : raidz_map) : Prop :=
  exists l, rm' = set_cols rm l /\ length l = length (rm_col rm) /\
  forall c k, rm_col rm !! c = Some k -> exists d, l !! c = Some (with_data k d) /\ length d = length (rc_data k) /\
    (Forall is_byte (rc_data k) -> Forall is_byte d) /\
    (Z.of_nat c ∉ bads bad (rm_firstdatacol rm) (rm_cols rm - rm_firstdatacol rm) -> d = rc_data k).

Lemma rebuilt_shape rm bad rm' : rebuilt rm bad rm' -> same_shape rm rm'.
Proof.
  intros (l & -> & Hl & Hc). exists l. split; [done |]. split; [done |]. intros c k Hk.
  destruct (Hc c k Hk) as (d & Ed & Hlen & Hb & _). exists (with_data k d). done.
Qed.

Lemma recovered_rebuilt rm D bad rm' : recovered rm D bad rm' -> rebuilt rm bad rm'.
Proof.
  intros (l & -> & Hl & Hc). exists l. split; [done |]. split; [done |]. intros c k Hk.
  destruct (Hc c k Hk) as (d & Ed & Hd). exists d. split; [done |]. case_bool_decide as Hin.
  - destruct Hd as [Hlen Hb _]. split_and!; done.
  - by subst d.
Qed.

Section any.
Context (rm : raidz_map) (pcnt : Z) (Hst : stripe rm pcnt) (H255 : rm_cols rm <= 255) (t : list Z).
Notation fdc := (rm_firstdatacol rm).
Notation cols := (rm_cols rm).
Notation n := (rm_cols rm - rm_firstdatacol rm).
Notation bad := (is_bad rm t).
Context (alloc : Z -> list Z) (Halloc : forall m, 0 <= m -> Z.of_nat (length (alloc m)) = m /\ Forall is_byte (alloc m)).
Context (Hasc : ascending t = true) (Hrange : Forall (fun u => 0 <= u < cols) t).
Context (Hone : (1 <= length (bads bad fdc n))%nat) (Hfew : Z.of_nat (length (bads bad 0 cols)) <= fdc).

Lemma reconstruct_any general : runs (vdev_raidz_reconstruct alloc general rm t) (fun '(rm', code) =>
  rebuilt rm bad rm' /\ used_code rm bad code /\ 0 < code < 8).
Proof.
  pose proof Hst as [Hok Hfull Hpos Hmono]. pose proof (ok_np _ _ Hok). pose proof (ok_cols _ _ Hok).
  rewrite (bads_split _ fdc), length_app in Hfew by lia.
  pose proof (split_ok bad fdc cols ltac:(lia) ltac:(lia) ltac:(lia) Hone ltac:(lia)) as Hsp.
  set (D := fill rm n (Z.of_nat (nbad bad fdc cols)) (mth (missing bad fdc cols)) (mth (used bad fdc cols))).
  eapply runs_impl; [apply (reconstruct_spec rm pcnt Hok D); try done |].
  - intros. apply fill_byte.
  - intros c Hc. apply elem_mth in Hc as (j & Hj & <-).
    assert (Hl : Z.of_nat (length (picked bad fdc cols)) <= Z.of_nat (nbad bad fdc cols)) by (unfold picked; rewrite length_take; lia).
    destruct (fill_parity rm pcnt Hok n _ _ _ _ _ eq_refl Hsp j) as (kp & Hp); [lia |]. exists kp.
    assert (E : mth (used bad fdc cols) j = mth (picked bad fdc cols) j) by (unfold mth, used; by rewrite app_nth1 by lia).
    by rewrite E in Hp.
  - intros c j Hc Hb. unfold D. rewrite (fill_good rm pcnt Hok); [done | done |]. apply not_true_iff_false. intros Hm.
    apply existsb_exists in Hm as (l & Hl & E). apply list_elem_of_In, elem_of_seqZ in Hl.
    rewrite missing_mth in E by lia. pose proof (mth_elem (bads bad fdc n) l ltac:(unfold nbad in Hl; lia)) as He.
    apply elem_bads in He as (He & _). apply Z.eqb_eq in E. replace (mth (bads bad fdc n) l) with c in He by lia. congruence.
  - lia.
  - intros (rm', code) (Hrec & Hu & Hc). split; [by eapply recovered_rebuilt | done].
Qed.
End any.
