(* ===== verification/Rlock.v ===== *)
(** * File range locks (zfs/module/zfs/zfs_rlock.c, zfs/include/sys/zfs_rlock.h)

    The structures live in a store indexed by their address ([rls]); the AVL
    tree of a [zfs_rlock] holds addresses. A call that has to wait puts its
    thread on the queue of a condition variable ([waiting]); a broadcast moves
    the threads of that queue to [woken], from where they run on when they get
    the mutex. What runs between two waits, with the mutex held, is one step.
    [None] in the place of an [avl_index] is the variable [where] before
    [avl_find] has set it. *)
From S2P Require Import Prelude Avl OrdTree.
Local Open Scope Z_scope.

Inductive rl_type_t : Set := RL_READER | RL_WRITER | RL_APPEND.
#[global] Instance rl_type_eq_dec : EqDecision rl_type_t.
Proof. solve_decision. Defined.

Abbreviation rlp := positive.

Record rl_t : Type := MkRl {
  r_off : Z;
  r_len : Z;
  r_cnt : Z;
  r_type : rl_type_t;
  r_proxy : bool;
  r_write_wanted : bool;
  r_read_wanted : bool }.

(** A thread in [cv_wait]: its own lock structure, the one whose condition
    variable it waits on, which of the two, and the range it was asked for. *)
Record waiter : Type := MkWaiter { w_new : rlp; w_on : rlp; w_writer : bool; w_off : Z; w_len : Z }.

Record zfs_rlock (T : Type) : Type := MkZrl {
  zr_avl : T;
  zr_size : option Z;
  zr_blksz : Z;
  zr_max_blksz : Z;
  rls : gmap rlp rl_t;
  waiting : list waiter;
  woken : list waiter }.
Arguments MkZrl {T}.
Arguments zr_avl {T}.
Arguments zr_size {T}.
Arguments zr_blksz {T}.
Arguments zr_max_blksz {T}.
Arguments rls {T}.
Arguments waiting {T}.
Arguments woken {T}.

Definition UINT64_MAX : Z := W64 - 1.
Definition ISP2 (x : Z) : bool := Z.land x (x - 1) =? 0.
Definition u32_add (x y : Z) : Z := (x + y) mod 2 ^ 32.

(** Assignments to fields. *)
Definition with_range (off len : Z) (r : rl_t) : rl_t :=
  MkRl off len (r_cnt r) (r_type r) (r_proxy r) (r_write_wanted r) (r_read_wanted r).
Definition with_cnt (n : Z) (r : rl_t) : rl_t :=
  MkRl (r_off r) (r_len r) n (r_type r) (r_proxy r) (r_write_wanted r) (r_read_wanted r).
Definition with_type (ty : rl_type_t) (r : rl_t) : rl_t :=
  MkRl (r_off r) (r_len r) (r_cnt r) ty (r_proxy r) (r_write_wanted r) (r_read_wanted r).
Definition want_write (r : rl_t) : rl_t :=
  MkRl (r_off r) (r_len r) (r_cnt r) (r_type r) (r_proxy r) true (r_read_wanted r).
Definition want_read (r : rl_t) : rl_t :=
  MkRl (r_off r) (r_len r) (r_cnt r) (r_type r) (r_proxy r) (r_write_wanted r) true.

(** [rl->r_off + rl->r_len] *)
Definition r_end (r : rl_t) : Z := u64_add (r_off r) (r_len r).

Definition proxy_of (off len cnt : Z) : rl_t := MkRl off len cnt RL_READER true false false.

Definition zfs_range_compare (rl1 rl2 : rl_t) : Z :=
  if r_off rl2 <? r_off rl1 then 1 else if r_off rl1 <? r_off rl2 then -1 else 0.

(** The comparison as the AVL library calls it, on addresses. *)
Definition rl_compar (m : gmap rlp rl_t) (i j : rlp) : Z :=
  match m !! i, m !! j with Some a, Some b => zfs_range_compare a b | _, _ => 2 end.

Section ops.
Context {T : Type} `{!AvlOps rlp T}.
Implicit Types (s : zfs_rlock T) (i new : rlp).

Definition set_avl s (t : T) : zfs_rlock T :=
  MkZrl t (zr_size s) (zr_blksz s) (zr_max_blksz s) (rls s) (waiting s) (woken s).
Definition set_rls s (m : gmap rlp rl_t) : zfs_rlock T :=
  MkZrl (zr_avl s) (zr_size s) (zr_blksz s) (zr_max_blksz s) m (waiting s) (woken s).
Definition set_queues s (ws rs : list waiter) : zfs_rlock T :=
  MkZrl (zr_avl s) (zr_size s) (zr_blksz s) (zr_max_blksz s) (rls s) ws rs.

Definition get s i : result rl_t := deref (rls s !! i).
Definition upd s i (f : rl_t -> rl_t) : result (zfs_rlock T) :=
  r ← get s i ; Ok (set_rls s (<[i := f r]> (rls s))).

(** [kmem_alloc] followed by the assignments to the fields. *)
Definition alloc s (r : rl_t) : zfs_rlock T * rlp :=
  let i := fresh (dom (rls s)) in (set_rls s (<[i := r]> (rls s)), i).

Definition get_opt s (o : option rlp) : result (option (rlp * rl_t)) :=
  match o with None => Ok None | Some i => r ← get s i ; Ok (Some (i, r)) end.

Definition nearest s (w : option (avl_index rlp)) (d : ix) : result (option (rlp * rl_t)) :=
  w ← deref w ; o ← t_nearest (zr_avl s) w d ; get_opt s o.

Definition avl_next s i : result (option (rlp * rl_t)) :=
  o ← t_next (zr_avl s) i ; get_opt s o.

(** [avl_find(tree, new, &where)] *)
Definition find s new : result (rlp + avl_index rlp) :=
  t_find (rl_compar (rls s) new) (zr_avl s).

Definition tree_add s i : result (zfs_rlock T) :=
  t ← t_add (rl_compar (rls s)) (zr_avl s) i ; Ok (set_avl s t).
Definition tree_insert s i (w : option (avl_index rlp)) : result (zfs_rlock T) :=
  w ← deref w ; t ← t_insert (zr_avl s) i w ; Ok (set_avl s t).
Definition tree_remove s i : result (zfs_rlock T) :=
  t ← t_remove (zr_avl s) i ; Ok (set_avl s t).

(** ** Condition variables *)
Definition on_cv i (wr : bool) (w : waiter) : bool := bool_decide (w_on w = i) && eqb (w_writer w) wr.

Definition cv_wait s (w : waiter) : zfs_rlock T := set_queues s (waiting s ++ [w]) (woken s).

Definition cv_broadcast s i (wr : bool) : zfs_rlock T :=
  set_queues s (List.filter (fun w => negb (on_cv i wr w)) (waiting s))
    (woken s ++ List.filter (on_cv i wr) (waiting s)).

(** blocks as long as there are waiters *)
Definition cv_destroy s i (wr : bool) : result unit := VERIFY (negb (existsb (on_cv i wr) (waiting s))).

(** [if (rl->r_write_wanted) cv_broadcast(&rl->r_wr_cv); if (rl->r_read_wanted)
    cv_broadcast(&rl->r_rd_cv);] *)
Definition wake_all s i (r : rl_t) : zfs_rlock T :=
  let s := if r_write_wanted r then cv_broadcast s i true else s in
  if r_read_wanted r then cv_broadcast s i false else s.

(** ** Writers *)
(** [if (p && cond)] *)
Definition such_that {A} (cond : A -> bool) (o : option A) : option A :=
  match o with Some a => if cond a then Some a else None | None => None end.

(** The file may grow at its end, or have to change its block size: the range
    to lock, for the file as it is now. *)
Definition writer_range s (len : Z) (new : rl_t) : rl_t :=
  match zr_size s with
  | None => new
  | Some size =>
      let new := if bool_decide (r_type new = RL_APPEND) then with_range size (r_len new) new else new in
      let end_size := Z.max size (u64_add (r_off new) len) in
      if (zr_blksz s <? end_size) && (negb (ISP2 (zr_blksz s)) || (zr_blksz s <? zr_max_blksz s))
      then with_range 0 UINT64_MAX new else new
  end.

(** The lock to wait for, or the place for the new one. *)
Definition writer_conflict s new : result (rlp + avl_index rlp) :=
  r ← find s new ;
  match r with
  | inl i => Ok (inl i)
  | inr w =>
      n ← get s new ;
      after ← nearest s (Some w) AVL_AFTER ;
      match such_that (fun a => r_off (snd a) <? r_end n) after with
      | Some (i, _) => Ok (inl i)
      | None =>
          before ← nearest s (Some w) AVL_BEFORE ;
          match such_that (fun b => r_off n <? r_end (snd b)) before with
          | Some (i, _) => Ok (inl i)
          | None => Ok (inr w)
          end
      end
  end.

(** One round of the loop: [true] when the lock is granted, [false] when the
    thread waits. *)
Definition zfs_range_lock_writer s new (off len : Z) : result (zfs_rlock T * bool) :=
  s ← upd s new (writer_range s len) ;
  if t_numnodes (zr_avl s) =? 0 then
    s ← upd s new (with_type RL_WRITER) ; s ← tree_add s new ; Ok (s, true)
  else
    c ← writer_conflict s new ;
    match c with
    | inr w => s ← upd s new (with_type RL_WRITER) ; s ← tree_insert s new (Some w) ; Ok (s, true)
    | inl i => s ← upd s i want_write ; Ok (cv_wait s (MkWaiter new i true off len), false)
    end.

(** ** Proxies *)
Definition zfs_range_proxify s i : result (zfs_rlock T * rlp) :=
  r ← get s i ;
  if r_proxy r then Ok (s, i) else
  VERIFY (r_cnt r =? 1) ;; VERIFY (negb (r_write_wanted r)) ;; VERIFY (negb (r_read_wanted r)) ;;
  s ← tree_remove s i ;
  s ← upd s i (with_cnt 0) ;
  let '(s, proxy) := alloc s (proxy_of (r_off r) (r_len r) 1) in
  s ← tree_add s proxy ;
  Ok (s, proxy).

Definition zfs_range_split s i (off : Z) : result (zfs_rlock T * rlp) :=
  r ← get s i ;
  VERIFY (1 <? r_len r) ;; VERIFY (r_off r <? off) ;; VERIFY (off <? r_end r) ;;
  VERIFY (negb (r_write_wanted r)) ;; VERIFY (negb (r_read_wanted r)) ;;
  let '(s, rear) := alloc s (proxy_of off (u64_sub (r_end r) off) (r_cnt r)) in
  '(s, front) ← zfs_range_proxify s i ;
  s ← upd s front (fun f => with_range (r_off f) (u64_sub off (r_off r)) f) ;
  t ← t_insert_here (rl_compar (rls s)) (zr_avl s) rear front AVL_AFTER ;
  Ok (set_avl s t, front).

Definition zfs_range_new_proxy s (off len : Z) : result (zfs_rlock T) :=
  VERIFY (negb (len =? 0)) ;;
  let '(s, i) := alloc s (proxy_of off len 1) in tree_add s i.

(** [rl->r_cnt++] *)
Definition bump s i : result (zfs_rlock T) := upd s i (fun r => with_cnt (u32_add (r_cnt r) 1) r).

(** The loop over the locks that overlap the new range, and the rest of the
    range behind the last of them. *)
Fixpoint add_reader_loop (fuel : nat) s (off len : Z) (prev : option rlp) (next : option (rlp * rl_t)) : result (zfs_rlock T) :=
  let finish s := p ← deref prev ; pr ← get s p ;
    zfs_range_new_proxy s (r_end pr) (u64_sub (u64_add off len) (r_end pr)) in
  match next with
  | None => finish s
  | Some (i, r) =>
      if u64_add off len <=? r_off r then finish s else
      match fuel with
      | O => Panic
      | S n =>
          s ← (match prev with
               | None => Ok s
               | Some p =>
                   pr ← get s p ;
                   if r_end pr <? r_off r then zfs_range_new_proxy s (r_end pr) (u64_sub (r_off r) (r_end pr)) else Ok s
               end) ;
          if u64_add off len =? r_end r then
            '(s, i) ← zfs_range_proxify s i ; bump s i
          else if u64_add off len <? r_end r then
            '(s, i) ← zfs_range_split s i (u64_add off len) ; bump s i
          else
            '(s, i) ← zfs_range_proxify s i ; s ← bump s i ;
            o ← avl_next s i ; add_reader_loop n s off len (Some i) o
      end
  end.

(** The part on [prev]: the lock at the start of the new range, cut there if
    need be. *)
Definition reader_prev s (off : Z) (prev : option (rlp * rl_t)) : result (zfs_rlock T * option (rlp * rl_t)) :=
  match prev with
  | None => Ok (s, None)
  | Some (p, pr) =>
      if r_end pr <=? off then Ok (s, None)
      else if r_off pr =? off then Ok (s, Some (p, pr))
      else '(s, front) ← zfs_range_split s p off ; o ← avl_next s front ; Ok (s, o)
  end.

Definition zfs_range_add_reader s new (prev : option rlp) (w : option (avl_index rlp)) : result (zfs_rlock T) :=
  n ← get s new ;
  let off := r_off n in let len := r_len n in
  prev ← get_opt s prev ;
  '(s, prev) ← reader_prev s off prev ;
  VERIFY (match prev with None => true | Some (_, pr) => r_off pr =? off end) ;;
  next ← (match prev with Some _ => Ok prev | None => nearest s w AVL_AFTER end) ;
  match next with
  | None => tree_insert s new w
  | Some (i, r) =>
      if u64_add off len <=? r_off r then tree_insert s new w else
      s ← (if off <? r_off r then zfs_range_new_proxy s off (u64_sub (r_off r) off) else Ok s) ;
      s ← upd s new (with_cnt 0) ;
      add_reader_loop (S (Z.to_nat (t_numnodes (zr_avl s)))) s off len None next
  end.

(** ** Readers *)
(** The loop over the locks that follow: one to wait for, or [None]. *)
Fixpoint reader_scan (fuel : nat) s (off len : Z) (next : option (rlp * rl_t)) : result (option rlp) :=
  match next with
  | None => Ok None
  | Some (i, r) =>
      if u64_add off len <=? r_off r then Ok None
      else if bool_decide (r_type r = RL_WRITER) || r_write_wanted r then Ok (Some i)
      else if u64_add off len <=? r_end r then Ok None
      else match fuel with
           | O => Panic
           | S n => o ← avl_next s i ; reader_scan n s off len o
           end
  end.

Definition reader_conflict s (off len : Z) (prev : option (rlp * rl_t)) (w : option (avl_index rlp)) : result (option rlp) :=
  let scan := next ← (match prev with Some (p, _) => avl_next s p | None => nearest s w AVL_AFTER end) ;
    reader_scan (Z.to_nat (t_numnodes (zr_avl s))) s off len next in
  match prev with
  | Some (p, r) =>
      if off <? r_end r then
        if bool_decide (r_type r = RL_WRITER) || r_write_wanted r then Ok (Some p)
        else if u64_add off len <? r_end r then Ok None else scan
      else scan
  | None => scan
  end.

(** From [retry] to the wait or to the return. *)
Definition zfs_range_lock_reader s new : result (zfs_rlock T * bool) :=
  n ← get s new ;
  let off := r_off n in let len := r_len n in
  r ← find s new ;
  '(prev, w) ← (match r with
                | inl i => r ← get s i ; Ok (Some (i, r), None)
                | inr w => o ← nearest s (Some w) AVL_BEFORE ; Ok (o, Some w)
                end) ;
  c ← reader_conflict s off len prev w ;
  match c with
  | Some i => s ← upd s i want_read ; Ok (cv_wait s (MkWaiter new i false off len), false)
  | None => s ← zfs_range_add_reader s new (fst <$> prev) w ; Ok (s, true)
  end.

(** ** The interface *)
Definition zfs_range_lock s (off len : Z) (type : rl_type_t) : result (zfs_rlock T * rlp * bool) :=
  let len := if u64_add len off <? off then u64_sub UINT64_MAX off else len in
  let '(s, new) := alloc s (MkRl off len 1 type false false false) in
  '(s, got) ← (if bool_decide (type = RL_READER) then
                 if t_numnodes (zr_avl s) =? 0 then s ← tree_add s new ; Ok (s, true)
                 else zfs_range_lock_reader s new
               else zfs_range_lock_writer s new off len) ;
  Ok (s, new, got).

(** A thread that was woken gets the mutex. *)
Definition resume s (w : waiter) : result (zfs_rlock T * bool) :=
  if w_writer w then
    s ← upd s (w_new w) (with_range (w_off w) (w_len w)) ; zfs_range_lock_writer s (w_new w) (w_off w) (w_len w)
  else zfs_range_lock_reader s (w_new w).

Definition zfs_range_free s i : result (zfs_rlock T) :=
  r ← get s i ;
  (if r_write_wanted r then cv_destroy s i true else Ok tt) ;;
  (if r_read_wanted r then cv_destroy s i false else Ok tt) ;;
  Ok (set_rls s (delete i (rls s))).

Fixpoint free_all s (free_list : list rlp) : result (zfs_rlock T) :=
  match free_list with
  | [] => Ok s
  | i :: l => s ← zfs_range_free s i ; free_all s l
  end.

(** The loop over the proxies of a reader lock, with those to free. *)
Fixpoint unlock_reader_loop (fuel : nat) s i (len : Z) (free_list : list rlp) : result (zfs_rlock T * list rlp) :=
  if len =? 0 then Ok (s, free_list) else
  match fuel with
  | O => Panic
  | S n =>
      rl ← get s i ;
      let len := u64_sub len (r_len rl) in
      next ← (if len =? 0 then Ok i else
              o ← avl_next s i ;
              '(j, nx) ← deref o ;
              VERIFY (r_end rl =? r_off nx) ;; VERIFY (negb (r_cnt nx =? 0)) ;;
              VERIFY (bool_decide (r_type nx = RL_READER)) ;; Ok j) ;
      s ← upd s i (fun r => with_cnt (u32_add (r_cnt r) (-1)) r) ;
      rl ← get s i ;
      '(s, free_list) ← (if r_cnt rl =? 0 then s ← tree_remove s i ; Ok (wake_all s i rl, free_list ++ [i])
                         else Ok (s, free_list)) ;
      unlock_reader_loop n s next len free_list
  end.

Definition zfs_range_unlock_reader s (remove : rlp) : result (zfs_rlock T * list rlp) :=
  r ← get s remove ;
  if r_cnt r =? 1 then
    s ← tree_remove s remove ; Ok (wake_all s remove r, [remove])
  else
    VERIFY (r_cnt r =? 0) ;; VERIFY (negb (r_write_wanted r)) ;; VERIFY (negb (r_read_wanted r)) ;;
    f ← find s remove ;
    match f with
    | inr _ => Panic
    | inl i =>
        rl ← get s i ;
        VERIFY (negb (r_cnt rl =? 0)) ;; VERIFY (bool_decide (r_type rl = RL_READER)) ;;
        '(s, free_list) ← unlock_reader_loop (S (Z.to_nat (t_numnodes (zr_avl s)))) s i (r_len r) [] ;
        Ok (set_rls s (delete remove (rls s)), free_list)
    end.

Definition zfs_range_unlock s i : result (zfs_rlock T) :=
  r ← get s i ;
  VERIFY (bool_decide (r_type r = RL_WRITER) || bool_decide (r_type r = RL_READER)) ;;
  VERIFY ((r_cnt r =? 1) || (r_cnt r =? 0)) ;; VERIFY (negb (r_proxy r)) ;;
  '(s, free_list) ← (if bool_decide (r_type r = RL_WRITER) then
                       s ← tree_remove s i ; Ok (wake_all s i r, [i])
                     else zfs_range_unlock_reader s i) ;
  free_all s free_list.

Definition zfs_range_reduce s i (off len : Z) : result (zfs_rlock T) :=
  VERIFY (t_numnodes (zr_avl s) =? 1) ;;
  r ← get s i ;
  VERIFY (r_off r =? 0) ;; VERIFY (bool_decide (r_type r = RL_WRITER)) ;; VERIFY (negb (r_proxy r)) ;;
  VERIFY (r_len r =? UINT64_MAX) ;; VERIFY (r_cnt r =? 1) ;;
  s ← upd s i (with_range off len) ;
  Ok (wake_all s i r).

Definition zfs_rlock_init : zfs_rlock T := MkZrl t_create None 0 0 ∅ [] [].

(** [avl_destroy] asserts that the tree is empty. *)
Definition zfs_rlock_destroy s : result unit :=
  VERIFY (t_numnodes (zr_avl s) =? 0) ;; VERIFY (bool_decide (t_first (zr_avl s) = None)).
End ops.

#[global] Arguments upd : simpl never.
#[global] Arguments get : simpl never.
#[global] Arguments cv_broadcast : simpl never.
