(* ===== verification/RlockSpec.v ===== *)
(** * The range locks in the tree and the locks that are held

    A held lock is either a node of the tree or, when other readers overlap
    it, a structure outside of it whose range is made up of proxies. [good]
    relates the nodes with the ranges of the locks outside: nodes are disjoint
    and in order, no such range ends inside a node, the nodes cover all of
    them, and a proxy counts those it belongs to. The lemmas of this file are
    the steps of zfs_rlock.c on lists. *)
From S2P Require Import Prelude Avl OrdTree Rlock.
From stdpp Require Import sorting.
Local Open Scope Z_scope.

Abbreviation node := (rlp * rl_t)%type.

Definition off (n : node) : Z := r_off n.2.
Definition stop (n : node) : Z := r_off n.2 + r_len n.2.
Definition span_ok (n : node) : Prop := 0 <= off n < stop n /\ stop n <= UINT64_MAX.
Definition before (n m : node) : Prop := stop n <= off m.
Definition ordered (N : list node) : Prop := Forall span_ok N /\ StronglySorted before N.

(** How many of the ranges [D] contain [x]. *)
Fixpoint cnt_at (D : list (Z * Z)) (x : Z) : Z :=
  match D with
  | [] => 0
  | (a, b) :: D => (if (a <=? x) && (x <? b) then 1 else 0) + cnt_at D x
  end.

Definition node_ok (D : list (Z * Z)) (n : node) : Prop :=
  if r_proxy n.2 then r_type n.2 = RL_READER /\ r_cnt n.2 = cnt_at D (off n) /\ 0 < r_cnt n.2
  else (r_type n.2 = RL_READER \/ r_type n.2 = RL_WRITER) /\ r_cnt n.2 = 1 /\ cnt_at D (off n) = 0.

Definition apart (d : Z * Z) (n : node) : Prop :=
  d.1 < d.2 -> stop n <= d.1 \/ d.2 <= off n \/ (d.1 <= off n /\ stop n <= d.2).

Definition handle_ok (N : list node) (d : Z * Z) : Prop :=
  d.1 <= d.2 /\ (forall n, n ∈ N -> apart d n) /\
  (forall x, d.1 <= x < d.2 -> exists n, n ∈ N /\ off n <= x < stop n).

Definition good (N : list node) (D : list (Z * Z)) : Prop :=
  ordered N /\ (forall n, n ∈ N -> node_ok D n) /\ (forall d, d ∈ D -> handle_ok N d).

(** ** Counting *)
Lemma cnt_at_nonneg D x : 0 <= cnt_at D x.
Proof. induction D as [| (a, b) D IH]; simpl; [lia |]. case_match; lia. Qed.

Lemma cnt_at_length D x : cnt_at D x <= Z.of_nat (length D).
Proof. induction D as [| (a, b) D IH]; simpl length; simpl cnt_at; [lia |]. case_match; lia. Qed.

Lemma cnt_at_0 D x : (forall d, d ∈ D -> ~ d.1 <= x < d.2) <-> cnt_at D x = 0.
Proof.
  induction D as [| (a, b) D IH]; simpl; [split; [done | intros _ d Hd; by apply elem_of_nil in Hd] |].
  pose proof (cnt_at_nonneg D x). split.
  - intros H'. rewrite (proj1 IH); [| intros d Hd; apply H'; by right].
    specialize (H' (a, b) ltac:(by left)). simpl in H'. case_match; [lia | done].
  - intros E d [-> | Hd]%elem_of_cons; simpl; [case_match; lia |]. revert d Hd. apply IH. case_match; lia.
Qed.

Lemma cnt_at_pos D x : 0 < cnt_at D x -> exists d, d ∈ D /\ d.1 <= x < d.2.
Proof.
  induction D as [| (a, b) D IH]; simpl; [lia |]. case_match.
  - exists (a, b). split; [by left | simpl; lia].
  - intros (d & Hd & Hx)%IH. exists d. split; [by right | done].
Qed.

Lemma cnt_at_Permutation D D' x : Permutation D D' -> cnt_at D x = cnt_at D' x.
Proof. induction 1 as [| (a, b) | (a, b) (c, d) |]; simpl; lia. Qed.

(** Moving from [x] to [y] without crossing an end of a range. *)
Lemma cnt_at_move D x y :
  (forall d, d ∈ D -> d.1 <= x < d.2 <-> d.1 <= y < d.2) -> cnt_at D x = cnt_at D y.
Proof.
  induction D as [| (a, b) D IH]; simpl; [done |]. intros H. rewrite IH by (intros d Hd; apply H; by right).
  specialize (H (a, b) ltac:(by left)). simpl in H. do 2 case_match; lia.
Qed.

(** ** Order *)
Lemma ordered_app lo hi :
  ordered (lo ++ hi) <-> ordered lo /\ ordered hi /\ (forall n m, n ∈ lo -> m ∈ hi -> stop n <= off m).
Proof. unfold ordered. rewrite Forall_app, StronglySorted_app. unfold before. naive_solver. Qed.

Lemma ordered_cons n hi : ordered (n :: hi) <-> span_ok n /\ ordered hi /\ (forall m, m ∈ hi -> stop n <= off m).
Proof. unfold ordered. rewrite Forall_cons, StronglySorted_cons, (Forall_forall (before n)). unfold before. naive_solver. Qed.

Lemma ordered_nil : ordered [].
Proof. split; constructor. Qed.

Lemma ordered_span N n : ordered N -> n ∈ N -> span_ok n.
Proof. intros (H & _) Hn. rewrite Forall_forall in H. auto. Qed.

(** The nodes around one of them. *)
Lemma ordered_mid lo n hi : ordered (lo ++ n :: hi) ->
  span_ok n /\ ordered (lo ++ hi) /\ (forall m, m ∈ lo -> span_ok m /\ stop m <= off n) /\
  (forall m, m ∈ hi -> span_ok m /\ stop n <= off m).
Proof.
  intros H. pose proof (fun m => ordered_span _ m H) as Hs.
  apply ordered_app in H as (H1 & H2 & H12). apply ordered_cons in H2 as (Hn & H2 & Hh).
  split; [done |]. split; [apply ordered_app; split_and!; [done | done | set_solver] |]. set_solver.
Qed.

Lemma ordered_mid_intro lo n hi : ordered (lo ++ hi) -> span_ok n ->
  (forall m, m ∈ lo -> stop m <= off n) -> (forall m, m ∈ hi -> stop n <= off m) -> ordered (lo ++ n :: hi).
Proof.
  intros (H1 & H2 & H12)%ordered_app Hn Hl Hh. apply ordered_app. split; [done |].
  split; [by apply ordered_cons |]. set_solver.
Qed.

(** Where an offset falls. *)
Lemma ordered_cut N x : ordered N ->
  exists lo hi, N = lo ++ hi /\ (forall n, n ∈ lo -> off n < x) /\ (forall n, n ∈ hi -> x <= off n).
Proof.
  induction N as [| n N IH]; intros H; [exists [], []; set_solver |].
  apply ordered_cons in H as (Hn & HN & Hh). destruct (decide (off n < x)) as [Hx | Hx].
  - destruct (IH HN) as (lo & hi & -> & Hlo & Hhi). exists (n :: lo), hi. set_solver.
  - exists [], (n :: N). split; [done |]. split; [set_solver |].
    intros m [-> | Hm]%elem_of_cons; [lia |]. specialize (Hh m Hm). unfold span_ok in Hn. lia.
Qed.

(** At most one node contains an offset, and the number of nodes is bounded. *)
Lemma ordered_same N n m x : ordered N -> n ∈ N -> m ∈ N -> off n <= x < stop n -> off m <= x < stop m -> n = m.
Proof.
  intros H Hn Hm Hx Hy. apply list_elem_of_split in Hn as (lo & hi & ->).
  destruct (ordered_mid _ _ _ H) as (_ & _ & Hl & Hh).
  apply elem_of_app in Hm as [Hm | [-> | Hm]%elem_of_cons]; [| done |].
  - specialize (Hl m Hm). lia.
  - specialize (Hh m Hm). lia.
Qed.

Lemma ordered_length N : ordered N -> Z.of_nat (length N) <= UINT64_MAX.
Proof.
  assert (H : forall N x, ordered N -> (forall n, n ∈ N -> x <= off n) -> 0 <= x <= UINT64_MAX ->
    x + Z.of_nat (length N) <= UINT64_MAX).
  { clear. induction N as [| n N IH]; intros x H Hx Hr; [simpl; lia |].
    apply ordered_cons in H as (Hn & HN & Hh). specialize (Hx n ltac:(by left)). unfold span_ok in Hn.
    specialize (IH (stop n) HN Hh ltac:(lia)). simpl length. lia. }
  intros HN. apply (H N 0 HN); [| unfold UINT64_MAX, W64; lia].
  intros n Hn. pose proof (ordered_span _ _ HN Hn) as Hs. unfold span_ok in Hs. lia.
Qed.

(** ** Steps on good lists *)
(** What a range outside the tree needs of the nodes only depends on their
    spans. *)
Lemma handle_ok_sub N N' d :
  (forall n, n ∈ N' -> apart d n) ->
  (forall n x, n ∈ N -> d.1 <= x < d.2 -> off n <= x < stop n -> exists m, m ∈ N' /\ off m <= x < stop m) ->
  handle_ok N d -> handle_ok N' d.
Proof. intros Ha Hc (Hd & _ & H). split; [done |]. split; [done |]. intros x Hx. destruct (H x Hx) as (n & Hn & Hnx). eauto. Qed.

Lemma handle_ok_none N d lo y :
  handle_ok N d -> (forall n, n ∈ N -> stop n <= lo \/ y <= off n) -> forall x, lo <= x < y -> ~ d.1 <= x < d.2.
Proof. intros (_ & _ & H) Hn x Hx Hd. destruct (H x Hd) as (n & Hin & Hnx). specialize (Hn n Hin). lia. Qed.

(** A node that no counted range reaches into. *)
Lemma handle_ok_cnt0 N D d n : handle_ok N d -> d ∈ D -> n ∈ N -> span_ok n -> cnt_at D (off n) = 0 ->
  forall x, off n <= x < stop n -> ~ d.1 <= x < d.2.
Proof.
  intros (_ & H & _) Hd Hn Hs H0 x Hx Hdx. specialize (H n Hn ltac:(lia)).
  pose proof (proj2 (cnt_at_0 D (off n)) H0 d Hd). unfold span_ok in Hs. lia.
Qed.

(** The new node of a gap, [x] to [y]: an own lock when [D] stays as it is,
    a proxy when the range that ended at [x] goes on to [y]. *)
Lemma gap_apart lo hi D d n : good (lo ++ hi) D -> d ∈ D -> span_ok n ->
  (forall m, m ∈ lo -> stop m <= off n) -> (forall m, m ∈ hi -> stop n <= off m) -> stop n <= d.1 \/ d.2 <= off n \/ d.1 = d.2.
Proof.
  intros (_ & _ & Hd) Hin Hs Hl Hh. specialize (Hd d Hin). destruct (decide (d.1 < d.2)) as [Hlt |]; [| destruct Hd; lia].
  destruct (decide (stop n <= d.1)); [by left |]. destruct (decide (d.2 <= off n)); [by right; left |].
  unfold span_ok in Hs.
  destruct (handle_ok_none _ _ (off n) (stop n) Hd ltac:(set_solver) (Z.max (off n) d.1)); lia.
Qed.

Lemma gap_handle lo hi D d n : good (lo ++ hi) D -> d ∈ D -> span_ok n ->
  (forall m, m ∈ lo -> stop m <= off n) -> (forall m, m ∈ hi -> stop n <= off m) -> handle_ok (lo ++ n :: hi) d.
Proof.
  intros Hg Hin Hs Hl Hh. pose proof (gap_apart lo hi D d n Hg Hin Hs Hl Hh) as Ha. destruct Hg as (_ & _ & Hd).
  specialize (Hd d Hin). pose proof Hd as (_ & Hap & _). revert Hd. apply handle_ok_sub; [| set_solver].
  intros m Hm. assert (m = n \/ m ∈ lo ++ hi) as [-> | Hm'] by set_solver; [| by apply Hap]. unfold apart. lia.
Qed.

Lemma good_insert lo hi D n : good (lo ++ hi) D -> span_ok n ->
  (forall m, m ∈ lo -> stop m <= off n) -> (forall m, m ∈ hi -> stop n <= off m) ->
  r_proxy n.2 = false -> r_type n.2 = RL_READER \/ r_type n.2 = RL_WRITER -> r_cnt n.2 = 1 -> good (lo ++ n :: hi) D.
Proof.
  intros Hg Hs Hl Hh Hp Hty Hc. pose proof Hg as (Ho & Hn & Hd). split; [by apply ordered_mid_intro |].
  split; [| intros d Hin; by eapply gap_handle].
  intros m Hm. assert (m = n \/ m ∈ lo ++ hi) as [-> | Hm'] by set_solver; [| by apply Hn].
  unfold node_ok. rewrite Hp. split; [done |]. split; [done |]. apply cnt_at_0. intros d Hin.
  pose proof (gap_apart lo hi D d n Hg Hin Hs Hl Hh). unfold span_ok in Hs. lia.
Qed.

Lemma good_gap lo hi D j a x y : good (lo ++ hi) ((a, x) :: D) -> a <= x -> 0 <= x < y -> y <= UINT64_MAX ->
  (forall m, m ∈ lo -> stop m <= x) -> (forall m, m ∈ hi -> y <= off m) ->
  good (lo ++ (j, proxy_of x (y - x) 1) :: hi) ((a, y) :: D).
Proof.
  intros Hg Ha Hx Hy Hl Hh. set (n := (j, proxy_of x (y - x) 1)).
  assert (Eo : off n = x) by done. assert (Es : stop n = y) by (unfold stop; simpl; lia).
  assert (Hs : span_ok n) by (unfold span_ok; lia).
  pose proof (fun d Hd => gap_apart lo hi _ d n Hg Hd Hs ltac:(rewrite Eo; done) ltac:(rewrite Es; done)) as Hap.
  pose proof (fun d Hd => gap_handle lo hi _ d n Hg Hd Hs ltac:(rewrite Eo; done) ltac:(rewrite Es; done)) as Hha.
  destruct Hg as (Ho & Hn & Hd). split; [apply ordered_mid_intro; [done | done | by rewrite Eo | by rewrite Es] |]. split.
  - intros m Hm. assert (m = n \/ m ∈ lo \/ m ∈ hi) as [-> | Hm'] by set_solver.
    + unfold node_ok. cbn [r_proxy proxy_of snd n r_type r_cnt]. split; [done |]. split; [| lia]. rewrite Eo. cbn [cnt_at].
      rewrite (proj1 (cnt_at_0 D x)); [case_match; lia |]. intros d Hin. specialize (Hap d ltac:(by right)). lia.
    + specialize (Hn m ltac:(set_solver)). assert (cnt_at ((a, y) :: D) (off m) = cnt_at ((a, x) :: D) (off m)) as E.
      { cbn [cnt_at]. pose proof (ordered_span _ m Ho ltac:(set_solver)) as Hsm. unfold span_ok in Hsm.
        destruct Hm' as [Hm' | Hm']; [specialize (Hl m Hm') | specialize (Hh m Hm')]; do 2 case_match; lia. }
      unfold node_ok in *. by rewrite E.
  - intros d [-> | Hin]%elem_of_cons; [| apply Hha; by right].
    specialize (Hd (a, x) ltac:(by left)) as (_ & Hd & Hc). split; [simpl; lia |]. split.
    + intros m Hm _. cbn [fst snd]. assert (m = n \/ m ∈ lo \/ m ∈ hi) as [-> | [Hm' | Hm']] by set_solver; [lia | |].
      * specialize (Hd m ltac:(set_solver)). unfold apart in Hd. simpl in Hd. specialize (Hl m Hm'). lia.
      * specialize (Hh m Hm'). lia.
    + cbn [fst snd]. intros z Hz. destruct (decide (z < x)); [| exists n; split; [set_solver | lia]].
      destruct (Hc z ltac:(simpl; lia)) as (m & Hm & Hmz). exists m. split; [set_solver | done].
Qed.

(** A node replaced by one with the same span. *)
Lemma ordered_replace lo n n' hi : ordered (lo ++ n :: hi) -> off n' = off n -> stop n' = stop n -> ordered (lo ++ n' :: hi).
Proof.
  intros (Hs & Ho & Hl & Hh)%ordered_mid Eo Es. apply ordered_mid_intro; [done | unfold span_ok in *; lia | |].
  - intros m Hm. rewrite Eo. by apply Hl.
  - intros m Hm. rewrite Es. by apply Hh.
Qed.

Lemma handle_ok_replace lo n n' hi d :
  handle_ok (lo ++ n :: hi) d -> off n' = off n -> stop n' = stop n -> handle_ok (lo ++ n' :: hi) d.
Proof.
  intros H Eo Es. pose proof H as (_ & Ha & _). revert H. apply handle_ok_sub.
  - intros m Hm. assert (m = n' \/ m ∈ lo ++ n :: hi) as [-> | Hm'] by set_solver; [| by apply Ha].
    specialize (Ha n ltac:(set_solver)). unfold apart in *. by rewrite Eo, Es.
  - intros m x Hm Hx Hmx. assert (m = n \/ m ∈ lo ++ n' :: hi) as [-> | Hm'] by set_solver; [| eauto].
    exists n'. split; [set_solver | lia].
Qed.

(** The nodes other than [n] do not see a change of the ranges within [n]. *)
Lemma node_ok_other lo n hi D D' m : ordered (lo ++ n :: hi) ->
  (forall x, ~ off n <= x < stop n -> cnt_at D' x = cnt_at D x) -> m ∈ lo ++ hi -> node_ok D m -> node_ok D' m.
Proof.
  intros (Hs & _ & Hl & Hh)%ordered_mid Hc Hm. unfold node_ok. rewrite Hc; [done |].
  apply elem_of_app in Hm as [Hm | Hm]; [specialize (Hl m Hm) | specialize (Hh m Hm)]; unfold span_ok in *; lia.
Qed.

Lemma good_replace lo n n' hi D D' : good (lo ++ n :: hi) D -> off n' = off n -> stop n' = stop n ->
  (forall x, ~ off n <= x < stop n -> cnt_at D' x = cnt_at D x) -> node_ok D' n' ->
  (forall d, d ∈ D' -> d ∈ D \/ handle_ok (lo ++ n' :: hi) d) -> good (lo ++ n' :: hi) D'.
Proof.
  intros (Ho & Hn & Hd) Eo Es Hc Hn' Hd'. split; [by eapply ordered_replace |]. split.
  - intros m Hm. assert (m = n' \/ m ∈ lo ++ hi) as [-> | Hm'] by set_solver; [done |].
    eapply node_ok_other; [done | done | done |]. apply Hn. set_solver.
  - intros d Hin. destruct (Hd' d Hin) as [Hin' | ?]; [| done]. eapply handle_ok_replace; [by apply Hd | done | done].
Qed.

Lemma good_flags lo i r r' hi D : good (lo ++ (i, r) :: hi) D -> r_off r' = r_off r -> r_len r' = r_len r ->
  r_cnt r' = r_cnt r -> r_type r' = r_type r -> r_proxy r' = r_proxy r -> good (lo ++ (i, r') :: hi) D.
Proof.
  intros Hg Eo El Ec Et Ep. apply (good_replace lo (i, r) _ hi D); try done.
  - unfold stop. simpl. congruence.
  - destruct Hg as (_ & Hn & _). specialize (Hn (i, r) ltac:(set_solver)). unfold node_ok, off in *. simpl in *.
    rewrite Eo, Ec, Et, Ep. done.
  - by left.
Qed.

(** [rl->r_cnt++] for a range that goes on over the node. *)
Lemma good_bump lo i r hi D a : good (lo ++ (i, r) :: hi) ((a, r_off r) :: D) -> a <= r_off r -> r_proxy r = true ->
  good (lo ++ (i, with_cnt (r_cnt r + 1) r) :: hi) ((a, r_off r + r_len r) :: D).
Proof.
  intros Hg Ha Hp. pose proof Hg as (Ho & Hn & Hd). destruct (ordered_mid _ _ _ Ho) as (Hs & _ & Hl & Hh).
  unfold span_ok, off, stop in Hs. simpl in Hs.
  assert (Hsub : handle_ok (lo ++ (i, with_cnt (r_cnt r + 1) r) :: hi) (a, r_off r + r_len r)).
  { specialize (Hd _ ltac:(by left)) as (_ & Hap & Hc). split; [simpl; lia |]. split.
    - intros m Hm _. cbn [fst snd]. assert (m = (i, with_cnt (r_cnt r + 1) r) \/ m ∈ lo \/ m ∈ hi) as [-> | [Hm' | Hm']] by set_solver.
      + unfold off, stop. simpl. lia.
      + specialize (Hap m ltac:(set_solver)). unfold apart in Hap. simpl in Hap. specialize (Hl m Hm'). unfold off in *. simpl in *. lia.
      + specialize (Hh m Hm'). unfold stop in *. simpl in *. lia.
    - cbn [fst snd]. intros z Hz. destruct (decide (z < r_off r)).
      + destruct (Hc z ltac:(simpl; lia)) as (m & Hm & Hmz). exists m. split; [| done].
        assert (m = (i, r) \/ m ∈ lo ++ hi) as [-> | ?] by set_solver; [unfold off in Hmz; simpl in Hmz; lia | set_solver].
      + exists (i, with_cnt (r_cnt r + 1) r). split; [set_solver |]. unfold off, stop. simpl. lia. }
  apply (good_replace lo (i, r) _ hi ((a, r_off r) :: D)); try done.
  - intros x Hx. unfold off, stop in Hx. simpl in Hx. cbn [cnt_at]. do 2 case_match; lia.
  - specialize (Hn (i, r) ltac:(set_solver)). unfold node_ok, off in *. simpl in *. rewrite Hp in *.
    destruct Hn as (? & Hc & ?). split; [done |]. split; [| lia]. revert Hc. do 2 case_match; lia.
  - intros d [-> | Hin]%elem_of_cons; [by right | by left; right].
Qed.

(** An own lock becomes a proxy, and its structure leaves the tree. *)
Lemma good_proxify lo i j r hi D : good (lo ++ (i, r) :: hi) D -> r_proxy r = false -> r_type r = RL_READER ->
  good (lo ++ (j, proxy_of (r_off r) (r_len r) 1) :: hi) ((r_off r, r_off r + r_len r) :: D).
Proof.
  intros Hg Hp Ht. pose proof Hg as (Ho & Hn & Hd). destruct (ordered_mid _ _ _ Ho) as (Hs & _ & Hl & Hh).
  unfold span_ok, off, stop in Hs. simpl in Hs.
  apply (good_replace lo (i, r) _ hi D); try done.
  - intros x Hx. unfold off, stop in Hx. simpl in Hx. cbn [cnt_at]. case_match; lia.
  - specialize (Hn (i, r) ltac:(set_solver)). unfold node_ok, off in *. simpl in *. rewrite Hp in Hn.
    destruct Hn as (_ & _ & ->). split; [done |]. case_match; lia.
  - intros d [-> | Hin]%elem_of_cons; [right | by left]. split; [simpl; lia |]. split.
    + intros m Hm _. cbn [fst snd]. assert (m = (j, proxy_of (r_off r) (r_len r) 1) \/ m ∈ lo \/ m ∈ hi) as [-> | [Hm' | Hm']] by set_solver.
      * unfold off, stop. simpl. lia.
      * specialize (Hl m Hm'). unfold off in *. simpl in *. lia.
      * specialize (Hh m Hm'). unfold stop in *. simpl in *. lia.
    + cbn [fst snd]. intros z Hz. exists (j, proxy_of (r_off r) (r_len r) 1). split; [set_solver |]. unfold off, stop. simpl. lia.
Qed.

(** A proxy is cut in two. *)
Lemma good_split lo i j r hi D x : good (lo ++ (i, r) :: hi) D -> r_proxy r = true -> r_off r < x < r_off r + r_len r ->
  good (lo ++ (i, with_range (r_off r) (x - r_off r) r) :: (j, proxy_of x (r_off r + r_len r - x) (r_cnt r)) :: hi) D.
Proof.
  intros (Ho & Hn & Hd) Hp Hx. destruct (ordered_mid _ _ _ Ho) as (Hs & Ho' & Hl & Hh).
  set (f := (i, with_range (r_off r) (x - r_off r) r)). set (g := (j, proxy_of x (r_off r + r_len r - x) (r_cnt r))).
  assert (Ef : off f = r_off r /\ stop f = x) by (unfold off, stop; simpl; lia).
  assert (Eg : off g = x /\ stop g = r_off r + r_len r) by (unfold off, stop; simpl; lia).
  unfold span_ok, off, stop in Hs. simpl in Hs.
  assert (Hm : forall m, m ∈ lo ++ f :: g :: hi -> m = f \/ m = g \/ m ∈ lo ++ hi) by set_solver.
  assert (Ec : cnt_at D x = cnt_at D (r_off r)).
  { apply cnt_at_move. intros d Hin. pose proof (Hd d Hin) as (_ & Ha & _). specialize (Ha (i, r) ltac:(set_solver)).
    unfold apart, off, stop in Ha. simpl in Ha. lia. }
  pose proof (Hn (i, r) ltac:(set_solver)) as Hr. unfold node_ok, off in Hr. simpl in Hr. rewrite Hp in Hr. destruct Hr as (Hty & Hc & Hpos).
  split; [| split].
  - apply ordered_mid_intro; [apply ordered_mid_intro; [done | unfold span_ok; lia | |] | unfold span_ok; lia | |].
    + intros m H. specialize (Hl m H) as (_ & Hl'). unfold off in Hl' at 1. simpl in Hl'. lia.
    + intros m H. specialize (Hh m H) as (_ & Hh'). unfold stop in Hh'. simpl in Hh'. lia.
    + intros m H. specialize (Hl m H) as (_ & Hl'). unfold off in Hl' at 1. simpl in Hl'. lia.
    + intros m [-> | H]%elem_of_cons; [lia |]. specialize (Hh m H) as (_ & Hh'). unfold stop in Hh'. simpl in Hh'. lia.
  - intros m [-> | [-> | Hm']]%Hm; [| | apply Hn; set_solver].
    + unfold node_ok. simpl. rewrite Hp. split; [done |]. by split.
    + unfold node_ok. simpl. split; [done |]. split; [| done]. unfold off. simpl. by rewrite Ec.
  - intros d Hin. pose proof (Hd d Hin) as Hk. pose proof Hk as (_ & Ha & _). revert Hk. apply handle_ok_sub.
    + intros m [-> | [-> | Hm']]%Hm; [| | apply Ha; set_solver];
        specialize (Ha (i, r) ltac:(set_solver)); unfold apart, off, stop in *; simpl in *; lia.
    + intros m y H Hy Hmy. assert (m = (i, r) \/ m ∈ lo ++ hi) as [-> | ?] by set_solver; [| exists m; set_solver].
      unfold off, stop in Hmy. simpl in Hmy. destruct (decide (y < x)); [exists f | exists g]; (split; [set_solver | lia]).
Qed.

(** A node that belongs to no range outside the tree is removed. *)
Lemma good_remove lo n hi D : good (lo ++ n :: hi) D -> cnt_at D (off n) = 0 -> good (lo ++ hi) D.
Proof.
  intros (Ho & Hn & Hd) H0. destruct (ordered_mid _ _ _ Ho) as (Hs & Ho' & _). split; [done |].
  split; [intros m Hm; apply Hn; set_solver |]. intros d Hin. pose proof (Hd d Hin) as Hk. pose proof Hk as (_ & Ha & _).
  pose proof (handle_ok_cnt0 _ D d n Hk Hin ltac:(set_solver) Hs H0) as Hno. revert Hk. apply handle_ok_sub.
  - intros m Hm. apply Ha. set_solver.
  - intros m x Hm Hx Hmx. assert (m = n \/ m ∈ lo ++ hi) as [-> | ?] by set_solver; [by destruct (Hno x) | eauto].
Qed.

(** The first node of a range outside the tree, when it is released. *)
Lemma good_first lo i r hi D b : good (lo ++ (i, r) :: hi) ((r_off r, b) :: D) -> r_off r < b ->
  r_off r + r_len r <= b /\ r_proxy r = true /\ r_type r = RL_READER /\ r_cnt r = 1 + cnt_at D (r_off r) /\
  (r_off r + r_len r < b -> exists n hi', hi = n :: hi' /\ off n = r_off r + r_len r).
Proof.
  intros (Ho & Hn & Hd) Hb. destruct (ordered_mid _ _ _ Ho) as (Hs & _ & Hl & Hh). unfold span_ok, off, stop in Hs. simpl in Hs.
  specialize (Hd _ ltac:(by left)) as (_ & Ha & Hc). specialize (Hn (i, r) ltac:(set_solver)).
  assert (Hle : r_off r + r_len r <= b).
  { specialize (Ha (i, r) ltac:(set_solver) ltac:(simpl; lia)). unfold off, stop in Ha. simpl in Ha. lia. }
  unfold node_ok, off in Hn. simpl in Hn. pose proof (cnt_at_nonneg D (r_off r)).
  rewrite (proj2 (Z.leb_le (r_off r) (r_off r))), (proj2 (Z.ltb_lt (r_off r) b)) in Hn by lia. simpl in Hn.
  destruct (r_proxy r); [| lia]. split; [done |]. split; [done |]. split; [apply Hn |]. split; [apply Hn |].
  intros Hlt. destruct (Hc (r_off r + r_len r) ltac:(simpl; lia)) as (m & Hm & Hmx).
  assert (m ∈ hi) as Hm'.
  { apply elem_of_app in Hm as [Hm | [-> | Hm]%elem_of_cons]; [| unfold stop in Hmx; simpl in Hmx; lia | done].
    specialize (Hl m Hm). unfold off in Hl at 1. simpl in Hl. lia. }
  destruct hi as [| n hi']; [set_solver |]. exists n, hi'. split; [done |].
  pose proof (Hh n ltac:(by left)) as (Hsn & Hno). unfold stop in Hno at 1. simpl in Hno. unfold span_ok in Hsn.
  apply elem_of_cons in Hm' as [-> | Hm']; [lia |].
  apply ordered_app in Ho as (_ & Ho & _). apply ordered_cons in Ho as (_ & Ho & _). apply ordered_cons in Ho as (_ & _ & Ho).
  specialize (Ho m Hm'). lia.
Qed.

Lemma good_drop lo i r hi D b : good (lo ++ (i, r) :: hi) ((r_off r, b) :: D) -> r_off r < b ->
  if r_cnt r =? 1 then good (lo ++ hi) ((r_off r + r_len r, b) :: D)
  else good (lo ++ (i, with_cnt (r_cnt r - 1) r) :: hi) ((r_off r + r_len r, b) :: D).
Proof.
  intros Hg Hb. destruct (good_first _ _ _ _ _ _ Hg Hb) as (Hle & Hp & Ht & Hc & _).
  pose proof Hg as (Ho & Hn & Hd). destruct (ordered_mid _ _ _ Ho) as (Hs & _ & Hl & Hh). unfold span_ok, off, stop in Hs. simpl in Hs.
  pose proof (cnt_at_nonneg D (r_off r)).
  assert (Hg' : forall r', r_off r' = r_off r -> r_len r' = r_len r ->
    node_ok ((r_off r + r_len r, b) :: D) (i, r') -> good (lo ++ (i, r') :: hi) ((r_off r + r_len r, b) :: D)).
  { intros r' Eo El Hok. apply (good_replace lo (i, r) _ hi ((r_off r, b) :: D)); try done.
    - unfold stop. simpl. congruence.
    - intros x Hx. unfold off, stop in Hx. simpl in Hx. cbn [cnt_at]. do 2 case_match; lia.
    - intros d [-> | Hin]%elem_of_cons; [right | by left; right].
      specialize (Hd _ ltac:(by left)) as Hk. assert (Hk' : handle_ok (lo ++ (i, r') :: hi) (r_off r, b)).
      { eapply handle_ok_replace; [done | done |]. unfold stop. simpl. congruence. }
      destruct Hk' as (_ & Ha & Hcov). split; [simpl; lia |]. split.
      + intros m Hm Hlt. specialize (Ha m Hm ltac:(simpl; lia)). simpl in *.
        assert (m = (i, r') \/ m ∈ lo \/ m ∈ hi) as [-> | [Hm' | Hm']] by set_solver.
        * unfold off, stop in *. simpl in *. lia.
        * specialize (Hl m Hm'). unfold off in Hl at 1. simpl in Hl. lia.
        * specialize (Hh m Hm'). unfold stop in Hh at 1. simpl in Hh. lia.
      + intros x Hx. simpl in Hx. apply Hcov. simpl. lia. }
  assert (Ex : forall x, x = r_off r -> cnt_at ((r_off r + r_len r, b) :: D) x = cnt_at D x).
  { intros x ->. cbn [cnt_at]. case_match; lia. }
  destruct (Z.eqb_spec (r_cnt r) 1) as [E1 | E1].
  - apply (good_remove lo (i, MkRl (r_off r) (r_len r) 1 RL_WRITER false false false) hi).
    + apply Hg'; [done | done |]. unfold node_ok. cbn [snd r_proxy r_type r_cnt]. rewrite Ex by done. split; [by right |]. unfold off. simpl. lia.
    + rewrite Ex; [| done]. unfold off. simpl. lia.
  - apply Hg'; [done | done |]. unfold node_ok. cbn [snd with_cnt r_proxy r_type r_cnt]. rewrite Hp. split; [done |].
    rewrite Ex by done. unfold off. simpl. lia.
Qed.
