(* ===== verification/RlockOps.v ===== *)
(** * The tree and the store of a range lock

    [core s N Dh F]: the tree holds the nodes [N] in order, and the store is
    made of them, of the structures [Dh] of locks outside the tree, and of
    the structures [F] of requests not yet granted. One lemma per step of
    zfs_rlock.c on the tree or the store. *)
From S2P Require Import Prelude Avl AvlSpec OrdTree Rlock RlockSpec.
Local Open Scope Z_scope.

(** The structure of a lock outside the tree. *)
Definition det (h : rlp * (Z * Z)) : node := (h.1, MkRl h.2.1 (h.2.2 - h.2.1) 0 RL_READER false false false).

Definition store (m : gmap rlp rl_t) (l : list node) : Prop := map_to_list m ≡ₚ l.

Lemma store_lookup m l i r : store m l -> (i, r) ∈ l -> m !! i = Some r.
Proof. intros H Hin. apply elem_of_map_to_list. unfold store in H. by rewrite H. Qed.

Lemma store_elem m l i r : store m l -> m !! i = Some r -> (i, r) ∈ l.
Proof. intros H Hin. apply elem_of_map_to_list in Hin. unfold store in H. by rewrite <- H. Qed.

Lemma store_NoDup m l : store m l -> NoDup l.*1.
Proof. intros H. unfold store in H. rewrite <- H. apply NoDup_fst_map_to_list. Qed.

Lemma store_insert m l i r r' : store m ((i, r) :: l) -> store (<[i := r']> m) ((i, r') :: l).
Proof.
  intros H. pose proof (store_lookup _ _ i r H ltac:(by left)) as E. unfold store in *.
  rewrite <- insert_delete_eq, map_to_list_insert by by rewrite lookup_delete_eq.
  constructor. apply (Permutation_cons_inv (a := (i, r))). by rewrite map_to_list_delete.
Qed.

Lemma store_fresh m l i r : store m l -> m !! i = None -> store (<[i := r]> m) ((i, r) :: l).
Proof. intros H E. unfold store in *. by rewrite map_to_list_insert, H. Qed.

Lemma store_delete m l i r : store m ((i, r) :: l) -> store (delete i m) l.
Proof.
  intros H. pose proof (store_lookup _ _ i r H ltac:(by left)) as E. unfold store in *.
  apply (Permutation_cons_inv (a := (i, r))). by rewrite map_to_list_delete.
Qed.

#[global] Instance store_Permutation m : Proper (Permutation ==> iff) (store m).
Proof. intros l l' H. unfold store. by rewrite H. Qed.

Section core.
Context {T : Type} `{!AvlOps rlp T} `{!AvlLaws rlp T}.
Implicit Types (s : zfs_rlock T) (N lo hi F : list node) (Dh : list (rlp * (Z * Z))) (i new : rlp).

Record core s N Dh F : Prop := {
  c_wf : t_wf (zr_avl s);
  c_elems : t_elems (zr_avl s) = N.*1;
  c_store : store (rls s) (N ++ (det <$> Dh) ++ F) }.

(** What the steps on the tree leave alone. *)
Definition rest s := (zr_size s, zr_blksz s, zr_max_blksz s, waiting s, woken s).

Lemma core_F s N Dh F F' : Permutation F F' -> core s N Dh F -> core s N Dh F'.
Proof. intros HF [H1 H2 H3]. split; [done | done |]. by rewrite <- HF. Qed.

Lemma core_Dh s N Dh Dh' F : Permutation Dh Dh' -> core s N Dh F -> core s N Dh' F.
Proof. intros HF [H1 H2 H3]. split; [done | done |]. by rewrite <- HF. Qed.

Lemma core_get s N Dh F i r : core s N Dh F -> (i, r) ∈ N \/ (i, r) ∈ F -> get s i = Ok r.
Proof. intros [_ _ H] Hin. unfold get. rewrite (store_lookup _ _ i r H); [done |]. set_solver. Qed.

Lemma core_get_node s lo i r hi Dh F : core s (lo ++ (i, r) :: hi) Dh F -> get s i = Ok r.
Proof. intros H. apply (core_get _ _ _ _ i r H). set_solver. Qed.

Lemma core_get_opt s N Dh F (o : option node) : core s N Dh F -> (forall n, o = Some n -> n ∈ N) ->
  get_opt s (fst <$> o) = Ok o.
Proof.
  intros H Ho. destruct o as [(i, r) |]; [| done]. simpl. rewrite (core_get _ _ _ _ i r H); [done |]. left. by apply Ho.
Qed.

Lemma core_numnodes s N Dh F : core s N Dh F -> t_numnodes (zr_avl s) = Z.of_nat (length N).
Proof. intros [H1 H2 _]. rewrite law_numnodes, H2, length_fmap by done. done. Qed.

(** The store with one structure in front. *)
Lemma store_front_node m lo n hi l : store m ((lo ++ n :: hi) ++ l) <-> store m (n :: (lo ++ hi) ++ l).
Proof. unfold store. by rewrite <- Permutation_middle. Qed.

Lemma store_front_frame m N l n F : store m (N ++ l ++ n :: F) <-> store m (n :: N ++ l ++ F).
Proof. unfold store. by rewrite <- !Permutation_middle. Qed.

Lemma core_upd_node s lo i r hi Dh F f : core s (lo ++ (i, r) :: hi) Dh F ->
  exists s', upd s i f = Ok s' /\ core s' (lo ++ (i, f r) :: hi) Dh F /\ rest s' = rest s.
Proof.
  intros H. unfold upd. rewrite (core_get_node _ _ _ _ _ _ _ H). destruct H as [H1 H2 H3]. simpl. eexists. split; [done |].
  split; [| done]. split; simpl; [done | rewrite H2, !fmap_app; done |].
  rewrite store_front_node in *. by eapply store_insert.
Qed.

Lemma core_upd_frame s N Dh i r F f : core s N Dh ((i, r) :: F) ->
  exists s', upd s i f = Ok s' /\ core s' N Dh ((i, f r) :: F) /\ rest s' = rest s.
Proof.
  intros H. unfold upd. rewrite (core_get _ _ _ _ i r H) by (right; by left). destruct H as [H1 H2 H3]. simpl.
  eexists. split; [done |]. split; [| done]. split; simpl; [done | done |].
  rewrite store_front_frame in *. by eapply store_insert.
Qed.

Lemma core_alloc s N Dh F r : core s N Dh F ->
  core (alloc s r).1 N Dh (((alloc s r).2, r) :: F) /\ rest (alloc s r).1 = rest s.
Proof.
  intros [H1 H2 H3]. split; [| done]. split; simpl; [done | done |].
  rewrite store_front_frame. apply store_fresh; [done |]. apply not_elem_of_dom, is_fresh.
Qed.

Lemma core_free s N Dh i r F : core s N Dh ((i, r) :: F) -> core (set_rls s (delete i (rls s))) N Dh F.
Proof. intros [H1 H2 H3]. split; simpl; [done | done |]. rewrite store_front_frame in H3. by eapply store_delete. Qed.

Lemma core_detach s N Dh F h d : core s N Dh (det (h, d) :: F) <-> core s N ((h, d) :: Dh) F.
Proof.
  split; intros [H1 H2 H3]; (split; [done | done |]); rewrite fmap_cons in *; revert H3;
    unfold store; rewrite <- ?app_comm_cons, <- !Permutation_middle; done.
Qed.

Lemma core_NoDup s N Dh F : core s N Dh F -> NoDup (N.*1 ++ Dh.*1 ++ F.*1).
Proof.
  intros [_ _ H]. apply store_NoDup in H. rewrite !fmap_app, <- list_fmap_compose in H.
  erewrite (list_fmap_ext (fst ∘ det) fst) in H; [done |]. done.
Qed.

Lemma core_fresh_node s N Dh i r F : core s N Dh ((i, r) :: F) -> i ∉ N.*1.
Proof.
  intros H Hin. apply core_NoDup in H. apply NoDup_app in H as (_ & H & _). apply (H i Hin). set_solver.
Qed.

(** ** Comparisons *)
Lemma rl_compar_lt s N Dh F i r n : core s N Dh F -> (i, r) ∈ N \/ (i, r) ∈ F -> n ∈ N ->
  rl_compar (rls s) i n.1 = if off n <? r_off r then 1 else if r_off r <? off n then -1 else 0.
Proof.
  intros [_ _ H] Hi Hn. unfold rl_compar. destruct n as (j, q). simpl.
  rewrite (store_lookup _ _ i r H), (store_lookup _ _ j q H) by set_solver. done.
Qed.

Lemma core_partitions s lo eq hi Dh F i r : core s (lo ++ eq ++ hi) Dh F -> (i, r) ∈ F ->
  (forall n, n ∈ lo -> off n < r_off r) -> (forall n, n ∈ eq -> off n = r_off r) -> (forall n, n ∈ hi -> r_off r < off n) ->
  partitions (rl_compar (rls s) i) lo.*1 eq.*1 hi.*1.
Proof.
  intros H Hi Hlo Heq Hhi. pose proof (fun n Hn => rl_compar_lt s _ _ _ i r n H (or_intror Hi) Hn) as Hc.
  split_and!; apply Forall_forall; intros x (n & -> & Hn)%list_elem_of_fmap; rewrite Hc by set_solver.
  - specialize (Hlo n Hn). by rewrite (proj2 (Z.ltb_lt _ _)).
  - rewrite (Heq n Hn), Z.ltb_irrefl. done.
  - specialize (Hhi n Hn). rewrite (proj2 (Z.ltb_ge _ _)), (proj2 (Z.ltb_lt _ _)) by lia. done.
Qed.

(** ** Steps on the tree *)
Lemma core_find s lo hi Dh F i r : core s (lo ++ hi) Dh F -> (i, r) ∈ F ->
  (forall n, n ∈ lo -> off n < r_off r) -> (forall n, n ∈ hi -> r_off r < off n) ->
  exists w, find s i = Ok (inr w) /\ t_gap (zr_avl s) w lo.*1 hi.*1.
Proof.
  intros H Hi Hlo Hhi. pose proof (core_partitions s lo [] hi Dh F i r H Hi Hlo ltac:(set_solver) Hhi) as Hp.
  destruct H as [H1 H2 _]. apply (law_find _ (zr_avl s) lo.*1 [] hi.*1 H1); [by rewrite H2, fmap_app | done].
Qed.

Lemma core_find_eq s lo j q hi Dh F i r : core s (lo ++ (j, q) :: hi) Dh F -> (i, r) ∈ F ->
  (forall n, n ∈ lo -> off n < r_off r) -> r_off q = r_off r -> (forall n, n ∈ hi -> r_off r < off n) ->
  find s i = Ok (inl j).
Proof.
  intros H Hi Hlo Heq Hhi.
  pose proof (core_partitions s lo [(j, q)] hi Dh F i r H Hi Hlo) as Hp.
  specialize (Hp ltac:(intros n ->%list_elem_of_singleton; done) Hhi). destruct H as [H1 H2 _].
  pose proof (law_find _ (zr_avl s) lo.*1 [j] hi.*1 H1 ltac:(by rewrite H2, fmap_app) Hp) as (x & ->%list_elem_of_singleton & E).
  done.
Qed.

Lemma head_fst N : head N.*1 = fst <$> head N.
Proof. by destruct N. Qed.

Lemma core_nearest s lo hi Dh F w d : core s (lo ++ hi) Dh F -> t_gap (zr_avl s) w lo.*1 hi.*1 ->
  nearest s (Some w) d = Ok (match d with I0 => last lo | I1 => head hi end).
Proof.
  intros H Hg. unfold nearest. simpl. rewrite (law_nearest _ _ _ _ d (c_wf _ _ _ _ H) Hg). simpl.
  destruct d; [rewrite fmap_last | rewrite head_fst]; apply (core_get_opt _ _ _ _ _ H).
  - intros n (l & ->)%last_Some. set_solver.
  - intros n (l & ->)%head_Some. set_solver.
Qed.

Lemma core_next s lo i r hi Dh F : core s (lo ++ (i, r) :: hi) Dh F -> avl_next s i = Ok (head hi).
Proof.
  intros H. unfold avl_next. rewrite (law_next (zr_avl s) i lo.*1 hi.*1 (c_wf _ _ _ _ H)).
  2: { rewrite (c_elems _ _ _ _ H), fmap_app. done. }
  simpl. rewrite head_fst. apply (core_get_opt _ _ _ _ _ H). intros n (l & ->)%head_Some. set_solver.
Qed.

Lemma core_insert s lo hi Dh i r F w : core s (lo ++ hi) Dh ((i, r) :: F) -> t_gap (zr_avl s) w lo.*1 hi.*1 ->
  Z.of_nat (length (lo ++ hi)) + 1 < W64 ->
  exists s', tree_insert s i (Some w) = Ok s' /\ core s' (lo ++ (i, r) :: hi) Dh F /\ rest s' = rest s.
Proof.
  intros H Hg Hlen. pose proof (core_fresh_node _ _ _ _ _ _ H) as Hi. rewrite fmap_app in Hi.
  pose proof (core_numnodes _ _ _ _ H) as En. destruct H as [H1 H2 H3].
  destruct (law_insert (zr_avl s) i w lo.*1 hi.*1 H1 Hg Hi ltac:(lia)) as (t & E & Hw & He).
  unfold tree_insert. simpl. rewrite E. simpl. eexists. split; [done |]. split; [| done].
  split; simpl; [done | by rewrite He, fmap_app |]. by rewrite store_front_node, <- store_front_frame.
Qed.

Lemma core_add s lo hi Dh i r F : core s (lo ++ hi) Dh ((i, r) :: F) ->
  (forall n, n ∈ lo -> off n < r_off r) -> (forall n, n ∈ hi -> r_off r < off n) ->
  Z.of_nat (length (lo ++ hi)) + 1 < W64 ->
  exists s', tree_add s i = Ok s' /\ core s' (lo ++ (i, r) :: hi) Dh F /\ rest s' = rest s.
Proof.
  intros H Hlo Hhi Hlen. destruct (core_find s lo hi Dh _ i r H ltac:(by left) Hlo Hhi) as (w & E & Hg).
  destruct (core_insert _ _ _ _ _ _ _ _ H Hg Hlen) as (s' & E' & Hs'). exists s'. split; [| done].
  unfold tree_add, t_add. unfold find in E. rewrite E. exact E'.
Qed.

Lemma core_remove s lo i r hi Dh F : core s (lo ++ (i, r) :: hi) Dh F ->
  exists s', tree_remove s i = Ok s' /\ core s' (lo ++ hi) Dh ((i, r) :: F) /\ rest s' = rest s.
Proof.
  intros [H1 H2 H3]. destruct (law_remove (zr_avl s) i lo.*1 hi.*1 H1) as (t & E & Hw & He); [by rewrite H2, fmap_app |].
  unfold tree_remove. rewrite E. simpl. eexists. split; [done |]. split; [| done].
  split; simpl; [done | by rewrite He, fmap_app |]. by rewrite store_front_frame, <- store_front_node.
Qed.

Lemma core_insert_after s lo f fr hi Dh i r F : core s (lo ++ (f, fr) :: hi) Dh ((i, r) :: F) ->
  r_off fr < r_off r -> (forall n, n ∈ hi -> r_off r < off n) -> Z.of_nat (length (lo ++ (f, fr) :: hi)) + 1 < W64 ->
  exists t, t_insert_here (rl_compar (rls s)) (zr_avl s) i f AVL_AFTER = Ok t /\
    core (set_avl s t) (lo ++ (f, fr) :: (i, r) :: hi) Dh F.
Proof.
  intros H Hf Hhi Hlen. pose proof (core_fresh_node _ _ _ _ _ _ H) as Hi. rewrite fmap_app in Hi.
  pose proof (core_numnodes _ _ _ _ H) as En.
  pose proof (fun n Hn => rl_compar_lt s _ _ _ i r n H ltac:(right; by left) Hn) as Hc. destruct H as [H1 H2 H3].
  destruct (law_insert_after (rl_compar (rls s)) (zr_avl s) i f lo.*1 hi.*1 H1) as (t & E & Hw & He).
  - by rewrite H2, fmap_app.
  - done.
  - lia.
  - specialize (Hc (f, fr) ltac:(set_solver)). unfold off in Hc. simpl in Hc. by rewrite (proj2 (Z.ltb_lt _ _)) in Hc.
  - apply Forall_forall. intros x (n & -> & Hn)%list_elem_of_fmap. rewrite Hc by set_solver. specialize (Hhi n Hn).
    rewrite (proj2 (Z.ltb_ge _ _)), (proj2 (Z.ltb_lt _ _)) by lia. done.
  - exists t. split; [done |]. split; simpl; [done | by rewrite He, fmap_app |].
    rewrite store_front_frame in H3. revert H3. unfold store. intros ->. rewrite <- !app_assoc. simpl. solve_Permutation.
Qed.
End core.
