(* ===== verification/RlockRead.v ===== *)
(** * Granting a reader lock

    [zfs_range_add_reader] turns the locks that overlap the new range into
    proxies, cuts them at its ends, counts the new lock in them and fills the
    gaps; the locks held stay the same, and so do the nodes that somebody
    waits for. *)
From S2P Require Import Prelude Avl AvlSpec OrdTree Rlock RlockSpec RlockOps.
Local Open Scope Z_scope.
#[local] Opaque alloc.

Definition unwanted (r : rl_t) : Prop := r_write_wanted r = false /\ r_read_wanted r = false.

(** The locks that are held, each with its range and type: the nodes that are
    no proxies, and the structures outside the tree. *)
Abbreviation held_t := (rlp * (Z * Z * rl_type_t))%type.
Definition own (n : node) : list held_t := if r_proxy n.2 then [] else [(n.1, (off n, stop n, r_type n.2))].
Definition out (h : rlp * (Z * Z)) : held_t := (h.1, (h.2, RL_READER)).
Definition handles (N : list node) (Dh : list (rlp * (Z * Z))) : list held_t := (N ≫= own) ++ (out <$> Dh).

Lemma good_Permutation N D D' : Permutation D D' -> good N D -> good N D'.
Proof.
  intros HD (Ho & Hn & Hd). split; [done |]. split.
  - intros n Hin. specialize (Hn n Hin). unfold node_ok in *. by rewrite <- (cnt_at_Permutation _ _ _ HD).
  - intros d Hin. apply Hd. by rewrite HD.
Qed.

Lemma good_bounds N D : good N D -> Z.of_nat (length N) < W64.
Proof. intros (Ho & _). pose proof (ordered_length _ Ho). unfold UINT64_MAX in *. lia. Qed.

Lemma r_end_stop i r : span_ok (i, r) -> r_end r = r_off r + r_len r.
Proof.
  unfold span_ok, off, stop, r_end. simpl. intros H. apply u64_add_small. unfold is_u64, UINT64_MAX in *. lia.
Qed.

Lemma range_end a b : 0 <= a <= b -> b <= UINT64_MAX -> u64_add a (b - a) = b.
Proof. intros H Hb. rewrite u64_add_small; [lia |]. unfold is_u64, UINT64_MAX in *. lia. Qed.

Lemma range_len a b : 0 <= a <= b -> b <= UINT64_MAX -> u64_sub b a = b - a.
Proof. intros H Hb. rewrite u64_sub_small; [done |]. unfold is_u64, UINT64_MAX in *. lia. Qed.

Section read.
Context {T : Type} `{!AvlOps rlp T} `{!AvlLaws rlp T}.
Implicit Types (s : zfs_rlock T) (N lo hi F : list node) (Dh : list (rlp * (Z * Z))) (i new : rlp).

(** From one state in the middle of an operation to a later one. *)
Record evolves s N Dh s' N' Dh' : Prop := {
  e_rest : rest s' = rest s;
  e_keeps : forall n, n ∈ N -> ~ unwanted n.2 -> n ∈ N';
  e_from : forall n, n ∈ N' -> n ∈ N \/ unwanted n.2;
  e_handles : handles N' Dh' ≡ₚ handles N Dh }.

Lemma evolves_refl s N Dh : evolves s N Dh s N Dh.
Proof. split; auto. Qed.

Lemma evolves_trans s N Dh s1 N1 Dh1 s2 N2 Dh2 :
  evolves s N Dh s1 N1 Dh1 -> evolves s1 N1 Dh1 s2 N2 Dh2 -> evolves s N Dh s2 N2 Dh2.
Proof.
  intros [R1 K1 M1 H1] [R2 K2 M2 H2]. split.
  - by rewrite R2.
  - auto.
  - intros n [Hn | Hn]%M2; auto.
  - by rewrite H2.
Qed.

(** The nodes [m] in the middle are replaced by [m']. *)
Lemma evolves_mid s s' lo m m' hi Dh Dh' : rest s' = rest s -> Forall (fun n => unwanted n.2) m ->
  Forall (fun n => unwanted n.2) m' -> handles m' Dh' ≡ₚ handles m Dh ->
  evolves s (lo ++ m ++ hi) Dh s' (lo ++ m' ++ hi) Dh'.
Proof.
  intros R Hm Hm' Hh. rewrite Forall_forall in Hm, Hm'. split; [done | set_solver | set_solver |].
  unfold handles in *. rewrite !bind_app.
  transitivity ((lo ≫= own) ++ (hi ≫= own) ++ ((m' ≫= own) ++ (out <$> Dh'))); [solve_Permutation |].
  rewrite Hh. solve_Permutation.
Qed.

Lemma handles_proxies m Dh : Forall (fun n => r_proxy n.2 = true) m -> handles m Dh = out <$> Dh.
Proof.
  unfold handles. induction 1 as [| n m Hn Hm IH]; [done |]. simpl. unfold own at 1. by rewrite Hn.
Qed.

Lemma handles_length N Dh : (length Dh <= length (handles N Dh))%nat.
Proof. unfold handles. rewrite length_app, length_fmap. lia. Qed.

Lemma proxify_spec s lo i r hi Dh F E :
  core s (lo ++ (i, r) :: hi) Dh F -> good (lo ++ (i, r) :: hi) (E ++ Dh.*2) -> r_type r = RL_READER -> unwanted r ->
  exists s' j r' Dh', zfs_range_proxify s i = Ok (s', j) /\ core s' (lo ++ (j, r') :: hi) Dh' F /\
    good (lo ++ (j, r') :: hi) (E ++ Dh'.*2) /\ evolves s (lo ++ (i, r) :: hi) Dh s' (lo ++ (j, r') :: hi) Dh' /\
    r_proxy r' = true /\ r_off r' = r_off r /\ r_len r' = r_len r /\ r_cnt r' = r_cnt r /\ unwanted r'.
Proof.
  intros Hc Hg Ht (Hw & Hr). unfold zfs_range_proxify. rewrite (core_get_node _ _ _ _ _ _ _ Hc). simpl.
  destruct (r_proxy r) eqn:Ep.
  { exists s, i, r, Dh. split; [done |]. split; [done |]. split; [done |]. split; [apply evolves_refl |]. done. }
  pose proof Hg as (Ho & Hn & _). specialize (Hn (i, r) ltac:(set_solver)). unfold node_ok in Hn. simpl in Hn.
  rewrite Ep in Hn. destruct Hn as (_ & Ecnt & _). rewrite Ecnt, Hw, Hr. simpl.
  destruct (core_remove _ _ _ _ _ _ _ Hc) as (s1 & -> & Hc1 & R1). simpl.
  destruct (core_upd_frame _ _ _ _ _ _ (with_cnt 0) Hc1) as (s2 & -> & Hc2 & R2). simpl.
  set (p := proxy_of (r_off r) (r_len r) 1). destruct (core_alloc s2 _ _ _ p Hc2) as (Hc3 & R3).
  destruct (alloc s2 p) as (s3, j). simpl in Hc3, R3. destruct (ordered_mid _ _ _ Ho) as (Hs & Ho' & Hl & Hh).
  pose proof (good_bounds _ _ Hg) as Hb. rewrite length_app in Hb. simpl in Hb.
  destruct (core_add s3 lo hi Dh j p _ Hc3) as (s4 & -> & Hc4 & R4).
  { intros n Hin. specialize (Hl n Hin) as (Hsn & Hl'). unfold span_ok, off in *. simpl in *. lia. }
  { intros n Hin. specialize (Hh n Hin) as (Hsn & Hh'). unfold span_ok, off, stop in *. simpl in *. lia. }
  { rewrite length_app. lia. }
  simpl. assert (Er : (i, with_cnt 0 r) = det (i, (r_off r, r_off r + r_len r))).
  { unfold det, with_cnt. simpl. rewrite Ht, Ep, Hw, Hr. do 2 f_equal. lia. }
  rewrite Er in Hc4. apply core_detach in Hc4.
  exists s4, j, p, ((i, (r_off r, r_off r + r_len r)) :: Dh). split; [done |]. split; [done |]. split.
  { apply (good_Permutation _ ((r_off r, r_off r + r_len r) :: E ++ Dh.*2)); [simpl; solve_Permutation |]. by eapply good_proxify. }
  split; [| done]. apply (evolves_mid s s4 lo [(i, r)] [(j, p)]); [congruence | by repeat constructor | by repeat constructor |].
  unfold handles, own, out, off, stop. simpl. rewrite Ep, Ht. done.
Qed.

Lemma split_spec s lo i r hi Dh F E x :
  core s (lo ++ (i, r) :: hi) Dh F -> good (lo ++ (i, r) :: hi) (E ++ Dh.*2) -> r_type r = RL_READER -> unwanted r ->
  r_off r < x < r_off r + r_len r ->
  exists s' f fr g gr Dh', zfs_range_split s i x = Ok (s', f) /\ core s' (lo ++ (f, fr) :: (g, gr) :: hi) Dh' F /\
    good (lo ++ (f, fr) :: (g, gr) :: hi) (E ++ Dh'.*2) /\
    evolves s (lo ++ (i, r) :: hi) Dh s' (lo ++ (f, fr) :: (g, gr) :: hi) Dh' /\
    r_proxy fr = true /\ r_off fr = r_off r /\ r_len fr = x - r_off r /\ unwanted fr /\
    gr = proxy_of x (r_off r + r_len r - x) (r_cnt r).
Proof.
  intros Hc Hg Ht Hu Hx. pose proof Hg as (Ho & _). destruct (ordered_mid _ _ _ Ho) as (Hs & _ & _ & Hh).
  pose proof (r_end_stop _ _ Hs) as Ee. unfold span_ok, off, stop in Hs. simpl in Hs.
  unfold zfs_range_split. rewrite (core_get_node _ _ _ _ _ _ _ Hc). simpl. rewrite Ee.
  rewrite (proj2 (Z.ltb_lt 1 (r_len r))), (proj2 (Z.ltb_lt (r_off r) x)), (proj2 (Z.ltb_lt x (r_off r + r_len r))) by lia.
  pose proof Hu as (-> & ->). simpl. rewrite (range_len x), (range_len (r_off r)) by lia.
  set (gr := proxy_of x (r_off r + r_len r - x) (r_cnt r)). destruct (core_alloc s _ _ _ gr Hc) as (Hc1 & R1).
  destruct (alloc s gr) as (s1, g). simpl in Hc1, R1.
  destruct (proxify_spec s1 lo i r hi Dh _ E Hc1 Hg Ht Hu) as (s2 & f & r2 & Dh' & -> & Hc2 & Hg2 & He & Hp & Eo & El & Ec & Hu2).
  simpl. destruct (core_upd_node _ _ _ _ _ _ _ (fun f => with_range (r_off f) (x - r_off r) f) Hc2) as (s3 & -> & Hc3 & R3). simpl.
  assert (Hg3 : good (lo ++ (f, with_range (r_off r2) (x - r_off r) r2) :: (g, gr) :: hi) (E ++ Dh'.*2)).
  { pose proof (good_split lo f g r2 hi _ x Hg2 Hp ltac:(lia)) as H. by rewrite Eo, El, Ec in *. }
  pose proof (good_bounds _ _ Hg3) as Hb. rewrite length_app in Hb. simpl in Hb.
  destruct (core_insert_after _ _ _ _ _ _ _ _ _ Hc3) as (t & -> & Hc4).
  { simpl. lia. }
  { intros n Hin. specialize (Hh n Hin) as (_ & Hh'). unfold stop in Hh'. simpl in *. lia. }
  { rewrite length_app. simpl. lia. }
  simpl. exists (set_avl s3 t), f, (with_range (r_off r2) (x - r_off r) r2), g, gr, Dh'.
  split; [done |]. split; [done |]. split; [done |]. split; [| done].
  assert (He1 : evolves s (lo ++ (i, r) :: hi) Dh s2 (lo ++ (f, r2) :: hi) Dh').
  { destruct He as [RR ? ? ?]. split; [congruence | done | done | done]. }
  eapply evolves_trans; [exact He1 |].
  apply (evolves_mid s2 _ lo [(f, r2)] [(f, with_range (r_off r2) (x - r_off r) r2); (g, gr)]).
  - unfold rest in *. simpl. congruence.
  - by apply Forall_singleton.
  - rewrite Forall_cons, Forall_singleton. done.
  - rewrite !handles_proxies; [done | by repeat constructor | by repeat constructor].
Qed.

Lemma new_proxy_spec s lo hi Dh F a x y : core s (lo ++ hi) Dh F -> good (lo ++ hi) ((a, x) :: Dh.*2) ->
  a <= x -> 0 <= x < y -> y <= UINT64_MAX -> (forall m, m ∈ lo -> stop m <= x) -> (forall m, m ∈ hi -> y <= off m) ->
  exists s' j, zfs_range_new_proxy s x (u64_sub y x) = Ok s' /\ core s' (lo ++ (j, proxy_of x (y - x) 1) :: hi) Dh F /\
    good (lo ++ (j, proxy_of x (y - x) 1) :: hi) ((a, y) :: Dh.*2) /\
    evolves s (lo ++ hi) Dh s' (lo ++ (j, proxy_of x (y - x) 1) :: hi) Dh.
Proof.
  intros Hc Hg Ha Hx Hy Hl Hh. unfold zfs_range_new_proxy. rewrite range_len by lia.
  rewrite (proj2 (Z.eqb_neq (y - x) 0)) by lia. simpl. set (p := proxy_of x (y - x) 1).
  destruct (core_alloc s _ _ _ p Hc) as (Hc1 & R1). destruct (alloc s p) as (s1, j). simpl in Hc1, R1.
  pose proof (good_gap lo hi _ j a x y Hg Ha Hx Hy Hl Hh) as Hg1. fold p in Hg1.
  pose proof (good_bounds _ _ Hg1) as Hb. rewrite length_app in Hb. simpl in Hb. destruct Hg as (Ho & _).
  destruct (core_add s1 lo hi Dh j p F Hc1) as (s2 & -> & Hc2 & R2).
  { intros n Hin. specialize (Hl n Hin). pose proof (ordered_span _ n Ho ltac:(set_solver)) as Hs. unfold span_ok in Hs. simpl. lia. }
  { intros n Hin. specialize (Hh n Hin). simpl. lia. }
  { rewrite length_app. lia. }
  exists s2, j. split; [done |]. split; [done |]. split; [done |].
  apply (evolves_mid s s2 lo [] [(j, p)]); [congruence | done | by apply Forall_singleton |].
  rewrite !handles_proxies; [done | done | by apply Forall_singleton].
Qed.

Lemma bump_spec s lo i r hi Dh F a : core s (lo ++ (i, r) :: hi) Dh F -> good (lo ++ (i, r) :: hi) ((a, r_off r) :: Dh.*2) ->
  a <= r_off r -> r_proxy r = true -> unwanted r -> Z.of_nat (length Dh) + 1 < 2 ^ 32 ->
  exists s' r', bump s i = Ok s' /\ core s' (lo ++ (i, r') :: hi) Dh F /\
    good (lo ++ (i, r') :: hi) ((a, r_off r + r_len r) :: Dh.*2) /\
    evolves s (lo ++ (i, r) :: hi) Dh s' (lo ++ (i, r') :: hi) Dh /\
    r_off r' = r_off r /\ r_len r' = r_len r.
Proof.
  intros Hc Hg Ha Hp Hu Hlen. assert (Ec : 0 <= r_cnt r <= Z.of_nat (length Dh)).
  { destruct Hg as (_ & Hn & _). specialize (Hn (i, r) ltac:(set_solver)). unfold node_ok, off in Hn. simpl in Hn. rewrite Hp in Hn.
    destruct Hn as (_ & -> & Hpos). rewrite (proj2 (Z.ltb_ge (r_off r) (r_off r))), andb_false_r by lia. simpl.
    pose proof (cnt_at_length Dh.*2 (r_off r)) as Hle. rewrite length_fmap in Hle. pose proof (cnt_at_nonneg Dh.*2 (r_off r)). lia. }
  unfold bump. destruct (core_upd_node _ _ _ _ _ _ _ (fun r => with_cnt (u32_add (r_cnt r) 1) r) Hc) as (s' & -> & Hc' & R).
  exists s', (with_cnt (r_cnt r + 1) r). split; [done |].
  assert (E : u32_add (r_cnt r) 1 = r_cnt r + 1) by (unfold u32_add; apply Z.mod_small; lia). rewrite E in Hc'.
  split; [done |]. split; [by apply good_bump |]. split; [| done].
  apply (evolves_mid s s' lo [(i, r)] [(i, with_cnt (r_cnt r + 1) r)]);
    [done | by apply Forall_singleton | by apply Forall_singleton |].
  rewrite !handles_proxies; [done | by apply Forall_singleton | by apply Forall_singleton].
Qed.

(** ** The loop *)
(** The new range [a] to [b] has been counted up to [x], where the nodes [lo]
    end and behind which the nodes [hi] begin. *)
Record reading s lo hi Dh F (a x b : Z) : Prop := {
  rd_core : core s (lo ++ hi) Dh F;
  rd_good : good (lo ++ hi) ((a, x) :: Dh.*2);
  rd_x : 0 <= a <= x /\ x < b /\ b <= UINT64_MAX;
  rd_lo : forall n, n ∈ lo -> stop n <= x;
  rd_hi : forall n, n ∈ hi -> x <= off n;
  rd_free : forall n, n ∈ hi -> off n < b -> r_type n.2 = RL_READER /\ unwanted n.2;
  rd_len : Z.of_nat (length (handles (lo ++ hi) Dh)) + 1 < 2 ^ 32 }.

Definition granted s N Dh F (a b : Z) (res : result (zfs_rlock T)) : Prop :=
  exists s' N' Dh', res = Ok s' /\ core s' N' Dh' F /\ good N' ((a, b) :: Dh'.*2) /\ evolves s N Dh s' N' Dh'.

Lemma granted_trans s N Dh s1 N1 Dh1 F a b res :
  evolves s N Dh s1 N1 Dh1 -> granted s1 N1 Dh1 F a b res -> granted s N Dh F a b res.
Proof. intros He (s' & N' & Dh' & -> & Hc & Hg & He'). exists s', N', Dh'. split_and!; try done. by eapply evolves_trans. Qed.

(** The rest of the range is free. *)
Lemma reading_finish s lo hi Dh F a x b : reading s lo hi Dh F a x b -> (forall n, n ∈ hi -> b <= off n) ->
  granted s (lo ++ hi) Dh F a b (zfs_range_new_proxy s x (u64_sub b x)).
Proof.
  intros [Hc Hg (Ha & Hx & Hb) Hl _ _ _] Hh.
  destruct (new_proxy_spec s lo hi Dh F a x b Hc Hg ltac:(lia) ltac:(lia) Hb Hl Hh) as (s' & j & E & Hc' & Hg' & He).
  exists s', (lo ++ (j, proxy_of x (b - x) 1) :: hi), Dh. done.
Qed.

(** The gap before the next node is filled. *)
Lemma reading_gap s lo i r hi Dh F a x b : reading s lo ((i, r) :: hi) Dh F a x b -> x < r_off r -> r_off r < b ->
  exists s' j, zfs_range_new_proxy s x (u64_sub (r_off r) x) = Ok s' /\
    reading s' (lo ++ [(j, proxy_of x (r_off r - x) 1)]) ((i, r) :: hi) Dh F a (r_off r) b /\
    evolves s (lo ++ (i, r) :: hi) Dh s' ((lo ++ [(j, proxy_of x (r_off r - x) 1)]) ++ (i, r) :: hi) Dh.
Proof.
  intros [Hc Hg (Ha & Hx & Hb) Hl Hh Hf Hlen] Hxr Hrb. pose proof Hg as (Ho & _).
  destruct (ordered_mid _ _ _ Ho) as (Hs & _ & _ & Hhi).
  assert (Hh' : forall n, n ∈ (i, r) :: hi -> r_off r <= off n).
  { intros n [-> | Hin]%elem_of_cons; [done |]. specialize (Hhi n Hin). unfold span_ok, off, stop in *. simpl in *. lia. }
  destruct (new_proxy_spec s lo _ Dh F a x (r_off r) Hc Hg ltac:(lia) ltac:(lia) ltac:(lia) Hl Hh') as (s' & j & E & Hc' & Hg' & He).
  exists s', j. rewrite <- (app_assoc lo). split; [done |]. split; [| done].
  split; try (rewrite <- (app_assoc lo); done).
  - lia.
  - intros n [Hin | ->%list_elem_of_singleton]%elem_of_app; [specialize (Hl n Hin); lia |]. unfold stop. simpl. lia.
  - done.
  - done.
  - rewrite <- (app_assoc lo). simpl. rewrite (e_handles _ _ _ _ _ _ He). done.
Qed.

(** The next node lies within the range: it is counted as a whole. *)
Lemma reading_whole s lo i r hi Dh F a b : reading s lo ((i, r) :: hi) Dh F a (r_off r) b -> r_off r + r_len r <= b ->
  exists s1 j s2 r' Dh', zfs_range_proxify s i = Ok (s1, j) /\ bump s1 j = Ok s2 /\
    core s2 (lo ++ (j, r') :: hi) Dh' F /\ good (lo ++ (j, r') :: hi) ((a, r_off r + r_len r) :: Dh'.*2) /\
    evolves s (lo ++ (i, r) :: hi) Dh s2 (lo ++ (j, r') :: hi) Dh' /\ r_off r' = r_off r /\ r_len r' = r_len r.
Proof.
  intros [Hc Hg (Ha & Hx & Hb) _ _ Hf Hlen] Hrb. destruct (Hf (i, r) ltac:(by left) Hx) as (Ht & Hu).
  destruct (proxify_spec s lo i r hi Dh F [(a, r_off r)] Hc Hg Ht Hu) as (s1 & j & r1 & Dh1 & E1 & Hc1 & Hg1 & He1 & Hp & Eo & El & _ & Hu1).
  pose proof (Permutation_length (e_handles _ _ _ _ _ _ He1)) as Hlen1. pose proof (handles_length (lo ++ (j, r1) :: hi) Dh1).
  simpl in Hg1. rewrite <- Eo in Hg1.
  destruct (bump_spec s1 lo j r1 hi Dh1 F a Hc1 Hg1 ltac:(lia) Hp Hu1 ltac:(lia)) as (s2 & r2 & E2 & Hc2 & Hg2 & He2 & Eo2 & El2).
  exists s1, j, s2, r2, Dh1. rewrite Eo, El in Hg2. split_and!; try done; [| congruence | congruence]. by eapply evolves_trans.
Qed.

(** The state for the next round. *)
Lemma reading_next s lo i r hi Dh F a b s' j r' Dh' : reading s lo ((i, r) :: hi) Dh F a (r_off r) b ->
  core s' (lo ++ (j, r') :: hi) Dh' F -> good (lo ++ (j, r') :: hi) ((a, r_off r + r_len r) :: Dh'.*2) ->
  evolves s (lo ++ (i, r) :: hi) Dh s' (lo ++ (j, r') :: hi) Dh' -> r_off r' = r_off r -> r_len r' = r_len r ->
  r_off r + r_len r < b -> reading s' (lo ++ [(j, r')]) hi Dh' F a (r_off r + r_len r) b.
Proof.
  intros [_ (Ho & _) (Ha & _ & Hb) Hlo _ Hf Hlen] Hc Hg He Eo El Hlt.
  destruct (ordered_mid _ _ _ Ho) as (Hs & _ & _ & Hh). unfold span_ok, off, stop in Hs. simpl in Hs.
  pose proof (Permutation_length (e_handles _ _ _ _ _ _ He)).
  split; rewrite <- ?app_assoc; simpl; [done | done | lia | | | | lia].
  - intros n [Hin | ->%list_elem_of_singleton]%elem_of_app; [specialize (Hlo n Hin); lia |]. unfold stop. simpl. lia.
  - intros n Hin. specialize (Hh n Hin) as (_ & Hh'). exact Hh'.
  - intros n Hin. apply Hf. by right.
Qed.

(** The range ends within the next node. *)
Lemma reading_part s lo i r hi Dh F a b : reading s lo ((i, r) :: hi) Dh F a (r_off r) b -> b < r_off r + r_len r ->
  granted s (lo ++ (i, r) :: hi) Dh F a b ('(s, i) ← zfs_range_split s i b ; bump s i).
Proof.
  intros [Hc Hg (Ha & Hx & Hb) _ _ Hf Hlen] Hrb. destruct (Hf (i, r) ltac:(by left) Hx) as (Ht & Hu).
  destruct (split_spec s lo i r hi Dh F [(a, r_off r)] b Hc Hg Ht Hu ltac:(lia))
    as (s1 & f & fr & g & gr & Dh1 & -> & Hc1 & Hg1 & He1 & Hp & Eo & El & Hu1 & _). simpl.
  pose proof (Permutation_length (e_handles _ _ _ _ _ _ He1)) as Hlen1. pose proof (handles_length (lo ++ (f, fr) :: (g, gr) :: hi) Dh1).
  simpl in Hg1. rewrite <- Eo in Hg1.
  destruct (bump_spec s1 lo f fr ((g, gr) :: hi) Dh1 F a Hc1 Hg1 ltac:(lia) Hp Hu1 ltac:(lia)) as (s2 & r2 & -> & Hc2 & Hg2 & He2 & _).
  exists s2, (lo ++ (f, r2) :: (g, gr) :: hi), Dh1. rewrite Eo, El in Hg2. replace (r_off r + (b - r_off r)) with b in Hg2 by lia.
  split_and!; try done. by eapply evolves_trans.
Qed.

(** Where [prev] points. *)
Definition prev_at lo hi (prev : option rlp) (x : Z) : Prop :=
  match prev with
  | None => exists n hi', hi = n :: hi' /\ off n = x
  | Some p => exists lo' pr, lo = lo' ++ [(p, pr)] /\ stop (p, pr) = x
  end.

Lemma prev_get s lo hi Dh F D p pr : core s ((lo ++ [(p, pr)]) ++ hi) Dh F -> good ((lo ++ [(p, pr)]) ++ hi) D ->
  get s p = Ok pr /\ r_end pr = stop (p, pr).
Proof.
  intros Hc (Ho & _). rewrite <- app_assoc in *. split; [by eapply core_get_node |]. apply (r_end_stop p), (ordered_span _ _ Ho). set_solver.
Qed.

(** The first part of a round: up to the next node. *)
Lemma reading_prev s lo i r hi Dh F a x b prev : reading s lo ((i, r) :: hi) Dh F a x b -> prev_at lo ((i, r) :: hi) prev x ->
  r_off r < b ->
  exists s' lo', (match prev with
                  | None => Ok s
                  | Some p => pr ← get s p ;
                      if r_end pr <? r_off r then zfs_range_new_proxy s (r_end pr) (u64_sub (r_off r) (r_end pr)) else Ok s
                  end) = Ok s' /\
    reading s' lo' ((i, r) :: hi) Dh F a (r_off r) b /\ evolves s (lo ++ (i, r) :: hi) Dh s' (lo' ++ (i, r) :: hi) Dh.
Proof.
  intros Hrd Hp Hb. pose proof (rd_hi _ _ _ _ _ _ _ _ Hrd (i, r) ltac:(by left)) as Hx. unfold off in Hx. simpl in Hx.
  destruct (decide (x = r_off r)) as [-> | Hne].
  - exists s, lo. split; [| split; [done | apply evolves_refl]]. destruct prev as [p |]; [| done].
    destruct Hp as (lo' & pr & -> & E). destruct (prev_get _ _ _ _ _ _ _ _ (rd_core _ _ _ _ _ _ _ _ Hrd) (rd_good _ _ _ _ _ _ _ _ Hrd)) as (-> & Ee).
    simpl. rewrite Ee, E, Z.ltb_irrefl. done.
  - destruct prev as [p |]; [| destruct Hp as (n & hi' & [= <- <-] & E); unfold off in E; simpl in E; lia].
    destruct Hp as (lo' & pr & -> & E). destruct (prev_get _ _ _ _ _ _ _ _ (rd_core _ _ _ _ _ _ _ _ Hrd) (rd_good _ _ _ _ _ _ _ _ Hrd)) as (-> & Ee).
    simpl. rewrite Ee, E, (proj2 (Z.ltb_lt x (r_off r))) by lia.
    destruct (reading_gap _ _ _ _ _ _ _ _ _ _ Hrd ltac:(lia) Hb) as (s' & j & -> & Hrd' & He). eauto.
Qed.

Lemma add_loop_spec a b F hi : forall fuel s lo Dh prev x, reading s lo hi Dh F a x b -> prev_at lo hi prev x ->
  (length hi <= fuel)%nat -> granted s (lo ++ hi) Dh F a b (add_reader_loop fuel s a (b - a) prev (head hi)).
Proof.
  induction hi as [| (i, r) hi IH]; intros fuel s lo Dh prev x Hrd Hp Hf.
  - destruct prev as [p |]; [| by destruct Hp as (? & ? & ? & _)]. destruct Hp as (lo' & pr & -> & E).
    destruct (prev_get _ _ _ _ _ _ _ _ (rd_core _ _ _ _ _ _ _ _ Hrd) (rd_good _ _ _ _ _ _ _ _ Hrd)) as (Eg & Ee).
    destruct (rd_x _ _ _ _ _ _ _ _ Hrd) as (? & ? & ?). destruct fuel; simpl; rewrite Eg; simpl; rewrite range_end, Ee, E by lia;
      (apply reading_finish; [done | set_solver]).
  - destruct (rd_x _ _ _ _ _ _ _ _ Hrd) as (Ha & Hx & Hb). destruct fuel as [| fuel]; [simpl in Hf; lia |].
    cbn [add_reader_loop head]. rewrite range_end by lia. destruct (Z.leb_spec b (r_off r)) as [Hbr | Hbr].
    { destruct prev as [p |]; [| destruct Hp as (n & hi' & [= <- <-] & E); unfold off in E; simpl in E; lia].
      destruct Hp as (lo' & pr & -> & E). destruct (prev_get _ _ _ _ _ _ _ _ (rd_core _ _ _ _ _ _ _ _ Hrd) (rd_good _ _ _ _ _ _ _ _ Hrd)) as (Eg & Ee).
      simpl. rewrite Eg. simpl. rewrite Ee, E. apply reading_finish; [done |]. destruct (rd_good _ _ _ _ _ _ _ _ Hrd) as (Ho & _).
      destruct (ordered_mid _ _ _ Ho) as (Hs & _ & _ & Hh). unfold span_ok, off, stop in Hs. simpl in Hs.
      intros n [-> | Hin]%elem_of_cons; [done |]. specialize (Hh n Hin) as (_ & Hh). unfold stop in Hh. simpl in Hh. lia. }
    destruct (reading_prev _ _ _ _ _ _ _ _ _ _ _ Hrd Hp Hbr) as (s1 & lo1 & -> & Hrd1 & He1). rewrite bind_Ok.
    eapply granted_trans; [exact He1 |]. clear Hrd Hp He1 Hx Ha s lo prev x.
    pose proof (rd_good _ _ _ _ _ _ _ _ Hrd1) as (Ho & _). destruct (ordered_mid _ _ _ Ho) as (Hs & _ & Hl & Hh).
    rewrite (r_end_stop _ _ Hs). destruct (Z.eqb_spec b (r_off r + r_len r)) as [E | Hne]; [| destruct (Z.ltb_spec b (r_off r + r_len r))].
    + destruct (reading_whole _ _ _ _ _ _ _ _ _ Hrd1 ltac:(lia)) as (s2 & j & s3 & r3 & Dh3 & -> & E3 & Hc3 & Hg3 & He3 & _).
      simpl. rewrite E3. exists s3, (lo1 ++ (j, r3) :: hi), Dh3. rewrite E. done.
    + by apply reading_part.
    + destruct (reading_whole _ _ _ _ _ _ _ _ _ Hrd1 ltac:(lia)) as (s2 & j & s3 & r3 & Dh3 & -> & E3 & Hc3 & Hg3 & He3 & Eo & El).
      simpl. rewrite E3. simpl. rewrite (core_next _ _ _ _ _ _ _ Hc3). simpl. eapply granted_trans; [exact He3 |].
      replace (lo1 ++ (j, r3) :: hi) with ((lo1 ++ [(j, r3)]) ++ hi) by by rewrite <- app_assoc.
      apply (IH fuel s3 (lo1 ++ [(j, r3)]) Dh3 (Some j) (r_off r + r_len r)); [| | simpl in Hf; lia].
      * by apply (reading_next _ _ _ _ _ _ _ _ _ _ _ _ _ Hrd1 Hc3 Hg3 He3 Eo El ltac:(lia)).
      * exists lo1, r3. split; [done |]. unfold stop. simpl. lia.
Qed.

(** ** Adding the new lock *)
Lemma good_empty N D a : good N D -> good N ((a, a) :: D).
Proof.
  intros (Ho & Hn & Hd). split; [done |]. split.
  - intros n Hin. specialize (Hn n Hin). unfold node_ok in *. simpl cnt_at.
    replace ((a <=? off n) && (off n <? a)) with false by lia. done.
  - intros d [-> | Hin]%elem_of_cons; [| by apply Hd]. split; [done |]. split; [unfold apart; simpl; lia | simpl; lia].
Qed.

(** What the search for the offset [a] has found. *)
Definition found s N (a : Z) (prev : option node) (w : option (avl_index rlp)) lo hi : Prop :=
  N = lo ++ hi /\ (forall n, n ∈ lo -> off n < a) /\
  match w with
  | None => exists n hi', hi = n :: hi' /\ off n = a /\ prev = Some n
  | Some w => t_gap (zr_avl s) w lo.*1 hi.*1 /\ prev = last lo /\ (forall n, n ∈ hi -> a < off n)
  end.

(** The locks that overlap the range from [a] to [b] can be shared. *)
Definition sharable N (a b : Z) : Prop :=
  forall n, n ∈ N -> off n < b -> a < stop n -> r_type n.2 = RL_READER /\ unwanted n.2.

(** A lock is added to those held. *)
Record grants s N Dh s' N' Dh' (h : held_t) : Prop := {
  g_rest : rest s' = rest s;
  g_keeps : forall n, n ∈ N -> ~ unwanted n.2 -> n ∈ N';
  g_from : forall n, n ∈ N' -> n ∈ N \/ unwanted n.2;
  g_handles : handles N' Dh' ≡ₚ h :: handles N Dh }.

(** After the part on [prev]: the nodes [lo] before [a] and the nodes [hi]
    from there on. *)
Record placed s0 N0 Dh0 s Dh F (a b : Z) (w : option (avl_index rlp)) (prev : option node) lo hi : Prop := {
  pl_core : core s (lo ++ hi) Dh F;
  pl_good : good (lo ++ hi) Dh.*2;
  pl_lo : forall n, n ∈ lo -> stop n <= a;
  pl_hi : forall n, n ∈ hi -> a <= off n;
  pl_free : forall n, n ∈ hi -> off n < b -> r_type n.2 = RL_READER /\ unwanted n.2;
  pl_evolves : evolves s0 N0 Dh0 s (lo ++ hi) Dh;
  pl_prev : match prev with
            | Some n => head hi = Some n /\ off n = a
            | None => exists w', w = Some w' /\ t_gap (zr_avl s) w' lo.*1 hi.*1
            end }.

Lemma sharable_from lo hi a b : ordered (lo ++ hi) -> sharable (lo ++ hi) a b -> (forall n, n ∈ hi -> a <= off n) ->
  forall n, n ∈ hi -> off n < b -> r_type n.2 = RL_READER /\ unwanted n.2.
Proof.
  intros Ho Hsh Ha n Hin Hb. pose proof (ordered_span _ n Ho ltac:(set_solver)) as Hs. unfold span_ok in Hs. specialize (Ha n Hin).
  apply Hsh; [set_solver | done | lia].
Qed.

(** Nothing to do: no node reaches over [a]. *)
Lemma placed_here s lo hi Dh F a b w prev : core s (lo ++ hi) Dh F -> good (lo ++ hi) Dh.*2 -> sharable (lo ++ hi) a b ->
  (forall n, n ∈ lo -> stop n <= a) -> (forall n, n ∈ hi -> a <= off n) ->
  match prev with
  | Some n => head hi = Some n /\ off n = a
  | None => exists w', w = Some w' /\ t_gap (zr_avl s) w' lo.*1 hi.*1
  end -> placed s (lo ++ hi) Dh s Dh F a b w prev lo hi.
Proof.
  intros Hc Hg Hsh Hl Hh Hp. pose proof Hg as (Ho & _). split; [done | done | done | done | | apply evolves_refl | done].
  by apply (sharable_from lo hi a b).
Qed.

(** The node before reaches over [a] and is split there. *)
Lemma placed_split s lo p pr hi Dh F a b w : core s (lo ++ (p, pr) :: hi) Dh F -> good (lo ++ (p, pr) :: hi) Dh.*2 -> a < b ->
  sharable (lo ++ (p, pr) :: hi) a b -> r_off pr < a < r_off pr + r_len pr ->
  exists s' front n lo' hi' Dh', zfs_range_split s p a = Ok (s', front) /\ avl_next s' front = Ok (Some n) /\
    placed s (lo ++ (p, pr) :: hi) Dh s' Dh' F a b w (Some n) lo' hi'.
Proof.
  intros Hc Hg Hab Hsh Ha. pose proof Hg as (Ho & _). destruct (ordered_mid _ _ _ Ho) as (_ & _ & Hl & Hh).
  destruct (Hsh (p, pr) ltac:(set_solver)) as (Ht & Hu); [unfold off; simpl; lia | unfold stop; simpl; lia |].
  destruct (split_spec s lo p pr hi Dh F [] a Hc Hg Ht Hu Ha)
    as (s1 & f & fr & g & gr & Dh1 & E1 & Hc1 & Hg1 & He1 & _ & Eo & El & _ & Egr).
  exists s1, f, (g, gr), (lo ++ [(f, fr)]), ((g, gr) :: hi), Dh1. split; [done |]. split; [by rewrite (core_next _ _ _ _ _ _ _ Hc1) |].
  assert (Hhi : forall n, n ∈ hi -> a < off n /\ a < stop n).
  { intros n Hin. specialize (Hh n Hin) as (Hs & Hh'). unfold span_ok in Hs. unfold stop in Hh' at 1. simpl in Hh'. lia. }
  split; rewrite <- ?app_assoc; try done.
  - intros n [Hin | ->%list_elem_of_singleton]%elem_of_app; [| unfold stop; simpl; lia].
    specialize (Hl n Hin) as (_ & Hl'). unfold off in Hl'. simpl in Hl'. lia.
  - intros n [-> | Hin]%elem_of_cons; [by rewrite Egr |]. specialize (Hhi n Hin). lia.
  - intros n [-> | Hin]%elem_of_cons Hb; [by rewrite Egr |]. apply Hsh; [set_solver | done | by apply Hhi].
  - split; [done |]. by rewrite Egr.
Qed.

Lemma reader_prev_spec s N Dh F a b prev w lo hi : core s N Dh F -> good N Dh.*2 -> a < b -> found s N a prev w lo hi ->
  sharable N a b -> exists s' prev' lo' hi' Dh', reader_prev s a prev = Ok (s', prev') /\ placed s N Dh s' Dh' F a b w prev' lo' hi'.
Proof.
  intros Hc Hg Hab (-> & Hlo & Hw) Hsh. pose proof Hg as (Ho & _). destruct w as [w |].
  - destruct Hw as (Hgap & -> & Hhi). destruct (last lo) as [(p, pr) |] eqn:El.
    + apply last_Some in El as (lo' & ->). pose proof Ho as Ho'. rewrite <- app_assoc in Ho'.
      destruct (ordered_mid _ _ _ Ho') as (Hs & _ & Hl & _). unfold reader_prev. rewrite (r_end_stop _ _ Hs).
      specialize (Hlo (p, pr) ltac:(set_solver)) as Hpa. unfold off in Hpa. simpl in Hpa.
      destruct (Z.leb_spec (r_off pr + r_len pr) a) as [Hpe | Hpe].
      * exists s, None, (lo' ++ [(p, pr)]), hi, Dh. split; [done |]. apply placed_here; [done | done | done | | | eauto].
        -- intros n [Hin | ->%list_elem_of_singleton]%elem_of_app; [| done].
           specialize (Hl n Hin) as (_ & Hl'). unfold off in Hl'. simpl in Hl'. lia.
        -- intros n Hin. specialize (Hhi n Hin). lia.
      * rewrite (proj2 (Z.eqb_neq _ _)) by lia. rewrite <- app_assoc in *. simpl in *.
        destruct (placed_split s lo' p pr hi Dh F a b (Some w) Hc Hg Hab Hsh ltac:(lia)) as (s1 & f & n & lo1 & hi1 & Dh1 & -> & E2 & Hpl).
        simpl. rewrite E2. simpl. eauto 10.
    + apply last_None in El as ->. exists s, None, [], hi, Dh. split; [done |].
      apply placed_here; [done | done | done | set_solver | | eauto]. intros n Hin. specialize (Hhi n Hin). lia.
  - destruct Hw as ((p, pr) & hi' & -> & Ea & ->). destruct (ordered_mid _ _ _ Ho) as (Hs & _ & Hl & Hh).
    unfold reader_prev. rewrite (r_end_stop _ _ Hs). unfold off in Ea. simpl in Ea. unfold span_ok, off, stop in Hs. simpl in Hs.
    rewrite (proj2 (Z.leb_gt _ _)), (proj2 (Z.eqb_eq _ _)) by lia. exists s, (Some (p, pr)), lo, ((p, pr) :: hi'), Dh. split; [done |].
    apply placed_here; [done | done | done | | | done].
    + intros n Hin. specialize (Hl n Hin) as (_ & Hl'). unfold off in Hl'. simpl in Hl'. lia.
    + intros n [-> | Hin]%elem_of_cons; [unfold off; simpl; lia |]. specialize (Hh n Hin) as (_ & Hh'). unfold stop in Hh'. simpl in Hh'. lia.
Qed.

(** The structure of the new lock. *)
Definition request (a b : Z) : rl_t := MkRl a (b - a) 1 RL_READER false false false.

Lemma evolves_grants s N Dh s1 N1 Dh1 s2 N2 Dh2 h :
  evolves s N Dh s1 N1 Dh1 -> grants s1 N1 Dh1 s2 N2 Dh2 h -> grants s N Dh s2 N2 Dh2 h.
Proof.
  intros [R1 K1 M1 H1] [R2 K2 M2 H2]. split.
  - by rewrite R2.
  - auto.
  - intros n [Hn | Hn]%M2; auto.
  - by rewrite H2, H1.
Qed.

(** No overlap: the structure itself goes into the tree. *)
Lemma placed_insert s0 N0 Dh0 s Dh F a b w prev lo hi new : 0 <= a < b -> b <= UINT64_MAX ->
  placed s0 N0 Dh0 s Dh ((new, request a b) :: F) a b w prev lo hi -> (forall n, head hi = Some n -> b <= off n) ->
  exists s' N' Dh', tree_insert s new w = Ok s' /\ core s' N' Dh' F /\ good N' Dh'.*2 /\
    grants s0 N0 Dh0 s' N' Dh' (new, (a, b, RL_READER)).
Proof.
  intros Ha Hb [Hc Hg Hl Hh Hf He Hp] Hno. pose proof Hg as (Ho & _).
  destruct prev as [n |]; [destruct Hp as (E & En); specialize (Hno n E); lia |]. destruct Hp as (w' & -> & Hgap).
  assert (Hbh : forall n, n ∈ hi -> b <= off n).
  { destruct hi as [| n hi]; [set_solver |]. specialize (Hno n eq_refl). apply ordered_app in Ho as (_ & (Hs & _ & Hh')%ordered_cons & _).
    unfold span_ok in Hs. intros m [-> | Hin]%elem_of_cons; [done |]. specialize (Hh' m Hin). lia. }
  assert (Hg' : good (lo ++ (new, request a b) :: hi) Dh.*2).
  { apply good_insert; unfold span_ok, off, stop; simpl; try done; [lia | | by left]. intros m Hm. specialize (Hbh m Hm). unfold off in Hbh. lia. }
  pose proof (good_bounds _ _ Hg') as Hbd. rewrite length_app in Hbd. simpl in Hbd.
  destruct (core_insert _ _ _ _ _ _ _ _ Hc Hgap) as (s' & -> & Hc' & R); [rewrite length_app; lia |].
  exists s', (lo ++ (new, request a b) :: hi), Dh. split_and!; try done. eapply evolves_grants; [exact He |]. split; [done | set_solver | |].
  - intros m Hm. assert (m = (new, request a b) \/ m ∈ lo ++ hi) as [-> | ?] by set_solver; [by right | by left].
  - unfold handles. rewrite !bind_app. simpl. unfold own at 2. unfold off, stop. simpl. replace (a + (b - a)) with b by lia.
    rewrite <- Permutation_middle. done.
Qed.

(** Overlaps: the new lock is counted in proxies. *)
Lemma placed_loop s0 N0 Dh0 s Dh F a b w prev lo i r hi new : 0 <= a < b -> b <= UINT64_MAX ->
  placed s0 N0 Dh0 s Dh ((new, request a b) :: F) a b w prev lo ((i, r) :: hi) -> r_off r < b ->
  Z.of_nat (length (handles N0 Dh0)) + 1 < 2 ^ 32 ->
  exists s' N' Dh', (s ← (if a <? r_off r then zfs_range_new_proxy s a (u64_sub (r_off r) a) else Ok s) ;
      s ← upd s new (with_cnt 0) ;
      add_reader_loop (S (Z.to_nat (t_numnodes (zr_avl s)))) s a (b - a) None (Some (i, r))) = Ok s' /\
    core s' N' Dh' F /\ good N' Dh'.*2 /\ grants s0 N0 Dh0 s' N' Dh' (new, (a, b, RL_READER)).
Proof.
  intros Ha Hb [Hc Hg Hl Hh Hf He Hp] Hrb Hlen. pose proof (Permutation_length (e_handles _ _ _ _ _ _ He)) as El.
  specialize (Hh (i, r) ltac:(by left)) as Har. unfold off in Har. simpl in Har. apply (good_empty _ _ a) in Hg.
  assert (Hrd : exists s1 lo1, (if a <? r_off r then zfs_range_new_proxy s a (u64_sub (r_off r) a) else Ok s) = Ok s1 /\
    reading s1 lo1 ((i, r) :: hi) Dh ((new, request a b) :: F) a (r_off r) b /\
    evolves s (lo ++ (i, r) :: hi) Dh s1 (lo1 ++ (i, r) :: hi) Dh).
  { assert (Hrd : reading s lo ((i, r) :: hi) Dh ((new, request a b) :: F) a a b) by (split; (done || lia)).
    destruct (Z.ltb_spec a (r_off r)) as [Hlt | Hge].
    - destruct (reading_gap _ _ _ _ _ _ _ _ _ _ Hrd Hlt Hrb) as (s1 & j & -> & Hrd1 & He1). eauto.
    - assert (E : a = r_off r) by lia. exists s, lo. split; [done |]. split; [by rewrite <- E | apply evolves_refl]. }
  destruct Hrd as (s1 & lo1 & -> & Hrd1 & He1). simpl.
  destruct (core_upd_frame _ _ _ _ _ _ (with_cnt 0) (rd_core _ _ _ _ _ _ _ _ Hrd1)) as (s2 & -> & Hc2 & R2). simpl.
  assert (Hrd2 : reading s2 lo1 ((i, r) :: hi) Dh (det (new, (a, b)) :: F) a (r_off r) b) by (destruct Hrd1; split; done).
  destruct (add_loop_spec a b _ ((i, r) :: hi) (S (Z.to_nat (t_numnodes (zr_avl s2)))) s2 lo1 Dh None (r_off r) Hrd2) as (s3 & N3 & Dh3 & E3 & Hc3 & Hg3 & He3).
  { by exists (i, r), hi. }
  { rewrite (core_numnodes _ _ _ _ Hc2), length_app. lia. }
  simpl in E3. exists s3, N3, ((new, (a, b)) :: Dh3). split; [done |]. split; [by apply core_detach |]. split; [done |].
  assert (He2 : evolves s1 (lo1 ++ (i, r) :: hi) Dh s2 (lo1 ++ (i, r) :: hi) Dh) by (split; auto).
  pose proof (evolves_trans _ _ _ _ _ _ _ _ _ He (evolves_trans _ _ _ _ _ _ _ _ _ He1 (evolves_trans _ _ _ _ _ _ _ _ _ He2 He3))) as [R K M H].
  split; [done | done | done |]. unfold handles in *. simpl. rewrite <- Permutation_middle. by rewrite H.
Qed.

#[local] Arguments add_reader_loop : simpl never.

Lemma add_reader_spec s N Dh F a b prev w lo hi new : core s N Dh ((new, request a b) :: F) -> good N Dh.*2 ->
  0 <= a < b -> b <= UINT64_MAX -> found s N a prev w lo hi -> sharable N a b -> Z.of_nat (length (handles N Dh)) + 1 < 2 ^ 32 ->
  exists s' N' Dh', zfs_range_add_reader s new (fst <$> prev) w = Ok s' /\ core s' N' Dh' F /\ good N' Dh'.*2 /\
    grants s N Dh s' N' Dh' (new, (a, b, RL_READER)).
Proof.
  intros Hc Hg Ha Hb Hfd Hsh Hlen. unfold zfs_range_add_reader. rewrite (core_get _ _ _ _ new (request a b) Hc) by (right; by left).
  simpl. rewrite (core_get_opt _ _ _ _ prev Hc).
  2: { intros n ->. destruct Hfd as (-> & _ & Hw). destruct w; [destruct Hw as (_ & E & _) | destruct Hw as (? & ? & -> & _ & [= ->]); set_solver].
       symmetry in E. apply last_Some in E as (l & ->). set_solver. }
  simpl. destruct (reader_prev_spec s N Dh _ a b prev w lo hi Hc Hg ltac:(lia) Hfd Hsh) as (s1 & prev1 & lo1 & hi1 & Dh1 & -> & Hpl). simpl.
  assert (En : (match prev1 with Some _ => Ok prev1 | None => nearest s1 w AVL_AFTER end) = Ok (head hi1)).
  { pose proof (pl_prev _ _ _ _ _ _ _ _ _ _ _ _ Hpl) as Hp. destruct prev1 as [n |]; [by destruct Hp as (-> & _) |].
    destruct Hp as (w' & -> & Hgap). apply (core_nearest s1 lo1 hi1 Dh1 _ w' I1 (pl_core _ _ _ _ _ _ _ _ _ _ _ _ Hpl) Hgap). }
  rewrite VERIFY_pass, En.
  2: { pose proof (pl_prev _ _ _ _ _ _ _ _ _ _ _ _ Hpl) as Hp. destruct prev1 as [(p, pr) |]; [| done]. destruct Hp as (_ & E). by apply Z.eqb_eq. }
  rewrite bind_Ok, range_end by lia. destruct hi1 as [| (i, r) hi1]; cbn [head].
  - eapply placed_insert; [done | done | done |]. done.
  - destruct (Z.leb_spec b (r_off r)) as [Hbr | Hbr]; [eapply placed_insert; [done | done | done |] |].
    + intros n [= <-]. done.
    + eapply placed_loop; done.
Qed.
End read.
