(* ===== verification/RlockLock.v ===== *)
(** * Asking for a lock

    The search for locks in the way, for readers and for writers, and what a
    round of the two loops does: the lock is granted when nothing is in the
    way, and otherwise the thread waits for a lock that is. *)
From S2P Require Import Prelude Avl AvlSpec OrdTree Rlock RlockSpec RlockOps RlockRead.
Local Open Scope Z_scope.
#[local] Opaque alloc.

(** What keeps readers out: a writer, or a lock a writer waits for. *)
Definition blocking (r : rl_t) : Prop := r_type r = RL_WRITER \/ r_write_wanted r = true.

Lemma blocking_test r : (bool_decide (r_type r = RL_WRITER) || r_write_wanted r) = true <-> blocking r.
Proof. unfold blocking. rewrite orb_true_iff, bool_decide_eq_true. done. Qed.

Definition crosses (a b : Z) (n : node) : Prop := off n < b /\ a < stop n.

Section lock.
Context {T : Type} `{!AvlOps rlp T} `{!AvlLaws rlp T}.
Implicit Types (s : zfs_rlock T) (N lo hi F : list node) (Dh : list (rlp * (Z * Z))) (i new : rlp).

(** ** Readers *)
Lemma find_cases s N Dh F new rn : core s N Dh F -> ordered N -> (new, rn) ∈ F ->
  (exists lo i q hi, N = lo ++ (i, q) :: hi /\ (forall n, n ∈ lo -> off n < r_off rn) /\ r_off q = r_off rn /\ find s new = Ok (inl i)) \/
  (exists lo hi w, N = lo ++ hi /\ (forall n, n ∈ lo -> off n < r_off rn) /\ (forall n, n ∈ hi -> r_off rn < off n) /\
    find s new = Ok (inr w) /\ t_gap (zr_avl s) w lo.*1 hi.*1).
Proof.
  intros Hc Ho Hin. destruct (ordered_cut N (r_off rn) Ho) as (lo & hi & -> & Hlo & Hhi).
  destruct hi as [| (i, q) hi'].
  { right. destruct (core_find s lo [] Dh F new rn Hc Hin Hlo ltac:(set_solver)) as (w & E & Hg). exists lo, [], w. set_solver. }
  pose proof Ho as (_ & (Hs & _ & Hh)%ordered_cons & _)%ordered_app. specialize (Hhi (i, q) ltac:(by left)) as Hq. unfold span_ok, off in Hs, Hq. simpl in Hs, Hq.
  destruct (decide (r_off q = r_off rn)) as [Eq | Hne].
  - left. exists lo, i, q, hi'. split; [done |]. split; [done |]. split; [done |].
    apply (core_find_eq s lo i q hi' Dh F new rn Hc Hin Hlo Eq). intros n Hn. specialize (Hh n Hn). lia.
  - right. assert (Hgt : forall n, n ∈ (i, q) :: hi' -> r_off rn < off n).
    { intros n [-> | Hn]%elem_of_cons; [unfold off; simpl; lia |]. specialize (Hh n Hn). lia. }
    destruct (core_find s lo _ Dh F new rn Hc Hin Hlo Hgt) as (w & E & Hg). exists lo, ((i, q) :: hi'), w. done.
Qed.

Lemma reader_search s N Dh F new a b : core s N Dh F -> ordered N -> (new, request a b) ∈ F ->
  exists r prev w lo hi, find s new = Ok r /\
    (match r with
     | inl i => r ← get s i ; Ok (Some (i, r), None)
     | inr w => o ← nearest s (Some w) AVL_BEFORE ; Ok (o, Some w)
     end) = Ok (prev, w) /\ found s N a prev w lo hi.
Proof.
  intros Hc Ho Hin.
  destruct (find_cases s N Dh F new (request a b) Hc Ho Hin) as [(lo & i & q & hi & -> & Hlo & Eq & E) | (lo & hi & w & -> & Hlo & Hhi & E & Hg)].
  - exists (inl i), (Some (i, q)), None, lo, ((i, q) :: hi). split; [done |]. rewrite (core_get_node _ _ _ _ _ _ _ Hc). split; [done |].
    split; [done |]. split; [done |]. by exists (i, q), hi.
  - exists (inr w), (last lo), (Some w), lo, hi. split; [done |]. rewrite (core_nearest _ _ _ _ _ _ AVL_BEFORE Hc Hg). done.
Qed.

Lemma reader_scan_spec a b s Dh F hi : 0 <= a < b -> b <= UINT64_MAX -> forall fuel lo, core s (lo ++ hi) Dh F -> ordered (lo ++ hi) ->
  (length hi <= fuel)%nat ->
  exists c, reader_scan fuel s a (b - a) (head hi) = Ok c /\
    match c with
    | Some i => exists r, (i, r) ∈ hi /\ off (i, r) < b /\ blocking r
    | None => forall n, n ∈ hi -> off n < b -> ~ blocking n.2
    end.
Proof.
  intros Ha Hb. induction hi as [| (i, r) hi IH]; intros fuel lo Hc Ho Hf.
  { exists None. destruct fuel; (split; [done | set_solver]). }
  destruct fuel as [| fuel]; [simpl in Hf; lia |]. cbn [reader_scan head]. rewrite range_end by lia.
  destruct (ordered_mid _ _ _ Ho) as (Hs & _ & _ & Hh). rewrite (r_end_stop _ _ Hs).
  assert (Hbeyond : forall x, b <= x -> (x = r_off r \/ x = r_off r + r_len r) -> forall n, n ∈ hi -> off n < b -> False).
  { intros x Hx Hx' n Hn. specialize (Hh n Hn) as (_ & Hh). unfold span_ok, off, stop in *. simpl in *. lia. }
  destruct (Z.leb_spec b (r_off r)) as [Hle | Hlt].
  { exists None. split; [done |]. intros n [-> | Hn]%elem_of_cons Hnb; [unfold off in Hnb; simpl in Hnb; lia |]. by destruct (Hbeyond (r_off r) Hle ltac:(by left) n Hn). }
  destruct (bool_decide (r_type r = RL_WRITER) || r_write_wanted r) eqn:Eb.
  { exists (Some i). split; [done |]. exists r. split; [by left |]. split; [done |]. by apply blocking_test. }
  assert (Hnb : ~ blocking r) by (rewrite <- blocking_test; congruence).
  destruct (Z.leb_spec b (r_off r + r_len r)) as [Hle | Hgt].
  { exists None. split; [done |]. intros n [-> | Hn]%elem_of_cons Hn'; [done |]. by destruct (Hbeyond (r_off r + r_len r) Hle ltac:(by right) n Hn). }
  rewrite (core_next _ _ _ _ _ _ _ Hc). simpl.
  destruct (IH fuel (lo ++ [(i, r)])) as (c & E & Hres); [by rewrite <- app_assoc | by rewrite <- app_assoc | simpl in Hf; lia |].
  exists c. split; [done |]. destruct c as [j |].
  - destruct Hres as (q & Hq & Hq'). exists q. split; [by right | done].
  - intros n [-> | Hn]%elem_of_cons; [done | by apply Hres].
Qed.

(** The answer of the search: a lock in the way, or none. *)
Definition verdict N (a b : Z) (res : result (option rlp)) : Prop :=
  exists c, res = Ok c /\
    match c with
    | Some i => exists r, (i, r) ∈ N /\ crosses a b (i, r) /\ blocking r
    | None => forall n, n ∈ N -> crosses a b n -> ~ blocking n.2
    end.

Lemma scan_verdict s lo hi Dh F a b : core s (lo ++ hi) Dh F -> ordered (lo ++ hi) -> 0 <= a < b -> b <= UINT64_MAX ->
  (forall n, n ∈ hi -> a <= off n) -> (forall n, n ∈ lo -> crosses a b n -> ~ blocking n.2) ->
  verdict (lo ++ hi) a b (reader_scan (Z.to_nat (t_numnodes (zr_avl s))) s a (b - a) (head hi)).
Proof.
  intros Hc Ho Ha Hb Hhi Hlo. destruct (reader_scan_spec a b s Dh F hi Ha Hb (Z.to_nat (t_numnodes (zr_avl s))) lo Hc Ho) as (c & Ec & Hres).
  { rewrite (core_numnodes _ _ _ _ Hc), length_app. lia. }
  exists c. split; [done |]. destruct c as [i |].
  - destruct Hres as (r & Hin & Hoff & Hbl). exists r. split; [set_solver |]. split; [| done]. split; [done |].
    specialize (Hhi _ Hin). pose proof (ordered_span _ (i, r) Ho ltac:(set_solver)) as Hs. unfold span_ok in Hs. lia.
  - intros n [Hn | Hn]%elem_of_app Hx; [by apply Hlo | by apply Hres; [| apply Hx]].
Qed.

(** The search from a node that begins at or before [a]. *)
Lemma prev_verdict s lo p r hi Dh F a b w : core s (lo ++ (p, r) :: hi) Dh F -> ordered (lo ++ (p, r) :: hi) ->
  0 <= a < b -> b <= UINT64_MAX -> r_off r <= a -> (forall n, n ∈ hi -> a <= off n) ->
  verdict (lo ++ (p, r) :: hi) a b (reader_conflict s a (b - a) (Some (p, r)) w).
Proof.
  intros Hc Ho Ha Hb Hr Hhi. destruct (ordered_mid _ _ _ Ho) as (Hs & _ & Hl & Hh). unfold reader_conflict.
  rewrite (r_end_stop _ _ Hs), range_end, (core_next _ _ _ _ _ _ _ Hc), bind_Ok by lia.
  assert (Hlo : forall n, n ∈ lo -> ~ crosses a b n).
  { intros n Hn (_ & Hx). specialize (Hl n Hn) as (_ & Hl'). unfold off in Hl'. simpl in Hl'. lia. }
  assert (Hgo : (crosses a b (p, r) -> ~ blocking r) ->
    verdict (lo ++ (p, r) :: hi) a b (reader_scan (Z.to_nat (t_numnodes (zr_avl s))) s a (b - a) (head hi))).
  { intros Hnb. replace (lo ++ (p, r) :: hi) with ((lo ++ [(p, r)]) ++ hi) in * by by rewrite <- app_assoc.
    apply (scan_verdict s _ _ Dh F); try done.
    intros n [Hn | ->%list_elem_of_singleton]%elem_of_app Hx; [by destruct (Hlo n Hn) | by apply Hnb]. }
  destruct (Z.ltb_spec a (r_off r + r_len r)) as [Hlt | Hge].
  - destruct (bool_decide (r_type r = RL_WRITER) || r_write_wanted r) eqn:Eb.
    + exists (Some p). split; [done |]. exists r. split; [set_solver |]. split; [| by apply blocking_test]. split; [unfold off; simpl; lia | done].
    + assert (Hnb : ~ blocking r) by (rewrite <- blocking_test; congruence). destruct (Z.ltb_spec b (r_off r + r_len r)); [| by apply Hgo].
      exists None. split; [done |]. intros n [Hn | [-> | Hn]%elem_of_cons]%elem_of_app; [| done |].
      * intros Hx. by destruct (Hlo n Hn).
      * intros (Hx & _). specialize (Hh n Hn) as (_ & Hh'). unfold stop in Hh'. simpl in Hh'. lia.
  - apply Hgo. intros (_ & Hx). unfold stop in Hx. simpl in Hx. lia.
Qed.

Lemma reader_conflict_spec s N Dh F a b prev w lo hi : core s N Dh F -> ordered N -> 0 <= a < b -> b <= UINT64_MAX ->
  found s N a prev w lo hi -> verdict N a b (reader_conflict s a (b - a) prev w).
Proof.
  intros Hc Ho Ha Hb (-> & Hlo & Hw). destruct w as [w |].
  - destruct Hw as (Hgap & -> & Hhi). destruct (last lo) as [(p, r) |] eqn:El.
    + apply last_Some in El as (l & ->). rewrite <- app_assoc in *. apply (prev_verdict _ _ _ _ _ Dh F); try done.
      * specialize (Hlo (p, r) ltac:(set_solver)). unfold off in Hlo. simpl in Hlo. lia.
      * intros n Hn. specialize (Hhi n Hn). lia.
    + apply last_None in El as ->. unfold reader_conflict. rewrite (core_nearest _ [] hi _ _ _ AVL_AFTER Hc Hgap), bind_Ok.
      apply (scan_verdict s [] hi Dh F); try done; [| set_solver]. intros n Hn. specialize (Hhi n Hn). lia.
  - destruct Hw as ((p, r) & hi' & -> & Ea & ->). apply (prev_verdict _ _ _ _ _ Dh F); try done; [unfold off in Ea; simpl in Ea; lia |].
    apply ordered_app in Ho as (_ & (Hs & _ & Hh)%ordered_cons & _). unfold span_ok in Hs. intros n Hn. specialize (Hh n Hn). lia.
Qed.

(** The thread [w] waits: the lock it waits for says so. *)
Definition mark (w : waiter) (r : rl_t) : rl_t := if w_writer w then want_write r else want_read r.

Definition waits_on s N Dh F s' (w : waiter) : Prop :=
  exists lo r hi, N = lo ++ (w_on w, r) :: hi /\ core s' (lo ++ (w_on w, mark w r) :: hi) Dh F /\
    rest s' = rest (cv_wait s w).

Lemma waits_on_spec s N Dh F w r : core s N Dh F -> (w_on w, r) ∈ N ->
  exists s', upd s (w_on w) (mark w) = Ok s' /\ waits_on s N Dh F (cv_wait s' w) w.
Proof.
  intros Hc Hin. apply list_elem_of_split in Hin as (lo & hi & ->).
  destruct (core_upd_node _ _ _ _ _ _ _ (mark w) Hc) as (s' & E & Hc' & R). exists s'. split; [done |].
  exists lo, r, hi. split; [done |]. split; [by destruct Hc' |].
  unfold rest in *. simpl. injection R as -> -> -> -> ->. done.
Qed.

(** Wanted by a reader only when readers are kept out. *)
Definition flags_ok N : Prop := forall n, n ∈ N -> r_read_wanted n.2 = true -> blocking n.2.

Lemma not_blocking_sharable N D a b : good N D -> flags_ok N -> (forall n, n ∈ N -> crosses a b n -> ~ blocking n.2) -> sharable N a b.
Proof.
  intros (_ & Hn & _) Hf Hnb n Hin H1 H2. specialize (Hnb n Hin (conj H1 H2)). specialize (Hn n Hin). specialize (Hf n Hin).
  unfold blocking, node_ok, unwanted in *. split; [destruct (r_proxy n.2); naive_solver |].
  split; apply not_true_iff_false; naive_solver.
Qed.

Lemma lock_reader_spec s N Dh F new a b : core s N Dh ((new, request a b) :: F) -> good N Dh.*2 -> flags_ok N ->
  0 <= a < b -> b <= UINT64_MAX -> Z.of_nat (length (handles N Dh)) + 1 < 2 ^ 32 ->
  exists s' (got : bool), zfs_range_lock_reader s new = Ok (s', got) /\
    if got then sharable N a b /\ exists N' Dh', core s' N' Dh' F /\ good N' Dh'.*2 /\ grants s N Dh s' N' Dh' (new, (a, b, RL_READER))
    else exists i r, (i, r) ∈ N /\ crosses a b (i, r) /\ blocking r /\
      waits_on s N Dh ((new, request a b) :: F) s' (MkWaiter new i false a (b - a)).
Proof.
  intros Hc Hg Hf Ha Hb Hlen. pose proof Hg as (Ho & _). unfold zfs_range_lock_reader.
  rewrite (core_get _ _ _ _ new (request a b) Hc), bind_Ok by (right; by left). cbn [r_off r_len request].
  destruct (reader_search s N Dh _ new a b Hc Ho ltac:(by left)) as (r & prev & w & lo & hi & -> & E & Hfd).
  rewrite bind_Ok, E, bind_Ok. destruct (reader_conflict_spec s N Dh _ a b prev w lo hi Hc Ho Ha Hb Hfd) as (c & -> & Hv).
  rewrite bind_Ok. destruct c as [i |].
  - destruct Hv as (q & Hin & Hx & Hbl). destruct (waits_on_spec s N Dh _ (MkWaiter new i false a (b - a)) q Hc Hin) as (s' & Es & Hw).
    change (upd s i want_read) with (upd s (w_on (MkWaiter new i false a (b - a))) (mark (MkWaiter new i false a (b - a)))).
    rewrite Es, bind_Ok. eexists _, false. split; [done |]. exists i, q. done.
  - pose proof (not_blocking_sharable _ _ _ _ Hg Hf Hv) as Hsh.
    destruct (add_reader_spec s N Dh F a b prev w lo hi new Hc Hg Ha Hb Hfd Hsh Hlen) as (s' & N' & Dh' & -> & Hc' & Hg' & Hgr).
    rewrite bind_Ok. eexists _, true. split; [done |]. eauto 10.
Qed.

(** ** Writers *)
Definition exclusive N (a b : Z) : Prop := forall n, n ∈ N -> ~ crosses a b n.

Lemma writer_conflict_spec s N Dh F new rn : core s N Dh F -> ordered N -> (new, rn) ∈ F -> span_ok (new, rn) ->
  exists c, writer_conflict s new = Ok c /\
    match c with
    | inl i => exists r, (i, r) ∈ N /\ crosses (r_off rn) (r_off rn + r_len rn) (i, r)
    | inr w => exists lo hi, N = lo ++ hi /\ t_gap (zr_avl s) w lo.*1 hi.*1 /\
        (forall n, n ∈ lo -> stop n <= r_off rn) /\ (forall n, n ∈ hi -> r_off rn + r_len rn <= off n)
    end.
Proof.
  intros Hc Ho Hin Hs. pose proof (r_end_stop _ _ Hs) as Ee. unfold span_ok, off, stop in Hs. simpl in Hs. unfold writer_conflict.
  destruct (find_cases s N Dh F new rn Hc Ho Hin) as [(lo & i & q & hi & -> & Hlo & Eq & ->) | (lo & hi & w & -> & Hlo & Hhi & -> & Hg)]; rewrite bind_Ok.
  { exists (inl i). split; [done |]. exists q. split; [set_solver |]. destruct (ordered_mid _ _ _ Ho) as (Hq & _).
    unfold crosses, span_ok, off, stop in *. simpl in *. lia. }
  rewrite (core_get _ _ _ _ new rn Hc) by by right. rewrite bind_Ok, (core_nearest _ _ _ _ _ _ AVL_AFTER Hc Hg), bind_Ok, Ee. unfold AVL_AFTER.
  destruct (such_that _ (head hi)) as [(i, q) |] eqn:Ea.
  { destruct hi as [| (j, q') hi]; [done |]. simpl in Ea. destruct (Z.ltb_spec (r_off q') (r_off rn + r_len rn)); [| done].
    injection Ea as -> ->. exists (inl i). split; [done |]. exists q. split; [set_solver |]. specialize (Hhi (i, q) ltac:(by left)).
    destruct (ordered_mid _ _ _ Ho) as (Hq & _). unfold crosses, span_ok, off, stop in *. simpl in *. lia. }
  assert (Hafter : forall n, n ∈ hi -> r_off rn + r_len rn <= off n).
  { destruct hi as [| (j, q') hi]; [set_solver |]. simpl in Ea. destruct (Z.ltb_spec (r_off q') (r_off rn + r_len rn)); [done |].
    destruct (ordered_mid _ _ _ Ho) as (Hq & _ & _ & Hh). intros n [-> | Hn]%elem_of_cons; [done |].
    specialize (Hh n Hn) as (_ & Hh). unfold span_ok, off, stop in *. simpl in *. lia. }
  rewrite (core_nearest _ _ _ _ _ _ AVL_BEFORE Hc Hg), bind_Ok. unfold AVL_BEFORE.
  destruct (last lo) as [(j, q) |] eqn:El.
  - apply last_Some in El as (l & ->). pose proof Ho as Ho'. rewrite <- app_assoc in Ho'. destruct (ordered_mid _ _ _ Ho') as (Hq & _ & Hl & _).
    simpl. rewrite (r_end_stop _ _ Hq). specialize (Hlo (j, q) ltac:(set_solver)).
    destruct (Z.ltb_spec (r_off rn) (r_off q + r_len q)).
    + exists (inl j). split; [done |]. exists q. split; [set_solver |]. unfold crosses, off, stop in *. simpl in *. lia.
    + exists (inr w). split; [done |]. exists (l ++ [(j, q)]), hi. split_and!; try done.
      intros n [Hn | ->%list_elem_of_singleton]%elem_of_app; [| done]. specialize (Hl n Hn) as (_ & Hl). unfold off in *. simpl in *. lia.
  - apply last_None in El as ->. exists (inr w). split; [done |]. exists [], hi. split_and!; try done. set_solver.
Qed.

Definition wreq (o l : Z) (ty : rl_type_t) : rl_t := MkRl o l 1 ty false false false.

(** A request that the arithmetic of the code can represent: the file is at
    most [2 ^ 63 - 1] bytes long. *)
Definition size_ok s : Prop := match zr_size s with Some z => 0 <= z < 2 ^ 63 | None => True end.
Definition ask_ok (o l : Z) (ty : rl_type_t) : Prop :=
  0 <= o /\ 0 < l /\ o + l <= UINT64_MAX /\ (ty = RL_APPEND -> l <= 2 ^ 63).

(** Where a writer asks for [l] bytes: at the offset given, or at the end of
    the file. *)
Definition start_of s (o : Z) (ty : rl_type_t) : Z :=
  match zr_size s, ty with Some z, RL_APPEND => z | _, _ => o end.

Lemma writer_range_spec s o l ty : size_ok s -> ask_ok o l ty ->
  exists o' l', writer_range s l (wreq o l ty) = wreq o' l' ty /\ 0 <= o' /\ 0 < l' /\ o' + l' <= UINT64_MAX /\
    ((o' = start_of s o ty /\ l' = l) \/ (is_Some (zr_size s) /\ o' = 0 /\ l' = UINT64_MAX)).
Proof.
  unfold size_ok, ask_ok, writer_range, start_of. destruct (zr_size s) as [z |] eqn:Ez; intros Hz (H0 & Hl & Hu & Hap); [| exists o, l; split_and!; auto].
  assert (Hst : exists o', (if bool_decide (r_type (wreq o l ty) = RL_APPEND) then with_range z (r_len (wreq o l ty)) (wreq o l ty) else wreq o l ty) = wreq o' l ty /\
    o' = (match ty with RL_APPEND => z | _ => o end) /\ 0 <= o' /\ o' + l <= UINT64_MAX).
  { destruct ty; simpl; eexists; (split; [reflexivity |]); (split; [done |]); try lia. specialize (Hap eq_refl). unfold UINT64_MAX, W64 in *. lia. }
  destruct Hst as (o' & -> & Eo & Ho' & Hu'). destruct ((zr_blksz s <? _) && _).
  - exists 0, UINT64_MAX. split; [done |]. split; [done |]. split; [done |]. split; [done |]. right. eauto.
  - exists o', l. split_and!; try done. by left.
Qed.

(** The new node of a writer in a gap. *)
Lemma insert_writer s lo hi Dh new o l : good (lo ++ hi) Dh.*2 -> 0 <= o -> 0 < l -> o + l <= UINT64_MAX ->
  (forall n, n ∈ lo -> stop n <= o) -> (forall n, n ∈ hi -> o + l <= off n) ->
  exclusive (lo ++ hi) o (o + l) /\ good (lo ++ (new, wreq o l RL_WRITER) :: hi) Dh.*2 /\ Z.of_nat (length (lo ++ hi)) + 1 < W64 /\
  forall s', rest s' = rest s -> grants s (lo ++ hi) Dh s' (lo ++ (new, wreq o l RL_WRITER) :: hi) Dh (new, (o, o + l, RL_WRITER)).
Proof.
  intros Hg H0 Hl Hu Hlo Hhi. split; [intros n [Hn | Hn]%elem_of_app (? & ?); [specialize (Hlo n Hn) | specialize (Hhi n Hn)]; lia |].
  assert (Hg' : good (lo ++ (new, wreq o l RL_WRITER) :: hi) Dh.*2).
  { apply good_insert; unfold span_ok, off, stop; simpl; auto; [lia]. }
  split; [done |]. pose proof (good_bounds _ _ Hg') as Hbd. rewrite length_app in *. simpl in Hbd. split; [lia |].
  intros s' R. split; [done | set_solver | |].
  - intros m Hm. assert (m = (new, wreq o l RL_WRITER) \/ m ∈ lo ++ hi) as [-> | ?] by set_solver; [by right | by left].
  - unfold handles. rewrite !bind_app. simpl. unfold own at 2. unfold off, stop. simpl. rewrite <- Permutation_middle. done.
Qed.

Lemma lock_writer_spec s N Dh F new o l ty : core s N Dh ((new, wreq o l ty) :: F) -> good N Dh.*2 -> size_ok s -> ask_ok o l ty ->
  exists o' l' s' (got : bool), zfs_range_lock_writer s new o l = Ok (s', got) /\
    0 <= o' /\ 0 < l' /\ o' + l' <= UINT64_MAX /\
    ((o' = start_of s o ty /\ l' = l) \/ (is_Some (zr_size s) /\ o' = 0 /\ l' = UINT64_MAX)) /\
    if got then exclusive N o' (o' + l') /\ exists N', core s' N' Dh F /\ good N' Dh.*2 /\ grants s N Dh s' N' Dh (new, (o', o' + l', RL_WRITER))
    else exists i r, (i, r) ∈ N /\ crosses o' (o' + l') (i, r) /\
      waits_on s N Dh ((new, wreq o' l' ty) :: F) s' (MkWaiter new i true o l).
Proof.
  intros Hc Hg Hz Hask. destruct (writer_range_spec s o l ty Hz Hask) as (o' & l' & Er & H0 & Hl & Hu & Hr). exists o', l'.
  unfold zfs_range_lock_writer. destruct (core_upd_frame _ _ _ _ _ _ (writer_range s l) Hc) as (s1 & -> & Hc1 & R1). rewrite bind_Ok, Er in *.
  pose proof (fun lo hi => insert_writer s lo hi Dh new o' l') as Hins.
  rewrite (core_numnodes _ _ _ _ Hc1). destruct (Z.eqb_spec (Z.of_nat (length N)) 0) as [E0 | Hne].
  - assert (N = []) as -> by (apply nil_length_inv; lia). destruct (Hins [] [] Hg H0 Hl Hu ltac:(set_solver) ltac:(set_solver)) as (Hex & Hg' & Hbd & Hgr).
    destruct (core_upd_frame _ _ _ _ _ _ (with_type RL_WRITER) Hc1) as (s2 & -> & Hc2 & R2). rewrite bind_Ok.
    destruct (core_add s2 [] [] Dh new _ F Hc2 ltac:(set_solver) ltac:(set_solver) ltac:(simpl; lia)) as (s3 & -> & Hc3 & R3). rewrite bind_Ok.
    exists s3, true. split_and!; try done. exists [(new, wreq o' l' RL_WRITER)]. split_and!; try done. apply Hgr. congruence.
  - destruct (writer_conflict_spec s1 N Dh _ new (wreq o' l' ty) Hc1 ltac:(apply Hg) ltac:(by left)) as (c & -> & Hv).
    { unfold span_ok, off, stop. simpl. lia. }
    rewrite bind_Ok. destruct c as [i | w].
    + destruct Hv as (r & Hin & Hx). destruct (waits_on_spec s1 N Dh _ (MkWaiter new i true o l) r Hc1 Hin) as (s2 & E2 & lo & r' & hi & EN & Hc2 & R2).
      change (upd s1 i want_write) with (upd s1 (w_on (MkWaiter new i true o l)) (mark (MkWaiter new i true o l))). rewrite E2, bind_Ok.
      eexists _, false. split_and!; try done. exists i, r. split; [done |]. split; [done |]. exists lo, r', hi. split; [done |]. split; [done |].
      rewrite R2. unfold rest in *. simpl. injection R1 as -> -> -> -> ->. done.
    + destruct Hv as (lo & hi & -> & Hgap & Hlo & Hhi). destruct (Hins lo hi Hg H0 Hl Hu Hlo Hhi) as (Hex & Hg' & Hbd & Hgr).
      destruct (core_upd_frame _ _ _ _ _ _ (with_type RL_WRITER) Hc1) as (s2 & E2 & Hc2 & R2).
      assert (Eavl : zr_avl s2 = zr_avl s1) by (unfold upd in E2; destruct (get s1 new); simpl in E2; [by injection E2 as <- | done]).
      rewrite E2, bind_Ok, <- Eavl in *. destruct (core_insert _ _ _ _ _ _ _ _ Hc2 Hgap Hbd) as (s3 & -> & Hc3 & R3). rewrite bind_Ok.
      exists s3, true. split_and!; try done. exists (lo ++ (new, wreq o' l' RL_WRITER) :: hi). split_and!; try done. apply Hgr. congruence.
Qed.
End lock.
