(* ===== verification/RlockUnlock.v ===== *)
(** * Releasing a lock

    Nodes that no lock uses any more leave the tree, the threads that wait for
    them are woken, and their memory is freed when nobody can reach it. *)
From S2P Require Import Prelude Avl AvlSpec OrdTree Rlock RlockSpec RlockOps RlockRead RlockLock.
Local Open Scope Z_scope.

(** The flag a waiting thread has set. *)
Definition wanted (w : waiter) (r : rl_t) : Prop := (if w_writer w then r_write_wanted r else r_read_wanted r) = true.

Section unlock.
Context {T : Type} `{!AvlOps rlp T} `{!AvlLaws rlp T}.
Implicit Types (s : zfs_rlock T) (N lo hi F P : list node) (Dh : list (rlp * (Z * Z))) (i : rlp).

(** Whoever waits, waits for a lock that is in the tree and knows it; a lock
    of readers that is wanted by a writer has a writer waiting for it. *)
Definition waits_ok s N : Prop :=
  (forall w, w ∈ waiting s -> exists r, (w_on w, r) ∈ N /\ wanted w r) /\
  (forall n, n ∈ N -> r_write_wanted n.2 = true ->
    r_type n.2 = RL_WRITER \/ exists w, w ∈ waiting s /\ w_on w = n.1 /\ w_writer w = true).

(** Threads may have been woken, nothing else has changed. *)
Record quiet s s' : Prop := {
  q_file : zr_size s' = zr_size s /\ zr_blksz s' = zr_blksz s /\ zr_max_blksz s' = zr_max_blksz s;
  q_waiting : forall w, w ∈ waiting s' -> w ∈ waiting s;
  q_threads : waiting s' ++ woken s' ≡ₚ waiting s ++ woken s }.

Lemma quiet_refl s : quiet s s.
Proof. by split. Qed.

Lemma quiet_rest s s' : rest s' = rest s -> quiet s s'.
Proof. intros E. unfold rest in E. injection E as E1 E2 E3 E4 E5. split; [done | by rewrite E4 | by rewrite E4, E5]. Qed.

Lemma rest_waiting s s' : rest s' = rest s -> waiting s' = waiting s.
Proof. intros E. unfold rest in E. by injection E. Qed.

Lemma waits_ok_rest s s' N : rest s' = rest s -> waits_ok s N -> waits_ok s' N.
Proof. intros E H. unfold waits_ok. by rewrite (rest_waiting _ _ E). Qed.

Lemma quiet_trans s1 s2 s3 : quiet s1 s2 -> quiet s2 s3 -> quiet s1 s3.
Proof.
  intros [(A1 & A2 & A3) B1 C1] [(A4 & A5 & A6) B2 C2]. split; [split_and!; congruence | auto | by rewrite C2].
Qed.

Lemma core_queues s N Dh F ws rs : core s N Dh F -> core (set_queues s ws rs) N Dh F.
Proof. by intros []. Qed.

(** ** Waking *)
Lemma filter_parts {A} (f : A -> bool) (l : list A) : List.filter (fun x => negb (f x)) l ++ List.filter f l ≡ₚ l.
Proof. induction l as [| x l IH]; simpl; [done |]. destruct (f x); simpl; [by rewrite <- Permutation_middle, IH | by rewrite IH]. Qed.

Lemma broadcast_spec s i wr : quiet s (cv_broadcast s i wr) /\
  (forall w, w ∈ waiting (cv_broadcast s i wr) <-> w ∈ waiting s /\ on_cv i wr w = false).
Proof.
  assert (Hw : forall w, w ∈ waiting (cv_broadcast s i wr) <-> w ∈ waiting s /\ on_cv i wr w = false).
  { intros w. unfold cv_broadcast. simpl. rewrite !list_elem_of_In, filter_In, negb_true_iff. done. }
  split; [| done]. split; [done | intros w Hin; by apply Hw |].
  unfold cv_broadcast. simpl. rewrite (Permutation_app_comm (woken s)), app_assoc, filter_parts. done.
Qed.

Lemma on_cv_spec i wr w : on_cv i wr w = true <-> w_on w = i /\ w_writer w = wr.
Proof. unfold on_cv. by rewrite andb_true_iff, bool_decide_eq_true, eqb_true_iff. Qed.

Lemma wake_all_core s i r N Dh F : core s N Dh F -> core (wake_all s i r) N Dh F.
Proof. intros []. unfold wake_all, cv_broadcast. by destruct (r_write_wanted r), (r_read_wanted r). Qed.

(** [wake_all] wakes every thread that waits for [i]. *)
Lemma wake_all_spec s i r : (forall w, w ∈ waiting s -> w_on w = i -> wanted w r) ->
  quiet s (wake_all s i r) /\ (forall w, w ∈ waiting (wake_all s i r) -> w_on w <> i) /\
  (forall w, w ∈ waiting s -> w_on w <> i -> w ∈ waiting (wake_all s i r)).
Proof.
  intros Hall. assert (Hkeep : forall s wr w, w ∈ waiting s -> w_on w <> i -> w ∈ waiting (cv_broadcast s i wr)).
  { intros s0 wr w Hin Hne. apply broadcast_spec. split; [done |]. apply not_true_iff_false. rewrite on_cv_spec. naive_solver. }
  assert (Hkeep2 : forall w, w ∈ waiting s -> w_on w <> i -> w ∈ waiting (wake_all s i r)).
  { intros w Hin Hne. unfold wake_all. destruct (r_write_wanted r), (r_read_wanted r); auto. }
  rewrite (assoc and). split; [| done]. clear Hkeep Hkeep2. unfold wake_all.
  set (s1 := if r_write_wanted r then cv_broadcast s i true else s).
  assert (H1 : quiet s s1 /\ forall w, w ∈ waiting s1 -> w_on w = i -> w_writer w = false).
  { unfold s1. destruct (r_write_wanted r) eqn:Ew.
    - destruct (broadcast_spec s i true) as (Hq & Hw). split; [done |]. intros w (Hin & Hcv)%Hw Ei. destruct (w_writer w) eqn:E; [| done].
      by rewrite (proj2 (on_cv_spec i true w)) in Hcv.
    - split; [apply quiet_refl |]. intros w Hin Ei. specialize (Hall w Hin Ei). unfold wanted in Hall. destruct (w_writer w); congruence. }
  destruct H1 as (Hq1 & H1). destruct (r_read_wanted r) eqn:Er.
  - destruct (broadcast_spec s1 i false) as (Hq & Hw). split; [by eapply quiet_trans |]. intros w (Hin & Hcv)%Hw Ei.
    by rewrite (proj2 (on_cv_spec i false w)) in Hcv by auto.
  - split; [done |]. intros w Hin Ei. specialize (H1 w Hin Ei). specialize (Hall w (q_waiting _ _ Hq1 w Hin) Ei).
    unfold wanted in Hall. rewrite H1 in Hall. congruence.
Qed.

(** A node leaves the tree with the threads that wait for it. *)
Lemma drop_node s lo i r hi Dh F : core s (lo ++ (i, r) :: hi) Dh F -> waits_ok s (lo ++ (i, r) :: hi) ->
  exists s', tree_remove s i = Ok s' /\ core (wake_all s' i r) (lo ++ hi) Dh ((i, r) :: F) /\
    waits_ok (wake_all s' i r) (lo ++ hi) /\ quiet s (wake_all s' i r).
Proof.
  intros Hc (Hw & Hwhy). destruct (core_remove _ _ _ _ _ _ _ Hc) as (s' & E & Hc' & R).
  exists s'. split; [done |]. split; [by apply wake_all_core |]. pose proof (quiet_rest _ _ R) as Hq.
  assert (Hw' : forall w, w ∈ waiting s' -> exists q, (w_on w, q) ∈ lo ++ (i, r) :: hi /\ wanted w q).
  { intros w Hin. apply Hw. by apply (q_waiting _ _ Hq). }
  destruct (wake_all_spec s' i r) as (Hq' & Hno & Hkeep).
  { intros w Hin Ei. destruct (Hw' w Hin) as (q & Hq' & Hwq). rewrite Ei in Hq'.
    destruct Hc as [_ _ Hst]. pose proof (store_lookup _ _ i q Hst ltac:(set_solver)) as E1.
    pose proof (store_lookup _ _ i r Hst ltac:(set_solver)) as E2.
    assert (q = r) as -> by congruence. done. }
  split; [| by eapply quiet_trans]. split.
  - intros w Hin. specialize (Hno w Hin).
    destruct (Hw' w (q_waiting _ _ Hq' w Hin)) as (q & Hq1 & Hwq). exists q. split; [| done]. set_solver.
  - intros n Hn Hwn. destruct (Hwhy n ltac:(set_solver) Hwn) as [? | (w & Hin & Ew & Hwr)]; [by left |]. right. exists w. split; [| done].
    apply Hkeep; [by rewrite (rest_waiting _ _ R) |]. rewrite Ew.
    intros Ei. apply (core_fresh_node _ _ _ _ _ _ Hc'). rewrite <- Ei. by apply list_elem_of_fmap_2.
Qed.

(** ** Freeing *)
Lemma free_spec s N Dh i r F : core s N Dh ((i, r) :: F) -> waits_ok s N ->
  exists s', zfs_range_free s i = Ok s' /\ core s' N Dh F /\ rest s' = rest s.
Proof.
  intros Hc Hw. pose proof (core_fresh_node _ _ _ _ _ _ Hc) as Hi. unfold zfs_range_free.
  rewrite (core_get _ _ _ _ i r Hc), bind_Ok by (right; by left).
  assert (Hno : forall wr, cv_destroy s i wr = Ok tt).
  { intros wr. unfold cv_destroy. destruct (existsb (on_cv i wr) (waiting s)) eqn:E; [| done].
    apply existsb_exists in E as (w & Hin & (Ei & _)%on_cv_spec). destruct (proj1 Hw w) as (q & Hq & _); [by apply list_elem_of_In |].
    destruct Hi. apply list_elem_of_fmap. exists (w_on w, q). done. }
  rewrite !Hno. eexists. split; [by destruct (r_write_wanted r), (r_read_wanted r) |]. split; [by eapply core_free | done].
Qed.

Lemma free_all_spec Fr : forall s N Dh F, core s N Dh (Fr ++ F) -> waits_ok s N ->
  exists s', free_all s Fr.*1 = Ok s' /\ core s' N Dh F /\ rest s' = rest s.
Proof.
  induction Fr as [| (i, r) Fr IH]; intros s N Dh F Hc Hw; [exists s; done |]. rewrite fmap_cons. cbn [free_all fst].
  destruct (free_spec s N Dh i r (Fr ++ F) Hc Hw) as (s1 & -> & Hc1 & R1). rewrite bind_Ok.
  destruct (IH s1 N Dh F Hc1 (waits_ok_rest _ _ _ R1 Hw)) as (s2 & -> & Hc2 & R2).
  exists s2. split; [done |]. split; [done | congruence].
Qed.

(** ** The proxies of a reader lock *)
(** The lock has been released up to [x]; the structures [Fr] are to be freed. *)
Record releasing s lo hi Dh Fr P (x b : Z) : Prop := {
  rl_core : core s (lo ++ hi) Dh (Fr ++ P);
  rl_good : good (lo ++ hi) ((x, b) :: Dh.*2);
  rl_waits : waits_ok s (lo ++ hi);
  rl_flags : flags_ok (lo ++ hi);
  rl_x : 0 <= x <= b /\ b <= UINT64_MAX;
  rl_len : Z.of_nat (length Dh) < 2 ^ 32 }.

Lemma release_step s lo i r hi Dh Fr P b : releasing s lo ((i, r) :: hi) Dh Fr P (r_off r) b -> r_off r < b ->
  exists s1 r1 s2 Fr' lo', upd s i (fun r => with_cnt (u32_add (r_cnt r) (-1)) r) = Ok s1 /\ get s1 i = Ok r1 /\
    (if r_cnt r1 =? 0 then s ← tree_remove s1 i ; Ok (wake_all s i r1, Fr.*1 ++ [i]) else Ok (s1, Fr.*1)) = Ok (s2, Fr'.*1) /\
    releasing s2 lo' hi Dh Fr' P (r_off r + r_len r) b /\ quiet s s2 /\
    (lo' ++ hi) ≫= own = (lo ++ (i, r) :: hi) ≫= own.
Proof.
  intros [Hc Hg Hw Hf (Hx & Hb) Hlen] Hxb. destruct (good_first _ _ _ _ _ _ Hg Hxb) as (Hle & Hp & Ht & Hcnt & _).
  pose proof Hg as (Ho & _). destruct (ordered_mid _ _ _ Ho) as (Hs & _). unfold span_ok, off, stop in Hs. simpl in Hs.
  pose proof (good_drop _ _ _ _ _ _ Hg Hxb) as Hd. pose proof (cnt_at_nonneg Dh.*2 (r_off r)) as H0.
  pose proof (cnt_at_length Dh.*2 (r_off r)) as H1. rewrite length_fmap in H1.
  destruct (core_upd_node _ _ _ _ _ _ _ (fun r => with_cnt (u32_add (r_cnt r) (-1)) r) Hc) as (s1 & E1 & Hc1 & R1).
  assert (Ec : u32_add (r_cnt r) (-1) = r_cnt r - 1) by (unfold u32_add; apply Z.mod_small; lia).
  cbn beta in Hc1. rewrite Ec in Hc1. set (r1 := with_cnt (r_cnt r - 1) r) in *.
  assert (Hw1 : waits_ok s1 (lo ++ (i, r1) :: hi)).
  { apply (waits_ok_rest _ _ _ R1). destruct Hw as (Hw & Hwhy). split.
    - intros w Hin. destruct (Hw w Hin) as (q & Hq & Hwq).
      assert ((w_on w, q) = (i, r) \/ (w_on w, q) ∈ lo ++ hi) as [[= -> ->] | Hq'] by set_solver; [exists r1 | exists q]; set_solver.
    - intros n Hn. assert (n = (i, r1) \/ n ∈ lo ++ hi) as [-> | Hn'] by set_solver; [apply (Hwhy (i, r)) | apply Hwhy]; set_solver. }
  assert (Hown : own (i, r) = [] /\ own (i, r1) = []) by (unfold own; simpl; by rewrite Hp). destruct Hown as (Ho1 & Ho2).
  exists s1, r1. assert (Eg : get s1 i = Ok r1) by by eapply core_get_node. change (r_cnt r1) with (r_cnt r - 1).
  destruct (Z.eqb_spec (r_cnt r) 1) as [E | E].
  - rewrite (proj2 (Z.eqb_eq (r_cnt r - 1) 0)) by lia. destruct (drop_node _ _ _ _ _ _ _ Hc1 Hw1) as (s2 & E2 & Hc2 & Hw2 & Hq2).
    exists (wake_all s2 i r1), (Fr ++ [(i, r1)]), lo. split; [done |]. split; [done |]. rewrite E2, fmap_app. split; [done |].
    split; [| split; [eapply quiet_trans; [by apply quiet_rest | done] |]].
    + split; [| done | done | intros n Hn; apply Hf; set_solver | lia | done].
      eapply core_F; [| exact Hc2]. rewrite <- app_assoc. simpl. by rewrite <- Permutation_middle.
    + rewrite !bind_app. simpl. by rewrite Ho1.
  - rewrite (proj2 (Z.eqb_neq (r_cnt r - 1) 0)) by lia. exists s1, Fr, (lo ++ [(i, r1)]). split; [done |]. split; [done |]. split; [done |].
    split; [| split; [by apply quiet_rest |]].
    + split; rewrite <- ?app_assoc; simpl; try done; [| lia]. intros n Hn.
      assert (n = (i, r1) \/ n ∈ lo ++ hi) as [-> | Hn'] by set_solver; [apply (Hf (i, r)) | apply Hf]; set_solver.
    + rewrite <- app_assoc, !bind_app. simpl. by rewrite Ho1, Ho2.
Qed.

(** The node at which the next round begins. *)
Lemma release_next s lo i r hi Dh Fr P b : releasing s lo ((i, r) :: hi) Dh Fr P (r_off r) b -> r_off r < b ->
  r_off r + r_len r < b ->
  exists j nx hi', hi = (j, nx) :: hi' /\ r_off nx = r_off r + r_len r /\ r_cnt nx <> 0 /\ r_type nx = RL_READER.
Proof.
  intros [_ Hg _ _ (Hx & _) _] Hxb Hlt. destruct (good_first _ _ _ _ _ _ Hg Hxb) as (_ & _ & _ & _ & Hn).
  destruct (Hn Hlt) as ((j, nx) & hi' & -> & En). unfold off in En. simpl in En. exists j, nx, hi'. split; [done |]. split; [done |].
  destruct Hg as (Ho & Hok & _). destruct (ordered_mid _ _ _ Ho) as (Hs & _). unfold span_ok, off, stop in Hs. simpl in Hs.
  specialize (Hok (j, nx) ltac:(set_solver)). unfold node_ok, off in Hok. simpl in Hok.
  pose proof (cnt_at_nonneg Dh.*2 (r_off nx)) as H0. rewrite (proj2 (Z.leb_le _ _)), (proj2 (Z.ltb_lt _ _)) in Hok by lia. simpl in Hok.
  destruct (r_proxy nx); [| lia]. destruct Hok as (? & ? & ?). split; [lia | done].
Qed.

Lemma good_done N D b : good N ((b, b) :: D) -> good N D.
Proof.
  intros (Ho & Hn & Hd). split; [done |]. split; [| intros d Hin; apply Hd; by right].
  intros n Hin. specialize (Hn n Hin). unfold node_ok in *. simpl cnt_at in Hn.
  by replace ((b <=? off n) && (off n <? b)) with false in Hn by lia.
Qed.

Lemma unlock_loop_spec Dh P b hi : forall fuel s lo Fr x i, releasing s lo hi Dh Fr P x b ->
  (x < b -> exists r hi', hi = (i, r) :: hi' /\ r_off r = x) -> (length hi < fuel)%nat ->
  exists s' N' Fr', unlock_reader_loop fuel s i (b - x) Fr.*1 = Ok (s', Fr'.*1) /\ core s' N' Dh (Fr' ++ P) /\ good N' Dh.*2 /\
    waits_ok s' N' /\ flags_ok N' /\ quiet s s' /\ N' ≫= own = (lo ++ hi) ≫= own.
Proof.
  induction hi as [| (k, r) hi IH]; intros fuel s lo Fr x i Hrel Hi Hf; (destruct fuel as [| fuel]; [simpl in Hf; lia |]);
    pose proof (rl_x _ _ _ _ _ _ _ _ Hrel) as (Hx & Hb); cbn [unlock_reader_loop].
  1: assert (x = b) as -> by (destruct (decide (x < b)) as [Hlt |]; [destruct (Hi Hlt) as (? & ? & ? & _); done | lia]).
  2: destruct (decide (x = b)) as [-> | Hne].
  1, 2: rewrite Z.sub_diag; simpl; destruct Hrel as [Hc Hg Hw Hfl _ _]; eexists s, _, Fr; split; [done |]; split; [exact Hc |];
    split; [by eapply good_done |]; split_and!; try done; apply quiet_refl.
  destruct (Hi ltac:(lia)) as (r' & hi' & [= -> <- <-] & Ex). subst x. rewrite (proj2 (Z.eqb_neq (b - r_off r) 0)) by lia.
  rewrite (core_get_node _ _ _ _ _ _ _ (rl_core _ _ _ _ _ _ _ _ Hrel)), bind_Ok.
  pose proof (rl_good _ _ _ _ _ _ _ _ Hrel) as Hg. destruct (good_first _ _ _ _ _ _ Hg ltac:(lia)) as (Hle & _).
  pose proof Hg as (Ho & _). destruct (ordered_mid _ _ _ Ho) as (Hs & _). pose proof (r_end_stop _ _ Hs) as Ee. unfold span_ok, off, stop in Hs. simpl in Hs.
  assert (El : u64_sub (b - r_off r) (r_len r) = b - (r_off r + r_len r)).
  { rewrite u64_sub_small; [lia |]. unfold is_u64, UINT64_MAX in *. lia. }
  rewrite El. destruct (release_step _ _ _ _ _ _ _ _ _ Hrel ltac:(lia)) as (s1 & r1 & s2 & Fr' & lo' & E1 & E2 & E3 & Hrel' & Hq & Hown).
  assert (Hnext : exists j, (if b - (r_off r + r_len r) =? 0 then Ok i else
      o ← avl_next s i ; '(j, nx) ← deref o ;
      VERIFY (r_end r =? r_off nx) ;; VERIFY (negb (r_cnt nx =? 0)) ;; VERIFY (bool_decide (r_type nx = RL_READER)) ;; Ok j) = Ok j /\
    (r_off r + r_len r < b -> exists q hi', hi = (j, q) :: hi' /\ r_off q = r_off r + r_len r)).
  { destruct (Z.eqb_spec (b - (r_off r + r_len r)) 0); [exists i; split; [done | lia] |].
    destruct (release_next _ _ _ _ _ _ _ _ _ Hrel ltac:(lia) ltac:(lia)) as (j & nx & hi' & -> & Ej & Hcj & Htj).
    exists j. rewrite (core_next _ _ _ _ _ _ _ (rl_core _ _ _ _ _ _ _ _ Hrel)). simpl. rewrite Ee, Ej, Z.eqb_refl, (proj2 (Z.eqb_neq _ _) Hcj).
    rewrite bool_decide_eq_true_2 by done. split; [done |]. intros _. by exists nx, hi'. }
  destruct Hnext as (j & -> & Hj). rewrite bind_Ok, E1, bind_Ok, E2, bind_Ok, E3, bind_Ok.
  destruct (IH fuel s2 lo' Fr' _ j Hrel' Hj ltac:(simpl in Hf; lia)) as (s3 & N3 & Fr3 & -> & Hc3 & Hg3 & Hw3 & Hf3 & Hq3 & Ho3).
  exists s3, N3, Fr3. split_and!; try done; [by eapply quiet_trans | congruence].
Qed.
End unlock.
