(* ===== verification/RlockInv.v ===== *)
(** * The invariant of a range lock

    [inv s H]: the locks held are exactly [H], each with its range and type.
    Every call of the interface keeps it, for the table of locks that the call
    is meant to leave. *)
From S2P Require Import Prelude Avl AvlSpec OrdTree Rlock RlockSpec RlockOps RlockRead RlockLock RlockUnlock.
Local Open Scope Z_scope.
#[local] Opaque alloc.
#[local] Arguments unlock_reader_loop : simpl never.

(** The structure of a thread that has to try again. *)
Definition pending (w : waiter) (r : rl_t) : Prop :=
  if w_writer w
  then exists o l ty, r = wreq o l ty /\ ty <> RL_READER /\ ask_ok (w_off w) (w_len w) ty
  else r = wreq (w_off w) (w_len w) RL_READER /\ ask_ok (w_off w) (w_len w) RL_READER.

Definition lo_of (h : held_t) : Z := h.2.1.1.
Definition hi_of (h : held_t) : Z := h.2.1.2.
Definition ty_of (h : held_t) : rl_type_t := h.2.2.

Section inv.
Context {T : Type} `{!AvlOps rlp T} `{!AvlLaws rlp T}.
Implicit Types (s : zfs_rlock T) (H : list held_t) (N lo hi F P : list node) (Dh : list (rlp * (Z * Z))) (i : rlp).

Record inv_at s H N Dh P : Prop := {
  v_good : good N Dh.*2;
  v_flags : flags_ok N;
  v_waits : waits_ok s N;
  v_size : size_ok s;
  v_held : H ≡ₚ handles N Dh;
  v_ranges : forall h, h ∈ H -> 0 <= lo_of h < hi_of h /\ hi_of h <= UINT64_MAX;
  v_count : Z.of_nat (length H) < 2 ^ 32;
  v_ids : P.*1 ≡ₚ w_new <$> (waiting s ++ woken s);
  v_pend : forall w, w ∈ waiting s ++ woken s -> exists r, (w_new w, r) ∈ P /\ pending w r }.

Definition inv s H : Prop := exists N Dh P, core s N Dh P /\ inv_at s H N Dh P.

Lemma handles_out N Dh h d : (h, d) ∈ Dh -> (h, (d, RL_READER)) ∈ handles N Dh.
Proof. intros Hin. apply elem_of_app. right. apply list_elem_of_fmap. exists (h, d). done. Qed.

Lemma handles_own N Dh i r : (i, r) ∈ N -> r_proxy r = false -> (i, (r_off r, r_off r + r_len r, r_type r)) ∈ handles N Dh.
Proof.
  intros Hin Hp. apply elem_of_app. left. apply list_elem_of_bind. exists (i, r). split; [| done]. unfold own. simpl. rewrite Hp. by left.
Qed.

Lemma handles_inv N Dh h : h ∈ handles N Dh ->
  (exists r, (h.1, r) ∈ N /\ r_proxy r = false /\ h.2 = (r_off r, r_off r + r_len r, r_type r)) \/
  (exists d, (h.1, d) ∈ Dh /\ h.2 = (d, RL_READER)).
Proof.
  intros [Hin | Hin]%elem_of_app.
  - apply list_elem_of_bind in Hin as ((i, r) & Hh & Hin). left. unfold own in Hh. simpl in Hh. destruct (r_proxy r) eqn:Ep; [by apply elem_of_nil in Hh |].
    apply list_elem_of_singleton in Hh as ->. exists r. done.
  - apply list_elem_of_fmap in Hin as ((i, d) & -> & Hin). right. exists d. done.
Qed.

(** Steps that only wake threads and shrink the tree. *)
Lemma inv_quiet s s' H H' N N' Dh Dh' P : inv_at s H N Dh P -> quiet s s' -> good N' Dh'.*2 -> flags_ok N' -> waits_ok s' N' ->
  H' ≡ₚ handles N' Dh' -> (forall h, h ∈ H' -> h ∈ H \/ (0 <= lo_of h < hi_of h /\ hi_of h <= UINT64_MAX)) -> (length H' <= length H)%nat ->
  inv_at s' H' N' Dh' P.
Proof.
  intros [Hg Hf Hw Hz Hh Hr Hn Hi Hp] [(Ez & _) Hq1 Hq2] Hg' Hf' Hw' Hh' Hsub Hlen. split; try done.
  - unfold size_ok in *. by rewrite Ez.
  - intros h Hin. destruct (Hsub h Hin); auto.
  - lia.
  - by rewrite Hq2.
  - intros w Hin. apply Hp. by rewrite <- Hq2.
Qed.

(** ** Unlocking *)
Lemma unlock_own s H H' N Dh P h : core s N Dh P -> inv_at s H N Dh P -> H ≡ₚ h :: H' ->
  (exists r, (h.1, r) ∈ N /\ r_proxy r = false /\ h.2 = (r_off r, r_off r + r_len r, r_type r)) ->
  exists s' N', zfs_range_unlock s h.1 = Ok s' /\ quiet s s' /\ core s' N' Dh P /\ inv_at s' H' N' Dh P.
Proof.
  intros Hc Hv EH (r & Hin & Hp & Eh). destruct h as (i, d). simpl in *. subst d. apply list_elem_of_split in Hin as (lo & hi & ->).
  pose proof (v_good _ _ _ _ _ Hv) as Hg. pose proof Hg as (_ & Hok & _). specialize (Hok (i, r) ltac:(set_solver)) as Hn.
  unfold node_ok in Hn. simpl in Hn. rewrite Hp in Hn. destruct Hn as (Ht & Ec & E0).
  destruct (drop_node _ _ _ _ _ _ _ Hc (v_waits _ _ _ _ _ Hv)) as (s1 & E1 & Hc1 & Hw1 & Hq1).
  destruct (free_all_spec [(i, r)] (wake_all s1 i r) _ _ P Hc1 Hw1) as (s2 & E2 & Hc2 & R2). simpl in E2.
  exists s2, (lo ++ hi). unfold zfs_range_unlock, zfs_range_unlock_reader. rewrite (core_get_node _ _ _ _ _ _ _ Hc). simpl. rewrite Ec, Hp, E1. simpl.
  assert (Hq : quiet s s2) by (eapply quiet_trans; [exact Hq1 | by apply quiet_rest]).
  split; [destruct Ht as [-> | ->]; simpl; exact E2 |]. split; [done |]. split; [done |].
  apply (inv_quiet s s2 H H' (lo ++ (i, r) :: hi) _ Dh Dh P Hv Hq).
  - by eapply good_remove.
  - intros n Hn. apply (v_flags _ _ _ _ _ Hv). set_solver.
  - by apply (waits_ok_rest _ _ _ R2).
  - apply (Permutation_cons_inv (a := (i, (r_off r, r_off r + r_len r, r_type r)))). rewrite <- EH, (v_held _ _ _ _ _ Hv).
    unfold handles. rewrite !bind_app. simpl. unfold own at 2. simpl. rewrite Hp. unfold off, stop. simpl. by rewrite <- Permutation_middle.
  - intros h Hh. left. rewrite EH. by right.
  - rewrite EH. simpl. lia.
Qed.

(** The first proxy of a lock outside the tree. *)
Lemma find_out s N Dh P i a b : core s N Dh (det (i, (a, b)) :: P) -> good N ((a, b) :: Dh.*2) -> a < b ->
  exists lo j q hi, N = lo ++ (j, q) :: hi /\ r_off q = a /\ find s i = Ok (inl j).
Proof.
  intros Hc (Ho & _ & Hd) Hab.
  destruct (find_cases s N Dh _ i _ Hc Ho ltac:(by left)) as [(lo & j & q & hi & -> & _ & Eq & Ef) | (lo & hi & w & -> & Hlo & Hhi & _)];
    [by exists lo, j, q, hi |].
  destruct (Hd (a, b) ltac:(by left)) as (_ & Hap & Hcov). destruct (Hcov a ltac:(simpl; lia)) as (n & Hn & Hna).
  specialize (Hap n Hn ltac:(simpl; lia)). simpl in Hap, Hlo, Hhi.
  apply elem_of_app in Hn as [Hn | Hn]; [specialize (Hlo n Hn) | specialize (Hhi n Hn)]; lia.
Qed.

Lemma unlock_out s H H' N Dh P h : core s N Dh P -> inv_at s H N Dh P -> H ≡ₚ h :: H' ->
  (exists d, (h.1, d) ∈ Dh /\ h.2 = (d, RL_READER)) ->
  exists s' N' Dh', zfs_range_unlock s h.1 = Ok s' /\ quiet s s' /\ core s' N' Dh' P /\ inv_at s' H' N' Dh' P.
Proof.
  intros Hc Hv EH ((a, b) & Hin & Eh). destruct h as (i, d). simpl in *. subst d.
  destruct (v_ranges _ _ _ _ _ Hv (i, (a, b, RL_READER)) ltac:(rewrite EH; by left)) as (Hab & Hb). unfold lo_of, hi_of in Hab, Hb. simpl in Hab, Hb.
  apply elem_of_Permutation in Hin as (Dh0 & EDh).
  pose proof (good_Permutation N Dh.*2 ((a, b) :: Dh0.*2) ltac:(by rewrite EDh) (v_good _ _ _ _ _ Hv)) as Hg.
  apply (core_Dh _ _ _ _ _ EDh), core_detach in Hc.
  assert (Hlen : Z.of_nat (length Dh0) < 2 ^ 32).
  { pose proof (v_count _ _ _ _ _ Hv) as Hn. rewrite (v_held _ _ _ _ _ Hv) in Hn. pose proof (handles_length N Dh) as Hl.
    pose proof (Permutation_length EDh) as El. simpl in El. lia. }
  destruct (find_out s N Dh0 P i a b Hc Hg ltac:(lia)) as (lo & j & q & hi & -> & Eq & Ef).
  rewrite <- Eq in Hg. destruct (good_first _ _ _ _ _ _ Hg ltac:(lia)) as (_ & Hp & Ht & Ec & _).
  assert (Hrel : releasing s lo ((j, q) :: hi) Dh0 [] (det (i, (a, b)) :: P) (r_off q) b).
  { split; try done; [apply (v_waits _ _ _ _ _ Hv) | apply (v_flags _ _ _ _ _ Hv) | lia]. }
  destruct (unlock_loop_spec Dh0 _ b ((j, q) :: hi) (S (Z.to_nat (t_numnodes (zr_avl s)))) s lo [] (r_off q) j Hrel) as (s1 & N1 & Fr & E1 & Hc1 & Hg1 & Hw1 & Hf1 & Hq1 & Ho1).
  { intros _. by exists q, hi. }
  { rewrite (core_numnodes _ _ _ _ Hc), length_app. lia. }
  assert (Hc2 : core (set_rls s1 (delete i (rls s1))) N1 Dh0 (Fr ++ P)).
  { apply (core_free s1 N1 Dh0 i (det (i, (a, b))).2), (core_F _ _ _ (Fr ++ det (i, (a, b)) :: P)); [| exact Hc1].
    by rewrite <- Permutation_middle. }
  destruct (free_all_spec Fr _ _ _ P Hc2 Hw1) as (s2 & E2 & Hc3 & R2). exists s2, N1, Dh0.
  unfold zfs_range_unlock, zfs_range_unlock_reader. rewrite (core_get _ _ _ _ i _ Hc) by (right; by left). simpl.
  rewrite Ef. simpl. rewrite (core_get_node _ _ _ _ _ _ _ Hc). simpl. rewrite Ht.
  pose proof (cnt_at_nonneg Dh0.*2 (r_off q)). rewrite (proj2 (Z.eqb_neq (r_cnt q) 0)) by lia. simpl. rewrite <- Eq. simpl in E1. rewrite E1. simpl.
  assert (Hq : quiet s s2) by (eapply quiet_trans; [exact Hq1 |]; eapply quiet_trans; by apply quiet_rest).
  split; [exact E2 |]. split; [done |]. split; [done |]. apply (inv_quiet s s2 H H' (lo ++ (j, q) :: hi) _ Dh Dh0 P Hv Hq); try done.
  - by apply (waits_ok_rest _ _ _ R2).
  - apply (Permutation_cons_inv (a := (i, (a, b, RL_READER)))). rewrite <- EH, (v_held _ _ _ _ _ Hv). unfold handles. rewrite Ho1, EDh. simpl.
    by rewrite <- Permutation_middle.
  - intros h Hh. left. rewrite EH. by right.
  - rewrite EH. simpl. lia.
Qed.

Lemma unlock_inv s H h H' : inv s H -> H ≡ₚ h :: H' -> exists s', zfs_range_unlock s h.1 = Ok s' /\ quiet s s' /\ inv s' H'.
Proof.
  intros (N & Dh & P & Hc & Hv) EH. assert (Hin : h ∈ handles N Dh) by (rewrite <- (v_held _ _ _ _ _ Hv), EH; by left).
  destruct (handles_inv _ _ _ Hin) as [Ho | Ho].
  - destruct (unlock_own _ _ _ _ _ _ _ Hc Hv EH Ho) as (s' & N' & E & Hq & Hc' & Hv'). exists s'. split; [done |]. split; [done |]. by exists N', Dh, P.
  - destruct (unlock_out _ _ _ _ _ _ _ Hc Hv EH Ho) as (s' & N' & Dh' & E & Hq & Hc' & Hv'). exists s'. split; [done |]. split; [done |]. by exists N', Dh', P.
Qed.

(** ** Reducing *)
(** A lock on the whole file is alone. *)
Lemma whole_alone s H i h : inv s H -> (i, (0, UINT64_MAX, RL_WRITER)) ∈ H -> h ∈ H -> h = (i, (0, UINT64_MAX, RL_WRITER)).
Proof.
  intros (N & Dh & P & Hc & Hv) Hi Hh. destruct (v_ranges _ _ _ _ _ Hv h Hh) as (Hr & Hb). pose proof (v_good _ _ _ _ _ Hv) as (Ho & Hn & Hd).
  rewrite (v_held _ _ _ _ _ Hv) in Hi, Hh. apply handles_inv in Hi as [(r & Hin & Hp & Er) | (d & _ & Er)]; [| simpl in Er; congruence].
  simpl in Hin, Er. injection Er as E0 E1 E2. specialize (Hn (i, r) Hin) as Hok. unfold node_ok in Hok. simpl in Hok. rewrite Hp in Hok. destruct Hok as (_ & _ & H0).
  apply handles_inv in Hh as [(q & Hq & Hpq & Eq) | (d & Hdd & Eq)]; destruct h as (j, t); simpl in *; subst t; unfold lo_of, hi_of in *; simpl in *.
  - assert ((j, q) = (i, r)) as [= -> ->]; [| congruence]. eapply (ordered_same N _ _ (r_off q) Ho Hq Hin); unfold off, stop; simpl; lia.
  - assert (Hdm : d ∈ Dh.*2) by (apply list_elem_of_fmap; by exists (j, d)). pose proof (Hd d Hdm) as Hk.
    pose proof (ordered_span _ _ Ho Hin) as Hs. destruct (handle_ok_cnt0 N Dh.*2 d (i, r) Hk Hdm Hin Hs H0 d.1); unfold off, stop; simpl; lia.
Qed.

Lemma reduce_inv s H i o l : inv s H -> (i, (0, UINT64_MAX, RL_WRITER)) ∈ H -> t_numnodes (zr_avl s) = 1 ->
  0 <= o -> 0 < l -> o + l <= UINT64_MAX ->
  exists s', zfs_range_reduce s i o l = Ok s' /\ inv s' [(i, (o, o + l, RL_WRITER))].
Proof.
  intros Hi Hin En Ho Hl Hu. pose proof (fun h => whole_alone s H i h Hi Hin) as Halone. destruct Hi as (N & Dh & P & Hc & Hv).
  assert (Hn1 : length N = 1%nat) by (rewrite (core_numnodes _ _ _ _ Hc) in En; lia).
  assert (HDh : Dh = []).
  { destruct Dh as [| (j, d) Dh]; [done |]. specialize (Halone (j, (d, RL_READER))). rewrite (v_held _ _ _ _ _ Hv) in Halone.
    specialize (Halone (handles_out N _ j d ltac:(by left))). congruence. }
  subst Dh. rewrite (v_held _ _ _ _ _ Hv) in Hin. apply handles_inv in Hin as [(r & Hr & Hp & Er) | (d & Hd & _)]; [| by apply elem_of_nil in Hd].
  simpl in Hr, Er. injection Er as E0 E1 E2. destruct N as [| n [|]]; [done | | done]. apply list_elem_of_singleton in Hr as <-.
  pose proof (v_good _ _ _ _ _ Hv) as (_ & Hok & _). specialize (Hok (i, r) ltac:(by left)). unfold node_ok in Hok. simpl in Hok. rewrite Hp in Hok.
  destruct Hok as (_ & Ec & _). unfold zfs_range_reduce. rewrite En, (core_get_node _ [] _ _ _ _ _ Hc). simpl. rewrite <- E0, <- E2, Hp, Ec. simpl.
  rewrite (proj2 (Z.eqb_eq (r_len r) UINT64_MAX)) by lia. simpl.
  destruct (core_upd_node s [] i r [] _ _ (with_range o l) Hc) as (s1 & -> & Hc1 & R1). simpl. eexists. split; [done |].
  destruct (waits_ok_rest _ _ _ R1 (v_waits _ _ _ _ _ Hv)) as (Hw1 & _). destruct (wake_all_spec s1 i r) as (Hq & Hno & _).
  { intros w Hw _. destruct (Hw1 w Hw) as (q & [= _ ->]%list_elem_of_singleton & Hwq). done. }
  exists [(i, with_range o l r)], [], P. split; [by apply wake_all_core |].
  apply (inv_quiet s _ H _ [(i, r)] _ [] [] P Hv).
  - eapply quiet_trans; [by apply quiet_rest | exact Hq].
  - apply (good_insert [] []); unfold span_ok, off, stop; simpl; try done; [| lia | set_solver | set_solver | by right].
    split; [apply ordered_nil |]. set_solver.
  - intros n ->%list_elem_of_singleton _. left. simpl. done.
  - split; [| intros n ->%list_elem_of_singleton _; by left].
    intros w Hw. specialize (Hno w Hw). destruct (Hw1 w (q_waiting _ _ Hq w Hw)) as (q & [= Ew _]%list_elem_of_singleton & _). done.
  - unfold handles, own, off, stop. simpl. rewrite Hp, E2. done.
  - intros h ->%list_elem_of_singleton. right. unfold lo_of, hi_of. simpl. lia.
  - rewrite (v_held _ _ _ _ _ Hv). unfold handles, own. simpl. rewrite Hp. simpl. lia.
Qed.

(** ** Locking *)
Lemma rest_size s s' : rest s' = rest s -> size_ok s -> size_ok s'.
Proof. intros E. unfold rest in E. injection E as E1 _ _ _ _. unfold size_ok. by rewrite E1. Qed.

Lemma got_inv s s0 H N Dh P s' N' Dh' h : inv_at s H N Dh P -> rest s0 = rest s -> grants s0 N Dh s' N' Dh' h -> good N' Dh'.*2 ->
  0 <= lo_of h < hi_of h -> hi_of h <= UINT64_MAX -> Z.of_nat (length H) + 1 < 2 ^ 32 -> inv_at s' (h :: H) N' Dh' P.
Proof.
  intros [Hg Hf (Hw & Hwhy) Hz Hh Hr Hn Hi Hp] R [R' K M Hh'] Hg' H1 H2 Hlen. rewrite R in R'.
  pose proof (rest_waiting _ _ R') as Ew. assert (Ek : woken s' = woken s) by (unfold rest in R'; by injection R'). split; try done.
  - intros n Hin Hrd. destruct (M n Hin) as [Hin' | (_ & Hu)]; [by apply Hf | congruence].
  - unfold waits_ok. rewrite Ew. split.
    + intros w Hin. destruct (Hw w Hin) as (q & Hq & Hwq). exists q. split; [| done]. apply K; [done |]. intros (Hu1 & Hu2).
      simpl in *. unfold wanted in Hwq. destruct (w_writer w); congruence.
    + intros n Hin Hwr. destruct (M n Hin) as [Hin' | (Hu & _)]; [by apply Hwhy | congruence].
  - by eapply rest_size.
  - by rewrite Hh', Hh.
  - intros h' [-> | Hin]%elem_of_cons; [done | by apply Hr].
  - simpl length. lia.
  - by rewrite Ew, Ek.
  - rewrite Ew, Ek. done.
Qed.

Lemma elem_mid {A} (x y : A) (lo hi : list A) : x ∈ lo ++ y :: hi <-> x = y \/ x ∈ lo ++ hi.
Proof. rewrite !elem_of_app, elem_of_cons. naive_solver. Qed.

Lemma mark_same w q : r_off (mark w q) = r_off q /\ r_len (mark w q) = r_len q /\ r_cnt (mark w q) = r_cnt q /\
  r_type (mark w q) = r_type q /\ r_proxy (mark w q) = r_proxy q.
Proof. unfold mark. by destruct (w_writer w). Qed.

(** The lock that [w] waits for is marked. *)
Lemma mark_flags lo w q hi : flags_ok (lo ++ (w_on w, q) :: hi) -> (w_writer w = true \/ blocking q) ->
  flags_ok (lo ++ (w_on w, mark w q) :: hi).
Proof.
  intros Hf Hb n [-> | Hin]%elem_mid Hrd; [| apply Hf; [apply elem_mid; by right | done]].
  unfold blocking, mark in *. simpl in *. destruct (w_writer w); [by right |]. by destruct Hb.
Qed.

Lemma mark_waits s s' lo w q hi : waits_ok s (lo ++ (w_on w, q) :: hi) -> waiting s' = waiting s ++ [w] ->
  waits_ok s' (lo ++ (w_on w, mark w q) :: hi).
Proof.
  intros (Hw & Hwhy) Ew. unfold waits_ok. rewrite Ew. split.
  - intros w' [Hin | ->%list_elem_of_singleton]%elem_of_app.
    + destruct (Hw w' Hin) as (p & [[= E ->] | Hp]%elem_mid & Hwp); [| exists p; split; [apply elem_mid; by right | done]].
      exists (mark w q). rewrite E. split; [apply elem_mid; by left |]. unfold wanted, mark in *. by destruct (w_writer w'), (w_writer w).
    + exists (mark w q). split; [apply elem_mid; by left |]. unfold wanted, mark. by destruct (w_writer w).
  - assert (Hold : forall n, n ∈ lo ++ (w_on w, q) :: hi -> r_write_wanted n.2 = true ->
      r_type n.2 = RL_WRITER \/ exists w', w' ∈ waiting s ++ [w] /\ w_on w' = n.1 /\ w_writer w' = true).
    { intros n Hn Hwn. destruct (Hwhy n Hn Hwn) as [? | (w' & Hw' & ?)]; [by left |]. right. exists w'. split; [apply elem_of_app; by left | done]. }
    intros n [-> | Hin]%elem_mid Hwr; [| apply Hold; [apply elem_mid; by right | done]].
    destruct (mark_same w q) as (_ & _ & _ & M4 & _). simpl in *. rewrite M4. unfold mark in Hwr. destruct (w_writer w) eqn:E.
    + right. exists w. split; [apply elem_of_app; right; by left | done].
    + apply (Hold (w_on w, q)); [apply elem_mid; by left | done].
Qed.

(** The structure of a node is the only one at its address. *)
Lemma core_same s lo i q hi Dh F q' : core s (lo ++ (i, q) :: hi) Dh F -> (i, q') ∈ lo ++ hi -> False.
Proof.
  intros Hc Hin. destruct (core_remove _ _ _ _ _ _ _ Hc) as (s' & _ & Hc' & _). apply (core_fresh_node _ _ _ _ _ _ Hc').
  by apply (list_elem_of_fmap_2 fst _ (i, q')).
Qed.

Lemma wait_inv s s0 H N Dh P s' w r : inv_at s H N Dh P -> rest s0 = rest s -> waits_on s0 N Dh ((w_new w, r) :: P) s' w ->
  pending w r -> (w_writer w = true \/ exists q, (w_on w, q) ∈ N /\ blocking q) ->
  exists N', core s' N' Dh ((w_new w, r) :: P) /\ inv_at s' H N' Dh ((w_new w, r) :: P).
Proof.
  intros [Hg Hf Hw Hz Hh Hr Hn Hi Hp] R (lo & q & hi & -> & Hc & R') Hpend Hbl. exists (lo ++ (w_on w, mark w q) :: hi). split; [done |].
  assert (Ew : waiting s' = waiting s ++ [w] /\ woken s' = woken s /\ zr_size s' = zr_size s).
  { unfold rest in R, R'. simpl in R'. injection R as E1 E2 E3 E4 E5. injection R' as F1 F2 F3 F4 F5. split_and!; congruence. }
  destruct Ew as (Ew & Ek & Ez). destruct (mark_same w q) as (M1 & M2 & M3 & M4 & M5). split; try done.
  - by eapply good_flags.
  - apply mark_flags; [done |]. destruct Hbl as [? | (q' & [[= ->] | Hin]%elem_mid & Hbl)]; [by left | by right |].
    destruct (core_same _ _ _ _ _ _ _ _ Hc Hin).
  - by eapply mark_waits.
  - unfold size_ok. by rewrite Ez.
  - rewrite Hh. unfold handles. rewrite !bind_app. simpl. unfold own at 2 5, off, stop. simpl. by rewrite M1, M2, M4, M5.
  - rewrite Ew, Ek, fmap_cons, Hi, !fmap_app. simpl. solve_Permutation.
  - rewrite Ew, Ek. intros w'. rewrite <- app_assoc. intros [-> | Hin']%elem_mid; [exists r; split; [by left | done] |].
    destruct (Hp w' Hin') as (p & Hp1 & Hp2). exists p. split; [by right | done].
Qed.

(** ** The locks held and the nodes *)
Definition overlaps (a b : Z) (h : held_t) : Prop := lo_of h < b /\ a < hi_of h.

(** The node that contains an offset of a lock held, and its type. *)
Lemma held_node s H N Dh P h x : inv_at s H N Dh P -> h ∈ H -> lo_of h <= x < hi_of h ->
  exists n, n ∈ N /\ off n <= x < stop n /\ r_type n.2 = ty_of h /\
    (r_proxy n.2 = false -> n.1 = h.1 /\ off n = lo_of h /\ stop n = hi_of h).
Proof.
  intros [(Ho & Hn & Hd) _ _ _ Hh _ _ _ _] Hin Hx. rewrite Hh in Hin. destruct h as (i, t).
  apply handles_inv in Hin as [(r & Hr & Hp & Et) | ((a, b) & Hab & Et)]; simpl in *; subst t; unfold lo_of, hi_of, ty_of in *; simpl in *.
  - exists (i, r). split; [done |]. unfold off, stop. simpl. done.
  - assert (Hdm : (a, b) ∈ Dh.*2) by by apply (list_elem_of_fmap_2 snd _ (i, (a, b))). destruct (Hd _ Hdm) as (_ & Hap & Hcov).
    destruct (Hcov x Hx) as (n & Hnn & Hnx). exists n. split; [done |]. split; [done |]. specialize (Hap n Hnn ltac:(simpl; lia)). simpl in Hap.
    specialize (Hn n Hnn). unfold node_ok in Hn. destruct (r_proxy n.2); [split; [apply Hn | done] |].
    destruct Hn as (_ & _ & H0). destruct (proj2 (cnt_at_0 _ _) H0 (a, b) Hdm). simpl. lia.
Qed.

Lemma node_held s H N Dh P n : inv_at s H N Dh P -> n ∈ N -> exists h, h ∈ H /\ lo_of h <= off n /\ stop n <= hi_of h /\ r_type n.2 = ty_of h.
Proof.
  intros [(Ho & Hn & Hd) _ _ _ Hh _ _ _ _] Hin. pose proof (ordered_span _ _ Ho Hin) as Hs. unfold span_ok in Hs. specialize (Hn n Hin) as Hok. unfold node_ok in Hok.
  destruct n as (i, r). simpl in Hok. destruct (r_proxy r) eqn:Ep.
  - destruct Hok as (Ht & Hc & Hpos). destruct (cnt_at_pos Dh.*2 (off (i, r)) ltac:(lia)) as (d & Hdm & Hdx). destruct (Hd d Hdm) as (_ & Hap & _).
    specialize (Hap (i, r) Hin ltac:(lia)). apply list_elem_of_fmap in Hdm as ((j, d') & -> & Hj). simpl in *.
    exists (j, (d', RL_READER)). rewrite Hh. split; [by apply handles_out |]. unfold lo_of, hi_of, ty_of. simpl. split; [lia |]. split; [lia | done].
  - exists (i, (r_off r, r_off r + r_len r, r_type r)). rewrite Hh. split; [by apply handles_own |]. unfold lo_of, hi_of, ty_of, off, stop. simpl. split_and!; (done || lia).
Qed.

Lemma crossing_held s H N Dh P n a b : inv_at s H N Dh P -> n ∈ N -> crosses a b n ->
  exists h, h ∈ H /\ overlaps a b h /\ ty_of h = r_type n.2.
Proof.
  intros Hv Hin (H1 & H2). destruct (node_held _ _ _ _ _ _ Hv Hin) as (h & Hh & Ha & Hb & Ht). exists h. split; [done |]. split; [split; lia | done].
Qed.

Lemma overlap_node s H N Dh P h a b : inv_at s H N Dh P -> h ∈ H -> overlaps a b h -> a < b ->
  exists n, n ∈ N /\ crosses a b n /\ r_type n.2 = ty_of h.
Proof.
  intros Hv Hin (H1 & H2) Hab. destruct (v_ranges _ _ _ _ _ Hv h Hin) as (Hr & _).
  destruct (held_node _ _ _ _ _ h (Z.max a (lo_of h)) Hv Hin ltac:(lia)) as (n & Hn & Hx & Ht & _). exists n. split; [done |]. split; [split; lia | done].
Qed.

(** ** One attempt *)
(** The range a request is for: a writer may get the whole file instead. *)
Definition asked s (o l : Z) (ty : rl_type_t) (a b : Z) : Prop :=
  match ty with
  | RL_READER => a = o /\ b = o + l
  | _ => (a = start_of s o ty /\ b = a + l) \/ (is_Some (zr_size s) /\ a = 0 /\ b = UINT64_MAX)
  end.

(** Readers get [RL_READER], writers [RL_WRITER]. *)
Definition granted_type (ty : rl_type_t) : rl_type_t := match ty with RL_READER => RL_READER | _ => RL_WRITER end.

Definition compatible (ty : rl_type_t) (a b : Z) H : Prop :=
  forall h, h ∈ H -> overlaps a b h -> granted_type ty = RL_READER /\ ty_of h = RL_READER.

(** Why a request waits: a lock held overlaps it and, if it is for readers, a
    writer holds that lock or some writer waits already. *)
Definition blocked s (ty : rl_type_t) (a b : Z) H : Prop :=
  exists h, h ∈ H /\ overlaps a b h /\
    (ty = RL_READER -> ty_of h = RL_WRITER \/ exists w, w ∈ waiting s /\ w_writer w = true).

(** A reader does not overtake a writer that waits for a lock in its range. *)
Definition fair s (ty : rl_type_t) (a b : Z) : Prop :=
  ty = RL_READER -> forall w r, w ∈ waiting s -> w_writer w = true -> rls s !! w_on w = Some r -> b <= r_off r \/ r_off r + r_len r <= a.

Lemma sharable_fair s N Dh F a b : core s N Dh F -> waits_ok s N -> sharable N a b -> fair s RL_READER a b.
Proof.
  intros [_ _ Hst] (Hw & _) Hsh _ w r Hin Hwr Er. destruct (Hw w Hin) as (q & Hq & Hwq).
  assert (q = r) as -> by (pose proof (store_lookup _ _ (w_on w) q Hst ltac:(apply elem_of_app; by left)); congruence).
  unfold wanted in Hwq. rewrite Hwr in Hwq. destruct (decide (r_off r < b /\ a < r_off r + r_len r)) as [(H1 & H2) | ?]; [| lia].
  destruct (Hsh (w_on w, r) Hq H1 H2) as (_ & Hu & _). simpl in Hu. congruence.
Qed.

Definition outcome s H new (o l : Z) (ty : rl_type_t) s' (got : bool) : Prop :=
  exists a b, asked s o l ty a b /\
    if got then compatible ty a b H /\ fair s ty a b /\ inv s' ((new, (a, b, granted_type ty)) :: H)
    else blocked s ty a b H /\ inv s' H /\ exists w, w_new w = new /\ waiting s' = waiting s ++ [w] /\ woken s' = woken s.

Lemma waits_queue s0 s N Dh F s' w : rest s0 = rest s -> waits_on s0 N Dh F s' w -> waiting s' = waiting s ++ [w] /\ woken s' = woken s.
Proof.
  intros R (_ & _ & _ & _ & _ & R'). unfold rest in R, R'. simpl in R'. injection R as E1 E2 E3 E4 E5. injection R' as F1 F2 F3 F4 F5.
  split; congruence.
Qed.

Lemma reader_outcome s H N Dh P F s0 new o l : core s N Dh F -> inv_at s H N Dh P -> rest s0 = rest s -> core s0 N Dh ((new, wreq o l RL_READER) :: P) ->
  ask_ok o l RL_READER -> Z.of_nat (length H) + 1 < 2 ^ 32 ->
  exists s' got, zfs_range_lock_reader s0 new = Ok (s', got) /\ outcome s H new o l RL_READER s' got.
Proof.
  intros Hcs Hv R Hc (H0 & Hl & Hu & _) Hlen. assert (Er : wreq o l RL_READER = request o (o + l)) by (unfold wreq, request; f_equal; lia). rewrite Er in Hc.
  pose proof (Permutation_length (v_held _ _ _ _ _ Hv)) as Eh.
  destruct (lock_reader_spec s0 N Dh P new o (o + l) Hc (v_good _ _ _ _ _ Hv) (v_flags _ _ _ _ _ Hv) ltac:(lia) Hu ltac:(lia)) as (s' & got & E & Hres).
  exists s', got. split; [done |]. exists o, (o + l). split; [done |]. destruct got.
  - destruct Hres as (Hsh & N' & Dh' & Hc' & Hg' & Hgr). split; [| split].
    + intros h Hh Hov. split; [done |]. destruct (overlap_node _ _ _ _ _ _ _ _ Hv Hh Hov ltac:(lia)) as (n & Hn & (Hx1 & Hx2) & Ht).
      rewrite <- Ht. by apply (Hsh n).
    + by apply (sharable_fair s N Dh F o (o + l) Hcs (v_waits _ _ _ _ _ Hv)).
    + exists N', Dh', P. split; [done |]. by apply (got_inv s s0 H N Dh P s'); [| | | | unfold lo_of, hi_of; simpl; lia | |].
  - destruct Hres as (i & r & Hin & Hx & Hbl & Hw). split; [| split].
    + destruct (crossing_held _ _ _ _ _ _ _ _ Hv Hin Hx) as (h & Hh & Hov & Ht). exists h. split; [done |]. split; [done |]. intros _. rewrite Ht.
      destruct Hbl as [? | Hbl]; [by left |]. destruct (proj2 (v_waits _ _ _ _ _ Hv) (i, r) Hin Hbl) as [? | (w & ? & _ & ?)]; [by left | right; eauto].
    + destruct (wait_inv s s0 H N Dh P s' (MkWaiter new i false o (o + l - o)) (request o (o + l)) Hv R Hw) as (N' & Hc' & Hv').
      * unfold pending. simpl. replace (o + l - o) with l by lia. split; [done |]. split; [done |]. done.
      * right. exists r. done.
      * by exists N', Dh, ((new, request o (o + l)) :: P).
    + eexists. split; [| by eapply waits_queue]. done.
Qed.

Lemma writer_outcome s H N Dh P s0 new o l ty : inv_at s H N Dh P -> rest s0 = rest s -> core s0 N Dh ((new, wreq o l ty) :: P) ->
  ty <> RL_READER -> ask_ok o l ty -> Z.of_nat (length H) + 1 < 2 ^ 32 ->
  exists s' got, zfs_range_lock_writer s0 new o l = Ok (s', got) /\ outcome s H new o l ty s' got.
Proof.
  intros Hv R Hc Hty Hask Hlen. pose proof (rest_size _ _ R (v_size _ _ _ _ _ Hv)) as Hz.
  destruct (lock_writer_spec s0 N Dh P new o l ty Hc (v_good _ _ _ _ _ Hv) Hz Hask) as (o' & l' & s' & got & E & H0 & Hl & Hu & Hr & Hres).
  exists s', got. split; [done |]. exists o', (o' + l'). assert (Ez : zr_size s0 = zr_size s) by (unfold rest in R; by injection R). split.
  { assert ((o' = start_of s o ty /\ o' + l' = o' + l) \/ (is_Some (zr_size s) /\ o' = 0 /\ o' + l' = UINT64_MAX)) as Ha; [| by destruct ty].
    unfold start_of in *. rewrite Ez in Hr. destruct Hr as [(? & ->) | (? & -> & ->)]; [left | right]; auto. }
  assert (Egt : granted_type ty = RL_WRITER) by by destruct ty. destruct got.
  - destruct Hres as (Hex & N' & Hc' & Hg' & Hgr). split; [| split; [by destruct ty |]].
    + intros h Hh Hov. destruct (overlap_node _ _ _ _ _ _ _ _ Hv Hh Hov ltac:(lia)) as (n & Hn & Hx & _). by destruct (Hex n Hn).
    + rewrite Egt. exists N', Dh, P. split; [done |]. by apply (got_inv s s0 H N Dh P s'); [| | | | unfold lo_of, hi_of; simpl; lia | |].
  - destruct Hres as (i & r & Hin & Hx & Hw). split; [| split].
    + destruct (crossing_held _ _ _ _ _ _ _ _ Hv Hin Hx) as (h & Hh & Hov & _). exists h. done.
    + destruct (wait_inv s s0 H N Dh P s' (MkWaiter new i true o l) (wreq o' l' ty) Hv R Hw) as (N' & Hc' & Hv').
      * unfold pending. simpl. eauto 10.
      * by left.
      * by exists N', Dh, ((new, wreq o' l' ty) :: P).
    + eexists. split; [| by eapply waits_queue]. done.
Qed.

(** ** The calls *)
Lemma clip_spec o l : 0 <= o < UINT64_MAX -> 0 < l < W64 ->
  (if u64_add l o <? o then u64_sub UINT64_MAX o else l) = Z.min l (UINT64_MAX - o).
Proof.
  intros Ho Hl. unfold u64_add, u64, UINT64_MAX in *. destruct (decide (l + o < W64)) as [Hs | Hs].
  - rewrite Z.mod_small by lia. rewrite (proj2 (Z.ltb_ge _ _)); lia.
  - replace ((l + o) mod W64) with (l + o - W64) by (apply (Z.mod_unique _ _ 1); lia). rewrite (proj2 (Z.ltb_lt _ _)) by lia.
    rewrite u64_sub_small; [lia |]. unfold is_u64. lia.
Qed.

Lemma lock_outcome s H o l ty : inv s H -> 0 <= o < UINT64_MAX -> 0 < l < W64 -> (ty = RL_APPEND -> l <= 2 ^ 63) ->
  Z.of_nat (length H) + 1 < 2 ^ 32 ->
  exists s' new got, zfs_range_lock s o l ty = Ok (s', new, got) /\ outcome s H new o (Z.min l (UINT64_MAX - o)) ty s' got.
Proof.
  intros (N & Dh & P & Hc & Hv) Ho Hl Hap Hlen. unfold zfs_range_lock. rewrite clip_spec by done. set (l' := Z.min l (UINT64_MAX - o)).
  assert (Hask : ask_ok o l' ty) by (unfold ask_ok, l'; split_and!; try lia; intros Et; specialize (Hap Et); lia).
  destruct (core_alloc s _ _ _ (wreq o l' ty) Hc) as (Hc0 & R0). unfold wreq in Hc0, R0. destruct (alloc s _) as (s0, new). simpl in Hc0, R0. fold (wreq o l' ty) in Hc0.
  case_bool_decide as Et.
  - subst ty. rewrite (core_numnodes _ _ _ _ Hc0). destruct (Z.eqb_spec (Z.of_nat (length N)) 0) as [E0 | Hne].
    + assert (N = []) as -> by (apply nil_length_inv; lia).
      destruct (core_add s0 [] [] Dh new _ P Hc0 ltac:(set_solver) ltac:(set_solver) ltac:(simpl; unfold W64; lia)) as (s1 & -> & Hc1 & R1). simpl.
      exists s1, new, true. split; [done |]. destruct Hask as (H0 & H1 & H2 & _). exists o, (o + l'). split; [done |]. split; [| split].
      * intros h Hh Hov. destruct (overlap_node _ _ _ _ _ _ _ _ Hv Hh Hov ltac:(lia)) as (n & Hn & _). by apply elem_of_nil in Hn.
      * by apply (sharable_fair s [] Dh P o (o + l') Hc (v_waits _ _ _ _ _ Hv)); intros n Hn%elem_of_nil.
      * exists [(new, wreq o l' RL_READER)], Dh, P. split; [done |].
        apply (got_inv s s0 H [] Dh P s1); [done | done | | | unfold lo_of, hi_of; simpl; lia | done | done].
        -- split; [congruence | set_solver | intros n ->%list_elem_of_singleton; by right |]. unfold handles, own, off, stop. done.
        -- apply (good_insert [] []); unfold span_ok, off, stop; simpl; try done; [apply (v_good _ _ _ _ _ Hv) | lia | set_solver | set_solver | by left].
    + destruct (reader_outcome s H N Dh P P s0 new o l' Hc Hv R0 Hc0 Hask Hlen) as (s' & got & -> & Hout). simpl. eauto 10.
  - destruct (writer_outcome s H N Dh P s0 new o l' ty Hv R0 Hc0 Et Hask Hlen) as (s' & got & -> & Hout). simpl. eauto 10.
Qed.

(** A thread that was woken, with its structure. *)
Lemma take_woken s H l1 w l2 : inv s H -> woken s = l1 ++ w :: l2 ->
  exists N Dh P r, core (set_queues s (waiting s) (l1 ++ l2)) N Dh ((w_new w, r) :: P) /\ pending w r /\
    inv_at (set_queues s (waiting s) (l1 ++ l2)) H N Dh P.
Proof.
  intros (N & Dh & P & Hc & [Hg Hf Hw Hz Hh Hr Hn Hi Hp]) Ek. rewrite Ek in Hi, Hp.
  destruct (Hp w ltac:(set_solver)) as (r & Hin & Hpend). apply elem_of_Permutation in Hin as (P0 & EP).
  exists N, Dh, P0, r. split; [apply core_queues; by eapply core_F |]. split; [done |].
  assert (Hids : P0.*1 ≡ₚ w_new <$> (waiting s ++ l1 ++ l2)).
  { apply (Permutation_cons_inv (a := w_new w)). rewrite EP in Hi. simpl in Hi. etransitivity; [exact Hi |]. rewrite !fmap_app, fmap_cons. solve_Permutation. }
  split; try done. intros w' Hin. simpl in Hin. destruct (Hp w') as (q & Hq & Hpq); [set_solver |]. exists q. split; [| done].
  rewrite EP in Hq. apply elem_of_cons in Hq as [[= E _] | Hq]; [| done].
  pose proof (core_NoDup _ _ _ _ (core_F _ _ _ _ _ EP Hc)) as Hnd. apply NoDup_app in Hnd as (_ & _ & Hnd). apply NoDup_app in Hnd as (_ & _ & Hnd).
  rewrite fmap_cons in Hnd. apply NoDup_cons in Hnd as (Hno & _). destruct Hno. simpl. rewrite Hids, <- E. by apply list_elem_of_fmap_2.
Qed.

Lemma resume_outcome s H l1 w l2 : inv s H -> woken s = l1 ++ w :: l2 -> Z.of_nat (length H) + 1 < 2 ^ 32 ->
  exists s' got ty, resume (set_queues s (waiting s) (l1 ++ l2)) w = Ok (s', got) /\ (w_writer w = false <-> ty = RL_READER) /\
    outcome (set_queues s (waiting s) (l1 ++ l2)) H (w_new w) (w_off w) (w_len w) ty s' got.
Proof.
  intros Hi Ek Hlen. destruct (take_woken _ _ _ _ _ Hi Ek) as (N & Dh & P & r & Hc & Hpend & Hv). set (s0 := set_queues s (waiting s) (l1 ++ l2)) in *.
  unfold resume, pending in *. destruct (w_writer w).
  - destruct Hpend as (o & l & ty & -> & Hty & Hask). destruct (core_upd_frame _ _ _ _ _ _ (with_range (w_off w) (w_len w)) Hc) as (s1 & -> & Hc1 & R1).
    simpl. destruct (writer_outcome s0 H N Dh P s1 (w_new w) (w_off w) (w_len w) ty Hv R1 Hc1 Hty Hask Hlen) as (s' & got & -> & Hout).
    exists s', got, ty. done.
  - destruct Hpend as (-> & Hask). destruct (reader_outcome s0 H N Dh P _ s0 (w_new w) (w_off w) (w_len w) Hc Hv eq_refl Hc Hask Hlen) as (s' & got & -> & Hout).
    exists s', got, RL_READER. done.
Qed.

(** ** The beginning *)
Lemma init_inv size blksz max : match size with Some z => 0 <= z < 2 ^ 63 | None => True end ->
  inv (MkZrl t_create size blksz max ∅ [] []) [].
Proof.
  intros Hz. destruct law_create as (Hwf & He). exists [], [], []. split; [split; [done | done | unfold store; simpl; by rewrite map_to_list_empty] |].
  split; try done; try set_solver; (split; [try apply ordered_nil |]; set_solver).
Qed.

(** The file may change at any time. *)
Lemma file_inv s H size blksz max : inv s H -> match size with Some z => 0 <= z < 2 ^ 63 | None => True end ->
  inv (MkZrl (zr_avl s) size blksz max (rls s) (waiting s) (woken s)) H.
Proof. intros (N & Dh & P & [C1 C2 C3] & [Hg Hf Hw Hz Hh Hr Hn Hi Hp]) Hsz. exists N, Dh, P. split; by split. Qed.

(** ** What the invariant says *)
Lemma held_struct s H h : inv s H -> h ∈ H -> exists r, rls s !! h.1 = Some r /\ h.2 = (r_off r, r_off r + r_len r, r_type r) /\ r_proxy r = false.
Proof.
  intros (N & Dh & P & [_ _ Hst] & Hv) Hin. rewrite (v_held _ _ _ _ _ Hv) in Hin. destruct h as (i, t).
  apply handles_inv in Hin as [(r & Hr & Hp & Et) | ((a, b) & Hab & Et)]; simpl in *; subst t.
  - exists r. split; [| done]. apply (store_lookup _ _ i r Hst). set_solver.
  - exists (det (i, (a, b))).2. split; [| unfold det; simpl; split; [do 2 f_equal; lia | done]].
    apply (store_lookup _ _ i _ Hst). apply elem_of_app. right. apply elem_of_app. left. by apply (list_elem_of_fmap_2 det _ (i, (a, b))).
Qed.

Lemma held_NoDup s H : inv s H -> NoDup H.*1.
Proof.
  intros (N & Dh & P & Hc & Hv). apply core_NoDup in Hc. rewrite (v_held _ _ _ _ _ Hv). unfold handles. rewrite fmap_app, <- list_fmap_compose.
  rewrite app_assoc in Hc. apply NoDup_app in Hc as (Hc & _ & _). apply NoDup_app in Hc as (H1 & H2 & H3).
  assert (Hown : forall M : list node, forall i, i ∈ (M ≫= own).*1 -> i ∈ M.*1).
  { intros M i (h & -> & Hh)%list_elem_of_fmap. apply list_elem_of_bind in Hh as (n & Hn & HnM). unfold own in Hn.
    destruct (r_proxy n.2); [by apply elem_of_nil in Hn |]. apply list_elem_of_singleton in Hn as ->. by apply (list_elem_of_fmap_2 fst M n). }
  apply NoDup_app. split; [| split; [intros i Hi; apply H2; by apply Hown | done]].
  clear Hv H2. induction N as [| n N IH]; [constructor |]. rewrite fmap_cons in H1. apply NoDup_cons in H1 as (Hn & H1). rewrite bind_cons, fmap_app.
  unfold own at 1. destruct (r_proxy n.2); [by apply IH |]. simpl. apply NoDup_cons. split; [| by apply IH]. intros Hi. by apply Hn, Hown.
Qed.

Lemma held_exclusive s H h1 h2 : inv s H -> h1 ∈ H -> h2 ∈ H -> h1.1 <> h2.1 -> overlaps (lo_of h1) (hi_of h1) h2 ->
  ty_of h1 = RL_READER /\ ty_of h2 = RL_READER.
Proof.
  intros (N & Dh & P & Hc & Hv) H1 H2 Hne (Ha & Hb). pose proof (v_good _ _ _ _ _ Hv) as (Ho & Hn & _).
  pose proof (proj1 (v_ranges _ _ _ _ _ Hv h1 H1)). pose proof (proj1 (v_ranges _ _ _ _ _ Hv h2 H2)).
  set (x := Z.max (lo_of h1) (lo_of h2)). destruct (held_node _ _ _ _ _ h1 x Hv H1 ltac:(lia)) as (n & Hn1 & Hx1 & Ht1 & Hp1).
  destruct (held_node _ _ _ _ _ h2 x Hv H2 ltac:(lia)) as (m & Hn2 & Hx2 & Ht2 & Hp2).
  assert (m = n) as -> by by apply (ordered_same N _ _ x Ho). specialize (Hn n Hn1). unfold node_ok in Hn. rewrite <- Ht1, <- Ht2.
  destruct (r_proxy n.2); [by destruct Hn as (-> & _) |]. destruct (Hp1 eq_refl) as (E1 & _). destruct (Hp2 eq_refl) as (E2 & _). congruence.
Qed.

(** With no lock held, nobody waits and only the structures of woken threads
    are left. *)
Lemma none_held s : inv s [] -> t_elems (zr_avl s) = [] /\ zfs_rlock_destroy s = Ok tt /\ waiting s = [] /\ forall i, is_Some (rls s !! i) <-> i ∈ w_new <$> woken s.
Proof.
  intros (N & Dh & P & Hc & Hv). pose proof (v_held _ _ _ _ _ Hv) as Hh. apply Permutation_nil_l in Hh. symmetry in Hh. apply app_nil in Hh as (Hn & Hd).
  apply fmap_nil_inv in Hd as ->. assert (N = []) as ->.
  { destruct N as [| n N]; [done |]. destruct (node_held _ _ _ _ _ n Hv ltac:(by left)) as (h & Hin & _). by apply elem_of_nil in Hin. }
  assert (Hw : waiting s = []).
  { destruct (waiting s) as [| w l] eqn:E; [done |]. destruct (proj1 (v_waits _ _ _ _ _ Hv) w) as (r & Hr & _); [rewrite E; by left |]. by apply elem_of_nil in Hr. }
  pose proof (c_elems _ _ _ _ Hc) as He. split; [done |]. split.
  { unfold zfs_rlock_destroy. pose proof (c_wf _ _ _ _ Hc) as Ht. by rewrite law_numnodes, law_first, He by done. }
  split; [done |]. intros i. pose proof (v_ids _ _ _ _ _ Hv) as Hi. rewrite Hw in Hi. simpl in Hi. rewrite <- Hi.
  destruct Hc as [_ _ Hst]. simpl in Hst. split.
  - intros (r & Er). apply (store_elem _ _ _ _ Hst) in Er. by apply (list_elem_of_fmap_2 fst _ (i, r)).
  - intros ((j, r) & -> & Hin)%list_elem_of_fmap. exists r. by apply (store_lookup _ _ _ _ Hst).
Qed.
End inv.
