(* ===== verification/RlockThms.v ===== *)
(** * What the range locks promise

    A range lock as a transition system: calls of the interface by any number
    of threads, threads that were woken and run on, and changes of the file's
    size and block size, in any order. The second component of a state is the
    table of locks granted and not yet released, as the callers see it. *)
From S2P Require Import Prelude Avl AvlSpec OrdTree Rlock RlockSpec RlockOps RlockRead RlockLock RlockUnlock RlockInv.
Local Open Scope Z_scope.

Section thms.
Context {T : Type} `{!AvlOps rlp T} `{!AvlLaws rlp T}.
Implicit Types (s : zfs_rlock T) (H : list held_t).

(** A call the rest of the system may make: fewer than [2 ^ 32] locks, a range
    that is not empty, and appends that stay within 64 bits. *)
Definition may_lock H (off len : Z) (ty : rl_type_t) : Prop :=
  0 <= off < UINT64_MAX /\ 0 < len < W64 /\ (ty = RL_APPEND -> len <= 2 ^ 63) /\ Z.of_nat (length H) + 1 < 2 ^ 32.

(** The entry of a structure in the table. *)
Definition entry (s : zfs_rlock T) (i : rlp) (h : held_t) : Prop :=
  exists r, rls s !! i = Some r /\ h = (i, (r_off r, r_off r + r_len r, r_type r)).

Inductive rl_step : zfs_rlock T * list held_t -> zfs_rlock T * list held_t -> Prop :=
  | step_lock s H off len ty s' new h : may_lock H off len ty ->
      zfs_range_lock s off len ty = Ok (s', new, true) -> entry s' new h -> rl_step (s, H) (s', h :: H)
  | step_lock_wait s H off len ty s' new : may_lock H off len ty ->
      zfs_range_lock s off len ty = Ok (s', new, false) -> rl_step (s, H) (s', H)
  | step_resume s H l1 w l2 s' h : Z.of_nat (length H) + 1 < 2 ^ 32 -> woken s = l1 ++ w :: l2 ->
      resume (set_queues s (waiting s) (l1 ++ l2)) w = Ok (s', true) -> entry s' (w_new w) h -> rl_step (s, H) (s', h :: H)
  | step_resume_wait s H l1 w l2 s' : Z.of_nat (length H) + 1 < 2 ^ 32 -> woken s = l1 ++ w :: l2 ->
      resume (set_queues s (waiting s) (l1 ++ l2)) w = Ok (s', false) -> rl_step (s, H) (s', H)
  | step_unlock s H h H' s' : H ≡ₚ h :: H' -> zfs_range_unlock s h.1 = Ok s' -> rl_step (s, H) (s', H')
  | step_reduce s H i H' off len s' : H ≡ₚ (i, (0, UINT64_MAX, RL_WRITER)) :: H' -> 0 <= off -> 0 < len -> off + len <= UINT64_MAX ->
      zfs_range_reduce s i off len = Ok s' -> rl_step (s, H) (s', (i, (off, off + len, RL_WRITER)) :: H')
  | step_file s H size blksz max : match size with Some z => 0 <= z < 2 ^ 63 | None => True end ->
      rl_step (s, H) (MkZrl (zr_avl s) size blksz max (rls s) (waiting s) (woken s), H).

Definition rl_reachable s H : Prop := rtc rl_step (zfs_rlock_init, []) (s, H).

(** Runs of calls, to reach states by computation. *)
Inductive rl_act := ALock (off len : Z) (ty : rl_type_t) | AUnlock (n : nat) | AResume | AFile (size : option Z) (blksz max : Z).

#[local] Instance may_lock_dec H off len ty : Decision (may_lock H off len ty).
Proof. unfold may_lock. apply _. Defined.

Definition add_entry s (i : rlp) H : option (zfs_rlock T * list held_t) :=
  r ← rls s !! i ; Some (s, (i, (r_off r, r_off r + r_len r, r_type r)) :: H).

Definition rl_exec (x : zfs_rlock T * list held_t) (a : rl_act) : option (zfs_rlock T * list held_t) :=
  let (s, H) := x in
  match a with
  | ALock off len ty =>
      if bool_decide (may_lock H off len ty) then
        match zfs_range_lock s off len ty with
        | Ok (s', new, true) => add_entry s' new H
        | Ok (s', _, false) => Some (s', H)
        | Panic => None
        end
      else None
  | AUnlock n =>
      h ← H !! n ; match zfs_range_unlock s h.1 with Ok s' => Some (s', delete n H) | Panic => None end
  | AResume =>
      match woken s with
      | w :: l =>
          if bool_decide (Z.of_nat (length H) + 1 < 2 ^ 32) then
            match resume (set_queues s (waiting s) l) w with
            | Ok (s', true) => add_entry s' (w_new w) H
            | Ok (s', false) => Some (s', H)
            | Panic => None
            end
          else None
      | [] => None
      end
  | AFile size blksz max =>
      if match size with Some z => (0 <=? z) && (z <? 2 ^ 63) | None => true end
      then Some (MkZrl (zr_avl s) size blksz max (rls s) (waiting s) (woken s), H) else None
  end.

Lemma add_entry_spec s i H y : add_entry s i H = Some y -> exists h, y = (s, h :: H) /\ entry s i h.
Proof.
  unfold add_entry. destruct (rls s !! i) as [r |] eqn:E; simpl; [| done]. intros [= <-]. eexists. split; [done |]. by exists r.
Qed.

Lemma rl_exec_step x a y : rl_exec x a = Some y -> rl_step x y.
Proof.
  destruct x as (s, H), a as [off len ty | n | | size blksz max]; simpl.
  - case_bool_decide as Hm; [| done]. destruct (zfs_range_lock s off len ty) as [((s', new), [|]) |] eqn:E; [| | done].
    + intros (h & -> & Hh)%add_entry_spec. by eapply step_lock.
    + intros [= <-]. by eapply step_lock_wait.
  - destruct (H !! n) as [h |] eqn:En; simpl; [| done]. destruct (zfs_range_unlock s h.1) as [s' |] eqn:E; [| done]. intros [= <-].
    eapply step_unlock; [by apply delete_Permutation | done].
  - destruct (woken s) as [| w l] eqn:Ek; [done |]. case_bool_decide as Hl; [| done].
    destruct (resume _ w) as [(s', [|]) |] eqn:E; [| | done].
    + intros (h & -> & Hh)%add_entry_spec. by apply (step_resume s H [] w l s' h).
    + intros [= <-]. by apply (step_resume_wait s H [] w l s').
  - destruct (match size with Some z => _ | None => _ end) eqn:E; [| done]. intros [= <-]. apply step_file. destruct size as [z |]; [lia | done].
Qed.

Fixpoint rl_run (x : zfs_rlock T * list held_t) (l : list rl_act) : option (zfs_rlock T * list held_t) :=
  match l with [] => Some x | a :: l => y ← rl_exec x a ; rl_run y l end.

Lemma rl_run_reachable l s H : rl_run (zfs_rlock_init, []) l = Some (s, H) -> rl_reachable s H.
Proof.
  unfold rl_reachable. generalize (@zfs_rlock_init T _, @nil held_t). induction l as [| a l IH]; intros x; simpl; [by intros [= ->] |].
  destruct (rl_exec x a) as [y |] eqn:E; simpl; [| done]. intros Hy. eapply rtc_l; [by eapply rl_exec_step | by apply IH].
Qed.

(** ** Reachable states *)
Lemma entry_unique s i h h' : entry s i h -> entry s i h' -> h = h'.
Proof. intros (r & Er & ->) (r' & Er' & ->). congruence. Qed.

Lemma held_entry s H h : inv s H -> h ∈ H -> entry s h.1 h.
Proof. intros Hi Hin. destruct (held_struct _ _ _ Hi Hin) as (r & Er & Eh & _). exists r. split; [done |]. destruct h. simpl in *. by subst. Qed.

(** Granted, the table has the new entry. *)
Lemma outcome_got s H new o l ty s' h : outcome s H new o l ty s' true -> entry s' new h -> inv s' (h :: H).
Proof.
  intros (a & b & _ & _ & _ & Hi) He. pose proof (held_entry _ _ _ Hi ltac:(by left)) as He'. simpl in He'.
  by rewrite (entry_unique _ _ _ _ He He').
Qed.

Lemma outcome_wait s H new o l ty s' : outcome s H new o l ty s' false -> inv s' H.
Proof. by intros (a & b & _ & _ & Hi & _). Qed.

(** A lock on the whole file is the only one, and the only node. *)
Lemma whole_table s H i H' : inv s H -> H ≡ₚ (i, (0, UINT64_MAX, RL_WRITER)) :: H' -> H' = [] /\ t_numnodes (zr_avl s) = 1.
Proof.
  intros Hi EH. assert (Hin : (i, (0, UINT64_MAX, RL_WRITER)) ∈ H) by (rewrite EH; by left).
  pose proof (fun h => whole_alone s H i h Hi Hin) as Hal. pose proof (held_NoDup _ _ Hi) as Hnd. split.
  { destruct H' as [| h H']; [done |]. rewrite EH in Hnd. specialize (Hal h ltac:(rewrite EH; right; by left)) as ->.
    apply NoDup_cons in Hnd as (Hno & _). destruct Hno. by left. }
  destruct Hi as (N & Dh & P & Hc & Hv). rewrite (core_numnodes _ _ _ _ Hc).
  assert (Hone : forall n, n ∈ N -> n.1 = i).
  { intros (j, r) Hn. destruct (node_held _ _ _ _ _ _ Hv Hn) as (h & Hh & _ & _ & Ht). rewrite (Hal h Hh) in Ht.
    pose proof (v_good _ _ _ _ _ Hv) as (_ & Hok & _). specialize (Hok _ Hn). unfold node_ok, ty_of in *. simpl in *.
    destruct (r_proxy r) eqn:Ep; [destruct Hok; congruence |]. pose proof (handles_own N Dh j r Hn Ep) as Hj. rewrite <- (v_held _ _ _ _ _ Hv) in Hj.
    specialize (Hal _ Hj). congruence. }
  destruct (held_node _ _ _ _ _ (i, (0, UINT64_MAX, RL_WRITER)) 0 Hv Hin) as (n & Hn & _).
  { unfold lo_of, hi_of, UINT64_MAX, W64. simpl. lia. }
  apply core_NoDup, NoDup_app in Hc as (Hnd' & _). destruct N as [| n1 [| n2 N]]; [by apply elem_of_nil in Hn | done |].
  apply NoDup_cons in Hnd' as (Hno & _). destruct Hno. simpl. rewrite (Hone n1), (Hone n2) by set_solver. by left.
Qed.

Lemma step_inv x y : rl_step x y -> inv x.1 x.2 -> inv y.1 y.2.
Proof.
  intros [s H off len ty s' new h (H1 & H2 & H3 & H4) E He | s H off len ty s' new (H1 & H2 & H3 & H4) E | s H l1 w l2 s' h Hl Ek E He
    | s H l1 w l2 s' Hl Ek E | s H h H' s' EH E | s H i H' off len s' EH H1 H2 H3 E | s H size blksz max Hz] Hi; simpl in *.
  - destruct (lock_outcome _ _ _ _ _ Hi H1 H2 H3 H4) as (? & ? & ? & E' & Hout). rewrite E in E'. injection E' as <- <- <-. by eapply outcome_got.
  - destruct (lock_outcome _ _ _ _ _ Hi H1 H2 H3 H4) as (? & ? & ? & E' & Hout). rewrite E in E'. injection E' as <- <- <-. by eapply outcome_wait.
  - destruct (resume_outcome _ _ _ _ _ Hi Ek Hl) as (? & ? & ? & E' & _ & Hout). rewrite E in E'. injection E' as <- <-. by eapply outcome_got.
  - destruct (resume_outcome _ _ _ _ _ Hi Ek Hl) as (? & ? & ? & E' & _ & Hout). rewrite E in E'. injection E' as <- <-. by eapply outcome_wait.
  - destruct (unlock_inv _ _ _ _ Hi EH) as (? & E' & _ & Hi'). congruence.
  - destruct (whole_table _ _ _ _ Hi EH) as (-> & En).
    destruct (reduce_inv _ _ i off len Hi ltac:(rewrite EH; by left) En H1 H2 H3) as (? & E' & Hi'). congruence.
  - by apply file_inv.
Qed.

Lemma rl_reachable_inv s H : rl_reachable s H -> inv s H.
Proof.
  intros Hr. assert (Hx : forall x y, rtc rl_step x y -> inv x.1 x.2 -> inv y.1 y.2) by (induction 1; eauto using step_inv).
  apply (Hx _ (s, H) Hr). by apply init_inv.
Qed.

Lemma rl_reachable_step s H s' H' : rl_reachable s H -> rl_step (s, H) (s', H') -> rl_reachable s' H'.
Proof. intros Hr Hs. by eapply rtc_r. Qed.

(** Unlocking the locks [hs], one after the other. *)
Fixpoint unlock_all s (hs : list held_t) : result (zfs_rlock T) :=
  match hs with
  | [] => Ok s
  | h :: hs => s ← zfs_range_unlock s h.1 ; unlock_all s hs
  end.

Lemma unlock_all_inv hs : forall s H H', inv s H -> H ≡ₚ hs ++ H' -> exists s', unlock_all s hs = Ok s' /\ quiet s s' /\ inv s' H'.
Proof.
  induction hs as [| h hs IH]; intros s H H' Hi EH.
  - exists s. split; [done |]. split; [apply quiet_refl |]. simpl in EH. destruct Hi as (N & Dh & P & Hc & [Hg Hf Hw Hz Hh Hr Hn Hid Hp]).
    exists N, Dh, P. split; [done |]. split; try done; [by rewrite <- EH | intros h Hin; apply Hr; by rewrite EH | by rewrite <- EH].
  - destruct (unlock_inv _ _ _ _ Hi EH) as (s1 & E1 & Hq1 & Hi1). destruct (IH s1 _ H' Hi1 ltac:(done)) as (s2 & E2 & Hq2 & Hi2).
    exists s2. simpl. rewrite E1. split; [done |]. split; [by eapply quiet_trans | done].
Qed.

(** ** Mutual exclusion *)
(** C6: in every state that any calls by any threads can lead to, the locks
    granted are distinct structures that say what was granted, and two of
    them overlap only if both are reader locks. No call then fails an
    assertion or uses freed memory: a thread that was woken runs on to the
    lock or to another wait, every lock held can be released, and a writer's
    lock on the whole file can be reduced. *)
Theorem rlock_exclusive s H : rl_reachable s H ->
  NoDup H.*1 /\ (forall h, h ∈ H -> entry s h.1 h /\ lo_of h < hi_of h) /\
  (forall h1 h2, h1 ∈ H -> h2 ∈ H -> h1.1 <> h2.1 -> lo_of h1 < hi_of h2 -> lo_of h2 < hi_of h1 ->
     ty_of h1 = RL_READER /\ ty_of h2 = RL_READER) /\
  (forall l1 w l2, woken s = l1 ++ w :: l2 -> Z.of_nat (length H) + 1 < 2 ^ 32 ->
     runs (resume (set_queues s (waiting s) (l1 ++ l2)) w) (fun _ => True)) /\
  (forall h, h ∈ H -> runs (zfs_range_unlock s h.1) (fun _ => True)) /\
  (forall i off len, (i, (0, UINT64_MAX, RL_WRITER)) ∈ H -> 0 <= off -> 0 < len -> off + len <= UINT64_MAX ->
     runs (zfs_range_reduce s i off len) (fun _ => True)).
Proof.
  intros Hr. apply rl_reachable_inv in Hr as Hi. split_and!.
  - by eapply held_NoDup.
  - intros h Hin. split; [by eapply held_entry |]. destruct Hi as (N & Dh & P & _ & Hv). apply (v_ranges _ _ _ _ _ Hv h Hin).
  - intros h1 h2 H1 H2 Hne Ha Hb. by apply (held_exclusive s H).
  - intros l1 w l2 Ek Hl. destruct (resume_outcome _ _ _ _ _ Hi Ek Hl) as (? & ? & ? & -> & _). done.
  - intros h (H' & EH)%elem_of_Permutation. destruct (unlock_inv _ _ _ _ Hi EH) as (? & -> & _). done.
  - intros i off len Hin H1 H2 H3. pose proof Hin as (H' & EH)%elem_of_Permutation. destruct (whole_table _ _ _ _ Hi EH) as (_ & En).
    destruct (reduce_inv _ _ _ _ _ Hi Hin En H1 H2 H3) as (? & -> & _). done.
Qed.

(** ** Requests *)
(** C23: a request returns: either at once with a lock on the range asked for
    (for a writer that has to grow the block size, on the whole file; for an
    append, at the end of the file), which no lock held conflicts with; or it
    waits. A reader does not get past a writer that waits for a lock in its
    range. A request waits only if a lock that is held overlaps the range and,
    when it is for a reader, only because of a writer: one that holds that
    lock or one that waits already. A range that runs past the last offset is
    cut there. *)
Theorem rlock_request s H off len ty : rl_reachable s H -> may_lock H off len ty ->
  exists s' new got a b, zfs_range_lock s off len ty = Ok (s', new, got) /\
    asked s off (Z.min len (UINT64_MAX - off)) ty a b /\
    if (got : bool) then
      rl_reachable s' ((new, (a, b, granted_type ty)) :: H) /\
      (forall h, h ∈ H -> overlaps a b h -> granted_type ty = RL_READER /\ ty_of h = RL_READER) /\
      (ty = RL_READER -> forall w r, w ∈ waiting s -> w_writer w = true -> rls s !! w_on w = Some r -> b <= r_off r \/ r_off r + r_len r <= a)
    else
      rl_reachable s' H /\ (exists w, w_new w = new /\ waiting s' = waiting s ++ [w]) /\
      exists h, h ∈ H /\ overlaps a b h /\
        (ty = RL_READER -> ty_of h = RL_WRITER \/ exists w, w ∈ waiting s /\ w_writer w = true).
Proof.
  intros Hr Hm. pose proof Hm as (H1 & H2 & H3 & H4). apply rl_reachable_inv in Hr as Hi.
  destruct (lock_outcome _ _ _ _ _ Hi H1 H2 H3 H4) as (s' & new & got & E & a & b & Ha & Hres). exists s', new, got, a, b.
  split; [done |]. split; [done |]. destruct got.
  - destruct Hres as (Hcomp & Hfair & Hi'). split; [| done]. eapply rl_reachable_step; [done |]. eapply step_lock; [done | done |].
    apply (held_entry _ _ (new, (a, b, granted_type ty)) Hi'). by left.
  - destruct Hres as (Hbl & _ & w & Ew & Hq & _). split; [| split; [by exists w | done]].
    eapply rl_reachable_step; [done |]. by eapply step_lock_wait.
Qed.

(** ** Release *)
(** C24: no thread waits for ever and no memory is lost: when the locks held
    are released, in any order, every release succeeds, all threads that
    waited are woken, the tree is empty, so that the range lock may be
    destroyed, and the only structures left are those of the threads still to
    run. *)
Theorem rlock_release s H hs : rl_reachable s H -> hs ≡ₚ H ->
  exists s', unlock_all s hs = Ok s' /\ rl_reachable s' [] /\ waiting s' = [] /\ woken s' ≡ₚ waiting s ++ woken s /\
    t_elems (zr_avl s') = [] /\ zfs_rlock_destroy s' = Ok tt /\ forall i, is_Some (rls s' !! i) <-> i ∈ w_new <$> woken s'.
Proof.
  intros Hr EH. apply rl_reachable_inv in Hr as Hi.
  assert (Hreach : forall hs s H s', rl_reachable s H -> H ≡ₚ hs -> unlock_all s hs = Ok s' -> rl_reachable s' []).
  { clear. induction hs as [| h hs IH]; intros s H s' Hr EH E; simpl in E.
    - injection E as <-. apply Permutation_nil_r in EH as ->. done.
    - apply bind_Ok_inv in E as (s1 & E1 & E2). apply (IH s1 hs s'); [| done | done]. eapply rl_reachable_step; [exact Hr |]. by eapply step_unlock. }
  destruct (unlock_all_inv hs s H [] Hi ltac:(by rewrite app_nil_r)) as (s' & E & Hq & Hi').
  destruct (none_held _ Hi') as (Ht & Hd & Hw & Hm). exists s'. split; [done |]. split; [by apply (Hreach hs s H) |]. split; [done |].
  split; [| done]. pose proof (q_threads _ _ Hq) as Hth. by rewrite Hw in Hth.
Qed.
End thms.

(** ** Examples *)
(** Two readers that overlap, a writer elsewhere, a writer that waits for the
    first reader, and a reader that waits for the writer elsewhere. *)
Definition demo : zfs_rlock (avl_tree rlp) * list held_t :=
  default (zfs_rlock_init, []) (rl_run (zfs_rlock_init, [])
    [ALock 0 10 RL_READER; ALock 5 10 RL_READER; ALock 20 10 RL_WRITER; ALock 8 40 RL_WRITER; ALock 18 4 RL_READER]).

Lemma demo_reachable : rl_reachable demo.1 demo.2.
Proof.
  apply (rl_run_reachable [ALock 0 10 RL_READER; ALock 5 10 RL_READER; ALock 20 10 RL_WRITER; ALock 8 40 RL_WRITER; ALock 18 4 RL_READER]).
  rewrite <- surjective_pairing. unfold demo. by destruct (rl_run _ _) eqn:E; [| vm_compute in E].
Qed.

Lemma rlock_exclusive_witness :
  length demo.2 = 3%nat /\ NoDup demo.2.*1 /\ Forall (fun h => runs (zfs_range_unlock demo.1 h.1) (fun _ => True)) demo.2.
Proof.
  split; [reflexivity |]. destruct (rlock_exclusive demo.1 demo.2 demo_reachable) as (H1 & _ & _ & _ & H2 & _).
  split; [exact H1 |]. apply Forall_forall. exact H2.
Defined.

Lemma rlock_request_witness :
  exists s' new (got : bool) a b, zfs_range_lock demo.1 12 20 RL_READER = Ok (s', new, got) /\
    a = 12 /\ b = 32 /\ got = false /\ rl_reachable s' demo.2.
Proof.
  assert (Hm : may_lock demo.2 12 20 RL_READER) by (split_and!; done).
  destruct (rlock_request demo.1 demo.2 12 20 RL_READER demo_reachable Hm) as (s' & new & got & a & b & E & (Ea & Eb) & Hres).
  exists s', new, got, a, b. split; [exact E |]. split; [exact Ea |]. split; [exact Eb |].
  destruct got; [vm_compute in E; discriminate E |]. split; [reflexivity | apply Hres].
Defined.

Lemma rlock_release_witness :
  exists s', unlock_all demo.1 (reverse demo.2) = Ok s' /\ waiting s' = [] /\ length (woken s') = 2%nat.
Proof.
  destruct (rlock_release demo.1 demo.2 (reverse demo.2) demo_reachable (reverse_Permutation _)) as (s' & E & _ & Hw & Hk & _).
  exists s'. split; [exact E |]. split; [exact Hw |]. rewrite Hk. reflexivity.
Defined.
