(* ===== verification/Words.v ===== *)
(** * Words in memory

    Loads and stores of words of [n] bytes at an offset of a buffer, on a
    machine of either byte order ([endian], _LITTLE_ENDIAN or _BIG_ENDIAN of
    the build), out of range a panic; and the byte-swapping macros of
    sysmacros.h. *)
From S2P Require Import Prelude Bytes.
Local Open Scope Z_scope.

Inductive endian : Set := LITTLE | BIG.
#[global] Instance endian_eq_dec : EqDecision endian.
Proof. solve_decision. Defined.

Definition word_of (h : endian) (bs : list Z) : Z :=
  match h with LITTLE => le_word bs | BIG => le_word (reverse bs) end.
Definition bytes_of (h : endian) (n : nat) (w : Z) : list Z :=
  match h with LITTLE => le_bytes n w | BIG => reverse (le_bytes n w) end.

(** [p] bytes from the start of the buffer. *)
Definition load_word (h : endian) (n : nat) (buf : list Z) (p : Z) : result Z :=
  VERIFY ((0 <=? p) && (p + Z.of_nat n <=? Z.of_nat (length buf))) ;;
  Ok (word_of h (take n (drop (Z.to_nat p) buf))).
Definition store_word (h : endian) (n : nat) (buf : list Z) (p w : Z) : result (list Z) :=
  VERIFY ((0 <=? p) && (p + Z.of_nat n <=? Z.of_nat (length buf))) ;;
  Ok (take (Z.to_nat p) buf ++ bytes_of h n w ++ drop (Z.to_nat p + n) buf).

Definition BSWAP_8 (x : Z) : Z := Z.land x 255.
Definition BSWAP_16 (x : Z) : Z := Z.lor (Z.shiftl (BSWAP_8 x) 8) (BSWAP_8 (Z.shiftr x 8)).
Definition BSWAP_32 (x : Z) : Z := Z.lor (Z.shiftl (BSWAP_16 x) 16) (BSWAP_16 (Z.shiftr x 16)).
Definition BSWAP_64 (x : Z) : Z := Z.lor (Z.shiftl (BSWAP_32 x) 32) (BSWAP_32 (Z.shiftr x 32)).

(** ** Byte order *)
(** The machine of the other byte order. *)
Definition other (h : endian) : endian := match h with LITTLE => BIG | BIG => LITTLE end.

Lemma other_other h : other (other h) = h.
Proof. by destruct h. Qed.

Lemma other_ne h h' : h <> h' -> h' = other h.
Proof. by destruct h, h'. Qed.

Lemma word_of_other h bs : word_of (other h) bs = word_of h (reverse bs).
Proof. destruct h; simpl; by rewrite ?reverse_involutive. Qed.

Lemma bytes_of_length h n w : length (bytes_of h n w) = n.
Proof. destruct h; simpl; rewrite ?length_reverse; apply le_bytes_length. Qed.

Lemma bytes_of_byte h n w : Forall is_byte (bytes_of h n w).
Proof. destruct h; simpl; rewrite ?Forall_reverse; apply le_bytes_byte. Qed.

Lemma word_of_range h bs : Forall is_byte bs -> 0 <= word_of h bs < 256 ^ Z.of_nat (length bs).
Proof.
  intros Hb. destruct h; simpl; [by apply le_word_range |]. rewrite <- (length_reverse bs). apply le_word_range. by rewrite Forall_reverse.
Qed.

Lemma word_of_bytes h n w : 0 <= w < 256 ^ Z.of_nat n -> word_of h (bytes_of h n w) = w.
Proof. intros Hw. destruct h; simpl; rewrite ?reverse_involutive; by apply le_word_bytes. Qed.

Lemma bytes_of_word h bs : Forall is_byte bs -> bytes_of h (length bs) (word_of h bs) = bs.
Proof.
  intros Hb. destruct h; simpl; [by apply le_bytes_word |]. rewrite <- (length_reverse bs), le_bytes_word; [apply reverse_involutive | by rewrite Forall_reverse].
Qed.

(** ** Byte swapping *)
Lemma BSWAP_8_mod x : BSWAP_8 x = x mod 2 ^ 8.
Proof. unfold BSWAP_8. change 255 with (Z.ones 8). by rewrite Z.land_ones. Qed.

(** One level: the halves of a word change places. *)
Lemma bswap_level sw n x : 0 <= n -> (forall y, 0 <= sw y < 2 ^ n) ->
  Z.lor (Z.shiftl (sw x) n) (sw (Z.shiftr x n)) = sw x * 2 ^ n + sw (x / 2 ^ n) /\
  0 <= sw x * 2 ^ n + sw (x / 2 ^ n) < 2 ^ (n + n).
Proof.
  intros Hn Hsw. rewrite Z.shiftl_mul_pow2, Z.shiftr_div_pow2, lor_fields by auto. split; [done |].
  rewrite Z.pow_add_r by done. pose proof (Hsw x). pose proof (Hsw (x / 2 ^ n)). nia.
Qed.

Lemma BSWAP_8_range x : 0 <= BSWAP_8 x < 2 ^ 8.
Proof. rewrite BSWAP_8_mod. by apply Z.mod_pos_bound. Qed.

Lemma BSWAP_16_eq x : BSWAP_16 x = BSWAP_8 x * 2 ^ 8 + BSWAP_8 (x / 2 ^ 8) /\ 0 <= BSWAP_16 x < 2 ^ 16.
Proof. unfold BSWAP_16. destruct (bswap_level BSWAP_8 8 x ltac:(done) BSWAP_8_range) as (-> & H). done. Qed.

Lemma BSWAP_32_eq x : BSWAP_32 x = BSWAP_16 x * 2 ^ 16 + BSWAP_16 (x / 2 ^ 16) /\ 0 <= BSWAP_32 x < 2 ^ 32.
Proof. unfold BSWAP_32. destruct (bswap_level BSWAP_16 16 x ltac:(done) (fun y => proj2 (BSWAP_16_eq y))) as (-> & H). done. Qed.

Lemma BSWAP_64_eq x : BSWAP_64 x = BSWAP_32 x * 2 ^ 32 + BSWAP_32 (x / 2 ^ 32) /\ 0 <= BSWAP_64 x < 2 ^ 64.
Proof. unfold BSWAP_64. destruct (bswap_level BSWAP_32 32 x ltac:(done) (fun y => proj2 (BSWAP_32_eq y))) as (-> & H). done. Qed.

Lemma BSWAP_64_range x : 0 <= BSWAP_64 x < W64.
Proof. apply BSWAP_64_eq. Qed.

Lemma le_word_app l1 l2 : le_word (l1 ++ l2) = le_word l1 + 256 ^ Z.of_nat (length l1) * le_word l2.
Proof.
  induction l1 as [| x l1 IH]; cbn [le_word app length]; [lia |]. rewrite IH, Nat2Z.inj_succ, Z.pow_succ_r by lia. lia.
Qed.

(** [sw] reverses the bytes of a word of [n] bytes, whatever is above it. *)
Definition swaps (sw : Z -> Z) (n : nat) : Prop :=
  forall bs w, length bs = n -> Forall is_byte bs -> sw (le_word bs + 256 ^ Z.of_nat n * w) = le_word (reverse bs).

Lemma swaps_8 : swaps BSWAP_8 1.
Proof.
  intros [| b [|]] w H Hb; try done. inversion Hb as [| ? ? Hb0]. subst. unfold is_byte in Hb0. rewrite BSWAP_8_mod.
  change (256 ^ Z.of_nat 1) with (2 ^ 8). rewrite (Z.mul_comm (2 ^ 8)), Z.mod_add by done. cbn. rewrite Z.mod_small; lia.
Qed.

Lemma swaps_double sw sw2 n : (forall x, sw2 x = sw x * 256 ^ Z.of_nat n + sw (x / 256 ^ Z.of_nat n)) ->
  swaps sw n -> swaps sw2 (n + n).
Proof.
  intros E Hs bs w Hl Hb. rewrite <- (take_drop n bs) in Hb |- *. apply Forall_app in Hb as (Hb1 & Hb2).
  assert (H1 : length (take n bs) = n) by (rewrite length_take; lia). assert (H2 : length (drop n bs) = n) by (rewrite length_drop; lia).
  revert H1 H2 Hb1 Hb2. generalize (take n bs), (drop n bs). intros b1 b2 H1 H2 Hb1 Hb2. clear bs Hl.
  rewrite reverse_app, !le_word_app, length_reverse, H1, H2, Nat2Z.inj_add, Z.pow_add_r, E by lia.
  set (P := 256 ^ Z.of_nat n). assert (HP : 0 < P) by (apply Z.pow_pos_nonneg; lia).
  replace (le_word b1 + P * le_word b2 + P * P * w) with (le_word b1 + P * (le_word b2 + P * w)) by lia.
  rewrite Hs by done. rewrite (Z.mul_comm P (le_word b2 + P * w)), Z.div_add by lia.
  rewrite Z.div_small by (unfold P; rewrite <- H1; by apply le_word_range). rewrite Z.add_0_l, Hs by done. lia.
Qed.

Lemma swaps_32 : swaps BSWAP_32 4.
Proof.
  apply (swaps_double BSWAP_16 _ 2); [intros x; apply BSWAP_32_eq |]. apply (swaps_double BSWAP_8 _ 1); [intros x; apply BSWAP_16_eq | apply swaps_8].
Qed.

Lemma swaps_64 : swaps BSWAP_64 8.
Proof. apply (swaps_double BSWAP_32 _ 4); [intros x; apply BSWAP_64_eq | apply swaps_32]. Qed.

Lemma swaps_word sw n h bs : swaps sw n -> length bs = n -> Forall is_byte bs -> sw (word_of h bs) = word_of (other h) bs.
Proof.
  intros Hs Hl Hb. rewrite word_of_other. destruct h; simpl.
  - by rewrite <- (Hs bs 0), Z.mul_0_r, Z.add_0_r.
  - rewrite <- (Hs (reverse bs) 0), Z.mul_0_r, Z.add_0_r; [done | by rewrite length_reverse | by rewrite Forall_reverse].
Qed.

Lemma BSWAP_64_bytes h w : 0 <= w < W64 -> bytes_of h 8 (BSWAP_64 w) = bytes_of (other h) 8 w.
Proof.
  intros Hw. rewrite <- (word_of_bytes (other h) 8 w Hw) at 1.
  rewrite (swaps_word _ _ _ _ swaps_64), other_other by (apply bytes_of_length || apply bytes_of_byte).
  rewrite <- (bytes_of_length (other h) 8 w) at 1. apply bytes_of_word, bytes_of_byte.
Qed.

Lemma BSWAP_64_involutive w : 0 <= w < W64 -> BSWAP_64 (BSWAP_64 w) = w.
Proof.
  intros Hw. rewrite <- (word_of_bytes LITTLE 8 w Hw) at 1.
  rewrite !(swaps_word _ _ _ _ swaps_64) by (apply bytes_of_length || apply bytes_of_byte). by apply (word_of_bytes LITTLE 8).
Qed.

(** ** Loads and stores *)
Lemma load_app h n a bs c : length bs = n -> load_word h n (a ++ bs ++ c) (Z.of_nat (length a)) = Ok (word_of h bs).
Proof.
  intros Hl. unfold load_word. rewrite VERIFY_pass by (rewrite !length_app; apply andb_true_intro; lia).
  by rewrite Nat2Z.id, drop_app_length, <- Hl, take_app_length.
Qed.

Lemma store_word_app h n a bs c w : length bs = n -> store_word h n (a ++ bs ++ c) (Z.of_nat (length a)) w = Ok (a ++ bytes_of h n w ++ c).
Proof.
  intros Hl. unfold store_word. rewrite VERIFY_pass by (rewrite !length_app; apply andb_true_intro; lia).
  rewrite Nat2Z.id, take_app_length, (app_assoc a bs c), drop_app_length'; [done |]. by rewrite length_app, Hl.
Qed.

(** ** Buffers in equal parts *)
(** The first [k] parts of [n] bytes. *)
Definition chunks (n k : nat) (buf : list Z) : list (list Z) := (fun i => take n (drop (n * i) buf)) <$> seq 0 k.

Lemma chunks_S n k buf : chunks n (S k) buf = chunks n k buf ++ [take n (drop (n * k) buf)].
Proof. unfold chunks. by rewrite seq_S, fmap_app. Qed.

Lemma chunks_app n k1 k2 b1 b2 : length b1 = (n * k1)%nat -> chunks n (k1 + k2) (b1 ++ b2) = chunks n k1 b1 ++ chunks n k2 b2.
Proof.
  intros Hl. unfold chunks. rewrite seq_app, fmap_app. f_equal.
  - apply list_fmap_ext. intros i x Hx. apply lookup_seq in Hx as (-> & Hx).
    rewrite drop_app_le by nia. rewrite take_app_le; [done |]. rewrite length_drop. nia.
  - rewrite Nat.add_comm, <- (fmap_add_seq k1 0 k2), <- list_fmap_compose. apply list_fmap_ext. intros i x _. simpl. f_equal.
    rewrite drop_app_ge by nia. f_equal. nia.
Qed.

Lemma Forall_slice (P : Z -> Prop) n i buf : Forall P buf -> Forall P (take n (drop i buf)).
Proof. intros H. by apply Forall_take, Forall_drop. Qed.

Lemma part_length n i (buf : list Z) : (i + n <= length buf)%nat -> length (take n (drop i buf)) = n.
Proof. intros H. rewrite length_take, length_drop. lia. Qed.

(** A loop over the parts is a fold. *)
Lemma for_chunks {S} (P : S -> Prop) (f : S -> list Z -> S) n k buf (body : Z -> S -> result S) st :
  P st -> (forall i st, (i < k)%nat -> P st -> body (Z.of_nat i) st = Ok (f st (take n (drop (n * i) buf))) /\ P (f st (take n (drop (n * i) buf)))) ->
  for_range 0 (Z.of_nat k) body st = Ok (fold_left f (chunks n k buf) st) /\ P (fold_left f (chunks n k buf) st).
Proof.
  intros Hst Hb. assert (H : runs (for_range 0 (Z.of_nat k) body st)
    (fun st' => st' = fold_left f (chunks n (Z.to_nat (Z.of_nat k)) buf) st /\ P st')).
  { apply (for_range_inv _ _ _ _ (fun i st' => st' = fold_left f (chunks n (Z.to_nat i) buf) st /\ P st')); [lia | done |].
    intros i st' Hi (-> & HP). destruct (Hb (Z.to_nat i) _ ltac:(lia) HP) as (E & HP'). rewrite Z2Nat.id in E by lia. rewrite E. simpl.
    by rewrite Z2Nat.inj_add, Nat.add_1_r, chunks_S, fold_left_app by lia. }
  apply runs_Ok in H as (st' & -> & -> & H). by rewrite Nat2Z.id in *.
Qed.

(** The first [k] words of [n] bytes. *)
Definition words (h : endian) (n k : nat) (buf : list Z) : list Z := word_of h <$> chunks n k buf.

Lemma words_length h n k buf : length (words h n k buf) = k.
Proof. unfold words, chunks. by rewrite !length_fmap, length_seq. Qed.

Lemma words_lookup h n k buf i : (i < k)%nat -> words h n k buf !! i = Some (word_of h (take n (drop (n * i) buf))).
Proof. intros Hi. unfold words, chunks. rewrite !list_lookup_fmap, lookup_seq_lt by done. done. Qed.

Lemma words_range h n k buf : Forall is_byte buf -> Forall (fun f => 0 <= f < 256 ^ Z.of_nat n) (words h n k buf).
Proof.
  intros Hb. apply Forall_fmap, Forall_fmap, Forall_forall. intros i _. simpl.
  pose proof (word_of_range h _ (Forall_slice _ n (n * i) _ Hb)) as Hr. split; [lia |]. eapply Z.lt_le_trans; [apply Hr |].
  apply Z.pow_le_mono_r; [done |]. rewrite length_take. lia.
Qed.

Lemma words_app h n k1 k2 b1 b2 : length b1 = (n * k1)%nat -> words h n (k1 + k2) (b1 ++ b2) = words h n k1 b1 ++ words h n k2 b2.
Proof. intros Hl. unfold words. by rewrite chunks_app, fmap_app. Qed.

Lemma words_swap sw n h k buf : swaps sw n -> Forall is_byte buf -> (n * k <= length buf)%nat ->
  sw <$> words h n k buf = words (other h) n k buf.
Proof.
  intros Hs Hb Hl. unfold words, chunks. rewrite <- !list_fmap_compose. apply list_fmap_ext. intros i x Hx. apply lookup_seq in Hx as (-> & Hx). simpl.
  apply (swaps_word sw n); [done | apply part_length; nia | by apply Forall_slice].
Qed.

Lemma load_slice h n buf p : 0 <= p -> p + Z.of_nat n <= Z.of_nat (length buf) ->
  load_word h n buf p = Ok (word_of h (take n (drop (Z.to_nat p) buf))).
Proof. intros Hp Hl. unfold load_word. by rewrite VERIFY_pass by (apply andb_true_intro; lia). Qed.

Lemma load_nth h n k buf i : (n * k <= length buf)%nat -> (i < k)%nat ->
  load_word h n buf (Z.of_nat n * Z.of_nat i) = Ok (word_of h (take n (drop (n * i) buf))).
Proof. intros Hl Hi. rewrite load_slice by nia. by rewrite Z2Nat.inj_mul, !Nat2Z.id by lia. Qed.

(** A loop over words is a fold. *)
Lemma fold_words {S} (f : S -> Z -> S) h n k buf st : (n * k <= length buf)%nat ->
  for_range 0 (Z.of_nat k) (fun i st => x ← load_word h n buf (Z.of_nat n * i) ; Ok (f st x)) st = Ok (fold_left f (words h n k buf) st).
Proof.
  intros Hl. destruct (for_chunks (fun _ => True) (fun st c => f st (word_of h c)) n k buf
    (fun i st => x ← load_word h n buf (Z.of_nat n * i) ; Ok (f st x)) st I) as (E & _).
  - intros i st' Hi _. by rewrite (load_nth h n k).
  - rewrite E. f_equal. unfold words. clear. generalize (chunks n k buf). intros l. revert st.
    induction l as [| c l IH]; intros st; [done |]. apply IH.
Qed.
