(* ===== verification/Fletcher.v ===== *)
(** * Fletcher checksums (zfs/module/zcommon/zfs_fletcher.c)

    The functions read the buffer in words of the machine they run on, [h]
    its byte order. *)
From S2P Require Import Prelude Bytes Words.
Local Open Scope Z_scope.

Record zio_cksum : Type := ZIO_SET_CHECKSUM { zc_word0 : Z; zc_word1 : Z; zc_word2 : Z; zc_word3 : Z }.
#[global] Instance zio_cksum_eq_dec : EqDecision zio_cksum.
Proof. solve_decision. Defined.

Definition zero_cksum : zio_cksum := ZIO_SET_CHECKSUM 0 0 0 0.

(** ** Second order *)
(** The body of the loop, two words at a time. *)
Definition fletcher_2_step (f0 f1 : Z) (st : zio_cksum) : zio_cksum :=
  let a0 := u64_add (zc_word0 st) f0 in
  let a1 := u64_add (zc_word1 st) f1 in
  let b0 := u64_add (zc_word2 st) a0 in
  let b1 := u64_add (zc_word3 st) a1 in
  ZIO_SET_CHECKSUM a0 a1 b0 b1.

(** [for (...; ip < ipend; ip += 2)]: of an odd number of words the last
    round reads one more. *)
Definition fletcher_2_loop (swap : Z -> Z) (h : endian) (buf : list Z) (size : Z) : result zio_cksum :=
  for_range 0 ((size / 8 + 1) / 2) (fun i st =>
    f0 ← load_word h 8 buf (16 * i) ;
    f1 ← load_word h 8 buf (16 * i + 8) ;
    Ok (fletcher_2_step (swap f0) (swap f1) st)) zero_cksum.

Definition fletcher_2_native (h : endian) (buf : list Z) (size : Z) : result zio_cksum :=
  fletcher_2_loop (fun f => f) h buf size.
Definition fletcher_2_byteswap (h : endian) (buf : list Z) (size : Z) : result zio_cksum :=
  fletcher_2_loop BSWAP_64 h buf size.

(** ** Fourth order *)
Definition fletcher_4_step (st : zio_cksum) (f : Z) : zio_cksum :=
  let a := u64_add (zc_word0 st) f in
  let b := u64_add (zc_word1 st) a in
  let c := u64_add (zc_word2 st) b in
  let d := u64_add (zc_word3 st) c in
  ZIO_SET_CHECKSUM a b c d.

Definition fletcher_4_loop (swap : Z -> Z) (h : endian) (buf : list Z) (size : Z) (zcp : zio_cksum) : result zio_cksum :=
  for_range 0 (size / 4) (fun i st => f ← load_word h 4 buf (4 * i) ; Ok (fletcher_4_step st (swap f))) zcp.

Definition fletcher_4_native (h : endian) (buf : list Z) (size : Z) : result zio_cksum :=
  fletcher_4_loop (fun f => f) h buf size zero_cksum.
Definition fletcher_4_byteswap (h : endian) (buf : list Z) (size : Z) : result zio_cksum :=
  fletcher_4_loop BSWAP_32 h buf size zero_cksum.
Definition fletcher_4_incremental_native (h : endian) (buf : list Z) (size : Z) (zcp : zio_cksum) : result zio_cksum :=
  fletcher_4_loop (fun f => f) h buf size zcp.
Definition fletcher_4_incremental_byteswap (h : endian) (buf : list Z) (size : Z) (zcp : zio_cksum) : result zio_cksum :=
  fletcher_4_loop BSWAP_32 h buf size zcp.
