(* ===== verification/FletcherSpec.v ===== *)
(** * The Fletcher sums as series

    The series of the comment in zfs_fletcher.c, and the powers of two that
    divide their coefficients. *)
From S2P Require Import Prelude Bytes Words Fletcher.
From Stdlib Require Import Znumtheory Zpow_facts.
Local Open Scope Z_scope.

(** ** Fourth order: the series *)
(** [sum c ws] is the sum of the words, the one [i] places from the end (from
    1) with the coefficient [c i]. *)
Fixpoint sum (c : Z -> Z) (ws : list Z) : Z :=
  match ws with
  | [] => 0
  | f :: ws => c (Z.of_nat (S (length ws))) * f + sum c ws
  end.

Definition c1 (i : Z) : Z := 1.
Definition c2 (i : Z) : Z := i.
Definition c3 (i : Z) : Z := i * (i + 1) / 2.
Definition c4 (i : Z) : Z := i * (i + 1) * (i + 2) / 6.

Lemma c3_twice i : 2 * c3 i = i * (i + 1).
Proof.
  unfold c3. symmetry. apply Z_div_exact_full_2; [done |]. pose proof (Z.mod_pos_bound i 2).
  rewrite Z.mul_mod by done. rewrite (Z.add_mod i 1) by done.
  assert (i mod 2 = 0 \/ i mod 2 = 1) as [-> | ->] by lia; done.
Qed.

Lemma c4_six i : 6 * c4 i = i * (i + 1) * (i + 2).
Proof.
  unfold c4. symmetry. apply Z_div_exact_full_2; [done |].
  rewrite Z.mul_mod, (Z.mul_mod i (i + 1)), (Z.add_mod i 1), (Z.add_mod i 2) by done. pose proof (Z.mod_pos_bound i 6).
  assert (i mod 6 = 0 \/ i mod 6 = 1 \/ i mod 6 = 2 \/ i mod 6 = 3 \/ i mod 6 = 4 \/ i mod 6 = 5) as [-> | [-> | [-> | [-> | [-> | ->]]]]] by lia; done.
Qed.

Lemma c3_step i : c3 (i + 1) = c3 i + c2 (i + 1).
Proof. pose proof (c3_twice i). pose proof (c3_twice (i + 1)). unfold c2. lia. Qed.

Lemma c4_step i : c4 (i + 1) = c4 i + c3 (i + 1).
Proof. pose proof (c4_six i). pose proof (c4_six (i + 1)). pose proof (c3_twice (i + 1)). lia. Qed.

Lemma sum_ext c c' ws : (forall i, c i = c' i) -> sum c ws = sum c' ws.
Proof. intros E. induction ws as [| f ws IH]; simpl; [done |]. by rewrite IH, E. Qed.

Lemma sum_plus c c' ws : sum (fun i => c i + c' i) ws = sum c ws + sum c' ws.
Proof. induction ws as [| f ws IH]; cbn [sum]; [done |]. rewrite IH. lia. Qed.

Lemma sum_snoc c ws f : sum c (ws ++ [f]) = sum (fun i => c (i + 1)) ws + c 1 * f.
Proof.
  induction ws as [| g ws IH]; cbn [sum app]; [change (Z.of_nat (S (length (@nil Z)))) with 1; lia |]. rewrite IH, length_app. simpl length.
  replace (Z.of_nat (S (length ws + 1))) with (Z.of_nat (S (length ws)) + 1) by lia. lia.
Qed.

(** A sum of the next order, after one more word. *)
Lemma sum_next c c' ws f : (forall i, c' (i + 1) = c' i + c (i + 1)) -> c' 1 = c 1 ->
  sum c' (ws ++ [f]) = sum c' ws + sum c (ws ++ [f]).
Proof. intros E E1. rewrite !sum_snoc, (sum_ext _ _ _ E), sum_plus, E1. lia. Qed.

Lemma u64_add_mod x y : u64_add (u64 x) (u64 y) = u64 (x + y).
Proof. unfold u64_add, u64. by rewrite <- Z.add_mod. Qed.

Definition fletcher_4_series (ws : list Z) : zio_cksum :=
  ZIO_SET_CHECKSUM (u64 (sum c1 ws)) (u64 (sum c2 ws)) (u64 (sum c3 ws)) (u64 (sum c4 ws)).

Lemma u64_add_mod_r x y : u64_add (u64 x) y = u64 (x + y).
Proof. unfold u64_add, u64. by rewrite Z.add_mod_idemp_l. Qed.

Lemma fletcher_4_fold ws : fold_left fletcher_4_step ws zero_cksum = fletcher_4_series ws.
Proof.
  induction ws as [| f ws IH] using rev_ind; [done |]. rewrite fold_left_app, IH. cbn [fold_left]. unfold fletcher_4_step, fletcher_4_series.
  cbn [zc_word0 zc_word1 zc_word2 zc_word3]. rewrite u64_add_mod_r, !u64_add_mod.
  assert (E1 : sum c1 (ws ++ [f]) = sum c1 ws + f) by (rewrite sum_snoc; unfold c1; lia).
  pose proof (sum_next c1 c2 ws f ltac:(done) eq_refl) as E2. pose proof (sum_next c2 c3 ws f c3_step eq_refl) as E3.
  pose proof (sum_next c3 c4 ws f c4_step eq_refl) as E4. by rewrite E4, E3, E2, E1.
Qed.

(** ** Powers of two *)
Lemma odd_pow2 x n : Z.odd x = true -> 0 <= n -> rel_prime (2 ^ n) x.
Proof.
  intros Hx Hn. apply rel_prime_sym, rel_prime_Zpower_r; [done |]. apply Zgcd_1_rel_prime.
  apply Z.odd_spec in Hx as (q & ->). rewrite Z.gcd_comm, Z.add_comm, (Z.mul_comm 2). by rewrite Z.gcd_add_mult_diag_r.
Qed.

Lemma even_double x : Z.odd x = false -> exists q, x = 2 * q.
Proof. intros Hx. apply Z.even_spec. by rewrite <- Z.negb_odd, Hx. Qed.

(** A factor below [2 ^ s] takes at most [s - 1] of the twos. *)
Lemma pow2_factor (s m : nat) x y : x <> 0 -> Z.abs x < 2 ^ Z.of_nat s -> (2 ^ Z.of_nat (s + m) | x * y) -> (2 ^ Z.of_nat (m + 1) | y).
Proof.
  revert x. induction s as [| s IH]; intros x Hx Hs Hd; [simpl in Hs; lia |]. destruct (Z.odd x) eqn:Ho.
  - apply Gauss in Hd; [| apply odd_pow2; [done | lia]]. eapply Z.divide_trans; [| exact Hd].
    exists (2 ^ Z.of_nat s). rewrite <- Z.pow_add_r by lia. f_equal. lia.
  - apply even_double in Ho as (q & ->). apply (IH q); [lia | |].
    + rewrite Nat2Z.inj_succ, Z.pow_succ_r in Hs by lia. lia.
    + rewrite Nat.add_succ_l, Nat2Z.inj_succ, Z.pow_succ_r, <- Z.mul_assoc in Hd by lia. by apply Z.mul_divide_cancel_l in Hd.
Qed.

Lemma divide_big n k : (2 ^ n | k) -> 0 < k < 2 ^ n -> False.
Proof. intros Hd Hk. apply Z.divide_pos_le in Hd; lia. Qed.

(** Of two neighbours one is odd. *)
Lemma pow2_neighbours n k : 0 <= n -> (2 ^ n | k * (k + 1)) -> 0 < k -> 2 ^ n <= k + 1.
Proof.
  intros Hn Hd Hk. destruct (Z.odd k) eqn:Ho.
  - apply Gauss, Z.divide_pos_le in Hd; [done | lia | by apply odd_pow2].
  - rewrite Z.mul_comm in Hd. apply Gauss, Z.divide_pos_le in Hd; [lia | lia |]. apply odd_pow2; [| done]. by rewrite Z.odd_add, Ho.
Qed.

Lemma pow2_three n k : 0 <= n -> (2 ^ (n + 1) | k * (k + 1) * (k + 2)) -> 0 < k -> 2 ^ n <= k + 2.
Proof.
  intros Hn Hd Hk. destruct (Z.odd k) eqn:Ho.
  - replace (k * (k + 1) * (k + 2)) with (k * ((k + 2) * (k + 1))) in Hd by lia. apply Gauss in Hd; [| apply odd_pow2; [done | lia]].
    apply Gauss in Hd; [| apply odd_pow2; [by rewrite Z.odd_add, Ho | lia]]. apply Z.divide_pos_le in Hd; [| lia].
    rewrite Z.pow_add_r in Hd by lia. nia.
  - replace (k * (k + 1) * (k + 2)) with ((k + 1) * (k * (k + 2))) in Hd by lia.
    apply Gauss in Hd; [| apply odd_pow2; [by rewrite Z.odd_add, Ho | lia]]. apply even_double in Ho as (q & ->).
    replace (2 * q * (2 * q + 2)) with (2 * (2 * (q * (q + 1)))) in Hd by lia. rewrite Z.pow_add_r, Z.mul_comm in Hd by lia.
    apply Z.mul_divide_cancel_l in Hd; [| done].
    destruct (Z.eq_dec n 0) as [-> | Hne]; [lia |]. replace n with (Z.succ (n - 1)) in Hd by lia. rewrite Z.pow_succ_r in Hd by lia.
    apply Z.mul_divide_cancel_l in Hd; [| done]. apply pow2_neighbours in Hd; [| lia | lia].
    replace n with (Z.succ (n - 1)) by lia. rewrite Z.pow_succ_r by lia. lia.
Qed.

(** ** Changing words *)
Lemma sum_change c l1 f f' l2 : sum c (l1 ++ f' :: l2) - sum c (l1 ++ f :: l2) = c (Z.of_nat (S (length l2))) * (f' - f).
Proof. induction l1 as [| g l1 IH]; cbn [sum app]; [lia |]. rewrite !length_app. simpl length. lia. Qed.

Lemma u64_eq_divide x y : u64 x = u64 y -> (2 ^ 64 | x - y).
Proof. intros E. apply Z.mod_divide; [done |]. unfold u64 in E. rewrite Zminus_mod. fold W64 in *. change (2 ^ 64) with W64. by rewrite E, Z.sub_diag. Qed.

Lemma c2_twos k : 0 < k <= 2 ^ 22 -> ~ (2 ^ 33 | c2 k).
Proof. intros Hk Hd. apply (divide_big _ _ Hd). unfold c2. lia. Qed.

Lemma c3_twos k : 0 < k <= 2 ^ 22 -> ~ (2 ^ 33 | c3 k).
Proof.
  intros Hk (q & Hd). assert (H : (2 ^ 33 | k * (k + 1))) by (exists (2 * q); rewrite <- c3_twice; lia).
  apply pow2_neighbours in H; lia.
Qed.

Lemma c4_twos k : 0 < k <= 2 ^ 22 -> ~ (2 ^ 33 | c4 k).
Proof.
  intros Hk (q & Hd). assert (H : (2 ^ (32 + 1) | k * (k + 1) * (k + 2))) by (exists (6 * q); rewrite <- c4_six; lia).
  apply pow2_three in H; lia.
Qed.

Lemma sum_insert c ws i f f' : ws !! i = Some f -> sum c (<[i := f']> ws) - sum c ws = c (Z.of_nat (length ws - i)) * (f' - f).
Proof.
  intros Hi. pose proof (lookup_lt_Some _ _ _ Hi) as Hlt. rewrite <- (take_drop_middle ws i f Hi) at 2. rewrite insert_take_drop by done.
  rewrite sum_change. do 2 f_equal. rewrite length_drop. lia.
Qed.

Definition word32 (f : Z) : Prop := 0 <= f < 2 ^ 32.

Lemma word32_lookup ws i f : Forall word32 ws -> ws !! i = Some f -> word32 f.
Proof. intros H E. by eapply Forall_lookup_1. Qed.

(** One word changed: all four sums change. *)
Lemma one_word c ws i f f' : ws !! i = Some f -> (forall k, 0 < k <= 2 ^ 22 -> ~ (2 ^ 33 | c k)) -> Z.of_nat (length ws) <= 2 ^ 22 ->
  word32 f -> word32 f' -> f <> f' -> u64 (sum c (<[i := f']> ws)) <> u64 (sum c ws).
Proof.
  intros Hi Hc Hl Hf Hf' Hne E. pose proof (lookup_lt_Some _ _ _ Hi). apply u64_eq_divide in E. rewrite (sum_insert c ws i f f' Hi), Z.mul_comm in E.
  unfold word32 in *. apply (Hc (Z.of_nat (length ws - i))); [lia |]. by apply (pow2_factor 32 32 (f' - f)); [lia | simpl; lia |].
Qed.

Lemma small_divide x : (2 ^ 64 | x) -> Z.abs x < 2 ^ 64 -> x = 0.
Proof. intros (q & ->) H. nia. Qed.

(** Two words changed: the first two sums do not both stay. *)
Lemma two_words ws i j f f' g g' : ws !! i = Some f -> ws !! j = Some g -> i <> j -> Z.of_nat (length ws) <= 2 ^ 22 ->
  word32 f -> word32 f' -> word32 g -> word32 g' -> f <> f' \/ g <> g' ->
  fletcher_4_series (<[i := f']> (<[j := g']> ws)) <> fletcher_4_series ws.
Proof.
  intros Hi Hj Hij Hl Hf Hf' Hg Hg' Hne [= E1 E2 _ _]. apply u64_eq_divide in E1, E2. unfold word32 in *.
  pose proof (lookup_lt_Some _ _ _ Hi) as Li. pose proof (lookup_lt_Some _ _ _ Hj) as Lj.
  assert (Hi' : <[j := g']> ws !! i = Some f) by (by rewrite list_lookup_insert_ne).
  pose proof (sum_insert c1 _ i f f' Hi') as A1. pose proof (sum_insert c1 ws j g g' Hj) as A2.
  pose proof (sum_insert c2 _ i f f' Hi') as B1. pose proof (sum_insert c2 ws j g g' Hj) as B2.
  rewrite length_insert in A1, B1. unfold c1, c2 in *. apply small_divide in E1; [| lia].
  assert (Eg : g' - g = - (f' - f)) by lia. rewrite Eg in B2.
  assert (Ef : (Z.of_nat j - Z.of_nat i) * (f' - f) = 0).
  { apply small_divide; [| nia]. replace ((Z.of_nat j - Z.of_nat i) * (f' - f)) with
      (Z.of_nat (length ws - i) * (f' - f) + Z.of_nat (length ws - j) * - (f' - f)) by nia.
    rewrite <- B1, <- B2. by replace (_ - _ + _) with (sum (fun i => i) (<[i:=f']> (<[j:=g']> ws)) - sum (fun i => i) ws) by lia. }
  apply Z.mul_eq_0 in Ef as [Ef | Ef]; lia.
Qed.

(** ** Damaged buffers *)
(** [buf'] differs from [buf] in the words [i] and [j] at most. *)
Definition differ_within (n : nat) (i j : nat) (buf buf' : list Z) : Prop :=
  length buf' = length buf /\ forall p, (p / n)%nat <> i -> (p / n)%nat <> j -> buf' !! p = buf !! p.

Lemma words_same h n k i j buf buf' x : n <> O -> differ_within n i j buf buf' -> x <> i -> x <> j -> words h n k buf' !! x = words h n k buf !! x.
Proof.
  intros Hn (Hl & Hs) Hi Hj. destruct (decide (x < k)%nat) as [Hx | Hx].
  2:{ rewrite !lookup_ge_None_2; [done | |]; rewrite words_length; lia. }
  rewrite !words_lookup by done. do 2 f_equal. apply list_eq. intros p. destruct (decide (p < n)%nat) as [Hp | Hp].
  - rewrite !lookup_take_lt, !lookup_drop by done. apply Hs; rewrite Nat.mul_comm, Nat.div_add_l, Nat.div_small by lia; lia.
  - rewrite !lookup_take_ge by lia. done.
Qed.

Lemma words_inj h n k buf buf' : n <> O -> Forall is_byte buf -> Forall is_byte buf' -> length buf = (n * k)%nat -> length buf' = (n * k)%nat ->
  words h n k buf = words h n k buf' -> buf = buf'.
Proof.
  intros Hn Hb Hb' Hl Hl' E. apply list_eq. intros p. destruct (decide (p < n * k)%nat) as [Hp | Hp].
  2:{ rewrite !lookup_ge_None_2 by lia. done. }
  assert (Hx : (p / n < k)%nat) by (apply Nat.Div0.div_lt_upper_bound; lia).
  assert (Ew : take n (drop (n * (p / n)) buf) = take n (drop (n * (p / n)) buf')).
  { pose proof (f_equal (fun l => l !! (p / n)%nat) E) as Ei. simpl in Ei. rewrite !words_lookup in Ei by done. injection Ei as Ei.
    rewrite <- (bytes_of_word h (take n (drop (n * (p / n)) buf))) by (by apply Forall_slice).
    rewrite <- (bytes_of_word h (take n (drop (n * (p / n)) buf'))) by (by apply Forall_slice). by rewrite Ei, !part_length by nia. }
  pose proof (f_equal (fun l => l !! (p mod n)%nat) Ew) as Ei. simpl in Ei. pose proof (Nat.mod_upper_bound p n Hn) as Hm.
  rewrite !lookup_take_lt, !lookup_drop in Ei by done. by rewrite <- Nat.div_mod in Ei.
Qed.

Lemma list_two_inserts (ws ws' : list Z) i j f' g' : length ws' = length ws -> ws' !! i = Some f' -> ws' !! j = Some g' ->
  (forall x, x <> i -> x <> j -> ws' !! x = ws !! x) -> ws' = <[i := f']> (<[j := g']> ws).
Proof.
  intros Hl Hi Hj Hs. pose proof (lookup_lt_Some _ _ _ Hi). pose proof (lookup_lt_Some _ _ _ Hj). apply list_eq. intros x.
  destruct (decide (x = i)) as [-> |]; [by rewrite list_lookup_insert_eq by (rewrite length_insert; lia) |].
  rewrite list_lookup_insert_ne by done. destruct (decide (x = j)) as [-> |]; [by rewrite list_lookup_insert_eq by lia |].
  rewrite list_lookup_insert_ne by done. by apply Hs.
Qed.

Lemma series_detects (ws ws' : list Z) i j : length ws' = length ws -> (i < length ws)%nat -> (j < length ws)%nat -> Z.of_nat (length ws) <= 2 ^ 22 ->
  Forall word32 ws -> Forall word32 ws' -> (forall x, x <> i -> x <> j -> ws' !! x = ws !! x) -> ws' <> ws ->
  fletcher_4_series ws' <> fletcher_4_series ws.
Proof.
  intros Hl Hi Hj Hmax Hw Hw' Hs Hne. destruct (lookup_lt_is_Some_2 ws i Hi) as (f & Ef). destruct (lookup_lt_is_Some_2 ws j Hj) as (g & Eg).
  destruct (lookup_lt_is_Some_2 ws' i) as (f' & Ef'); [lia |]. destruct (lookup_lt_is_Some_2 ws' j) as (g' & Eg'); [lia |].
  pose proof (list_two_inserts ws ws' i j f' g' Hl Ef' Eg' Hs) as E. destruct (decide (i = j)) as [-> | Hij].
  - rewrite Ef' in Eg'. injection Eg' as <-. rewrite list_insert_insert_eq in E. subst ws'.
    assert (f <> f') by (intros <-; by rewrite list_insert_id in Hne). intros [= _ E2 _ _].
    revert E2. apply (one_word c2 ws j f f'); eauto using word32_lookup, c2_twos.
  - rewrite E in Hne |- *. apply (two_words ws i j f f' g g'); eauto using word32_lookup.
    destruct (decide (f = f')) as [-> |]; [right | by left]. intros ->. destruct Hne. by rewrite (list_insert_id ws j g') , list_insert_id.
Qed.

(** ** The functions *)
Definition cksum_u64 (c : zio_cksum) : Prop := is_u64 (zc_word0 c) /\ is_u64 (zc_word1 c) /\ is_u64 (zc_word2 c) /\ is_u64 (zc_word3 c).

Lemma fletcher_4_loop_fold sw h buf k st : (4 * k <= length buf)%nat ->
  fletcher_4_loop sw h buf (4 * Z.of_nat k) st = Ok (fold_left fletcher_4_step (sw <$> words h 4 k buf) st).
Proof.
  intros Hl. unfold fletcher_4_loop. rewrite Z.mul_comm, Z.div_mul by done.
  pose proof (fold_words (fun st x => fletcher_4_step st (sw x)) h 4 k buf st Hl) as E. change (Z.of_nat 4) with 4 in E. rewrite E.
  f_equal. clear. generalize (words h 4 k buf). intros ws. revert st. induction ws as [| w ws IH]; intros st; [done |]. apply IH.
Qed.

Lemma fletcher_4_native_words h buf k : (4 * k <= length buf)%nat ->
  fletcher_4_native h buf (4 * Z.of_nat k) = Ok (fletcher_4_series (words h 4 k buf)).
Proof. intros Hl. unfold fletcher_4_native. by rewrite fletcher_4_loop_fold, list_fmap_id, fletcher_4_fold by done. Qed.

Lemma fletcher_4_byteswap_words h buf k : (4 * k <= length buf)%nat -> Forall is_byte buf ->
  fletcher_4_byteswap h buf (4 * Z.of_nat k) = Ok (fletcher_4_series (words (other h) 4 k buf)).
Proof.
  intros Hl Hb. unfold fletcher_4_byteswap. by rewrite fletcher_4_loop_fold, (words_swap _ _ _ _ _ swaps_32 Hb Hl), fletcher_4_fold by done.
Qed.

(** A buffer in two parts. *)
Lemma fletcher_4_incremental h b1 b2 k1 k2 : length b1 = (4 * k1)%nat -> (4 * k2 <= length b2)%nat ->
  fletcher_4_incremental_native h b2 (4 * Z.of_nat k2) (fletcher_4_series (words h 4 k1 b1)) = Ok (fletcher_4_series (words h 4 (k1 + k2) (b1 ++ b2))).
Proof.
  intros H1 H2. unfold fletcher_4_incremental_native. rewrite fletcher_4_loop_fold, list_fmap_id by done.
  by rewrite words_app, <- !fletcher_4_fold, fold_left_app by done.
Qed.

Lemma fletcher_4_incremental_swap h b1 b2 k1 k2 : length b1 = (4 * k1)%nat -> (4 * k2 <= length b2)%nat -> Forall is_byte b2 ->
  fletcher_4_incremental_byteswap h b2 (4 * Z.of_nat k2) (fletcher_4_series (words (other h) 4 k1 b1)) =
    Ok (fletcher_4_series (words (other h) 4 (k1 + k2) (b1 ++ b2))).
Proof.
  intros H1 H2 Hb. unfold fletcher_4_incremental_byteswap. rewrite fletcher_4_loop_fold, (words_swap _ _ _ _ _ swaps_32 Hb H2) by done.
  by rewrite words_app, <- !fletcher_4_fold, fold_left_app by done.
Qed.

Lemma series_u64 ws : cksum_u64 (fletcher_4_series ws).
Proof. unfold cksum_u64, fletcher_4_series. simpl. auto using u64_range. Qed.

(** *** No overflow in the first two sums of up to 128K *)
Lemma sum_bound c m ws : (forall i, 0 < i <= Z.of_nat (length ws) -> 0 <= c i <= m) -> Forall word32 ws -> 0 <= sum c ws <= Z.of_nat (length ws) * m * (2 ^ 32 - 1).
Proof.
  intros Hc Hw. induction Hw as [| f ws Hf Hw IH]; cbn [sum length]; [lia |]. unfold word32 in Hf.
  specialize (Hc (Z.of_nat (S (length ws))) ltac:(simpl; lia)) as Hn.
  destruct IH as [IH1 IH2]; [intros i Hi; apply Hc; simpl; lia |]. rewrite Nat2Z.inj_succ in *. nia.
Qed.

Lemma sums_exact ws : Z.of_nat (length ws) <= 2 ^ 15 -> Forall word32 ws ->
  u64 (sum c1 ws) = sum c1 ws /\ u64 (sum c2 ws) = sum c2 ws.
Proof.
  intros Hl Hw. pose proof (sum_bound c1 1 ws ltac:(unfold c1; lia) Hw). pose proof (sum_bound c2 (2 ^ 15) ws ltac:(unfold c2; lia) Hw).
  split; apply u64_small; unfold is_u64, W64; nia.
Qed.

(** *** Second order *)
Definition fletcher_2_series (w0 w1 : list Z) : zio_cksum :=
  ZIO_SET_CHECKSUM (u64 (sum c1 w0)) (u64 (sum c1 w1)) (u64 (sum c2 w0)) (u64 (sum c2 w1)).

(** The even and the odd words. *)
Definition evens (h : endian) (k : nat) (buf : list Z) : list Z := (fun c => word_of h (take 8 c)) <$> chunks 16 k buf.
Definition odds (h : endian) (k : nat) (buf : list Z) : list Z := (fun c => word_of h (take 8 (drop 8 c))) <$> chunks 16 k buf.

Lemma fletcher_2_fold {A} (f g : A -> Z) l :
  fold_left (fun st c => fletcher_2_step (f c) (g c) st) l zero_cksum = fletcher_2_series (f <$> l) (g <$> l).
Proof.
  induction l as [| c l IH] using rev_ind; [done |]. rewrite fold_left_app, IH, !fmap_app. cbn [fold_left fmap list_fmap]. unfold fletcher_2_step, fletcher_2_series.
  cbn [zc_word0 zc_word1 zc_word2 zc_word3]. rewrite (u64_add_mod_r _ (f c)), (u64_add_mod_r _ (g c)), !u64_add_mod.
  assert (E1 : forall ws x, sum c1 (ws ++ [x]) = sum c1 ws + x) by (intros; rewrite sum_snoc; unfold c1; lia).
  pose proof (fun ws x => sum_next c1 c2 ws x ltac:(done) eq_refl) as E2. by rewrite !E2, !E1.
Qed.

Lemma fletcher_2_loop_fold sw h buf k : (16 * k <= length buf)%nat ->
  fletcher_2_loop sw h buf (16 * Z.of_nat k) = Ok (fletcher_2_series (sw <$> evens h k buf) (sw <$> odds h k buf)).
Proof.
  intros Hl. unfold fletcher_2_loop. replace ((16 * Z.of_nat k / 8 + 1) / 2) with (Z.of_nat k).
  2:{ replace (16 * Z.of_nat k) with (2 * Z.of_nat k * 8) by lia. rewrite Z.div_mul by done. rewrite Z.add_comm, Z.mul_comm, Z.div_add by done. done. }
  match goal with |- for_range _ _ ?body _ = _ => set (f := body) end.
  destruct (for_chunks (fun _ => True) (fun st c => fletcher_2_step (sw (word_of h (take 8 c))) (sw (word_of h (take 8 (drop 8 c)))) st) 16 k buf f zero_cksum I) as (E & _).
  - intros i st Hi _. split; [| done]. unfold f. rewrite !load_slice, !bind_Ok by lia.
    rewrite take_take, skipn_firstn_comm, take_take, drop_drop. do 2 f_equal; repeat f_equal; lia.
  - rewrite E, (fletcher_2_fold (fun c => sw (word_of h (take 8 c))) (fun c => sw (word_of h (take 8 (drop 8 c))))). f_equal. unfold evens, odds.
    by rewrite <- !list_fmap_compose.
Qed.

Lemma evens_swap h k buf : (16 * k <= length buf)%nat -> Forall is_byte buf ->
  BSWAP_64 <$> evens h k buf = evens (other h) k buf /\ BSWAP_64 <$> odds h k buf = odds (other h) k buf.
Proof.
  intros Hl Hb. unfold evens, odds, chunks. rewrite <- !list_fmap_compose.
  split; apply list_fmap_ext; intros i x Hx; apply lookup_seq in Hx as (-> & Hx); simpl; apply (swaps_word _ _ _ _ swaps_64).
  - rewrite take_take. apply part_length. lia.
  - by do 2 apply Forall_take; apply Forall_drop.
  - rewrite skipn_firstn_comm, take_take, drop_drop. apply part_length. lia.
  - apply Forall_slice. by apply Forall_slice.
Qed.

Lemma fletcher_2_native_words h buf k : (16 * k <= length buf)%nat ->
  fletcher_2_native h buf (16 * Z.of_nat k) = Ok (fletcher_2_series (evens h k buf) (odds h k buf)).
Proof. intros Hl. unfold fletcher_2_native. by rewrite fletcher_2_loop_fold, !list_fmap_id. Qed.

Lemma fletcher_2_byteswap_words h buf k : (16 * k <= length buf)%nat -> Forall is_byte buf ->
  fletcher_2_byteswap h buf (16 * Z.of_nat k) = Ok (fletcher_2_series (evens (other h) k buf) (odds (other h) k buf)).
Proof. intros Hl Hb. unfold fletcher_2_byteswap. destruct (evens_swap h k buf Hl Hb) as (<- & <-). by apply fletcher_2_loop_fold. Qed.

Lemma series_2_u64 w0 w1 : cksum_u64 (fletcher_2_series w0 w1).
Proof. unfold cksum_u64, fletcher_2_series. simpl. auto using u64_range. Qed.

(** Buffers that differ in one or two words. *)
Lemma fletcher_4_differ h buf buf' k i j : Forall is_byte buf -> Forall is_byte buf' -> length buf = (4 * k)%nat -> Z.of_nat (length buf) <= 2 ^ 24 ->
  (i < k)%nat -> (j < k)%nat -> differ_within 4 i j buf buf' -> buf' <> buf ->
  words h 4 k buf' <> words h 4 k buf /\ (forall x, x <> i -> x <> j -> words h 4 k buf' !! x = words h 4 k buf !! x) /\
  fletcher_4_series (words h 4 k buf') <> fletcher_4_series (words h 4 k buf).
Proof.
  intros Hb Hb' Hl Hmax Hi Hj Hd Hne. pose proof Hd as (Hl' & _).
  assert (Hws : words h 4 k buf' <> words h 4 k buf) by (intros E; apply Hne; by apply (words_inj h 4 k); [| | | lia | lia |]).
  assert (Hs : forall x, x <> i -> x <> j -> words h 4 k buf' !! x = words h 4 k buf !! x) by (intros x Hx Hy; by apply (words_same h 4 k i j)).
  split; [done |]. split; [done |]. pose proof (words_range h 4 k buf Hb). pose proof (words_range h 4 k buf' Hb').
  apply (series_detects _ _ i j); rewrite ?words_length; try done; lia.
Qed.
