(* ===== verification/Sha256.v ===== *)
(** * SHA-256 (zfs/module/zfs/sha256.c) *)
From S2P Require Import Prelude Bytes Words Fletcher.
Local Open Scope Z_scope.

Definition u32 (x : Z) : Z := x mod 2 ^ 32.

Definition Ch (x y z : Z) : Z := Z.lxor z (Z.land x (Z.lxor y z)).
Definition Maj (x y z : Z) : Z := Z.lxor (Z.land x y) (Z.land z (Z.lxor x y)).
Definition Rot32 (x s : Z) : Z := Z.lor (Z.shiftr x s) (u32 (Z.shiftl x (32 - s))).
Definition SIGMA0 (x : Z) : Z := Z.lxor (Z.lxor (Rot32 x 2) (Rot32 x 13)) (Rot32 x 22).
Definition SIGMA1 (x : Z) : Z := Z.lxor (Z.lxor (Rot32 x 6) (Rot32 x 11)) (Rot32 x 25).
Definition sigma0 (x : Z) : Z := Z.lxor (Z.lxor (Rot32 x 7) (Rot32 x 18)) (Z.shiftr x 3).
Definition sigma1 (x : Z) : Z := Z.lxor (Z.lxor (Rot32 x 17) (Rot32 x 19)) (Z.shiftr x 10).

(** The sixteen rows of the table. *)
Definition SHA256_K : list Z := concat [
  [0x428a2f98; 0x71374491; 0xb5c0fbcf; 0xe9b5dba5];
  [0x3956c25b; 0x59f111f1; 0x923f82a4; 0xab1c5ed5];
  [0xd807aa98; 0x12835b01; 0x243185be; 0x550c7dc3];
  [0x72be5d74; 0x80deb1fe; 0x9bdc06a7; 0xc19bf174];
  [0xe49b69c1; 0xefbe4786; 0x0fc19dc6; 0x240ca1cc];
  [0x2de92c6f; 0x4a7484aa; 0x5cb0a9dc; 0x76f988da];
  [0x983e5152; 0xa831c66d; 0xb00327c8; 0xbf597fc7];
  [0xc6e00bf3; 0xd5a79147; 0x06ca6351; 0x14292967];
  [0x27b70a85; 0x2e1b2138; 0x4d2c6dfc; 0x53380d13];
  [0x650a7354; 0x766a0abb; 0x81c2c92e; 0x92722c85];
  [0xa2bfe8a1; 0xa81a664b; 0xc24b8b70; 0xc76c51a3];
  [0xd192e819; 0xd6990624; 0xf40e3585; 0x106aa070];
  [0x19a4c116; 0x1e376c08; 0x2748774c; 0x34b0bcb5];
  [0x391c0cb3; 0x4ed8aa4a; 0x5b9cca4f; 0x682e6ff3];
  [0x748f82ee; 0x78a5636f; 0x84c87814; 0x8cc70208];
  [0x90befffa; 0xa4506ceb; 0xbef9a3f7; 0xc67178f2] ].

(** The array [H], and the variables [a] to [h]. *)
Record sha_state : Type := MkSha { sa : Z; sb : Z; sc : Z; sd : Z; se : Z; sf : Z; sg : Z; sh : Z }.

(** [W[t]]: the array is filled in order, and holds what was stored so far. *)
Definition word_at (W : list Z) (t : Z) : result Z := byte_at W t.

(** [W[t] = (cp[0] << 24) | (cp[1] << 16) | (cp[2] << 8) | cp[3]] *)
Definition load_be32 (cp : list Z) (p : Z) : result Z :=
  b0 ← byte_at cp p ; b1 ← byte_at cp (p + 1) ; b2 ← byte_at cp (p + 2) ; b3 ← byte_at cp (p + 3) ;
  Ok (u32 (Z.lor (Z.lor (Z.lor (Z.shiftl b0 24) (Z.shiftl b1 16)) (Z.shiftl b2 8)) b3)).

Definition sha_round (K W : Z) (s : sha_state) : sha_state :=
  let T1 := u32 (sh s + SIGMA1 (se s) + Ch (se s) (sf s) (sg s) + K + W) in
  let T2 := u32 (SIGMA0 (sa s) + Maj (sa s) (sb s) (sc s)) in
  MkSha (u32 (T1 + T2)) (sa s) (sb s) (sc s) (u32 (sd s + T1)) (se s) (sf s) (sg s).

Definition SHA256Transform (H : sha_state) (buf : list Z) (cp : Z) : result sha_state :=
  W ← for_range 0 16 (fun t W => w ← load_be32 buf (cp + 4 * t) ; Ok (W ++ [w])) [] ;
  W ← for_range 16 64 (fun t W =>
    w2 ← word_at W (t - 2) ; w7 ← word_at W (t - 7) ; w15 ← word_at W (t - 15) ; w16 ← word_at W (t - 16) ;
    Ok (W ++ [u32 (sigma1 w2 + w7 + sigma0 w15 + w16)])) W ;
  s ← for_range 0 64 (fun t s => k ← word_at SHA256_K t ; w ← word_at W t ; Ok (sha_round k w s)) H ;
  Ok (MkSha (u32 (sa H + sa s)) (u32 (sb H + sb s)) (u32 (sc H + sc s)) (u32 (sd H + sd s))
            (u32 (se H + se s)) (u32 (sf H + sf s)) (u32 (sg H + sg s)) (u32 (sh H + sh s))).

Definition sha_init : sha_state :=
  MkSha 0x6a09e667 0xbb67ae85 0x3c6ef372 0xa54ff53a 0x510e527f 0x9b05688c 0x1f83d9ab 0x5be0cd19.

Definition INT_MAX : Z := 2 ^ 31 - 1.

(** [for (...; (padsize & 63) != 56; padsize++) pad[padsize] = 0] *)
Fixpoint pad_zeros (fuel : nat) (pad : list Z) : result (list Z) :=
  if Z.land (Z.of_nat (length pad)) 63 =? 56 then Ok pad else
  match fuel with
  | O => Panic
  | S n => pad ← put 128 pad 0 ; pad_zeros n pad
  end.

(** The counter [i] is an [int]: that it goes past [INT_MAX] is a panic. *)
Definition zio_checksum_SHA256 (buf : list Z) (size : Z) : result zio_cksum :=
  let full := Z.land size (u64 (Z.lnot 63)) in
  H ← for_range 0 (full / 64) (fun n H => VERIFY (64 * n + 64 <=? INT_MAX) ;; SHA256Transform H buf (64 * n)) sha_init ;
  pad ← for_range full size (fun i pad => VERIFY (i + 1 <=? INT_MAX) ;; b ← byte_at buf i ; put 128 pad b) [] ;
  pad ← put 128 pad 0x80 ;
  pad ← pad_zeros 64 pad ;
  pad ← for_range 0 8 (fun k pad => put 128 pad (Z.shiftr (u64_shl size 3) (56 - 8 * k))) pad ;
  H ← for_range 0 ((Z.of_nat (length pad) + 63) / 64) (fun n H => SHA256Transform H pad (64 * n)) H ;
  Ok (ZIO_SET_CHECKSUM (Z.lor (Z.shiftl (sa H) 32) (sb H)) (Z.lor (Z.shiftl (sc H) 32) (sd H))
                       (Z.lor (Z.shiftl (se H) 32) (sf H)) (Z.lor (Z.shiftl (sg H) 32) (sh H))).
