(* ===== verification/Sha256Spec.v ===== *)
(** * SHA-256 as FIPS 180 defines it

    The message is padded to blocks of 512 bits, and the blocks are folded
    into the state; and what the functions of sha256.c do in these terms. *)
From S2P Require Import Prelude Bytes Words Fletcher Sha256.
Local Open Scope Z_scope.

(** ** The standard *)
Definition ROTR (n x : Z) : Z := x / 2 ^ n + (x mod 2 ^ n) * 2 ^ (32 - n).
Definition SHR (n x : Z) : Z := x / 2 ^ n.
Definition fips_Ch (x y z : Z) : Z := Z.lxor (Z.land x y) (Z.land (Z.lnot x) z).
Definition fips_Maj (x y z : Z) : Z := Z.lxor (Z.lxor (Z.land x y) (Z.land x z)) (Z.land y z).
Definition xor3 (x y z : Z) : Z := Z.lxor (Z.lxor x y) z.
Definition fips_S0 (x : Z) : Z := xor3 (ROTR 2 x) (ROTR 13 x) (ROTR 22 x).
Definition fips_S1 (x : Z) : Z := xor3 (ROTR 6 x) (ROTR 11 x) (ROTR 25 x).
Definition fips_s0 (x : Z) : Z := xor3 (ROTR 7 x) (ROTR 18 x) (SHR 3 x).
Definition fips_s1 (x : Z) : Z := xor3 (ROTR 17 x) (ROTR 19 x) (SHR 10 x).

(** The word after [ws] in the message schedule. *)
Definition next_word (ws : list Z) : Z :=
  let t := length ws in
  u32 (fips_s1 (nth (t - 2) ws 0) + nth (t - 7) ws 0 + fips_s0 (nth (t - 15) ws 0) + nth (t - 16) ws 0).
Definition schedule (block : list Z) : list Z :=
  Nat.iter 48 (fun ws => ws ++ [next_word ws]) (words BIG 4 16 block).

Definition fips_round (s : sha_state) (kw : Z * Z) : sha_state :=
  let T1 := u32 (sh s + fips_S1 (se s) + fips_Ch (se s) (sf s) (sg s) + fst kw + snd kw) in
  let T2 := u32 (fips_S0 (sa s) + fips_Maj (sa s) (sb s) (sc s)) in
  MkSha (u32 (T1 + T2)) (sa s) (sb s) (sc s) (u32 (sd s + T1)) (se s) (sf s) (sg s).

Definition compress (H : sha_state) (block : list Z) : sha_state :=
  let s := fold_left fips_round (combine SHA256_K (schedule block)) H in
  MkSha (u32 (sa H + sa s)) (u32 (sb H + sb s)) (u32 (sc H + sc s)) (u32 (sd H + sd s))
        (u32 (se H + se s)) (u32 (sf H + sf s)) (u32 (sg H + sg s)) (u32 (sh H + sh s)).

(** A one, as few zeros as make the length a multiple of 64 bytes, and the
    length of the message in bits. *)
Definition pad_tail (len : nat) : list Z :=
  [128] ++ replicate ((119 - len mod 64) mod 64) 0 ++ bytes_of BIG 8 (8 * Z.of_nat len).
Definition pad_message (msg : list Z) : list Z := msg ++ pad_tail (length msg).

Definition digest (H : sha_state) : zio_cksum :=
  ZIO_SET_CHECKSUM (sa H * 2 ^ 32 + sb H) (sc H * 2 ^ 32 + sd H) (se H * 2 ^ 32 + sf H) (sg H * 2 ^ 32 + sh H).

Definition sha256 (msg : list Z) : zio_cksum :=
  let m := pad_message msg in digest (fold_left compress (chunks 64 (length m / 64) m) sha_init).

(** ** The functions on words *)
Lemma Ch_fips x y z : Ch x y z = fips_Ch x y z.
Proof.
  apply Z.bits_inj'. intros n Hn. unfold Ch, fips_Ch. rewrite !Z.lxor_spec, !Z.land_spec, Z.lxor_spec, Z.lnot_spec by done.
  by destruct (Z.testbit x n), (Z.testbit y n), (Z.testbit z n).
Qed.

Lemma Maj_fips x y z : Maj x y z = fips_Maj x y z.
Proof.
  apply Z.bits_inj'. intros n Hn. unfold Maj, fips_Maj. rewrite !Z.lxor_spec, !Z.land_spec, Z.lxor_spec.
  by destruct (Z.testbit x n), (Z.testbit y n), (Z.testbit z n).
Qed.

Definition in32 (x : Z) : Prop := 0 <= x < 2 ^ 32.

Lemma u32_in x : in32 (u32 x).
Proof. by apply Z.mod_pos_bound. Qed.

Lemma Rot32_ROTR x s : in32 x -> 0 < s < 32 -> Rot32 x s = ROTR s x.
Proof.
  unfold in32, Rot32, ROTR. intros Hx Hs. rewrite Z.shiftr_div_pow2, Z.shiftl_mul_pow2 by lia. unfold u32.
  assert (E : 2 ^ 32 = 2 ^ s * 2 ^ (32 - s)) by (rewrite <- Z.pow_add_r by lia; f_equal; lia).
  assert (0 < 2 ^ s) by (apply Z.pow_pos_nonneg; lia). assert (0 < 2 ^ (32 - s)) by (apply Z.pow_pos_nonneg; lia).
  rewrite E, Z.mul_mod_distr_r by lia. rewrite Z.lor_comm, lor_fields; [lia | lia |].
  split; [apply Z.div_pos; lia | apply Z.div_lt_upper_bound; [lia |]]. rewrite <- E. lia.
Qed.

Lemma SIGMA0_fips x : in32 x -> SIGMA0 x = fips_S0 x.
Proof. intros Hx. unfold SIGMA0, fips_S0. by rewrite !Rot32_ROTR. Qed.

Lemma SIGMA1_fips x : in32 x -> SIGMA1 x = fips_S1 x.
Proof. intros Hx. unfold SIGMA1, fips_S1. by rewrite !Rot32_ROTR. Qed.

Lemma sigma0_fips x : in32 x -> sigma0 x = fips_s0 x.
Proof. intros Hx. unfold sigma0, fips_s0, SHR. by rewrite !Rot32_ROTR, Z.shiftr_div_pow2. Qed.

Lemma sigma1_fips x : in32 x -> sigma1 x = fips_s1 x.
Proof. intros Hx. unfold sigma1, fips_s1, SHR. by rewrite !Rot32_ROTR, Z.shiftr_div_pow2. Qed.

(** ** The transformation *)
Definition st32 (s : sha_state) : Prop :=
  in32 (sa s) /\ in32 (sb s) /\ in32 (sc s) /\ in32 (sd s) /\ in32 (se s) /\ in32 (sf s) /\ in32 (sg s) /\ in32 (sh s).

Lemma round_fips s k w : st32 s -> sha_round k w s = fips_round s (k, w) /\ st32 (fips_round s (k, w)).
Proof.
  intros (Ha & Hb & Hc & Hd & He & Hf & Hg & Hh). unfold sha_round, fips_round. simpl. rewrite SIGMA1_fips, SIGMA0_fips, Ch_fips, Maj_fips by done.
  split; [done |]. unfold st32. simpl. split_and!; auto using u32_in.
Qed.

Lemma byte_at_slice buf p i : 0 <= p -> 0 <= i < 64 -> p + 64 <= Z.of_nat (length buf) ->
  byte_at buf (p + i) = Ok (nth (Z.to_nat i) (take 64 (drop (Z.to_nat p) buf)) 0).
Proof.
  intros Hp Hi Hl. unfold byte_at. rewrite (proj2 (Z.leb_le _ _)) by lia. rewrite nth_lookup, lookup_take_lt, lookup_drop by lia.
  replace (Z.to_nat (p + i)) with (Z.to_nat p + Z.to_nat i)%nat by lia.
  destruct (lookup_lt_is_Some_2 buf (Z.to_nat p + Z.to_nat i)) as (b & ->); [lia | done].
Qed.

Lemma word_at_nth W t : 0 <= t < Z.of_nat (length W) -> word_at W t = Ok (nth (Z.to_nat t) W 0).
Proof.
  intros Ht. unfold word_at, byte_at. rewrite (proj2 (Z.leb_le _ _)) by lia. rewrite nth_lookup.
  destruct (lookup_lt_is_Some_2 W (Z.to_nat t)) as (b & ->); [lia | done].
Qed.

Lemma nth_in32 W i : Forall in32 W -> in32 (nth i W 0).
Proof.
  intros HW. rewrite nth_lookup. destruct (W !! i) as [w |] eqn:E; [by eapply Forall_lookup_1 | done].
Qed.

Lemma be_bytes b0 b1 b2 b3 : is_byte b0 -> is_byte b1 -> is_byte b2 -> is_byte b3 ->
  u32 (Z.lor (Z.lor (Z.lor (Z.shiftl b0 24) (Z.shiftl b1 16)) (Z.shiftl b2 8)) b3) = word_of BIG [b0; b1; b2; b3].
Proof.
  unfold is_byte. intros H0 H1 H2 H3. rewrite !Z.shiftl_mul_pow2 by done.
  rewrite lor_fields by lia. replace (b0 * 2 ^ 24 + b1 * 2 ^ 16) with ((b0 * 2 ^ 8 + b1) * 2 ^ 16) by lia.
  rewrite lor_fields by lia. replace ((b0 * 2 ^ 8 + b1) * 2 ^ 16 + b2 * 2 ^ 8) with ((b0 * 2 ^ 16 + b1 * 2 ^ 8 + b2) * 2 ^ 8) by lia.
  rewrite lor_fields by lia. unfold u32. rewrite Z.mod_small by lia. cbn. lia.
Qed.

Lemma take_drop_4 (l : list Z) i : (i + 4 <= length l)%nat -> take 4 (drop i l) = [nth i l 0; nth (i + 1) l 0; nth (i + 2) l 0; nth (i + 3) l 0].
Proof.
  intros Hl. apply list_eq. intros [| [| [| [| j]]]]; [| | | | by rewrite lookup_take_ge by lia];
    rewrite lookup_take_lt, lookup_drop by lia; simpl; rewrite nth_lookup;
    match goal with |- l !! ?k = Some _ => destruct (lookup_lt_is_Some_2 l k) as (b & Eb); [lia |] end;
    rewrite ?Nat.add_0_r in *; by rewrite Eb.
Qed.

Lemma load_be32_word buf p t : 0 <= p -> 0 <= t < 16 -> p + 64 <= Z.of_nat (length buf) -> Forall is_byte buf ->
  load_be32 buf (p + 4 * t) = Ok (word_of BIG (take 4 (drop (4 * Z.to_nat t) (take 64 (drop (Z.to_nat p) buf))))).
Proof.
  intros Hp Ht Hl Hb. unfold load_be32. rewrite <- !Z.add_assoc, !byte_at_slice, !bind_Ok by lia.
  pose proof (Forall_slice _ 64 (Z.to_nat p) _ Hb) as Hb'. assert (Hn : forall i, is_byte (nth i (take 64 (drop (Z.to_nat p) buf)) 0)).
  { intros i. rewrite nth_lookup. destruct (_ !! i) as [b |] eqn:E; [by eapply Forall_lookup_1 | done]. }
  rewrite be_bytes by done. rewrite take_drop_4 by (rewrite part_length; lia).
  replace (Z.to_nat (4 * t)) with (4 * Z.to_nat t)%nat by lia. replace (Z.to_nat (4 * t + 1)) with (4 * Z.to_nat t + 1)%nat by lia.
  replace (Z.to_nat (4 * t + 2)) with (4 * Z.to_nat t + 2)%nat by lia. by replace (Z.to_nat (4 * t + 3)) with (4 * Z.to_nat t + 3)%nat by lia.
Qed.

Lemma first_words buf p : 0 <= p -> p + 64 <= Z.of_nat (length buf) -> Forall is_byte buf ->
  for_range 0 16 (fun t W => w ← load_be32 buf (p + 4 * t) ; Ok (W ++ [w])) [] = Ok (words BIG 4 16 (take 64 (drop (Z.to_nat p) buf))).
Proof.
  intros Hp Hl Hb. set (block := take 64 (drop (Z.to_nat p) buf)).
  assert (H : runs (for_range 0 16 (fun t W => w ← load_be32 buf (p + 4 * t) ; Ok (W ++ [w])) []) (fun W => W = words BIG 4 (Z.to_nat 16) block)).
  { apply (for_range_inv 0 16 _ _ (fun t W => W = words BIG 4 (Z.to_nat t) block)); [lia | done |]. intros t W Ht ->.
    rewrite load_be32_word by done. fold block. simpl. unfold words. by rewrite Z2Nat.inj_add, Nat.add_1_r, chunks_S, fmap_app by lia. }
  apply runs_Ok in H as (W & -> & ->). done.
Qed.

Lemma schedule_loop W0 : length W0 = 16%nat -> Forall in32 W0 ->
  for_range 16 64 (fun t W =>
    w2 ← word_at W (t - 2) ; w7 ← word_at W (t - 7) ; w15 ← word_at W (t - 15) ; w16 ← word_at W (t - 16) ;
    Ok (W ++ [u32 (sigma1 w2 + w7 + sigma0 w15 + w16)])) W0 = Ok (Nat.iter 48 (fun ws => ws ++ [next_word ws]) W0) /\
  length (Nat.iter 48 (fun ws => ws ++ [next_word ws]) W0) = 64%nat.
Proof.
  intros Hl HW. match goal with |- for_range _ _ ?body _ = _ /\ _ => set (f := body) end.
  assert (H : runs (for_range 16 64 f W0) (fun W => W = Nat.iter (Z.to_nat (64 - 16)) (fun ws => ws ++ [next_word ws]) W0 /\ length W = Z.to_nat 64 /\ Forall in32 W)).
  { apply (for_range_inv 16 64 f _ (fun t W => W = Nat.iter (Z.to_nat (t - 16)) (fun ws => ws ++ [next_word ws]) W0 /\ length W = Z.to_nat t /\ Forall in32 W)); [lia | done |].
    intros t W Ht (E & Hlen & Hin). unfold f. rewrite !word_at_nth, !bind_Ok by lia. rewrite sigma1_fips, sigma0_fips by (by apply nth_in32).
    simpl. split; [| split; [rewrite length_app; simpl; lia | apply Forall_app; split; [done | apply Forall_singleton, u32_in]]].
    replace (Z.to_nat (t + 1 - 16)) with (S (Z.to_nat (t - 16))) by lia. rewrite Nat.iter_succ, <- E. f_equal. unfold next_word. rewrite Hlen.
    replace (Z.to_nat (t - 2)) with (Z.to_nat t - 2)%nat by lia. replace (Z.to_nat (t - 7)) with (Z.to_nat t - 7)%nat by lia.
    replace (Z.to_nat (t - 15)) with (Z.to_nat t - 15)%nat by lia. by replace (Z.to_nat (t - 16)) with (Z.to_nat t - 16)%nat by lia. }
  apply runs_Ok in H as (W & -> & -> & Hlen & _). done.
Qed.

Lemma combine_take_S {A B} (l : list A) (k : list B) n a b : l !! n = Some a -> k !! n = Some b ->
  combine (take (S n) l) (take (S n) k) = combine (take n l) (take n k) ++ [(a, b)].
Proof.
  revert k n. induction l as [| x l IH]; intros [| y k] [| n] Ha Hb; try done; simpl in *; [by simplify_eq |]. f_equal. by apply IH.
Qed.

Lemma rounds_loop W H : length W = 64%nat -> st32 H ->
  for_range 0 64 (fun t s => k ← word_at SHA256_K t ; w ← word_at W t ; Ok (sha_round k w s)) H = Ok (fold_left fips_round (combine SHA256_K W) H).
Proof.
  intros Hl HH. assert (HK : length SHA256_K = 64%nat) by done.
  match goal with |- for_range _ _ ?body _ = _ => set (f := body) end.
  assert (R : runs (for_range 0 64 f H) (fun s => s = fold_left fips_round (combine (take (Z.to_nat 64) SHA256_K) (take (Z.to_nat 64) W)) H /\ st32 s)).
  { apply (for_range_inv 0 64 f _ (fun t s => s = fold_left fips_round (combine (take (Z.to_nat t) SHA256_K) (take (Z.to_nat t) W)) H /\ st32 s)); [lia | done |].
    intros t s Ht (E & Hs). unfold f. rewrite !word_at_nth, !bind_Ok by lia. destruct (round_fips s (nth (Z.to_nat t) SHA256_K 0) (nth (Z.to_nat t) W 0) Hs) as (-> & Hs').
    simpl. split; [| done]. rewrite Z2Nat.inj_add, Nat.add_1_r by lia.
    rewrite (combine_take_S _ _ _ (nth (Z.to_nat t) SHA256_K 0) (nth (Z.to_nat t) W 0)), fold_left_app, <- E; [done | |];
      by rewrite nth_lookup; match goal with |- ?l !! ?k = _ => destruct (lookup_lt_is_Some_2 l k) as (b & ->); [lia |] end. }
  apply runs_Ok in R as (s & -> & -> & _). do 2 f_equal. rewrite !firstn_all2 by lia. done.
Qed.

Lemma schedule_spec block : Forall is_byte block ->
  for_range 16 64 (fun t W =>
    w2 ← word_at W (t - 2) ; w7 ← word_at W (t - 7) ; w15 ← word_at W (t - 15) ; w16 ← word_at W (t - 16) ;
    Ok (W ++ [u32 (sigma1 w2 + w7 + sigma0 w15 + w16)])) (words BIG 4 16 block) = Ok (schedule block) /\ length (schedule block) = 64%nat.
Proof. intros Hb. apply (schedule_loop (words BIG 4 16 block)); [apply words_length | by apply (words_range BIG 4 16)]. Qed.

#[local] Opaque schedule.

Lemma compress_st32 H block : st32 (compress H block).
Proof.
  unfold compress. generalize (fold_left fips_round (combine SHA256_K (schedule block)) H). intros s.
  unfold st32. cbn [sa sb sc sd se sf sg sh]. split_and!; apply u32_in.
Qed.

Lemma transform_spec H buf p : st32 H -> 0 <= p -> p + 64 <= Z.of_nat (length buf) -> Forall is_byte buf ->
  SHA256Transform H buf p = Ok (compress H (take 64 (drop (Z.to_nat p) buf))) /\ st32 (compress H (take 64 (drop (Z.to_nat p) buf))).
Proof.
  intros HH Hp Hl Hb. set (block := take 64 (drop (Z.to_nat p) buf)). split.
  - unfold SHA256Transform. rewrite first_words, bind_Ok by done. fold block.
    destruct (schedule_spec block) as (E & Hlen); [by apply Forall_slice |]. rewrite E, bind_Ok, (rounds_loop _ H Hlen HH), bind_Ok. unfold compress. reflexivity.
  - apply compress_st32.
Qed.

(** ** The padding *)
Lemma pad_zeros_spec k fuel pad : (k <= fuel)%nat -> (length pad + k <= 128)%nat -> ((length pad + k) mod 64 = 56)%nat ->
  (forall j, (j < k)%nat -> ((length pad + j) mod 64 <> 56)%nat) -> pad_zeros fuel pad = Ok (pad ++ replicate k 0).
Proof.
  assert (Hland : forall n, Z.land (Z.of_nat n) 63 = Z.of_nat (n mod 64)).
  { intros n. change 63 with (Z.ones 6). rewrite Z.land_ones by done. by rewrite Nat2Z.inj_mod. }
  revert fuel pad. induction k as [| k IH]; intros fuel pad Hf Hl Hm Hne.
  - rewrite Nat.add_0_r in Hm. destruct fuel; simpl; rewrite Hland, Hm, app_nil_r; done.
  - destruct fuel as [| fuel]; [lia |]. specialize (Hne O ltac:(lia)) as H0. rewrite Nat.add_0_r in H0. cbn [pad_zeros].
    rewrite Hland, (proj2 (Z.eqb_neq _ _)) by lia. rewrite put_Ok, bind_Ok by (lia || done).
    rewrite IH; [by rewrite <- app_assoc | lia | rewrite length_app; simpl; lia | rewrite length_app; simpl; by replace (length pad + 1 + k)%nat with (length pad + S k)%nat by lia |].
    intros j Hj. rewrite length_app. simpl. replace (length pad + 1 + j)%nat with (length pad + S j)%nat by lia. apply Hne. lia.
Qed.

Lemma be64_loop pad size : 0 <= size < 2 ^ 61 -> (length pad + 8 <= 128)%nat ->
  for_range 0 8 (fun k pad => put 128 pad (Z.shiftr (u64_shl size 3) (56 - 8 * k))) pad = Ok (pad ++ bytes_of BIG 8 (8 * size)).
Proof.
  intros Hs Hl. assert (E : u64_shl size 3 = 8 * size). { unfold u64_shl. rewrite Z.shiftl_mul_pow2, u64_small by (done || unfold is_u64, W64; lia). lia. }
  rewrite E. assert (Hput : forall dst b, (length dst < 128)%nat -> put 128 dst b = Ok (dst ++ [uchar b])).
  { intros dst b Hd. unfold put. by rewrite VERIFY_pass by lia. }
  unfold for_range. cbn [Z.to_nat Z.sub Pos.to_nat Pos.iter_op Z.pos_sub Z.opp Z.add for_loop].
  change (Z.to_nat (8 - 0)) with 8%nat. cbn [for_loop].
  repeat (rewrite Hput, bind_Ok by (rewrite ?length_app; simpl; lia)). f_equal. rewrite <- !app_assoc. f_equal.
  unfold bytes_of, uchar. cbn [le_bytes reverse rev_append app]. rewrite !Z.shiftr_div_pow2 by lia. rewrite !Z.div_div by lia.
  change (2 ^ (56 - 8 * (0 + 1 + 1 + 1 + 1 + 1 + 1 + 1))) with 1. by rewrite Z.div_1_r.
Qed.

Lemma copy_tail buf full size : 0 <= full -> full <= size -> size - full < 64 -> size <= Z.of_nat (length buf) -> size <= INT_MAX -> Forall is_byte buf ->
  for_range full size (fun i pad => VERIFY (i + 1 <=? INT_MAX) ;; b ← byte_at buf i ; put 128 pad b) [] =
    Ok (drop (Z.to_nat full) (take (Z.to_nat size) buf)).
Proof.
  intros Hf Hs Hd Hl Hm Hb. match goal with |- for_range _ _ ?body _ = _ => set (f := body) end.
  assert (H : runs (for_range full size f []) (fun pad => pad = drop (Z.to_nat full) (take (Z.to_nat size) buf))).
  { apply (for_range_inv full size f _ (fun i pad => pad = drop (Z.to_nat full) (take (Z.to_nat i) buf))); [lia | |].
    - by rewrite drop_ge by (rewrite length_take; lia).
    - intros i pad Hi ->. unfold f. rewrite VERIFY_pass by lia. destruct (lookup_lt_is_Some_2 buf (Z.to_nat i)) as (b & Eb); [lia |].
      unfold byte_at. rewrite (proj2 (Z.leb_le _ _)) by lia. rewrite Eb. cbn [deref]. rewrite bind_Ok, put_Ok;
        [| rewrite length_drop, length_take; lia | by eapply Forall_lookup_1].
      simpl. rewrite Z2Nat.inj_add, Nat.add_1_r, (take_S_r _ _ _ Eb), drop_app_le by (lia || rewrite length_take; lia). done. }
  by apply runs_Ok in H as (pad & -> & ->).
Qed.

Lemma pad_mod len : let k := ((119 - len mod 64) mod 64)%nat in
  ((len mod 64 + 1 + k) mod 64 = 56)%nat /\ forall j, (j < k)%nat -> ((len mod 64 + 1 + j) mod 64 <> 56)%nat.
Proof.
  pose proof (Nat.mod_upper_bound len 64 ltac:(done)). set (r := (len mod 64)%nat) in *. cbv zeta.
  split; [| intros j]; destruct (decide (r < 56)%nat).
  - replace (119 - r)%nat with (55 - r + 1 * 64)%nat by lia. rewrite Nat.Div0.mod_add, (Nat.mod_small (55 - r) 64) by lia. by replace (r + 1 + (55 - r))%nat with 56%nat by lia.
  - rewrite (Nat.mod_small (119 - r)) by lia. by replace (r + 1 + (119 - r))%nat with 120%nat by lia.
  - replace (119 - r)%nat with (55 - r + 1 * 64)%nat by lia. rewrite Nat.Div0.mod_add, (Nat.mod_small (55 - r)) by lia. intros Hj. rewrite Nat.mod_small; lia.
  - rewrite (Nat.mod_small (119 - r)) by lia. intros Hj. destruct (decide (r + 1 + j < 64)%nat); [rewrite Nat.mod_small; lia |].
    replace (r + 1 + j)%nat with (r + 1 + j - 64 + 1 * 64)%nat by lia. rewrite Nat.Div0.mod_add, Nat.mod_small by lia. lia.
Qed.

(** The bytes the code collects in [pad]. *)
Lemma pad_spec size tl : length tl = (size mod 64)%nat -> Z.of_nat size <= INT_MAX -> Forall is_byte tl ->
  (pad ← put 128 tl 0x80 ; pad ← pad_zeros 64 pad ;
   for_range 0 8 (fun k pad => put 128 pad (Z.shiftr (u64_shl (Z.of_nat size) 3) (56 - 8 * k))) pad) = Ok (tl ++ pad_tail size) /\
  exists n, length (tl ++ pad_tail size) = (64 * n)%nat.
Proof.
  intros Hl Hm Hb. pose proof (pad_mod size) as (Hk & Hne). set (k := ((119 - size mod 64) mod 64)%nat) in *.
  pose proof (Nat.mod_upper_bound size 64 ltac:(done)). pose proof (Nat.mod_upper_bound (119 - size mod 64) 64 ltac:(done)) as Hk64. fold k in Hk64.
  pose proof (Nat.div_mod (size mod 64 + 1 + k) 64 ltac:(done)) as E. rewrite Hk in E.
  assert (Hlen : length (tl ++ pad_tail size) = (size mod 64 + 1 + k + 8)%nat).
  { unfold pad_tail. rewrite !length_app, length_replicate, bytes_of_length, Hl. fold k. simpl. lia. }
  split.
  - rewrite put_Ok, bind_Ok by (lia || done).
    rewrite (pad_zeros_spec k), bind_Ok; [| lia | rewrite length_app; simpl; lia | rewrite length_app, Hl; simpl; done | intros j Hj; rewrite length_app, Hl; simpl; by apply Hne].
    rewrite be64_loop; [by rewrite <- !app_assoc | unfold INT_MAX in Hm; lia | rewrite !length_app, length_replicate, Hl; cbn [length]; lia].
  - exists ((size mod 64 + 1 + k + 8) / 64)%nat. rewrite Hlen.
    rewrite E. replace (64 * ((size mod 64 + 1 + k) / 64) + 56 + 8)%nat with ((((size mod 64 + 1 + k) / 64) + 1) * 64)%nat by lia.
    rewrite Nat.div_mul by done. lia.
Qed.

Lemma digest_lor H : st32 H ->
  ZIO_SET_CHECKSUM (Z.lor (Z.shiftl (sa H) 32) (sb H)) (Z.lor (Z.shiftl (sc H) 32) (sd H))
                   (Z.lor (Z.shiftl (se H) 32) (sf H)) (Z.lor (Z.shiftl (sg H) 32) (sh H)) = digest H.
Proof.
  unfold st32, in32. intros HH. rewrite !Z.shiftl_mul_pow2 by done. unfold digest. f_equal; apply lor_fields; lia.
Qed.

Lemma fold_transform k n buf H (body : Z -> sha_state -> result sha_state) : st32 H -> Forall is_byte buf -> (64 * k <= length buf)%nat ->
  n = Z.of_nat k -> (forall i H, (i < k)%nat -> body (Z.of_nat i) H = SHA256Transform H buf (64 * Z.of_nat i)) ->
  for_range 0 n body H = Ok (fold_left compress (chunks 64 k buf) H) /\ st32 (fold_left compress (chunks 64 k buf) H).
Proof.
  intros HH Hb Hl -> Hbody. apply for_chunks; [done |]. intros i s Hi Hs. rewrite Hbody by done.
  destruct (transform_spec s buf (64 * Z.of_nat i) Hs ltac:(lia) ltac:(lia) Hb) as (E & Hs'). replace (Z.to_nat (64 * Z.of_nat i)) with (64 * i)%nat in * by lia. done.
Qed.

Lemma land_full size : 0 <= size < W64 -> Z.land size (u64 (Z.lnot 63)) = 64 * (size / 64).
Proof.
  intros Hs. assert (E : Z.land size (u64 (Z.lnot 63)) = Z.ldiff size (Z.ones 6)).
  { apply Z.bits_inj'. intros n Hn. rewrite Z.land_spec, Z.ldiff_spec. destruct (Z.ltb_spec n 64).
    - change (u64 (Z.lnot 63)) with (Z.lnot 63 mod 2 ^ 64). rewrite Z.mod_pow2_bits_low, Z.lnot_spec by lia. done.
    - rewrite (Z.bits_above_log2 size); [done | lia |]. destruct (Z.eq_dec size 0) as [-> |]; [simpl; lia |].
      apply Z.log2_lt_pow2; [lia |]. apply Z.lt_le_trans with (2 ^ 64); [apply Hs | apply Z.pow_le_mono_r; lia]. }
  rewrite E, Z.ldiff_ones_r, Z.shiftr_div_pow2, Z.shiftl_mul_pow2 by lia. change (2 ^ 6) with 64. lia.
Qed.

(** ** The whole function *)
Lemma pad_message_cut msg : pad_message msg = take (64 * (length msg / 64)) msg ++ (drop (64 * (length msg / 64)) msg ++ pad_tail (length msg)).
Proof. unfold pad_message. by rewrite app_assoc, take_drop. Qed.

Lemma pad_tail_byte len : Forall is_byte (pad_tail len).
Proof.
  unfold pad_tail. rewrite !Forall_app. split; [by apply Forall_singleton |]. split; [| apply bytes_of_byte]. by apply Forall_replicate.
Qed.

Lemma chunks_take n k buf m : (n * k <= m)%nat -> (m <= length buf)%nat -> chunks n k (take m buf) = chunks n k buf.
Proof.
  intros Hk Hm. unfold chunks. apply list_fmap_ext. intros i x Hx. apply lookup_seq in Hx as (-> & Hx). rewrite skipn_firstn_comm, take_take. f_equal. nia.
Qed.

(** The function depends on the first [n] bytes of the buffer only. *)
Lemma sha256_prefix buf n : (n <= length buf)%nat -> Z.of_nat n <= INT_MAX -> Forall is_byte buf ->
  zio_checksum_SHA256 buf (Z.of_nat n) = Ok (sha256 (take n buf)).
Proof.
  intros Hn Hm Hb. set (q := (n / 64)%nat). pose proof (Nat.div_mod n 64 ltac:(done)) as En. fold q in En.
  pose proof (Nat.mod_upper_bound n 64 ltac:(done)) as Hr. assert (Eq : Z.of_nat n / 64 = Z.of_nat q) by (unfold q; by rewrite Nat2Z.inj_div).
  unfold zio_checksum_SHA256. unfold INT_MAX in Hm. rewrite land_full by (unfold W64; lia). rewrite Eq.
  destruct (fold_transform q (64 * Z.of_nat q / 64) buf sha_init (fun n H => VERIFY (64 * n + 64 <=? INT_MAX) ;; SHA256Transform H buf (64 * n)) ltac:(done) Hb ltac:(lia)) as (E1 & HH).
  { rewrite Z.mul_comm, Z.div_mul; done. }
  { intros i H Hi. rewrite VERIFY_pass; [done |]. unfold INT_MAX. lia. }
  rewrite E1, bind_Ok, copy_tail, bind_Ok by (unfold INT_MAX; done || lia).
  set (msg := take n buf) in *. assert (Hlm : length msg = n) by (unfold msg; rewrite length_take; lia).
  rewrite Nat2Z.id. fold msg. replace (Z.to_nat (64 * Z.of_nat q)) with (64 * q)%nat by lia.
  assert (Hbm : Forall is_byte msg) by (by apply Forall_take).
  destruct (pad_spec n (drop (64 * q) msg)) as (E2 & k & Hk); [rewrite length_drop; lia | done | by apply Forall_drop |].
  set (pad := drop (64 * q) msg ++ pad_tail n) in *.
  assert (Hpad : Forall is_byte pad) by (apply Forall_app; split; [by apply Forall_drop | apply pad_tail_byte]).
  apply bind_Ok_inv in E2 as (p1 & E2a & E2). apply bind_Ok_inv in E2 as (p2 & E2b & E2). rewrite E2a, bind_Ok, E2b, bind_Ok, E2, bind_Ok, Hk.
  destruct (fold_transform k ((Z.of_nat (64 * k) + 63) / 64) pad (fold_left compress (chunks 64 q buf) sha_init) (fun n H => SHA256Transform H pad (64 * n)) HH Hpad ltac:(lia)) as (E3 & HH3).
  { replace (Z.of_nat (64 * k) + 63) with (63 + Z.of_nat k * 64) by lia. rewrite Z.div_add by done. done. }
  { done. }
  rewrite E3, bind_Ok, digest_lor by done. f_equal. unfold sha256. cbv zeta. rewrite pad_message_cut, Hlm. fold q pad.
  assert (Hq : length (take (64 * q) msg) = (64 * q)%nat) by (rewrite length_take; lia).
  rewrite length_app, Hq, Hk, <- Nat.mul_add_distr_l, (Nat.mul_comm 64 (q + k)), Nat.div_mul by done.
  rewrite chunks_app, fold_left_app by done. unfold msg. by rewrite take_take, Nat.min_l, chunks_take by lia.
Qed.

Lemma digest_range H : st32 H -> let c := digest H in is_u64 (zc_word0 c) /\ is_u64 (zc_word1 c) /\ is_u64 (zc_word2 c) /\ is_u64 (zc_word3 c).
Proof. unfold st32, in32, is_u64, W64. intros HH. unfold digest. cbn [zc_word0 zc_word1 zc_word2 zc_word3]. lia. Qed.

Lemma sha256_range msg : let c := sha256 msg in is_u64 (zc_word0 c) /\ is_u64 (zc_word1 c) /\ is_u64 (zc_word2 c) /\ is_u64 (zc_word3 c).
Proof.
  apply digest_range. generalize (chunks 64 (length (pad_message msg) / 64) (pad_message msg)). intros l. assert (Hi : st32 sha_init) by done.
  revert Hi. generalize sha_init. induction l as [| b l IH]; intros s Hs; [done |]. apply IH, compress_st32.
Qed.
