(* ===== verification/FletcherThms.v ===== *)
(** * What the checksum functions compute

    The Fletcher sums are the series of the comment in zfs_fletcher.c, on
    either byte order, and show damage of one or two words; the SHA-256
    function is the one of the standard. *)
From S2P Require Import Prelude Bytes Words Fletcher FletcherSpec Sha256 Sha256Spec.
Local Open Scope Z_scope.

(** ** The sums *)
(** On a buffer of whole words the fourth-order functions return the four
    series with the coefficients 1, [i], [i (i + 1) / 2] and
    [i (i + 1) (i + 2) / 6] modulo [2 ^ 64]; the byte-swapping one returns what
    the native one returns on a machine of the other byte order; the
    incremental ones, started from the checksum of a first part, return that of
    the whole; up to 128K the first two sums do not overflow. The second-order
    functions return the first two series of the even and of the odd words. *)
Theorem fletcher_sums h b1 b2 k1 k2 : Forall is_byte b1 -> Forall is_byte b2 -> length b1 = (4 * k1)%nat -> length b2 = (4 * k2)%nat ->
  let ws := words h 4 (k1 + k2) (b1 ++ b2) in
  let size := 4 * Z.of_nat (k1 + k2) in
  fletcher_4_native h (b1 ++ b2) size = Ok (fletcher_4_series ws) /\
  fletcher_4_byteswap (other h) (b1 ++ b2) size = Ok (fletcher_4_series ws) /\
  (z1 ← fletcher_4_native h b1 (4 * Z.of_nat k1) ; fletcher_4_incremental_native h b2 (4 * Z.of_nat k2) z1) = Ok (fletcher_4_series ws) /\
  (z1 ← fletcher_4_byteswap (other h) b1 (4 * Z.of_nat k1) ; fletcher_4_incremental_byteswap (other h) b2 (4 * Z.of_nat k2) z1) = Ok (fletcher_4_series ws) /\
  (size <= 2 ^ 17 -> u64 (sum c1 ws) = sum c1 ws /\ u64 (sum c2 ws) = sum c2 ws) /\
  forall k, (k1 + k2 = 4 * k)%nat ->
    fletcher_2_native h (b1 ++ b2) size = Ok (fletcher_2_series (evens h k (b1 ++ b2)) (odds h k (b1 ++ b2))) /\
    fletcher_2_byteswap (other h) (b1 ++ b2) size = Ok (fletcher_2_series (evens h k (b1 ++ b2)) (odds h k (b1 ++ b2))).
Proof.
  intros Hb1 Hb2 H1 H2 ws size. assert (Hb : Forall is_byte (b1 ++ b2)) by (by apply Forall_app).
  assert (Hl : length (b1 ++ b2) = (4 * (k1 + k2))%nat) by (rewrite length_app; lia). split_and!.
  - apply fletcher_4_native_words. lia.
  - unfold size. by rewrite fletcher_4_byteswap_words, other_other by (done || lia).
  - rewrite fletcher_4_native_words by lia. apply fletcher_4_incremental; [done | lia].
  - rewrite fletcher_4_byteswap_words, bind_Ok by (done || lia). rewrite fletcher_4_incremental_swap by (done || lia). by rewrite other_other.
  - intros Hs. apply sums_exact; [unfold ws; rewrite words_length; lia |]. by apply (words_range h 4).
  - intros k Hk. replace size with (16 * Z.of_nat k) by lia.
    split; [apply fletcher_2_native_words; lia |]. rewrite fletcher_2_byteswap_words by (done || lia). by rewrite other_other.
Qed.

(** ** Damage *)
(** C28: take a buffer of at most 16M and another that differs from it in one or
    two words of 32 bits. Their fourth-order checksums differ; and if it is
    one word, they differ in each of their four sums. *)
Theorem fletcher_4_detects h buf buf' k i j : Forall is_byte buf -> Forall is_byte buf' -> length buf = (4 * k)%nat -> Z.of_nat (length buf) <= 2 ^ 24 ->
  (i < k)%nat -> (j < k)%nat -> differ_within 4 i j buf buf' -> buf' <> buf ->
  exists c c', fletcher_4_native h buf (4 * Z.of_nat k) = Ok c /\ fletcher_4_native h buf' (4 * Z.of_nat k) = Ok c' /\ c <> c' /\
    (i = j -> zc_word0 c <> zc_word0 c' /\ zc_word1 c <> zc_word1 c' /\ zc_word2 c <> zc_word2 c' /\ zc_word3 c <> zc_word3 c').
Proof.
  intros Hb Hb' Hl Hmax Hi Hj Hd Hne. pose proof Hd as (Hl' & _). rewrite !fletcher_4_native_words by lia.
  pose proof (words_range h 4 k buf Hb) as Hw. pose proof (words_range h 4 k buf' Hb') as Hw'.
  destruct (fletcher_4_differ h buf buf' k i j Hb Hb' Hl Hmax Hi Hj Hd Hne) as (Hws & Hs & Hser).
  eexists _, _. split; [done |]. split; [done |]. split; [by apply not_eq_sym |].
  intros <-. destruct (lookup_lt_is_Some_2 (words h 4 k buf) i) as (f & Ef); [by rewrite words_length |].
    destruct (lookup_lt_is_Some_2 (words h 4 k buf') i) as (f' & Ef'); [by rewrite words_length |].
    pose proof (list_two_inserts (words h 4 k buf) (words h 4 k buf') i i f' f' ltac:(by rewrite !words_length) Ef' Ef' Hs) as E. rewrite list_insert_insert_eq in E.
    assert (f <> f') by (intros <-; by rewrite E, list_insert_id in Hws). rewrite E. unfold fletcher_4_series. cbn [zc_word0 zc_word1 zc_word2 zc_word3].
    pose proof (word32_lookup _ _ _ Hw Ef) as Hf. pose proof (word32_lookup _ _ _ Hw' Ef') as Hf'.
    assert (Hc1 : forall k, 0 < k <= 2 ^ 22 -> ~ (2 ^ 33 | c1 k)) by (intros k' _ Hd1; by apply (divide_big _ _ Hd1)).
    split_and!; apply not_eq_sym; (apply (one_word _ _ i f f'); [done | | rewrite words_length; lia | done | done | done]); auto using c2_twos, c3_twos, c4_twos.
Qed.

(** ** The standard *)
(** C27: of a buffer of at most [INT_MAX] bytes [zio_checksum_SHA256] returns
    the digest that FIPS 180 defines: the message with its padding and its
    length in blocks of 512 bits, each folded into the state with the schedule
    and the functions as the standard writes them. *)
Theorem sha256_standard buf n : Forall is_byte buf -> (n <= length buf)%nat -> Z.of_nat n <= INT_MAX ->
  zio_checksum_SHA256 buf (Z.of_nat n) = Ok (sha256 (take n buf)).
Proof. intros Hb Hn Hm. by apply sha256_prefix. Qed.

(** ** Examples *)
Lemma fletcher_sums_witness :
  fletcher_4_byteswap LITTLE [0; 0; 0; 1; 0; 0; 0; 2; 0; 0; 0; 3; 0; 0; 0; 4] 16 = Ok (fletcher_4_series [1; 2; 3; 4]).
Proof.
  destruct (fletcher_sums BIG [0; 0; 0; 1] [0; 0; 0; 2; 0; 0; 0; 3; 0; 0; 0; 4] 1 3) as (_ & H & _);
    [repeat constructor; done | repeat constructor; done | reflexivity | reflexivity | exact H].
Defined.

Lemma fletcher_4_detects_witness : exists c c',
  fletcher_4_native LITTLE [1; 0; 0; 0; 2; 0; 0; 0; 3; 0; 0; 0] 12 = Ok c /\ fletcher_4_native LITTLE [2; 0; 0; 0; 1; 0; 0; 0; 3; 0; 0; 0] 12 = Ok c' /\ c <> c'.
Proof.
  destruct (fletcher_4_detects LITTLE [1; 0; 0; 0; 2; 0; 0; 0; 3; 0; 0; 0] [2; 0; 0; 0; 1; 0; 0; 0; 3; 0; 0; 0] 3 0 1) as (c & c' & H1 & H2 & H3 & _);
    [repeat constructor; done | repeat constructor; done | reflexivity | done | lia | lia | | done | exists c, c'; auto].
  split; [reflexivity |]. intros p H0 H1. do 12 (destruct p as [| p]; [done |]). done.
Defined.

(** The digest of "abc" in the examples of the standard. *)
Lemma sha256_standard_witness :
  zio_checksum_SHA256 [97; 98; 99] 3 = Ok (sha256 [97; 98; 99]) /\
  sha256 [97; 98; 99] = ZIO_SET_CHECKSUM 0xba7816bf8f01cfea 0x414140de5dae2223 0xb00361a396177a9c 0xb410ff61f20015ad.
Proof.
  split; [apply (sha256_standard [97; 98; 99] 3); [repeat constructor; done | reflexivity | done] | vm_compute; reflexivity].
Defined.
