(* ===== verification/Blkptr.v ===== *)
(** * Block pointers (zfs/include/sys/spa.h)

    The words of a block pointer as they are in memory, and the macros on
    their bit fields. *)
From S2P Require Import Prelude Bytes Words Fletcher.
Local Open Scope Z_scope.

Record dva_t : Type := MkDva { dva_word0 : Z; dva_word1 : Z }.

Record blkptr : Type := MkBp {
  blk_dva0 : dva_t;
  blk_dva1 : dva_t;
  blk_dva2 : dva_t;
  blk_prop : Z;
  blk_pad0 : Z;
  blk_pad1 : Z;
  blk_phys_birth : Z;
  blk_birth : Z;
  blk_fill : Z;
  blk_cksum : zio_cksum }.

Definition BF64_GET (x low len : Z) : Z := BF64_DECODE x low len.
Definition BF64_SET (x low len val : Z) : result Z :=
  VERIFY (val <? u64_shl 1 len) ;; VERIFY (low + len <=? 64) ;;
  Ok (Z.lxor x (BF64_ENCODE (Z.lxor (Z.shiftr x low) val) low len)).
Definition BF64_GET_SB (x low len shift bias : Z) : Z := u64_shl (u64_add (BF64_GET x low len) bias) shift.

Definition SPA_MINBLOCKSHIFT : Z := 9.
Definition SPA_PSIZEBITS : Z := 16.
Definition SPA_GANGBLOCKSIZE : Z := u64_shl 1 SPA_MINBLOCKSHIFT.

Definition DVA_GET_VDEV (dva : dva_t) : Z := BF64_GET (dva_word0 dva) 32 32.
Definition DVA_GET_OFFSET (dva : dva_t) : Z := BF64_GET_SB (dva_word1 dva) 0 63 SPA_MINBLOCKSHIFT 0.
Definition DVA_GET_GANG (dva : dva_t) : Z := BF64_GET (dva_word1 dva) 63 1.

(** A macro used as a condition is true when it is not zero. *)
Definition BP_IS_EMBEDDED (bp : blkptr) : bool := negb (BF64_GET (blk_prop bp) 39 1 =? 0).
Definition BP_GET_PSIZE (bp : blkptr) : Z :=
  if BP_IS_EMBEDDED bp then 0 else BF64_GET_SB (blk_prop bp) 16 SPA_PSIZEBITS SPA_MINBLOCKSHIFT 1.
Definition ZIO_CHECKSUM_OFF : Z := 2.
Definition BP_GET_CHECKSUM (bp : blkptr) : Z :=
  if BP_IS_EMBEDDED bp then ZIO_CHECKSUM_OFF else BF64_GET (blk_prop bp) 40 8.
Definition BP_GET_TYPE (bp : blkptr) : Z := BF64_GET (blk_prop bp) 48 8.
Definition BP_GET_BYTEORDER (bp : blkptr) : Z := BF64_GET (blk_prop bp) 63 1.
Definition BP_PHYSICAL_BIRTH (bp : blkptr) : Z :=
  if BP_IS_EMBEDDED bp then 0 else if negb (blk_phys_birth bp =? 0) then blk_phys_birth bp else blk_birth bp.
Definition BP_IDENTITY (bp : blkptr) : result dva_t := VERIFY (negb (BP_IS_EMBEDDED bp)) ;; Ok (blk_dva0 bp).
(** The assertion of [BP_IDENTITY] holds where it is used. *)
Definition BP_IS_GANG (bp : blkptr) : bool :=
  if BP_IS_EMBEDDED bp then false else negb (DVA_GET_GANG (blk_dva0 bp) =? 0).

Definition ZFS_HOST_BYTEORDER (h : endian) : Z := match h with BIG => 0 | LITTLE => 1 end.
Definition BP_SHOULD_BYTESWAP (h : endian) (bp : blkptr) : bool := negb (BP_GET_BYTEORDER bp =? ZFS_HOST_BYTEORDER h).

(** Assignments to fields. *)
Definition set_cksum (c : zio_cksum) (bp : blkptr) : blkptr :=
  MkBp (blk_dva0 bp) (blk_dva1 bp) (blk_dva2 bp) (blk_prop bp) (blk_pad0 bp) (blk_pad1 bp) (blk_phys_birth bp) (blk_birth bp) (blk_fill bp) c.
Definition set_pad (p0 p1 : Z) (bp : blkptr) : blkptr :=
  MkBp (blk_dva0 bp) (blk_dva1 bp) (blk_dva2 bp) (blk_prop bp) p0 p1 (blk_phys_birth bp) (blk_birth bp) (blk_fill bp) (blk_cksum bp).

(** of raidz_aggre.h *)
Definition BP_SET_CKSUMID (bp : blkptr) (ckid : Z) : result blkptr :=
  p1 ← BF64_SET (blk_pad1 bp) 32 8 ckid ; Ok (set_pad (blk_pad0 bp) p1 bp).

Definition BP_GET_APPMETA (bp : blkptr) : Z := BF64_GET (blk_pad0 bp) 0 1.
Definition BP_GET_APPLOW (bp : blkptr) : Z := BF64_GET (blk_pad0 bp) 1 1.

Definition ZIO_CHECKSUM_EQUAL (zc1 zc2 : zio_cksum) : bool :=
  0 =? Z.lor (Z.lor (Z.lor (u64_sub (zc_word0 zc1) (zc_word0 zc2)) (u64_sub (zc_word1 zc1) (zc_word1 zc2)))
       (u64_sub (zc_word2 zc1) (zc_word2 zc2))) (u64_sub (zc_word3 zc1) (zc_word3 zc2)).

#[global] Arguments BF64_GET : simpl never.
#[global] Arguments BF64_GET_SB : simpl never.
#[global] Arguments BP_IS_EMBEDDED : simpl never.
#[global] Arguments BP_GET_PSIZE : simpl never.
#[global] Arguments BP_GET_CHECKSUM : simpl never.
#[global] Arguments BP_IS_GANG : simpl never.
#[global] Arguments BP_GET_BYTEORDER : simpl never.
#[global] Arguments SPA_GANGBLOCKSIZE : simpl never.
