(* ===== verification/Lz4.v ===== *)
(** * The LZ4 compressor (zfs/module/zfs/lz4.c)

    The 64-bit build. Source and destination are arrays of bytes, pointers are
    positions in them; loads and stores out of an array are panics. The
    destination array may be longer than the size the functions are told,
    since the compressor stores whole words. [h] is the byte order. *)
From S2P Require Import Prelude Bytes Words.
Local Open Scope Z_scope.

Definition MINMATCH : Z := 4.
Definition HASH_LOG : Z := 12.
Definition HASHLOG64K : Z := HASH_LOG + 1.
Definition SKIPSTRENGTH : Z := 6.
Definition COPYLENGTH : Z := 8.
Definition STEPSIZE : Z := 8.
Definition LASTLITERALS : Z := 5.
Definition MFLIMIT : Z := COPYLENGTH + MINMATCH.
Definition MINLENGTH : Z := MFLIMIT + 1.
Definition MAX_DISTANCE : Z := Z.shiftl 1 16 - 1.
Definition ML_BITS : Z := 4.
Definition ML_MASK : Z := Z.shiftl 1 ML_BITS - 1.
Definition RUN_MASK : Z := Z.shiftl 1 (8 - ML_BITS) - 1.
Definition LZ4_64KLIMIT : Z := Z.shiftl 1 16 + (MFLIMIT - 1).

(** ** Memory *)
(** [n] bytes from position [p]. *)
Definition bytes_at (s : list Z) (p : Z) (n : nat) : result (list Z) :=
  VERIFY ((0 <=? p) && (p + Z.of_nat n <=? Z.of_nat (length s))) ;; Ok (take n (drop (Z.to_nat p) s)).
(** The bytes [bs] are stored at position [p]. *)
Definition store_at (d : list Z) (p : Z) (bs : list Z) : result (list Z) :=
  VERIFY ((0 <=? p) && (p + Z.of_nat (length bs) <=? Z.of_nat (length d))) ;;
  Ok (take (Z.to_nat p) d ++ bs ++ drop (Z.to_nat p + length bs) d).
(** [*p = b] *)
Definition poke (d : list Z) (p b : Z) : result (list Z) := store_at d p [uchar b].

Definition A32 (h : endian) (s : list Z) (p : Z) : result Z := load_word h 4 s p.
Definition A64 (h : endian) (s : list Z) (p : Z) : result Z := load_word h 8 s p.
Definition A16 (h : endian) (s : list Z) (p : Z) : result Z := load_word h 2 s p.

(** [LZ4_WILDCOPY(s, d, e)] from the source: words, as long as [d < e]; the
    positions after it. *)
Fixpoint wildcopy_in (fuel : nat) (src dst : list Z) (s d e : Z) : result (list Z * Z * Z) :=
  match fuel with
  | O => Panic
  | S f =>
      w ← bytes_at src s 8 ; dst ← store_at dst d w ;
      if d + 8 <? e then wildcopy_in f src dst (s + 8) (d + 8) e else Ok (dst, s + 8, d + 8)
  end.
(** The same within the destination. *)
Fixpoint wildcopy (fuel : nat) (dst : list Z) (s d e : Z) : result (list Z * Z * Z) :=
  match fuel with
  | O => Panic
  | S f =>
      w ← bytes_at dst s 8 ; dst ← store_at dst d w ;
      if d + 8 <? e then wildcopy f dst (s + 8) (d + 8) e else Ok (dst, s + 8, d + 8)
  end.
(** A word is copied at every step. *)
Definition copy_fuel (d e : Z) : nat := S (Z.to_nat (e - d)).
Definition LZ4_BLINDCOPY (src dst : list Z) (s d l : Z) : result (list Z) :=
  '(dst, _, _) ← wildcopy_in (copy_fuel d (d + l)) src dst s d (d + l) ; Ok dst.
Definition LZ4_SECURECOPY (dst : list Z) (s d e : Z) : result (list Z * Z * Z) :=
  if d <? e then wildcopy (copy_fuel d e) dst s d e else Ok (dst, s, d).

(** ** Compression *)
(** [__builtin_ctzll] and [__builtin_clzll] of a word that is not zero. *)
Definition ctzll (val : Z) : Z := Z.log2 (Z.land val (- val)).
Definition clzll (val : Z) : Z := 63 - Z.log2 val.
Definition LZ4_NbCommonBytes (h : endian) (val : Z) : Z :=
  Z.shiftr (match h with LITTLE => ctzll val | BIG => clzll val end) 3.

(** The two variants: the size of the hash table, the width of its entries,
    and whether the distance of a match is tested. *)
Record variant : Type := MkVariant { v_log : Z; v_width : Z; v_far : bool }.
Definition ctx_large : variant := MkVariant HASH_LOG 32 true.
Definition ctx_64k : variant := MkVariant HASHLOG64K 16 false.

Definition LZ4_HASH_FUNCTION (v : variant) (i : Z) : Z := Z.shiftr ((i * 2654435761) mod 2 ^ 32) (MINMATCH * 8 - v_log v).
Definition LZ4_HASH_VALUE (v : variant) (h : endian) (src : list Z) (p : Z) : result Z := i ← A32 h src p ; Ok (LZ4_HASH_FUNCTION v i).

(** [HashTable[i]] and [HashTable[i] = p - base] *)
Definition table_get (table : list Z) (i : Z) : result Z := deref (if 0 <=? i then table !! Z.to_nat i else None).
Definition table_set (v : variant) (table : list Z) (i p : Z) : result (list Z) :=
  VERIFY ((0 <=? i) && (i <? Z.of_nat (length table))) ;; Ok (<[Z.to_nat i := p mod 2 ^ v_width v]> table).

(** The [do ... while] loop that finds a match: [ip], [ref] and the table, or
    [None] for [goto _last_literals]. *)
Fixpoint find_match (fuel : nat) (v : variant) (h : endian) (src : list Z) (mflimit : Z) (table : list Z) (findMatchAttempts forwardIp forwardH : Z) :
  result (option (Z * Z * list Z)) :=
  match fuel with
  | O => Panic
  | S f =>
      let step := Z.shiftr findMatchAttempts SKIPSTRENGTH in
      let ip := forwardIp in
      let forwardIp := ip + step in
      if mflimit <? forwardIp then Ok None
      else
        forwardH' ← LZ4_HASH_VALUE v h src forwardIp ;
        ref ← table_get table forwardH ;
        table ← table_set v table forwardH ip ;
        again ← (if v_far v && (ref <? ip - MAX_DISTANCE) then Ok true
                 else a ← A32 h src ref ; b ← A32 h src ip ; Ok (negb (a =? b))) ;
        if again : bool then find_match f v h src mflimit table (findMatchAttempts + 1) forwardIp forwardH' else Ok (Some (ip, ref, table))
  end.

(** [while ((ip > anchor) && (ref > source) && (ip[-1] == ref[-1])) { ip--; ref--; }] *)
Fixpoint catch_up (fuel : nat) (src : list Z) (anchor ip ref : Z) : result (Z * Z) :=
  match fuel with
  | O => Panic
  | S f =>
      if (anchor <? ip) && (0 <? ref) then
        a ← byte_at src (ip - 1) ; b ← byte_at src (ref - 1) ;
        if a =? b then catch_up f src anchor (ip - 1) (ref - 1) else Ok (ip, ref)
      else Ok (ip, ref)
  end.

(** [for (; len > 254; len -= 255) *op++ = 255; *op++ = len;] *)
Fixpoint put_run (fuel : nat) (dst : list Z) (op len : Z) : result (list Z * Z) :=
  match fuel with
  | O => Panic
  | S f =>
      if 254 <? len then dst ← poke dst op 255 ; put_run f dst (op + 1) (len - 255)
      else dst ← poke dst op len ; Ok (dst, op + 1)
  end.
(** The same two bytes at a time. *)
Fixpoint put_run2 (fuel : nat) (dst : list Z) (op len : Z) : result (list Z * Z) :=
  match fuel with
  | O => Panic
  | S f =>
      if 509 <? len then dst ← poke dst op 255 ; dst ← poke dst (op + 1) 255 ; put_run2 f dst (op + 2) (len - 510)
      else
        '(dst, op, len) ← (if 254 <? len then dst ← poke dst op 255 ; Ok (dst, op + 1, len - 255) else Ok (dst, op, len)) ;
        dst ← poke dst op len ; Ok (dst, op + 1)
  end.
Definition run_fuel (len : Z) : nat := S (Z.to_nat len).

(** [ip] after the bytes that match. *)
Fixpoint count_match (fuel : nat) (h : endian) (src : list Z) (matchlimit ip ref : Z) : result Z :=
  match fuel with
  | O => Panic
  | S f =>
      if ip <? matchlimit - (STEPSIZE - 1) then
        a ← A64 h src ref ; b ← A64 h src ip ;
        let diff := Z.lxor a b in
        if diff =? 0 then count_match f h src matchlimit (ip + STEPSIZE) (ref + STEPSIZE) else Ok (ip + LZ4_NbCommonBytes h diff)
      else
        '(ip, ref) ← (if ip <? matchlimit - 3 then a ← A32 h src ref ; b ← A32 h src ip ; Ok (if a =? b then (ip + 4, ref + 4) else (ip, ref)) else Ok (ip, ref)) ;
        '(ip, ref) ← (if ip <? matchlimit - 1 then a ← A16 h src ref ; b ← A16 h src ip ; Ok (if a =? b then (ip + 2, ref + 2) else (ip, ref)) else Ok (ip, ref)) ;
        if ip <? matchlimit then a ← byte_at src ref ; b ← byte_at src ip ; Ok (if a =? b then ip + 1 else ip) else Ok ip
  end.

(** The length of the literals in the high half of the token, and more bytes;
    the literals; the position after them. *)
Definition put_literals (src dst : list Z) (token op anchor length : Z) : result (list Z * Z) :=
  '(dst, op) ← (if RUN_MASK <=? length then dst ← poke dst token (Z.shiftl RUN_MASK ML_BITS) ; put_run (run_fuel length) dst op (length - RUN_MASK)
                else dst ← poke dst token (Z.shiftl length ML_BITS) ; Ok (dst, op)) ;
  dst ← LZ4_BLINDCOPY src dst anchor op length ;
  Ok (dst, op + length).

(** [*token += n] and the rest of the length of a match. *)
Definition put_match (dst : list Z) (token op len : Z) : result (list Z * Z) :=
  t ← byte_at dst token ;
  if ML_MASK <=? len then dst ← poke dst token (t + ML_MASK) ; put_run2 (run_fuel len) dst op (len - ML_MASK)
  else dst ← poke dst token (t + len) ; Ok (dst, op).

(** Where the main loop is: at its start, or at the label [_next_match]. *)
Inductive stage : Type :=
  | Search (ip anchor forwardH : Z)
  | Match (ip ref token : Z).

(** What comes next: another stage, [goto _last_literals] with [anchor], or
    [return (0)]. *)
Inductive next : Type :=
  | Go (dst table : list Z) (op : Z) (st : stage)
  | Last (dst : list Z) (op anchor : Z)
  | Full (dst : list Z).

Definition lz4_search (v : variant) (h : endian) (src dst table : list Z) (oend op ip anchor forwardH : Z) : result next :=
  let mflimit := Z.of_nat (length src) - MFLIMIT in
  m ← find_match (S (length src)) v h src mflimit table (Z.shiftl 1 SKIPSTRENGTH + 3) ip forwardH ;
  match m with
  | None => Ok (Last dst op anchor)
  | Some (ip, ref, table) =>
      '(ip, ref) ← catch_up (S (length src)) src anchor ip ref ;
      let length := ip - anchor in
      let token := op in
      let op := op + 1 in
      if oend <? op + length + (2 + 1 + LASTLITERALS) + Z.shiftr length 8 then Ok (Full dst)
      else '(dst, op) ← put_literals src dst token op anchor length ; Ok (Go dst table op (Match ip ref token))
  end.

(** From the comment "Fill table" on: the position after a match is entered
    in the table, and another match may begin there. *)
Definition next_position (v : variant) (h : endian) (src dst table : list Z) (op ip : Z) : result next :=
  h2 ← LZ4_HASH_VALUE v h src (ip - 2) ;
  table ← table_set v table h2 (ip - 2) ;
  hv ← LZ4_HASH_VALUE v h src ip ;
  ref ← table_get table hv ;
  table ← table_set v table hv ip ;
  found ← (if v_far v && negb (ip - (MAX_DISTANCE + 1) <? ref) then Ok false
           else a ← A32 h src ref ; b ← A32 h src ip ; Ok (a =? b)) ;
  if found : bool then
    dst ← poke dst op 0 ; Ok (Go dst table (op + 1) (Match ip ref op))
  else
    forwardH ← LZ4_HASH_VALUE v h src (ip + 1) ; Ok (Go dst table op (Search (ip + 1) ip forwardH)).

Definition lz4_match (v : variant) (h : endian) (src dst table : list Z) (oend op ip ref token : Z) : result next :=
  let iend := Z.of_nat (length src) in
  let mflimit := iend - MFLIMIT in
  let matchlimit := iend - LASTLITERALS in
  dst ← store_at dst op (le_bytes 2 (ip - ref)) ;
  let op := op + 2 in
  let ip := ip + MINMATCH in
  let ref := ref + MINMATCH in
  let anchor := ip in
  ip ← count_match (S (length src)) h src matchlimit ip ref ;
  let len := ip - anchor in
  if oend <? op + (1 + LASTLITERALS) + Z.shiftr len 8 then Ok (Full dst)
  else
    '(dst, op) ← put_match dst token op len ;
    if mflimit <? ip then Ok (Last dst op ip) else next_position v h src dst table op ip.

(** The main loop: the destination, and [op] and [anchor] at [_last_literals]
    or [None] for [return (0)]. *)
Fixpoint lz4_loop (fuel : nat) (v : variant) (h : endian) (src dst table : list Z) (oend op : Z) (st : stage) : result (list Z * option (Z * Z)) :=
  match fuel with
  | O => Panic
  | S f =>
      n ← match st with
          | Search ip anchor forwardH => lz4_search v h src dst table oend op ip anchor forwardH
          | Match ip ref token => lz4_match v h src dst table oend op ip ref token
          end ;
      match n with
      | Go dst table op st => lz4_loop f v h src dst table oend op st
      | Last dst op anchor => Ok (dst, Some (op, anchor))
      | Full dst => Ok (dst, None)
      end
  end.
(** A match takes four bytes of the source, and a search ends in a match. *)
Definition loop_fuel (src : list Z) : nat := 2 * length src + 2.

(** From [_last_literals] on; the position after the data, or [None]. *)
Definition last_literals (src dst : list Z) (oend op anchor : Z) : result (list Z * option Z) :=
  let lastRun := Z.of_nat (length src) - anchor in
  if oend <? op + lastRun + 1 + (lastRun + 255 - RUN_MASK) / 255 then Ok (dst, None)
  else
    '(dst, op) ← (if RUN_MASK <=? lastRun then dst ← poke dst op (Z.shiftl RUN_MASK ML_BITS) ; put_run (run_fuel lastRun) dst (op + 1) (lastRun - RUN_MASK)
                  else dst ← poke dst op (Z.shiftl lastRun ML_BITS) ; Ok (dst, op + 1)) ;
    bs ← bytes_at src anchor (Z.to_nat lastRun) ;
    dst ← store_at dst op bs ;
    Ok (dst, Some (op + lastRun)).

Definition lz4_finish (src : list Z) (oend : Z) (o : list Z * option (Z * Z)) : result (list Z * option Z) :=
  match o with
  | (dst, None) => Ok (dst, None)
  | (dst, Some (op, anchor)) => last_literals src dst oend op anchor
  end.

(** [dest] is a position of the destination array, with room for [osize]
    bytes. [None] is [return (0)]. *)
Definition LZ4_compressCtx (h : endian) (src dst table : list Z) (dest osize : Z) : result (list Z * option Z) :=
  let oend := dest + osize in
  if Z.of_nat (length src) <? MINLENGTH then last_literals src dst oend dest 0
  else
    h0 ← LZ4_HASH_VALUE ctx_large h src 0 ;
    table ← table_set ctx_large table h0 0 ;
    forwardH ← LZ4_HASH_VALUE ctx_large h src 1 ;
    o ← lz4_loop (loop_fuel src) ctx_large h src dst table oend dest (Search 1 0 forwardH) ;
    lz4_finish src oend o.

Definition LZ4_compress64kCtx (h : endian) (src dst table : list Z) (dest osize : Z) : result (list Z * option Z) :=
  let oend := dest + osize in
  if Z.of_nat (length src) <? MINLENGTH then last_literals src dst oend dest 0
  else
    forwardH ← LZ4_HASH_VALUE ctx_64k h src 1 ;
    o ← lz4_loop (loop_fuel src) ctx_64k h src dst table oend dest (Search 1 0 forwardH) ;
    lz4_finish src oend o.

(** The context is [1 << HASH_LOG] words of 32 bits, or twice as many of 16.
    [ctx] is whether there is memory for it. *)
Definition real_LZ4_compress (h : endian) (ctx : bool) (src dst : list Z) (dest osize : Z) : result (list Z * option Z) :=
  if negb ctx then Ok (dst, None)
  else if Z.of_nat (length src) <? LZ4_64KLIMIT
  then LZ4_compress64kCtx h src dst (replicate (Z.to_nat (Z.shiftl 1 HASHLOG64K)) 0) dest osize
  else LZ4_compressCtx h src dst (replicate (Z.to_nat (Z.shiftl 1 HASH_LOG)) 0) dest osize.

(** The value returned and the destination; the source is [s_len] bytes. *)
Definition lz4_compress_zfs (h : endian) (ctx : bool) (src dst : list Z) (d_len : Z) : result (Z * list Z) :=
  VERIFY (4 <=? d_len) ;;
  '(dst, o) ← real_LZ4_compress h ctx src dst 4 (d_len - 4) ;
  match o with
  | None => Ok (Z.of_nat (length src), dst)
  | Some op => dst ← store_at dst 0 (bytes_of BIG 4 (op - 4)) ; Ok (op, dst)
  end.

(** ** Decompression *)
(** [while ((ip < iend) && (s == 255)) { s = *ip++; length += s; }], [s] being
    255 before. *)
Fixpoint run_length (fuel : nat) (src : list Z) (iend ip length : Z) : result (Z * Z) :=
  match fuel with
  | O => Panic
  | S f =>
      if ip <? iend then
        s ← byte_at src ip ;
        if s =? 255 then run_length f src iend (ip + 1) (u64_add length s) else Ok (ip + 1, u64_add length s)
      else Ok (ip, length)
  end.

(** A length of which the token holds [length], more bytes following when it
    is [mask]. *)
Definition get_length (src : list Z) (iend mask ip length : Z) : result (Z * Z) :=
  if length =? mask then run_length (S (List.length src)) src iend ip length else Ok (ip, length).

Definition dec32table : list Z := [0; 3; 2; 3; 0; 0; 0; 0].
(** [(size_t)-1] as -1: it is subtracted from a pointer. *)
Definition dec64table : list Z := [0; 0; 0; -1; 0; 1; 2; 3].

(** [while (op < cpy) *op++ = *ref++] *)
Fixpoint copy_bytes (n : nat) (dst : list Z) (ref op : Z) : result (list Z) :=
  match n with
  | O => Ok dst
  | S n => b ← byte_at dst ref ; dst ← poke dst op b ; copy_bytes n dst (ref + 1) (op + 1)
  end.

(** The first eight bytes of a match; [ref] and [op] after them. *)
Definition copy_first (dst : list Z) (ref op : Z) : result (list Z * Z * Z) :=
  if op - ref <? STEPSIZE then
    dec64 ← table_get dec64table (op - ref) ;
    dst ← copy_bytes 4 dst ref op ;
    let op := op + 4 in
    let ref := ref + 4 in
    dec32 ← table_get dec32table (op - ref) ;
    let ref := ref - dec32 in
    w ← bytes_at dst ref 4 ; dst ← store_at dst op w ;
    Ok (dst, ref - dec64, op + (STEPSIZE - 4))
  else
    w ← bytes_at dst ref 8 ; dst ← store_at dst op w ; Ok (dst, ref + 8, op + 8).

(** The rest of a match, up to [cpy]; [None] is [goto _output_error]. *)
Definition copy_rest (dst : list Z) (oend ref op cpy : Z) : result (list Z * option Z) :=
  if oend - COPYLENGTH <? cpy then
    if oend <? cpy then Ok (dst, None)
    else
      '(dst, ref, op) ← LZ4_SECURECOPY dst ref op (oend - COPYLENGTH) ;
      dst ← copy_bytes (Z.to_nat (cpy - op)) dst ref op ;
      if cpy =? oend then Ok (dst, None) else Ok (dst, Some cpy)
  else '(dst, _, _) ← LZ4_SECURECOPY dst ref op cpy ; Ok (dst, Some cpy).

(** What an iteration leads to: the next one, [break], or [_output_error]. *)
Inductive decoded : Type :=
  | More (dst : list Z) (ip op : Z)
  | End (dst : list Z) (op : Z)
  | Bad (dst : list Z) (ip : Z).

(** The match that follows the literals. *)
Definition decode_match (src dst : list Z) (iend oend token ip op : Z) : result decoded :=
  w ← bytes_at src ip 2 ;
  let ref := op - le_word w in
  let ip := ip + 2 in
  if ref <? 0 then Ok (Bad dst ip)
  else
    let length := Z.land token ML_MASK in
    '(ip, length) ← get_length src iend ML_MASK ip length ;
    '(dst, ref, op) ← copy_first dst ref op ;
    '(dst, o) ← copy_rest dst oend ref op (op + length - (STEPSIZE - 4)) ;
    match o with
    | None => Ok (Bad dst ip)
    | Some op => Ok (More dst ip op)
    end.

Definition decode_step (src dst : list Z) (iend oend ip op : Z) : result decoded :=
  token ← byte_at src ip ;
  let ip := ip + 1 in
  let length := Z.shiftr token ML_BITS in
  '(ip, length) ← get_length src iend RUN_MASK ip length ;
  let cpy := op + length in
  if cpy <? op then Ok (Bad dst ip)
  else if (oend - COPYLENGTH <? cpy) || (iend - COPYLENGTH <? ip + length) then
    if oend <? cpy then Ok (Bad dst ip)
    else if negb (ip + length =? iend) then Ok (Bad dst ip)
    else bs ← bytes_at src ip (Z.to_nat length) ; dst ← store_at dst op bs ; Ok (End dst (op + length))
  else
    '(dst, ip, op) ← wildcopy_in (copy_fuel op cpy) src dst ip op cpy ;
    decode_match src dst iend oend token (ip - (op - cpy)) cpy.

(** The number of bytes decoded, or a negative number. *)
Fixpoint decode_loop (fuel : nat) (src dst : list Z) (iend oend ip op : Z) : result (list Z * Z) :=
  if ip <? iend then
    match fuel with
    | O => Panic
    | S f =>
        r ← decode_step src dst iend oend ip op ;
        match r with
        | More dst ip op => decode_loop f src dst iend oend ip op
        | End dst op => Ok (dst, op)
        | Bad dst ip => Ok (dst, - ip)
        end
    end
  else Ok (dst, op).

(** The source is the array [src] of [isize] bytes, or longer. *)
Definition LZ4_uncompress_unknownOutputSize (src dst : list Z) (isize maxOutputSize : Z) : result (list Z * Z) :=
  decode_loop (length src) src dst isize maxOutputSize 0 0.

(** Whether it failed, and the destination. *)
Definition lz4_decompress_zfs (src dst : list Z) (s_len d_len : Z) : result (bool * list Z) :=
  hd ← bytes_at src 0 4 ;
  let bufsiz := word_of BIG hd in
  if s_len <? bufsiz + 4 then Ok (true, dst)
  else '(dst, n) ← LZ4_uncompress_unknownOutputSize (drop 4 src) dst bufsiz d_len ; Ok (n <? 0, dst).
