(* ===== verification/Lz4Mem.v ===== *)
(** * Memory as LZ4 uses it

    What the loads, stores and copies of [Lz4] do to an array of bytes, and the
    copy of a match in the decompressor. *)
From S2P Require Import Prelude Bytes Words Lz4.
Local Open Scope Z_scope.

(** * Memory as LZ4 uses it

    What the loads, stores and copies of [Lz4] do to an array of bytes, byte by
    byte: [at_ s i] is byte [i] of [s]. *)
Definition at_ (s : list Z) (i : Z) : Z := s !!! Z.to_nat i.
Definition size (s : list Z) : Z := Z.of_nat (length s).
Notation bytes := (Forall is_byte).

(** [d'] is [d] but for the bytes from [lo] to [hi]. *)
Definition same_but (d d' : list Z) (lo hi : Z) : Prop :=
  size d' = size d /\ bytes d' /\ forall i, 0 <= i -> i < lo \/ hi <= i -> at_ d' i = at_ d i.
(** The bytes [bs] are in [d] at [p]. *)
Definition holds (d : list Z) (p : Z) (bs : list Z) : Prop :=
  0 <= p /\ p + size bs <= size d /\ forall i, 0 <= i < size bs -> at_ d (p + i) = at_ bs i.
(** Every byte from [lo] to [hi] is the one [o] before it. *)
Definition repeated (d : list Z) (lo hi o : Z) : Prop := forall i, lo <= i < hi -> at_ d i = at_ d (i - o).

Lemma size_nonneg s : 0 <= size s.
Proof. unfold size. lia. Qed.
Lemma size_app a b : size (a ++ b) = size a + size b.
Proof. unfold size. rewrite length_app. lia. Qed.
Lemma size_cons x a : size (x :: a) = 1 + size a.
Proof. unfold size. cbn [length]. lia. Qed.
Lemma size_nil : size [] = 0.
Proof. done. Qed.

Lemma at_app_l a b i : 0 <= i < size a -> at_ (a ++ b) i = at_ a i.
Proof. unfold at_, size. intros. apply lookup_total_app_l. lia. Qed.
Lemma at_app_r a b i : size a <= i -> at_ (a ++ b) i = at_ b (i - size a).
Proof. unfold at_, size. intros. rewrite lookup_total_app_r by lia. f_equal. lia. Qed.
Lemma at_cons x a i : 0 < i -> at_ (x :: a) i = at_ a (i - 1).
Proof. intros. change (x :: a) with ([x] ++ a). by rewrite at_app_r by (unfold size; simpl; lia). Qed.
Lemma at_take a n i : 0 <= i < Z.of_nat n -> at_ (take n a) i = at_ a i.
Proof. intros. unfold at_. rewrite !list_lookup_total_alt, lookup_take_lt by lia. done. Qed.
Lemma at_drop a n i : 0 <= i -> at_ (drop n a) i = at_ a (Z.of_nat n + i).
Proof. intros. unfold at_. rewrite lookup_total_drop. f_equal. lia. Qed.
Lemma at_byte s i : bytes s -> is_byte (at_ s i).
Proof.
  intros Hb. unfold at_. rewrite list_lookup_total_alt. destruct (s !! Z.to_nat i) as [x |] eqn:E; simpl; [| done].
  rewrite Forall_lookup in Hb. eauto.
Qed.

Lemma at_ext a b : size a = size b -> (forall i, 0 <= i < size a -> at_ a i = at_ b i) -> a = b.
Proof.
  unfold size, at_. intros Hl H. apply list_eq_same_length with (length a); [lia | done |]. intros i x y Hi Ha Hb.
  specialize (H (Z.of_nat i) ltac:(lia)). rewrite Nat2Z.id, !list_lookup_total_alt, Ha, Hb in H. done.
Qed.

(** ** Loads and stores *)
Lemma byte_at_Ok s i : 0 <= i < size s -> byte_at s i = Ok (at_ s i).
Proof.
  unfold size, byte_at, at_. intros H. rewrite list_lookup_total_alt.
  destruct (Z.leb_spec 0 i); [| lia]. by destruct (lookup_lt_is_Some_2 s (Z.to_nat i) ltac:(lia)) as (x & ->).
Qed.

Definition seg (s : list Z) (p n : Z) : list Z := take (Z.to_nat n) (drop (Z.to_nat p) s).

Lemma size_seg s p n : 0 <= p -> 0 <= n -> p + n <= size s -> size (seg s p n) = n.
Proof. unfold size, seg. intros. rewrite length_take, length_drop. lia. Qed.
Lemma at_seg s p n i : 0 <= p -> 0 <= i < n -> at_ (seg s p n) i = at_ s (p + i).
Proof. unfold seg. intros. rewrite at_take, at_drop by lia. f_equal. lia. Qed.
Lemma seg_bytes s p n : bytes s -> bytes (seg s p n).
Proof. intros. unfold seg. by apply Forall_take, Forall_drop. Qed.

Lemma bytes_at_Ok s p n : 0 <= p -> p + Z.of_nat n <= size s -> bytes_at s p n = Ok (seg s p (Z.of_nat n)).
Proof. unfold size, bytes_at, seg. intros. rewrite VERIFY_pass, Nat2Z.id by lia. done. Qed.

Lemma load_word_Ok h s p n : 0 <= p -> p + Z.of_nat n <= size s -> load_word h n s p = Ok (word_of h (seg s p (Z.of_nat n))).
Proof. unfold size, load_word, seg. intros. rewrite VERIFY_pass, Nat2Z.id by lia. done. Qed.

Lemma store_at_runs d p bs : 0 <= p -> p + size bs <= size d -> bytes d -> bytes bs ->
  runs (store_at d p bs) (fun d' => same_but d d' p (p + size bs) /\ holds d' p bs).
Proof.
  unfold store_at. intros Hp Hl Hd Hbs. unfold size in Hl. rewrite VERIFY_pass by lia. simpl.
  set (n := Z.to_nat p). assert (Ht : size (take n d) = p) by (unfold size; rewrite length_take; lia).
  assert (Hs : size (take n d ++ bs ++ drop (n + length bs) d) = size d).
  { rewrite !size_app, Ht. unfold size. rewrite length_drop. lia. }
  pose proof (size_nonneg bs). split; [split_and!; [done | |] | split_and!; [done | unfold size in *; lia |]].
  - rewrite !Forall_app. split_and!; [by apply Forall_take | done | by apply Forall_drop].
  - intros i Hi Hc. destruct (Z.lt_ge_cases i p).
    + rewrite at_app_l, at_take by lia. done.
    + rewrite at_app_r, at_app_r, at_drop by lia. f_equal. unfold size in *. lia.
  - intros i Hi. rewrite at_app_r, at_app_l by lia. f_equal. lia.
Qed.

Lemma poke_runs d p b : 0 <= p < size d -> bytes d ->
  runs (poke d p b) (fun d' => same_but d d' p (p + 1) /\ at_ d' p = uchar b).
Proof.
  intros Hp Hd. unfold poke. eapply runs_impl; [apply store_at_runs; [lia | change (size [uchar b]) with 1; lia | done |] |].
  - repeat constructor; apply uchar_is_byte.
  - intros d' (Hs & _ & _ & Hh). split; [done |]. specialize (Hh 0 ltac:(change (size [uchar b]) with 1; lia)). by rewrite Z.add_0_r in Hh.
Qed.

(** ** Areas that change *)
Lemma same_but_refl d lo hi : bytes d -> same_but d d lo hi.
Proof. by intros. Qed.

Lemma same_but_trans d1 d2 d3 lo hi lo1 hi1 lo2 hi2 :
  same_but d1 d2 lo1 hi1 -> same_but d2 d3 lo2 hi2 -> lo <= lo1 -> lo <= lo2 -> hi1 <= hi -> hi2 <= hi -> same_but d1 d3 lo hi.
Proof.
  intros (H1 & _ & H2) (H3 & Hb & H4) ????. split_and!; [lia | done |]. intros i Hi Hc. rewrite H4, H2 by lia. done.
Qed.

Lemma same_but_weaken d1 d2 lo hi lo1 hi1 : same_but d1 d2 lo1 hi1 -> lo <= lo1 -> hi1 <= hi -> same_but d1 d2 lo hi.
Proof. intros H ??. eapply same_but_trans; [exact H | apply (same_but_refl d2 lo hi), H | ..]; lia. Qed.

Lemma holds_same d d' lo hi p bs : same_but d d' lo hi -> holds d p bs -> p + size bs <= lo \/ hi <= p -> holds d' p bs.
Proof. intros (Hl & _ & Hs) (Hp & He & Hh) Hc. split_and!; [done | lia |]. intros i Hi. rewrite Hs, Hh by lia. done. Qed.

Lemma holds_app d p a b : holds d p (a ++ b) <-> holds d p a /\ holds d (p + size a) b.
Proof.
  pose proof (size_nonneg a). pose proof (size_nonneg b). unfold holds. rewrite size_app. split.
  - intros (Hp & He & Hh). split; split_and!; try lia; intros i Hi.
    + rewrite Hh, at_app_l by lia. done.
    + rewrite <- Z.add_assoc, Hh, at_app_r by lia. f_equal. lia.
  - intros ((Hp & He & Hh) & (_ & He' & Hh')). split_and!; try lia. intros i Hi. destruct (Z.lt_ge_cases i (size a)).
    + rewrite at_app_l, Hh by lia. done.
    + rewrite at_app_r by lia. rewrite <- Hh' by lia. f_equal. lia.
Qed.

Lemma holds_cons d p x a : holds d p (x :: a) <-> 0 <= p < size d /\ at_ d p = x /\ holds d (p + 1) a.
Proof.
  change (x :: a) with ([x] ++ a). rewrite holds_app. change (size [x]) with 1. unfold holds at 1. change (size [x]) with 1.
  split; intros H; split_and!; try (destruct_and!; lia || done).
  - destruct H as ((_ & _ & H) & _). specialize (H 0 ltac:(lia)). by rewrite Z.add_0_r in H.
  - intros i Hi. replace i with 0 by lia. rewrite Z.add_0_r. apply H.
Qed.

Lemma holds_nil d p : 0 <= p <= size d -> holds d p [].
Proof. intros. unfold holds. rewrite size_nil. split_and!; try lia. Qed.

Lemma holds_seg d p n : 0 <= p -> 0 <= n -> p + n <= size d -> holds d p (seg d p n).
Proof. intros. unfold holds. rewrite size_seg by done. split_and!; try done. intros i Hi. by rewrite at_seg by lia. Qed.

Lemma holds_eq d p bs : holds d p bs -> seg d p (size bs) = bs.
Proof.
  pose proof (size_nonneg bs). intros (Hp & He & Hh). apply at_ext; rewrite size_seg by lia; [done |]. intros i Hi. rewrite at_seg by lia. by apply Hh.
Qed.

Lemma holds_prefix bs rest : holds (bs ++ rest) 0 bs.
Proof. pose proof (size_nonneg rest). split_and!; [lia | rewrite size_app; lia |]. intros i Hi. by rewrite Z.add_0_l, at_app_l. Qed.

Lemma holds_take d bs : holds d 0 bs <-> take (length bs) d = bs.
Proof.
  split.
  - intros H%holds_eq. unfold seg in H. rewrite drop_0 in H. unfold size in H. by rewrite Nat2Z.id in H.
  - intros H. rewrite <- (take_drop (length bs) d), H. apply holds_prefix.
Qed.

Lemma holds_bytes d p bs : bytes d -> holds d p bs -> bytes bs.
Proof. intros Hb Hh%holds_eq. rewrite <- Hh. by apply seg_bytes. Qed.

(** ** Copies *)
(** Words from another array. *)
Lemma wildcopy_in_runs fuel src dst s d e : e - d < Z.of_nat fuel -> (0 < fuel)%nat -> bytes src -> bytes dst ->
  0 <= s -> 0 <= d -> s + Z.max 1 (e - d) + 7 <= size src -> d + Z.max 1 (e - d) + 7 <= size dst ->
  runs (wildcopy_in fuel src dst s d e) (fun '(dst', s', d') =>
    s' - s = d' - d /\ Z.max e (d + 1) <= d' <= Z.max 1 (e - d) + 7 + d /\ same_but dst dst' d d' /\
    holds dst' d (seg src s (d' - d))).
Proof.
  revert dst s d. induction fuel as [| fuel IH]; intros dst s d Hf Hf0 Hsrc Hdst Hs Hd Hls Hld; [lia |]. cbn [wildcopy_in].
  rewrite bytes_at_Ok, bind_Ok by lia. change (Z.of_nat 8) with 8.
  assert (Hz : size (seg src s 8) = 8) by (apply size_seg; lia).
  eapply runs_bind; [apply store_at_runs; [lia | lia | done | by apply seg_bytes] |]. rewrite Hz. intros d1 (Hs1 & Hh1).
  destruct (Z.ltb_spec (d + 8) e) as [Hlt | Hge].
  - eapply runs_impl; [apply IH; try lia; [done | apply Hs1 | destruct Hs1; lia] |].
    intros ((d2 & s') & d') (Hd' & He' & Hs2 & Hh2). split_and!; [lia | lia | lia | eapply same_but_trans; [exact Hs1 | exact Hs2 | lia ..] |].
    assert (seg src s (d' - d) = seg src s 8 ++ seg src (s + 8) (d' - (d + 8))) as ->.
    { apply at_ext; rewrite ?size_app, !size_seg by lia; [lia |]. intros i Hi. destruct (Z.lt_ge_cases i 8).
      - rewrite at_app_l, !at_seg by lia. done.
      - rewrite at_app_r, !at_seg by lia. f_equal. lia. }
    apply holds_app. rewrite Hz. split; [| done]. eapply holds_same; [exact Hs2 | done | lia].
  - simpl. replace (d + 8 - d) with 8 by lia. split_and!; try lia; done.
Qed.

(** Words from [o] bytes before in the same array. *)
Lemma wildcopy_runs fuel dst o d e : e - d < Z.of_nat fuel -> (0 < fuel)%nat -> bytes dst ->
  0 <= o <= d -> d + Z.max 1 (e - d) + 7 <= size dst ->
  runs (wildcopy fuel dst (d - o) d e) (fun '(dst', s', d') =>
    s' = d' - o /\ Z.max e (d + 1) <= d' <= Z.max 1 (e - d) + 7 + d /\ same_but dst dst' d d' /\ (8 <= o -> repeated dst' d d' o)).
Proof.
  revert dst d. induction fuel as [| fuel IH]; intros dst d Hf Hf0 Hdst Ho Hld; [lia |]. cbn [wildcopy].
  rewrite bytes_at_Ok, bind_Ok by lia. change (Z.of_nat 8) with 8.
  assert (Hz : size (seg dst (d - o) 8) = 8) by (apply size_seg; lia).
  eapply runs_bind; [apply store_at_runs; [lia | lia | done | by apply seg_bytes] |]. rewrite Hz. intros d1 (Hs1 & _ & _ & Hh1).
  assert (Hr : 8 <= o -> repeated d1 d (d + 8) o).
  { intros Ho8 i Hi. specialize (Hh1 (i - d) ltac:(lia)). rewrite at_seg in Hh1 by lia. replace (d + (i - d)) with i in Hh1 by lia.
    rewrite Hh1. destruct Hs1 as (_ & _ & ->); [f_equal; lia | lia | lia]. }
  destruct (Z.ltb_spec (d + 8) e) as [Hlt | Hge].
  - replace (d - o + 8) with (d + 8 - o) by lia. eapply runs_impl; [apply IH; try lia; [apply Hs1 | destruct Hs1; lia] |].
    intros ((d2 & s') & d') (-> & He' & Hs2 & Hr2). split_and!; [lia | lia | lia | eapply same_but_trans; [exact Hs1 | exact Hs2 | lia ..] |].
    intros Ho8 i Hi. destruct (Z.lt_ge_cases i (d + 8)); [| apply Hr2; lia]. destruct Hs2 as (_ & _ & Hs2). rewrite !Hs2 by lia. apply Hr; lia.
  - simpl. split_and!; try lia; done.
Qed.

Lemma LZ4_SECURECOPY_runs dst o d e : bytes dst -> 0 <= o <= d -> d < e -> e + 7 <= size dst ->
  runs (LZ4_SECURECOPY dst (d - o) d e) (fun '(dst', s', d') =>
    s' = d' - o /\ e <= d' <= e + 7 /\ same_but dst dst' d d' /\ (8 <= o -> repeated dst' d d' o)).
Proof.
  intros Hb Ho Hde Hl. unfold LZ4_SECURECOPY. destruct (Z.ltb_spec d e); [| lia].
  eapply runs_impl; [apply wildcopy_runs; unfold copy_fuel; (lia || done) |]. intros ((d2 & s') & d') H'. destruct_and! H'. split_and!; (lia || done).
Qed.

Lemma copy_bytes_runs n dst o d : bytes dst -> 0 <= o <= d -> d + Z.of_nat n <= size dst ->
  runs (copy_bytes n dst (d - o) d) (fun dst' => same_but dst dst' d (d + Z.of_nat n) /\ repeated dst' d (d + Z.of_nat n) o).
Proof.
  revert dst d. induction n as [| n IH]; intros dst d Hb Ho Hl; cbn [copy_bytes].
  - simpl. split; [by apply same_but_refl | intros i Hi; lia].
  - rewrite byte_at_Ok, bind_Ok by lia. eapply runs_bind; [apply poke_runs; [lia | done] |]. intros d1 (Hs1 & Hd1).
    replace (d - o + 1) with (d + 1 - o) by lia. eapply runs_impl; [apply IH; [apply Hs1 | lia | destruct Hs1; lia] |].
    intros d2 (Hs2 & Hr2). split; [eapply same_but_trans; [exact Hs1 | exact Hs2 | lia ..] |].
    intros i Hi. destruct (Z.lt_ge_cases d i); [apply Hr2; lia |]. replace i with d by lia.
    destruct (Z.eq_dec o 0) as [-> |]; [by rewrite Z.sub_0_r |].
    destruct Hs1 as (_ & _ & Hs1), Hs2 as (_ & _ & Hs2). rewrite !Hs2, Hd1, Hs1 by lia. apply uchar_byte. by apply at_byte.
Qed.

(** ** Repetition *)
Lemma repeated_back d lo hi o (j : nat) m : 0 < o -> repeated d lo hi o -> m < hi -> lo - o <= m - Z.of_nat j * o ->
  at_ d m = at_ d (m - Z.of_nat j * o).
Proof.
  intros Ho Hr Hm. induction j as [| j IH]; intros Hj; [f_equal; lia |].
  rewrite IH by lia. rewrite Hr by nia. f_equal. lia.
Qed.

(** Copies from a multiple of a distance back repeat what is at the distance. *)
Lemma repeated_multiple d lo mid hi o k : 0 < o -> 0 < k -> k * o <= mid - lo + o -> lo <= mid ->
  repeated d lo mid o -> repeated d mid hi (k * o) -> repeated d lo hi o.
Proof.
  intros Ho Hk Hd Hlm H1 H2.
  assert (H : forall n, repeated d lo (Z.min hi (lo + Z.of_nat n)) o).
  { induction n as [| n IH]; [intros i Hi; lia |]. intros i Hi. destruct (Z.lt_ge_cases i (Z.min hi (lo + Z.of_nat n))); [apply IH; lia |].
    destruct (Z.lt_ge_cases i mid); [apply H1; lia |]. rewrite H2 by lia.
    rewrite (repeated_back d lo _ o (Z.to_nat (k - 1)) (i - o) Ho IH) by (rewrite ?Z2Nat.id by lia; lia). f_equal. rewrite Z2Nat.id by lia. lia. }
  intros i Hi. apply (H (Z.to_nat (i - lo + 1))). lia.
Qed.

Lemma repeated_app d lo mid hi o : repeated d lo mid o -> repeated d mid hi o -> repeated d lo hi o.
Proof. intros H1 H2 i Hi. destruct (Z.lt_ge_cases i mid); [apply H1 | apply H2]; lia. Qed.

Lemma repeated_same d d' lo hi o p q : same_but d d' p q -> 0 <= o <= lo -> hi <= p -> repeated d lo hi o -> repeated d' lo hi o.
Proof. intros (_ & _ & Hs) ?? Hr i Hi. rewrite !Hs by lia. by apply Hr. Qed.

Lemma repeated_sub d lo hi lo' hi' o : repeated d lo hi o -> lo <= lo' -> hi' <= hi -> repeated d lo' hi' o.
Proof. intros H ?? i Hi. apply H. lia. Qed.

(** * The copy of a match in the LZ4 decompressor

    [copy_first] and [copy_rest] of [Lz4], together: for any distance, the
    bytes of the match are those at the distance before them, no byte
    outside of the room for them changes, and none outside of the array is
    touched. *)
(** The distance between [op] and [ref] after the first eight bytes of a match
    at distance [o]. *)
Definition far_enough (o D : Z) : Prop :=
  (o = 0 /\ D = 4) \/ (0 < o /\ 8 <= D <= 8 + o /\ exists k, 0 < k /\ D = k * o).

Lemma dec_tables o : 0 <= o < 8 -> exists dec64 dec32,
  table_get dec64table o = Ok dec64 /\ table_get dec32table o = Ok dec32 /\ far_enough o (4 + o + dec32 + dec64) /\
  ((o = 0 /\ dec32 = 0) \/ (0 < o /\ 4 <= o + dec32 <= 4 + o /\ exists k, 0 < k /\ o + dec32 = k * o)).
Proof.
  intros Ho. unfold far_enough.
  assert (o = 0 \/ o = 1 \/ o = 2 \/ o = 3 \/ o = 4 \/ o = 5 \/ o = 6 \/ o = 7) as [-> | [-> | [-> | [-> | [-> | [-> | [-> | ->]]]]]]] by lia;
    do 2 eexists; (split_and!; [reflexivity | reflexivity | |]); simpl.
  1, 2: left; lia.
  all: right; split_and!; try lia; first [exists 1; lia | exists 2; lia | exists 3; lia | exists 4; lia | exists 8; lia].
Qed.

(** The two halves of the first eight bytes, at a small distance. *)
Lemma copy_near_runs dst op o dec32 : bytes dst -> 0 <= o <= op -> op + 8 <= size dst ->
  ((o = 0 /\ dec32 = 0) \/ (0 < o /\ 4 <= o + dec32 <= 4 + o /\ exists k, 0 < k /\ o + dec32 = k * o)) ->
  runs (d1 ← copy_bytes 4 dst (op - o) op ; w ← bytes_at d1 (op - o + 4 - dec32) 4 ; store_at d1 (op + 4) w)
    (fun dst' => same_but dst dst' op (op + 8) /\ repeated dst' op (op + 8) o).
Proof.
  intros Hb Ho Hl Hdec. eapply runs_bind; [apply copy_bytes_runs; [done | lia | lia] |]. change (Z.of_nat 4) with 4. intros d1 (Hs1 & Hr1).
  assert (size d1 = size dst) by apply Hs1. rewrite bytes_at_Ok, bind_Ok by lia. change (Z.of_nat 4) with 4.
  assert (Hz : size (seg d1 (op - o + 4 - dec32) 4) = 4) by (apply size_seg; lia).
  eapply runs_impl; [apply store_at_runs; [lia | lia | apply Hs1 | apply seg_bytes, Hs1] |]. rewrite Hz. intros d2 (Hs2 & _ & _ & Hh).
  split; [eapply same_but_trans; [exact Hs1 | exact Hs2 | lia ..] |].
  assert (Hr : repeated d2 op (op + 4) o) by (eapply repeated_same; [exact Hs2 | lia | lia | done]).
  destruct Hdec as [(-> & ->) | (Ho0 & Hd & k & Hk & Hdk)]; [intros i Hi; f_equal; lia |].
  apply (repeated_multiple d2 op (op + 4) _ o k); try (lia || done). rewrite <- Hdk. intros i Hi.
  specialize (Hh (i - (op + 4)) ltac:(lia)). rewrite at_seg in Hh by lia. replace (op + 4 + (i - (op + 4))) with i in Hh by lia. rewrite Hh.
  destruct Hs2 as (_ & _ & ->); [f_equal; lia | lia | lia].
Qed.

Lemma copy_first_runs dst op o : bytes dst -> 0 <= o <= op -> op + 8 <= size dst ->
  runs (copy_first dst (op - o) op) (fun '(dst', ref', op') =>
    op' = op + 8 /\ far_enough o (op' - ref') /\ same_but dst dst' op (op + 8) /\ repeated dst' op (op + 8) o).
Proof.
  intros Hb Ho Hl. unfold copy_first, STEPSIZE. replace (op - (op - o)) with o by lia. destruct (Z.ltb_spec o 8) as [Hlt | Hge].
  - destruct (dec_tables o ltac:(lia)) as (dec64 & dec32 & E64 & E32 & Hfar & Hdec). rewrite E64, bind_Ok.
    assert (Hn := copy_near_runs dst op o dec32 Hb Ho Hl Hdec).
    apply runs_Ok in Hn as (d2 & Hn & Hs & Hr). apply bind_Ok_inv in Hn as (d1 & E1 & Hn). rewrite E1, bind_Ok.
    replace (op + 4 - (op - o + 4)) with o by lia. rewrite E32, bind_Ok. apply bind_Ok_inv in Hn as (w & E2 & Hn). rewrite E2, bind_Ok, Hn, bind_Ok. simpl.
    split_and!; [lia | | done | done]. by replace (op + 4 + (8 - 4) - _) with (4 + o + dec32 + dec64) by lia.
  - rewrite bytes_at_Ok, bind_Ok by lia. change (Z.of_nat 8) with 8. assert (Hz : size (seg dst (op - o) 8) = 8) by (apply size_seg; lia).
    eapply runs_bind; [apply store_at_runs; [lia | lia | done | by apply seg_bytes] |]. rewrite Hz. intros d2 (Hs & _ & _ & Hh). simpl.
    split_and!; [done | | done |].
    + right. split_and!; try lia. exists 1. lia.
    + intros i Hi. specialize (Hh (i - op) ltac:(lia)). rewrite at_seg in Hh by lia. replace (op + (i - op)) with i in Hh by lia. rewrite Hh.
      destruct Hs as (_ & _ & ->); [f_equal; lia | lia | lia].
Qed.

(** The copy up to the last bytes of the destination, and of those one by one. *)
Lemma copy_tail_runs dst oend D d cpy : bytes dst -> 0 <= D <= d -> d <= oend -> oend <= size dst -> oend - 8 < cpy <= oend ->
  runs ('(dst1, ref, op) ← LZ4_SECURECOPY dst (d - D) d (oend - 8) ; copy_bytes (Z.to_nat (cpy - op)) dst1 ref op)
    (fun dst' => same_but dst dst' d oend /\ (8 <= D -> repeated dst' d cpy D)).
Proof.
  intros Hb HD Hd Hl Hc.
  assert (H1 : runs (LZ4_SECURECOPY dst (d - D) d (oend - 8)) (fun '(d1, ref, op) =>
    ref = op - D /\ d <= op <= oend /\ same_but dst d1 d op /\ (8 <= D -> repeated d1 d op D))).
  { destruct (Z.lt_ge_cases d (oend - 8)).
    - eapply runs_impl; [apply LZ4_SECURECOPY_runs; (lia || done) |]. intros ((? & ?) & ?) H'. destruct_and! H'. split_and!; (lia || done).
    - unfold LZ4_SECURECOPY. destruct (Z.ltb_spec d (oend - 8)); [lia |]. simpl. split_and!; try lia; [by apply same_but_refl | intros _ i Hi; lia]. }
  eapply runs_bind; [exact H1 |]. clear H1. intros ((d1 & ref) & op) (-> & Hop & Hs1 & Hr1).
  eapply runs_impl; [apply copy_bytes_runs; [apply Hs1 | lia | destruct Hs1; lia] |]. intros d2 (Hs2 & Hr2).
  split; [eapply same_but_trans; [exact Hs1 | exact Hs2 | lia ..] |]. intros H8. apply repeated_sub with d (op + Z.of_nat (Z.to_nat (cpy - op))); [| lia | lia].
  eapply repeated_app; [| exact Hr2]. eapply repeated_same; [exact Hs2 | lia | lia | auto].
Qed.

Lemma copy_rest_runs dst oend D d cpy : bytes dst -> 0 <= D <= d -> d <= oend -> oend <= size dst ->
  runs (copy_rest dst oend (d - D) d cpy) (fun '(dst', o) =>
    same_but dst dst' d oend /\ match o with Some op' => op' = cpy /\ cpy < oend /\ (8 <= D -> repeated dst' d cpy D) | None => oend <= cpy end).
Proof.
  intros Hb HD Hd Hl. unfold copy_rest, COPYLENGTH. destruct (Z.ltb_spec (oend - 8) cpy) as [Hc | Hc].
  - destruct (Z.ltb_spec oend cpy); [simpl; split; [by apply same_but_refl | lia] |].
    pose proof (copy_tail_runs dst oend D d cpy Hb HD Hd Hl ltac:(lia)) as Ht. apply runs_Ok in Ht as (d2 & Ht & Hs & Hr).
    apply bind_Ok_inv in Ht as (((d1 & ref) & op) & E1 & Ht). rewrite E1, bind_Ok, Ht, bind_Ok.
    destruct (Z.eqb_spec cpy oend); simpl; (split; [done |]); [lia | split_and!; [done | lia | done]].
  - destruct (Z.lt_ge_cases d cpy).
    + eapply runs_bind; [apply LZ4_SECURECOPY_runs; (lia || done) |]. intros ((d1 & ref) & op) (_ & Hop & Hs & Hr). simpl.
      split_and!; [eapply same_but_weaken; [exact Hs | lia | lia] | done | lia | intros H8; eapply repeated_sub; [exact (Hr H8) | lia | lia]].
    + unfold LZ4_SECURECOPY. destruct (Z.ltb_spec d cpy); [lia |]. simpl. split_and!; [by apply same_but_refl | done | lia | intros _ i Hi; lia].
Qed.

(** A whole match of [length + 4] bytes at distance [o]. *)
Lemma copy_match_runs {B} dst oend op o length (k : list Z * option Z -> result B) Q : bytes dst -> 0 <= o <= op -> 0 <= length -> op + 8 <= oend -> oend <= size dst ->
  (forall dst' r, same_but dst dst' op oend ->
    match r with Some op' => op' = op + 4 + length /\ op' < oend /\ (0 < o -> repeated dst' op op' o) | None => oend <= op + 4 + length end -> runs (k (dst', r)) Q) ->
  runs ('(d1, ref, op1) ← copy_first dst (op - o) op ; p ← copy_rest d1 oend ref op1 (op1 + length - (STEPSIZE - 4)) ; k p) Q.
Proof.
  intros Hb Ho Hlen Hop Hl Hk. eapply runs_bind; [apply copy_first_runs; (lia || done) |]. intros ((d1 & ref) & op1) (-> & Hfar & Hs1 & Hr1).
  change (STEPSIZE - 4) with 4. replace (op + 8 + length - 4) with (op + 4 + length) by lia.
  remember (op + 8 - ref) as D eqn:HD. replace ref with (op + 8 - D) by lia. assert (size d1 = size dst) by apply Hs1.
  eapply runs_bind; [apply copy_rest_runs; [apply Hs1 | destruct Hfar; lia | lia | lia] |].
  intros (d2 & r) (Hs2 & Hr2). apply Hk; [eapply same_but_trans; [exact Hs1 | exact Hs2 | lia ..] |].
  destruct r as [op' |]; [| done]. destruct Hr2 as (-> & Hlt & Hr2). split_and!; [done | done |]. intros Ho0.
  assert (Hr1' : repeated d2 op (op + 8) o) by (eapply repeated_same; [exact Hs2 | lia | lia | done]).
  destruct Hfar as [? | (_ & HD8 & j & Hj & HDj)]; [lia |]. specialize (Hr2 ltac:(lia)).
  rewrite HDj in Hr2. eapply repeated_sub; [| reflexivity | apply (Z.le_max_l _ (op + 8))].
  apply (repeated_multiple d2 op (op + 8) _ o j); try (lia || done). intros i Hi. apply Hr2. lia.
Qed.
