(* ===== verification/Lz4Format.v ===== *)
(** * The LZ4 block format

    A block is a list of sequences (literals, then a match: so many bytes
    repeated from a distance back) and last literals. [encode] is the bytes
    that stand for a block, [content] is what it stands for. *)
From S2P Require Import Prelude Bytes Words Lz4 Lz4Mem.
Local Open Scope Z_scope.

Record sequence : Type := MkSeq { lits : list Z; off : Z; mlen : Z }.

(** The bytes of a length that does not fit in half a token. *)
Definition len_tail (n : Z) : list Z := replicate (Z.to_nat (n / 255)) 255 ++ [n mod 255].
Definition len_more (n : Z) : list Z := if n <? 15 then [] else len_tail (n - 15).
Definition token_of (n m : Z) : Z := Z.min n 15 * 16 + Z.min m 15.
Definition enc_lits (m : Z) (ls : list Z) : list Z := token_of (size ls) m :: len_more (size ls) ++ ls.
Definition enc_seq (s : sequence) : list Z := enc_lits (mlen s - 4) (lits s) ++ le_bytes 2 (off s) ++ len_more (mlen s - 4).
Definition enc_seqs (ss : list sequence) : list Z := concat (map enc_seq ss).
Definition encode (ss : list sequence) (last : list Z) : list Z := enc_seqs ss ++ enc_lits 0 last.

(** [n] more bytes, each the one [o] before it. *)
Fixpoint repeat_from (n : nat) (o : Z) (out : list Z) : list Z :=
  match n with
  | O => out
  | S n => repeat_from n o (out ++ [at_ out (size out - o)])
  end.
Definition expand1 (out : list Z) (s : sequence) : list Z := repeat_from (Z.to_nat (mlen s)) (off s) (out ++ lits s).
Definition expand (out : list Z) (ss : list sequence) : list Z := fold_left expand1 ss out.
Definition content (ss : list sequence) (last : list Z) : list Z := expand [] ss ++ last.

(** A match is of four bytes or more, of bytes there are and at most 65535 back;
    a block with a match ends in five literals or more. *)
Definition seq_ok (out : list Z) (s : sequence) : Prop :=
  bytes (lits s) /\ 1 <= off s <= size (out ++ lits s) /\ off s < 65536 /\ 4 <= mlen s.
Fixpoint seqs_ok (out : list Z) (ss : list sequence) : Prop :=
  match ss with
  | [] => True
  | s :: ss => seq_ok out s /\ seqs_ok (expand1 out s) ss
  end.
Definition block_ok (ss : list sequence) (last : list Z) : Prop := seqs_ok [] ss /\ bytes last /\ (ss = [] \/ 5 <= size last).

(** ** Sizes *)
Lemma size_repeat_from n o out : size (repeat_from n o out) = size out + Z.of_nat n.
Proof. revert out. induction n as [| n IH]; intros out; cbn [repeat_from]; [lia |]. rewrite IH, size_app. change (size [_]) with 1. lia. Qed.

Lemma size_expand1 out s : 0 <= mlen s -> size (expand1 out s) = size out + size (lits s) + mlen s.
Proof. intros. unfold expand1. rewrite size_repeat_from, size_app. lia. Qed.

Lemma size_expand out ss : seqs_ok out ss -> size out <= size (expand out ss).
Proof.
  revert out. induction ss as [| s ss IH]; intros out; cbn [expand fold_left seqs_ok]; [lia |]. intros ((_ & _ & _ & Hm) & Hok).
  specialize (IH _ Hok). unfold expand in IH. pose proof (size_nonneg (lits s)). rewrite (size_expand1 out s) in IH by lia. lia.
Qed.

Lemma size_len_tail n : 0 <= n -> size (len_tail n) = n / 255 + 1.
Proof. intros. unfold len_tail. rewrite size_app. change (size [_]) with 1. unfold size. rewrite length_replicate. pose proof (Z.div_pos n 255 ltac:(lia) ltac:(lia)). lia. Qed.

Lemma size_len_more n : 0 <= n -> size (len_more n) = if n <? 15 then 0 else (n - 15) / 255 + 1.
Proof. intros. unfold len_more. destruct (Z.ltb_spec n 15); [done |]. apply size_len_tail. lia. Qed.

Lemma len_tail_small n : 0 <= n < 255 -> len_tail n = [n].
Proof. intros. unfold len_tail. rewrite Z.div_small, Z.mod_small by lia. done. Qed.

Lemma len_tail_step n : 255 <= n -> len_tail n = 255 :: len_tail (n - 255).
Proof.
  intros. unfold len_tail. replace n with (n - 255 + 1 * 255) at 1 2 by lia. rewrite Z.div_add, Z.mod_add by lia.
  pose proof (Z.div_pos (n - 255) 255 ltac:(lia) ltac:(lia)). by replace (Z.to_nat ((n - 255) / 255 + 1)) with (S (Z.to_nat ((n - 255) / 255))) by lia.
Qed.

Lemma size_enc_lits m ls : size (enc_lits m ls) = 1 + size (len_more (size ls)) + size ls.
Proof. unfold enc_lits. rewrite size_cons, size_app. lia. Qed.

Lemma token_lits n m : 0 <= n -> 0 <= m -> Z.shiftr (token_of n m) 4 = Z.min n 15.
Proof. intros. unfold token_of. rewrite Z.shiftr_div_pow2 by lia. change (2 ^ 4) with 16. symmetry. apply Z.div_unique with (Z.min m 15); lia. Qed.

Lemma token_match n m : 0 <= n -> 0 <= m -> Z.land (token_of n m) 15 = Z.min m 15.
Proof. intros. unfold token_of. change 15 with (Z.ones 4) at 3. rewrite Z.land_ones by lia. change (2 ^ 4) with 16. symmetry. apply Z.mod_unique with (Z.min n 15); lia. Qed.

Lemma token_byte n m : 0 <= n -> 0 <= m -> is_byte (token_of n m).
Proof. intros. unfold token_of, is_byte. lia. Qed.

Lemma len_more_bytes n : 0 <= n -> bytes (len_more n).
Proof.
  intros. unfold len_more, len_tail. destruct (Z.ltb_spec n 15); [done |]. apply Forall_app. split; [by apply Forall_replicate |].
  repeat constructor; pose proof (Z.mod_pos_bound (n - 15) 255); lia.
Qed.

(** ** More sequences *)
Lemma expand_snoc out ss s : expand out (ss ++ [s]) = expand1 (expand out ss) s.
Proof. unfold expand. by rewrite fold_left_app. Qed.

Lemma enc_seqs_snoc ss s : enc_seqs (ss ++ [s]) = enc_seqs ss ++ enc_seq s.
Proof. unfold enc_seqs. rewrite map_app, concat_app. cbn. by rewrite app_nil_r. Qed.

Lemma seqs_ok_snoc out ss s : seqs_ok out ss -> seq_ok (expand out ss) s -> seqs_ok out (ss ++ [s]).
Proof. revert out. induction ss as [| s' ss IH]; intros out; cbn [seqs_ok app]; [done |]. intros (H1 & H2) H3. split; [done |]. by apply IH. Qed.

(** An array that holds what comes before a match, and repeats it, holds the
    match. *)
Lemma repeat_holds d out n o : holds d 0 out -> 1 <= o <= size out -> size out + Z.of_nat n <= size d ->
  repeated d (size out) (size out + Z.of_nat n) o -> holds d 0 (repeat_from n o out).
Proof.
  revert out. induction n as [| n IH]; intros out Hh Ho Hl Hr; cbn [repeat_from]; [done |].
  apply IH; rewrite ?size_app; change (size [_]) with 1; try lia.
  - apply holds_app. split; [done |]. rewrite Z.add_0_l. apply holds_cons. split_and!; try lia; [| apply holds_nil; lia].
    rewrite Hr by lia. destruct Hh as (_ & _ & Hh). rewrite <- (Z.add_0_l (size out - o)) at 1. rewrite Hh by lia. done.
  - eapply repeated_sub; [exact Hr | lia | lia].
Qed.
