(* ===== verification/Lz4Decode.v ===== *)
(** * The LZ4 decompressor

    Whatever the input, [decode_step] stays within the arrays; what it decodes
    is what the format says. *)
From S2P Require Import Prelude Bytes Words Lz4 Lz4Mem Lz4Format.
Local Open Scope Z_scope.

(** ** Lengths *)
Lemma run_length_runs fuel src iend ip length : iend - ip < Z.of_nat fuel -> bytes src -> 0 <= ip <= iend -> iend <= size src ->
  0 <= length -> length + 255 * (iend - ip) < 2 ^ 64 ->
  runs (run_length fuel src iend ip length) (fun '(ip', length') => ip <= ip' <= iend /\ length <= length').
Proof.
  revert ip length. induction fuel as [| fuel IH]; intros ip length Hf Hb Hip Hie Hlen Hlen'; [lia |]. cbn [run_length].
  destruct (Z.ltb_spec ip iend); [| simpl; lia]. rewrite byte_at_Ok, bind_Ok by lia.
  pose proof (at_byte src ip Hb) as Hs. unfold is_byte in Hs. rewrite !u64_add_small by (unfold is_u64, W64; lia).
  destruct (Z.eqb_spec (at_ src ip) 255); [| simpl; lia].
  eapply runs_impl; [apply IH; (lia || done) |]. intros (ip' & length') H'. lia.
Qed.

Lemma get_length_runs src iend mask ip length : bytes src -> 0 <= ip <= iend -> iend <= size src -> size src < 2 ^ 31 -> 0 <= length <= 15 ->
  exists ip' n, get_length src iend mask ip length = Ok (ip', n) /\ ip <= ip' <= iend /\ 0 <= n.
Proof.
  intros Hb Hip Hie Hsz Hlen. unfold get_length. destruct (Z.eqb_spec length mask); [| do 2 eexists; split; [done | lia]].
  assert (Hr : runs (run_length (S (List.length src)) src iend ip length) (fun '(ip', length') => ip <= ip' <= iend /\ length <= length')).
  { apply run_length_runs; (done || unfold size in *; lia). }
  apply runs_Ok in Hr as ((ip' & n) & E & H'). exists ip', n. split; [done | lia].
Qed.

Lemma run_length_more fuel src iend ip length k r : (k < fuel)%nat -> holds src ip (replicate k 255 ++ [r]) -> 0 <= r < 255 ->
  ip + Z.of_nat k + 1 <= iend -> 0 <= length -> length + 255 * Z.of_nat k + r < 2 ^ 64 ->
  run_length fuel src iend ip length = Ok (ip + Z.of_nat k + 1, length + 255 * Z.of_nat k + r).
Proof.
  revert fuel ip length. induction k as [| k IH]; intros [| fuel] ip length Hf Hh Hr Hie Hlen Hlen'; try lia; cbn [run_length].
  all: cbn [replicate app] in Hh; apply holds_cons in Hh as (Hp & Ha & Hh).
  all: destruct (Z.ltb_spec ip iend); [| lia]; rewrite byte_at_Ok, bind_Ok by done; rewrite Ha, u64_add_small by (unfold is_u64, W64; lia).
  - destruct (Z.eqb_spec r 255); [lia |]. do 2 f_equal; lia.
  - rewrite Z.eqb_refl, IH by (lia || done). do 2 f_equal; lia.
Qed.

Lemma get_length_more src iend ip n : holds src ip (len_more n) -> 0 <= n < 2 ^ 64 -> ip + size (len_more n) <= iend ->
  get_length src iend 15 ip (Z.min n 15) = Ok (ip + size (len_more n), n).
Proof.
  intros Hh Hn Hie. rewrite size_len_more in * by lia. unfold get_length, len_more, len_tail in *. destruct (Z.ltb_spec n 15).
  - destruct (Z.eqb_spec (Z.min n 15) 15); [lia |]. do 2 f_equal; lia.
  - destruct (Z.eqb_spec (Z.min n 15) 15); [| lia]. pose proof (Z.div_mod (n - 15) 255 ltac:(lia)). pose proof (Z.mod_pos_bound (n - 15) 255 ltac:(lia)).
    pose proof (Z.div_pos (n - 15) 255 ltac:(lia) ltac:(lia)).
    rewrite (run_length_more _ _ _ _ _ (Z.to_nat ((n - 15) / 255)) ((n - 15) mod 255)); try (lia || done); [do 2 f_equal; lia |].
    destruct Hh as (Hp & Hs & _). rewrite size_app in Hs. unfold size in Hs. rewrite length_replicate in Hs. change (List.length [_]) with 1%nat in Hs. lia.
Qed.

(** The halves of a token. *)
Lemma token_halves t : is_byte t -> 0 <= Z.shiftr t 4 <= 15 /\ 0 <= Z.land t 15 <= 15.
Proof.
  unfold is_byte. intros Ht. change 15 with (Z.ones 4) at 2. rewrite Z.land_ones, Z.shiftr_div_pow2 by lia. change (2 ^ 4) with 16.
  change (Z.land t 15) with (Z.land t (Z.ones 4)). rewrite Z.land_ones by lia. Z.to_euclidean_division_equations. lia.
Qed.

(** ** One iteration *)
Lemma decode_match_runs src dst iend oend token ip op ip' n :
  bytes dst -> 0 <= ip -> ip + 2 <= size src -> bytes src -> 0 <= op -> op + 8 <= oend -> oend <= size dst -> 0 <= n -> ip + 2 <= ip' ->
  get_length src iend 15 (ip + 2) (Z.land token 15) = Ok (ip', n) ->
  let o := le_word (seg src ip 2) in
  runs (decode_match src dst iend oend token ip op) (fun r =>
    match r with
    | More dst' ip1 op' => ip1 = ip' /\ op' = op + 4 + n /\ op' < oend /\ o <= op /\ same_but dst dst' op oend /\ (0 < o -> repeated dst' op op' o)
    | End _ _ => False
    | Bad dst' ip1 => ip < ip1 /\ same_but dst dst' op oend /\ (op < o \/ oend <= op + 4 + n)
    end).
Proof.
  intros Hb Hip Hip2 Hbs Hop Hop8 Hoe Hn Hip' E o. unfold decode_match. rewrite bytes_at_Ok, bind_Ok by lia. change (Z.of_nat 2) with 2. fold o.
  assert (0 <= o) by (apply le_word_range; by apply seg_bytes).
  destruct (Z.ltb_spec (op - o) 0) as [Ho | Ho]; [simpl; split_and!; [lia | by apply same_but_refl | lia] |].
  change ML_MASK with 15. rewrite E, bind_Ok. apply copy_match_runs; try (lia || done).
  intros dst' [op' |] Hs Hr; simpl; [| split_and!; [lia | done | lia]]. destruct Hr as (-> & Hlt & Hr). split_and!; (lia || done).
Qed.

(** [n] literals at [ip1], [o] and [m] the distance and the length of the match,
    which ends at [ip2]. *)
Lemma decode_step_runs src dst iend oend ip op ip1 n ip2 m :
  bytes src -> bytes dst -> 0 <= ip < iend -> iend <= size src -> 0 <= op <= oend -> oend <= size dst ->
  get_length src iend 15 (ip + 1) (Z.shiftr (at_ src ip) 4) = Ok (ip1, n) -> ip < ip1 <= iend -> 0 <= n ->
  (ip1 + n <= iend - 8 -> get_length src iend 15 (ip1 + n + 2) (Z.land (at_ src ip) 15) = Ok (ip2, m) /\ ip1 + n + 2 <= ip2 /\ 0 <= m) ->
  let o := le_word (seg src (ip1 + n) 2) in
  runs (decode_step src dst iend oend ip op) (fun r =>
    match r with
    | More dst' ip' op' => ip1 + n <= iend - 8 /\ ip' = ip2 /\ op' = op + n + 4 + m /\ op' < oend /\ o <= op + n /\ same_but dst dst' op oend /\
        holds dst' op (seg src ip1 n) /\ (0 < o -> repeated dst' (op + n) op' o)
    | End dst' op' => ip1 + n = iend /\ op' = op + n /\ op' <= oend /\ same_but dst dst' op oend /\ holds dst' op (seg src ip1 n)
    | Bad dst' ip' => ip < ip' /\ same_but dst dst' op oend /\
        ((oend - 8 < op + n \/ iend - 8 < ip1 + n) /\ (oend < op + n \/ ip1 + n <> iend) \/ ip1 + n <= iend - 8 /\ (op + n < o \/ oend <= op + n + 4 + m))
    end).
Proof.
  intros Hbs Hb Hip Hie Hop Hoe E Hip1 Hn Hm o. unfold decode_step. rewrite byte_at_Ok, bind_Ok by lia.
  change ML_BITS with 4. change RUN_MASK with 15. change COPYLENGTH with 8. rewrite E, bind_Ok.
  destruct (Z.ltb_spec (op + n) op); [lia |].
  destruct (Z.ltb_spec (oend - 8) (op + n)), (Z.ltb_spec (iend - 8) (ip1 + n)); cbn [orb].
  1-3: destruct (Z.ltb_spec oend (op + n)); [simpl; split_and!; [lia | by apply same_but_refl | lia] |].
  1-3: destruct (Z.eqb_spec (ip1 + n) iend); cbn [negb]; [| simpl; split_and!; [lia | by apply same_but_refl | lia]].
  1-3: rewrite bytes_at_Ok, bind_Ok, Z2Nat.id by lia; assert (Hz : size (seg src ip1 n) = n) by (apply size_seg; lia).
  1-3: eapply runs_bind; [apply store_at_runs; [lia | lia | done | by apply seg_bytes] |]; rewrite Hz; intros d1 (Hs & Hh); simpl.
  1-3: split_and!; try (lia || done); try (eapply same_but_weaken; [exact Hs | lia | lia]).
  destruct (Hm ltac:(lia)) as (E2 & Hip2 & Hm0).
  eapply runs_bind; [apply (wildcopy_in_runs (copy_fuel op (op + n)) src dst ip1 op (op + n)); unfold copy_fuel; (lia || done) |].
  intros ((d1 & ip') & op1) (Hd & Hop1 & Hs1 & Hh1). replace (ip' - (op1 - (op + n))) with (ip1 + n) by lia.
  assert (Hsz : size d1 = size dst) by apply Hs1.
  eapply runs_impl; [apply (decode_match_runs src d1 iend oend _ _ _ ip2 m); [apply Hs1 | try lia ..]; [done | done] |]. fold o.
  assert (Hl : holds d1 op (seg src ip1 n)).
  { destruct Hh1 as (_ & _ & Hh1). assert (Hz : size (seg src ip1 n) = n) by (apply size_seg; lia). split_and!; [lia | lia |]. rewrite Hz. intros i Hi.
    rewrite Hh1 by (rewrite size_seg by lia; lia). rewrite !at_seg by lia. done. }
  intros [dst' ip3 op' | |] HR; [| done |].
  - destruct HR as (-> & -> & Hlt & Ho & Hs2 & Hr). split_and!; try (lia || done); [eapply same_but_trans; [exact Hs1 | exact Hs2 | lia ..] |].
    eapply holds_same; [exact Hs2 | done |]. rewrite size_seg by lia. lia.
  - destruct HR as (Hlt & Hs2 & Ho). split_and!; [lia | eapply same_but_trans; [exact Hs1 | exact Hs2 | lia ..] | lia].
Qed.

(** ** The loop *)
(** Any input: the result is negative or the number of bytes decoded. *)
Lemma decode_loop_safe fuel src dst iend oend ip op : bytes src -> bytes dst -> 0 <= ip -> iend <= size src -> size src < 2 ^ 31 ->
  0 <= op <= oend -> oend <= size dst -> iend - ip <= Z.of_nat fuel ->
  runs (decode_loop fuel src dst iend oend ip op) (fun '(dst', r) => same_but dst dst' op oend /\ r <= oend).
Proof.
  revert dst ip op. induction fuel as [| fuel IH]; intros dst ip op Hbs Hb Hip Hie Hsz Hop Hoe Hf; cbn [decode_loop].
  { destruct (Z.ltb_spec ip iend); [lia |]. simpl. split; [by apply same_but_refl | lia]. }
  destruct (Z.ltb_spec ip iend); [| simpl; split; [by apply same_but_refl | lia]].
  destruct (token_halves _ (at_byte src ip Hbs)) as (Ht1 & Ht2).
  destruct (get_length_runs src iend 15 (ip + 1) (Z.shiftr (at_ src ip) 4)) as (ip1 & n & E1 & Hip1 & Hn); try (lia || done).
  assert (H2 : exists ip2 m, ip1 + n <= iend - 8 ->
    get_length src iend 15 (ip1 + n + 2) (Z.land (at_ src ip) 15) = Ok (ip2, m) /\ ip1 + n + 2 <= ip2 <= iend /\ 0 <= m).
  { destruct (Z.le_gt_cases (ip1 + n) (iend - 8)); [| exists 0, 0; lia].
    destruct (get_length_runs src iend 15 (ip1 + n + 2) (Z.land (at_ src ip) 15)) as (ip2 & m & H2); try (lia || done); by exists ip2, m. }
  destruct H2 as (ip2 & m & H2).
  eapply runs_bind; [apply (decode_step_runs src dst iend oend ip op ip1 n ip2 m); try (lia || done); naive_solver |].
  intros [dst' ip' op' | dst' op' | dst' ip'] HR; [| simpl; naive_solver |].
  - destruct HR as (Hle & -> & -> & Hlt & _ & Hs & _). destruct (H2 Hle) as (_ & Hip2 & Hm). assert (size dst' = size dst) by apply Hs.
    eapply runs_impl; [apply IH; [done | apply Hs | lia ..] |]. intros (d2 & r) (Hs2 & Hr). split; [eapply same_but_trans; [exact Hs | exact Hs2 | lia ..] | done].
  - destruct HR as (Hlt & Hs & _). simpl. split; [done | lia].
Qed.

(** What is after the literals of a sequence. *)
Lemma seq_parts src ip s : holds src ip (enc_seq s) -> 0 <= mlen s - 4 ->
  at_ src ip = token_of (size (lits s)) (mlen s - 4) /\ holds src (ip + 1) (len_more (size (lits s))) /\
  seg src (ip + 1 + size (len_more (size (lits s)))) (size (lits s)) = lits s /\
  seg src (ip + 1 + size (len_more (size (lits s))) + size (lits s)) 2 = le_bytes 2 (off s) /\
  holds src (ip + 1 + size (len_more (size (lits s))) + size (lits s) + 2) (len_more (mlen s - 4)).
Proof.
  intros Hh Hm. unfold enc_seq, enc_lits in Hh. cbn [app] in Hh. rewrite <- app_assoc in Hh.
  apply holds_cons in Hh as (_ & Ht & Hh). apply holds_app in Hh as (Hl & Hh). apply holds_app in Hh as (Hls & Hh). apply holds_app in Hh as (Ho & Hmo).
  apply holds_eq in Hls, Ho. assert (size (le_bytes 2 (off s)) = 2) as H2 by (unfold size; by rewrite le_bytes_length). rewrite H2 in *. done.
Qed.

Lemma decode_seq src dst iend oend ip s out : bytes src -> bytes dst -> holds src ip (enc_seq s) -> seq_ok out s -> holds dst 0 out ->
  ip + size (enc_seq s) + 6 <= iend -> iend <= size src -> oend <= size dst -> oend < 2 ^ 31 -> size (expand1 out s) + 5 <= oend ->
  runs (decode_step src dst iend oend ip (size out)) (fun r =>
    match r with
    | More dst' ip' op' => ip' = ip + size (enc_seq s) /\ op' = size (expand1 out s) /\ bytes dst' /\ holds dst' 0 (expand1 out s) /\ same_but dst dst' (size out) oend
    | _ => False
    end).
Proof.
  intros Hbs Hb Hh Hok Hout Hie Hies Hoe Ho31 Hsz. destruct Hok as (Hbl & Hoff & Hoff' & Hm). rewrite size_app in Hoff.
  pose proof (size_nonneg out). pose proof (size_nonneg (lits s)). rewrite size_expand1 in Hsz by lia. pose proof Hh as (Hip & Hips & _).
  destruct (seq_parts src ip s Hh ltac:(lia)) as (Ht & Hl & Els & Eo & Hmo). set (ln := size (lits s)) in *.
  assert (Hes : size (enc_seq s) = 1 + size (len_more ln) + ln + 2 + size (len_more (mlen s - 4))).
  { unfold enc_seq. rewrite !size_app, size_enc_lits. fold ln. change (size (le_bytes 2 (off s))) with 2. lia. }
  pose proof (size_nonneg (len_more ln)). pose proof (size_nonneg (len_more (mlen s - 4))).
  set (ip1 := ip + 1 + size (len_more ln)) in *. set (ip2 := ip + size (enc_seq s)).
  eapply runs_impl; [apply (decode_step_runs src dst iend oend ip (size out) ip1 ln ip2 (mlen s - 4)); try (lia || done) |].
  - rewrite Ht, token_lits by lia. by apply get_length_more; try lia.
  - intros _. rewrite Ht, token_match by lia. rewrite get_length_more by (done || lia). split_and!; [f_equal; f_equal; lia | lia | lia].
  - rewrite Els, Eo, le_word_bytes by (simpl; lia). intros [dst' ip' op' | dst' op' | dst' ip'] HR; [| destruct HR as (? & _); lia | lia].
    destruct HR as (_ & -> & -> & Hlt & _ & Hs & Hh' & Hr). split_and!; [done | rewrite size_expand1 by lia; lia | apply Hs | | done].
    unfold expand1. apply repeat_holds; rewrite ?size_app; try lia; [| destruct Hs; lia |].
    + apply holds_app. split; [eapply holds_same; [exact Hs | done | lia] | by rewrite Z.add_0_l].
    + fold ln. eapply repeated_sub; [apply Hr; lia | lia | lia].
Qed.

Lemma decode_last src dst iend oend ip last out : bytes src -> bytes dst -> holds src ip (enc_lits 0 last) -> holds dst 0 out ->
  iend = ip + size (enc_lits 0 last) -> oend <= size dst -> oend < 2 ^ 31 -> size out + size last <= oend ->
  runs (decode_step src dst iend oend ip (size out)) (fun r =>
    match r with
    | End dst' op' => op' = size (out ++ last) /\ holds dst' 0 (out ++ last) /\ same_but dst dst' (size out) oend
    | _ => False
    end).
Proof.
  intros Hbs Hb Hh Hout -> Hoe Ho31 Hsz. pose proof (size_nonneg out). pose proof (size_nonneg last). pose proof Hh as (Hip & Hips & _).
  rewrite size_enc_lits in *. pose proof (size_nonneg (len_more (size last))). unfold enc_lits in Hh.
  apply holds_cons in Hh as (_ & Ht & Hh). apply holds_app in Hh as (Hl & Hls). apply holds_eq in Hls.
  remember (ip + 1 + size (len_more (size last))) as ip1 eqn:Hip1.
  eapply runs_impl; [apply (decode_step_runs src dst _ oend ip (size out) ip1 (size last) 0 0); try (lia || done) |].
  - rewrite Ht, token_lits, Hip1 by lia. by apply get_length_more; try lia.
  - rewrite Hls. intros [dst' ip' op' | dst' op' | dst' ip'] HR; [lia | | lia]. destruct HR as (_ & -> & Hle & Hs & Hh'). rewrite size_app. split_and!; [done | | done].
    apply holds_app. split; [eapply holds_same; [exact Hs | done | lia] | by rewrite Z.add_0_l].
Qed.

Lemma size_enc_seq_pos s : 0 < size (enc_seq s).
Proof. unfold enc_seq. rewrite size_app, size_enc_lits. pose proof (size_nonneg (le_bytes 2 (off s) ++ len_more (mlen s - 4))). pose proof (size_nonneg (lits s)). pose proof (size_nonneg (len_more (size (lits s)))). lia. Qed.

Lemma decode_loop_correct ss : forall fuel src dst oend ip last out, bytes src -> bytes dst -> holds src ip (encode ss last) -> holds dst 0 out ->
  seqs_ok out ss -> ss = [] \/ 5 <= size last -> size (expand out ss) + size last <= oend -> oend <= size dst -> oend < 2 ^ 31 ->
  size (encode ss last) <= Z.of_nat fuel ->
  runs (decode_loop fuel src dst (ip + size (encode ss last)) oend ip (size out)) (fun '(dst', r) =>
    r = size (expand out ss ++ last) /\ holds dst' 0 (expand out ss ++ last) /\ same_but dst dst' (size out) oend).
Proof.
  induction ss as [| s ss IH]; intros fuel src dst oend ip last out Hbs Hb Hh Hout Hok H5 Hsz Hoe Ho31 Hf;
    unfold encode, enc_seqs in Hh, Hf |- *; cbn [map concat app] in *.
  - pose proof (size_nonneg (len_more (size last))). pose proof (size_nonneg last). pose proof (size_enc_lits 0 last).
    destruct fuel as [| fuel]; [lia |]. cbn [decode_loop]. destruct (Z.ltb_spec ip (ip + size (enc_lits 0 last))); [| lia].
    eapply runs_bind; [eapply (decode_last src dst _ oend ip last out); done || (cbn in Hsz; lia) |].
    intros [| dst' op' |] HR; [done | | done]. simpl. destruct HR as (-> & Hh' & Hs). done.
  - rewrite <- app_assoc in Hh, Hf |- *. apply holds_app in Hh as (Hh1 & Hh2). destruct Hok as (Hok & Hoks). pose proof (size_enc_seq_pos s).
    change (concat (map enc_seq ss) ++ enc_lits 0 last) with (encode ss last) in *. rewrite size_app in Hf |- *.
    assert (H6 : 6 <= size (encode ss last)).
    { unfold encode. rewrite size_app, size_enc_lits. pose proof (size_nonneg (enc_seqs ss)). pose proof (size_nonneg (len_more (size last))). destruct H5; [done | lia]. }
    cbn [expand fold_left] in Hsz. change (fold_left expand1 ss (expand1 out s)) with (expand (expand1 out s) ss) in Hsz.
    pose proof (size_expand _ _ Hoks). destruct Hh2 as (Hh20 & Hh21 & Hh22). assert (Hh2 : holds src (ip + size (enc_seq s)) (encode ss last)) by done.
    destruct fuel as [| fuel]; [lia |]. cbn [decode_loop]. destruct (Z.ltb_spec ip (ip + (size (enc_seq s) + size (encode ss last)))); [| lia].
    eapply runs_bind; [eapply (decode_seq src dst _ oend ip s out); try done; [lia | lia | destruct H5; [done | lia]] |].
    intros [dst' ip' op' | |] HR; [| done | done]. destruct HR as (-> & -> & Hb' & Hh' & Hs).
    rewrite Z.add_assoc. eapply runs_impl; [apply IH; try done; [right; by destruct H5 | destruct Hs; lia | lia] |].
    intros (d2 & r) (-> & Hh2' & Hs2). split_and!; [done | done |]. eapply same_but_trans; [exact Hs | exact Hs2 | lia | | lia | lia].
    pose proof (size_nonneg (lits s)). destruct Hok as (_ & _ & _ & Hm). rewrite size_expand1 by lia. lia.
Qed.

(** ** The whole *)
Lemma lz4_decompress_zfs_safe src dst s_len d_len : bytes src -> bytes dst -> 4 <= size src < 2 ^ 31 -> s_len <= size src -> 0 <= d_len <= size dst ->
  runs (lz4_decompress_zfs src dst s_len d_len) (fun '(failed, dst') => same_but dst dst' 0 d_len).
Proof.
  intros Hbs Hb Hsz Hs Hd. unfold lz4_decompress_zfs. rewrite bytes_at_Ok, bind_Ok by lia.
  destruct (Z.ltb_spec s_len (word_of BIG (seg src 0 (Z.of_nat 4)) + 4)); [simpl; by apply same_but_refl |].
  assert (Hdr : size (drop 4 src) = size src - 4) by (unfold size in *; rewrite length_drop; lia).
  eapply runs_bind; [apply (decode_loop_safe _ (drop 4 src) dst _ d_len 0 0); try lia; [by apply Forall_drop | done | unfold size in *; lia] |].
  intros (dst' & r) (Hs' & _). simpl. done.
Qed.

Lemma lz4_decompress_zfs_correct ss last pad dst s_len d_len : block_ok ss last -> bytes (encode ss last) -> bytes pad -> bytes dst ->
  size (encode ss last) < 2 ^ 31 -> 4 + size (encode ss last) <= s_len -> size (content ss last) <= d_len -> d_len <= size dst -> d_len < 2 ^ 31 ->
  runs (lz4_decompress_zfs (bytes_of BIG 4 (size (encode ss last)) ++ encode ss last ++ pad) dst s_len d_len) (fun '(failed, dst') =>
    failed = false /\ holds dst' 0 (content ss last) /\ same_but dst dst' 0 d_len).
Proof.
  intros (Hok & Hbl & H5) Hbe Hbp Hb H31 Hs Hd Hds Hd31. set (enc := encode ss last) in *. pose proof (size_nonneg enc). pose proof (size_nonneg pad).
  assert (H4 : size (bytes_of BIG 4 (size enc)) = 4) by (unfold size; by rewrite bytes_of_length).
  unfold lz4_decompress_zfs. rewrite bytes_at_Ok, bind_Ok by (rewrite ?size_app; lia). unfold seg. rewrite drop_0, take_app_length' by by rewrite bytes_of_length.
  rewrite word_of_bytes by (simpl; lia). destruct (Z.ltb_spec s_len (size enc + 4)); [lia |]. rewrite drop_app_length' by by rewrite bytes_of_length.
  unfold LZ4_uncompress_unknownOutputSize. unfold content in *. rewrite size_app in Hd.
  eapply runs_bind; [eapply (decode_loop_correct ss (length (enc ++ pad)) (enc ++ pad) dst d_len 0 last []); try done |].
  - apply Forall_app. done.
  - apply holds_prefix.
  - apply holds_nil. pose proof (size_nonneg dst). lia.
  - fold enc. change (Z.of_nat (length (enc ++ pad))) with (size (enc ++ pad)). rewrite size_app. lia.
  - intros (dst' & r) (-> & Hh & Hs'). simpl. split_and!; [| done | done]. apply Z.ltb_ge, size_nonneg.
Qed.
