(* ===== verification/Lz4Scan.v ===== *)
(** * How the LZ4 compressor compares words and finds matches

    The comparison of words, byte by byte on machines of either byte order; the
    length of a match, its beginning and the hash table. *)
From S2P Require Import Prelude Bytes Words Lz4 Lz4Mem.
Local Open Scope Z_scope.

(** * Words compared as LZ4 compares them

    Words are equal when their bytes are; [LZ4_NbCommonBytes] of the
    difference of two words is the number of bytes, in the order of memory,
    that are equal before the first that differ, on machines of either byte
    order. *)
(** ** Bits of words *)
Lemma byte_bits bs i k : bytes bs -> 0 <= i < size bs -> 0 <= k < 8 -> Z.testbit (at_ bs i) k = Z.testbit (le_word bs) (8 * i + k).
Proof.
  revert i. induction bs as [| b bs IH]; intros i Hb Hi Hk; [rewrite size_nil in Hi; lia |]. inversion Hb as [| ? ? Hb0 Hbs]; subst.
  rewrite size_cons in Hi. cbn [le_word]. unfold is_byte in Hb0. replace (b + 256 * le_word bs) with (le_word bs * 2 ^ 8 + b) by lia.
  rewrite <- lor_fields, Z.lor_spec by lia. destruct (Z.eq_dec i 0) as [-> |].
  - rewrite Z.mul_pow2_bits_low by lia. done.
  - rewrite at_cons, Z.mul_pow2_bits, IH by (lia || done). rewrite (Z.bits_above_log2 b), orb_false_r; [f_equal; lia | lia |].
    destruct (Z.eq_dec b 0) as [-> |]; [simpl; lia |]. apply Z.log2_lt_pow2; [lia |]. apply Z.lt_le_trans with (2 ^ 8); [lia |]. apply Z.pow_le_mono_r; lia.
Qed.

Lemma byte_eq x y : is_byte x -> is_byte y -> (forall k, 0 <= k < 8 -> Z.testbit x k = Z.testbit y k) -> x = y.
Proof.
  unfold is_byte. intros Hx Hy H. rewrite <- (Z.mod_small x (2 ^ 8)), <- (Z.mod_small y (2 ^ 8)) by lia.
  apply Z.bits_inj'. intros k Hk. destruct (Z.lt_ge_cases k 8).
  - rewrite !Z.mod_pow2_bits_low by lia. by apply H.
  - by rewrite !Z.mod_pow2_bits_high by lia.
Qed.

Lemma lowest_bit p : exists t m, 0 <= t /\ Z.pos p = 2 ^ t * (2 * m + 1).
Proof.
  induction p as [p IH | p IH |].
  - exists 0, (Z.pos p). lia.
  - destruct IH as (t & m & Ht & E). exists (t + 1), m. split; [lia |]. rewrite Z.pow_add_r by lia. lia.
  - exists 0, 0. lia.
Qed.

(** The lowest bit of a word. *)
Lemma ctzll_spec v : 0 < v -> 0 <= ctzll v /\ Z.testbit v (ctzll v) = true /\ forall j, 0 <= j < ctzll v -> Z.testbit v j = false.
Proof.
  intros Hv. destruct v as [| p |]; try lia. destruct (lowest_bit p) as (t & m & Ht & E). rewrite E.
  assert (Hlow : forall n j, 0 <= j < t -> Z.testbit (2 ^ t * n) j = false) by (intros n j Hj; rewrite Z.mul_comm, Z.mul_pow2_bits_low by lia; done).
  assert (Hat : forall n, Z.testbit (2 ^ t * (2 * n + 1)) t = true).
  { intros n. rewrite Z.mul_comm, Z.mul_pow2_bits, Z.sub_diag by lia. apply Z.testbit_odd_0. }
  assert (Hhi : forall n j, t < j -> Z.testbit (2 ^ t * (2 * n + 1)) j = Z.testbit n (j - t - 1)).
  { intros n j Hj. rewrite Z.mul_comm, Z.mul_pow2_bits by lia. replace (j - t) with (Z.succ (j - t - 1)) at 1 by lia. by rewrite Z.testbit_odd_succ by lia. }
  assert (ctzll (2 ^ t * (2 * m + 1)) = t) as ->; [| split_and!; [lia | apply Hat | intros j Hj; by apply Hlow]].
  unfold ctzll. assert (Z.land (2 ^ t * (2 * m + 1)) (- (2 ^ t * (2 * m + 1))) = 2 ^ t) as ->; [| by apply Z.log2_pow2].
  replace (- (2 ^ t * (2 * m + 1))) with (2 ^ t * (2 * Z.lnot m + 1)) by (unfold Z.lnot; lia).
  apply Z.bits_inj'. intros j Hj. rewrite Z.land_spec, Z.pow2_bits_eqb by lia. destruct (Z.eqb_spec t j) as [<- |]; [by rewrite !Hat |].
  destruct (Z.lt_ge_cases j t); [by rewrite Hlow by lia |]. rewrite !Hhi, Z.lnot_spec by lia. by destruct (Z.testbit m (j - t - 1)).
Qed.

Lemma at_reverse bs i : 0 <= i < size bs -> at_ (reverse bs) i = at_ bs (size bs - 1 - i).
Proof.
  intros Hi. unfold at_, size in *. rewrite !list_lookup_total_alt, reverse_lookup by lia. do 2 f_equal. lia.
Qed.

(** Where the bits of byte [i] are. *)
Definition bit_of (h : endian) (n i : Z) : Z := match h with LITTLE => 8 * i | BIG => 8 * (n - 1 - i) end.

Lemma word_bits h bs i k : bytes bs -> 0 <= i < size bs -> 0 <= k < 8 -> Z.testbit (at_ bs i) k = Z.testbit (word_of h bs) (bit_of h (size bs) i + k).
Proof.
  intros Hb Hi Hk. destruct h; cbn [word_of bit_of]; [by apply byte_bits |].
  assert (size (reverse bs) = size bs) as Hs by (unfold size; by rewrite length_reverse).
  rewrite <- byte_bits by (rewrite ?Hs, ?Forall_reverse; (lia || done)). rewrite at_reverse by lia. f_equal. f_equal. lia.
Qed.

Section NbCommonBytes.
Context (h : endian) (a b : list Z).
Hypothesis (Ha : bytes a) (Hb : bytes b) (Hsa : size a = 8) (Hsb : size b = 8).
Let diff := Z.lxor (word_of h a) (word_of h b).

Lemma diff_bit i k : 0 <= i < 8 -> 0 <= k < 8 -> Z.testbit diff (bit_of h 8 i + k) = xorb (Z.testbit (at_ a i) k) (Z.testbit (at_ b i) k).
Proof using Ha Hb Hsa Hsb. intros Hi Hk. unfold diff. rewrite Z.lxor_spec, !(word_bits h) by (lia || done). by rewrite Hsa, Hsb. Qed.

Lemma diff_range : 0 <= diff < 2 ^ 64.
Proof using Ha Hb Hsa Hsb.
  pose proof (word_of_range h a Ha) as H1. pose proof (word_of_range h b Hb) as H2. fold (size a) in H1. fold (size b) in H2. rewrite Hsa in H1. rewrite Hsb in H2.
  change (256 ^ 8) with (2 ^ 64) in *. assert (0 <= diff) by (apply Z.lxor_nonneg; lia). split; [done |].
  destruct (Z.eq_dec diff 0) as [-> |]; [lia |]. apply Z.log2_lt_pow2; [lia |]. eapply Z.le_lt_trans; [apply Z.log2_lxor; lia |].
  assert (Hlog : forall w, 0 <= w < 2 ^ 64 -> Z.log2 w < 64).
  { intros w Hw. destruct (Z.eq_dec w 0) as [-> |]; [simpl; lia |]. apply Z.log2_lt_pow2; lia. }
  apply Z.max_lub_lt; by apply Hlog.
Qed.

(** The first bit that differs, in the order of the machine. *)
Lemma NbCommonBytes_spec : diff <> 0 ->
  let c := LZ4_NbCommonBytes h diff in 0 <= c < 8 /\ (forall i, 0 <= i < c -> at_ a i = at_ b i) /\ at_ a c <> at_ b c.
Proof using Ha Hb Hsa Hsb.
  intros Hd c. pose proof diff_range as Hr.
  assert (Hc : 0 <= c < 8 /\ (exists k, 0 <= k < 8 /\ Z.testbit diff (bit_of h 8 c + k) = true) /\
    forall i k, 0 <= i < c -> 0 <= k < 8 -> Z.testbit diff (bit_of h 8 i + k) = false).
  { unfold c, LZ4_NbCommonBytes. destruct h; rewrite Z.shiftr_div_pow2 by lia; change (2 ^ 3) with 8; unfold bit_of.
    - destruct (ctzll_spec diff ltac:(lia)) as (H0 & H1 & H2). set (t := ctzll diff) in *.
      assert (t < 64). { destruct (Z.lt_ge_cases t 64); [done |]. rewrite Z.bits_above_log2 in H1; [done | lia |]. apply Z.lt_le_trans with 64; [apply Z.log2_lt_pow2; lia | done]. }
      split_and!; [Z.to_euclidean_division_equations; lia .. | exists (t mod 8); split; [apply Z.mod_pos_bound; lia | by rewrite <- Z.div_mod by lia] |].
      intros i k Hi Hk. apply H2. Z.to_euclidean_division_equations; lia.
    - unfold clzll. pose proof (Z.bit_log2 diff ltac:(lia)) as H1. assert (0 <= Z.log2 diff < 64) by (split; [apply Z.log2_nonneg | apply Z.log2_lt_pow2; lia]).
      set (t := Z.log2 diff) in *. split_and!; [Z.to_euclidean_division_equations; lia .. | |].
      + exists (t - 8 * (8 - 1 - (63 - t) / 8)). split; [Z.to_euclidean_division_equations; lia |]. replace (_ + _) with t by lia. done.
      + intros i k Hi Hk. apply Z.bits_above_log2; [lia |]. fold t. Z.to_euclidean_division_equations; lia. }
  destruct Hc as (Hc & (k & Hk & Hdiff) & Hsame). split_and!; [lia | lia | |].
  - intros i Hi. apply byte_eq; [by apply at_byte .. |]. intros j Hj. specialize (Hsame i j Hi Hj). rewrite diff_bit in Hsame by lia. by apply xorb_eq.
  - intros E. rewrite diff_bit, E, xorb_nilpotent in Hdiff by lia. done.
Qed.
End NbCommonBytes.

(** ** Loads compared *)
Lemma words_eq h a b : bytes a -> bytes b -> size a = size b -> word_of h a = word_of h b <-> a = b.
Proof.
  intros Ha Hb Hs. split; [| by intros ->]. intros E. rewrite <- (bytes_of_word h a Ha), <- (bytes_of_word h b Hb), E.
  unfold size in Hs. by replace (length a) with (length b) by lia.
Qed.

(** The words at [p] and [o] before it are equal when the bytes repeat. *)
Lemma loads_eq h src p o n : bytes src -> 0 <= o <= p -> 0 <= n -> p + n <= size src ->
  word_of h (seg src (p - o) n) = word_of h (seg src p n) <-> repeated src p (p + n) o.
Proof.
  intros Hb Ho Hn Hp. rewrite words_eq by (try apply seg_bytes; rewrite ?size_seg by lia; done). split.
  - intros E i Hi. pose proof (at_seg src p n (i - p) ltac:(lia) ltac:(lia)) as H1. pose proof (at_seg src (p - o) n (i - p) ltac:(lia) ltac:(lia)) as H2.
    replace (p + (i - p)) with i in H1 by lia. replace (p - o + (i - p)) with (i - o) in H2 by lia. rewrite <- H1, <- H2, E. done.
  - intros Hr. apply at_ext; rewrite !size_seg by lia; [done |]. intros i Hi. rewrite !at_seg, (Hr (p + i)) by lia. f_equal. lia.
Qed.

(** * How the LZ4 compressor finds matches

    [count_match] is the length of the longest match up to the limit;
    [find_match] and [catch_up] end with bytes that repeat earlier ones at a
    distance the format can hold, and stay in the source and in the table. *)
(** ** The length of a match *)
Section CountMatch.
Context (h : endian) (src : list Z) (matchlimit start o : Z).
Hypothesis (Hb : bytes src) (Ho : 0 < o) (Hml : matchlimit <= size src) (Hstart : o <= start).

(** All bytes up to [ip] match, and at most [k] bytes after them. *)
Definition counted (ip k : Z) : Prop :=
  start <= ip <= matchlimit /\ repeated src start ip o /\ forall j, j <= matchlimit -> repeated src start j o -> j <= ip + k.

Lemma counted_step n ip k : 0 < n -> counted ip (n + k) -> 0 <= k < n ->
  runs (if ip <? matchlimit - (n - 1) then a ← load_word h (Z.to_nat n) src (ip - o) ; b ← load_word h (Z.to_nat n) src ip ; Ok (if a =? b then (ip + n, ip - o + n) else (ip, ip - o)) else Ok (ip, ip - o))
    (fun '(ip', ref') => ref' = ip' - o /\ counted ip' (n - 1)).
Proof using Hb Ho Hml Hstart.
  intros Hn (Hip & Hr & Hmax) Hk. destruct (Z.ltb_spec ip (matchlimit - (n - 1))).
  - rewrite !load_word_Ok, !bind_Ok, Z2Nat.id by lia. destruct (Z.eqb_spec (word_of h (seg src (ip - o) n)) (word_of h (seg src ip n))) as [E | E]; simpl.
    + rewrite loads_eq in E by (lia || done). split; [lia |]. split_and!; [lia | lia | by eapply repeated_app | intros j Hj Hj'; specialize (Hmax j Hj Hj'); lia].
    + rewrite loads_eq in E by (lia || done). split; [lia |]. split_and!; [lia | lia | done |]. intros j Hj Hj'.
      destruct (Z.le_gt_cases j (ip + (n - 1))); [done |]. destruct E. eapply repeated_sub; [exact Hj' | lia | lia].
  - simpl. split; [lia |]. split_and!; [lia | lia | done | intros j Hj Hj'; lia].
Qed.

Lemma count_match_loop fuel ip : matchlimit - ip < Z.of_nat fuel -> start <= ip <= matchlimit -> repeated src start ip o ->
  runs (count_match fuel h src matchlimit ip (ip - o)) (fun e => counted e 0).
Proof using Hb Ho Hml Hstart.
  revert ip. induction fuel as [| fuel IH]; intros ip Hf Hip Hr; [lia |]. cbn [count_match]. change STEPSIZE with 8. unfold A64, A32, A16.
  destruct (Z.ltb_spec ip (matchlimit - (8 - 1))).
  - rewrite !load_word_Ok, !bind_Ok by lia. change (Z.of_nat 8) with 8. destruct (Z.eqb_spec (Z.lxor (word_of h (seg src (ip - o) 8)) (word_of h (seg src ip 8))) 0) as [E | E].
    + apply Z.lxor_eq, loads_eq in E; [| lia || done ..]. replace (ip - o + 8) with (ip + 8 - o) by lia. apply IH; [lia | lia | by eapply repeated_app].
    + apply NbCommonBytes_spec in E as (Hc & Hsame & Hdiff); [| by apply seg_bytes | by apply seg_bytes | apply size_seg; lia | apply size_seg; lia].
      set (c := LZ4_NbCommonBytes _ _) in *. simpl. rewrite !at_seg in Hdiff by lia. split_and!; [lia | lia | |].
      * eapply repeated_app; [exact Hr |]. intros i Hi. specialize (Hsame (i - ip) ltac:(lia)). rewrite !at_seg in Hsame by lia.
        replace (ip + (i - ip)) with i in Hsame by lia. rewrite <- Hsame. f_equal. lia.
      * intros j Hj Hj'. destruct (Z.le_gt_cases j (ip + c + 0)); [done |]. destruct Hdiff. rewrite (Hj' (ip + c)) by lia. f_equal. lia.
  - eapply runs_bind; [apply (counted_step 4 ip 3); [lia | | lia]; split_and!; (lia || done) |]. intros (ip1 & ref1) (-> & H1).
    eapply runs_bind; [apply (counted_step 2 ip1 1); [lia | done | lia] |]. intros (ip2 & ref2) (-> & Hip2 & Hr2 & Hmax).
    destruct (Z.ltb_spec ip2 matchlimit); [| simpl; split_and!; (lia || done)].
    rewrite !byte_at_Ok, !bind_Ok by lia. destruct (Z.eqb_spec (at_ src (ip2 - o)) (at_ src ip2)) as [E | E]; simpl.
    + split_and!; [lia | lia | eapply repeated_app; [exact Hr2 |]; intros i Hi; by replace i with ip2 by lia | intros j Hj Hj'; specialize (Hmax j Hj Hj'); lia].
    + split_and!; [lia | lia | done |]. intros j Hj Hj'. destruct (Z.le_gt_cases j (ip2 + 0)); [done |]. destruct E. rewrite (Hj' ip2) by lia. done.
Qed.
End CountMatch.

(** From [ip] on; the match may have begun before. *)
Lemma count_match_runs h src matchlimit ip o : bytes src -> 0 < o <= ip -> ip <= matchlimit <= size src ->
  runs (count_match (S (length src)) h src matchlimit ip (ip - o)) (fun e =>
    ip <= e <= matchlimit /\ repeated src ip e o /\ forall j, j <= matchlimit -> repeated src ip j o -> j <= e).
Proof.
  intros Hb Ho Hip. eapply runs_impl; [apply (count_match_loop h src matchlimit ip o); try (lia || done); [unfold size in *; lia | intros i Hi; lia] |].
  intros e (He & Hr & Hmax). split_and!; try (lia || done). intros j Hj Hj'. specialize (Hmax j Hj Hj'). lia.
Qed.

(** ** The beginning of a match *)
Lemma catch_up_runs fuel src anchor ip o : bytes src -> 0 < o <= ip -> 0 <= anchor <= ip -> ip <= size src -> ip < Z.of_nat fuel ->
  runs (catch_up fuel src anchor ip (ip - o)) (fun '(ip', ref') => anchor <= ip' <= ip /\ o <= ip' /\ ref' = ip' - o /\ repeated src ip' ip o).
Proof.
  revert ip. induction fuel as [| fuel IH]; intros ip Hb Ho Ha Hip Hf; [lia |]. cbn [catch_up].
  assert (Hstop : repeated src ip ip o) by (intros i Hi; lia).
  destruct (Z.ltb_spec anchor ip), (Z.ltb_spec 0 (ip - o)); cbn [andb]; try (simpl; split_and!; (lia || done)).
  rewrite !byte_at_Ok, !bind_Ok by lia. destruct (Z.eqb_spec (at_ src (ip - 1)) (at_ src (ip - o - 1))) as [E | E]; [| simpl; split_and!; (lia || done)].
  replace (ip - o - 1) with (ip - 1 - o) by lia. eapply runs_impl; [apply IH; (lia || done) |].
  intros (ip' & ref') (H1 & H2 & -> & Hr). split_and!; try lia. intros i Hi. destruct (Z.eq_dec i (ip - 1)) as [-> |]; [| apply Hr; lia].
  rewrite E. f_equal. lia.
Qed.

(** ** The table *)
(** The entries are positions below [n]. *)
Definition table_ok (v : variant) (table : list Z) (n : Z) : Prop :=
  Z.of_nat (length table) = 2 ^ v_log v /\ Forall (fun e => 0 <= e < n) table.
(** The positions of matches fit in the table, and the distances in the format. *)
Definition variant_ok (v : variant) (src : list Z) : Prop :=
  0 <= v_log v <= 32 /\ 0 <= v_width v /\ size src - MFLIMIT < 2 ^ v_width v /\ (v_far v = false -> size src - MFLIMIT <= MAX_DISTANCE).

Lemma hash_range v i : 0 <= v_log v <= 32 -> 0 <= LZ4_HASH_FUNCTION v i < 2 ^ v_log v.
Proof.
  intros Hv. unfold LZ4_HASH_FUNCTION. change (MINMATCH * 8) with 32. rewrite Z.shiftr_div_pow2 by lia. pose proof (Z.mod_pos_bound (i * 2654435761) (2 ^ 32) ltac:(lia)).
  pose proof (Z.pow_pos_nonneg 2 (32 - v_log v) ltac:(lia) ltac:(lia)). split; [apply Z.div_pos; lia |]. apply Z.div_lt_upper_bound; [lia |].
  rewrite <- Z.pow_add_r by lia. replace (32 - v_log v + v_log v) with 32 by lia. lia.
Qed.

Lemma hash_value_runs v h src p : 0 <= v_log v <= 32 -> 0 <= p -> p + 4 <= size src ->
  runs (LZ4_HASH_VALUE v h src p) (fun hv => 0 <= hv < 2 ^ v_log v).
Proof. intros Hv Hp Hs. unfold LZ4_HASH_VALUE, A32. rewrite load_word_Ok, bind_Ok by lia. simpl. by apply hash_range. Qed.

Lemma table_get_runs v table n i : table_ok v table n -> 0 <= i < 2 ^ v_log v -> runs (table_get table i) (fun e => 0 <= e < n).
Proof.
  intros (Hl & Ht) Hi. unfold table_get. destruct (Z.leb_spec 0 i); [| lia].
  destruct (lookup_lt_is_Some_2 table (Z.to_nat i) ltac:(lia)) as (e & E). rewrite E. simpl. rewrite Forall_lookup in Ht. eauto.
Qed.

Lemma table_set_runs v table n m i p : table_ok v table n -> 0 <= i < 2 ^ v_log v -> 0 <= p < m -> n <= m -> p < 2 ^ v_width v ->
  runs (table_set v table i p) (fun table' => table_ok v table' m).
Proof.
  intros (Hl & Ht) Hi Hp Hnm Hw. unfold table_set. rewrite VERIFY_pass by lia. simpl. split; [by rewrite length_insert |].
  rewrite Z.mod_small by lia. apply Forall_insert; [| lia]. eapply Forall_impl; [exact Ht |]. intros e. simpl. lia.
Qed.

Lemma table_ok_mono v table n m : table_ok v table n -> n <= m -> table_ok v table m.
Proof. intros (Hl & Ht) Hnm. split; [done |]. eapply Forall_impl; [exact Ht |]. intros e. simpl. lia. Qed.

(** A test for a match at [ip] of the entry [ref]; [far] is the test of the
    distance in either form. *)
Lemma match_test h src v ip ref (far : bool) : bytes src -> variant_ok v src -> 0 <= ref < ip -> ip <= size src - MFLIMIT ->
  (v_far v && far = false -> v_far v = true -> ip - ref <= MAX_DISTANCE) ->
  runs (if v_far v && far then Ok false else a ← A32 h src ref ; b ← A32 h src ip ; Ok (a =? b))
    (fun found : bool => found = true -> ip - ref <= MAX_DISTANCE /\ repeated src ip (ip + 4) (ip - ref)).
Proof.
  intros Hb (_ & _ & _ & Hv) Href Hip Hfar. change MFLIMIT with 12 in *. destruct (v_far v && far) eqn:Ef; [done |].
  unfold A32. rewrite !load_word_Ok, !bind_Ok by lia. simpl. intros E%Z.eqb_eq. change (Z.of_nat 4) with 4 in E.
  replace ref with (ip - (ip - ref)) in E by lia. apply loads_eq in E; [| lia || done ..].
  split; [| done]. destruct (v_far v); [by apply Hfar | specialize (Hv eq_refl); lia].
Qed.

Lemma match_test_neg h src (c : bool) p q P :
  runs (if c then Ok false else a ← A32 h src p ; b ← A32 h src q ; Ok (a =? b)) P ->
  runs (if c then Ok true else a ← A32 h src p ; b ← A32 h src q ; Ok (negb (a =? b))) (fun again => P (negb again)).
Proof.
  destruct c; [done |]. destruct (A32 h src p) as [a |]; [| done]. destruct (A32 h src q) as [b |]; [| done]. simpl. by rewrite negb_involutive.
Qed.

Lemma find_match_runs fuel v h src table attempts ip fH : bytes src -> variant_ok v src -> table_ok v table ip -> 0 <= ip <= size src -> 0 <= fH < 2 ^ v_log v -> 64 <= attempts ->
  size src < ip + Z.of_nat fuel ->
  runs (find_match fuel v h src (size src - MFLIMIT) table attempts ip fH) (fun r =>
    match r with
    | None => True
    | Some (ip', ref, table') => ip <= ip' <= size src - MFLIMIT /\ 0 <= ref < ip' /\ ip' - ref <= MAX_DISTANCE /\ repeated src ip' (ip' + 4) (ip' - ref) /\ table_ok v table' (ip' + 1)
    end).
Proof.
  revert table attempts ip fH. induction fuel as [| fuel IH]; intros table attempts ip fH Hb Hv Ht Hip HfH Hat Hf; [lia |]. cbn [find_match].
  pose proof Hv as (Hlog & _ & Hw & _). change SKIPSTRENGTH with 6. change MFLIMIT with 12 in *.
  assert (Hstep : 1 <= Z.shiftr attempts 6) by (rewrite Z.shiftr_div_pow2 by lia; apply Z.div_le_lower_bound; lia).
  destruct (Z.ltb_spec (size src - 12) (ip + Z.shiftr attempts 6)) as [| Hle]; [done |].
  eapply runs_bind; [apply hash_value_runs; lia |]. intros fH' HfH'. eapply runs_bind; [by eapply table_get_runs |]. intros ref Href. cbn beta in Href.
  eapply runs_bind; [apply (table_set_runs v table ip (ip + 1) fH ip); (lia || done) |]. intros table' Ht'.
  eapply runs_bind; [apply match_test_neg, match_test; try (lia || done); change MFLIMIT with 12; try lia |].
  intros again Htest. destruct again.
  - eapply runs_impl; [apply IH; try (lia || done); eapply table_ok_mono; [exact Ht' | lia] |]. intros [((ip' & ref') & t') |]; [| done]. intros H'. destruct_and! H'. split_and!; (lia || done).
  - simpl. destruct (Htest eq_refl) as (Hd & Hr). split_and!; (lia || done).
Qed.
