(* ===== verification/Lz4Encode.v ===== *)
(** * The LZ4 compressor

    What each part of the compressor writes, and its main loop. *)
From S2P Require Import Prelude Bytes Words Lz4 Lz4Mem Lz4Format Lz4Scan.
Local Open Scope Z_scope.

(** * The output of the LZ4 compressor

    Each part of a sequence is written as the format has it. *)
(** The bytes [bs] are written at [op], and [op'] is after them. *)
Definition wrote (dst : list Z) (op : Z) (bs : list Z) '(dst', op') : Prop :=
  op' = op + size bs /\ same_but dst dst' op op' /\ holds dst' op bs.

(** ** Lengths *)
Lemma wrote_cons dst d1 op b bs r : same_but dst d1 op (op + 1) -> at_ d1 op = b -> 0 <= op < size dst -> wrote d1 (op + 1) bs r -> wrote dst op (b :: bs) r.
Proof.
  intros Hs Ha Hop. destruct r as (d2 & op'). intros (-> & Hs2 & Hh). pose proof (size_nonneg bs). split_and!.
  - rewrite size_cons. lia.
  - eapply same_but_trans; [exact Hs | exact Hs2 | lia ..].
  - apply holds_cons. destruct Hs as (Hl & _), Hs2 as (Hl2 & _ & Hs2). split_and!; try lia; [| done]. rewrite Hs2 by lia. done.
Qed.

Lemma poke_then dst op b bs (m : list Z -> result (list Z * Z)) : 0 <= op < size dst -> bytes dst -> is_byte b ->
  (forall d1, size d1 = size dst -> bytes d1 -> runs (m d1) (wrote d1 (op + 1) bs)) ->
  runs (d1 ← poke dst op b ; m d1) (wrote dst op (b :: bs)).
Proof.
  intros Hop Hb Hb0 Hm. eapply runs_bind; [by apply poke_runs |]. intros d1 (Hs & Ha). rewrite uchar_byte in Ha by done.
  eapply runs_impl; [apply Hm; apply Hs |]. intros r Hr. by eapply wrote_cons.
Qed.

Lemma wrote_nil dst op : bytes dst -> 0 <= op <= size dst -> wrote dst op [] (dst, op).
Proof. intros. split_and!; [rewrite size_nil; lia | by apply same_but_refl | by apply holds_nil]. Qed.

Lemma put_run_runs fuel dst op len : bytes dst -> 0 <= op -> 0 <= len < Z.of_nat fuel -> op + size (len_tail len) <= size dst ->
  runs (put_run fuel dst op len) (wrote dst op (len_tail len)).
Proof.
  revert dst op len. induction fuel as [| fuel IH]; intros dst op len Hb Hop Hlen Hs; [lia |]. cbn [put_run]. destruct (Z.ltb_spec 254 len).
  - rewrite len_tail_step in * by lia. rewrite size_cons in Hs. pose proof (size_nonneg (len_tail (len - 255))).
    apply poke_then; [lia | done | done |]. intros d1 Hd1 Hb1. apply IH; (lia || done).
  - rewrite len_tail_small in * by lia. change (size [len]) with 1 in Hs. apply poke_then; [lia | done | unfold is_byte; lia |].
    intros d1 Hd1 Hb1. simpl. apply wrote_nil; [done | lia].
Qed.

Lemma put_run2_runs fuel dst op len : bytes dst -> 0 <= op -> 0 <= len < Z.of_nat fuel -> op + size (len_tail len) <= size dst ->
  runs (put_run2 fuel dst op len) (wrote dst op (len_tail len)).
Proof.
  revert dst op len. induction fuel as [| fuel IH]; intros dst op len Hb Hop Hlen Hs; [lia |]. cbn [put_run2]. destruct (Z.ltb_spec 509 len).
  - rewrite len_tail_step, (len_tail_step (len - 255)) in * by lia. rewrite !size_cons in Hs. replace (len - 255 - 255) with (len - 510) in * by lia.
    pose proof (size_nonneg (len_tail (len - 510))). apply poke_then; [lia | done | done |]. intros d1 Hd1 Hb1. apply poke_then; [lia | done | done |].
    intros d2 Hd2 Hb2. replace (op + 1 + 1) with (op + 2) by lia. apply IH; (lia || done).
  - destruct (Z.ltb_spec 254 len).
    + rewrite len_tail_step, len_tail_small in * by lia. rewrite !size_cons, size_nil in Hs. rewrite bind_assoc. apply poke_then; [lia | done | done |].
      intros d1 Hd1 Hb1. rewrite bind_Ok. apply poke_then; [lia | done | unfold is_byte; lia |]. intros d2 Hd2 Hb2. simpl. apply wrote_nil; [done | lia].
    + rewrite bind_Ok. rewrite len_tail_small in * by lia. change (size [len]) with 1 in Hs. apply poke_then; [lia | done | unfold is_byte; lia |].
      intros d1 Hd1 Hb1. simpl. apply wrote_nil; [done | lia].
Qed.

(** ** Literals *)
Lemma token_value n m : 0 <= n -> Z.shiftl (Z.min n 15) 4 + Z.min m 15 = token_of n m.
Proof. intros. unfold token_of. rewrite Z.shiftl_mul_pow2 by lia. done. Qed.

(** The token of literals, with the bytes of their length. *)
Lemma put_token_runs dst op n : bytes dst -> 0 <= op -> 0 <= n -> op + 1 + size (len_more n) <= size dst ->
  runs (if 15 <=? n then d1 ← poke dst op (Z.shiftl 15 4) ; put_run (run_fuel n) d1 (op + 1) (n - 15) else d1 ← poke dst op (Z.shiftl n 4) ; Ok (d1, op + 1))
    (wrote dst op (token_of n 0 :: len_more n)).
Proof.
  intros Hb Hop Hn Hs. pose proof (token_byte n 0 Hn ltac:(lia)) as Ht. rewrite <- token_value in Ht |- * by done. rewrite Z.add_0_r in *. unfold len_more in *.
  destruct (Z.leb_spec 15 n), (Z.ltb_spec n 15); try lia.
  - rewrite Z.min_r in * by lia. pose proof (size_nonneg (len_tail (n - 15))). apply poke_then; [lia | done | done |]. intros d1 Hd1 Hb1. apply put_run_runs; (done || unfold run_fuel; lia).
  - rewrite Z.min_l in * by lia. rewrite size_nil in Hs. apply poke_then; [lia | done | done |]. intros d1 Hd1 Hb1. simpl. apply wrote_nil; [done | lia].
Qed.

Lemma put_literals_runs src dst token anchor n : bytes src -> bytes dst -> 0 <= token -> 0 <= anchor -> 0 <= n ->
  anchor + n + 8 <= size src -> token + 1 + size (len_more n) + Z.max 1 n + 7 <= size dst ->
  runs (put_literals src dst token (token + 1) anchor n) (fun '(dst', op') =>
    op' = token + size (enc_lits 0 (seg src anchor n)) /\ same_but dst dst' token (size dst) /\ holds dst' token (enc_lits 0 (seg src anchor n))).
Proof.
  intros Hbs Hb Ht Ha Hn Hs Hd. unfold put_literals. change RUN_MASK with 15. change ML_BITS with 4.
  assert (Hz : size (seg src anchor n) = n) by (apply size_seg; lia). rewrite size_enc_lits, Hz. unfold enc_lits. rewrite Hz.
  eapply runs_bind; [apply put_token_runs; (lia || done) |]. intros (d1 & op) (-> & Hs1 & Hh1). rewrite size_cons in *.
  pose proof (size_nonneg (len_more n)). assert (size d1 = size dst) by apply Hs1. unfold LZ4_BLINDCOPY. rewrite bind_assoc.
  eapply runs_bind; [apply wildcopy_in_runs; unfold copy_fuel; try (lia || done); apply Hs1 |]. intros ((d2 & s') & d') (_ & Hd' & Hs2 & Hh2). simpl.
  split_and!; [lia | eapply same_but_trans; [exact Hs1 | exact Hs2 | lia ..] |].
  rewrite app_comm_cons. apply holds_app. rewrite size_cons. split; [eapply holds_same; [exact Hs2 | done | rewrite size_cons; lia] |].
  destruct Hh2 as (Hh0 & Hh1' & Hh2). assert (size d2 = size d1) by apply Hs2. unfold holds. rewrite Hz. split_and!; [lia | lia |]. intros i Hi. rewrite Hh2 by (rewrite size_seg by lia; lia). rewrite !at_seg by lia. done.
Qed.

(** ** A match *)
Lemma put_match_runs dst token op n rest len : bytes dst -> 0 <= n -> 0 <= len -> holds dst token (token_of n 0 :: rest) -> op = token + 1 + size rest ->
  op + size (len_more len) <= size dst ->
  runs (put_match dst token op len) (fun '(dst', op') =>
    op' = op + size (len_more len) /\ same_but dst dst' token (size dst) /\ holds dst' token (token_of n len :: rest ++ len_more len)).
Proof.
  intros Hb Hn Hlen Hh -> Hs. apply holds_cons in Hh as (Ht & Ha & Hh). unfold put_match. change ML_MASK with 15. rewrite byte_at_Ok, bind_Ok, Ha by lia.
  pose proof (token_byte n len Hn Hlen) as Htb. pose proof (token_value n 0 Hn) as E0. rewrite Z.add_0_r in E0. pose proof (token_value n len Hn) as E. rewrite E0 in E.
  pose proof (size_nonneg rest).
  assert (Hgo : forall (m : list Z -> result (list Z * Z)), (forall d1, bytes d1 -> size d1 = size dst -> runs (m d1) (wrote d1 (token + 1 + size rest) (len_more len))) ->
    runs (d1 ← poke dst token (token_of n 0 + Z.min len 15) ; m d1) (fun '(dst', op') =>
      op' = token + 1 + size rest + size (len_more len) /\ same_but dst dst' token (size dst) /\ holds dst' token (token_of n len :: rest ++ len_more len))).
  { intros m Hm. rewrite E. eapply runs_bind; [by apply poke_runs |]. intros d1 (Hs1 & Ha1). rewrite uchar_byte in Ha1 by done.
    assert (size d1 = size dst) by apply Hs1. pose proof (size_nonneg (len_more len)). eapply runs_impl; [apply Hm; apply Hs1 |]. intros (d2 & op') (-> & Hs2 & Hh2). split_and!; [done | eapply same_but_trans; [exact Hs1 | exact Hs2 | lia ..] |].
    apply holds_cons. assert (size d2 = size d1) by apply Hs2. split_and!; [lia | lia | destruct Hs2 as (_ & _ & ->); (lia || done) |]. apply holds_app. split; [| done].
    eapply holds_same; [exact Hs2 | | lia]. eapply holds_same; [exact Hs1 | done | lia]. }
  unfold len_more in *. destruct (Z.leb_spec 15 len), (Z.ltb_spec len 15); try lia.
  - rewrite Z.min_r in Hgo by lia. apply Hgo. intros d1 Hb1 Hd1. apply put_run2_runs; (done || unfold run_fuel; lia).
  - rewrite Z.min_l in Hgo by lia. apply Hgo. intros d1 Hb1 Hd1. simpl. rewrite size_nil in Hs. apply wrote_nil; [done | lia].
Qed.

(** * The main loop of the LZ4 compressor

    What has been written is the encoding of sequences that stand for the
    source up to [anchor]; the loop ends, and never leaves the arrays when the
    destination has [size src / 2048] bytes more than the compressor is told
    to use. *)
(** The length bytes the check of the output limit does not count. *)
Lemma len_more_room n S : 0 <= n <= S -> size (len_more n) + Z.max 1 n <= n + 1 + Z.shiftr n 8 + S / 2048.
Proof.
  intros Hn. rewrite size_len_more by lia. rewrite Z.shiftr_div_pow2 by lia. change (2 ^ 8) with 256.
  destruct (Z.ltb_spec n 15); Z.to_euclidean_division_equations; lia.
Qed.

Section Loop.
Context (h : endian) (v : variant) (src : list Z) (N dest oend : Z).
Hypothesis (Hb : bytes src) (Hv : variant_ok v src) (Hdest : 0 <= dest) (Hroom : oend + size src / 2048 <= N).

(** The sequences [ss] are written up to [op] and stand for the source up to
    [anchor]. *)
Definition emitted (dst : list Z) (op anchor : Z) (ss : list sequence) : Prop :=
  holds dst dest (enc_seqs ss) /\ op = dest + size (enc_seqs ss) /\ seqs_ok [] ss /\ holds src 0 (expand [] ss) /\ size (expand [] ss) = anchor.
Definition array_ok (dst : list Z) : Prop := bytes dst /\ size dst = N.

Definition search_ok (dst table : list Z) (op ip anchor forwardH : Z) : Prop :=
  array_ok dst /\ (exists ss, emitted dst op anchor ss) /\ ip = anchor + 1 /\ anchor <= size src - MFLIMIT /\ table_ok v table ip /\ 0 <= forwardH < 2 ^ v_log v.
(** The match found at [top] begins at [ip], the literals [ls] before it. *)
Definition match_ok (dst table : list Z) (op ip ref token : Z) : Prop :=
  array_ok dst /\ op + 2 <= N /\ 0 <= ref < ip /\ ip - ref <= MAX_DISTANCE /\
  (exists ss ls, emitted dst token (ip - size ls) ss /\ bytes ls /\ holds src (ip - size ls) ls /\ holds dst token (enc_lits 0 ls) /\ op = token + size (enc_lits 0 ls)) /\
  exists top, ip <= top <= size src - MFLIMIT /\ table_ok v table (top + 1) /\ repeated src ip (top + 4) (ip - ref).
Definition stage_ok (dst table : list Z) (op : Z) (st : stage) : Prop :=
  match st with
  | Search ip anchor forwardH => search_ok dst table op ip anchor forwardH
  | Match ip ref token => match_ok dst table op ip ref token
  end.
Definition last_ok (dst : list Z) (op anchor : Z) : Prop :=
  array_ok dst /\ exists ss, emitted dst op anchor ss /\ (ss = [] \/ anchor <= size src - 5).
(** What is left to do. *)
Definition stage_left (st : stage) : Z :=
  match st with
  | Search _ anchor _ => 2 * (size src - anchor) + 2
  | Match ip _ _ => 2 * (size src - ip) + 1
  end.
Definition next_ok (left : Z) (n : next) : Prop :=
  match n with
  | Go dst table op st => stage_ok dst table op st /\ stage_left st < left
  | Last dst op anchor => last_ok dst op anchor
  | Full dst => array_ok dst
  end.

Lemma emitted_same dst dst' lo hi op anchor ss : emitted dst op anchor ss -> same_but dst dst' lo hi -> op <= lo -> emitted dst' op anchor ss.
Proof. intros (H1 & -> & H2) Hs Hlo. split_and!; try done; try apply H2. eapply holds_same; [exact Hs | done | lia]. Qed.

Lemma emitted_op dst op anchor ss : emitted dst op anchor ss -> dest <= op <= size dst /\ 0 <= anchor <= size src.
Proof.
  intros ((_ & H1 & _) & -> & _ & (_ & H2 & _) & <-). pose proof (size_nonneg (enc_seqs ss)). pose proof (size_nonneg (expand [] ss)). lia.
Qed.

Lemma array_same dst dst' lo hi : array_ok dst -> same_but dst dst' lo hi -> array_ok dst'.
Proof. intros (_ & H) (Hs & Hbs & _). split; [done | lia]. Qed.

Lemma search_step dst table op ip anchor forwardH : search_ok dst table op ip anchor forwardH ->
  runs (lz4_search v h src dst table oend op ip anchor forwardH) (next_ok (stage_left (Search ip anchor forwardH))).
Proof using Hb Hv Hdest Hroom.
  intros (Harr & (ss & Hem) & -> & Hlim & Ht & HfH). unfold lz4_search. change (Z.of_nat (length src)) with (size src).
  destruct (emitted_op _ _ _ _ Hem) as (Hop & Hanchor). change MFLIMIT with 12 in *. destruct Harr as (Hbd & HN).
  eapply runs_bind; [apply (find_match_runs (S (length src)) v h src table); try (lia || done); unfold size in *; lia |].
  intros [((ip1 & ref) & table1) |] Hm; [| simpl; split; [done |]; exists ss; split; [done | lia]]. change MFLIMIT with 12 in Hm. destruct Hm as (Hip1 & Href & Hd & Hr & Ht1).
  replace ref with (ip1 - (ip1 - ref)) by lia. set (o := ip1 - ref) in *. assert (Ho : 0 < o) by lia.
  eapply runs_bind; [apply (catch_up_runs _ src anchor ip1 o); try (lia || done); unfold size in *; lia |]. intros (ip2 & ref2) (Hip2 & Hoip & -> & Hr2).
  change (2 + 1 + LASTLITERALS) with 8. set (n := ip2 - anchor). destruct (Z.ltb_spec oend (op + 1 + n + 8 + Z.shiftr n 8)); [done |].
  pose proof (len_more_room n (size src) ltac:(lia)) as Hmore. pose proof (size_nonneg (len_more n)).
  eapply runs_bind; [apply put_literals_runs; (lia || done) |]. intros (d2 & op2) (-> & Hs2 & Hh2).
  assert (Hz : size (seg src anchor n) = n) by (apply size_seg; lia). simpl. split; [| lia]. split_and!.
  - eapply array_same; [| exact Hs2]; by split.
  - rewrite size_enc_lits, Hz. lia.
  - lia.
  - lia.
  - lia.
  - exists ss, (seg src anchor n). rewrite Hz. replace (ip2 - n) with anchor by lia.
    split_and!; [eapply emitted_same; [exact Hem | exact Hs2 | lia] | by apply seg_bytes | apply holds_seg; lia | done | done].
  - exists ip1. change MFLIMIT with 12. replace (ip2 - (ip2 - o)) with o by lia. split_and!; [lia | lia | done | by eapply repeated_app].
Qed.

(** One more sequence. *)
Lemma emitted_snoc dst token ip ss ls o e : emitted dst token (ip - size ls) ss -> bytes ls -> holds src (ip - size ls) ls ->
  0 < o <= ip -> o <= MAX_DISTANCE -> ip + 4 <= e <= size src -> repeated src ip e o ->
  holds dst token (enc_seq (MkSeq ls o (e - ip))) ->
  emitted dst (token + size (enc_seq (MkSeq ls o (e - ip)))) e (ss ++ [MkSeq ls o (e - ip)]).
Proof.
  intros (Hh & Hop & Hok & Hex & Han) Hbl Hls Ho Hmax He Hr Henc. unfold emitted. rewrite enc_seqs_snoc, expand_snoc, size_app.
  assert (Hsz : size (expand [] ss ++ ls) = ip) by (rewrite size_app; lia).
  assert (Hex1 : holds src 0 (expand [] ss ++ ls)) by (apply holds_app; split; [done | by rewrite Z.add_0_l, Han]).
  change MAX_DISTANCE with 65535 in Hmax. split_and!.
  - apply holds_app. split; [done | by rewrite <- Hop].
  - lia.
  - apply seqs_ok_snoc; [done |]. unfold seq_ok; cbn [lits off mlen]. split_and!; (lia || done).
  - unfold expand1; cbn [lits off mlen]. apply repeat_holds; rewrite ?Hsz; try (lia || done). eapply repeated_sub; [exact Hr | lia | lia].
  - rewrite size_expand1; cbn [lits off mlen]; [| lia]. rewrite size_app in Hsz. lia.
Qed.

(** The offset and the length of the match are written. *)
Lemma put_seq_runs {B} dst token op ip ls o ss e (k : list Z * Z -> result B) Q :
  bytes dst -> emitted dst token (ip - size ls) ss -> bytes ls -> holds src (ip - size ls) ls -> 0 < o <= ip -> o <= MAX_DISTANCE ->
  ip + 4 <= e <= size src -> repeated src ip e o -> holds dst token (enc_lits 0 ls ++ le_bytes 2 o) -> op = token + size (enc_lits 0 ls) + 2 ->
  op + size (len_more (e - (ip + 4))) <= size dst ->
  (forall dst', same_but dst dst' token (size dst) -> emitted dst' (op + size (len_more (e - (ip + 4)))) e (ss ++ [MkSeq ls o (e - ip)]) ->
    runs (k (dst', op + size (len_more (e - (ip + 4))))) Q) ->
  runs (p ← put_match dst token op (e - (ip + 4)) ; k p) Q.
Proof.
  intros Hbd Hem Hbl Hls Ho Hmax He Hr Hh -> Hroom' Hk. pose proof (size_nonneg ls). unfold enc_lits in Hh. cbn [app] in Hh.
  assert (H2 : size (le_bytes 2 o) = 2) by (unfold size; by rewrite le_bytes_length).
  eapply runs_bind; [apply (put_match_runs dst token _ (size ls) ((len_more (size ls) ++ ls) ++ le_bytes 2 o)); try (lia || done); rewrite size_enc_lits, !size_app; lia |].
  intros (dst' & op') (-> & Hs & Hh'). apply Hk; [done |].
  assert (Henc : token_of (size ls) (e - (ip + 4)) :: ((len_more (size ls) ++ ls) ++ le_bytes 2 o) ++ len_more (e - (ip + 4)) = enc_seq (MkSeq ls o (e - ip))).
  { unfold enc_seq, enc_lits; cbn [lits off mlen app]. replace (e - ip - 4) with (e - (ip + 4)) by lia. by rewrite <- !app_assoc. }
  rewrite Henc in Hh'. replace (token + size (enc_lits 0 ls) + 2 + _) with (token + size (enc_seq (MkSeq ls o (e - ip)))).
  2: { rewrite <- Henc, size_cons, !size_app, size_enc_lits. lia. }
  eapply emitted_snoc; try done; try lia. eapply emitted_same; [exact Hem | exact Hs | lia].
Qed.

(** The position after a match is looked up. *)
Lemma next_position_runs dst table op e ss : op + 3 <= N -> array_ok dst -> emitted dst op e ss -> 2 <= e <= size src - MFLIMIT -> table_ok v table e ->
  runs (next_position v h src dst table op e) (next_ok (2 * (size src - e) + 3)).
Proof using Hb Hv Hdest.
  intros HopN Harr Hem He Ht. unfold next_position. pose proof Hv as (Hlog & _ & Hw & _). destruct (emitted_op _ _ _ _ Hem) as (Hop & Hanchor). change MFLIMIT with 12 in *.
  eapply runs_bind; [apply hash_value_runs; lia |]. intros h2 Hh2. eapply runs_bind; [apply (table_set_runs v table e e h2 (e - 2)); (lia || done) |]. intros table1 Ht1.
  eapply runs_bind; [apply hash_value_runs; lia |]. intros hv Hhv. eapply runs_bind; [eapply table_get_runs; [exact Ht1 | done] |]. intros ref Href. cbn beta in Href.
  eapply runs_bind; [apply (table_set_runs v table1 e (e + 1) hv e); (lia || done) |]. intros table2 Ht2.
  eapply runs_bind; [apply match_test; try (lia || done); change MFLIMIT with 12; lia |]. intros found Htest. cbn beta in Htest, Ht2.
  destruct found.
  - destruct (Htest eq_refl) as (Hd & Hr). destruct Harr as (Hbd & HN). eapply runs_bind; [apply poke_runs; [lia | done] |]. intros d1 (Hs & Ha). simpl. split; [| lia].
    assert (Henc : enc_lits 0 [] = [0]) by done. split_and!; try lia.
    + eapply array_same; [| exact Hs]; by split.
    + exists ss, []. rewrite size_nil, Z.sub_0_r, Henc. assert (size d1 = size dst) by apply Hs.
      split_and!; try done; [eapply emitted_same; [exact Hem | exact Hs | lia] | apply holds_nil; lia |].
      apply holds_cons. split_and!; try (lia || done); apply holds_nil; lia.
    + exists e. change MFLIMIT with 12. split_and!; (lia || done).
  - eapply runs_bind; [apply hash_value_runs; lia |]. intros fH HfH. simpl. split; [| lia]. split_and!; try apply HfH; try done; [by exists ss | change MFLIMIT with 12; lia].
Qed.

Lemma match_step dst table op ip ref token : match_ok dst table op ip ref token ->
  runs (lz4_match v h src dst table oend op ip ref token) (next_ok (stage_left (Match ip ref token))).
Proof using Hb Hv Hdest Hroom.
  intros ((Hbd & HN) & Hop2 & Href & Hd & (ss & ls & Hem & Hbl & Hls & Hh & Hop) & top & Htop & Ht & Hr). destruct (emitted_op _ _ _ _ Hem) as (Htok & _).
  unfold lz4_match. change (Z.of_nat (length src)) with (size src). change MFLIMIT with 12 in *. change MINMATCH with 4. change LASTLITERALS with 5. change (1 + 5) with 6.
  set (o := ip - ref) in *. assert (Ho : 0 < o <= ip) by lia. pose proof (size_nonneg (enc_lits 0 ls)).
  assert (H2 : size (le_bytes 2 o) = 2) by (unfold size; by rewrite le_bytes_length).
  eapply runs_bind; [apply store_at_runs; [lia | lia | done | apply le_bytes_byte] |]. rewrite H2. intros d1 (Hs1 & Hh1).
  replace (ref + 4) with (ip + 4 - o) by lia. eapply runs_bind; [apply count_match_runs; (lia || done) |]. intros e (He & Hre & Hmax).
  assert (Hre' : repeated src ip e o) by (eapply repeated_app; [apply (repeated_sub src ip (top + 4) ip (ip + 4) o Hr); lia | done]).
  specialize (Hmax (top + 4) ltac:(lia) ltac:(apply (repeated_sub src ip (top + 4) (ip + 4) (top + 4) o Hr); lia)).
  destruct (Z.ltb_spec oend (op + 2 + 6 + Z.shiftr (e - (ip + 4)) 8)); [simpl; eapply array_same; [| exact Hs1]; by split |].
  pose proof (len_more_room (e - (ip + 4)) (size src) ltac:(lia)) as Hmore. pose proof (size_nonneg (len_more (e - (ip + 4)))).
  assert (HN1 : size d1 = size dst) by apply Hs1.
  eapply (put_seq_runs d1 token (op + 2) ip ls o ss e); try (lia || done); [apply Hs1 | eapply emitted_same; [exact Hem | exact Hs1 | lia] | |].
  { apply holds_app. rewrite <- Hop. split; [| done]. eapply holds_same; [exact Hs1 | done | lia]. }
  intros d2 Hs2 Hem2. assert (Harr2 : array_ok d2) by (eapply array_same; [| exact Hs2]; split; [apply Hs1 | lia]).
  destruct (Z.ltb_spec (size src - 12) e).
  - simpl. split; [done |]. eexists. split; [exact Hem2 | right; lia].
  - eapply runs_impl; [eapply next_position_runs; [| done | exact Hem2 | change MFLIMIT with 12; lia | eapply table_ok_mono; [exact Ht | lia]]; lia |].
    intros [dst' table' op' st | |] Hn; [| done | done]. destruct Hn as (Hok & Hleft). split; [done |]. simpl. lia.
Qed.

Lemma lz4_loop_runs fuel dst table op st : stage_ok dst table op st -> stage_left st <= Z.of_nat fuel -> 0 < stage_left st ->
  runs (lz4_loop fuel v h src dst table oend op st) (fun '(dst', r) =>
    match r with None => array_ok dst' | Some (op', anchor) => last_ok dst' op' anchor end).
Proof using Hb Hv Hdest Hroom.
  revert dst table op st. induction fuel as [| fuel IH]; intros dst table op st Hok Hf Hpos; [lia |]. cbn [lz4_loop].
  eapply (runs_bind _ _ (next_ok (stage_left st))); [destruct st; [by apply search_step | by apply match_step] |].
  intros [dst' table' op' st' | dst' op' anchor | dst'] Hn; [| done | done]. destruct Hn as (Hok' & Hlt). apply IH; [done | lia |].
  destruct st' as [ip anchor fH | ip ref token]; cbn [stage_left].
  - destruct Hok' as (_ & (ss & Hem) & _). apply emitted_op in Hem. lia.
  - destruct Hok' as (_ & _ & _ & _ & _ & top & Htop & _). change MFLIMIT with 12 in Htop. lia.
Qed.
End Loop.

(** ** The end *)
(** The block is complete: [op] is after the encoding of sequences and last
    literals that stand for the source. *)
Definition complete (src dst : list Z) (dest op : Z) : Prop :=
  exists ss last, block_ok ss last /\ content ss last = src /\ holds dst dest (encode ss last) /\ op = dest + size (encode ss last).

Definition ended (src : list Z) (N dest oend : Z) '(dst, o) : Prop :=
  array_ok N dst /\ match o with None => True | Some op => complete src dst dest op /\ dest < op <= oend end.

Lemma last_literals_runs src N dest oend dst op anchor : bytes src -> 0 <= dest -> oend <= N -> last_ok src N dest dst op anchor ->
  runs (last_literals src dst oend op anchor) (ended src N dest oend).
Proof.
  intros Hb Hdest HoN ((Hbd & HN) & ss & Hem & H5). pose proof (emitted_op _ _ _ _ _ _ Hem) as (Hop & Hanchor).
  unfold last_literals. change (Z.of_nat (length src)) with (size src). change RUN_MASK with 15. change ML_BITS with 4. set (n := size src - anchor).
  destruct (Z.ltb_spec oend (op + n + 1 + (n + 255 - 15) / 255)) as [| Hfit]; [simpl; by split_and! |].
  assert (Hmore : size (len_more n) = if n <? 15 then 0 else (n - 15) / 255 + 1) by (apply size_len_more; lia).
  assert (Hle : size (len_more n) <= (n + 255 - 15) / 255) by (rewrite Hmore; destruct (Z.ltb_spec n 15); Z.to_euclidean_division_equations; lia).
  pose proof (size_nonneg (len_more n)). eapply runs_bind; [apply put_token_runs; (lia || done) |]. intros (d1 & op1) (-> & Hs1 & Hh1). rewrite size_cons in *.
  assert (HN1 : size d1 = size dst) by apply Hs1. assert (Hz : size (seg src anchor n) = n) by (apply size_seg; lia).
  rewrite bytes_at_Ok, bind_Ok, Z2Nat.id by lia. eapply runs_bind; [apply store_at_runs; [lia | lia | apply Hs1 | by apply seg_bytes] |]. rewrite Hz. intros d2 (Hs2 & Hh2).
  simpl. split; [split; [apply Hs2 | destruct Hs2; lia] |]. split; [| lia]. destruct Hem as (He1 & He2 & He3 & He4 & He5).
  exists ss, (seg src anchor n). split_and!.
  - split_and!; [done | by apply seg_bytes |]. rewrite Hz. destruct H5; [by left | right; lia].
  - unfold content. apply holds_eq in He4. rewrite He5 in He4. unfold seg in *. rewrite drop_0 in He4. rewrite <- He4, (take_ge (drop _ _)); [apply take_drop |].
    rewrite length_drop. unfold n, size in *. lia.
  - unfold encode. apply holds_app. split.
    + eapply holds_same; [exact Hs2 | eapply holds_same; [exact Hs1 | done | lia] | lia].
    + rewrite <- He2. unfold enc_lits. rewrite Hz, app_comm_cons. apply holds_app. rewrite size_cons. split; [| done]. eapply holds_same; [exact Hs2 | done | rewrite size_cons; lia].
  - unfold encode. rewrite size_app, size_enc_lits, Hz. lia.
Qed.

Lemma lz4_finish_runs src N dest oend o : bytes src -> 0 <= dest -> oend <= N ->
  (let '(dst, r) := o in match r with None => array_ok N dst | Some (op, anchor) => last_ok src N dest dst op anchor end) ->
  runs (lz4_finish src oend o) (ended src N dest oend).
Proof. destruct o as (dst & [(op & anchor) |]); intros Hb Hdest HoN Ho; [by apply last_literals_runs | simpl; by split]. Qed.

(** Nothing is written at first. *)
Lemma emitted_nil src dest dst : 0 <= dest <= size dst -> emitted src dest dst dest 0 [].
Proof. intros Hd. pose proof (size_nonneg src). split_and!; [by apply holds_nil | unfold enc_seqs; simpl; rewrite size_nil; lia | done | apply holds_nil; lia | done]. Qed.

Section Contexts.
Context (h : endian) (src dst table : list Z) (dest osize : Z).
Hypothesis (Hb : bytes src) (Hbd : bytes dst) (Hdest : 0 <= dest) (Hos : 0 <= osize) (Hroom : dest + osize + size src / 2048 <= size dst).

Lemma short_block : runs (last_literals src dst (dest + osize) dest 0) (ended src (size dst) dest (dest + osize)).
Proof using Hb Hbd Hdest Hos Hroom.
  pose proof (Z.div_pos (size src) 2048 (size_nonneg src) ltac:(lia)).
  apply last_literals_runs; [done | done | lia |]. split; [done |]. exists []. split; [apply emitted_nil; lia | by left].
Qed.

Lemma loop_block v table' fH : variant_ok v src -> MINLENGTH <= size src -> table_ok v table' 1 -> 0 <= fH < 2 ^ v_log v ->
  runs (o ← lz4_loop (loop_fuel src) v h src dst table' (dest + osize) dest (Search 1 0 fH) ; lz4_finish src (dest + osize) o) (ended src (size dst) dest (dest + osize)).
Proof using Hb Hbd Hdest Hos Hroom.
  intros Hv Hmin Ht HfH. pose proof (Z.div_pos (size src) 2048 (size_nonneg src) ltac:(lia)). change MINLENGTH with 13 in Hmin.
  eapply runs_bind; [apply (lz4_loop_runs h v src (size dst) dest); try done |].
  - split_and!; try done; try apply HfH; [exists []; apply emitted_nil; lia | change MFLIMIT with 12; lia].
  - unfold loop_fuel, stage_left, size. lia.
  - unfold stage_left. lia.
  - intros o Ho. apply lz4_finish_runs; (lia || done).
Qed.

Lemma LZ4_compressCtx_runs : size src < 2 ^ 31 -> table_ok ctx_large table 1 ->
  runs (LZ4_compressCtx h src dst table dest osize) (ended src (size dst) dest (dest + osize)).
Proof using Hb Hbd Hdest Hos Hroom.
  intros H31 Ht. unfold LZ4_compressCtx. change (Z.of_nat (length src)) with (size src). destruct (Z.ltb_spec (size src) MINLENGTH) as [| Hge]; [apply short_block |].
  assert (Hv : variant_ok ctx_large src) by (unfold variant_ok; simpl; unfold HASH_LOG, MFLIMIT, COPYLENGTH, MINMATCH; lia). change MINLENGTH with 13 in Hge.
  eapply runs_bind; [apply hash_value_runs; [apply Hv | lia | lia] |]. intros h0 Hh0. eapply runs_bind; [apply (table_set_runs ctx_large table 1 1 h0 0); (done || lia) |]. intros t1 Ht1.
  eapply runs_bind; [apply hash_value_runs; [apply Hv | lia | lia] |]. intros fH HfH. apply loop_block; done.
Qed.

Lemma LZ4_compress64kCtx_runs : size src < LZ4_64KLIMIT -> table_ok ctx_64k table 1 ->
  runs (LZ4_compress64kCtx h src dst table dest osize) (ended src (size dst) dest (dest + osize)).
Proof using Hb Hbd Hdest Hos Hroom.
  intros H64 Ht. unfold LZ4_compress64kCtx. change (Z.of_nat (length src)) with (size src). destruct (Z.ltb_spec (size src) MINLENGTH) as [| Hge]; [apply short_block |].
  change LZ4_64KLIMIT with 65547 in H64.
  assert (Hv : variant_ok ctx_64k src) by (unfold variant_ok; change MFLIMIT with 12; change MAX_DISTANCE with 65535; simpl; unfold HASHLOG64K, HASH_LOG; lia). change MINLENGTH with 13 in Hge.
  eapply runs_bind; [apply hash_value_runs; [apply Hv | lia | lia] |]. intros fH HfH. apply loop_block; done.
Qed.
End Contexts.

Lemma table_zero v : 0 <= v_log v -> table_ok v (replicate (Z.to_nat (Z.shiftl 1 (v_log v))) 0) 1.
Proof. intros Hv. split; [rewrite length_replicate, Z.shiftl_1_l; pose proof (Z.pow_nonneg 2 (v_log v)); lia | apply Forall_replicate; lia]. Qed.

Lemma real_LZ4_compress_runs h ctx src dst dest osize : bytes src -> bytes dst -> 0 <= dest -> 0 <= osize -> dest + osize + size src / 2048 <= size dst -> size src < 2 ^ 31 ->
  runs (real_LZ4_compress h ctx src dst dest osize) (ended src (size dst) dest (dest + osize)).
Proof.
  intros Hb Hbd Hdest Hos Hroom H31. unfold real_LZ4_compress. change (Z.of_nat (length src)) with (size src). destruct ctx; cbn [negb]; [| simpl; by split].
  destruct (Z.ltb_spec (size src) LZ4_64KLIMIT).
  - apply LZ4_compress64kCtx_runs; try done. by apply (table_zero ctx_64k).
  - apply LZ4_compressCtx_runs; try done. by apply (table_zero ctx_large).
Qed.

Lemma lz4_compress_zfs_runs h ctx src dst d_len : bytes src -> bytes dst -> size src < 2 ^ 31 -> 4 <= d_len -> d_len + size src / 2048 <= size dst -> d_len < 2 ^ 31 ->
  runs (lz4_compress_zfs h ctx src dst d_len) (fun '(n, dst') => bytes dst' /\ size dst' = size dst /\ (n = size src \/
    4 < n <= d_len /\ exists ss last, block_ok ss last /\ content ss last = src /\ n = 4 + size (encode ss last) /\
      holds dst' 0 (bytes_of BIG 4 (size (encode ss last)) ++ encode ss last))).
Proof.
  intros Hb Hbd H31 Hd Hroom Hd31. unfold lz4_compress_zfs. rewrite VERIFY_pass by lia.
  eapply runs_bind; [apply real_LZ4_compress_runs; (lia || done) |]. intros (d1 & [op |]) ((Hb1 & HN1) & Hend); [| simpl; split_and!; [done | done | by left]].
  destruct Hend as ((ss & last & Hok & Hc & Hh & ->) & Hop). pose proof (Z.div_pos (size src) 2048 (size_nonneg src) ltac:(lia)).
  assert (H4 : size (bytes_of BIG 4 (4 + size (encode ss last) - 4)) = 4) by (unfold size; by rewrite bytes_of_length).
  eapply runs_bind; [apply store_at_runs; [lia | lia | done | apply bytes_of_byte] |]. rewrite H4. intros d2 (Hs2 & Hh2). cbn [runs].
  split_and!; [apply Hs2 | destruct Hs2; lia |]. right. split; [lia |]. exists ss, last. split_and!; [done .. |].
  replace (4 + size (encode ss last) - 4) with (size (encode ss last)) in * by lia. apply holds_app. rewrite H4. split; [done |]. eapply holds_same; [exact Hs2 | done | lia].
Qed.
