(* ===== verification/Lz4Thms.v ===== *)
(** * Correctness of LZ4 *)
From S2P Require Import Prelude Bytes Words Lz4 Lz4Mem Lz4Format Lz4Decode Lz4Encode.
Local Open Scope Z_scope.

(** C10: the decompressor is safe on every input. Whatever bytes it is given
    and whatever length they claim, it terminates, loads nothing outside of
    the source and stores nothing outside of the first [d_len] bytes of the
    destination. *)
Theorem lz4_decompress_safe src dst s_len d_len :
  bytes src -> bytes dst -> 4 <= size src < 2 ^ 31 -> s_len <= size src -> 0 <= d_len <= size dst ->
  exists failed dst', lz4_decompress_zfs src dst s_len d_len = Ok (failed, dst') /\ same_but dst dst' 0 d_len.
Proof.
  intros Hs Hd Hsz Hsl Hdl. pose proof (lz4_decompress_zfs_safe src dst s_len d_len Hs Hd Hsz Hsl Hdl) as H.
  apply runs_Ok in H as ((failed & dst') & E & H). eauto.
Qed.

Lemma lz4_decompress_safe_witness :
  exists failed dst', lz4_decompress_zfs [0; 0; 0; 3; 31; 7; 9] [1; 2; 3; 4] 7 3 = Ok (failed, dst') /\ at_ dst' 3 = 4.
Proof.
  destruct (lz4_decompress_safe [0; 0; 0; 3; 31; 7; 9] [1; 2; 3; 4] 7 3) as (failed & dst' & E & _ & _ & H);
    [by repeat constructor | by repeat constructor | done | done | done |].
  exists failed, dst'. split; [exact E |]. apply (H 3); lia.
Defined.

(** C12: the decompressor decodes the format. From any block of the LZ4 format
    (sequences of literals and matches, then last literals), with its size
    before it and any padding after it, it restores what the block stands
    for, at the start of a destination that has room for it, and leaves the
    bytes after [d_len]. *)
Theorem lz4_decompress_correct ss last pad dst s_len d_len :
  block_ok ss last -> bytes (encode ss last) -> bytes pad -> bytes dst ->
  size (encode ss last) < 2 ^ 31 -> 4 + size (encode ss last) <= s_len ->
  size (content ss last) <= d_len -> d_len <= size dst -> d_len < 2 ^ 31 ->
  exists dst', lz4_decompress_zfs (bytes_of BIG 4 (size (encode ss last)) ++ encode ss last ++ pad) dst s_len d_len = Ok (false, dst') /\
    take (length (content ss last)) dst' = content ss last /\ same_but dst dst' 0 d_len.
Proof.
  intros Hok He Hp Hd H31 Hs Hc Hdd Hd31. pose proof (lz4_decompress_zfs_correct ss last pad dst s_len d_len Hok He Hp Hd H31 Hs Hc Hdd Hd31) as H.
  apply runs_Ok in H as ((failed & dst') & E & -> & Hh & Hsb). exists dst'. split_and!; [exact E | by apply holds_take | done].
Qed.

Lemma lz4_decompress_correct_witness :
  exists dst', lz4_decompress_zfs (bytes_of BIG 4 10 ++ [21; 7; 1; 0; 80; 1; 2; 3; 4; 5] ++ [0; 0]) (replicate 16 0) 16 16 = Ok (false, dst') /\
    take 15 dst' = replicate 10 7 ++ [1; 2; 3; 4; 5].
Proof.
  destruct (lz4_decompress_correct [MkSeq [7] 1 9] [1; 2; 3; 4; 5] [0; 0] (replicate 16 0) 16 16) as (dst' & E & H & _).
  1: split_and!; [split; [split_and!; [by repeat constructor | done ..] | done] | by repeat constructor | by right].
  1-3: by repeat constructor.
  1-5: done.
  exists dst'. split; [exact E | exact H].
Defined.

(** C11: what the compressor stores is a block of the LZ4 format that stands for
    the source. For any source of less than 2^31 bytes, on a machine of either
    byte order and whether or not there is memory for its table, it
    terminates; with room in the destination array for [d_len] bytes and one
    more for each 2048 bytes of source it stays inside the arrays; and it
    returns either the size of the source or the size, at most [d_len], of a
    header and a block whose content is the source. *)
Theorem lz4_compress_correct h ctx src dst d_len :
  bytes src -> bytes dst -> size src < 2 ^ 31 -> 4 <= d_len < 2 ^ 31 -> d_len + size src / 2048 <= size dst ->
  exists n dst', lz4_compress_zfs h ctx src dst d_len = Ok (n, dst') /\ (n = size src \/
    4 < n <= d_len /\ exists ss last, block_ok ss last /\ content ss last = src /\
      take (Z.to_nat n) dst' = bytes_of BIG 4 (size (encode ss last)) ++ encode ss last).
Proof.
  intros Hs Hd H31 Hdl Hroom. pose proof (lz4_compress_zfs_runs h ctx src dst d_len Hs Hd H31 ltac:(lia) Hroom ltac:(lia)) as H.
  apply runs_Ok in H as ((n & dst') & E & Hb & Hsz & Hn). exists n, dst'. split; [exact E |].
  destruct Hn as [-> | (Hn & ss & last & Hok & Hc & -> & Hh)]; [by left |]. right. split; [lia |]. exists ss, last. split_and!; [done | done |].
  apply holds_take in Hh. etransitivity; [| exact Hh]. f_equal. rewrite length_app, bytes_of_length. unfold size. lia.
Qed.

Lemma lz4_compress_correct_witness :
  exists n dst', lz4_compress_zfs BIG true (replicate 64 5) (replicate 64 0) 56 = Ok (n, dst') /\ n = 15 /\
    exists ss last, block_ok ss last /\ content ss last = replicate 64 5.
Proof.
  destruct (lz4_compress_correct BIG true (replicate 64 5) (replicate 64 0) 56) as (n & dst' & E & H);
    [apply Forall_replicate; done | apply Forall_replicate; done | done | done | done |].
  exists n, dst'. split; [exact E |]. assert (n = 15) as -> by (vm_compute in E; by injection E). split; [done |].
  destruct H as [H | (_ & ss & last & H1 & H2 & _)]; [vm_compute in H; discriminate H |]. exists ss, last. split; [exact H1 | exact H2].
Defined.


(** Input that is not of the format may be accepted: of a compressed size of
    zero the decompressor makes nothing and reports success, and a match at
    distance zero leaves whatever was there before. *)
Example lz4_decompress_accepts_garbage :
  lz4_decompress_zfs [0; 0; 0; 0] (replicate 4 170) 4 4 = Ok (false, replicate 4 170) /\
  lz4_decompress_zfs [0; 0; 0; 9; 0; 0; 0; 80; 1; 2; 3; 4; 5] (replicate 12 170) 13 12 = Ok (false, [0; 0; 80; 1; 1; 2; 3; 4; 5; 170; 170; 170]).
Proof. split; vm_compute; reflexivity. Qed.
