(* ===== verification/ZioCompress.v ===== *)
(** * Compression of blocks: gzip and the table

    gzip over zlib, and the table through which blocks are compressed. *)
From Stdlib Require Import String.
From S2P Require Import Prelude Bytes Words Lzjb Zle Lz4.
Local Open Scope Z_scope.

(** * gzip compression (zfs/module/zfs/gzip.c, spl/module/spl/spl-zlib.c)

    The streams of the kernel's zlib are parameters, a record of the functions
    that are called; [zlib_ok] is what zlib documents of them. [ws] is
    whether there is memory for a workspace. *)
Definition Z_OK : Z := 0.
Definition Z_STREAM_END : Z := 1.
Definition Z_NEED_DICT : Z := 2.
Definition Z_DATA_ERROR : Z := -3.
Definition Z_MEM_ERROR : Z := -4.
Definition Z_BUF_ERROR : Z := -5.

(** A call with [Z_FINISH] on a fresh stream: of its input and the room for its
    output, the code it returns and the output; [zlib_inflate] also leaves
    [avail_in]. *)
Record zlib : Type := MkZlib {
  zlib_deflateInit : Z -> Z;
  zlib_deflate : Z -> list Z -> Z -> Z * list Z;
  zlib_deflateEnd : Z -> list Z -> Z -> Z;
  zlib_inflateInit : Z;
  zlib_inflate : list Z -> Z -> Z * list Z * Z;
  zlib_inflateEnd : list Z -> Z -> Z }.

(** [(uInt)x] *)
Definition uInt (x : Z) : Z := x mod 2 ^ 32.
(** [avail_in] bytes of the source. *)
Definition stream_in (source : list Z) : list Z := take (Z.to_nat (uInt (Z.of_nat (length source)))) source.

(** The code and the bytes of the destination, as many as [*destLen]. *)
Definition z_compress_level (zl : zlib) (ws : bool) (destLen : Z) (source : list Z) (level : Z) : Z * list Z :=
  let avail_out := uInt destLen in
  if negb (avail_out =? destLen) then (Z_BUF_ERROR, [])
  else if negb ws then (Z_MEM_ERROR, [])
  else
    let err := zlib_deflateInit zl level in
    if negb (err =? Z_OK) then (err, [])
    else
      let '(err, out) := zlib_deflate zl level (stream_in source) avail_out in
      if negb (err =? Z_STREAM_END) then ((if err =? Z_OK then Z_BUF_ERROR else err), out)
      else (zlib_deflateEnd zl level (stream_in source) avail_out, out).

Definition z_uncompress (zl : zlib) (ws : bool) (destLen : Z) (source : list Z) : Z * list Z :=
  let avail_out := uInt destLen in
  if negb (avail_out =? destLen) then (Z_BUF_ERROR, [])
  else if negb ws then (Z_MEM_ERROR, [])
  else
    let err := zlib_inflateInit zl in
    if negb (err =? Z_OK) then (err, [])
    else
      let '(err, out, avail_in) := zlib_inflate zl (stream_in source) avail_out in
      if negb (err =? Z_STREAM_END) then
        ((if (err =? Z_NEED_DICT) || ((err =? Z_BUF_ERROR) && (avail_in =? 0)) then Z_DATA_ERROR else err), out)
      else (zlib_inflateEnd zl (stream_in source) avail_out, out).

(** The length returned and the bytes stored. *)
Definition gzip_compress (zl : zlib) (ws : bool) (s : list Z) (d_len n : Z) : result (Z * list Z) :=
  let s_len := Z.of_nat (length s) in
  VERIFY (d_len <=? s_len) ;;
  let '(err, out) := z_compress_level zl ws d_len s n in
  if negb (err =? Z_OK) then
    if negb (d_len =? s_len) then Ok (s_len, out) else Ok (s_len, s)
  else Ok (Z.of_nat (length out), out).

(** [d] is the destination before the call. *)
Definition gzip_decompress (zl : zlib) (ws : bool) (s d : list Z) : result (Z * list Z) :=
  let d_len := Z.of_nat (length d) in
  VERIFY (Z.of_nat (length s) <=? d_len) ;;
  let '(err, out) := z_uncompress zl ws d_len s in
  Ok (if negb (err =? Z_OK) then -1 else 0, out ++ drop (length out) d).

(** ** What zlib promises *)
(** A finished stream is not empty and fits in its room; inflating it, whatever follows it, with
    room for the data it was made of gives back the data. *)
Record zlib_ok (zl : zlib) : Prop := MkZlibOk {
  deflate_ok : forall level s room out, zlib_deflate zl level s room = (Z_STREAM_END, out) ->
    0 < Z.of_nat (length out) <= room /\
    forall pad room', Z.of_nat (length s) <= room' -> exists left, zlib_inflate zl (out ++ pad) room' = (Z_STREAM_END, s, left);
  inflate_init_ok : zlib_inflateInit zl = Z_OK;
  inflate_end_ok : forall s room out left, zlib_inflate zl s room = (Z_STREAM_END, out, left) -> zlib_inflateEnd zl s room = Z_OK }.

Lemma stream_in_all s : Z.of_nat (length s) < 2 ^ 32 -> stream_in s = s.
Proof. intros Hs. unfold stream_in, uInt. rewrite Z.mod_small by lia. apply take_ge. lia. Qed.

Lemma gzip_round_trip zl ws s d_len n : zlib_ok zl -> 0 <= d_len -> d_len < Z.of_nat (length s) < 2 ^ 31 ->
  runs (gzip_compress zl ws s d_len n) (fun '(r, out) => r <= d_len -> 0 < r /\ Z.of_nat (length out) = r /\
    forall pad d, length d = length s -> r + Z.of_nat (length pad) <= Z.of_nat (length s) -> gzip_decompress zl true (out ++ pad) d = Ok (0, s)).
Proof.
  intros Hzl Hd Hs. unfold gzip_compress. rewrite VERIFY_pass by lia. unfold z_compress_level, uInt. rewrite (Z.mod_small d_len), Z.eqb_refl by lia. cbn [negb].
  assert (Hfail : forall err out, err <> Z_OK -> runs (if negb (err =? Z_OK) then if negb (d_len =? Z.of_nat (length s)) then Ok (Z.of_nat (length s), out) else Ok (Z.of_nat (length s), s)
    else Ok (Z.of_nat (length out), out)) (fun '(r, _) => d_len < r)).
  { intros err out He. destruct (Z.eqb_spec err Z_OK); [done |]. cbn [negb]. destruct (Z.eqb_spec d_len (Z.of_nat (length s))); simpl; lia. }
  destruct ws; cbn [negb]; [| eapply runs_impl; [by apply Hfail | intros (r & out); lia]].
  destruct (Z.eqb_spec (zlib_deflateInit zl n) Z_OK) as [_ | Hi]; cbn [negb]; [| eapply runs_impl; [by apply Hfail | intros (r & out); lia]].
  rewrite stream_in_all by lia. destruct (zlib_deflate zl n s d_len) as (err & out) eqn:Ed.
  destruct (Z.eqb_spec err Z_STREAM_END) as [-> | He]; cbn [negb]; [| eapply runs_impl; [apply Hfail; by destruct (Z.eqb_spec err Z_OK) | intros (r & out'); lia]].
  destruct (Z.eqb_spec (zlib_deflateEnd zl n s d_len) Z_OK) as [_ |]; cbn [negb]; [| destruct (Z.eqb_spec d_len (Z.of_nat (length s))); simpl; lia].
  simpl. intros Hr. destruct (deflate_ok zl Hzl _ _ _ _ Ed) as (Ho & Hinf). split_and!; [lia | done |]. intros pad d Hd' Hpad.
  unfold gzip_decompress, z_uncompress, uInt. rewrite VERIFY_pass by (rewrite length_app; lia). rewrite (Z.mod_small (Z.of_nat (length d))), Z.eqb_refl, (inflate_init_ok zl Hzl), stream_in_all by (rewrite ?length_app; lia).
  cbn [negb]. change (negb (Z_OK =? Z_OK)) with false. cbv iota. destruct (Hinf pad (Z.of_nat (length d)) ltac:(lia)) as (left & El). rewrite El.
  change (negb (Z_STREAM_END =? Z_STREAM_END)) with false. cbv iota. rewrite (inflate_end_ok zl Hzl _ _ _ _ El). simpl. rewrite drop_ge, app_nil_r by lia. done.
Qed.

(** * The compression vectors (zfs/module/zfs/zio_compress.c)

    A compression function takes the source, the destination array, [d_len]
    and the level, and returns a length and the bytes it stored at the start of
    the destination, which are of no use when the length is not below that of
    the source. A decompression function takes a source of [s_len] bytes and a
    destination of [d_len] bytes. *)
Definition compress_func : Type := list Z -> list Z -> Z -> Z -> result (Z * list Z).
Definition decompress_func : Type := list Z -> list Z -> Z -> result (Z * list Z).

Record zio_compress_info : Type := MkCi {
  ci_compress : option compress_func;
  ci_decompress : option decompress_func;
  ci_level : Z;
  ci_name : string }.

(** [enum zio_compress] *)
Definition ZIO_COMPRESS_INHERIT : Z := 0.
Definition ZIO_COMPRESS_ON : Z := 1.
Definition ZIO_COMPRESS_OFF : Z := 2.
Definition ZIO_COMPRESS_LZJB : Z := 3.
Definition ZIO_COMPRESS_EMPTY : Z := 4.
Definition ZIO_COMPRESS_GZIP_1 : Z := 5.
Definition ZIO_COMPRESS_ZLE : Z := 14.
Definition ZIO_COMPRESS_LZ4 : Z := 15.
Definition ZIO_COMPRESS_FUNCTIONS : Z := 16.
Definition ZIO_COMPRESS_LEGACY_ON_VALUE : Z := ZIO_COMPRESS_LZJB.
Definition ZIO_COMPRESS_LZ4_ON_VALUE : Z := ZIO_COMPRESS_LZ4.
Definition EINVAL : Z := 22.

(** What the functions depend on: the byte order, whether there is memory for
    the context of LZ4 and the workspace of zlib, zlib, and the address of
    the source, which LZJB keeps in its table. *)
Record compress_env : Type := MkEnv { e_endian : endian; e_ctx : bool; e_ws : bool; e_zlib : zlib; e_addr : Z }.

(** The functions with the signatures of the table. *)
Definition lzjb_compress_func (e : compress_env) : compress_func := fun src _ d_len _ => lzjb_compress (e_addr e) src d_len.
Definition lzjb_decompress_func : decompress_func := fun src dst _ => lzjb_decompress src dst.
Definition gzip_compress_func (e : compress_env) : compress_func := fun src _ d_len n => gzip_compress (e_zlib e) (e_ws e) src d_len n.
Definition gzip_decompress_func (e : compress_env) : decompress_func := fun src dst _ => gzip_decompress (e_zlib e) (e_ws e) src dst.
Definition zle_compress_func : compress_func := fun src _ d_len n => zle_compress src d_len n.
Definition zle_decompress_func : decompress_func := fun src dst n => zle_decompress src (Z.of_nat (List.length dst)) n.
Definition lz4_compress_func (e : compress_env) : compress_func := fun src dst d_len _ =>
  '(r, dst) ← lz4_compress_zfs (e_endian e) (e_ctx e) src dst d_len ; Ok (r, take (Z.to_nat r) dst).
Definition lz4_decompress_func : decompress_func := fun src dst _ =>
  '(failed, dst) ← lz4_decompress_zfs src dst (Z.of_nat (List.length src)) (Z.of_nat (List.length dst)) ; Ok (if failed : bool then 1 else 0, dst).

Definition zio_compress_table (e : compress_env) : list zio_compress_info :=
  let gzip n name := MkCi (Some (gzip_compress_func e)) (Some (gzip_decompress_func e)) n name in
  [MkCi None None 0 "inherit";
   MkCi None None 0 "on";
   MkCi None None 0 "uncompressed";
   MkCi (Some (lzjb_compress_func e)) (Some lzjb_decompress_func) 0 "lzjb";
   MkCi None None 0 "empty";
   gzip 1 "gzip-1"; gzip 2 "gzip-2"; gzip 3 "gzip-3"; gzip 4 "gzip-4"; gzip 5 "gzip-5";
   gzip 6 "gzip-6"; gzip 7 "gzip-7"; gzip 8 "gzip-8"; gzip 9 "gzip-9";
   MkCi (Some zle_compress_func) (Some zle_decompress_func) 64 "zle";
   MkCi (Some (lz4_compress_func e)) (Some lz4_decompress_func) 0 "lz4"]%string.

(** [lz4_active] is [spa_feature_is_active(spa, SPA_FEATURE_LZ4_COMPRESS)]. *)
Definition zio_compress_select (lz4_active : bool) (child parent : Z) : result Z :=
  VERIFY (child <? ZIO_COMPRESS_FUNCTIONS) ;;
  VERIFY (parent <? ZIO_COMPRESS_FUNCTIONS) ;;
  VERIFY (negb (parent =? ZIO_COMPRESS_INHERIT)) ;;
  let result := if child =? ZIO_COMPRESS_INHERIT then parent else child in
  Ok (if result =? ZIO_COMPRESS_ON then if lz4_active then ZIO_COMPRESS_LZ4_ON_VALUE else ZIO_COMPRESS_LEGACY_ON_VALUE else result).

(** The loop over the words of the source: [word] after it. *)
Fixpoint zero_words (fuel : nat) (h : endian) (src : list Z) (word word_end : Z) : result Z :=
  if word <? word_end then
    match fuel with
    | O => Panic
    | S f => w ← load_word h 8 src word ; if negb (w =? 0) then Ok word else zero_words f h src (word + 8) word_end
    end
  else Ok word.

(** The row of the table; a panic when there is none. *)
Definition table_row (e : compress_env) (c : Z) : result zio_compress_info :=
  deref (if 0 <=? c then zio_compress_table e !! Z.to_nat c else None).

Definition zio_compress_data (e : compress_env) (c : Z) (src dst : list Z) : result (Z * list Z) :=
  let s_len := Z.of_nat (List.length src) in
  ci ← table_row e c ;
  VERIFY (bool_decide (c = ZIO_COMPRESS_EMPTY) || bool_decide (is_Some (ci_compress ci))) ;;
  word ← zero_words (List.length src) (e_endian e) src 0 s_len ;
  if word =? s_len then Ok (0, [])
  else if c =? ZIO_COMPRESS_EMPTY then Ok (s_len, [])
  else
    let d_len := s_len - Z.shiftr s_len 3 in
    f ← deref (ci_compress ci) ;
    '(c_len, out) ← f src dst d_len (ci_level ci) ;
    if d_len <? c_len then Ok (s_len, out) else Ok (c_len, out).

(** The error and the destination. *)
Definition zio_decompress_data (e : compress_env) (c : Z) (src dst : list Z) : result (Z * list Z) :=
  if (0 <=? c) && (c <? ZIO_COMPRESS_FUNCTIONS) then
    ci ← table_row e c ;
    match ci_decompress ci with
    | None => Ok (EINVAL, dst)
    | Some f => f src dst (ci_level ci)
    end
  else Ok (EINVAL, dst).
