(* ===== verification/ZioCompressThms.v ===== *)
(** * Compression of blocks

    The contract of a compression function, which each function of the table
    meets, and the round trip through the table. *)
From S2P Require Import Prelude Bytes Words Lzjb LzjbThms Zle ZleThms Lz4 Lz4Mem Lz4Format Lz4Decode Lz4Encode ZioCompress.
Local Open Scope Z_scope.

(** * What a compression vector promises

    [Codec] is the contract of a row of the table, and each of the four pairs
    of functions meets it. Blocks are padded to whole sectors, so the
    decompressor is given what was stored and more bytes after it. *)
(** The room [zio_compress_data] gives. *)
Definition room_for (src : list Z) : Z := size src - Z.shiftr (size src) 3.

(** Any compression that fits in the room is undone, whatever the destination
    held and whatever follows the compressed bytes. *)
Class Codec (f : compress_func) (g : decompress_func) (level : Z) : Prop := {
  codec_round_trip : forall src dst, bytes src -> bytes dst -> 8 <= size src < 2 ^ 31 -> size dst = size src ->
    runs (f src dst (room_for src) level) (fun '(r, out) => r <= room_for src -> 0 < r /\ size out = r /\
      forall pad d, bytes pad -> bytes d -> size d = size src -> r + size pad <= size src -> g (out ++ pad) d level = Ok (0, src)) }.

Lemma room_bounds src : 8 <= size src -> 4 <= room_for src < size src /\ room_for src + size src / 2048 <= size src.
Proof. intros H. unfold room_for. rewrite Z.shiftr_div_pow2 by lia. change (2 ^ 3) with 8. Z.to_euclidean_division_equations. lia. Qed.

(** ** LZJB *)
Lemma byte_at_more s pad i b : byte_at s i = Ok b -> byte_at (s ++ pad) i = Ok b.
Proof.
  unfold byte_at. destruct (Z.leb_spec 0 i); [| done]. destruct (s !! Z.to_nat i) as [x |] eqn:E; [| done]. intros H'. by rewrite (lookup_app_l_Some _ _ _ _ E).
Qed.

Lemma lzjb_token_more s pad src d dst c mask o : lzjb_token s src d dst c mask = Ok o -> lzjb_token (s ++ pad) src d dst c mask = Ok o.
Proof.
  unfold lzjb_token. destruct (negb _).
  - intros H. apply bind_Ok_inv in H as (b0 & E0 & H). apply bind_Ok_inv in H as (b1 & E1 & H). by rewrite (byte_at_more _ _ _ _ E0), bind_Ok, (byte_at_more _ _ _ _ E1), bind_Ok.
  - intros H. apply bind_Ok_inv in H as (b & E & H). by rewrite (byte_at_more _ _ _ _ E), bind_Ok.
Qed.

Lemma lzjb_decompress_loop_more fuel s pad src d dst c mask r :
  lzjb_decompress_loop fuel s src d dst c mask = Ok r -> lzjb_decompress_loop fuel (s ++ pad) src d dst c mask = Ok r.
Proof.
  revert src d dst c mask. induction fuel as [| fuel IH]; intros src d dst c mask; cbn [lzjb_decompress_loop]; [done |].
  destruct (dst <? _); [| done]. destruct (_ =? _); intros H.
  1: apply bind_Ok_inv in H as (b & E & H); rewrite (byte_at_more _ _ _ _ E), bind_Ok.
  all: apply bind_Ok_inv in H as (o & E' & H); rewrite (lzjb_token_more _ _ _ _ _ _ _ _ E'), bind_Ok; destruct o as [((src' & d') & dst') |]; [by apply IH | done].
Qed.

#[global] Instance lzjb_codec e level : Codec (lzjb_compress_func e) lzjb_decompress_func level.
Proof.
  split. intros src dst Hb _ Hs _. destruct (room_bounds src ltac:(lia)) as (Hr & _). unfold lzjb_compress_func, lzjb_decompress_func.
  destruct (lzjb_roundtrip (e_addr e) src (room_for src) src Hb ltac:(lia) eq_refl) as (r & out & E & _). rewrite E. simpl. intros Hle.
  assert (Hd : forall d, length d = length src -> r = Z.of_nat (length out) /\ lzjb_decompress out d = Ok (0, src)).
  { intros d Hd. destruct (lzjb_roundtrip (e_addr e) src (room_for src) d Hb ltac:(lia) Hd) as (r' & out' & E' & H'). rewrite E in E'. injection E' as <- <-.
    destruct H' as (H1 & _ & H2); [unfold size in Hr; lia | done]. }
  destruct (Hd src eq_refl) as (Hro & Hdec0). split_and!; [| done |].
  { destruct src as [| x src]; [rewrite size_nil in Hs; lia |]. destruct out; [by vm_compute in Hdec0 | simpl in Hro; lia]. }
  intros pad d _ _ Hsd _. destruct (Hd d) as (_ & Hdec); [unfold size in Hsd; lia |].
  unfold lzjb_decompress in *. by apply lzjb_decompress_loop_more.
Qed.

(** ** ZLE *)
Lemma zle_copy_more len s pad src d_len dst r : zle_copy len s src d_len dst = Ok r -> zle_copy len (s ++ pad) src d_len dst = Ok r.
Proof.
  revert src dst. induction len as [| len IH]; intros src dst; cbn [zle_copy]; [done |]. intros H. apply bind_Ok_inv in H as (b & E & H).
  apply bind_Ok_inv in H as (dst' & E' & H). rewrite (byte_at_more _ _ _ _ E), bind_Ok, E', bind_Ok. by apply IH.
Qed.

Lemma zle_decompress_loop_more fuel fuel' s pad d_len n src dst src' dst' : (fuel <= fuel')%nat ->
  zle_decompress_loop fuel s d_len n src dst = Ok (src', dst') -> Z.of_nat (length dst') = d_len ->
  zle_decompress_loop fuel' (s ++ pad) d_len n src dst = Ok (src', dst').
Proof.
  revert fuel' src dst. induction fuel as [| fuel IH]; intros fuel' src dst Hf; cbn [zle_decompress_loop].
  all: destruct (Z.ltb_spec src (Z.of_nat (length s))), (Z.ltb_spec (Z.of_nat (length dst)) d_len) as [Hlt | Hge]; cbn [andb]; try done.
  all: try (intros [= <- <-] He; lia).
  all: try (intros [= <- <-] He; destruct fuel'; cbn [zle_decompress_loop]; rewrite (proj2 (Z.ltb_ge _ _) Hge), andb_false_r; done).
  intros H' He. destruct fuel' as [| fuel']; [lia |]. cbn [zle_decompress_loop]. rewrite length_app.
  rewrite (proj2 (Z.ltb_lt _ _) Hlt), (proj2 (Z.ltb_lt src _)) by lia. cbn [andb]. apply bind_Ok_inv in H' as (b & E & H'). rewrite (byte_at_more _ _ _ _ E), bind_Ok.
  destruct (1 + b <=? n).
  - apply bind_Ok_inv in H' as ((src1 & dst1) & E1 & H'). rewrite (zle_copy_more _ _ _ _ _ _ _ E1), bind_Ok. apply IH; (lia || done).
  - apply bind_Ok_inv in H' as (dst1 & E1 & H'). rewrite E1, bind_Ok. apply IH; (lia || done).
Qed.

Lemma zle_decompress_more s pad d_len n out : zle_decompress s d_len n = Ok (0, out) -> zle_decompress (s ++ pad) d_len n = Ok (0, out).
Proof.
  unfold zle_decompress. intros H. apply bind_Ok_inv in H as ((src & dst) & E & H). destruct (Z.eqb_spec (Z.of_nat (length dst)) d_len) as [Hd |]; [| done].
  injection H as <-. rewrite (zle_decompress_loop_more (length s) _ s pad _ _ _ _ src dst) by (rewrite ?length_app; (lia || done)). rewrite bind_Ok. by rewrite Hd, Z.eqb_refl.
Qed.

#[global] Instance zle_codec level : 1 <= level <= 255 -> Codec zle_compress_func zle_decompress_func level.
Proof.
  intros Hl. split. intros src dst Hb _ Hs _. destruct (room_bounds src ltac:(lia)) as (Hr & _). unfold zle_compress_func, zle_decompress_func.
  destruct (zle_roundtrip src (room_for src) level Hl Hb ltac:(lia)) as (r & out & E & _ & Hrt). rewrite E. simpl. intros Hle.
  destruct Hrt as (-> & Hdec); [unfold size in Hr; lia |]. split_and!; [| done |].
  { destruct src as [| x src]; [rewrite size_nil in Hs; lia |]. destruct out; [by vm_compute in Hdec | simpl; lia]. }
  intros pad d _ _ Hsd _. apply zle_decompress_more. unfold size in Hsd. by rewrite Hsd.
Qed.

(** ** gzip *)
#[global] Instance gzip_codec e level : zlib_ok (e_zlib e) -> e_ws e = true -> Codec (gzip_compress_func e) (gzip_decompress_func e) level.
Proof.
  intros Hzl Hws. split. intros src dst Hb _ Hs _. destruct (room_bounds src ltac:(lia)) as (Hr & _). unfold gzip_compress_func, gzip_decompress_func. rewrite Hws.
  unfold size in *. eapply runs_impl; [apply gzip_round_trip; [done | lia | lia] |]. intros (r & out) H' Hle. destruct (H' Hle) as (H0 & H1 & H2).
  split_and!; [done | done |]. intros pad d _ _ Hd Hpad. apply H2; [lia | done].
Qed.

(** ** LZ4 *)
#[global] Instance lz4_codec e level : Codec (lz4_compress_func e) lz4_decompress_func level.
Proof.
  split. intros src dst Hb Hbd Hs Hsd. destruct (room_bounds src ltac:(lia)) as (Hr & Hroom). unfold lz4_compress_func, lz4_decompress_func.
  eapply runs_bind; [apply lz4_compress_zfs_runs; (lia || done) |]. intros (n & dst') (Hb' & Hsd' & Hn). simpl. intros Hle.
  destruct Hn as [-> | (Hn4 & ss & last & Hok & Hc & -> & Hh)]; [lia |]. pose proof (size_nonneg (encode ss last)).
  assert (H4 : size (bytes_of BIG 4 (size (encode ss last))) = 4) by (unfold size; by rewrite bytes_of_length).
  assert (Hout : take (Z.to_nat (4 + size (encode ss last))) dst' = bytes_of BIG 4 (size (encode ss last)) ++ encode ss last).
  { apply holds_take in Hh. etransitivity; [| exact Hh]. f_equal. rewrite length_app. unfold size in *. lia. }
  rewrite Hout. split_and!; [lia | rewrite size_app; lia |]. intros pad d Hbp Hbd0 Hsd0 Hpad. rewrite <- app_assoc.
  assert (Hbe : bytes (encode ss last)) by (apply holds_bytes in Hh; [| done]; by apply Forall_app in Hh as (_ & Hh)).
  pose proof (size_nonneg pad).
  pose proof (lz4_decompress_zfs_correct ss last pad d (Z.of_nat (length (bytes_of BIG 4 (size (encode ss last)) ++ encode ss last ++ pad))) (Z.of_nat (length d)) Hok Hbe Hbp Hbd0) as Hdec.
  fold (size (bytes_of BIG 4 (size (encode ss last)) ++ encode ss last ++ pad)) in *. fold (size d) in *. rewrite !size_app, Hc, H4 in Hdec. rewrite !size_app, H4.
  apply runs_Ok in Hdec as ((failed & d') & E & -> & Hh' & Hsb); [| lia ..]. rewrite E, bind_Ok. do 2 f_equal.
  apply holds_eq in Hh'. destruct Hsb as (Hsz & _). rewrite <- Hh'. unfold seg. rewrite drop_0, take_ge; [done |]. unfold size in *. lia.
Qed.

(** ** The table *)
(** The rows with functions. *)
Lemma table_row_codec e c ci f : zlib_ok (e_zlib e) -> e_ws e = true -> table_row e c = Ok ci -> ci_compress ci = Some f ->
  exists g, ci_decompress ci = Some g /\ Codec f g (ci_level ci).
Proof.
  intros Hzl Hws. unfold table_row. destruct (Z.leb_spec 0 c); [| done]. destruct (zio_compress_table e !! Z.to_nat c) as [ci' |] eqn:E; [| done]. intros [= ->] Hf.
  apply list_elem_of_lookup_2 in E. unfold zio_compress_table in E. rewrite !elem_of_cons in E.
  assert (Hz : Codec zle_compress_func zle_decompress_func 64) by (apply zle_codec; lia).
  repeat (destruct E as [-> | E]; [simpl in Hf |- *; (discriminate Hf || (injection Hf as <-; eexists; split; [reflexivity |]; auto using lzjb_codec, gzip_codec, lz4_codec)) |]).
  by apply not_elem_of_nil in E.
Qed.

(** * Compression of blocks

    The round trip through [zio_compress_data] and [zio_decompress_data], for
    every compression function of the table. *)
Notation zeroes := (Forall (eq 0)).

Lemma seg_zero h src p : bytes src -> 0 <= p -> p + 8 <= size src -> word_of h (seg src p 8) = 0 <-> forall i, p <= i < p + 8 -> at_ src i = 0.
Proof.
  intros Hb Hp Hs. assert (Hz : size (seg src p 8) = 8) by (apply size_seg; lia). pose proof (seg_bytes src p 8 Hb) as Hsb.
  assert (Hrep : forall n, le_word (replicate n 0) = 0) by (induction n as [| n IH]; simpl; lia).
  split.
  - intros E i Hi. pose proof (bytes_of_word h _ Hsb) as E'. rewrite E in E'. assert (bytes_of h (length (seg src p 8)) 0 = replicate 8 0) as E0.
    { unfold size in Hz. replace (length (seg src p 8)) with 8%nat by lia. by destruct h. }
    rewrite E0 in E'. pose proof (at_seg src p 8 (i - p) Hp ltac:(lia)) as Ha. rewrite <- E' in Ha. replace (p + (i - p)) with i in Ha by lia.
    rewrite <- Ha. unfold at_. apply lookup_total_replicate_2. lia.
  - intros H. assert (seg src p 8 = replicate 8 0) as ->; [| by destruct h].
    apply at_ext; [done |]. intros i Hi. rewrite at_seg, H by lia. unfold at_. symmetry. apply lookup_total_replicate_2. lia.
Qed.

Lemma zero_words_runs fuel h src word : bytes src -> (8 | size src) -> (8 | word) -> 0 <= word <= size src -> size src - word <= 8 * Z.of_nat fuel ->
  (forall i, 0 <= i < word -> at_ src i = 0) ->
  runs (zero_words fuel h src word (size src)) (fun w => w = size src <-> forall i, 0 <= i < size src -> at_ src i = 0).
Proof.
  intros Hb Hdiv. revert word. induction fuel as [| fuel IH]; intros word Hdw Hw Hf Hz; cbn [zero_words].
  - destruct (Z.ltb_spec word (size src)); [lia |]. simpl. replace word with (size src) in * by lia. done.
  - destruct (Z.ltb_spec word (size src)); [| simpl; replace word with (size src) in * by lia; done].
    assert (word + 8 <= size src) by (destruct Hdiv, Hdw; lia). rewrite load_word_Ok, bind_Ok by lia. change (Z.of_nat 8) with 8.
    destruct (Z.eqb_spec (word_of h (seg src word 8)) 0) as [E | E]; cbn [negb].
    + rewrite seg_zero in E by (lia || done). apply IH; [by apply Z.divide_add_r; [| exists 1] | lia | lia |]. intros i Hi. destruct (Z.lt_ge_cases i word); [apply Hz | apply E]; lia.
    + simpl. split; [lia |]. intros Hall. destruct E. apply seg_zero; [done | lia | lia |]. intros i Hi. apply Hall. lia.
Qed.

Lemma zeroes_at src : zeroes src <-> forall i, 0 <= i < size src -> at_ src i = 0.
Proof.
  rewrite Forall_lookup. unfold at_, size. split.
  - intros H i Hi. destruct (lookup_lt_is_Some_2 src (Z.to_nat i) ltac:(lia)) as (x & E). rewrite list_lookup_total_alt, E. simpl. symmetry. eauto.
  - intros H i x E. specialize (H (Z.of_nat i)). rewrite Nat2Z.id, list_lookup_total_alt, E in H. symmetry. apply H. apply lookup_lt_Some in E. lia.
Qed.

(** The rows [zio_compress_data] may be called with. *)
Lemma table_row_Ok e c : ZIO_COMPRESS_LZJB <= c < ZIO_COMPRESS_FUNCTIONS ->
  exists ci, table_row e c = Ok ci /\ (c = ZIO_COMPRESS_EMPTY \/ exists f, ci_compress ci = Some f /\ c <> ZIO_COMPRESS_EMPTY).
Proof.
  unfold ZIO_COMPRESS_LZJB, ZIO_COMPRESS_FUNCTIONS, ZIO_COMPRESS_EMPTY. intros Hc.
  assert (c = 3 \/ c = 4 \/ c = 5 \/ c = 6 \/ c = 7 \/ c = 8 \/ c = 9 \/ c = 10 \/ c = 11 \/ c = 12 \/ c = 13 \/ c = 14 \/ c = 15) as Hcs by lia.
  repeat destruct Hcs as [-> | Hcs]; [.. | subst c]; (eexists; split; [reflexivity |]); (left; reflexivity) || (right; eexists; split; [reflexivity | discriminate]).
Qed.

Lemma zio_compress_data_runs e c src dst :
  zlib_ok (e_zlib e) -> e_ws e = true -> ZIO_COMPRESS_LZJB <= c < ZIO_COMPRESS_FUNCTIONS ->
  bytes src -> bytes dst -> (8 | size src) -> size src < 2 ^ 31 -> size dst = size src ->
  runs (zio_compress_data e c src dst) (fun '(r, out) => (r = 0 <-> zeroes src) /\ 0 <= r <= size src /\
    (0 < r < size src -> r <= size src - size src / 8 /\ size out = r /\
      forall pad d, bytes pad -> bytes d -> size d = size src -> r + size pad <= size src ->
        zio_decompress_data e c (out ++ pad) d = Ok (0, src))).
Proof.
  intros Hzl Hws Hc Hb Hbd Hdiv H31 Hsd. destruct (table_row_Ok e c Hc) as (ci & Erow & Hrow). unfold zio_compress_data. rewrite Erow, bind_Ok. pose proof (size_nonneg src).
  rewrite VERIFY_pass by (destruct Hrow as [-> | (f & -> & _)]; [done | by rewrite orb_true_r]). change (Z.of_nat (length src)) with (size src).
  pose proof (zero_words_runs (length src) (e_endian e) src 0 Hb Hdiv ltac:(exists 0; lia) ltac:(lia) ltac:(unfold size; lia) ltac:(lia)) as Hz.
  apply runs_Ok in Hz as (w & Ew & Hz). rewrite <- zeroes_at in Hz. rewrite Ew, bind_Ok. destruct (Z.eqb_spec w (size src)) as [Hw | Hw].
  { simpl. split_and!; try lia. by rewrite <- Hz. }
  assert (Hnz : ~ zeroes src) by (by rewrite <- Hz). assert (H8 : 8 <= size src).
  { destruct (Z.lt_ge_cases 0 (size src)); [destruct Hdiv; lia |]. destruct Hnz. apply zeroes_at. lia. }
  destruct (Z.eqb_spec c ZIO_COMPRESS_EMPTY) as [He | He].
  { simpl. split_and!; try lia. split; [lia | done]. }
  destruct Hrow as [? | (f & Ef & _)]; [done |]. rewrite Ef. cbn [deref]. rewrite bind_Ok.
  destruct (table_row_codec e c ci f Hzl Hws Erow Ef) as (g & Eg & Hcodec). fold (room_for src).
  pose proof (codec_round_trip src dst Hb Hbd ltac:(lia) Hsd) as Hrt. apply runs_Ok in Hrt as ((r & out) & E & Hrt). rewrite E, bind_Ok.
  destruct (room_bounds src H8) as (Hroom & _). destruct (Z.ltb_spec (room_for src) r).
  { simpl. split_and!; try lia. split; [lia | done]. }
  destruct (Hrt ltac:(lia)) as (Hr & Hout & Hdec). simpl. split_and!; try lia; [split; [lia | done] |]. intros Hlt. split_and!; [| done |].
  - unfold room_for in *. rewrite Z.shiftr_div_pow2 in * by lia. change (2 ^ 3) with 8 in *. lia.
  - intros pad d Hbp Hbd' Hsd' Hpad. unfold zio_decompress_data. unfold ZIO_COMPRESS_LZJB in Hc.
    destruct (Z.leb_spec 0 c), (Z.ltb_spec c ZIO_COMPRESS_FUNCTIONS); cbn [andb]; try lia. rewrite Erow, bind_Ok, Eg. by apply Hdec.
Qed.

(** C9: compressed blocks are restored. For every compression function of the
    table (LZJB, gzip at its nine levels, ZLE, LZ4), every source of whole
    words and a destination of the same size, [zio_compress_data] never
    panics. It returns 0 exactly when the source is all zeroes. When it
    returns less than the size of the source, at most seven eighths of it, so
    many bytes were stored, and [zio_decompress_data] with the same function
    restores the source from them, whatever padding follows them and
    whatever the buffer held. zlib is assumed to restore what it deflated. *)
Theorem zio_compress_round_trip e c src dst :
  zlib_ok (e_zlib e) -> e_ws e = true -> ZIO_COMPRESS_LZJB <= c < ZIO_COMPRESS_FUNCTIONS ->
  bytes src -> bytes dst -> (8 | size src) -> size src < 2 ^ 31 -> size dst = size src ->
  exists r out, zio_compress_data e c src dst = Ok (r, out) /\ (r = 0 <-> zeroes src) /\ 0 <= r <= size src /\
    (0 < r < size src -> r <= size src - size src / 8 /\ size out = r /\
      forall pad d, bytes pad -> bytes d -> size d = size src -> r + size pad <= size src ->
        zio_decompress_data e c (out ++ pad) d = Ok (0, src)).
Proof.
  intros Hzl Hws Hc Hb Hbd Hdiv H31 Hsd. pose proof (zio_compress_data_runs e c src dst Hzl Hws Hc Hb Hbd Hdiv H31 Hsd) as H.
  apply runs_Ok in H as ((r & out) & E & H). eauto.
Qed.

(** A zlib that only shortens runs of one byte. *)
Definition run_zlib : zlib := MkZlib (fun _ => Z_OK)
  (fun _ s room => match s with
    | [] => (Z_BUF_ERROR, [])
    | b :: _ => if bool_decide (s = replicate (length s) b) && (5 <=? room) && (size s <? 2 ^ 32) then (Z_STREAM_END, b :: le_bytes 4 (size s)) else (Z_BUF_ERROR, [])
    end)
  (fun _ _ _ => Z_OK) Z_OK
  (fun s room => match s with
    | b :: w0 :: w1 :: w2 :: w3 :: rest => (Z_STREAM_END, replicate (Z.to_nat (le_word [w0; w1; w2; w3])) b, size rest)
    | _ => (Z_DATA_ERROR, [], 0)
    end)
  (fun _ _ => Z_OK).

Lemma run_zlib_ok : zlib_ok run_zlib.
Proof.
  split; [| done | done]. intros level s room out. cbn [zlib_deflate zlib_inflate run_zlib]. destruct s as [| b s]; [done |]. destruct (bool_decide_reflect (b :: s = replicate (length (b :: s)) b)) as [E |]; [| done].
  destruct (Z.leb_spec 5 room), (Z.ltb_spec (size (b :: s)) (2 ^ 32)); cbn [andb]; try done. intros [= <-]. split; [simpl; lia |]. intros pad room' _.
  pose proof (size_nonneg (b :: s)). pose proof (le_word_bytes 4 (size (b :: s)) ltac:(simpl; lia)) as Ew.
  exists (size pad). cbn [app]. cbn [le_bytes] in Ew. unfold uchar in Ew. rewrite Ew. unfold size. rewrite Nat2Z.id, <- E. done.
Qed.

Lemma zio_compress_round_trip_witness :
  let e := MkEnv LITTLE true true run_zlib 4096 in
  exists r out, zio_compress_data e ZIO_COMPRESS_LZ4 (replicate 64 5) (replicate 64 0) = Ok (r, out) /\ r = 15 /\
    zio_decompress_data e ZIO_COMPRESS_LZ4 (out ++ [1; 2; 3]) (replicate 64 9) = Ok (0, replicate 64 5).
Proof.
  intros e. destruct (zio_compress_round_trip e ZIO_COMPRESS_LZ4 (replicate 64 5) (replicate 64 0)) as (r & out & E & _ & _ & H);
    [exact run_zlib_ok | reflexivity | done | apply Forall_replicate; done | apply Forall_replicate; done | exists 8; reflexivity | done | reflexivity |].
  exists r, out. split; [exact E |]. assert (r = 15) as -> by (vm_compute in E; by injection E). split; [reflexivity |].
  destruct H as (_ & _ & H); [split; reflexivity |]. apply H; [by repeat constructor | apply Forall_replicate; done | reflexivity | vm_compute; discriminate].
Defined.

(** The function chosen for a dataset is never "inherit" or "on", and
    [zio_decompress_data] refuses what has no function. *)
Lemma zio_compress_select_spec lz4 child parent : 0 <= child < ZIO_COMPRESS_FUNCTIONS -> 0 < parent < ZIO_COMPRESS_FUNCTIONS ->
  exists c, zio_compress_select lz4 child parent = Ok c /\ ZIO_COMPRESS_OFF <= c < ZIO_COMPRESS_FUNCTIONS.
Proof.
  unfold zio_compress_select, ZIO_COMPRESS_FUNCTIONS, ZIO_COMPRESS_INHERIT, ZIO_COMPRESS_ON, ZIO_COMPRESS_OFF. intros Hc Hp. rewrite !VERIFY_pass by lia.
  eexists. split; [done |]. destruct (Z.eqb_spec child 0); case_tests; destruct lz4; unfold ZIO_COMPRESS_LZ4_ON_VALUE, ZIO_COMPRESS_LEGACY_ON_VALUE, ZIO_COMPRESS_LZ4, ZIO_COMPRESS_LZJB; lia.
Qed.
