(* ===== verification/Embedded.v ===== *)
(** * Embedded block pointers (zfs/module/zfs/blkptr.c, zfs/include/sys/spa.h)

    Up to 112 bytes of data in the words of a block pointer itself. The code
    walks over the pointer as an array of sixteen words, [bp_words]. *)
From S2P Require Import Prelude Bytes Words Fletcher Blkptr Lz4 ZioCompress.
Local Open Scope Z_scope.

Definition BPE_NUM_WORDS : Z := 14.
Definition BPE_PAYLOAD_SIZE : Z := BPE_NUM_WORDS * 8.

(** The pointer as its words, in the order of memory. *)
Definition bp_words (bp : blkptr) : list Z :=
  [dva_word0 (blk_dva0 bp); dva_word1 (blk_dva0 bp); dva_word0 (blk_dva1 bp); dva_word1 (blk_dva1 bp); dva_word0 (blk_dva2 bp); dva_word1 (blk_dva2 bp);
   blk_prop bp; blk_pad0 bp; blk_pad1 bp; blk_phys_birth bp; blk_birth bp; blk_fill bp;
   zc_word0 (blk_cksum bp); zc_word1 (blk_cksum bp); zc_word2 (blk_cksum bp); zc_word3 (blk_cksum bp)].
Definition bp_of_words (ws : list Z) : result blkptr :=
  match ws with
  | [d0; d1; d2; d3; d4; d5; prop; pad0; pad1; phys; birth; fill; c0; c1; c2; c3] =>
      Ok (MkBp (MkDva d0 d1) (MkDva d2 d3) (MkDva d4 d5) prop pad0 pad1 phys birth fill (ZIO_SET_CHECKSUM c0 c1 c2 c3))
  | _ => Panic
  end.
(** [wp] is a position: [blk_prop] is word 6 and [blk_birth] word 10. *)
Definition BPE_IS_PAYLOADWORD (wp : Z) : bool := negb (wp =? 6) && negb (wp =? 10).

(** The pointer after [bzero]. *)
Definition bp_zero : blkptr := MkBp (MkDva 0 0) (MkDva 0 0) (MkDva 0 0) 0 0 0 0 0 0 zero_cksum.
Definition set_prop (p : Z) (bp : blkptr) : blkptr :=
  MkBp (blk_dva0 bp) (blk_dva1 bp) (blk_dva2 bp) p (blk_pad0 bp) (blk_pad1 bp) (blk_phys_birth bp) (blk_birth bp) (blk_fill bp) (blk_cksum bp).

Definition BF64_SET_SB (x low len shift bias val : Z) : result Z :=
  VERIFY (P2PHASE val (u64_shl 1 shift) =? 0) ;; VERIFY (bias <=? Z.shiftr val shift) ;; BF64_SET x low len (Z.shiftr val shift - bias).
Definition BP_SET_EMBEDDED (bp : blkptr) (x : Z) : result blkptr := p ← BF64_SET (blk_prop bp) 39 1 x ; Ok (set_prop p bp).
Definition BP_SET_COMPRESS (bp : blkptr) (x : Z) : result blkptr := p ← BF64_SET (blk_prop bp) 32 7 x ; Ok (set_prop p bp).
Definition BP_SET_BYTEORDER (bp : blkptr) (x : Z) : result blkptr := p ← BF64_SET (blk_prop bp) 63 1 x ; Ok (set_prop p bp).
Definition BP_GET_COMPRESS (bp : blkptr) : Z := BF64_GET (blk_prop bp) 32 7.
Definition BPE_SET_LSIZE (bp : blkptr) (x : Z) : result blkptr :=
  VERIFY (BP_IS_EMBEDDED bp) ;; p ← BF64_SET_SB (blk_prop bp) 0 25 0 1 x ; Ok (set_prop p bp).
Definition BPE_SET_PSIZE (bp : blkptr) (x : Z) : result blkptr :=
  VERIFY (BP_IS_EMBEDDED bp) ;; p ← BF64_SET_SB (blk_prop bp) 25 7 0 1 x ; Ok (set_prop p bp).
Definition BPE_GET_LSIZE (bp : blkptr) : result Z := VERIFY (BP_IS_EMBEDDED bp) ;; Ok (BF64_GET_SB (blk_prop bp) 0 25 0 1).
Definition BPE_GET_PSIZE (bp : blkptr) : result Z := VERIFY (BP_IS_EMBEDDED bp) ;; Ok (BF64_GET_SB (blk_prop bp) 25 7 0 1).

(** [bp64++; if (!BPE_IS_PAYLOADWORD(bp, bp64)) bp64++;] *)
Definition next_word (bp64 : Z) : Z := if BPE_IS_PAYLOADWORD (bp64 + 1) then bp64 + 1 else bp64 + 2.

(** An iteration of the loop that stores the data: the words, [bp64] and [w]. *)
Definition encode_byte (data : list Z) (i : Z) (st : list Z * Z * Z) : result (list Z * Z * Z) :=
  let '(ws, bp64, w) := st in
  b ← byte_at data i ;
  w ← BF64_SET w (i mod 8 * 8) 8 b ;
  if i mod 8 =? 7 then VERIFY (bp64 <? 16) ;; Ok (<[Z.to_nat bp64 := w]> ws, next_word bp64, 0) else Ok (ws, bp64, w).

Definition encode_embedded_bp_compressed (h : endian) (data : list Z) (comp uncompressed_size compressed_size : Z) : result blkptr :=
  VERIFY ((0 <=? compressed_size) && (compressed_size <=? BPE_PAYLOAD_SIZE)) ;;
  VERIFY ((uncompressed_size =? compressed_size) || negb (comp =? ZIO_COMPRESS_OFF)) ;;
  VERIFY (ZIO_COMPRESS_OFF <=? comp) ;;
  VERIFY (comp <? ZIO_COMPRESS_FUNCTIONS) ;;
  bp ← BP_SET_EMBEDDED bp_zero 1 ;
  bp ← BP_SET_COMPRESS bp comp ;
  bp ← BP_SET_BYTEORDER bp (ZFS_HOST_BYTEORDER h) ;
  bp ← BPE_SET_LSIZE bp uncompressed_size ;
  bp ← BPE_SET_PSIZE bp compressed_size ;
  '(ws, bp64, w) ← for_range 0 compressed_size (encode_byte data) (bp_words bp, 0, 0) ;
  bp_of_words (if bp64 <? 16 then <[Z.to_nat bp64 := w]> ws else ws).

(** An iteration of the loop that restores the data: the buffer, [bp64] and
    [w]. *)
Definition decode_byte (ws : list Z) (i : Z) (st : list Z * Z * Z) : result (list Z * Z * Z) :=
  let '(buf, bp64, w) := st in
  '(bp64, w) ← (if i mod 8 =? 0 then VERIFY (bp64 <? 16) ;; w ← deref (ws !! Z.to_nat bp64) ; Ok (next_word bp64, w) else Ok (bp64, w)) ;
  buf ← poke buf i (BF64_GET w (i mod 8 * 8) 8) ;
  Ok (buf, bp64, w).

Definition decode_embedded_bp_compressed (bp : blkptr) (buf : list Z) : result (list Z) :=
  VERIFY (BP_IS_EMBEDDED bp) ;;
  psize ← BPE_GET_PSIZE bp ;
  '(buf, _, _) ← for_range 0 psize (decode_byte (bp_words bp)) (buf, 0, 0) ;
  Ok buf.
