(* ===== verification/EmbeddedThms.v ===== *)
(** * Round trip of embedded block pointers

    Data put in the words of a block pointer is restored, and so is a block that
    was compressed first. *)
From S2P Require Import Prelude Bytes Words Fletcher Blkptr Lz4 Lz4Mem Lz4Scan ZioCompress ZioCompressThms Embedded.
Local Open Scope Z_scope.

(** ** Bit fields *)
Lemma BF64_GET_bits x low len i : 0 <= low -> 0 <= len < 64 -> 0 <= i -> Z.testbit (BF64_GET x low len) i = (i <? len) && Z.testbit x (low + i).
Proof.
  intros Hl Hn Hi. unfold BF64_GET. rewrite BF64_DECODE_spec by lia. destruct (Z.ltb_spec i len); cbn [andb].
  - rewrite Z.mod_pow2_bits_low, Z.div_pow2_bits by lia. f_equal. lia.
  - apply Z.mod_pow2_bits_high. lia.
Qed.

(** A field that is set is what it was set to, and the others are what they
    were. *)
Lemma BF64_SET_spec x low len val : 0 <= low -> 0 <= len < 64 -> low + len <= 64 -> 0 <= val < 2 ^ len ->
  exists x', BF64_SET x low len val = Ok x' /\ forall i, 0 <= i -> Z.testbit x' i = if (low <=? i) && (i <? low + len) then Z.testbit val (i - low) else Z.testbit x i.
Proof.
  intros Hl Hn Hs Hv. unfold BF64_SET. rewrite u64_shl_1, !VERIFY_pass by lia. eexists. split; [done |]. intros i Hi.
  rewrite Z.lxor_spec, BF64_ENCODE_spec by lia. destruct (Z.leb_spec low i); cbn [andb].
  - rewrite Z.mul_pow2_bits by lia. destruct (Z.ltb_spec i (low + len)).
    + rewrite Z.mod_pow2_bits_low, Z.lxor_spec, Z.shiftr_spec by lia. replace (i - low + low) with i by lia. by destruct (Z.testbit x i), (Z.testbit val (i - low)).
    + rewrite Z.mod_pow2_bits_high by lia. apply xorb_false_r.
  - rewrite Z.mul_pow2_bits_low by lia. apply xorb_false_r.
Qed.

Lemma BF64_GET_set x x' low len val : 0 <= low -> 0 <= len < 64 -> 0 <= val < 2 ^ len ->
  (forall i, 0 <= i -> Z.testbit x' i = if (low <=? i) && (i <? low + len) then Z.testbit val (i - low) else Z.testbit x i) -> BF64_GET x' low len = val.
Proof.
  intros Hl Hn Hv H. apply Z.bits_inj'. intros i Hi. rewrite BF64_GET_bits, H by lia. destruct (Z.ltb_spec i len); cbn [andb].
  - destruct (Z.leb_spec low (low + i)), (Z.ltb_spec (low + i) (low + len)); cbn [andb]; try lia. f_equal. lia.
  - symmetry. destruct (Z.eq_dec val 0) as [-> |]; [apply Z.bits_0 |]. apply Z.bits_above_log2; [lia |]. apply Z.lt_le_trans with len; [apply Z.log2_lt_pow2; lia | done].
Qed.

Lemma BF64_GET_other x x' low len low' len' val : 0 <= low' -> 0 <= len' < 64 -> low' + len' <= low \/ low + len <= low' ->
  (forall i, 0 <= i -> Z.testbit x' i = if (low <=? i) && (i <? low + len) then Z.testbit val (i - low) else Z.testbit x i) ->
  BF64_GET x' low' len' = BF64_GET x low' len'.
Proof.
  intros Hl Hn Hd H. apply Z.bits_inj'. intros i Hi. rewrite !BF64_GET_bits, H by lia. destruct (Z.ltb_spec i len'); cbn [andb]; [| done].
  destruct (Z.leb_spec low (low' + i)), (Z.ltb_spec (low' + i) (low + len)); cbn [andb]; try lia; done.
Qed.

(** A byte added above the others. *)
Lemma BF64_SET_top w r b : 0 <= r < 8 -> 0 <= w < 2 ^ (r * 8) -> is_byte b -> BF64_SET w (r * 8) 8 b = Ok (w + 256 ^ r * b).
Proof.
  unfold is_byte. intros Hr Hw Hb. unfold BF64_SET. rewrite u64_shl_1, !VERIFY_pass by lia. f_equal.
  rewrite BF64_ENCODE_spec, Z.shiftr_div_pow2, Z.div_small, Z.lxor_0_l, Z.mod_small by lia.
  replace (256 ^ r) with (2 ^ (r * 8)) by (rewrite Z.mul_comm, Z.pow_mul_r by lia; done).
  rewrite Z.lxor_comm, <- Z.add_nocarry_lxor; [lia |]. apply Z.bits_inj'. intros i Hi. rewrite Z.land_spec, Z.bits_0.
  destruct (Z.eq_dec w 0) as [-> |]; [by rewrite Z.bits_0, andb_false_r |].
  destruct (Z.lt_ge_cases i (r * 8)); [by rewrite Z.mul_pow2_bits_low by lia |]. rewrite (Z.bits_above_log2 w), andb_false_r; [done | lia |].
  apply Z.lt_le_trans with (r * 8); [apply Z.log2_lt_pow2; lia | done].
Qed.

Lemma BF64_GET_byte bs k : bytes bs -> 0 <= k < size bs -> 0 <= k < 8 -> BF64_GET (le_word bs) (k * 8) 8 = at_ bs k.
Proof.
  intros Hb Hk Hk8. apply byte_eq; [| by apply at_byte |].
  - unfold BF64_GET, is_byte. rewrite BF64_DECODE_spec by lia. change (2 ^ 8) with 256. apply Z.mod_pos_bound. lia.
  - intros j Hj. rewrite BF64_GET_bits, byte_bits by (lia || done). destruct (Z.ltb_spec j 8); [| lia]. cbn [andb]. f_equal. lia.
Qed.

(** ** The words of the payload *)
(** The position of payload word [j]. *)
Definition payload_word (j : Z) : Z := j + (if 6 <=? j then 1 else 0) + (if 9 <=? j then 1 else 0).

Lemma next_payload_word j : 0 <= j < 14 -> next_word (payload_word j) = payload_word (j + 1).
Proof. intros Hj. unfold next_word, payload_word, BPE_IS_PAYLOADWORD. case_tests; cbn [negb andb]; lia. Qed.

Lemma payload_word_inj i j : 0 <= i -> 0 <= j -> payload_word i = payload_word j -> i = j.
Proof. unfold payload_word. case_tests; lia. Qed.

Lemma payload_word_range j : 0 <= j -> 0 <= payload_word j /\ (j < 14 <-> payload_word j < 16) /\ payload_word j <> 6 /\ payload_word j <> 10.
Proof. unfold payload_word. case_tests; lia. Qed.

Lemma seg_snoc s p n : 0 <= p -> 0 <= n -> p + n < size s -> seg s p (n + 1) = seg s p n ++ [at_ s (p + n)].
Proof.
  intros. apply at_ext; rewrite ?size_app, !size_seg by lia; [done |]. intros i Hi. destruct (Z.lt_ge_cases i n).
  - rewrite at_app_l, !at_seg by (rewrite ?size_seg by lia; lia). done.
  - rewrite at_app_r, size_seg, at_seg by (rewrite ?size_seg by lia; lia). by replace i with n by lia; rewrite Z.sub_diag.
Qed.

Section Words.
Context (data : list Z) (n : Z).
Hypothesis (Hb : bytes data) (Hn : 0 <= n <= 112) (Hsz : n <= size data).

(** The first [i] bytes are in: whole words, and [w] the last one so far. *)
Definition chunk (j len : Z) : Z := le_word (seg data (8 * j) len).
Definition filled (ws0 : list Z) (i : Z) '(ws, bp64, w) : Prop :=
  length ws = 16%nat /\ bp64 = payload_word (i / 8) /\ w = chunk (i / 8) (i mod 8) /\ ws !! 6%nat = ws0 !! 6%nat /\ ws !! 10%nat = ws0 !! 10%nat /\
  forall j, 0 <= j < i / 8 -> ws !! Z.to_nat (payload_word j) = Some (chunk j 8).

(** A store to the word at [payload_word q]. *)
Lemma filled_store (ws0 ws : list Z) q w : length ws = 16%nat -> 0 <= q < 14 -> ws !! 6%nat = ws0 !! 6%nat -> ws !! 10%nat = ws0 !! 10%nat ->
  let ws' := <[Z.to_nat (payload_word q) := w]> ws in
  length ws' = 16%nat /\ ws' !! 6%nat = ws0 !! 6%nat /\ ws' !! 10%nat = ws0 !! 10%nat /\ ws' !! Z.to_nat (payload_word q) = Some w /\
  forall j, 0 <= j < q -> ws' !! Z.to_nat (payload_word j) = ws !! Z.to_nat (payload_word j).
Proof.
  intros Hl Hq H6 H10 ws'. destruct (payload_word_range q ltac:(lia)) as (Hp0 & Hp16 & Hp6 & Hp10). unfold ws'. rewrite length_insert.
  split_and!; [done | rewrite list_lookup_insert_ne by lia; done | rewrite list_lookup_insert_ne by lia; done | apply list_lookup_insert_eq; lia |].
  intros j Hj. apply list_lookup_insert_ne. destruct (payload_word_range j ltac:(lia)) as (Hj0 & _). pose proof (payload_word_inj j q ltac:(lia) ltac:(lia)). lia.
Qed.

Lemma encode_byte_runs ws0 i st : 0 <= i < n -> filled ws0 i st -> runs (encode_byte data i st) (filled ws0 (i + 1)).
Proof using Hb Hn Hsz.
  intros Hi. destruct st as ((ws & bp64) & w). intros (Hl & -> & -> & H6 & H10 & Hw). unfold encode_byte. rewrite byte_at_Ok, bind_Ok by lia.
  pose proof (Z.mod_pos_bound i 8 ltac:(lia)) as Hr. pose proof (Z.div_mod i 8 ltac:(lia)) as Hdm. assert (Hq : 0 <= i / 8 < 14) by (Z.to_euclidean_division_equations; lia).
  set (q := i / 8) in *. set (r := i mod 8) in *.
  assert (Hz : size (seg data (8 * q) r) = r) by (apply size_seg; lia).
  assert (Hwr : 0 <= chunk q r < 2 ^ (r * 8)).
  { pose proof (le_word_range (seg data (8 * q) r) (seg_bytes _ _ _ Hb)) as H. unfold size in Hz. rewrite Hz in H.
    rewrite Z.mul_comm, Z.pow_mul_r by lia. exact H. }
  rewrite BF64_SET_top, bind_Ok by (lia || by apply at_byte).
  assert (Hw1 : chunk q r + 256 ^ r * at_ data i = chunk q (r + 1)).
  { unfold chunk. rewrite seg_snoc, le_word_app by lia. unfold size in Hz. rewrite Hz. cbn [le_word]. replace (8 * q + r) with i by lia. lia. }
  rewrite Hw1. destruct (payload_word_range q ltac:(lia)) as (Hp0 & Hp16 & _). destruct (Z.eqb_spec r 7) as [H7 | H7].
  - rewrite VERIFY_pass by lia. rewrite next_payload_word by lia. destruct (filled_store ws0 ws q (chunk q (r + 1)) Hl Hq H6 H10) as (Hl' & H6' & H10' & Hq' & Hj').
    assert (Hq1 : (i + 1) / 8 = q + 1) by (Z.to_euclidean_division_equations; lia). assert (Hr1 : (i + 1) mod 8 = 0) by (Z.to_euclidean_division_equations; lia).
    simpl. rewrite Hq1, Hr1. split_and!; [done | done | done | done | done |]. intros j Hj. destruct (Z.eq_dec j q) as [-> |]; [rewrite Hq'; do 2 f_equal; lia |]. rewrite Hj', Hw by lia. done.
  - assert (Hq1 : (i + 1) / 8 = q) by (Z.to_euclidean_division_equations; lia). assert (Hr1 : (i + 1) mod 8 = r + 1) by (Z.to_euclidean_division_equations; lia).
    simpl. rewrite Hq1, Hr1. split_and!; done.
Qed.

(** The words when all of the data is in. *)
Definition payload (ws : list Z) : Prop := forall j, 0 <= 8 * j < n -> ws !! Z.to_nat (payload_word j) = Some (chunk j (Z.min 8 (n - 8 * j))).

Lemma encode_words_runs ws0 : length ws0 = 16%nat ->
  runs ('(ws, bp64, w) ← for_range 0 n (encode_byte data) (ws0, 0, 0) ; Ok (if bp64 <? 16 then <[Z.to_nat bp64 := w]> ws else ws))
    (fun ws => length ws = 16%nat /\ ws !! 6%nat = ws0 !! 6%nat /\ payload ws).
Proof using Hb Hn Hsz.
  intros Hl0. eapply runs_bind; [apply (for_range_inv 0 n (encode_byte data) (ws0, 0, 0) (filled ws0)); [lia | | intros i st Hi; by apply encode_byte_runs] |].
  { split_and!; try done. intros j Hj. change (0 / 8) with 0 in Hj. lia. }
  intros ((ws & bp64) & w) (Hl & -> & -> & H6 & H10 & Hw). pose proof (Z.div_mod n 8 ltac:(lia)) as Hdm. pose proof (Z.mod_pos_bound n 8 ltac:(lia)) as Hr.
  assert (Hq0 : 0 <= n / 8) by (apply Z.div_pos; lia). destruct (payload_word_range (n / 8) Hq0) as (Hp0 & Hp16 & _). simpl.
  destruct (Z.ltb_spec (payload_word (n / 8)) 16) as [Hlt | Hge].
  - destruct (filled_store ws0 ws (n / 8) (chunk (n / 8) (n mod 8)) Hl ltac:(lia) H6 H10) as (Hl' & H6' & _ & Hq' & Hj'). split_and!; [done | done |].
    intros j Hj. destruct (Z.lt_ge_cases j (n / 8)); [rewrite Hj', Hw by lia; do 2 f_equal; lia |]. assert (j = n / 8) as -> by lia. rewrite Hq'. do 2 f_equal. lia.
  - split_and!; [done | done |]. intros j Hj. rewrite Hw by lia. do 2 f_equal. lia.
Qed.

(** ** The data restored *)
Definition restored (buf : list Z) (ws : list Z) (i : Z) '(buf', bp64, w) : Prop :=
  same_but buf buf' 0 i /\ holds buf' 0 (seg data 0 i) /\ bp64 = payload_word ((i + 7) / 8) /\ (i mod 8 <> 0 -> w = chunk (i / 8) (Z.min 8 (n - 8 * (i / 8)))).

Lemma decode_byte_runs buf ws i st : payload ws -> 0 <= i < n -> n <= size buf -> restored buf ws i st -> runs (decode_byte ws i st) (restored buf ws (i + 1)).
Proof using Hb Hn Hsz.
  intros Hpay Hi Hbuf. destruct st as ((buf1 & bp64) & w). intros (Hs & Hh & -> & Hw). unfold decode_byte.
  pose proof (Z.mod_pos_bound i 8 ltac:(lia)) as Hr. pose proof (Z.div_mod i 8 ltac:(lia)) as Hdm. assert (Hq : 0 <= i / 8 < 14) by (Z.to_euclidean_division_equations; lia).
  set (q := i / 8) in *. set (r := i mod 8) in *. set (m := Z.min 8 (n - 8 * q)).
  assert (Hld : (if r =? 0 then VERIFY (payload_word ((i + 7) / 8) <? 16) ;; w ← deref (ws !! Z.to_nat (payload_word ((i + 7) / 8))) ; Ok (next_word (payload_word ((i + 7) / 8)), w)
    else Ok (payload_word ((i + 7) / 8), w)) = Ok (payload_word ((i + 1 + 7) / 8), chunk q m)).
  { replace ((i + 1 + 7) / 8) with (q + 1) by (Z.to_euclidean_division_equations; lia). destruct (Z.eqb_spec r 0) as [H0 | H0].
    - replace ((i + 7) / 8) with q by (Z.to_euclidean_division_equations; lia). destruct (payload_word_range q ltac:(lia)) as (_ & Hp16 & _).
      rewrite VERIFY_pass by lia. rewrite Hpay by lia. cbn [deref]. rewrite bind_Ok, next_payload_word by lia. done.
    - replace ((i + 7) / 8) with (q + 1) by (Z.to_euclidean_division_equations; lia). rewrite Hw by done. done. }
  rewrite Hld, bind_Ok. assert (size buf1 = size buf) by apply Hs. assert (Hzm : size (seg data (8 * q) m) = m) by (apply size_seg; lia).
  eapply runs_bind; [apply poke_runs; [lia | apply Hs] |]. intros buf2 (Hs2 & Ha2). simpl.
  unfold chunk in Ha2. rewrite BF64_GET_byte, at_seg, uchar_byte in Ha2 by (try apply at_byte; try apply seg_bytes; lia || done). replace (8 * q + r) with i in Ha2 by lia.
  split_and!; [eapply same_but_trans; [exact Hs | exact Hs2 | lia ..] | | done |].
  - rewrite seg_snoc by lia. apply holds_app. rewrite size_seg by lia. split; [eapply holds_same; [exact Hs2 | done | rewrite size_seg by lia; lia] |].
    rewrite !Z.add_0_l. assert (size buf2 = size buf1) by apply Hs2. apply holds_cons. split_and!; [lia | lia | done | apply holds_nil; lia].
  - intros Hr1. replace ((i + 1) / 8) with q by (Z.to_euclidean_division_equations; lia). done.
Qed.

Lemma decode_words_runs buf ws : payload ws -> n <= size buf -> bytes buf ->
  runs ('(buf', _, _) ← for_range 0 n (decode_byte ws) (buf, 0, 0) ; Ok buf') (fun buf' => same_but buf buf' 0 n /\ holds buf' 0 (seg data 0 n)).
Proof using Hb Hn Hsz.
  intros Hpay Hbuf Hbb. eapply runs_bind; [apply (for_range_inv 0 n (decode_byte ws) (buf, 0, 0) (restored buf ws)); [lia | | intros i st Hi; by apply decode_byte_runs] |].
  { split_and!; [by apply same_but_refl | unfold seg; simpl; apply holds_nil; lia | done | done]. }
  intros ((buf' & bp64) & w) (Hs & Hh & _). simpl. done.
Qed.
End Words.

(** ** The header *)
(** What the [blk_prop] of an embedded block pointer says. *)
Record header_ok (h : endian) (prop comp lsize psize : Z) : Prop := MkHeaderOk {
  hdr_embedded : BF64_GET prop 39 1 = 1;
  hdr_compress : BF64_GET prop 32 7 = comp;
  hdr_order : BF64_GET prop 63 1 = ZFS_HOST_BYTEORDER h;
  hdr_lsize : BF64_GET prop 0 25 = lsize - 1;
  hdr_psize : BF64_GET prop 25 7 = psize - 1 }.

Lemma BF64_SET_SB_eq x low len val : 1 <= val -> BF64_SET_SB x low len 0 1 val = BF64_SET x low len (val - 1).
Proof.
  intros Hv. unfold BF64_SET_SB. rewrite Z.shiftr_0_r. replace (P2PHASE val (u64_shl 1 0)) with 0; [rewrite !VERIFY_pass by lia; done |].
  change (u64_shl 1 0) with (2 ^ 0). rewrite P2PHASE_mod by lia. symmetry. apply Z.mod_1_r.
Qed.

Lemma BF64_GET_SB_eq x low len : 0 <= low -> 0 <= len < 32 -> BF64_GET_SB x low len 0 1 = BF64_GET x low len + 1.
Proof.
  intros Hl Hn. unfold BF64_GET_SB. assert (0 <= BF64_GET x low len < 2 ^ 32).
  { unfold BF64_GET. rewrite BF64_DECODE_spec by lia. pose proof (Z.mod_pos_bound (x / 2 ^ low) (2 ^ len) ltac:(lia)). pose proof (Z.pow_lt_mono_r 2 len 32 ltac:(lia) ltac:(lia) ltac:(lia)). lia. }
  rewrite u64_add_small, u64_shl_small; [lia | lia | unfold is_u64, W64; lia | unfold is_u64, W64; lia].
Qed.

(** The field just set, and those set before. *)
Ltac field_of H := (eapply BF64_GET_set; [lia | lia | | exact H]; lia) || (erewrite BF64_GET_other; [| | | | exact H]; [| lia ..]).

Lemma header_runs h comp lsize psize : 0 <= comp < 2 ^ 7 -> 1 <= lsize <= 2 ^ 25 -> 1 <= psize <= 2 ^ 7 ->
  runs (bp ← BP_SET_EMBEDDED bp_zero 1 ; bp ← BP_SET_COMPRESS bp comp ; bp ← BP_SET_BYTEORDER bp (ZFS_HOST_BYTEORDER h) ;
        bp ← BPE_SET_LSIZE bp lsize ; BPE_SET_PSIZE bp psize) (fun bp => header_ok h (blk_prop bp) comp lsize psize).
Proof.
  intros Hc Hl Hp. unfold BP_SET_EMBEDDED, BP_SET_COMPRESS, BP_SET_BYTEORDER, BPE_SET_LSIZE, BPE_SET_PSIZE.
  assert (Ho : 0 <= ZFS_HOST_BYTEORDER h < 2 ^ 1) by (destruct h; simpl; lia).
  destruct (BF64_SET_spec (blk_prop bp_zero) 39 1 1) as (p1 & E1 & H1); [lia .. |]. rewrite E1, !bind_Ok. cbn [blk_prop set_prop].
  destruct (BF64_SET_spec p1 32 7 comp) as (p2 & E2 & H2); [lia .. |]. rewrite E2, !bind_Ok. cbn [blk_prop set_prop].
  destruct (BF64_SET_spec p2 63 1 (ZFS_HOST_BYTEORDER h)) as (p3 & E3 & H3); [lia .. |]. rewrite E3, !bind_Ok. unfold BP_IS_EMBEDDED. cbn [blk_prop set_prop].
  assert (He1 : BF64_GET p1 39 1 = 1) by field_of H1. assert (He3 : BF64_GET p3 39 1 = 1) by (field_of H3; field_of H2; done).
  rewrite He3, BF64_SET_SB_eq, VERIFY_pass by (done || lia).
  destruct (BF64_SET_spec p3 0 25 (lsize - 1)) as (p4 & E4 & H4); [lia .. |]. rewrite E4, !bind_Ok. cbn [blk_prop set_prop].
  assert (He4 : BF64_GET p4 39 1 = 1) by (field_of H4; done). rewrite He4, BF64_SET_SB_eq, VERIFY_pass by (done || lia).
  destruct (BF64_SET_spec p4 25 7 (psize - 1)) as (p5 & E5 & H5); [lia .. |]. rewrite E5, !bind_Ok. cbn [blk_prop set_prop runs].
  split.
  - field_of H5. done.
  - field_of H5. field_of H4. field_of H3. field_of H2.
  - field_of H5. field_of H4. field_of H3.
  - field_of H5. field_of H4.
  - field_of H5.
Qed.

Lemma bp_of_words_Ok ws : length ws = 16%nat -> exists bp, bp_of_words ws = Ok bp /\ bp_words bp = ws /\ ws !! 6%nat = Some (blk_prop bp).
Proof. intros Hl. do 17 (destruct ws as [| ? ws]; try done). by eexists. Qed.

Lemma encode_embedded_runs h data comp lsize psize : bytes data -> psize <= size data -> 1 <= psize <= BPE_PAYLOAD_SIZE -> 1 <= lsize <= 2 ^ 25 ->
  ZIO_COMPRESS_OFF <= comp < ZIO_COMPRESS_FUNCTIONS -> lsize = psize \/ comp <> ZIO_COMPRESS_OFF ->
  runs (encode_embedded_bp_compressed h data comp lsize psize) (fun bp => header_ok h (blk_prop bp) comp lsize psize /\ payload data psize (bp_words bp)).
Proof.
  intros Hb Hsz Hp Hl Hc Hoff. unfold encode_embedded_bp_compressed. change BPE_PAYLOAD_SIZE with 112 in *. change ZIO_COMPRESS_FUNCTIONS with 16 in *. change ZIO_COMPRESS_OFF with 2 in *.
  rewrite !VERIFY_pass by lia. pose proof (header_runs h comp lsize psize ltac:(lia) ltac:(lia) ltac:(lia)) as Hh. apply runs_Ok in Hh as (bp & Ebp & Hh).
  repeat (apply bind_Ok_inv in Ebp as (? & Ex & Ebp); rewrite Ex, bind_Ok; clear Ex). rewrite Ebp, bind_Ok.
  pose proof (encode_words_runs data psize Hb ltac:(lia) Hsz (bp_words bp) eq_refl) as Hw. apply runs_Ok in Hw as (ws & Ew & Hlen & H6 & Hpay).
  apply bind_Ok_inv in Ew as (((ws1 & bp64) & w) & E1 & Ew). rewrite E1, bind_Ok. injection Ew as ->.
  destruct (bp_of_words_Ok ws Hlen) as (bp' & -> & Hw' & Hprop). simpl. rewrite Hw'. split; [| done]. rewrite H6 in Hprop. cbn in Hprop. by injection Hprop as <-.
Qed.

Lemma decode_embedded_runs h data comp lsize psize bp buf : bytes data -> psize <= size data -> 1 <= psize <= BPE_PAYLOAD_SIZE -> bytes buf -> psize <= size buf ->
  header_ok h (blk_prop bp) comp lsize psize -> payload data psize (bp_words bp) ->
  runs (decode_embedded_bp_compressed bp buf) (fun buf' => same_but buf buf' 0 psize /\ holds buf' 0 (seg data 0 psize)).
Proof.
  intros Hb Hsz Hp Hbb Hbuf Hh Hpay. unfold decode_embedded_bp_compressed, BPE_GET_PSIZE, BP_IS_EMBEDDED. change BPE_PAYLOAD_SIZE with 112 in *.
  rewrite (hdr_embedded _ _ _ _ _ Hh), !VERIFY_pass by done. rewrite bind_Ok, BF64_GET_SB_eq, (hdr_psize _ _ _ _ _ Hh) by lia. replace (psize - 1 + 1) with psize by lia.
  apply decode_words_runs; (lia || done).
Qed.

(** ** Theorems *)
(** C17: an embedded block pointer gives back what was put in it. For any data
    of 1 to 112 bytes and any sizes and compression function the caller may
    pass, [encode_embedded_bp_compressed] does not panic; its sizes, its
    compression function and its byte order read as they were set; and
    [decode_embedded_bp_compressed] restores the data at the start of any
    buffer that has room for it, and leaves the rest of the buffer. *)
Theorem embedded_bp_round_trip h data comp lsize psize buf :
  bytes data -> bytes buf -> psize <= size data -> psize <= size buf -> 1 <= psize <= BPE_PAYLOAD_SIZE -> 1 <= lsize <= 2 ^ 25 ->
  ZIO_COMPRESS_OFF <= comp < ZIO_COMPRESS_FUNCTIONS -> lsize = psize \/ comp <> ZIO_COMPRESS_OFF ->
  exists bp buf', encode_embedded_bp_compressed h data comp lsize psize = Ok bp /\
    BPE_GET_LSIZE bp = Ok lsize /\ BPE_GET_PSIZE bp = Ok psize /\ BP_GET_COMPRESS bp = comp /\ BP_GET_BYTEORDER bp = ZFS_HOST_BYTEORDER h /\
    decode_embedded_bp_compressed bp buf = Ok buf' /\ seg buf' 0 psize = seg data 0 psize /\ same_but buf buf' 0 psize.
Proof.
  intros Hb Hbb Hsz Hbuf Hp Hl Hc Hoff. pose proof (encode_embedded_runs h data comp lsize psize Hb Hsz Hp Hl Hc Hoff) as He. apply runs_Ok in He as (bp & Ee & Hh & Hpay).
  pose proof (decode_embedded_runs h data comp lsize psize bp buf Hb Hsz Hp Hbb Hbuf Hh Hpay) as Hd. apply runs_Ok in Hd as (buf' & Ed & Hs & Hho).
  exists bp, buf'. pose proof (holds_eq _ _ _ Hho) as Hho'. rewrite size_seg in Hho' by lia. unfold BPE_GET_LSIZE, BPE_GET_PSIZE, BP_IS_EMBEDDED.
  rewrite (hdr_embedded _ _ _ _ _ Hh), !VERIFY_pass, !BF64_GET_SB_eq, (hdr_lsize _ _ _ _ _ Hh), (hdr_psize _ _ _ _ _ Hh) by (done || lia).
  split_and!; try done; [f_equal; lia | f_equal; lia | apply Hh | apply Hh].
Qed.

Lemma embedded_bp_round_trip_witness :
  exists bp buf', encode_embedded_bp_compressed LITTLE (replicate 100 7) ZIO_COMPRESS_LZ4 4096 60 = Ok bp /\
    decode_embedded_bp_compressed bp (replicate 64 0) = Ok buf' /\ seg buf' 0 60 = replicate 60 7.
Proof.
  destruct (embedded_bp_round_trip LITTLE (replicate 100 7) ZIO_COMPRESS_LZ4 4096 60 (replicate 64 0)) as (bp & buf' & E & _ & _ & _ & _ & D & H & _);
    [apply Forall_replicate; done | apply Forall_replicate; done | done | done | done | done | done | by right |].
  exists bp, buf'. split_and!; [exact E | exact D | exact H].
Defined.

(** C29: a block that is compressed, embedded in its block pointer, taken out of
    it and decompressed is the block. If [zio_compress_data] made at most 112
    bytes of a block of up to 2^25 bytes, the block pointer that
    [encode_embedded_bp_compressed] makes of them is all that is needed to
    restore it: [decode_embedded_bp_compressed] into a buffer of the size the
    pointer says, then [zio_decompress_data] with the function it says. *)
Theorem embedded_block_restored h e c src dst r out buf d :
  zlib_ok (e_zlib e) -> e_ws e = true -> ZIO_COMPRESS_LZJB <= c < ZIO_COMPRESS_FUNCTIONS ->
  bytes src -> bytes dst -> (8 | size src) -> size src <= 2 ^ 25 -> size dst = size src ->
  zio_compress_data e c src dst = Ok (r, out) -> bytes out -> 0 < r <= BPE_PAYLOAD_SIZE -> r < size src ->
  bytes buf -> size buf = r -> bytes d -> size d = size src ->
  exists bp buf', encode_embedded_bp_compressed h out c (size src) r = Ok bp /\ BPE_GET_PSIZE bp = Ok r /\ BPE_GET_LSIZE bp = Ok (size src) /\
    decode_embedded_bp_compressed bp buf = Ok buf' /\ zio_decompress_data e (BP_GET_COMPRESS bp) buf' d = Ok (0, src).
Proof.
  intros Hzl Hws Hc Hb Hbd Hdiv H25 Hsd E Hbo Hr Hrs Hbb Hsb Hbdd Hsdd.
  pose proof (zio_compress_data_runs e c src dst Hzl Hws Hc Hb Hbd Hdiv ltac:(lia) Hsd) as H. rewrite E in H. simpl in H. destruct H as (_ & _ & H).
  destruct H as (_ & Hout & Hdec); [lia |]. unfold ZIO_COMPRESS_LZJB in Hc.
  pose proof (encode_embedded_runs h out c (size src) r Hbo ltac:(lia) ltac:(lia) ltac:(lia) ltac:(unfold ZIO_COMPRESS_OFF; lia) ltac:(right; unfold ZIO_COMPRESS_OFF; lia)) as He.
  apply runs_Ok in He as (bp & Ee & Hh & Hpay).
  pose proof (decode_embedded_runs h out c (size src) r bp buf Hbo ltac:(lia) ltac:(lia) Hbb ltac:(lia) Hh Hpay) as Hd. apply runs_Ok in Hd as (buf' & Ed & Hs & Hho).
  exists bp, buf'. unfold BPE_GET_LSIZE, BPE_GET_PSIZE, BP_GET_COMPRESS, BP_IS_EMBEDDED.
  rewrite (hdr_embedded _ _ _ _ _ Hh), !VERIFY_pass, !BF64_GET_SB_eq, (hdr_lsize _ _ _ _ _ Hh), (hdr_psize _ _ _ _ _ Hh), (hdr_compress _ _ _ _ _ Hh) by (done || lia).
  split_and!; [done | f_equal; lia | f_equal; lia | done |].
  assert (buf' = out) as ->.
  { apply holds_eq in Hho. assert (size buf' = r) by (destruct Hs; lia). rewrite size_seg in Hho by lia. unfold seg, size in *. change (Z.to_nat 0) with 0%nat in Hho. rewrite !drop_0, !take_ge in Hho by lia. exact Hho. }
  rewrite <- (app_nil_r out). apply Hdec; [done | done | done | rewrite size_nil; lia].
Qed.

Lemma embedded_block_restored_witness :
  let e := MkEnv LITTLE true true run_zlib 4096 in
  exists r out bp buf', zio_compress_data e ZIO_COMPRESS_ZLE (replicate 96 0 ++ replicate 8 3) (replicate 104 0) = Ok (r, out) /\
    encode_embedded_bp_compressed LITTLE out ZIO_COMPRESS_ZLE 104 r = Ok bp /\ decode_embedded_bp_compressed bp (replicate (Z.to_nat r) 1) = Ok buf' /\
    zio_decompress_data e (BP_GET_COMPRESS bp) buf' (replicate 104 9) = Ok (0, replicate 96 0 ++ replicate 8 3).
Proof.
  intros e. assert (E : zio_compress_data e ZIO_COMPRESS_ZLE (replicate 96 0 ++ replicate 8 3) (replicate 104 0) = Ok (10, [159; 7; 3; 3; 3; 3; 3; 3; 3; 3])) by (vm_compute; reflexivity).
  destruct (embedded_block_restored LITTLE e ZIO_COMPRESS_ZLE (replicate 96 0 ++ replicate 8 3) (replicate 104 0) 10 [159; 7; 3; 3; 3; 3; 3; 3; 3; 3] (replicate 10 1) (replicate 104 9)
    run_zlib_ok eq_refl) as (bp & buf' & Ee & _ & _ & Ed & Ez).
  1-3: done || (by repeat constructor).
  1-3: (by exists 13) || done.
  1: exact E.
  1-7: clear E; done || (by repeat constructor).
  exists 10, [159; 7; 3; 3; 3; 3; 3; 3; 3; 3], bp, buf'. split_and!; [exact E | exact Ee | exact Ed | exact Ez].
Defined.
