(* ===== verification/ZioChecksum.v ===== *)
(** * Checksums of blocks and injected faults

    zio_inject.c and zio_checksum.c, with the two stages of zio.c. *)
From S2P Require Import Prelude Bytes Words Fletcher Blkptr Sha256.
Local Open Scope Z_scope.

(** * Injected faults on data (zfs/module/zfs/zio_inject.c)

    The records that ask for errors on reads of blocks, and how an I/O is
    matched with them. [rnd i] is what [spa_get_random(100)] returns when the
    handler number [i] is looked at. *)
Record zbookmark_phys : Type := MkZb { zb_objset : Z; zb_object : Z; zb_level : Z; zb_blkid : Z }.

(** The fields that faults on data use. *)
Record zinject_record : Type := MkInj {
  zi_objset : Z; zi_object : Z; zi_start : Z; zi_end : Z; zi_level : Z; zi_error : Z; zi_type : Z; zi_freq : Z; zi_cmd : Z }.
Record inject_handler : Type := MkHandler { zi_spa : Z; zi_record : zinject_record }.

Definition DMU_OT_NONE : Z := 0.
Definition DMU_META_OBJSET : Z := 0.
Definition DMU_META_DNODE_OBJECT : Z := 0.
Definition ZINJECT_DATA_FAULT : Z := 1.
Definition ZIO_TYPE_READ : Z := 1.

(** [record->zi_freq == 0 || spa_get_random(100) < record->zi_freq] *)
Definition freq_hit (record : zinject_record) (r : Z) : bool := (zi_freq record =? 0) || (r <? zi_freq record).

Definition zio_match_handler (zb : zbookmark_phys) (type : Z) (record : zinject_record) (error r : Z) : bool :=
  if (zb_objset zb =? DMU_META_OBJSET) && (zi_objset record =? DMU_META_OBJSET) && (zi_object record =? DMU_META_DNODE_OBJECT) then
    if (zi_type record =? DMU_OT_NONE) || (type =? zi_type record) then freq_hit record r else false
  else if (zb_objset zb =? zi_objset record) && (zb_object zb =? zi_object record) && (zb_level zb =? zi_level record) &&
          (zi_start record <=? zb_blkid zb) && (zb_blkid zb <=? zi_end record) && (error =? zi_error record) then freq_hit record r
  else false.

(** The I/O, as far as checksums and faults are concerned. *)
Record zio_t : Type := MkZio {
  io_bp : option blkptr;
  io_offset : Z;
  io_size : Z;
  io_data : list Z;
  io_error : Z;
  io_type : Z;
  io_spa : Z;
  io_bookmark : zbookmark_phys;
  io_logical : option zbookmark_phys;
  zp_checksum : Z;
  zp_type : Z;
  io_child_gang : bool;   (* io_child_type == ZIO_CHILD_GANG *)
  io_allocating : bool;   (* IO_IS_ALLOCATING *)
  io_has_vd : bool;       (* io_vd != NULL *)
  io_speculative : bool   (* io_flags & ZIO_FLAG_SPECULATIVE *) }.

Fixpoint match_any (zio : zio_t) (zb : zbookmark_phys) (error : Z) (rnd : nat -> Z) (i : nat) (handlers : list inject_handler) : Z :=
  match handlers with
  | [] => 0
  | handler :: rest =>
      if negb (io_spa zio =? zi_spa handler) || negb (zi_cmd (zi_record handler) =? ZINJECT_DATA_FAULT)
      then match_any zio zb error rnd (S i) rest
      else if zio_match_handler zb (match io_bp zio with Some bp => BP_GET_TYPE bp | None => DMU_OT_NONE end) (zi_record handler) error (rnd i)
      then error
      else match_any zio zb error rnd (S i) rest
  end.

Definition zio_handle_fault_injection (handlers : list inject_handler) (rnd : nat -> Z) (zio : zio_t) (error : Z) : Z :=
  match io_logical zio with
  | None => 0
  | Some zb => if negb (io_type zio =? ZIO_TYPE_READ) then 0 else match_any zio zb error rnd 0 handlers
  end.

(** * Checksums of blocks (zfs/module/zfs/zio_checksum.c)

    [h] is the byte order of the machine the code runs on. Logging is left
    out, but for its counter of errors, and the names of the functions. *)
Definition ZIO_CHECKSUM_INHERIT : Z := 0.
Definition ZIO_CHECKSUM_ON : Z := 1.
Definition ZIO_CHECKSUM_LABEL : Z := 3.
Definition ZIO_CHECKSUM_GANG_HEADER : Z := 4.
Definition ZIO_CHECKSUM_ZILOG : Z := 5.
Definition ZIO_CHECKSUM_FLETCHER_2 : Z := 6.
Definition ZIO_CHECKSUM_FLETCHER_4 : Z := 7.
Definition ZIO_CHECKSUM_SHA256 : Z := 8.
Definition ZIO_CHECKSUM_ZILOG2 : Z := 9.
Definition ZIO_CHECKSUM_FUNCTIONS : Z := 10.
Definition ZIO_CHECKSUM_ON_VALUE : Z := ZIO_CHECKSUM_FLETCHER_4.
Definition ZIO_CHECKSUM_MASK : Z := 255.
Definition ZIO_CHECKSUM_VERIFY : Z := 2 ^ 8.

Definition ZIO_TYPE_WRITE : Z := 2.

Definition EINVAL : Z := 22.
Definition ECKSUM : Z := 52.

Definition zio_checksum_t : Type := endian -> list Z -> Z -> result zio_cksum.

Record zio_checksum_info : Type := MkCi {
  ci_func : option (zio_checksum_t * zio_checksum_t);
  ci_correctable : Z;
  ci_eck : bool;
  ci_dedup : bool }.

Definition zio_checksum_off : zio_checksum_t := fun _ _ _ => Ok zero_cksum.
Definition SHA256_func : zio_checksum_t := fun _ buf size => zio_checksum_SHA256 buf size.

Definition zio_checksum_table : list zio_checksum_info := [
  MkCi None 0 false false;
  MkCi None 0 false false;
  MkCi (Some (zio_checksum_off, zio_checksum_off)) 0 false false;
  MkCi (Some (SHA256_func, SHA256_func)) 1 true false;
  MkCi (Some (SHA256_func, SHA256_func)) 1 true false;
  MkCi (Some (fletcher_2_native : zio_checksum_t, fletcher_2_byteswap : zio_checksum_t)) 0 true false;
  MkCi (Some (fletcher_2_native : zio_checksum_t, fletcher_2_byteswap : zio_checksum_t)) 0 false false;
  MkCi (Some (fletcher_4_native : zio_checksum_t, fletcher_4_byteswap : zio_checksum_t)) 1 false false;
  MkCi (Some (SHA256_func, SHA256_func)) 1 false true;
  MkCi (Some (fletcher_4_native : zio_checksum_t, fletcher_4_byteswap : zio_checksum_t)) 0 true false ].

Definition ci_of (checksum : Z) : option zio_checksum_info :=
  if 0 <=? checksum then zio_checksum_table !! Z.to_nat checksum else None.

Definition zio_checksum_select (child parent : Z) : result Z :=
  VERIFY (child <? ZIO_CHECKSUM_FUNCTIONS) ;; VERIFY (parent <? ZIO_CHECKSUM_FUNCTIONS) ;;
  VERIFY (negb (parent =? ZIO_CHECKSUM_INHERIT) && negb (parent =? ZIO_CHECKSUM_ON)) ;;
  Ok (if child =? ZIO_CHECKSUM_INHERIT then parent else if child =? ZIO_CHECKSUM_ON then ZIO_CHECKSUM_ON_VALUE else child).

(** [spa_dedup] is the pool's [spa_dedup_checksum]. *)
Definition zio_checksum_dedup_select (spa_dedup child parent : Z) : result Z :=
  VERIFY (Z.land child ZIO_CHECKSUM_MASK <? ZIO_CHECKSUM_FUNCTIONS) ;; VERIFY (Z.land parent ZIO_CHECKSUM_MASK <? ZIO_CHECKSUM_FUNCTIONS) ;;
  VERIFY (negb (parent =? ZIO_CHECKSUM_INHERIT) && negb (parent =? ZIO_CHECKSUM_ON)) ;;
  if child =? ZIO_CHECKSUM_INHERIT then Ok parent
  else if child =? ZIO_CHECKSUM_ON then Ok spa_dedup
  else if child =? Z.lor ZIO_CHECKSUM_ON ZIO_CHECKSUM_VERIFY then Ok (Z.lor spa_dedup ZIO_CHECKSUM_VERIFY)
  else
    ci ← deref (ci_of (Z.land child ZIO_CHECKSUM_MASK)) ;
    VERIFY (ci_dedup ci || negb (Z.land child ZIO_CHECKSUM_VERIFY =? 0) || (child =? ZIO_CHECKSUM_OFF)) ;;
    Ok child.

(** ** Checksums in memory *)
Definition load_cksum (h : endian) (data : list Z) (p : Z) : result zio_cksum :=
  w0 ← load_word h 8 data p ; w1 ← load_word h 8 data (p + 8) ; w2 ← load_word h 8 data (p + 16) ; w3 ← load_word h 8 data (p + 24) ;
  Ok (ZIO_SET_CHECKSUM w0 w1 w2 w3).
Definition store_cksum (h : endian) (data : list Z) (p : Z) (c : zio_cksum) : result (list Z) :=
  data ← store_word h 8 data p (zc_word0 c) ; data ← store_word h 8 data (p + 8) (zc_word1 c) ;
  data ← store_word h 8 data (p + 16) (zc_word2 c) ; store_word h 8 data (p + 24) (zc_word3 c).

(** [byteswap_uint64_array] on the four words. *)
Definition byteswap_uint64_array (c : zio_cksum) : zio_cksum :=
  ZIO_SET_CHECKSUM (BSWAP_64 (zc_word0 c)) (BSWAP_64 (zc_word1 c)) (BSWAP_64 (zc_word2 c)) (BSWAP_64 (zc_word3 c)).

Definition ZEC_MAGIC : Z := 0x210da7ab10c7a11.
Definition ZIL_MIN_BLKSZ : Z := 4096.

(** Offsets of the fields: a [zio_eck_t] is its magic and its checksum, a
    [zil_chain_t] begins with a pad and a block pointer. *)
Definition sizeof_zio_eck : Z := 40.
Definition zec_cksum (eck : Z) : Z := eck + 8.
Definition zc_nused : Z := 136.
Definition zc_eck : Z := 144.

Definition zio_checksum_gang_verifier (bp : blkptr) : result zio_cksum :=
  dva ← BP_IDENTITY bp ;
  let txg := BP_PHYSICAL_BIRTH bp in
  VERIFY (BP_IS_GANG bp) ;;
  Ok (ZIO_SET_CHECKSUM (DVA_GET_VDEV dva) (DVA_GET_OFFSET dva) txg 0).

Definition zio_checksum_label_verifier (offset : Z) : zio_cksum := ZIO_SET_CHECKSUM offset 0 0 0.

(** ** Writing *)
Definition DMU_OT_PLAIN_FILE_CONTENTS : Z := 19.
Definition DMU_OT_ZVOL : Z := 23.

Definition ismark (zio : zio_t) : bool :=
  ((zp_type zio =? DMU_OT_ZVOL) || (zp_type zio =? DMU_OT_PLAIN_FILE_CONTENTS)) && (zb_level (io_bookmark zio) =? 0).

(** [if (ismark) { memcpy(&bp->blk_pad[0], data, ...); BP_SET_CKSUMID(bp, checksum); }] *)
Definition mark_bp (h : endian) (zio : zio_t) (checksum : Z) (data : list Z) (bp : option blkptr) : result (option blkptr) :=
  if ismark zio then
    b ← deref bp ; w ← load_word h 8 data 0 ; b ← BP_SET_CKSUMID (set_pad w (blk_pad1 b) b) checksum ; Ok (Some b)
  else Ok bp.

(** The block pointer and the data after the call. *)
Definition zio_checksum_compute (h : endian) (zio : zio_t) (checksum : Z) (data : list Z) (size : Z) : result (option blkptr * list Z) :=
  let bp := io_bp zio in
  let offset := io_offset zio in
  VERIFY ((0 <=? checksum) && (checksum <? ZIO_CHECKSUM_FUNCTIONS)) ;;
  ci ← deref (ci_of checksum) ;
  '(native, _) ← deref (ci_func ci) ;
  if ci_eck ci then
    '(size, eck) ← (if checksum =? ZIO_CHECKSUM_ZILOG2 then
                      nused ← load_word h 8 data zc_nused ; Ok (P2ROUNDUP nused ZIL_MIN_BLKSZ, zc_eck)
                    else Ok (size, size - sizeof_zio_eck)) ;
    '(bp, data) ← (if checksum =? ZIO_CHECKSUM_GANG_HEADER then
                     b ← deref bp ; v ← zio_checksum_gang_verifier b ; data ← store_cksum h data (zec_cksum eck) v ; Ok (bp, data)
                   else if checksum =? ZIO_CHECKSUM_LABEL then
                     data ← store_cksum h data (zec_cksum eck) (zio_checksum_label_verifier offset) ; Ok (bp, data)
                   else
                     b ← deref bp ; c ← load_cksum h data (zec_cksum eck) ; Ok (Some (set_cksum c b), data)) ;
    data ← store_word h 8 data eck ZEC_MAGIC ;
    bp ← mark_bp h zio checksum data bp ;
    cksum ← native h data size ;
    data ← store_cksum h data (zec_cksum eck) cksum ;
    Ok (bp, data)
  else
    bp ← mark_bp h zio checksum data bp ;
    cksum ← native h data size ;
    b ← deref bp ;
    Ok (Some (set_cksum cksum b), data).

(** ** Reading *)
Record zio_bad_cksum : Type := MkBad {
  zbc_expected : zio_cksum;
  zbc_actual : zio_cksum;
  zbc_byteswapped : bool;
  zbc_injected : bool;
  zbc_has_cksum : bool }.

(** What is outside the I/O: the injected faults and the counter of errors. *)
Record cksum_env : Type := MkEnv {
  zio_injection_enabled : bool;
  inject_handlers : list inject_handler;
  spa_random : nat -> Z;
  zio_checksum_errs : Z;
  zio_checksum_panic : bool }.

(** The return value, the data, what was written to [*info], the counter. *)
Record cksum_result : Type := MkRes { cr_error : Z; cr_data : list Z; cr_info : option zio_bad_cksum; cr_errs : Z }.

Definition byteswap_func (b : bool) (f : zio_checksum_t * zio_checksum_t) : zio_checksum_t := if b then snd f else fst f.

(** From the comparison to the end. *)
Definition compare_cksums (env : cksum_env) (zio : zio_t) (data : list Z) (actual expected : zio_cksum) (byteswap : bool) : cksum_result :=
  let info injected := Some (MkBad expected actual byteswap injected true) in
  if negb (ZIO_CHECKSUM_EQUAL actual expected) then MkRes ECKSUM data (info false) (zio_checksum_errs env + 1)
  else
    let error := if zio_injection_enabled env && (io_error zio =? 0)
                 then zio_handle_fault_injection (inject_handlers env) (spa_random env) zio ECKSUM else 0 in
    if negb (error =? 0) then MkRes error data (info true) (zio_checksum_errs env)
    else MkRes 0 data (info false) (zio_checksum_errs env).

(** Where the trailer is and how much is checksummed; [None] when the block
    cannot be a log block. *)
Definition find_eck (h : endian) (checksum : Z) (data : list Z) (size : Z) : result (option (Z * Z)) :=
  if checksum =? ZIO_CHECKSUM_ZILOG2 then
    let eck := zc_eck in
    magic ← load_word h 8 data eck ;
    nused ← (if magic =? ZEC_MAGIC then n ← load_word h 8 data zc_nused ; Ok (Some n)
             else if magic =? BSWAP_64 ZEC_MAGIC then n ← load_word h 8 data zc_nused ; Ok (Some (BSWAP_64 n))
             else Ok None) ;
    Ok (match nused with
        | None => None
        | Some nused => if size <? nused then None else Some (P2ROUNDUP nused ZIL_MIN_BLKSZ, eck)
        end)
  else Ok (Some (size, size - sizeof_zio_eck)).

Definition zio_checksum_error (h : endian) (env : cksum_env) (zio : zio_t) : result cksum_result :=
  let bp := io_bp zio in
  let checksum := match bp with
                  | None => zp_checksum zio
                  | Some b => if BP_IS_GANG b then ZIO_CHECKSUM_GANG_HEADER else BP_GET_CHECKSUM b
                  end in
  let size := match bp with
              | None => io_size zio
              | Some b => if BP_IS_GANG b then SPA_GANGBLOCKSIZE else BP_GET_PSIZE b
              end in
  let offset := io_offset zio in
  let data := io_data zio in
  let fail e := MkRes e data None (zio_checksum_errs env) in
  match ci_of checksum with
  | None => Ok (fail EINVAL)
  | Some ci =>
      match ci_func ci with
      | None => Ok (fail EINVAL)
      | Some func =>
          if ci_eck ci then
            o ← find_eck h checksum data size ;
            match o with
            | None => Ok (fail ECKSUM)
            | Some (size, eck) =>
                verifier ← (if checksum =? ZIO_CHECKSUM_GANG_HEADER then b ← deref bp ; zio_checksum_gang_verifier b
                            else if checksum =? ZIO_CHECKSUM_LABEL then Ok (zio_checksum_label_verifier offset)
                            else b ← deref bp ; Ok (blk_cksum b)) ;
                magic ← load_word h 8 data eck ;
                let byteswap := magic =? BSWAP_64 ZEC_MAGIC in
                let verifier := if byteswap then byteswap_uint64_array verifier else verifier in
                expected_cksum ← load_cksum h data (zec_cksum eck) ;
                data ← store_cksum h data (zec_cksum eck) verifier ;
                actual_cksum ← byteswap_func byteswap func h data size ;
                data ← store_cksum h data (zec_cksum eck) expected_cksum ;
                let expected_cksum := if byteswap then byteswap_uint64_array expected_cksum else expected_cksum in
                Ok (compare_cksums env zio data actual_cksum expected_cksum byteswap)
            end
          else
            b ← deref bp ;
            VERIFY (negb (BP_IS_GANG b)) ;;
            let byteswap := BP_SHOULD_BYTESWAP h b in
            let expected_cksum := blk_cksum b in
            actual_cksum ← byteswap_func byteswap func h data size ;
            Ok (compare_cksums env zio data actual_cksum expected_cksum byteswap)
      end
  end.

(** ** The stages of the pipeline (zfs/module/zfs/zio.c) *)
Definition with_block (bp : option blkptr) (data : list Z) (zio : zio_t) : zio_t :=
  MkZio bp (io_offset zio) (io_size zio) data (io_error zio) (io_type zio) (io_spa zio) (io_bookmark zio) (io_logical zio)
    (zp_checksum zio) (zp_type zio) (io_child_gang zio) (io_allocating zio) (io_has_vd zio) (io_speculative zio).
Definition with_io_error (error : Z) (zio : zio_t) : zio_t :=
  MkZio (io_bp zio) (io_offset zio) (io_size zio) (io_data zio) error (io_type zio) (io_spa zio) (io_bookmark zio) (io_logical zio)
    (zp_checksum zio) (zp_type zio) (io_child_gang zio) (io_allocating zio) (io_has_vd zio) (io_speculative zio).

Definition zio_checksum_generate (h : endian) (zio : zio_t) : result zio_t :=
  let compute checksum :=
    '(bp, data) ← zio_checksum_compute h zio checksum (io_data zio) (io_size zio) ; Ok (with_block bp data zio) in
  match io_bp zio with
  | None =>
      if zp_checksum zio =? ZIO_CHECKSUM_OFF then Ok zio
      else VERIFY (zp_checksum zio =? ZIO_CHECKSUM_LABEL) ;; compute (zp_checksum zio)
  | Some bp =>
      if BP_IS_GANG bp && io_child_gang zio
      then VERIFY (negb (io_allocating zio)) ;; compute ZIO_CHECKSUM_GANG_HEADER
      else compute (BP_GET_CHECKSUM bp)
  end.

(** The I/O after the stage, whether a checksum error is reported, and the
    counter of errors. *)
Definition zio_checksum_verify (h : endian) (env : cksum_env) (zio : zio_t) : result (zio_t * bool * Z) :=
  VERIFY (io_has_vd zio) ;;
  let check :=
    r ← zio_checksum_error h env zio ;
    let zio := with_block (io_bp zio) (cr_data r) zio in
    let zio := if negb (cr_error r =? 0) then with_io_error (cr_error r) zio else zio in
    let report := (cr_error r =? ECKSUM) && negb (io_speculative zio) in
    VERIFY (negb (zio_checksum_panic env && (io_type zio =? ZIO_TYPE_WRITE))) ;;
    Ok (zio, report, cr_errs r) in
  match io_bp zio with
  | None =>
      if zp_checksum zio =? ZIO_CHECKSUM_OFF then Ok (zio, false, zio_checksum_errs env)
      else VERIFY (zp_checksum zio =? ZIO_CHECKSUM_LABEL) ;; check
  | Some _ => check
  end.
