(* ===== verification/ZioChecksumSpec.v ===== *)
(** * Checksums of blocks: lemmas

    The functions of zio_checksum.c on blocks that were written and on any
    bytes. *)
From S2P Require Import Prelude Bytes Words Fletcher FletcherSpec Sha256 Sha256Spec Blkptr ZioChecksum.
Local Open Scope Z_scope.

(** * Checksums of blocks: lemmas

    Checksums and trailers in memory, the functions of the table on machines
    of either byte order, and the two calls on a block with a trailer. *)
(** ** In memory *)
Definition cksum_bytes (h : endian) (c : zio_cksum) : list Z :=
  bytes_of h 8 (zc_word0 c) ++ bytes_of h 8 (zc_word1 c) ++ bytes_of h 8 (zc_word2 c) ++ bytes_of h 8 (zc_word3 c).

Lemma cksum_bytes_length h c : length (cksum_bytes h c) = 32%nat.
Proof. unfold cksum_bytes. by rewrite !length_app, !bytes_of_length. Qed.

Lemma cksum_bytes_byte h c : Forall is_byte (cksum_bytes h c).
Proof. unfold cksum_bytes. rewrite !Forall_app. split_and!; apply bytes_of_byte. Qed.

Lemma cksum_bytes_swap h c : cksum_u64 c -> cksum_bytes h (byteswap_uint64_array c) = cksum_bytes (other h) c.
Proof. intros (H0 & H1 & H2 & H3). unfold cksum_bytes. simpl. by rewrite !BSWAP_64_bytes. Qed.

Lemma byteswap_u64 c : cksum_u64 (byteswap_uint64_array c).
Proof. unfold cksum_u64, is_u64. cbn [byteswap_uint64_array zc_word0 zc_word1 zc_word2 zc_word3]. split_and!; apply BSWAP_64_range. Qed.

Lemma byteswap_involutive c : cksum_u64 c -> byteswap_uint64_array (byteswap_uint64_array c) = c.
Proof. intros (H0 & H1 & H2 & H3). destruct c. unfold byteswap_uint64_array. simpl in *. by rewrite !BSWAP_64_involutive. Qed.

Lemma word_bytes_surj h bs : length bs = 8%nat -> Forall is_byte bs -> exists w, is_u64 w /\ bs = bytes_of h 8 w.
Proof.
  intros Hl Hb. exists (word_of h bs). split; [pose proof (word_of_range h bs Hb) as H; rewrite Hl in H; exact H |]. rewrite <- Hl. by rewrite bytes_of_word.
Qed.

Lemma take_drop_app (n : nat) (l : list Z) : (n <= length l)%nat -> exists a b, l = a ++ b /\ length a = n.
Proof. intros H. exists (take n l), (drop n l). by rewrite take_drop, length_take_le. Qed.

Lemma cksum_bytes_surj h bs : length bs = 32%nat -> Forall is_byte bs -> exists c, cksum_u64 c /\ bs = cksum_bytes h c.
Proof.
  intros Hl Hb. destruct (take_drop_app 8 bs) as (b0 & r0 & -> & L0); [lia |]. rewrite length_app in Hl. apply Forall_app in Hb as (B0 & Hb).
  destruct (take_drop_app 8 r0) as (b1 & r1 & -> & L1); [lia |]. rewrite length_app in Hl. apply Forall_app in Hb as (B1 & Hb).
  destruct (take_drop_app 8 r1) as (b2 & b3 & -> & L2); [lia |]. rewrite length_app in Hl. apply Forall_app in Hb as (B2 & B3).
  destruct (word_bytes_surj h b0) as (w0 & H0 & ->); [done | done |]. destruct (word_bytes_surj h b1) as (w1 & H1 & ->); [done | done |].
  destruct (word_bytes_surj h b2) as (w2 & H2 & ->); [done | done |]. destruct (word_bytes_surj h b3) as (w3 & H3 & ->); [lia | done |].
  by exists (ZIO_SET_CHECKSUM w0 w1 w2 w3).
Qed.

Lemma load_bytes h a w c : is_u64 w -> load_word h 8 (a ++ bytes_of h 8 w ++ c) (Z.of_nat (length a)) = Ok w.
Proof. intros Hw. rewrite load_app by apply bytes_of_length. by rewrite word_of_bytes. Qed.

(** An access [8 * n] bytes further. *)
Lemma load_bytes_at h a w c p : is_u64 w -> p = Z.of_nat (length a) -> load_word h 8 (a ++ bytes_of h 8 w ++ c) p = Ok w.
Proof. intros Hw ->. by apply load_bytes. Qed.

Lemma store_bytes_at h h' a w w' c p : p = Z.of_nat (length a) -> store_word h 8 (a ++ bytes_of h' 8 w ++ c) p w' = Ok (a ++ bytes_of h 8 w' ++ c).
Proof. intros ->. apply store_word_app, bytes_of_length. Qed.

Ltac word_lengths := rewrite ?length_app, ?bytes_of_length; lia.

Lemma load_cksum_at h a c b p : cksum_u64 c -> p = Z.of_nat (length a) -> load_cksum h (a ++ cksum_bytes h c ++ b) p = Ok c.
Proof.
  intros (H0 & H1 & H2 & H3) ->. unfold load_cksum, cksum_bytes. destruct c as [w0 w1 w2 w3]. simpl in *. rewrite <- !app_assoc.
  set (d := a ++ _). assert (E : load_word h 8 d (Z.of_nat (length a)) = Ok w0) by (by apply load_bytes_at). rewrite E, bind_Ok. clear E.
  assert (E : load_word h 8 d (Z.of_nat (length a) + 8) = Ok w1).
  { unfold d. rewrite (app_assoc a). apply load_bytes_at; [done | word_lengths]. }
  rewrite E, bind_Ok. clear E. assert (E : load_word h 8 d (Z.of_nat (length a) + 16) = Ok w2).
  { unfold d. rewrite (app_assoc a), (app_assoc (a ++ _)). apply load_bytes_at; [done | word_lengths]. }
  rewrite E, bind_Ok. clear E. assert (E : load_word h 8 d (Z.of_nat (length a) + 24) = Ok w3).
  { unfold d. rewrite (app_assoc a), (app_assoc (a ++ _)), (app_assoc ((a ++ _) ++ _)). apply load_bytes_at; [done | word_lengths]. }
  by rewrite E.
Qed.

Lemma store_cksum_at h h' a c c' b p : p = Z.of_nat (length a) -> store_cksum h (a ++ cksum_bytes h' c ++ b) p c' = Ok (a ++ cksum_bytes h c' ++ b).
Proof.
  intros ->. unfold store_cksum, cksum_bytes. destruct c as [w0 w1 w2 w3], c' as [v0 v1 v2 v3]. simpl. rewrite <- !app_assoc.
  rewrite store_bytes_at, bind_Ok by done.
  rewrite (app_assoc a). rewrite (store_bytes_at h h' (a ++ _)), bind_Ok by word_lengths.
  rewrite (app_assoc (a ++ _)). rewrite (store_bytes_at h h' ((a ++ _) ++ _)), bind_Ok by word_lengths.
  rewrite (app_assoc ((a ++ _) ++ _)). rewrite (store_bytes_at h h' (((a ++ _) ++ _) ++ _)) by word_lengths. by rewrite <- !app_assoc.
Qed.

(** ** Trailers *)
Definition trailer (h : endian) (m : Z) (c : zio_cksum) : list Z := bytes_of h 8 m ++ cksum_bytes h c.

Lemma trailer_length h m c : length (trailer h m c) = 40%nat.
Proof. unfold trailer. by rewrite length_app, bytes_of_length, cksum_bytes_length. Qed.

Lemma trailer_byte h m c : Forall is_byte (trailer h m c).
Proof. unfold trailer. apply Forall_app. split; [apply bytes_of_byte | apply cksum_bytes_byte]. Qed.

Lemma find_trailer h data eck : Forall is_byte data -> 0 <= eck -> eck + sizeof_zio_eck <= Z.of_nat (length data) ->
  exists pre m c post, data = pre ++ trailer h m c ++ post /\ Z.of_nat (length pre) = eck /\ is_u64 m /\ cksum_u64 c.
Proof.
  unfold sizeof_zio_eck. intros Hb He Hl. destruct (take_drop_app (Z.to_nat eck) data) as (pre & r & -> & Lp); [lia |]. rewrite length_app in Hl.
  apply Forall_app in Hb as (_ & Hb). destruct (take_drop_app 8 r) as (bm & r' & -> & Lm); [lia |]. rewrite length_app in Hl. apply Forall_app in Hb as (Bm & Hb).
  destruct (take_drop_app 32 r') as (bc & post & -> & Lc); [lia |]. apply Forall_app in Hb as (Bc & _).
  destruct (word_bytes_surj h bm Lm Bm) as (m & Hm & ->). destruct (cksum_bytes_surj h bc Lc Bc) as (c & Hc & ->).
  exists pre, m, c, post. unfold trailer. rewrite <- !app_assoc. split_and!; (done || lia).
Qed.

Section at_trailer.
Context (h : endian) (pre post : list Z) (m : Z) (c : zio_cksum) (eck : Z) (He : Z.of_nat (length pre) = eck).

Lemma load_magic : is_u64 m -> load_word h 8 (pre ++ trailer h m c ++ post) eck = Ok m.
Proof. intros Hm. unfold trailer. rewrite <- app_assoc. by apply load_bytes_at. Qed.

Lemma load_magic_other : is_u64 m -> load_word (other h) 8 (pre ++ trailer h m c ++ post) eck = Ok (BSWAP_64 m).
Proof.
  intros Hm. unfold trailer. rewrite <- app_assoc, <- He, load_app by apply bytes_of_length.
  by rewrite <- (swaps_word _ _ _ _ swaps_64), word_of_bytes by (done || apply bytes_of_length || apply bytes_of_byte).
Qed.

Lemma store_magic m' : store_word h 8 (pre ++ trailer h m c ++ post) eck m' = Ok (pre ++ trailer h m' c ++ post).
Proof. unfold trailer. rewrite <- !app_assoc. by apply store_bytes_at. Qed.

Lemma load_trailer : cksum_u64 c -> load_cksum h (pre ++ trailer h m c ++ post) (zec_cksum eck) = Ok c.
Proof.
  intros Hc. unfold trailer. rewrite <- app_assoc, app_assoc. apply load_cksum_at; [done |]. unfold zec_cksum. word_lengths.
Qed.

Lemma store_trailer c' : store_cksum h (pre ++ trailer h m c ++ post) (zec_cksum eck) c' = Ok (pre ++ trailer h m c' ++ post).
Proof.
  unfold trailer. rewrite <- !app_assoc. rewrite (app_assoc pre). rewrite store_cksum_at by (unfold zec_cksum; word_lengths). by rewrite <- app_assoc.
Qed.

(** As a machine of the other byte order sees it. *)
Lemma trailer_other : is_u64 m -> cksum_u64 c -> trailer h m c = trailer (other h) (BSWAP_64 m) (byteswap_uint64_array c).
Proof. intros Hm Hc. unfold trailer. by rewrite BSWAP_64_bytes, cksum_bytes_swap, other_other. Qed.
End at_trailer.

(** A load in front of the trailer. *)
Lemma load_front h a b p : 0 <= p -> p + 8 <= Z.of_nat (length a) -> load_word h 8 (a ++ b) p = load_word h 8 a p.
Proof.
  intros Hp Hl. rewrite !load_slice by (rewrite ?length_app; lia). do 2 f_equal. rewrite drop_app_le by lia. rewrite take_app_le; [done |]. rewrite length_drop. lia.
Qed.

Lemma load_other h data p : Forall is_byte data -> 0 <= p -> p + 8 <= Z.of_nat (length data) ->
  exists w, is_u64 w /\ load_word h 8 data p = Ok w /\ load_word (other h) 8 data p = Ok (BSWAP_64 w).
Proof.
  intros Hb Hp Hl. rewrite !load_slice by lia. assert (H8 : length (take 8 (drop (Z.to_nat p) data)) = 8%nat) by (apply part_length; lia).
  pose proof (Forall_slice _ 8 (Z.to_nat p) _ Hb) as Hs. eexists. split; [| split; [done |]].
  - pose proof (word_of_range h _ Hs) as H. rewrite H8 in H. exact H.
  - by rewrite (swaps_word _ _ _ _ swaps_64 H8 Hs).
Qed.

(** ** The table *)
(** Sizes that every function takes: whole pairs of 64-bit words in the
    buffer, fewer than [2 ^ 31] bytes. *)
Definition good_size (data : list Z) (size : Z) : Prop :=
  Forall is_byte data /\ 0 <= size <= Z.of_nat (length data) /\ (16 | size) /\ size <= INT_MAX.

(** The function for the byte order of the writer, run by a reader. *)
Definition agree (f : zio_checksum_t * zio_checksum_t) : Prop := forall w r data size, good_size data size ->
  exists c, cksum_u64 c /\ fst f w data size = Ok c /\ byteswap_func (bool_decide (w <> r)) f r data size = Ok c.

Lemma agree_same f : (forall data size, good_size data size -> exists c, cksum_u64 c /\ forall h, f h data size = Ok c) -> agree (f, f).
Proof. intros H w r data size Hg. destruct (H data size Hg) as (c & Hc & E). exists c. unfold byteswap_func. simpl. by case_bool_decide. Qed.

Lemma agree_swap native swap : (forall h data size, good_size data size -> exists c, cksum_u64 c /\ native h data size = Ok c /\ swap (other h) data size = Ok c) ->
  agree (native, swap).
Proof.
  intros H w r data size Hg. destruct (H w data size Hg) as (c & Hc & E1 & E2). exists c. split; [done |]. split; [done |].
  unfold byteswap_func. simpl. case_bool_decide as Hd; [by rewrite (other_ne w r Hd) |]. destruct (decide (w = r)) as [-> |]; [done |]. by destruct Hd.
Qed.

Lemma agree_off : agree (zio_checksum_off, zio_checksum_off).
Proof. apply agree_same. intros data size _. exists zero_cksum. split; [done |]. done. Qed.

Lemma agree_sha : agree (SHA256_func, SHA256_func).
Proof.
  apply agree_same. intros data size (Hb & Hs & _ & Hm). exists (sha256 (take (Z.to_nat size) data)). split; [apply sha256_range |].
  intros h. unfold SHA256_func. rewrite <- (Z2Nat.id size) at 1 by lia. apply sha256_prefix; [lia | lia | done].
Qed.

Lemma agree_fletcher_2 : agree (fletcher_2_native, fletcher_2_byteswap).
Proof.
  apply agree_swap. intros h data size (Hb & Hs & (k & ->) & _). replace (k * 16) with (16 * Z.of_nat (Z.to_nat k)) by lia.
  eexists. split; [| split; [apply fletcher_2_native_words; lia |]]; [apply series_2_u64 |].
  rewrite fletcher_2_byteswap_words by (done || lia). by rewrite other_other.
Qed.

Lemma agree_fletcher_4 : agree (fletcher_4_native, fletcher_4_byteswap).
Proof.
  apply agree_swap. intros h data size (Hb & Hs & (k & ->) & _). replace (k * 16) with (4 * Z.of_nat (Z.to_nat (4 * k))) by lia.
  eexists. split; [| split; [apply fletcher_4_native_words; lia |]]; [apply series_u64 |].
  rewrite fletcher_4_byteswap_words by (done || lia). by rewrite other_other.
Qed.

Lemma table_agree checksum ci f : ci_of checksum = Some ci -> ci_func ci = Some f -> agree f.
Proof.
  unfold ci_of. destruct (0 <=? checksum); [| done]. intros Hc Hf. apply list_elem_of_lookup_2 in Hc. unfold zio_checksum_table in Hc.
  rewrite !elem_of_cons in Hc. destruct_or! Hc; try (by apply elem_of_nil in Hc); subst ci; simpl in Hf; injection Hf as <- || discriminate Hf;
    auto using agree_off, agree_sha, agree_fletcher_2, agree_fletcher_4.
Qed.

(** ** Reading a trailer *)
(** The checksum the trailer holds while the block is checksummed. *)
Definition verifier_of (checksum offset : Z) (bp : option blkptr) : result zio_cksum :=
  if checksum =? ZIO_CHECKSUM_GANG_HEADER then b ← deref bp ; zio_checksum_gang_verifier b
  else if checksum =? ZIO_CHECKSUM_LABEL then Ok (zio_checksum_label_verifier offset)
  else b ← deref bp ; Ok (blk_cksum b).

(** The checksum and the size that [zio_checksum_error] takes. *)
Definition read_checksum (zio : zio_t) : Z :=
  match io_bp zio with None => zp_checksum zio | Some b => if BP_IS_GANG b then ZIO_CHECKSUM_GANG_HEADER else BP_GET_CHECKSUM b end.
Definition read_size (zio : zio_t) : Z :=
  match io_bp zio with None => io_size zio | Some b => if BP_IS_GANG b then SPA_GANGBLOCKSIZE else BP_GET_PSIZE b end.

Lemma magic_u64 : is_u64 ZEC_MAGIC.
Proof. done. Qed.

Lemma cksum_equal c : ZIO_CHECKSUM_EQUAL c c = true.
Proof. unfold ZIO_CHECKSUM_EQUAL, u64_sub. by rewrite !Z.sub_diag. Qed.

Lemma u64_sub_zero x y : is_u64 x -> is_u64 y -> u64_sub x y = 0 -> x = y.
Proof. unfold is_u64, u64_sub, u64. intros Hx Hy E. apply Z.mod_divide in E as (q & E); [| done]. unfold W64 in *. nia. Qed.

Lemma cksum_differ c c' : cksum_u64 c -> cksum_u64 c' -> c <> c' -> ZIO_CHECKSUM_EQUAL c c' = false.
Proof.
  intros (H0 & H1 & H2 & H3) (H0' & H1' & H2' & H3') Hne. unfold ZIO_CHECKSUM_EQUAL. apply Z.eqb_neq. intros E. symmetry in E.
  apply Z.lor_eq_0_iff in E as (E & E3). apply Z.lor_eq_0_iff in E as (E & E2). apply Z.lor_eq_0_iff in E as (E0 & E1).
  apply Hne. destruct c, c'. simpl in *. f_equal; by apply u64_sub_zero.
Qed.

(** A trailer written by [w], read by [r]: the data stay, and what is compared
    is the checksum found and the one that the function of the writer's byte
    order gives with the verifier in place. *)
Lemma error_eck w r env zio ci f pre post m c v cv size eck :
  ci_of (read_checksum zio) = Some ci -> ci_func ci = Some f -> ci_eck ci = true -> m = ZEC_MAGIC ->
  io_data zio = pre ++ trailer w m c ++ post -> cksum_u64 c -> cksum_u64 v -> Z.of_nat (length pre) = eck ->
  find_eck r (read_checksum zio) (io_data zio) (read_size zio) = Ok (Some (size, eck)) ->
  verifier_of (read_checksum zio) (io_offset zio) (io_bp zio) = Ok v ->
  byteswap_func (bool_decide (w <> r)) f r (pre ++ trailer w m v ++ post) size = Ok cv ->
  zio_checksum_error r env zio = Ok (compare_cksums env zio (io_data zio) cv c (bool_decide (w <> r))).
Proof.
  intros Hci Hf Hk -> Hd Hc Hv Hp Hfind Hver Hcv. unfold zio_checksum_error. fold (read_checksum zio) (read_size zio).
  rewrite Hci, Hf, Hk, Hfind, bind_Ok. fold (verifier_of (read_checksum zio) (io_offset zio) (io_bp zio)). rewrite Hver, bind_Ok, Hd.
  case_bool_decide as Hwr.
  - rewrite (trailer_other w ZEC_MAGIC c), <- (other_ne w r Hwr) by done.
    rewrite (load_magic r pre post), bind_Ok by (done || apply BSWAP_64_range). rewrite Z.eqb_refl. cbv zeta.
    rewrite load_trailer, bind_Ok, store_trailer, bind_Ok by (done || apply byteswap_u64).
    rewrite (trailer_other w ZEC_MAGIC v), <- (other_ne w r Hwr) in Hcv by done. rewrite Hcv, bind_Ok, store_trailer, bind_Ok by done.
    by rewrite byteswap_involutive.
  - destruct (decide (w = r)) as [-> | Hne]; [| by destruct Hwr].
    rewrite load_magic, bind_Ok by done. replace (ZEC_MAGIC =? BSWAP_64 ZEC_MAGIC) with false by (vm_compute; reflexivity). cbv zeta.
    rewrite load_trailer, bind_Ok, store_trailer, bind_Ok, Hcv, bind_Ok, store_trailer, bind_Ok by done. done.
Qed.

(** ** Writing *)
(** Equal but for the padding. *)
Definition same_block (b b' : blkptr) : Prop :=
  blk_dva0 b' = blk_dva0 b /\ blk_prop b' = blk_prop b /\ blk_phys_birth b' = blk_phys_birth b /\ blk_birth b' = blk_birth b /\ blk_cksum b' = blk_cksum b.

Lemma same_block_refl b : same_block b b.
Proof. by split_and!. Qed.

Lemma mark_bp_spec w zio checksum data b : 8 <= Z.of_nat (length data) -> 0 <= checksum < 256 ->
  exists b', mark_bp w zio checksum data (Some b) = Ok (Some b') /\ same_block b b' /\
    (ismark zio = true -> exists w0, load_word w 8 data 0 = Ok w0 /\ blk_pad0 b' = w0).
Proof.
  intros Hl Hc. unfold mark_bp. destruct (ismark zio); [| exists b; split; [done |]; split; [apply same_block_refl | done]].
  cbn [deref]. rewrite bind_Ok, load_slice, bind_Ok by lia. unfold BP_SET_CKSUMID, BF64_SET.
  rewrite u64_shl_1 by lia. rewrite VERIFY_pass by lia. rewrite VERIFY_pass by done. rewrite !bind_Ok. eexists. split; [done |].
  split; [by split_and! | eauto].
Qed.

(** The flags that blk_pad[0] had are gone: they are now bits of the data. *)
Lemma mark_clobbers_flags w zio checksum data b b' : 8 <= Z.of_nat (length data) -> 0 <= checksum < 256 -> ismark zio = true ->
  mark_bp w zio checksum data (Some b) = Ok (Some b') -> exists w0, load_word w 8 data 0 = Ok w0 /\
    BP_GET_APPMETA b' = w0 mod 2 /\ BP_GET_APPLOW b' = (w0 / 2) mod 2.
Proof.
  intros Hl Hc Hm E. destruct (mark_bp_spec w zio checksum data b Hl Hc) as (b1 & E1 & _ & H). rewrite E in E1. injection E1 as <-.
  destruct (H Hm) as (w0 & E0 & Ep). exists w0. split; [done |]. unfold BP_GET_APPMETA, BP_GET_APPLOW, BF64_GET. rewrite Ep, !BF64_DECODE_spec by done.
  by rewrite Z.pow_0_r, Z.div_1_r.
Qed.

Lemma mark_bp_none w zio checksum data : ismark zio = false -> mark_bp w zio checksum data None = Ok None.
Proof. intros E. unfold mark_bp. by rewrite E. Qed.

(** A block handed to [zio_checksum_compute] by the machine [w]: the buffer
    has the size of the block, and the I/O says which checksum it is (for a
    label, without a block pointer, or for a gang header, or in the block
    pointer, with the byte order of [w]). *)
Definition block_of (w : endian) (zio : zio_t) (checksum : Z) (data : list Z) (size : Z) : Prop :=
  Forall is_byte data /\ Z.of_nat (length data) = size /\ (16 | size) /\ sizeof_zio_eck <= size <= INT_MAX /\
  is_u64 (io_offset zio) /\ ZIO_CHECKSUM_OFF <= checksum < ZIO_CHECKSUM_FUNCTIONS /\
  match io_bp zio with
  | None => checksum = ZIO_CHECKSUM_LABEL /\ zp_checksum zio = ZIO_CHECKSUM_LABEL /\ io_size zio = size /\ ismark zio = false
  | Some b =>
      is_u64 (blk_phys_birth b) /\ is_u64 (blk_birth b) /\
      if BP_IS_GANG b then checksum = ZIO_CHECKSUM_GANG_HEADER /\ size = SPA_GANGBLOCKSIZE
      else checksum = BP_GET_CHECKSUM b /\ checksum <> ZIO_CHECKSUM_GANG_HEADER /\ size = BP_GET_PSIZE b /\
           BP_GET_BYTEORDER b = ZFS_HOST_BYTEORDER w
  end /\
  (checksum = ZIO_CHECKSUM_ZILOG2 -> (ZIL_MIN_BLKSZ | size) /\ exists nused, load_word w 8 data zc_nused = Ok nused /\ nused <= size).

(** What the readers use of a block pointer, but for the checksum. *)
Definition same_place (b b' : blkptr) : Prop :=
  blk_dva0 b' = blk_dva0 b /\ blk_prop b' = blk_prop b /\ blk_phys_birth b' = blk_phys_birth b /\ blk_birth b' = blk_birth b.

Lemma same_place_macros b b' : same_place b b' ->
  BP_IS_GANG b' = BP_IS_GANG b /\ BP_GET_CHECKSUM b' = BP_GET_CHECKSUM b /\ BP_GET_PSIZE b' = BP_GET_PSIZE b /\ BP_GET_BYTEORDER b' = BP_GET_BYTEORDER b /\
  zio_checksum_gang_verifier b' = zio_checksum_gang_verifier b.
Proof.
  intros (Ed & Ep & E1 & E2). unfold zio_checksum_gang_verifier, BP_IDENTITY, BP_PHYSICAL_BIRTH, BP_IS_GANG, BP_GET_CHECKSUM, BP_GET_PSIZE, BP_GET_BYTEORDER, BP_IS_EMBEDDED.
  by rewrite Ed, Ep, E1, E2.
Qed.

Definition same_bp (bp bp' : option blkptr) : Prop :=
  match bp, bp' with None, None => True | Some b, Some b' => same_place b b' | _, _ => False end.

(** An I/O that reads what another one wrote. *)
Definition reads (zio : zio_t) (bp' : option blkptr) (data' : list Z) (rd : zio_t) : Prop :=
  io_bp rd = bp' /\ io_data rd = data' /\ io_offset rd = io_offset zio /\ (io_bp zio = None -> zp_checksum rd = zp_checksum zio /\ io_size rd = io_size zio).

Lemma read_back w zio checksum data size bp' data' rd : block_of w zio checksum data size -> same_bp (io_bp zio) bp' -> reads zio bp' data' rd ->
  read_checksum rd = checksum /\ read_size rd = size.
Proof.
  intros (_ & _ & _ & _ & _ & _ & Hbp & _) Hs (Eb & _ & _ & Hn). unfold read_checksum, read_size, same_bp in *. rewrite Eb.
  destruct (io_bp zio) as [b |], bp' as [b' |]; [| destruct Hs | destruct Hs |].
  - destruct (same_place_macros _ _ Hs) as (-> & -> & -> & _). destruct Hbp as (_ & _ & Hbp).
    destruct (BP_IS_GANG b); [destruct Hbp as (-> & ->) | destruct Hbp as (-> & _ & -> & _)]; done.
  - destruct Hbp as (-> & Ez & Es & _), (Hn eq_refl) as (-> & ->). by rewrite Ez, Es.
Qed.

(** The size of the part that is checksummed. *)
Lemma roundup_blksz nused size : 0 <= nused <= size -> size <= INT_MAX -> (ZIL_MIN_BLKSZ | size) ->
  0 <= P2ROUNDUP nused ZIL_MIN_BLKSZ <= size /\ (16 | P2ROUNDUP nused ZIL_MIN_BLKSZ).
Proof.
  unfold INT_MAX. intros Hn Hs (q & Hq). change ZIL_MIN_BLKSZ with (2 ^ 12) in *. rewrite P2ROUNDUP_spec by lia. change (2 ^ 12) with 4096 in *.
  assert (0 <= (nused + (4096 - 1)) / 4096 <= q).
  { split; [apply Z.div_pos; lia |]. apply Z.lt_succ_r, Z.div_lt_upper_bound; lia. }
  split; [lia |]. exists ((nused + (4096 - 1)) / 4096 * 256). lia.
Qed.

Definition eck_place (w : endian) (checksum : Z) (data : list Z) (size : Z) : result (Z * Z) :=
  if checksum =? ZIO_CHECKSUM_ZILOG2 then nused ← load_word w 8 data zc_nused ; Ok (P2ROUNDUP nused ZIL_MIN_BLKSZ, zc_eck)
  else Ok (size, size - sizeof_zio_eck).

(** The place of the trailer; once it is written, every reader finds it. *)
Lemma eck_place_spec w zio checksum data size : block_of w zio checksum data size ->
  exists size' eck, eck_place w checksum data size = Ok (size', eck) /\ 0 <= eck /\ eck + sizeof_zio_eck <= size /\
    0 <= size' <= size /\ (16 | size') /\
    forall r pre post c, Z.of_nat (length pre) = eck -> Z.of_nat (length (pre ++ trailer w ZEC_MAGIC c ++ post)) = size -> Forall is_byte pre ->
      take (length pre) data = pre -> find_eck r checksum (pre ++ trailer w ZEC_MAGIC c ++ post) size = Ok (Some (size', eck)).
Proof.
  intros (Hb & Hl & H16 & Hs & _ & _ & _ & Hz). unfold eck_place, find_eck. destruct (Z.eqb_spec checksum ZIO_CHECKSUM_ZILOG2) as [E | E].
  2:{ exists size, (size - sizeof_zio_eck). unfold sizeof_zio_eck in *. split_and!; (done || lia). }
  destruct (Hz E) as (H4 & nused & En & Hn). pose proof H4 as (q & Hq). unfold ZIL_MIN_BLKSZ, sizeof_zio_eck in Hq, Hs. rewrite En, bind_Ok.
  destruct (load_other w data zc_nused Hb ltac:(done) ltac:(unfold zc_nused; lia)) as (x & Hx & Ex & _). rewrite En in Ex. injection Ex as <-.
  unfold is_u64 in Hx. destruct (roundup_blksz nused size ltac:(lia) ltac:(lia) H4) as (Hr & H16').
  exists (P2ROUNDUP nused ZIL_MIN_BLKSZ), zc_eck. split; [done |]. unfold zc_eck, sizeof_zio_eck. split; [lia |]. split; [lia |]. split; [lia |]. split; [done |].
  intros r pre post c Hp Hlen Hbp Hpre.
  assert (Enp : load_word w 8 pre zc_nused = Ok nused).
  { rewrite <- En, <- (take_drop (length pre) data), Hpre. symmetry. apply load_front; [done | unfold zc_nused; lia]. }
  destruct (decide (w = r)) as [<- | Hne].
  - rewrite (load_magic w pre post ZEC_MAGIC c 144 Hp magic_u64), bind_Ok. rewrite Z.eqb_refl, load_front, Enp, !bind_Ok by (unfold zc_nused; lia).
    by rewrite (proj2 (Z.ltb_ge _ _)) by lia.
  - apply other_ne in Hne as ->. destruct (load_other w pre zc_nused Hbp ltac:(done) ltac:(unfold zc_nused; lia)) as (x & Hx' & Ex & Ey).
    rewrite Enp in Ex. injection Ex as <-.
    rewrite (load_magic_other w pre post ZEC_MAGIC c 144 Hp magic_u64), bind_Ok. replace (BSWAP_64 ZEC_MAGIC =? ZEC_MAGIC) with false by (vm_compute; reflexivity).
    rewrite Z.eqb_refl, load_front, Ey, !bind_Ok by (unfold zc_nused; lia). rewrite BSWAP_64_involutive by done.
    by rewrite (proj2 (Z.ltb_ge _ _)) by lia.
Qed.

Lemma gang_verifier_spec b : BP_IS_GANG b = true -> is_u64 (blk_phys_birth b) -> is_u64 (blk_birth b) ->
  exists v, zio_checksum_gang_verifier b = Ok v /\ cksum_u64 v.
Proof.
  intros Hg H1 H2. unfold zio_checksum_gang_verifier, BP_IDENTITY. assert (Hne : BP_IS_EMBEDDED b = false).
  { unfold BP_IS_GANG in Hg. by destruct (BP_IS_EMBEDDED b). }
  rewrite Hne, Hg. eexists. split; [reflexivity |]. unfold cksum_u64. cbn [zc_word0 zc_word1 zc_word2 zc_word3]. split_and!.
  - unfold DVA_GET_VDEV, BF64_GET. rewrite BF64_DECODE_spec by done. pose proof (Z.mod_pos_bound (dva_word0 (blk_dva0 b) / 2 ^ 32) (2 ^ 32) ltac:(done)).
    unfold is_u64, W64. lia.
  - apply u64_range.
  - unfold BP_PHYSICAL_BIRTH. rewrite Hne. by destruct (blk_phys_birth b =? 0).
  - done.
Qed.

(** The second step: the verifier is in the trailer, and the readers will
    compute it. *)
Lemma verifier_step w zio checksum data size pre m c0 post eck : block_of w zio checksum data size -> is_u64 (io_offset zio) ->
  (exists ci, ci_of checksum = Some ci /\ ci_eck ci = true) ->
  data = pre ++ trailer w m c0 ++ post -> Z.of_nat (length pre) = eck -> cksum_u64 c0 ->
  exists bp' v, (if checksum =? ZIO_CHECKSUM_GANG_HEADER then
       b ← deref (io_bp zio) ; v ← zio_checksum_gang_verifier b ; data ← store_cksum w data (zec_cksum eck) v ; Ok (io_bp zio, data)
     else if checksum =? ZIO_CHECKSUM_LABEL then
       data ← store_cksum w data (zec_cksum eck) (zio_checksum_label_verifier (io_offset zio)) ; Ok (io_bp zio, data)
     else b ← deref (io_bp zio) ; c ← load_cksum w data (zec_cksum eck) ; Ok (Some (set_cksum c b), data)) = Ok (bp', pre ++ trailer w m v ++ post) /\
    verifier_of checksum (io_offset zio) bp' = Ok v /\ cksum_u64 v /\ same_bp (io_bp zio) bp'.
Proof.
  intros (_ & _ & _ & _ & _ & _ & Hbp & _) Hoff (ci & Hci & Hk) -> He Hc0. unfold verifier_of. destruct (Z.eqb_spec checksum ZIO_CHECKSUM_GANG_HEADER) as [E | E].
  - destruct (io_bp zio) as [b |]; [| destruct Hbp as (Hx & _); rewrite E in Hx; discriminate Hx]. destruct Hbp as (H1 & H2 & Hg). destruct (BP_IS_GANG b) eqn:Eg; [| by destruct Hg as (_ & Hg & _)].
    destruct (gang_verifier_spec b Eg H1 H2) as (v & Ev & Hv). exists (Some b), v. cbn [deref]. rewrite !bind_Ok, Ev, bind_Ok, store_trailer, bind_Ok by done.
    split_and!; [done | done | done |]. split_and!; done.
  - destruct (Z.eqb_spec checksum ZIO_CHECKSUM_LABEL) as [E' | E'].
    + exists (io_bp zio), (zio_checksum_label_verifier (io_offset zio)). rewrite store_trailer, bind_Ok by done. split; [done |]. split; [done |].
      split; [by split_and! |]. destruct (io_bp zio); [by split_and! | done].
    + destruct (io_bp zio) as [b |]; [| by destruct Hbp as (Hx & _)]. exists (Some (set_cksum c0 b)), c0. cbn [deref]. rewrite !bind_Ok, load_trailer, bind_Ok by done.
      split; [done |]. split; [done |]. split; [done |]. by split_and!.
Qed.

(** The third: magic and mark. *)
Lemma mark_step w zio checksum data bp bp1 : same_bp bp bp1 -> 8 <= Z.of_nat (length data) -> 0 <= checksum < 256 -> (bp = None -> ismark zio = false) ->
  exists bp', mark_bp w zio checksum data bp1 = Ok bp' /\ same_bp bp bp' /\ (forall v off, verifier_of checksum off bp1 = Ok v -> verifier_of checksum off bp' = Ok v).
Proof.
  intros Hs Hl Hc Hm. destruct bp as [b |], bp1 as [b1 |]; [| destruct Hs | destruct Hs |].
  - destruct (mark_bp_spec w zio checksum data b1 Hl Hc) as (b' & E & Hb' & _). exists (Some b'). split; [done |].
    destruct Hs as (H1 & H2 & H3 & H4), Hb' as (H1' & H2' & H3' & H4' & H5'). assert (Hp : same_place b1 b') by (by split_and!).
    split; [unfold same_bp, same_place; split_and!; congruence |]. intros v off. unfold verifier_of. cbn [deref]. rewrite !bind_Ok.
    destruct (same_place_macros _ _ Hp) as (_ & _ & _ & _ & ->). by rewrite H5'.
  - exists None. rewrite mark_bp_none by auto. done.
Qed.

(** A written block with a trailer. *)
Lemma compute_eck w zio checksum data size ci f : block_of w zio checksum data size -> ci_of checksum = Some ci -> ci_func ci = Some f -> ci_eck ci = true ->
  exists bp' pre post v c size' eck, zio_checksum_compute w zio checksum data size = Ok (bp', pre ++ trailer w ZEC_MAGIC c ++ post) /\
    same_bp (io_bp zio) bp' /\ length (pre ++ trailer w ZEC_MAGIC c ++ post) = length data /\ Forall is_byte (pre ++ trailer w ZEC_MAGIC c ++ post) /\
    cksum_u64 v /\ cksum_u64 c /\ Z.of_nat (length pre) = eck /\ verifier_of checksum (io_offset zio) bp' = Ok v /\
    forall r, find_eck r checksum (pre ++ trailer w ZEC_MAGIC c ++ post) size = Ok (Some (size', eck)) /\
      byteswap_func (bool_decide (w <> r)) f r (pre ++ trailer w ZEC_MAGIC v ++ post) size' = Ok c.
Proof.
  intros Hblk Hci Hf Hk. pose proof Hblk as (Hb & Hl & H16 & Hs & Hoff & Hck & Hbp & _).
  destruct (eck_place_spec _ _ _ _ _ Hblk) as (size' & eck & Ep & He0 & He & Hs' & H16' & Hfind).
  destruct (find_trailer w data eck Hb He0 ltac:(lia)) as (pre & m & c0 & post & Ed & Lp & Hm & Hc0).
  pose proof Hb as Hb0. rewrite Ed in Hb0. apply Forall_app in Hb0 as (Bp & Hb0). apply Forall_app in Hb0 as (_ & Bpost).
  destruct (verifier_step w zio checksum data size pre m c0 post eck Hblk Hoff ltac:(eauto) Ed Lp Hc0) as (bp1 & v & Ev & Hver & Hv & Hs1).
  assert (Hlen : forall v, length (pre ++ trailer w ZEC_MAGIC v ++ post) = length data) by (intros x; rewrite Ed, !length_app, !trailer_length; done).
  assert (Hall : forall v, Forall is_byte (pre ++ trailer w ZEC_MAGIC v ++ post)) by (intros x; rewrite !Forall_app; auto using trailer_byte).
  destruct (mark_step w zio checksum (pre ++ trailer w ZEC_MAGIC v ++ post) _ _ Hs1) as (bp' & Emark & Hs2 & Hver').
  { rewrite Hlen, Hl. unfold sizeof_zio_eck in Hs. lia. } { unfold ZIO_CHECKSUM_OFF, ZIO_CHECKSUM_FUNCTIONS in Hck. lia. }
  { intros E. rewrite E in Hbp. apply Hbp. }
  assert (Hg : good_size (pre ++ trailer w ZEC_MAGIC v ++ post) size') by (unfold good_size; rewrite Hlen, Hl; split; [apply Hall | lia || split_and!; (done || lia)]).
  destruct (table_agree _ _ _ Hci Hf w w _ _ Hg) as (c & Hc & Ec & _).
  exists bp', pre, post, v, c, size', eck. split.
  - unfold zio_checksum_compute. unfold ZIO_CHECKSUM_OFF, ZIO_CHECKSUM_FUNCTIONS in Hck. rewrite VERIFY_pass by (unfold ZIO_CHECKSUM_FUNCTIONS; lia).
    rewrite Hci. cbn [deref]. rewrite bind_Ok, Hf. cbn [deref]. rewrite bind_Ok. destruct f as [native swap]. cbn [fst] in Ec. rewrite Hk.
    fold (eck_place w checksum data size). rewrite Ep, bind_Ok. cbv beta iota zeta. rewrite Ev, bind_Ok. cbv beta iota.
    rewrite store_magic, bind_Ok, Emark, bind_Ok, Ec, bind_Ok, store_trailer, bind_Ok by done. done.
  - split_and!; [done | apply Hlen | apply Hall | done | done | done | auto |]. intros r. split.
    + apply Hfind; [done | rewrite Hlen; done | done |]. rewrite Ed. apply take_app_length.
    + destruct (table_agree _ _ _ Hci Hf w r _ _ Hg) as (c' & _ & Ec' & Er). rewrite Ec in Ec'. by injection Ec' as <-.
Qed.

(** ** Without a trailer *)
Lemma should_byteswap w r b : BP_GET_BYTEORDER b = ZFS_HOST_BYTEORDER w -> BP_SHOULD_BYTESWAP r b = bool_decide (w <> r).
Proof. intros E. unfold BP_SHOULD_BYTESWAP. rewrite E. by destruct w, r. Qed.

Lemma error_plain w r env zio ci f b : ci_of (read_checksum zio) = Some ci -> ci_func ci = Some f -> ci_eck ci = false ->
  io_bp zio = Some b -> BP_IS_GANG b = false -> BP_GET_BYTEORDER b = ZFS_HOST_BYTEORDER w ->
  zio_checksum_error r env zio =
    (actual ← byteswap_func (bool_decide (w <> r)) f r (io_data zio) (read_size zio) ;
     Ok (compare_cksums env zio (io_data zio) actual (blk_cksum b) (bool_decide (w <> r)))).
Proof.
  intros Hci Hf Hk Hb Hg Ho. unfold zio_checksum_error. fold (read_checksum zio) (read_size zio). rewrite Hci, Hf, Hk, Hb. cbn [deref].
  rewrite bind_Ok, Hg, VERIFY_pass by done. by rewrite (should_byteswap w).
Qed.

Lemma gang_has_eck ci : ci_of ZIO_CHECKSUM_GANG_HEADER = Some ci -> ci_eck ci = true.
Proof. by intros [= <-]. Qed.

Lemma label_has_eck ci : ci_of ZIO_CHECKSUM_LABEL = Some ci -> ci_eck ci = true.
Proof. by intros [= <-]. Qed.

(** A block without a trailer has a block pointer, which is not a gang's. *)
Lemma plain_bp w zio checksum data size ci : block_of w zio checksum data size -> ci_of checksum = Some ci -> ci_eck ci = false ->
  exists b, io_bp zio = Some b /\ BP_IS_GANG b = false /\ BP_GET_BYTEORDER b = ZFS_HOST_BYTEORDER w /\ checksum = BP_GET_CHECKSUM b /\ size = BP_GET_PSIZE b.
Proof.
  intros (_ & _ & _ & _ & _ & _ & Hbp & _) Hci Hk. destruct (io_bp zio) as [b |].
  - destruct Hbp as (_ & _ & Hg). destruct (BP_IS_GANG b) eqn:Eg.
    + destruct Hg as (-> & _). by rewrite (gang_has_eck _ Hci) in Hk.
    + destruct Hg as (E1 & _ & E2 & E3). by exists b.
  - destruct Hbp as (-> & _). by rewrite (label_has_eck _ Hci) in Hk.
Qed.

Lemma block_good_size w zio checksum data size : block_of w zio checksum data size -> good_size data size.
Proof. intros (Hb & Hl & H16 & Hs & _). split_and!; [done | unfold sizeof_zio_eck in Hs; lia | lia | done | lia]. Qed.

Lemma compute_plain w zio checksum data size ci f : block_of w zio checksum data size -> ci_of checksum = Some ci -> ci_func ci = Some f -> ci_eck ci = false ->
  exists b' c, zio_checksum_compute w zio checksum data size = Ok (Some b', data) /\ same_bp (io_bp zio) (Some b') /\ blk_cksum b' = c /\ cksum_u64 c /\
    BP_IS_GANG b' = false /\ BP_GET_BYTEORDER b' = ZFS_HOST_BYTEORDER w /\
    forall r, byteswap_func (bool_decide (w <> r)) f r data size = Ok c.
Proof.
  intros Hblk Hci Hf Hk. destruct (plain_bp _ _ _ _ _ _ Hblk Hci Hk) as (b & Eb & Hg & Ho & _). pose proof (block_good_size _ _ _ _ _ Hblk) as Hgood.
  pose proof Hblk as (_ & Hl & _ & Hs & _ & Hck & _). unfold ZIO_CHECKSUM_OFF, ZIO_CHECKSUM_FUNCTIONS, sizeof_zio_eck in *.
  destruct (mark_bp_spec w zio checksum data b ltac:(lia) ltac:(lia)) as (b1 & Em & Hsame & _). destruct (table_agree _ _ _ Hci Hf w w _ _ Hgood) as (c & Hc & Ec & _).
  assert (Hp : same_place b (set_cksum c b1)) by (destruct Hsame as (? & ? & ? & ? & _); by split_and!).
  destruct (same_place_macros _ _ Hp) as (Eg & _ & _ & Eo & _). exists (set_cksum c b1), c. split.
  - unfold zio_checksum_compute. rewrite VERIFY_pass by (unfold ZIO_CHECKSUM_FUNCTIONS; lia). rewrite Hci. cbn [deref]. rewrite bind_Ok, Hf. cbn [deref].
    rewrite bind_Ok. destruct f as [native swap]. cbn [fst] in Ec. rewrite Hk, Eb, Em, bind_Ok, Ec, bind_Ok. done.
  - rewrite Eb. split_and!; [exact Hp | done | done | by rewrite Eg | by rewrite Eo |]. intros r.
    destruct (table_agree _ _ _ Hci Hf w r _ _ Hgood) as (c' & _ & Ec' & Er). rewrite Ec in Ec'. by injection Ec' as <-.
Qed.

Lemma ci_exists checksum : ZIO_CHECKSUM_OFF <= checksum < ZIO_CHECKSUM_FUNCTIONS -> exists ci f, ci_of checksum = Some ci /\ ci_func ci = Some f.
Proof.
  unfold ZIO_CHECKSUM_OFF, ZIO_CHECKSUM_FUNCTIONS. intros H.
  assert (checksum = 2 \/ checksum = 3 \/ checksum = 4 \/ checksum = 5 \/ checksum = 6 \/ checksum = 7 \/ checksum = 8 \/ checksum = 9) as Hc by lia.
  destruct_or! Hc; subst; eexists _, _; (split; [reflexivity | reflexivity]).
Qed.

(** What is compared when the block is read back. *)
Lemma read_written w zio checksum data size : block_of w zio checksum data size ->
  exists bp' data' c, zio_checksum_compute w zio checksum data size = Ok (bp', data') /\ length data' = length data /\ Forall is_byte data' /\
    same_bp (io_bp zio) bp' /\
    forall r env rd, reads zio bp' data' rd -> zio_checksum_error r env rd = Ok (compare_cksums env rd data' c c (bool_decide (w <> r))).
Proof.
  intros Hblk. pose proof Hblk as (Hb & _ & _ & _ & _ & Hck & _). destruct (ci_exists _ Hck) as (ci & f & Hci & Hf). destruct (ci_eck ci) eqn:Hk.
  - destruct (compute_eck _ _ _ _ _ _ _ Hblk Hci Hf Hk) as (bp' & pre & post & v & c & size' & eck & E & Hs & Hl & Hall & Hv & Hc & Hp & Hver & Hr).
    exists bp', (pre ++ trailer w ZEC_MAGIC c ++ post), c. split_and!; [done | done | done | done |]. intros r env rd Hrd.
    destruct (Hr r) as (Hfind & Hfun), (read_back _ _ _ _ _ _ _ _ Hblk Hs Hrd) as (Ec & Es), Hrd as (Eb & Ed & Eo & _). rewrite <- Ed.
    apply (error_eck w r env rd ci f pre post ZEC_MAGIC c v c size' eck); rewrite ?Ec, ?Es, ?Eb, ?Ed, ?Eo; done.
  - destruct (compute_plain _ _ _ _ _ _ _ Hblk Hci Hf Hk) as (b' & c & E & Hs & Ecc & Hc & Hg & Ho & Hfun).
    exists (Some b'), data, c. split_and!; [done | done | done | done |]. intros r env rd Hrd.
    destruct (read_back _ _ _ _ _ _ _ _ Hblk Hs Hrd) as (Ec & Es), Hrd as (Eb & Ed & _).
    rewrite (error_plain w r env rd ci f b'); rewrite ?Ec; try done. by rewrite Es, Ed, Hfun, bind_Ok, Ecc.
Qed.

(** * Reading blocks of any bytes

    [zio_checksum_error] ends without a panic whatever the bytes are, and its
    result says whether the checksums agree. *)
(** ** Results *)
Lemma match_any_range zio zb error rnd i hs : match_any zio zb error rnd i hs = 0 \/ match_any zio zb error rnd i hs = error.
Proof. revert i. induction hs as [| x hs IH]; intros i; simpl; [by left |]. repeat case_match; auto. Qed.

Lemma compare_error env zio data a e b : let res := compare_cksums env zio data a e b in
  cr_data res = data /\ (cr_error res = 0 \/ cr_error res = ECKSUM) /\
  exists i, cr_info res = Some i /\ zbc_actual i = a /\ zbc_expected i = e /\ zbc_byteswapped i = b /\ zbc_has_cksum i = true.
Proof.
  unfold compare_cksums, zio_handle_fault_injection. cbv zeta. destruct (ZIO_CHECKSUM_EQUAL a e); cbn [negb].
  2:{ cbn [cr_data cr_error cr_info]. split; [done |]. split; [by right |]. eexists. done. }
  set (err := if _ && _ then _ else 0). assert (He : err = 0 \/ err = ECKSUM).
  { unfold err. repeat case_match; auto. apply match_any_range. }
  destruct (Z.eqb_spec err 0); cbn [negb cr_data cr_error cr_info]; (split; [done |]; split; [by auto | by eexists]).
Qed.

(** Without injected faults the result says whether the checksums are equal. *)
Lemma compare_equal env zio data c b : zio_injection_enabled env = false ->
  compare_cksums env zio data c c b = MkRes 0 data (Some (MkBad c c b false true)) (zio_checksum_errs env).
Proof. intros E. unfold compare_cksums. by rewrite cksum_equal, E. Qed.

Lemma compare_differ env zio data a e b : cksum_u64 a -> cksum_u64 e -> a <> e ->
  compare_cksums env zio data a e b = MkRes ECKSUM data (Some (MkBad e a b false true)) (zio_checksum_errs env + 1).
Proof. intros Ha He Hne. unfold compare_cksums. by rewrite cksum_differ. Qed.

(** ** Any bytes *)
(** An I/O that can be handed to [zio_checksum_error], on any data. *)
Definition readable (zio : zio_t) : Prop :=
  let checksum := read_checksum zio in let size := read_size zio in
  Forall is_byte (io_data zio) /\ Z.of_nat (length (io_data zio)) = size /\ (16 | size) /\ size <= INT_MAX /\ is_u64 (io_offset zio) /\
  (forall ci, ci_of checksum = Some ci -> ci_eck ci = true -> sizeof_zio_eck <= size) /\
  (checksum = ZIO_CHECKSUM_ZILOG2 -> (ZIL_MIN_BLKSZ | size)) /\
  match io_bp zio with
  | None => checksum = ZIO_CHECKSUM_LABEL \/ forall ci, ci_of checksum = Some ci -> ci_func ci = None
  | Some b => cksum_u64 (blk_cksum b) /\ is_u64 (blk_phys_birth b) /\ is_u64 (blk_birth b) /\ (checksum = ZIO_CHECKSUM_GANG_HEADER -> BP_IS_GANG b = true)
  end.

Lemma readable_verifier zio ci f : readable zio -> ci_of (read_checksum zio) = Some ci -> ci_func ci = Some f -> ci_eck ci = true ->
  exists v, verifier_of (read_checksum zio) (io_offset zio) (io_bp zio) = Ok v /\ cksum_u64 v.
Proof.
  intros (_ & _ & _ & _ & Ho & _ & _ & Hbp) Hci Hf Hk. unfold verifier_of. destruct (io_bp zio) as [b |].
  - destruct Hbp as (Hc & H1 & H2 & Hg). cbn [deref]. rewrite !bind_Ok. repeat case_tests.
    + apply gang_verifier_spec; auto.
    + eexists. split; [done |]. by split_and!.
    + by eexists.
  - destruct Hbp as [-> | Hn]; [| by rewrite (Hn _ Hci) in Hf]. eexists. split; [done |]. by split_and!.
Qed.

Lemma readable_place r zio ci : readable zio -> ci_of (read_checksum zio) = Some ci -> ci_eck ci = true ->
  find_eck r (read_checksum zio) (io_data zio) (read_size zio) = Ok None \/
  exists size eck, find_eck r (read_checksum zio) (io_data zio) (read_size zio) = Ok (Some (size, eck)) /\ 0 <= eck /\
    eck + sizeof_zio_eck <= Z.of_nat (length (io_data zio)) /\ 0 <= size <= Z.of_nat (length (io_data zio)) /\ (16 | size) /\ size <= INT_MAX.
Proof.
  intros (Hb & Hl & H16 & Hm & _ & Hs & Hz & _) Hci Hk. specialize (Hs _ Hci Hk). unfold find_eck, sizeof_zio_eck in *. destruct (Z.eqb_spec (read_checksum zio) ZIO_CHECKSUM_ZILOG2) as [Ez | Ez].
  2:{ right. eexists _, _. split; [done |]. split_and!; (done || lia). }
  specialize (Hz Ez) as H4. pose proof H4 as (q & Hq). unfold ZIL_MIN_BLKSZ in Hq.
  destruct (load_other r (io_data zio) zc_eck Hb ltac:(done) ltac:(unfold zc_eck; lia)) as (m & _ & -> & _). rewrite bind_Ok.
  destruct (load_other r (io_data zio) zc_nused Hb ltac:(done) ltac:(unfold zc_nused; lia)) as (n & Hn & -> & _). rewrite !bind_Ok.
  assert (Hfin : forall x, 0 <= x -> Ok (if read_size zio <? x then None else Some (P2ROUNDUP x ZIL_MIN_BLKSZ, zc_eck)) = Ok None \/
    exists size eck, Ok (if read_size zio <? x then None else Some (P2ROUNDUP x ZIL_MIN_BLKSZ, zc_eck)) = Ok (Some (size, eck)) /\ 0 <= eck /\
      eck + 40 <= Z.of_nat (length (io_data zio)) /\ 0 <= size <= Z.of_nat (length (io_data zio)) /\ (16 | size) /\ size <= INT_MAX).
  { intros x Hx. destruct (Z.ltb_spec (read_size zio) x); [by left |]. right. destruct (roundup_blksz x (read_size zio) ltac:(lia) Hm H4) as (Hr & H16').
    eexists _, _. split; [done |]. unfold zc_eck. split_and!; (done || lia). }
  case_tests; rewrite bind_Ok; [apply Hfin; apply Hn | apply Hfin; apply BSWAP_64_range | by left].
Qed.

(** The functions return on every machine. *)
Lemma func_total f (b : bool) r data size : agree f -> good_size data size -> exists c, byteswap_func b f r data size = Ok c /\ cksum_u64 c.
Proof.
  intros Ha Hg. destruct (Ha (if b then other r else r) r data size Hg) as (c & Hc & _ & E). exists c. split; [| done].
  rewrite <- E. f_equal. by destruct b, r.
Qed.

Lemma checksum_error_total r env zio : readable zio ->
  exists res, zio_checksum_error r env zio = Ok res /\ cr_data res = io_data zio /\
    match ci_of (read_checksum zio) ≫= ci_func with
    | None => cr_error res = EINVAL
    | Some _ => cr_error res = ECKSUM \/ cr_error res = 0 /\ exists i, cr_info res = Some i /\ zbc_actual i = zbc_expected i
    end.
Proof.
  intros Hr. pose proof Hr as (Hb & Hl & H16 & Hm & _ & _ & _ & Hbp). unfold zio_checksum_error. fold (read_checksum zio) (read_size zio).
  destruct (ci_of (read_checksum zio)) as [ci |] eqn:Hci; [| by eexists]. cbn [mbind option_bind]. destruct (ci_func ci) as [f |] eqn:Hf; [| by eexists].
  pose proof (table_agree _ _ _ Hci Hf) as Ha.
  assert (Hcmp : forall a e b, cksum_u64 a -> cksum_u64 e -> let res := compare_cksums env zio (io_data zio) a e b in
    cr_data res = io_data zio /\ (cr_error res = ECKSUM \/ cr_error res = 0 /\ exists i, cr_info res = Some i /\ zbc_actual i = zbc_expected i)).
  { intros a e b H1 H2. cbv zeta. destruct (compare_error env zio (io_data zio) a e b) as (-> & He & i & Ei & Ea & Ee & _). split; [done |].
    destruct (decide (a = e)) as [-> | Hne]; [destruct He; [right; split; [done |]; exists i; split; [done | congruence] | by left] |].
    left. by rewrite compare_differ. }
  destruct (ci_eck ci) eqn:Hk.
  - destruct (readable_place r zio ci Hr Hci Hk) as [-> | (size & eck & -> & He0 & He & Hs & H16' & Hm')]; [rewrite bind_Ok; eexists; split; [done |]; by auto |].
    rewrite bind_Ok. destruct (readable_verifier zio ci f Hr Hci Hf Hk) as (v & Ev & Hv). unfold verifier_of in Ev. rewrite Ev, bind_Ok.
    destruct (find_trailer r _ eck Hb He0 He) as (pre & m & c & post & Ed & Lp & Hmm & Hc). rewrite Ed, load_magic, bind_Ok by done. cbv zeta.
    rewrite load_trailer, bind_Ok, store_trailer, bind_Ok by done. set (bs := m =? BSWAP_64 ZEC_MAGIC). set (v' := if bs then byteswap_uint64_array v else v).
    destruct (func_total f bs r (pre ++ trailer r m v' ++ post) size Ha) as (a & -> & Hac).
    { rewrite Ed in Hb, Hs, He. rewrite !length_app, trailer_length in Hs. rewrite !Forall_app in Hb. unfold good_size. rewrite !length_app, trailer_length, !Forall_app.
      split; [split_and!; [apply Hb | apply trailer_byte | apply Hb] | split_and!; (done || lia)]. }
    rewrite bind_Ok, store_trailer, bind_Ok, <- Ed by done. eexists. split; [done |]. apply Hcmp; [done |]. destruct bs; [apply byteswap_u64 | done].
  - destruct (io_bp zio) as [b |] eqn:Ebp; [| destruct Hbp as [Hlab | Hn]; [rewrite Hlab in Hci; by rewrite (label_has_eck _ Hci) in Hk | by rewrite (Hn _ eq_refl) in Hf]].
    cbn [deref]. rewrite bind_Ok. assert (Hg : BP_IS_GANG b = false).
    { destruct (BP_IS_GANG b) eqn:Eg; [| done]. unfold read_checksum in Hci. rewrite Ebp, Eg in Hci. by rewrite (gang_has_eck _ Hci) in Hk. }
    rewrite Hg, VERIFY_pass by done. destruct (func_total f (BP_SHOULD_BYTESWAP r b) r (io_data zio) (read_size zio) Ha) as (a & -> & Hac).
    { destruct H16 as (q & Hq). split_and!; [done | lia | lia | by exists q | done]. }
    rewrite bind_Ok. eexists. split; [done |]. apply Hcmp; [done | apply Hbp].
Qed.
