(* ===== verification/ZioChecksumThms.v ===== *)
(** * What the checksums of blocks promise

    A block that one machine wrote is read without an error by a machine of
    either byte order; a block with whatever bytes is read without a panic and
    left as it was; damage to two words is noticed. *)
From S2P Require Import Prelude Bytes Words Fletcher FletcherSpec Sha256 Sha256Spec Blkptr ZioChecksum ZioChecksumSpec.
Local Open Scope Z_scope.

(** ** Write and read *)
(** The checksum that [zio_checksum_generate] chooses. *)
Definition write_checksum (zio : zio_t) : Z :=
  match io_bp zio with
  | None => zp_checksum zio
  | Some bp => if BP_IS_GANG bp && io_child_gang zio then ZIO_CHECKSUM_GANG_HEADER else BP_GET_CHECKSUM bp
  end.

Lemma generate_compute w zio data size : block_of w zio (write_checksum zio) data size -> (io_child_gang zio = true -> io_allocating zio = false) ->
  zio_checksum_generate w zio =
    ('(bp, data) ← zio_checksum_compute w zio (write_checksum zio) (io_data zio) (io_size zio) ; Ok (with_block bp data zio)).
Proof.
  intros (_ & _ & _ & _ & _ & _ & Hbp & _) Ha. unfold zio_checksum_generate, write_checksum in *. destruct (io_bp zio) as [b |].
  - destruct (BP_IS_GANG b); [| done]. cbn [andb] in *. destruct (io_child_gang zio); [| done]. by rewrite Ha.
  - destruct Hbp as (-> & _). done.
Qed.

(** C8: whatever the checksum (off, label, gang header, both kinds of log
    block, Fletcher of either order, SHA-256), the stage that generates it
    ends without a panic; and an I/O that reads the block, with the block
    pointer written, is accepted on a machine of either byte order, whichever
    the writer's: the two checksums compared are equal, the data are
    left as they were, and without injected faults the result is 0 and the
    stage that verifies it reports nothing. *)
Theorem zio_checksum_roundtrip w zio : block_of w zio (write_checksum zio) (io_data zio) (io_size zio) ->
  (io_child_gang zio = true -> io_allocating zio = false) ->
  exists bp' data' c, zio_checksum_generate w zio = Ok (with_block bp' data' zio) /\ length data' = length (io_data zio) /\
    forall r env rd, reads zio bp' data' rd -> io_has_vd rd = true -> zio_injection_enabled env = false -> zio_checksum_panic env = false ->
      zio_checksum_error r env rd = Ok (MkRes 0 data' (Some (MkBad c c (bool_decide (w <> r)) false true)) (zio_checksum_errs env)) /\
      zio_checksum_verify r env rd = Ok (rd, false, zio_checksum_errs env).
Proof.
  intros Hblk Ha. destruct (read_written w zio _ _ _ Hblk) as (bp' & data' & c & E & Hl & _ & Hs & Hrd). exists bp', data', c.
  split; [by rewrite (generate_compute _ _ _ _ Hblk Ha), E |]. split; [done |]. intros r env rd Hr Hv Hi Hp.
  assert (Er : zio_checksum_error r env rd = Ok (MkRes 0 data' (Some (MkBad c c (bool_decide (w <> r)) false true)) (zio_checksum_errs env))).
  { by rewrite (Hrd r env rd Hr), compare_equal. }
  split; [done |]. unfold zio_checksum_verify. rewrite Hv, VERIFY_pass, Er, bind_Ok, Hp by done. cbn [cr_error cr_data cr_errs].
  destruct Hr as (Eb & Ed & _ & Hn). assert (Ew : with_block (io_bp rd) data' rd = rd) by (rewrite <- Ed; by destruct rd).
  destruct (io_bp rd) as [b |] eqn:Ebp; [by rewrite Ew |].
  destruct Hblk as (_ & _ & _ & _ & _ & _ & Hbp & _). destruct (io_bp zio) as [b |]; [by subst bp' |].
  destruct Hbp as (_ & Ez & _), (Hn eq_refl) as (-> & _). rewrite Ez. by rewrite Ew.
Qed.

(** ** Any bytes *)
(** C25: whatever the bytes of a block that is read, even with a trailer, a log
    header or a block pointer that makes no sense, [zio_checksum_error] ends
    without a panic or an access outside the buffer, and the data are
    what they were, although the verifier was in their place for a while. It
    returns [EINVAL] if there is no such function, else [ECKSUM] or 0; and 0
    only if the checksum found is the one computed. *)
Theorem zio_checksum_error_safe r env zio : readable zio ->
  exists res, zio_checksum_error r env zio = Ok res /\ cr_data res = io_data zio /\
    match ci_of (read_checksum zio) ≫= ci_func with
    | None => cr_error res = EINVAL
    | Some _ => cr_error res = ECKSUM \/ cr_error res = 0 /\ exists i, cr_info res = Some i /\ zbc_actual i = zbc_expected i
    end.
Proof. apply checksum_error_total. Qed.

(** ** Damage *)
(** C26: a block of at most 16M that was written with the fourth-order Fletcher
    checksum, of which then one or two words of 32 bits were damaged on the
    disk, is refused with [ECKSUM] by a reader of either byte order, with or
    without injected faults. *)
Theorem zio_checksum_detects w r env zio data data' size i j : block_of w zio ZIO_CHECKSUM_FLETCHER_4 data size -> size <= 2 ^ 24 ->
  Forall is_byte data' -> 4 * Z.of_nat i < size -> 4 * Z.of_nat j < size -> differ_within 4 i j data data' -> data' <> data ->
  exists bp', zio_checksum_compute w zio ZIO_CHECKSUM_FLETCHER_4 data size = Ok (bp', data) /\
    forall rd, reads zio bp' data' rd ->
      exists info, zio_checksum_error r env rd = Ok (MkRes ECKSUM data' (Some info) (zio_checksum_errs env + 1)).
Proof.
  intros Hblk Hmax Hb' Hi Hj Hd Hne. pose proof Hblk as (Hb & Hl & (q & Hq) & Hs & _). pose proof Hd as (Hl' & _).
  set (ci := MkCi (Some (fletcher_4_native : zio_checksum_t, fletcher_4_byteswap : zio_checksum_t)) 1 false false).
  assert (Hci : ci_of ZIO_CHECKSUM_FLETCHER_4 = Some ci) by done.
  destruct (ci_func ci) as [f |] eqn:Hf; [| done]. pose proof Hf as Ef. injection Ef as <-.
  destruct (compute_plain w zio _ data size ci _ Hblk Hci Hf eq_refl) as (b' & c & E & Hsame & Ec & Hc & Hg & Ho & Hfun). exists (Some b').
  assert (Hg' : good_size data' size) by (split_and!; [done | lia | lia | by exists q | lia]).
  destruct (table_agree _ _ _ Hci Hf w r data' size Hg') as (c' & Hc' & Ew' & Er').
  specialize (Hfun w) as Ew. rewrite bool_decide_false in Ew by auto. unfold byteswap_func in Ew. cbn [fst] in Ew, Ew'.
  set (k := Z.to_nat (size / 4)). assert (Hk : size = 4 * Z.of_nat k).
  { assert (size / 4 = 4 * q) by (rewrite Hq; replace (q * 16) with (4 * q * 4) by lia; by apply Z.div_mul). lia. }
  rewrite Hk, fletcher_4_native_words in Ew, Ew' by lia. injection Ew as Ew. injection Ew' as Ew'.
  destruct (fletcher_4_differ w data data' k i j Hb Hb' ltac:(lia) ltac:(lia) ltac:(lia) ltac:(lia) Hd Hne) as (_ & _ & Hdiff).
  split; [done |]. intros rd Hrd. destruct (read_back _ _ _ _ _ _ _ _ Hblk Hsame Hrd) as (Erc & Ers), Hrd as (Eb & Ed & _). eexists.
  rewrite (error_plain w r env rd ci _ b' ltac:(rewrite Erc; exact Hci) Hf eq_refl Eb Hg Ho), Ers, Ed. rewrite Er', bind_Ok, Ec, compare_differ; [done | done | done |]. by rewrite <- Ew, <- Ew'.
Qed.

(** ** Examples *)
(** A file block of 512 bytes with the checksum fletcher4, of a big-endian
    machine. *)
Definition demo_bp : blkptr :=
  MkBp (MkDva 1 0) (MkDva 0 0) (MkDva 0 0) (Z.shiftl 7 40) 0 0 0 10 1 zero_cksum.
Definition demo_zio : zio_t :=
  MkZio (Some demo_bp) 0 512 (replicate 512 5) 0 ZIO_TYPE_READ 1 (MkZb 1 1 0 0) None ZIO_CHECKSUM_ON DMU_OT_PLAIN_FILE_CONTENTS false false true false.
Definition quiet_env : cksum_env := MkEnv false [] (fun _ => 0) 0 false.

Lemma demo_block : block_of BIG demo_zio ZIO_CHECKSUM_FLETCHER_4 (replicate 512 5) 512.
Proof.
  split; [by apply Forall_replicate |]. split; [reflexivity |]. split; [by exists 32 |]. split; [done |]. split; [done |]. split; [done |].
  split; [| intros H; discriminate H]. split; [done |]. split; [done |]. split; [reflexivity |]. split; [done |]. split; reflexivity.
Qed.

Lemma zio_checksum_roundtrip_witness : exists bp' data',
  zio_checksum_generate BIG demo_zio = Ok (with_block bp' data' demo_zio) /\
  zio_checksum_verify LITTLE quiet_env (with_block bp' data' demo_zio) = Ok (with_block bp' data' demo_zio, false, 0).
Proof.
  destruct (zio_checksum_roundtrip BIG demo_zio demo_block ltac:(discriminate)) as (bp' & data' & c & E & _ & H). exists bp', data'.
  split; [exact E |]. apply (H LITTLE quiet_env (with_block bp' data' demo_zio)); [| reflexivity ..]. split; [reflexivity |]. split; [reflexivity |].
  split; [reflexivity | discriminate].
Defined.

Lemma demo_readable : readable demo_zio.
Proof.
  split; [by apply Forall_replicate |]. split; [reflexivity |]. split; [by exists 32 |]. split; [done |]. split; [done |].
  split; [intros ci [= <-]; done |]. split; [intros H; discriminate H |]. split; [by split_and! |]. split; [done |]. split; [done |]. intros H. discriminate H.
Qed.

Lemma zio_checksum_error_safe_witness : exists res,
  zio_checksum_error LITTLE quiet_env demo_zio = Ok res /\ cr_data res = replicate 512 5 /\ cr_error res = ECKSUM.
Proof.
  destruct (zio_checksum_error_safe LITTLE quiet_env demo_zio demo_readable) as (res & E & Ed & _). exists res. split; [exact E |]. split; [exact Ed |].
  vm_compute in E. injection E as <-. reflexivity.
Defined.

Lemma zio_checksum_detects_witness : exists bp' info,
  zio_checksum_compute BIG demo_zio ZIO_CHECKSUM_FLETCHER_4 (replicate 512 5) 512 = Ok (bp', replicate 512 5) /\
  zio_checksum_error LITTLE quiet_env (with_block bp' (6 :: replicate 511 5) demo_zio) = Ok (MkRes ECKSUM (6 :: replicate 511 5) (Some info) 1).
Proof.
  destruct (zio_checksum_detects BIG LITTLE quiet_env demo_zio (replicate 512 5) (6 :: replicate 511 5) 512 0 0 demo_block) as (bp' & E & H);
    [done | constructor; [done | by apply Forall_replicate] | done | done | | discriminate |].
  - split; [reflexivity |]. intros [| p] Hp _; [by destruct Hp | reflexivity].
  - destruct (H (with_block bp' (6 :: replicate 511 5) demo_zio)) as (info & Ei).
    { split; [reflexivity |]. split; [reflexivity |]. split; [reflexivity | discriminate]. }
    exists bp', info. split; [exact E | exact Ei].
Defined.
