(* ===== verification/RaidzIo.v ===== *)
(** * RAID-Z I/O (zfs/module/zfs/vdev_raidz.c)

    From [vdev_raidz_io_start] to [vdev_raidz_io_done]: which columns are read
    or written, what is done about errors that the children report and about
    data with a wrong checksum, and what is written to repair them. The data
    of the I/O are the data columns of its map, one after the other. Blocks
    written in aggregation ([BP_IS_TOGTHER]) take paths that are left out. *)
From S2P Require Import Prelude Bytes Words Fletcher Blkptr ZioChecksum Raidz.
Local Open Scope Z_scope.

(** of raidz_aggre.h *)
Definition BP_IS_TOGTHER (bp : blkptr) : bool := negb (BF64_GET (blk_pad1 bp) 15 1 =? 0).

Definition EIO : Z := 5.
Definition ENXIO : Z := 6.
Definition ESTALE : Z := 116.

(** The vdev: the shift of its sectors, its children and which of them can be
    read, or miss the transaction group of the block. *)
Record raidz_vdev : Type := MkVd {
  vdev_ashift : Z;
  vdev_children : Z;
  vdev_nparity : Z;
  vdev_readable : Z -> bool;
  vdev_dtl_missing : Z -> bool }.

(** What does not change during an I/O: the byte order, the contents of new
    buffers, the tunables, the flags of the I/O, whether it is a write in
    aggregation, whether the pool is writeable. *)
Record raidz_ctx : Type := MkCtx {
  rx_host : endian;
  rx_alloc : Z -> list Z;
  vdev_raidz_default_to_general : bool;
  vdev_raidz_aggre : bool;
  io_aggre_io : bool;
  flag_resilver : bool;
  flag_scrub : bool;
  spa_writeable : bool }.

(** Reports on a child: posted with the bad data, or started for a column. *)
Inductive ereport : Type :=
  | Posted (dev : Z) (bad : list Z) (injected : bool)
  | Started (dev col : Z) (injected : bool).

Record raidz_io : Type := MkIo {
  io_zio : zio_t;
  io_rm : raidz_map;
  rm_ecksuminjected : bool;
  io_env : cksum_env;
  raidz_corrected : list Z;
  io_ereports : list ereport;
  io_verified : bool }.

Definition set_rm (io : raidz_io) (rm : raidz_map) : raidz_io :=
  MkIo (io_zio io) rm (rm_ecksuminjected io) (io_env io) (raidz_corrected io) (io_ereports io) (io_verified io).
Definition set_error (io : raidz_io) (error : Z) : raidz_io :=
  MkIo (with_io_error error (io_zio io)) (io_rm io) (rm_ecksuminjected io) (io_env io) (raidz_corrected io) (io_ereports io) (io_verified io).
Definition report (io : raidz_io) (r : ereport) : raidz_io :=
  MkIo (io_zio io) (io_rm io) (rm_ecksuminjected io) (io_env io) (raidz_corrected io) (io_ereports io ++ [r]) (io_verified io).
Definition zio_checksum_verified (io : raidz_io) : raidz_io :=
  MkIo (io_zio io) (io_rm io) (rm_ecksuminjected io) (io_env io) (raidz_corrected io) (io_ereports io) true.
Definition set_errs (env : cksum_env) (errs : Z) : cksum_env :=
  MkEnv (zio_injection_enabled env) (inject_handlers env) (spa_random env) errs (zio_checksum_panic env).

(** [atomic_inc_64(&raidz_corrected[code])] *)
Definition count_corrected (io : raidz_io) (code : Z) : result raidz_io :=
  v ← at_ (raidz_corrected io) code ;
  Ok (MkIo (io_zio io) (io_rm io) (rm_ecksuminjected io) (io_env io) (<[Z.to_nat code := u64_add v 1]> (raidz_corrected io))
        (io_ereports io) (io_verified io)).

Definition with_flags (k : raidz_col) (error : Z) (tried skipped : bool) : raidz_col :=
  MkCol (rc_devidx k) (rc_offset k) (rc_size k) (rc_data k) error tried skipped.
Definition set_missing (rm : raidz_map) (data parity : Z) : raidz_map :=
  MkRm (rm_cols rm) (rm_scols rm) (rm_bigcols rm) (rm_asize rm) data parity (rm_firstdatacol rm) (rm_nskip rm) (rm_skipstart rm) (rm_col rm).

Definition bcopy (src dst : list Z) (n : Z) : result (list Z) :=
  VERIFY ((0 <=? n) && (n <=? Z.of_nat (length src)) && (n <=? Z.of_nat (length dst))) ;;
  Ok (take (Z.to_nat n) src ++ drop (Z.to_nat n) dst).
(** [bcmp(a, b, n) != 0] *)
Definition bcmp (a b : list Z) (n : Z) : bool := negb (bool_decide (take (Z.to_nat n) a = take (Z.to_nat n) b)).

(** ** Errors *)
Definition zio_error_rank : list Z := [0; ENXIO; ECKSUM; EIO].
Fixpoint rank_of (e : Z) (l : list Z) : nat :=
  match l with
  | [] => 0
  | r :: l => if e =? r then 0 else S (rank_of e l)
  end.
Definition zio_worst_error (e1 e2 : Z) : Z := if (rank_of e2 zio_error_rank <? rank_of e1 zio_error_rank)%nat then e1 else e2.

Definition vdev_raidz_worst_error (rm : raidz_map) : result Z :=
  for_range 0 (rm_cols rm) (fun c error => k ← get_col rm c ; Ok (zio_worst_error error (rc_error k))) 0.

Definition raidz_checksum_error (io : raidz_io) (k : raidz_col) (bad_data : list Z) : raidz_io :=
  if io_speculative (io_zio io) then io else report io (Posted (rc_devidx k) bad_data (rm_ecksuminjected io)).

(** ** Checksums *)
Definition io_buffer (rm : raidz_map) : list Z :=
  concat (map rc_data (take (Z.to_nat (rm_cols rm - rm_firstdatacol rm)) (drop (Z.to_nat (rm_firstdatacol rm)) (rm_col rm)))).

Definition raidz_checksum_verify (cx : raidz_ctx) (io : raidz_io) : result (raidz_io * Z) :=
  r ← zio_checksum_error (rx_host cx) (io_env io) (with_block (io_bp (io_zio io)) (io_buffer (io_rm io)) (io_zio io)) ;
  rm ← slice_data (cr_data r) (io_rm io) ;
  let ret := cr_error r in
  let injected := match cr_info r with Some zbc => zbc_injected zbc | None => false end in
  Ok (MkIo (io_zio io) rm (if negb (ret =? 0) && injected then true else rm_ecksuminjected io) (set_errs (io_env io) (cr_errs r))
        (raidz_corrected io) (io_ereports io) (io_verified io), ret).

(** [!rc->rc_tried || rc->rc_error != 0] *)
Definition not_read (k : raidz_col) : bool := negb (rc_tried k) || negb (rc_error k =? 0).

Definition raidz_parity_verify (cx : raidz_ctx) (io : raidz_io) : result (raidz_io * Z) :=
  let fdc := rm_firstdatacol (io_rm io) in
  orig ← for_range 0 fdc (fun c orig =>
    rc ← get_col (io_rm io) c ;
    if not_read rc then Ok (orig ++ [None])
    else b ← bcopy (rc_data rc) (rx_alloc cx (rc_size rc)) (rc_size rc) ; Ok (orig ++ [Some b])) [] ;
  rm ← vdev_raidz_generate_parity (io_rm io) ;
  for_range 0 fdc (fun c '(io, ret) =>
    rc ← get_col (io_rm io) c ;
    if not_read rc then Ok (io, ret)
    else
      o ← deref (orig !! Z.to_nat c) ; o ← deref o ;
      if bcmp o (rc_data rc) (rc_size rc) then
        let io := raidz_checksum_error io rc o in
        rm ← upd_col (io_rm io) c (fun k => with_error k ECKSUM) ;
        Ok (set_rm io rm, ret + 1)
      else Ok (io, ret)) (set_rm io rm, 0).
