(* ===== verification/RaidzComb.v ===== *)
(** * Combinatorial reconstruction (zfs/module/zfs/vdev_raidz.c)

    [vdev_raidz_combrec]: when the checksum is wrong although no more columns
    can be read, every choice of columns that may be silently damaged is tried,
    as long as there is parity for it. The targets are in an array with a
    sentinel at each end. *)
From S2P Require Import Prelude Bytes Words Fletcher Blkptr ZioChecksum Raidz RaidzIo.
Local Open Scope Z_scope.

(** [tgts[i]] where [tgts = &tstore[1]]. *)
Definition tgt (ts : list Z) (i : Z) : result Z := at_ ts (i + 1).
Definition set_tgt (ts : list Z) (i v : Z) : result (list Z) :=
  VERIFY ((0 <=? i + 1) && (i + 1 <? Z.of_nat (length ts))) ;; Ok (<[Z.to_nat (i + 1) := v]> ts).
(** The first [n] targets. *)
Definition targets (ts : list Z) (n : Z) : list Z := take (Z.to_nat n) (drop 1 ts).

(** [while (rm->rm_col[c].rc_error != 0) { c++; ASSERT3S(c, <, rm->rm_cols); }] *)
Fixpoint skip_errors (fuel : nat) (rm : raidz_map) (c : Z) : result Z :=
  match fuel with
  | O => Panic
  | S f =>
      k ← get_col rm c ;
      if negb (rc_error k =? 0) then VERIFY (c + 1 <? rm_cols rm) ;; skip_errors f rm (c + 1) else Ok c
  end.

(** The first [n] columns without an error, the last of them a data column
    if there were no errors in data columns. *)
Definition init_targets (rm : raidz_map) (n data_errors : Z) (ts : list Z) : result (list Z) :=
  '(ts, _) ← for_range 0 n (fun i '(ts, c) =>
    let c := if (i =? n - 1) && (data_errors =? 0) && (c <? rm_firstdatacol rm) then rm_firstdatacol rm else c in
    c ← skip_errors (Z.to_nat (rm_cols rm) + 1) rm c ;
    ts ← set_tgt ts i c ;
    Ok (ts, c + 1)) (ts, 0) ;
  Ok ts.

(** [for (next = ...; next < rm->rm_cols && rm->rm_col[next].rc_error != 0; next++)] *)
Fixpoint next_valid (fuel : nat) (rm : raidz_map) (next : Z) : result Z :=
  match fuel with
  | O => Panic
  | S f =>
      if next <? rm_cols rm then k ← get_col rm next ; if negb (rc_error k =? 0) then next_valid f rm (next + 1) else Ok next
      else Ok next
  end.

(** [for (c = ...; rm->rm_col[c].rc_error != 0; c++)] *)
Fixpoint first_valid (fuel : nat) (rm : raidz_map) (c : Z) : result Z :=
  match fuel with
  | O => Panic
  | S f => k ← get_col rm c ; if negb (rc_error k =? 0) then first_valid f rm (c + 1) else Ok c
  end.

(** The [do ... while (curr != n)] loop: the targets, [curr] and [next]. *)
Fixpoint advance (fuel : nat) (rm : raidz_map) (n : Z) (ts : list Z) (curr : Z) : result (list Z * Z * Z) :=
  match fuel with
  | O => Panic
  | S f =>
      t ← tgt ts curr ;
      next ← next_valid (Z.to_nat (rm_cols rm) + 1) rm (t + 1) ;
      u ← tgt ts (curr + 1) ;
      VERIFY (next <=? u) ;;
      if negb (next =? u) then Ok (ts, curr, next)
      else
        t ← tgt ts (curr - 1) ;
        c ← first_valid (Z.to_nat (rm_cols rm) + 1) rm (t + 1) ;
        ts ← set_tgt ts curr c ;
        if curr + 1 =? n then Ok (ts, curr + 1, next) else advance f rm n ts (curr + 1)
  end.

(** The data of the targets, kept in [orig], and put back. *)
Definition save_targets (rm : raidz_map) (n : Z) (ts : list Z) (orig : list (list Z)) : result (list (list Z)) :=
  for_range 0 n (fun i orig =>
    o ← deref (orig !! Z.to_nat i) ;
    c ← tgt ts i ;
    VERIFY (0 <=? c) ;; VERIFY (c <? rm_cols rm) ;;
    rc ← get_col rm c ;
    o ← bcopy (rc_data rc) o (rc_size rc) ;
    Ok (<[Z.to_nat i := o]> orig)) orig.
Definition restore_targets (n : Z) (ts : list Z) (orig : list (list Z)) (rm : raidz_map) : result raidz_map :=
  for_range 0 n (fun i rm =>
    o ← deref (orig !! Z.to_nat i) ;
    c ← tgt ts i ;
    rc ← get_col rm c ;
    d ← bcopy o (rc_data rc) (rc_size rc) ;
    upd_col rm c (fun k => with_data k d)) rm.

(** The targets turned out to be bad. *)
Definition mark_targets (n : Z) (ts : list Z) (orig : list (list Z)) (io : raidz_io) : result raidz_io :=
  for_range 0 n (fun i io =>
    c ← tgt ts i ;
    rc ← get_col (io_rm io) c ;
    VERIFY (rc_error rc =? 0) ;;
    o ← deref (orig !! Z.to_nat i) ;
    let io := if rc_tried rc then raidz_checksum_error io rc o else io in
    rm ← upd_col (io_rm io) c (fun k => with_error k ECKSUM) ;
    Ok (set_rm io rm)) io.

(** The [while (curr != n)] loop; with [Some code] the code leaves both loops. *)
Fixpoint try_targets (fuel : nat) (cx : raidz_ctx) (n : Z) (io : raidz_io) (orig : list (list Z)) (ts : list Z) (curr next : Z) :
  result (raidz_io * list (list Z) * list Z * option Z) :=
  match fuel with
  | O => Panic
  | S f =>
      if curr =? n then Ok (io, orig, ts, None)
      else
        ts ← set_tgt ts curr next ;
        orig ← save_targets (io_rm io) n ts orig ;
        '(rm, code) ← vdev_raidz_reconstruct (rx_alloc cx) (vdev_raidz_default_to_general cx) (io_rm io) (targets ts n) ;
        '(io, ret) ← raidz_checksum_verify cx (set_rm io rm) ;
        if ret =? 0 then
          io ← count_corrected io code ;
          io ← mark_targets n ts orig io ;
          Ok (io, orig, ts, Some code)
        else
          rm ← restore_targets n ts orig (io_rm io) ;
          '(ts, curr, next) ← advance (Z.to_nat n) rm n ts 0 ;
          try_targets f cx n (set_rm io rm) orig ts curr next
  end.

(** The targets rise, compared from the last one on: the loop ends before
    they are exhausted. *)
Definition try_fuel (rm : raidz_map) (n : Z) : nat := Z.to_nat ((rm_cols rm + 1) ^ n + 1).

(** [for (n = ...; n <= rm->rm_firstdatacol - total_errors; n++)] *)
Fixpoint combrec_for (fuel : nat) (cx : raidz_ctx) (total_errors data_errors : Z) (io : raidz_io) (orig : list (list Z)) (ts : list Z) (n : Z) :
  result (raidz_io * Z) :=
  match fuel with
  | O => Panic
  | S f =>
      let rm := io_rm io in
      if n <=? rm_firstdatacol rm - total_errors then
        ts ← init_targets rm n data_errors ts ;
        ts ← set_tgt ts n (rm_cols rm) ;
        VERIFY (Z.of_nat (length orig) =? n - 1) ;;
        rc ← get_col rm 0 ;
        let orig := orig ++ [rx_alloc cx (rc_size rc)] in
        next ← tgt ts 0 ;
        '(io, orig, ts, ret) ← try_targets (try_fuel rm n) cx n io orig ts 0 next ;
        match ret with
        | Some code => Ok (io, code)
        | None => combrec_for f cx total_errors data_errors io orig ts (n + 1)
        end
      else Ok (io, 0)
  end.

Definition vdev_raidz_combrec (cx : raidz_ctx) (io : raidz_io) (total_errors data_errors : Z) : result (raidz_io * Z) :=
  VERIFY (total_errors <? rm_firstdatacol (io_rm io)) ;;
  ts ← set_tgt (replicate (Z.to_nat (VDEV_RAIDZ_MAXPARITY + 2)) 0) (-1) (-1) ;
  combrec_for (Z.to_nat VDEV_RAIDZ_MAXPARITY + 1) cx total_errors data_errors io [] ts 1.
