(* ===== verification/RaidzDone.v ===== *)
(** * The start and the end of a RAID-Z I/O (zfs/module/zfs/vdev_raidz.c)

    [vdev_raidz_io_start] gives the I/Os on the children, [vdev_raidz_io_done]
    what is to be done when they have ended: nothing, or reading the columns
    that were not tried; and the writes that repair bad columns. *)
From S2P Require Import Prelude Bytes Words Fletcher Blkptr ZioChecksum Raidz RaidzIo RaidzComb.
Local Open Scope Z_scope.

(** ** The start *)
(** A column, or a sector that is skipped and written only to fill the gap. *)
Inductive child_io : Type :=
  | Column (c : Z)
  | Skipped (dev offset : Z).

(** One column of a read: the columns to be read are collected. *)
Definition start_column (cx : raidz_ctx) (vd : raidz_vdev) (c : Z) (st : raidz_map * list Z) : result (raidz_map * list Z) :=
  let '(rm, issued) := st in
  let fdc := rm_firstdatacol rm in
  let missing rm := if fdc <=? c then set_missing rm (rm_missingdata rm + 1) (rm_missingparity rm)
                    else set_missing rm (rm_missingdata rm) (rm_missingparity rm + 1) in
  rc ← get_col rm c ;
  if negb (vdev_readable vd (rc_devidx rc)) then
    rm ← upd_col (missing rm) c (fun k => with_flags k ENXIO true true) ; Ok (rm, issued)
  else if vdev_dtl_missing vd (rc_devidx rc) then
    rm ← upd_col (missing rm) c (fun k => with_flags k ESTALE (rc_tried k) true) ; Ok (rm, issued)
  else if (fdc <=? c) || (0 <? rm_missingdata rm) || (flag_scrub cx || flag_resilver cx) then Ok (rm, issued ++ [c])
  else Ok (rm, issued).

Definition start_skips (vd : raidz_vdev) (rm : raidz_map) : result (list child_io) :=
  '(_, l) ← for_range 0 (rm_nskip rm) (fun _ '(c, l) =>
    VERIFY (c <=? rm_scols rm) ;;
    let c := if c =? rm_scols rm then 0 else c in
    rc ← get_col rm c ;
    Ok (c + 1, l ++ [Skipped (rc_devidx rc) (u64_add (rc_offset rc) (rc_size rc))])) (rm_skipstart rm, []) ;
  Ok l.

(** [None] for the I/Os that take the paths for aggregation. *)
Definition vdev_raidz_io_start (cx : raidz_ctx) (vd : raidz_vdev) (zio : zio_t) : result (option (raidz_map * list child_io)) :=
  bp ← deref (io_bp zio) ;
  if ((BP_IS_TOGTHER bp && (io_type zio =? ZIO_TYPE_READ)) || (io_aggre_io cx && (io_type zio =? ZIO_TYPE_WRITE))) && vdev_raidz_aggre cx then
    Ok None
  else
  rm ← vdev_raidz_map_alloc (rx_alloc cx) (io_offset zio) (io_size zio) (io_data zio) (vdev_ashift vd) (vdev_children vd) (vdev_nparity vd) ;
  VERIFY (rm_asize rm =? vdev_raidz_asize (vdev_ashift vd) (vdev_children vd) (vdev_nparity vd) (io_size zio)) ;;
  if io_type zio =? ZIO_TYPE_WRITE then
    rm ← vdev_raidz_generate_parity rm ;
    skips ← start_skips vd rm ;
    Ok (Some (rm, map Column (seqZ 0 (rm_cols rm)) ++ skips))
  else
    VERIFY (io_type zio =? ZIO_TYPE_READ) ;;
    '(rm, issued) ← for_range 0 (rm_cols rm) (fun i st => start_column cx vd (rm_cols rm - 1 - i) st) (rm, []) ;
    Ok (Some (rm, map Column issued)).

(** A child I/O on a column ended with an error code and left bytes in the
    buffer. *)
Definition vdev_raidz_child_done (k : raidz_col) (error : Z) (data : list Z) : raidz_col :=
  MkCol (rc_devidx k) (rc_offset k) (rc_size k) data error true false.

(** ** The end *)
Record err_counts : Type := MkCounts {
  unexpected_errors : Z;
  parity_errors : Z;
  parity_untried : Z;
  data_errors : Z;
  total_errors : Z }.

Definition count_errors (rm : raidz_map) : result err_counts :=
  for_range 0 (rm_cols rm) (fun c n =>
    rc ← get_col rm c ;
    if negb (rc_error rc =? 0) then
      VERIFY (negb (rc_error rc =? ECKSUM)) ;;
      let parity := c <? rm_firstdatacol rm in
      Ok (MkCounts (if rc_skipped rc then unexpected_errors n else unexpected_errors n + 1)
            (if parity then parity_errors n + 1 else parity_errors n) (parity_untried n)
            (if parity then data_errors n else data_errors n + 1) (total_errors n + 1))
    else if (c <? rm_firstdatacol rm) && negb (rc_tried rc) then
      Ok (MkCounts (unexpected_errors n) (parity_errors n) (parity_untried n + 1) (data_errors n) (total_errors n))
    else Ok n) (MkCounts 0 0 0 0 0).

(** How the function returns: the I/O has ended, with the columns that are
    written to repair them; or the columns given are read first. *)
Inductive outcome_t : Type :=
  | Finished (io : raidz_io) (repairs : list (Z * list Z))
  | Redo (io : raidz_io) (columns : list Z)
  | Aggregated.

(** The regenerated parity is compared; the number of unexpected errors then. *)
Definition check_parity (cx : raidz_ctx) (io : raidz_io) (t : err_counts) : result (raidz_io * option Z) :=
  '(io, n) ← raidz_parity_verify cx io ;
  VERIFY (parity_errors t + n <=? rm_firstdatacol (io_rm io)) ;;
  Ok (io, Some (unexpected_errors t + n)).

(** The data columns in error. *)
Definition bad_data_columns (rm : raidz_map) : result (list Z) :=
  for_range (rm_firstdatacol rm) (rm_cols rm) (fun c tgts =>
    rc ← get_col rm c ;
    if negb (rc_error rc =? 0) then VERIFY (Z.of_nat (length tgts) <? VDEV_RAIDZ_MAXPARITY) ;; Ok (tgts ++ [c]) else Ok tgts) [].

(** Up to the label [redo]; [Some unexpected_errors] when the code goes to
    [done]. *)
Definition first_phase (cx : raidz_ctx) (io : raidz_io) (t : err_counts) : result (raidz_io * option Z) :=
  let rm := io_rm io in
  let fdc := rm_firstdatacol rm in
  if total_errors t <=? fdc - parity_untried t then
    if data_errors t =? 0 then
      '(io, ret) ← raidz_checksum_verify cx io ;
      if ret =? 0 then
        if (parity_errors t + parity_untried t <? fdc) || flag_resilver cx then check_parity cx io t
        else Ok (io, Some (unexpected_errors t))
      else Ok (io, None)
    else
      VERIFY (parity_untried t =? 0) ;; VERIFY (parity_errors t <? fdc) ;;
      tgts ← bad_data_columns rm ;
      let n := Z.of_nat (length tgts) in
      VERIFY (n <=? fdc) ;;
      '(rm, code) ← vdev_raidz_reconstruct (rx_alloc cx) (vdev_raidz_default_to_general cx) rm tgts ;
      '(io, ret) ← raidz_checksum_verify cx (set_rm io rm) ;
      if ret =? 0 then
        io ← count_corrected io code ;
        if (parity_errors t <? fdc - n) || flag_resilver cx then check_parity cx io t
        else Ok (io, Some (unexpected_errors t))
      else Ok (io, None)
  else Ok (io, None).

(** Reports are started for the columns that have no error. *)
Definition start_reports (io : raidz_io) : result raidz_io :=
  if io_speculative (io_zio io) then Ok io
  else for_range 0 (rm_cols (io_rm io)) (fun c io =>
    rc ← get_col (io_rm io) c ;
    Ok (if rc_error rc =? 0 then report io (Started (rc_devidx rc) c (rm_ecksuminjected io)) else io)) io.

(** All columns have been tried. *)
Definition last_phase (cx : raidz_ctx) (io : raidz_io) (t : err_counts) : result raidz_io :=
  let fdc := rm_firstdatacol (io_rm io) in
  if fdc <? total_errors t then e ← vdev_raidz_worst_error (io_rm io) ; Ok (set_error io e)
  else
    '(io, code) ← (if total_errors t <? fdc then vdev_raidz_combrec cx io (total_errors t) (data_errors t) else Ok (io, 0)) ;
    if negb (code =? 0) then
      if negb (code =? Z.shiftl 1 fdc - 1) then '(io, _) ← raidz_parity_verify cx io ; Ok io else Ok io
    else start_reports (set_error io ECKSUM).

(** From the label [done] on. *)
Definition done_phase (cx : raidz_ctx) (io : raidz_io) (unexpected : Z) : result outcome_t :=
  let io := zio_checksum_verified io in
  if (io_error (io_zio io) =? 0) && spa_writeable cx && (negb (unexpected =? 0) || flag_resilver cx) then
    '(io, n) ← raidz_checksum_verify cx io ;
    if negb (n =? 0) then io ← start_reports (set_error io ECKSUM) ; Ok (Finished io [])
    else
      repairs ← for_range 0 (rm_cols (io_rm io)) (fun c repairs =>
        rc ← get_col (io_rm io) c ;
        Ok (if rc_error rc =? 0 then repairs else repairs ++ [(c, rc_data rc)])) [] ;
      Ok (Finished io repairs)
  else Ok (Finished io []).

Definition untried (rm : raidz_map) : result (list Z) :=
  for_range 0 (rm_cols rm) (fun c l => rc ← get_col rm c ; Ok (if rc_tried rc then l else l ++ [c])) [].

Definition vdev_raidz_io_done (cx : raidz_ctx) (io : raidz_io) : result outcome_t :=
  let rm := io_rm io in
  let fdc := rm_firstdatacol rm in
  bp ← deref (io_bp (io_zio io)) ;
  if BP_IS_TOGTHER bp then Ok Aggregated else
  VERIFY (rm_missingparity rm <=? fdc) ;;
  VERIFY (rm_missingdata rm <=? rm_cols rm - fdc) ;;
  t ← count_errors rm ;
  if io_type (io_zio io) =? ZIO_TYPE_WRITE then
    if fdc <? total_errors t then e ← vdev_raidz_worst_error rm ; Ok (Finished (set_error io e) []) else Ok (Finished io [])
  else
    VERIFY (io_type (io_zio io) =? ZIO_TYPE_READ) ;;
    '(io, unexpected) ← first_phase cx io t ;
    match unexpected with
    | Some unexpected => done_phase cx io unexpected
    | None =>
        let io := set_rm io (set_missing (io_rm io) 0 0) in
        l ← untried (io_rm io) ;
        match l with
        | [] => io ← last_phase cx io t ; done_phase cx io 1
        | _ => Ok (Redo io l)
        end
    end.

(** ** A read and a write *)
(** The columns [l] are read: [dev i offset size] is the error of the read on
    child [i] and what it leaves in the buffer. *)
Definition read_columns (dev : Z -> Z -> Z -> Z * list Z) (l : list Z) (rm : raidz_map) : result raidz_map :=
  foldl (fun rm c => rm ← rm ; upd_col rm c (fun k =>
    let '(error, data) := dev (rc_devidx k) (rc_offset k) (rc_size k) in vdev_raidz_child_done k error data)) (Ok rm) l.

(** The columns [l] are written: [dev i offset data] is the error of the write. *)
Definition write_columns (dev : Z -> Z -> list Z -> Z) (l : list Z) (rm : raidz_map) : result raidz_map :=
  foldl (fun rm c => rm ← rm ; upd_col rm c (fun k =>
    vdev_raidz_child_done k (dev (rc_devidx k) (rc_offset k) (rc_data k)) (rc_data k))) (Ok rm) l.

Definition column_of (i : child_io) : option Z := match i with Column c => Some c | Skipped _ _ => None end.

Definition raidz_read (cx : raidz_ctx) (vd : raidz_vdev) (env : cksum_env) (corrected : list Z) (dev : Z -> Z -> Z -> Z * list Z) (zio : zio_t) :
  result outcome_t :=
  start ← vdev_raidz_io_start cx vd zio ;
  match start with
  | None => Ok Aggregated
  | Some (rm, issued) =>
      rm ← read_columns dev (omap column_of issued) rm ;
      o ← vdev_raidz_io_done cx (MkIo zio rm false env corrected [] false) ;
      match o with
      | Redo io l => rm ← read_columns dev l (io_rm io) ; vdev_raidz_io_done cx (set_rm io rm)
      | o => Ok o
      end
  end.

Definition raidz_write (cx : raidz_ctx) (vd : raidz_vdev) (env : cksum_env) (corrected : list Z) (dev : Z -> Z -> list Z -> Z) (zio : zio_t) :
  result outcome_t :=
  start ← vdev_raidz_io_start cx vd zio ;
  match start with
  | None => Ok Aggregated
  | Some (rm, issued) =>
      rm ← write_columns dev (omap column_of issued) rm ;
      vdev_raidz_io_done cx (MkIo zio rm false env corrected [] false)
  end.
