(* ===== verification/RaidzIoSpec.v ===== *)
(** * Checksums and parity of a RAID-Z I/O

    What [raidz_checksum_verify] and [raidz_parity_verify] do to the state of
    an I/O. *)
From S2P Require Import Prelude Bytes Words Fletcher FletcherSpec Blkptr ZioChecksum ZioChecksumSpec.
From S2P Require Import Gf256 Raidz RaidzSpec RaidzRec RaidzMap RaidzChoice RaidzStripe RaidzSolve RaidzIo.
Local Open Scope Z_scope.

Lemma bads_snoc f a n : 0 <= n -> bads f a (n + 1) = bads f a n ++ if f (a + n) then [a + n] else [].
Proof.
  intros Hn. unfold bads. rewrite seqZ_app, filter_app by lia. f_equal. rewrite seqZ_cons', seqZ_nil, filter_cons, filter_nil by lia.
  by destruct (f (a + n)); [rewrite decide_True | rewrite decide_False].
Qed.

(** The buffer of a column has the size of the column. *)
Definition exact (rm : raidz_map) : Prop :=
  forall c k, 0 <= c < rm_cols rm -> rm_col rm !! Z.to_nat c = Some k -> Z.of_nat (length (rc_data k)) = rc_size k.

Lemma shape_exact rm rm' : same_shape rm rm' -> exact rm -> exact rm'.
Proof.
  intros Hs He c k Hc Hk. destruct (shape_inv _ _ _ _ Hs Hk) as (k0 & E0 & Es & El & _). destruct Hs as (l & -> & _).
  rewrite El, Es. by apply (He c).
Qed.

(** ** The data of the I/O *)
Definition data_before (rm : raidz_map) (c : Z) : list Z :=
  concat (map rc_data (take (Z.to_nat (c - rm_firstdatacol rm)) (drop (Z.to_nat (rm_firstdatacol rm)) (rm_col rm)))).

Lemma data_before_S rm c k : 0 <= rm_firstdatacol rm <= c -> rm_col rm !! Z.to_nat c = Some k ->
  data_before rm (c + 1) = data_before rm c ++ rc_data k.
Proof.
  intros Hc Hk. unfold data_before. replace (Z.to_nat (c + 1 - rm_firstdatacol rm)) with (S (Z.to_nat (c - rm_firstdatacol rm))) by lia.
  rewrite (take_S_r _ _ k); [| rewrite lookup_drop; rewrite <- Hk; f_equal; lia].
  by rewrite map_app, concat_app; simpl; rewrite app_nil_r.
Qed.

Lemma data_split rm c k : 0 <= rm_firstdatacol rm <= c -> c < rm_cols rm -> rm_col rm !! Z.to_nat c = Some k ->
  exists r, io_buffer rm = data_before rm c ++ rc_data k ++ r.
Proof.
  intros Hf Hc Hk. unfold io_buffer, data_before. set (l := drop _ (rm_col rm)).
  assert (Hl : l !! Z.to_nat (c - rm_firstdatacol rm) = Some k) by (unfold l; rewrite lookup_drop, <- Hk; f_equal; lia).
  exists (concat (map rc_data (drop (S (Z.to_nat (c - rm_firstdatacol rm))) (take (Z.to_nat (rm_cols rm - rm_firstdatacol rm)) l)))).
  rewrite <- (take_drop (Z.to_nat (c - rm_firstdatacol rm)) (take (Z.to_nat (rm_cols rm - rm_firstdatacol rm)) l)) at 1.
  rewrite map_app, concat_app. f_equal.
  - by rewrite take_take, Nat.min_l by lia.
  - rewrite (drop_S _ k); [done |]. by rewrite lookup_take_lt by lia.
Qed.

Lemma upd_col_same rm c k : 0 <= c -> rm_col rm !! Z.to_nat c = Some k -> upd_col rm c (fun k' => with_data k' (rc_data k)) = Ok rm.
Proof.
  intros Hc Hk. rewrite (upd_col_Some rm c k) by done. f_equal. rewrite with_data_id, list_insert_id by done. apply set_cols_id.
Qed.

(** Putting back what is there changes nothing. *)
Lemma slice_data_same rm pcnt : rz_ok rm pcnt -> exact rm -> slice_data (io_buffer rm) rm = Ok rm.
Proof.
  intros Hok He. pose proof (ok_np _ _ Hok). pose proof (ok_cols _ _ Hok).
  assert (Hr : runs (slice_data (io_buffer rm) rm) (fun rm' => rm' = rm)).
  { unfold slice_data. rewrite Z.max_r by lia.
    eapply runs_bind; [eapply (for_range_inv _ _ _ _ (fun c '(rm', off) => rm' = rm /\ off = Z.of_nat (length (data_before rm c)))) |].
    - lia.
    - split; [done |]. unfold data_before. by rewrite Z.sub_diag.
    - intros c (rm', off) Hc (-> & ->). destruct (ok_col _ _ c Hok) as (k & Hk); [lia |].
      rewrite (get_col_Some _ _ k), bind_Ok by (done || lia). destruct (data_split rm c k ltac:(lia) ltac:(lia) Hk) as (r & E).
      rewrite (upd_col_Some rm c k) by (done || lia). rewrite bind_Ok, Nat2Z.id, E, drop_app_length.
      replace (Z.to_nat (rc_size k)) with (length (rc_data k)) by (pose proof (He c k ltac:(lia) Hk); lia).
      rewrite take_app_length, with_data_id, list_insert_id, set_cols_id by done. cbn [runs]. split; [done |].
      rewrite (data_before_S rm c k), length_app by (done || lia). pose proof (He c k ltac:(lia) Hk). lia.
    - intros (rm', off) (-> & _). done. }
  apply runs_Ok in Hr as (rm' & E & ->). done.
Qed.

Lemma shape_buffer rm rm' pcnt : rz_ok rm pcnt -> same_shape rm rm' -> length (io_buffer rm') = length (io_buffer rm).
Proof.
  intros Hok (l & -> & Hl & Hc). unfold io_buffer. cbn [rm_cols rm_firstdatacol rm_col set_cols]. rewrite !length_concat.
  f_equal. rewrite <- !list_fmap_compose. apply list_eq. intros i. rewrite !list_lookup_fmap.
  destruct (decide (i < Z.to_nat (rm_cols rm - rm_firstdatacol rm))%nat) as [Hi | Hi]; [| by rewrite !lookup_take_ge by lia].
  rewrite !lookup_take_lt, !lookup_drop by done. destruct (rm_col rm !! (Z.to_nat (rm_firstdatacol rm) + i)%nat) as [k |] eqn:Ek.
  - destruct (Hc _ _ Ek) as (k' & -> & _ & E & _). simpl. by rewrite E.
  - apply lookup_ge_None in Ek. by rewrite lookup_ge_None_2 by lia.
Qed.

Lemma buffer_bytes rm pcnt : rz_ok rm pcnt -> Forall is_byte (io_buffer rm).
Proof.
  intros Hok. pose proof Hok as []. unfold io_buffer. apply Forall_concat, Forall_forall. intros d Hd. apply list_elem_of_fmap in Hd as (k & -> & Hk).
  apply list_elem_of_lookup_1 in Hk as (i & Hi). apply lookup_take_Some in Hi as (Hi & Hlt). rewrite lookup_drop in Hi.
  apply (ok_data (rm_firstdatacol rm + Z.of_nat i) k); [lia |]. rewrite <- Hi. f_equal. lia.
Qed.

(** ** Verdicts *)
(** The result of the checksum on some data. *)
Definition verdict (h : endian) (env : cksum_env) (zio : zio_t) (data : list Z) : Z :=
  match zio_checksum_error h env (with_block (io_bp zio) data zio) with Ok r => cr_error r | Panic => EINVAL end.

Lemma compare_errs env e zio data a x b : cr_error (compare_cksums (set_errs env e) zio data a x b) = cr_error (compare_cksums env zio data a x b).
Proof. unfold compare_cksums. cbn [zio_injection_enabled inject_handlers spa_random set_errs]. by repeat case_match. Qed.

(** The counter of errors has no effect. *)
Lemma verdict_errs h env e zio data : verdict h (set_errs env e) zio data = verdict h env zio data.
Proof.
  unfold verdict, zio_checksum_error. set (z := with_block _ _ _).
  destruct (ci_of _) as [ci |]; [| done]. destruct (ci_func ci) as [f |]; [| done]. destruct (ci_eck ci).
  - destruct (find_eck _ _ _ _) as [[(size, eck) |] |]; [| done | done]. rewrite !bind_Ok.
    repeat (match goal with |- context [x ← ?m ; _] => destruct m end; [rewrite !bind_Ok | done]).
    apply compare_errs.
  - repeat (match goal with |- context [x ← ?m ; _] => destruct m end; [rewrite !bind_Ok | done]). apply compare_errs.
Qed.

(** Two states that differ in what reports say and in the counter only. *)
Definition same_io (io io' : raidz_io) : Prop :=
  io_zio io' = io_zio io /\ io_rm io' = io_rm io /\ raidz_corrected io' = raidz_corrected io /\ io_ereports io' = io_ereports io /\
  io_verified io' = io_verified io /\ exists e, io_env io' = set_errs (io_env io) e.

Lemma readable_data zio data : readable zio -> Forall is_byte data -> length data = length (io_data zio) -> readable (with_block (io_bp zio) data zio).
Proof.
  intros (_ & Hl & H16 & Hm & Ho & He & Hz & Hbp) Hb Hd. unfold readable, read_checksum, read_size in *.
  cbn [io_bp io_data io_size io_offset zp_checksum with_block] in *. split_and!; try done. lia.
Qed.

Section verify.
Context (cx : raidz_ctx) (io : raidz_io) (pcnt : Z) (Hok : rz_ok (io_rm io) pcnt) (He : exact (io_rm io)).
Context (Hread : readable (io_zio io)) (Hsize : length (io_data (io_zio io)) = length (io_buffer (io_rm io))).

Lemma checksum_verify_spec : runs (raidz_checksum_verify cx io) (fun '(io', ret) =>
  same_io io io' /\ ret = verdict (rx_host cx) (io_env io) (io_zio io) (io_buffer (io_rm io))).
Proof.
  unfold raidz_checksum_verify, verdict.
  pose proof (readable_data _ _ Hread (buffer_bytes _ _ Hok) (eq_sym Hsize)) as Hr.
  destruct (checksum_error_total (rx_host cx) (io_env io) _ Hr) as (res & -> & Ed & _). rewrite bind_Ok, Ed. cbn [io_data with_block].
  rewrite (slice_data_same _ _ Hok He), bind_Ok. cbn [runs]. split; [| done]. split_and!; try done. by eexists.
Qed.
End verify.

(** ** Regenerated parity *)
(** Two states that differ in the map and the reports only. *)
Definition same_but_map (io io' : raidz_io) : Prop :=
  io_zio io' = io_zio io /\ io_env io' = io_env io /\ raidz_corrected io' = raidz_corrected io /\ io_verified io' = io_verified io /\
  rm_ecksuminjected io' = rm_ecksuminjected io.

Lemma bcopy_full src dst n : Z.of_nat (length src) = n -> Z.of_nat (length dst) = n -> bcopy src dst n = Ok src.
Proof.
  intros Hs Hd. unfold bcopy. rewrite VERIFY_pass by lia. rewrite take_ge, drop_ge by lia. by rewrite app_nil_r.
Qed.

Lemma bcmp_full a b n : Z.of_nat (length a) = n -> Z.of_nat (length b) = n -> bcmp a b n = negb (bool_decide (a = b)).
Proof. intros Ha Hb. unfold bcmp. by rewrite !take_ge by lia. Qed.

Lemma checksum_error_fields io k bad : same_but_map io (raidz_checksum_error io k bad) /\ io_rm (raidz_checksum_error io k bad) = io_rm io.
Proof. unfold raidz_checksum_error. destruct (io_speculative (io_zio io)); by split_and!. Qed.

Definition col_read (rm : raidz_map) (c : Z) : bool := match rm_col rm !! Z.to_nat c with Some k => negb (not_read k) | None => false end.
Definition col_bytes (rm : raidz_map) (c : Z) : list Z := match rm_col rm !! Z.to_nat c with Some k => rc_data k | None => [] end.
(** A column that was read, with other bytes than those of [rm']. *)
Definition differs (rm rm' : raidz_map) (c : Z) : bool := col_read rm c && negb (bool_decide (col_bytes rm c = col_bytes rm' c)).

(** The map [rm1] with the read parity columns among the first [c] in error
    that were different in [rm]. *)
Definition marked (rm rm1 : raidz_map) (c : Z) (rm' : raidz_map) : Prop :=
  exists l, rm' = set_cols rm1 l /\ forall i, l !! i = (fun k => if (Z.of_nat i <? c) && differs rm rm1 (Z.of_nat i) then with_error k ECKSUM else k) <$> (rm_col rm1 !! i).

Section parity.
Context (cx : raidz_ctx) (pcnt : Z) (Halloc : forall m, 0 <= m -> Z.of_nat (length (rx_alloc cx m)) = m /\ Forall is_byte (rx_alloc cx m)).

Lemma orig_loop rm : rz_ok rm pcnt -> exact rm ->
  runs (for_range 0 (rm_firstdatacol rm) (fun c orig =>
    rc ← get_col rm c ;
    if not_read rc then Ok (orig ++ [None])
    else b ← bcopy (rc_data rc) (rx_alloc cx (rc_size rc)) (rc_size rc) ; Ok (orig ++ [Some b])) [])
  (fun orig => forall c, 0 <= c < rm_firstdatacol rm -> orig !! Z.to_nat c = Some (if col_read rm c then Some (col_bytes rm c) else None)).
Proof.
  intros Hok He. pose proof (ok_np _ _ Hok). pose proof (ok_cols _ _ Hok).
  eapply runs_impl; [apply (for_range_inv _ _ _ _ (fun i orig => Z.of_nat (length orig) = i /\
    forall c, 0 <= c < i -> orig !! Z.to_nat c = Some (if col_read rm c then Some (col_bytes rm c) else None))) |].
  - lia.
  - split; [done | intros; lia].
  - intros i orig Hi (Hl & Ho). destruct (ok_col _ _ i Hok) as (k & Hk); [lia |]. rewrite (get_col_Some _ _ k), bind_Ok by (done || lia).
    assert (Hnext : forall x, x = (if col_read rm i then Some (col_bytes rm i) else None) ->
      Z.of_nat (length (orig ++ [x])) = i + 1 /\ forall c, 0 <= c < i + 1 -> (orig ++ [x]) !! Z.to_nat c = Some (if col_read rm c then Some (col_bytes rm c) else None)).
    { intros x ->. split; [rewrite length_app; simpl; lia |]. intros c Hc. destruct (Z.eq_dec c i) as [-> | ?].
      - rewrite lookup_app_r by lia. by replace (Z.to_nat i - length orig)%nat with 0%nat by lia.
      - rewrite lookup_app_l by lia. apply Ho. lia. }
    unfold col_read, col_bytes in Hnext. rewrite Hk in Hnext. destruct (not_read k); cbn [negb] in Hnext; [by apply Hnext |].
    destruct (ok_par _ _ Hok i k) as (Hs & Hd & _); [lia | done |]. destruct (Halloc (rc_size k)) as (Ha & _); [lia |].
    rewrite bcopy_full, bind_Ok by lia. by apply Hnext.
  - intros orig (_ & Ho). done.
Qed.

Lemma differs_step rm rm1 c rm' k : 0 <= c -> marked rm rm1 c rm' -> rm_col rm1 !! Z.to_nat c = Some k ->
  get_col rm' c = Ok k /\
  (differs rm rm1 c = false -> marked rm rm1 (c + 1) rm') /\
  (differs rm rm1 c = true -> runs (upd_col rm' c (fun k => with_error k ECKSUM)) (marked rm rm1 (c + 1))).
Proof.
  intros Hc (l & -> & Hl) Hk. assert (Ek : l !! Z.to_nat c = Some k). { rewrite Hl, Hk. simpl. by rewrite (proj2 (Z.ltb_ge _ c)) by lia. }
  assert (Hstep : forall i, i <> Z.to_nat c -> (Z.of_nat i <? c + 1) = (Z.of_nat i <? c)) by (intros i Hi; lia).
  split; [by apply get_col_Some |]. split.
  - intros Hd. exists l. split; [done |]. intros i. rewrite Hl. destruct (decide (i = Z.to_nat c)) as [-> | Hne]; [| by rewrite Hstep].
    rewrite Z2Nat.id, Hd by done. by rewrite !andb_false_r.
  - intros Hd. rewrite (upd_col_Some _ c k) by done. cbn [runs]. eexists. split; [done |]. intros i. cbn [rm_col set_cols].
    destruct (decide (i = Z.to_nat c)) as [-> | Hne].
    + rewrite list_lookup_insert_eq by (by eapply lookup_lt_Some). rewrite Hk. simpl. rewrite Z2Nat.id, Hd by done.
      by rewrite (proj2 (Z.ltb_lt _ _)) by lia.
    + rewrite list_lookup_insert_ne by done. by rewrite Hl, Hstep.
Qed.

(** Columns with their flags, other bytes in the parity columns. *)
Definition regenerated (rm rm1 : raidz_map) : Prop :=
  exists l, rm1 = set_cols rm l /\ forall c k, rm_col rm !! c = Some k ->
    exists d, l !! c = Some (with_data k d) /\ (rm_firstdatacol rm <= Z.of_nat c -> d = rc_data k).

Lemma generate_columns rm : stripe rm pcnt ->
  runs (vdev_raidz_generate_parity rm) (fun rm1 => stripe rm1 pcnt /\ same_shape rm rm1 /\ parity_right rm1 pcnt /\ regenerated rm rm1).
Proof.
  intros Hst. pose proof (generate_right rm pcnt Hst) as H1. eapply runs_impl; [apply (runs_and _ _ _ H1 (generate_spec rm pcnt Hst)) |].
  intros rm1 ((Hst1 & Hs & Hp & _) & ds & -> & Hl & _). split_and!; [done | done | done |].
  pose proof (ok_len _ _ (st_ok _ _ Hst)). pose proof (ok_cols _ _ (st_ok _ _ Hst)).
  exists (rm_col (set_parity rm ds)). split; [done |]. intros c k Hk. rewrite (set_parity_lookup rm ds c k) by (done || lia).
  destruct (ds !! c) as [d |] eqn:Ed.
  - exists d. split; [done |]. intros Hc. apply lookup_lt_Some in Ed. lia.
  - exists (rc_data k). by rewrite with_data_id.
Qed.

(** One column of the comparison. *)
Definition compared (io : raidz_io) (rm1 : raidz_map) (c : Z) (st : raidz_io * Z) : Prop :=
  let '(io', ret) := st in same_but_map io io' /\ marked (io_rm io) rm1 c (io_rm io') /\
    ret = Z.of_nat (length (bads (differs (io_rm io) rm1) 0 c)).

Lemma compare_step io rm1 (orig : list (option (list Z))) c io' ret : stripe (io_rm io) pcnt -> exact (io_rm io) -> stripe rm1 pcnt -> same_shape (io_rm io) rm1 ->
  regenerated (io_rm io) rm1 -> 0 <= c < rm_firstdatacol (io_rm io) ->
  orig !! Z.to_nat c = Some (if col_read (io_rm io) c then Some (col_bytes (io_rm io) c) else None) -> compared io rm1 c (io', ret) ->
  runs (rc ← get_col (io_rm io') c ;
    if not_read rc then Ok (io', ret)
    else
      o ← deref (orig !! Z.to_nat c) ; o ← deref o ;
      if bcmp o (rc_data rc) (rc_size rc) then
        let io' := raidz_checksum_error io' rc o in
        rm ← upd_col (io_rm io') c (fun k => with_error k ECKSUM) ;
        Ok (set_rm io' rm, ret + 1)
      else Ok (io', ret)) (compared io rm1 (c + 1)).
Proof.
  intros Hst He Hst1 Hs Hreg Hc Ho (Hsame & Hm & ->). pose proof (st_ok _ _ Hst) as Hok. pose proof (ok_cols _ _ Hok).
  assert (Ec : rm_cols rm1 = rm_cols (io_rm io)) by (by destruct Hs as (l & -> & _)).
  destruct (ok_col _ _ c (st_ok _ _ Hst1)) as (k & Hk); [lia |]. destruct (ok_col _ _ c Hok) as (k0 & Hk0); [lia |].
  assert (Eread : not_read k = negb (col_read (io_rm io) c)).
  { destruct Hreg as (l & -> & Hl). cbn [rm_col set_cols] in Hk. destruct (Hl _ _ Hk0) as (d & Hd & _). rewrite Hk in Hd. injection Hd as ->.
    unfold col_read. rewrite Hk0. by rewrite negb_involutive. }
  destruct (differs_step _ _ _ _ _ (proj1 Hc) Hm Hk) as (-> & Hno & Hyes). rewrite bind_Ok, Eread. unfold compared.
  rewrite bads_snoc, length_app by lia. rewrite Z.add_0_l. destruct (col_read (io_rm io) c) eqn:Er; cbn [negb].
  2:{ unfold differs in *. rewrite Er in *. cbn [andb runs] in *. split; [done |]. split; [by apply Hno | simpl; lia]. }
  rewrite Ho. cbn [deref]. rewrite bind_Ok. cbn [deref]. rewrite bind_Ok. pose proof (He c k0 ltac:(lia) Hk0) as L0.
  pose proof (shape_exact _ _ Hs He c k ltac:(lia) Hk) as L1.
  destruct (shape_inv _ _ _ _ Hs Hk) as (k0' & Ek0' & Es & _). assert (k0' = k0) as -> by congruence.
  assert (Ed : bcmp (col_bytes (io_rm io) c) (rc_data k) (rc_size k) = differs (io_rm io) rm1 c).
  { unfold differs, col_bytes. rewrite Er, Hk, Hk0. rewrite bcmp_full by lia. done. }
  rewrite Ed. destruct (differs (io_rm io) rm1 c) eqn:Edf; cbn [length].
  - cbv zeta. destruct (checksum_error_fields io' k (col_bytes (io_rm io) c)) as (Hf & Erm). rewrite Erm.
    eapply runs_bind; [by apply Hyes |]. intros rm' Hm'. cbn [runs]. split; [| split; [done | lia]].
    destruct Hsame as (S1 & S2 & S3 & S4 & S5), Hf as (F1 & F2 & F3 & F4 & F5). unfold same_but_map.
    cbn [io_zio io_env raidz_corrected io_verified rm_ecksuminjected set_rm]. split_and!; congruence.
  - cbn [runs]. split; [done |]. split; [by apply Hno | lia].
Qed.

Lemma parity_verify_spec io : stripe (io_rm io) pcnt -> exact (io_rm io) ->
  runs (raidz_parity_verify cx io) (fun '(io', ret) => same_but_map io io' /\ exists rm1,
    stripe rm1 pcnt /\ same_shape (io_rm io) rm1 /\ parity_right rm1 pcnt /\ regenerated (io_rm io) rm1 /\
    marked (io_rm io) rm1 (rm_firstdatacol rm1) (io_rm io') /\
    ret = Z.of_nat (length (bads (differs (io_rm io) rm1) 0 (rm_firstdatacol rm1)))).
Proof.
  intros Hst He. pose proof (st_ok _ _ Hst) as Hok. pose proof (ok_np _ _ Hok). pose proof (ok_cols _ _ Hok).
  unfold raidz_parity_verify. eapply runs_bind; [by apply orig_loop |]. intros orig Ho.
  eapply runs_bind; [by apply generate_columns |]. intros rm1 (Hst1 & Hs & Hp & Hreg).
  eapply runs_impl; [apply (for_range_inv _ _ _ _ (compared io rm1)) |].
  - lia.
  - split; [by split_and! |]. split; [| done]. exists (rm_col rm1). split; [by rewrite set_cols_id |]. intros i.
    rewrite (proj2 (Z.ltb_ge _ 0)) by lia. by destruct (rm_col rm1 !! i).
  - intros c (io', ret) Hc HI. apply compare_step; try done. by apply Ho.
  - intros (io', ret) (Hsame & Hm & ->). split; [done |]. exists rm1.
    assert (rm_firstdatacol rm1 = rm_firstdatacol (io_rm io)) as -> by (by destruct Hs as (l & -> & _)). split_and!; done.
Qed.
End parity.
