(* ===== verification/RaidzCombSpec.v ===== *)
(** * Combinatorial reconstruction

    The order in which targets are tried, and what the attempts do. *)
From stdpp Require Import sorting.
From S2P Require Import Prelude Bytes Words Fletcher Blkptr ZioChecksum Gf256 Raidz RaidzSpec RaidzInv RaidzChoice RaidzIo.
From S2P Require Import RaidzComb FletcherSpec ZioChecksumSpec RaidzRec RaidzMap RaidzStripe RaidzSolve RaidzIoSpec.
Local Open Scope Z_scope.

(** * The order in which targets are tried

    The choices of [n] columns without error are tried in the order of their
    values as numbers, the first target being the lowest digit: [init_targets]
    gives the first choice, [advance] the next one, and none is left out. *)
(** ** Rising lists *)
Lemma rising_app l l' : rising (l ++ l') <-> rising l /\ rising l' /\ forall x y, x ∈ l -> y ∈ l' -> x < y.
Proof.
  induction l as [| a l IH]; simpl.
  - split; [intros H; split_and!; [constructor | done | intros x y Hx; by apply not_elem_of_nil in Hx] | tauto].
  - split.
    + intros H. apply StronglySorted_inv in H as (H & Ha). apply IH in H as (H1 & H2 & H3). rewrite Forall_app in Ha.
      destruct Ha as (Ha1 & Ha2). rewrite Forall_forall in Ha2. split_and!; [by constructor | done |].
      intros x y Hx Hy. apply elem_of_cons in Hx as [-> | Hx]; [by apply Ha2 | by apply H3].
    + intros (H1 & H2 & H3). apply StronglySorted_inv in H1 as (H1 & Ha). constructor.
      * apply IH. split_and!; [done | done |]. intros x y Hx Hy. apply H3; [by right | done].
      * apply Forall_app. split; [done |]. apply Forall_forall. intros y Hy. apply H3; [left | done].
Qed.

Lemma rising_snoc l x : rising l -> (forall y, y ∈ l -> y < x) -> rising (l ++ [x]).
Proof.
  intros Hl Hx. apply rising_app. split; [done |]. split; [repeat constructor |].
  intros a b Ha Hb. apply list_elem_of_singleton in Hb as ->. by apply Hx.
Qed.

Lemma rising_ascending t : rising t -> ascending t = true.
Proof.
  induction t as [| x [| y l] IH]; intros H; [done | done |]. apply StronglySorted_inv in H as (H & Hx). cbn [ascending].
  apply Forall_cons in Hx as (Hx & _). apply andb_true_iff. split; [by apply Z.ltb_lt | by apply IH].
Qed.

(** The last target so far, or the sentinel. *)
Definition top (l : list Z) : Z := List.last l (-1).

Lemma top_snoc l x : top (l ++ [x]) = x.
Proof. apply last_last. Qed.

Lemma top_max l y : rising l -> y ∈ l -> y <= top l.
Proof.
  induction l as [| x l IH] using rev_ind; intros Hl Hy; [by apply not_elem_of_nil in Hy |]. rewrite top_snoc.
  apply rising_app in Hl as (Hl & _ & Hx). apply elem_of_app in Hy as [Hy | Hy]; [| apply list_elem_of_singleton in Hy; lia].
  specialize (Hx y x Hy ltac:(by left)). lia.
Qed.

Lemma top_elem l : l <> [] -> top l ∈ l.
Proof.
  destruct l as [| x l _] using rev_ind; [done |]. intros _. rewrite top_snoc. apply elem_of_app. right. by left.
Qed.

Lemma drop_next (l : list Z) m y u : drop m l = y :: u -> drop (S m) l = u.
Proof.
  intros E. assert (Hy : l !! m = Some y) by (rewrite <- (Nat.add_0_r m), <- lookup_drop, E; done). apply drop_S in Hy. congruence.
Qed.

(** ** The array of targets *)
Lemma tgt_at l x r i : i = Z.of_nat (length l) -> tgt (-1 :: l ++ x :: r) i = Ok x.
Proof.
  intros ->. unfold tgt. apply at_Ok; [| lia]. replace (Z.to_nat _) with (S (length l)) by lia. simpl. by apply list_lookup_middle.
Qed.

Lemma tgt_top l r i : i = Z.of_nat (length l) -> tgt (-1 :: l ++ r) (i - 1) = Ok (top l).
Proof.
  intros ->. destruct l as [| x l _] using rev_ind; [done |]. rewrite length_app, top_snoc, <- app_assoc. apply tgt_at. simpl. lia.
Qed.

Lemma set_tgt_at l x r v i : i = Z.of_nat (length l) -> set_tgt (-1 :: l ++ x :: r) i v = Ok (-1 :: l ++ v :: r).
Proof.
  intros ->. unfold set_tgt. rewrite VERIFY_pass by (cbn [length]; rewrite length_app; simpl; lia).
  replace (Z.to_nat _) with (S (length l)) by lia. simpl. by rewrite insert_app_r_alt, Nat.sub_diag by lia.
Qed.

Lemma targets_arr t r n : n = Z.of_nat (length t) -> targets (-1 :: t ++ r) n = t.
Proof. intros ->. unfold targets. rewrite Nat2Z.id. simpl. by rewrite drop_0, take_app_length. Qed.

(** ** Values *)
Section value.
Context (B : Z) (HB : 0 < B).

Fixpoint val (t : list Z) : Z := match t with [] => 0 | x :: t => x + B * val t end.
Definition digits (t : list Z) : Prop := Forall (fun x => 0 <= x < B) t.

Lemma val_range t : digits t -> 0 <= val t < B ^ Z.of_nat (length t).
Proof.
  induction 1 as [| x t Hx Ht IH]; cbn [val length]; [simpl; lia |]. rewrite Nat2Z.inj_succ, Z.pow_succ_r by lia. nia.
Qed.

Lemma val_app t u : val (t ++ u) = val t + B ^ Z.of_nat (length t) * val u.
Proof.
  induction t as [| x t IH]; cbn [val length app]; [simpl; lia |]. rewrite IH, Nat2Z.inj_succ, Z.pow_succ_r by lia. lia.
Qed.

Lemma digit_lt x y a b : 0 <= x < B -> 0 <= y < B -> x + B * a < y + B * b -> a < b \/ a = b /\ x < y.
Proof. intros Hx Hy H. destruct (Z.lt_trichotomy a b) as [? | [-> | ?]]; [by left | right; lia | nia]. Qed.

Lemma digit_lt_2 x y a b : 0 <= x < B -> 0 <= y < B -> a < b -> x + B * a < y + B * b.
Proof. nia. Qed.

Lemma val_inj t u : digits t -> digits u -> length t = length u -> val t = val u -> t = u.
Proof.
  intros Ht. revert u. induction Ht as [| x t Hx Ht IH]; intros [| y u] Hu Hl E; try done.
  apply Forall_cons in Hu as (Hy & Hu). simpl in E. assert (val t = val u) by nia. f_equal; [nia | apply IH; auto].
Qed.

Lemma val_le t u : Forall2 Z.le t u -> val t <= val u.
Proof. induction 1; simpl; nia. Qed.

(** The higher digits decide. *)
Lemma val_high l l' t u : digits l -> digits l' -> length l = length l' -> val t < val u -> val (l ++ t) <= val (l' ++ u).
Proof.
  intros Hl Hl' E H. rewrite !val_app, E. apply val_range in Hl, Hl'. rewrite E in Hl. nia.
Qed.

Lemma top_le t u : digits t -> digits u -> length t = length u -> t <> [] -> val t <= val u -> top t <= top u.
Proof.
  destruct t as [| x t _] using rev_ind; [done |]. intros Ht Hu Hl _ H.
  destruct u as [| y u _] using rev_ind; [rewrite length_app in Hl; simpl in Hl; lia |].
  rewrite !length_app in Hl. simpl in Hl. rewrite !top_snoc. rewrite !val_app in H. simpl in H.
  apply Forall_app in Ht as (Ht & _), Hu as (Hu & _). apply val_range in Ht, Hu.
  assert (E : length t = length u) by lia. rewrite E in *. nia.
Qed.
End value.

(** ** Columns without error *)
Section enum.
Context (rm : raidz_map) (Hlen : rm_cols rm <= Z.of_nat (length (rm_col rm))) (Hcols : 0 < rm_cols rm).
Notation cols := (rm_cols rm).
Notation value := (val (rm_cols rm + 1)).

Definition usable (c : Z) : Prop := 0 <= c < cols /\ col_error rm c = 0.
(** A choice of targets. *)
Definition choice (t : list Z) : Prop := rising t /\ Forall usable t.
(** [x] is the first column without error from [c] on, or the number of columns. *)
Definition nxt (c x : Z) : Prop := c <= x <= cols /\ (x < cols -> col_error rm x = 0) /\ forall y, c <= y < x -> col_error rm y <> 0.

Lemma col_err c : 0 <= c < cols -> exists k, get_col rm c = Ok k /\ rc_error k = col_error rm c.
Proof.
  intros Hc. destruct (lookup_lt_is_Some_2 (rm_col rm) (Z.to_nat c)) as (k & Hk); [lia |]. exists k.
  split; [apply get_col_Some; [lia | done] |]. unfold col_error. by rewrite Hk.
Qed.

Lemma nxt_here c : 0 <= c < cols -> col_error rm c = 0 -> nxt c c.
Proof. intros Hc E. split_and!; [lia | lia | done | intros; lia]. Qed.
Lemma nxt_later c x : 0 <= c < cols -> col_error rm c <> 0 -> nxt (c + 1) x -> nxt c x.
Proof.
  intros Hc E (Hx & Hu & Hm). split_and!; [lia | lia | done |]. intros y Hy. destruct (Z.eq_dec y c) as [-> | ?]; [done | apply Hm; lia].
Qed.
Lemma nxt_le c x y : nxt c x -> c <= y -> usable y -> x <= y.
Proof. intros (_ & _ & Hm) Hc (Hy & E). destruct (Z.le_gt_cases x y); [done |]. destruct (Hm y); [lia | done]. Qed.

Lemma next_valid_spec fuel c : 0 <= c <= cols -> cols - c < Z.of_nat fuel -> runs (next_valid fuel rm c) (nxt c).
Proof.
  revert c. induction fuel as [| f IH]; intros c Hc Hf; [lia |]. cbn [next_valid]. destruct (Z.ltb_spec c cols) as [Hlt | Hge].
  - destruct (col_err c) as (k & -> & E); [lia |]. rewrite bind_Ok, E. destruct (Z.eqb_spec (col_error rm c) 0) as [E0 | E0]; cbn [negb].
    + apply nxt_here; [lia | done].
    + eapply runs_impl; [apply IH; lia |]. intros x. apply nxt_later; [lia | done].
  - split_and!; [lia | lia | lia | intros; lia].
Qed.

Lemma first_valid_spec fuel c y : usable y -> 0 <= c <= y -> y - c < Z.of_nat fuel -> runs (first_valid fuel rm c) (nxt c).
Proof.
  revert c. induction fuel as [| f IH]; intros c Hy Hc Hf; [lia |]. cbn [first_valid]. destruct Hy as (Hy & Ey).
  destruct (col_err c) as (k & -> & E); [lia |]. rewrite bind_Ok, E. destruct (Z.eqb_spec (col_error rm c) 0) as [E0 | E0]; cbn [negb].
  - apply nxt_here; [lia | done].
  - assert (c <> y) by congruence. eapply runs_impl; [apply IH; [done | lia | lia] |]. intros x. apply nxt_later; [lia | done].
Qed.

Lemma skip_errors_spec fuel c y : usable y -> 0 <= c <= y -> y - c < Z.of_nat fuel -> runs (skip_errors fuel rm c) (nxt c).
Proof.
  revert c. induction fuel as [| f IH]; intros c Hy Hc Hf; [lia |]. cbn [skip_errors]. destruct Hy as (Hy & Ey).
  destruct (col_err c) as (k & -> & E); [lia |]. rewrite bind_Ok, E. destruct (Z.eqb_spec (col_error rm c) 0) as [E0 | E0]; cbn [negb].
  - apply nxt_here; [lia | done].
  - assert (c <> y) by congruence. rewrite VERIFY_pass by (apply Z.ltb_lt; lia).
    eapply runs_impl; [apply IH; [done | lia | lia] |]. intros x. apply nxt_later; [lia | done].
Qed.

(** ** Choices *)
Lemma choice_app t u : choice (t ++ u) <-> choice t /\ choice u /\ forall x y, x ∈ t -> y ∈ u -> x < y.
Proof. unfold choice. rewrite rising_app, Forall_app. tauto. Qed.

Lemma choice_usable t x : choice t -> x ∈ t -> usable x.
Proof. intros (_ & H) Hx. rewrite Forall_forall in H. by apply H. Qed.

Lemma choice_digits t : choice t -> digits (cols + 1) t.
Proof. intros (_ & H). eapply Forall_impl; [exact H |]. intros x (Hx & _). simpl. lia. Qed.

Lemma choice_top t : choice t -> -1 <= top t < cols.
Proof.
  intros Ht. destruct (decide (t = [])) as [-> | Hne]; [unfold top; simpl; lia |].
  pose proof (choice_usable t _ Ht (top_elem t Hne)) as (H & _). lia.
Qed.

Lemma choice_snoc t x : choice t -> usable x -> top t < x -> choice (t ++ [x]).
Proof.
  intros Ht Hx Htop. apply choice_app. split; [done |]. split; [split; [repeat constructor | by constructor] |].
  intros a b Ha Hb. apply list_elem_of_singleton in Hb as ->. destruct Ht as (Hr & _). pose proof (top_max t a Hr Ha). lia.
Qed.

(** No choice of as many columns has a lower one anywhere. *)
Definition lowest (l : list Z) : Prop := choice l /\ forall a, choice a -> length a = length l -> Forall2 Z.le l a.

Lemma lowest_nil : lowest [].
Proof. split; [split; constructor |]. intros [| x a] _ Hl; [constructor | done]. Qed.

Lemma Forall2_top l a : Forall2 Z.le l a -> top l <= top a.
Proof.
  destruct l as [| x l _] using rev_ind; intros H.
  - apply Forall2_nil_inv_l in H as ->. done.
  - apply Forall2_app_inv_l in H as (a1 & a2 & _ & H & ->). apply Forall2_cons_inv_l in H as (y & a3 & Hxy & H & ->).
    apply Forall2_nil_inv_l in H as ->. by rewrite !top_snoc.
Qed.

(** A choice that ends as low as it can from [b] on. *)
Lemma lowest_snoc_from l b x : lowest l -> top l < b -> nxt b x -> x < cols ->
  choice (l ++ [x]) /\ forall a, choice a -> length a = S (length l) -> b <= top a -> Forall2 Z.le (l ++ [x]) a.
Proof.
  intros (Hc & Hl) Hb Hx Hlt. pose proof Hx as (Hbx & Hu & _). pose proof (choice_top l Hc). split.
  - apply choice_snoc; [done | split; [lia | by apply Hu] | lia].
  - intros a Ha Hla Hba. destruct a as [| y a _] using rev_ind; [done |]. rewrite length_app in Hla. simpl in Hla.
    apply choice_app in Ha as (Ha & Hy & _). apply Forall2_app; [apply Hl; [done | lia] |]. constructor; [| constructor].
    rewrite top_snoc in Hba. apply (nxt_le b); [done | done |]. apply (choice_usable [y]); [done | by left].
Qed.

Lemma lowest_snoc l x : lowest l -> nxt (top l + 1) x -> x < cols -> lowest (l ++ [x]).
Proof.
  intros Hl Hx Hlt. destruct (lowest_snoc_from l (top l + 1) x Hl ltac:(lia) Hx Hlt) as (Hc & Hm). split; [done |].
  intros a Ha Hla. rewrite length_app in Hla. simpl in Hla. apply Hm; [done | lia |].
  destruct a as [| y a _] using rev_ind; [simpl in Hla; lia |]. rewrite length_app in Hla. simpl in Hla. rewrite top_snoc.
  apply choice_app in Ha as (Ha & Hcy & Hlt'). destruct Hl as (_ & Hl). specialize (Hl a Ha ltac:(lia)). apply Forall2_top in Hl.
  destruct (decide (a = [])) as [-> | Hne]; [| specialize (Hlt' (top a) y (top_elem a Hne) ltac:(by left)); lia].
  destruct (choice_usable _ y Hcy ltac:(by left)) as (Hy & _). unfold top in Hl at 2. simpl in Hl. lia.
Qed.

(** ** The next choice *)
(** How [advance] may end on the choice [l ++ t] when the targets of [l] have
    been put back to the lowest ones: the digits [t] are as high as they can
    be; or the new choice is the next one. *)
Definition advanced (l t r : list Z) (ts : list Z) (curr next : Z) : Prop :=
  let m := length l in let n := (length l + length t)%nat in
  (curr = Z.of_nat n /\ (exists t', ts = -1 :: t' ++ cols :: r /\ length t' = n) /\
     forall s, choice s -> length s = n -> value (drop m s) <= value t) \/
  (0 <= curr < Z.of_nat n /\ exists t', set_tgt ts curr next = Ok (-1 :: t' ++ cols :: r) /\ choice t' /\ length t' = n /\
     value t < value (drop m t') /\ forall s, choice s -> length s = n -> value t < value (drop m s) -> value t' <= value s).

(** A digit that cannot be raised while the higher ones stay. *)
Lemma digit_stuck m x t s : choice s -> length s = (m + S (length t))%nat -> choice (x :: t) -> nxt (x + 1) (hd cols t) ->
  value (drop m s) <= value (x :: t) \/ value t < value (drop (S m) s).
Proof.
  intros Hs Hl Ht Hn. destruct (drop m s) as [| y u] eqn:E; [apply (f_equal length) in E; rewrite length_drop in E; simpl in E; lia |].
  rewrite (drop_next _ _ _ _ E).
  assert (Hyu : choice (y :: u)). { rewrite <- (take_drop m s), E in Hs. by apply choice_app in Hs as (_ & ? & _). }
  destruct (Z.le_gt_cases (value (y :: u)) (value (x :: t))) as [? | Hgt]; [by left |]. right.
  pose proof (choice_digits _ Hyu) as Dy. pose proof (choice_digits _ Ht) as Dx. apply Forall_cons in Dy as (Dy & Du), Dx as (Dx & Dt).
  cbn [val] in Hgt. apply (digit_lt (cols + 1)) in Hgt as [? | (Ev & Hxy)]; [done | | done | done]. exfalso.
  assert (u = t) as ->. { apply (f_equal length) in E. rewrite length_drop in E. simpl in E. apply (val_inj (cols + 1)); [lia | done | done | lia | done]. }
  pose proof (nxt_le _ _ y Hn ltac:(lia) (choice_usable _ y Hyu ltac:(left))) as Hle. destruct Hyu as (Hr & Hu).
  destruct t as [| z t]; simpl in Hle.
  - apply Forall_cons in Hu as ((Hy & _) & _). lia.
  - apply StronglySorted_inv in Hr as (_ & Hr). apply Forall_cons in Hr as (Hr & _). lia.
Qed.

Lemma digit_up m x t s : choice (x :: t) -> choice s -> value t < value (drop (S m) s) -> value (x :: t) < value (drop m s).
Proof.
  intros Hx Hs Hv. destruct (drop m s) as [| y u] eqn:E.
  - rewrite (drop_ge s (S m)) in Hv by (apply (f_equal length) in E; rewrite length_drop in E; simpl in E; lia). simpl in Hv.
    pose proof (val_range (cols + 1) ltac:(lia) t) as Hr. apply choice_digits, Forall_cons in Hx as (_ & Ht). specialize (Hr Ht). lia.
  - rewrite (drop_next _ _ _ _ E) in Hv. apply choice_digits, Forall_cons in Hx as (Hx & _).
    rewrite <- (take_drop m s), E in Hs. apply choice_app in Hs as (_ & Hs & _). apply choice_digits, Forall_cons in Hs as (Hy & _).
    cbn [val]. by apply digit_lt_2; [lia | ..].
Qed.

Lemma next_choice l x y t : lowest l -> choice (l ++ x :: t) -> nxt (x + 1) y -> y < hd cols t ->
  choice (l ++ y :: t) /\ value (x :: t) < value (y :: t) /\
  forall s, choice s -> length s = (length l + S (length t))%nat -> value (x :: t) < value (drop (length l) s) -> value (l ++ y :: t) <= value s.
Proof.
  intros (Hl & Hlow) Hc Hn Hy. pose proof Hn as (Hxy & Hu & _). apply choice_app in Hc as (_ & Hxt & Hlt).
  pose proof (choice_usable _ x Hxt ltac:(left)) as (Hx & _).
  assert (Hyc : y < cols). { destruct t as [| z t]; [done |]. simpl in Hy. pose proof (choice_usable _ z Hxt ltac:(right; left)) as (Hz & _). lia. }
  assert (Hyt : choice (y :: t)).
  { destruct Hxt as (Hr & Hall). apply StronglySorted_inv in Hr as (Hr & Hrx). apply Forall_cons in Hall as (_ & Hall). split.
    - constructor; [done |]. destruct t as [| z t]; [done |]. simpl in Hy. apply StronglySorted_inv in Hr as (_ & Hz).
      constructor; [done |]. eapply Forall_impl; [exact Hz |]. simpl. lia.
    - constructor; [| done]. split; [lia | by apply Hu]. }
  split; [| split].
  - apply choice_app. split; [done |]. split; [done |]. intros a b Ha Hb. pose proof (Hlt a x Ha ltac:(left)).
    apply elem_of_cons in Hb as [-> | Hb]; [lia |]. apply Hlt; [done | by right].
  - simpl. lia.
  - intros s Hs Hls Hv. rewrite <- (take_drop (length l) s) at 1. assert (Hta : length (take (length l) s) = length l) by (rewrite length_take; lia).
    pose proof Hs as Hs'. rewrite <- (take_drop (length l) s) in Hs'. apply choice_app in Hs' as (H1 & H2 & _).
    destruct (Z.lt_ge_cases (value (y :: t)) (value (drop (length l) s))) as [Hgt | Hle].
    { apply val_high; [lia | by apply choice_digits | by apply choice_digits | done | done]. }
    assert (E : drop (length l) s = y :: t).
    { destruct (drop (length l) s) as [| z u] eqn:E; [apply (f_equal length) in E; rewrite length_drop in E; simpl in E; lia |].
      pose proof (choice_digits _ H2) as Dz. pose proof (choice_digits _ Hxt) as Dx. pose proof (choice_digits _ Hyt) as Dy.
      apply Forall_cons in Dz as (Dz & Du), Dx as (Dx & Dt), Dy as (Dy & _).
      cbn [val] in Hv, Hle. apply (digit_lt (cols + 1)) in Hv as [Hv | (Hv & Hxz)]; [| | done | done].
      - pose proof (digit_lt_2 (cols + 1) ltac:(lia) y z _ _ Dy Dz Hv). lia.
      - assert (u = t) as ->. { apply (f_equal length) in E. rewrite length_drop in E. simpl in E. apply (val_inj (cols + 1)); [lia | done | done | lia | done]. }
        pose proof (nxt_le _ _ z Hn ltac:(lia) (choice_usable _ z H2 ltac:(left))). f_equal. lia. }
    rewrite E, !val_app, Hta by lia. pose proof (val_le (cols + 1) ltac:(lia) _ _ (Hlow _ H1 Hta)). lia.
Qed.

Lemma nxt_hd x y t : choice (x :: t) -> nxt (x + 1) y -> y <= hd cols t.
Proof.
  intros Hxt Hy. destruct t as [| z t]; [apply Hy |]. simpl. apply (nxt_le _ _ _ Hy); [| by apply (choice_usable _ z Hxt); right; left].
  destruct Hxt as (Hr & _). apply StronglySorted_inv in Hr as (_ & Hr). apply Forall_cons in Hr as (Hr & _). lia.
Qed.

(** A carry: the target [x] starts anew from [g]. *)
Lemma carry_choice l x g t : choice (l ++ x :: t) -> choice (l ++ [g]) -> g <= x -> choice ((l ++ [g]) ++ t).
Proof.
  intros Ht Hg Hgx. apply choice_app in Ht as (_ & Hxt & Hlt). apply choice_app. split; [done |]. apply (choice_app [x]) in Hxt as (_ & Htc & Hxb). split; [done |].
  intros a b Ha Hb. apply elem_of_app in Ha as [Ha | Ha]; [apply Hlt; [done | by right] |]. apply list_elem_of_singleton in Ha as ->.
  specialize (Hxb x b ltac:(left) Hb). lia.
Qed.

Lemma carry_advanced l x g t r ts curr next : choice (x :: t) -> (forall s, choice s -> length s = (length l + S (length t))%nat ->
    value (drop (length l) s) <= value (x :: t) \/ value t < value (drop (S (length l)) s)) ->
  advanced (l ++ [g]) t r ts curr next -> advanced l (x :: t) r ts curr next.
Proof.
  intros Hxt Hstuck. unfold advanced. assert (Hlg : length (l ++ [g]) = S (length l)) by (rewrite length_app; simpl; lia). rewrite Hlg.
  replace (length l + length (x :: t))%nat with (S (length l) + length t)%nat by (simpl; lia).
  intros [(Hcu & Hts & Hmax) | (Hcu & t' & Es & Ht' & Hlt' & Hv & Hmin)].
  - left. split; [done |]. split; [done |]. intros s Hs Hls. destruct (Hstuck s Hs ltac:(simpl in *; lia)) as [? | Hbad]; [done |].
    specialize (Hmax s Hs Hls). lia.
  - right. split; [done |]. exists t'. split_and!; [done | done | done | |].
    + by apply (digit_up (length l) x t t').
    + intros s Hs Hls Hv'. apply Hmin; [done | done |]. destruct (Hstuck s Hs ltac:(simpl in *; lia)) as [? | ?]; [lia | done].
Qed.

Lemma advance_spec r l t fuel : lowest l -> choice (l ++ t) -> t <> [] -> (length t <= fuel)%nat ->
  runs (advance fuel rm (Z.of_nat (length l + length t)) (-1 :: l ++ t ++ cols :: r) (Z.of_nat (length l)))
    (fun '(ts, curr, next) => advanced l t r ts curr next).
Proof.
  revert l t. induction fuel as [| f IH]; intros l t Hl Ht Hne Hf; [destruct t; [done | simpl in Hf; lia] |].
  destruct t as [| x t]; [done |]. cbn [advance app]. rewrite (tgt_at l x _ _ eq_refl), bind_Ok.
  pose proof Ht as Hxt. apply choice_app in Hxt as (Hlc & Hxt & Hlt). pose proof (choice_usable _ x Hxt ltac:(left)) as (Hx & Ex).
  eapply runs_bind; [apply next_valid_spec; lia |]. intros y Hy.
  assert (Eu : exists r', t ++ cols :: r = hd cols t :: r') by (destruct t; by eexists). destruct Eu as (r' & Eu).
  assert (Hu : tgt (-1 :: l ++ x :: t ++ cols :: r) (Z.of_nat (length l) + 1) = Ok (hd cols t)).
  { rewrite Eu. rewrite cons_middle, app_assoc. apply tgt_at. rewrite length_app. simpl. lia. }
  rewrite Hu, bind_Ok. clear Hu Eu r'.
  pose proof (nxt_hd _ _ _ Hxt Hy) as Hle.
  rewrite VERIFY_pass by lia. destruct (Z.eqb_spec y (hd cols t)) as [Ey | Ey]; cbn [negb].
  2:{ destruct (next_choice l x y t Hl Ht Hy ltac:(lia)) as (Hc & Hv & Hmin). right. cbn [length]. split; [lia |].
      exists (l ++ y :: t). rewrite drop_app_length. split_and!; [| done | by rewrite length_app | done | done].
      rewrite set_tgt_at by done. by rewrite <- app_assoc. }
  rewrite (tgt_top l), bind_Ok by done. assert (Htop : -1 <= top l < x).
  { pose proof (choice_top l Hlc). destruct (decide (l = [])) as [-> | Hnl]; [unfold top in *; simpl in *; lia |].
    pose proof (Hlt (top l) x (top_elem l Hnl) ltac:(left)). lia. }
  eapply runs_bind; [apply (first_valid_spec _ _ x); [done | lia | lia] |]. intros g Hg.
  assert (Hgx : g <= x) by (apply (nxt_le _ _ _ Hg); [lia | done]). pose proof (lowest_snoc l g Hl Hg ltac:(lia)) as Hl'.
  rewrite set_tgt_at, bind_Ok by done.
  assert (Hstuck : forall s, choice s -> length s = (length l + S (length t))%nat ->
    value (drop (length l) s) <= value (x :: t) \/ value t < value (drop (S (length l)) s))
    by (intros s Hs Hls; apply digit_stuck; [done | done | done | by rewrite <- Ey]).
  replace (l ++ g :: t ++ cols :: r) with ((l ++ [g]) ++ t ++ cols :: r) by (by rewrite <- app_assoc).
  assert (Hlen' : length (l ++ [g]) = S (length l)) by (rewrite length_app; simpl; lia).
  destruct t as [| z t].
  - rewrite (proj2 (Z.eqb_eq _ _)) by (simpl; lia). left. cbn [length]. split; [lia |]. split.
    + exists (l ++ [g]). split; [done | lia].
    + intros s Hs Hls. destruct (Hstuck s Hs Hls) as [? | Hbad]; [done |]. rewrite drop_ge in Hbad by (simpl in Hls; lia). simpl in Hbad. lia.
  - rewrite (proj2 (Z.eqb_neq _ _)) by (simpl; lia).
    specialize (IH (l ++ [g]) (z :: t) Hl' (carry_choice l x g _ Ht (proj1 Hl') Hgx) ltac:(done) ltac:(simpl in *; lia)). rewrite Hlen' in IH.
    replace (Z.of_nat (length l) + 1) with (Z.of_nat (S (length l))) by lia.
    replace (length l + length (x :: z :: t))%nat with (S (length l) + length (z :: t))%nat by (simpl; lia).
    eapply runs_impl; [exact IH |]. intros ((ts, curr), next). by apply carry_advanced.
Qed.

(** ** The first choice *)
(** Without errors in data columns, a data column is among the targets. *)
Definition admissible (data_errors : Z) (t : list Z) : Prop := data_errors = 0 -> rm_firstdatacol rm <= top t.

Section first.
Context (n : nat) (de : Z) (a s0 : list Z) (Hn : (1 <= n)%nat) (Ha : (n <= length a)%nat).
Context (Hs0 : choice s0) (Hl0 : length s0 = n) (Had0 : admissible de s0).

(** The targets found so far. *)
Definition first_inv (i : Z) (st : list Z * Z) : Prop :=
  exists l, st = (-1 :: l ++ drop (Z.to_nat i) a, top l + 1) /\ Z.of_nat (length l) = i /\ choice l /\
    (i < Z.of_nat n -> lowest l) /\
    (i = Z.of_nat n -> admissible de l /\ forall s, choice s -> length s = n -> admissible de s -> Forall2 Z.le l s).

Lemma first_step i st : 0 <= i < Z.of_nat n -> first_inv i st ->
  runs (let '(ts, c) := st in
    let c := if (i =? Z.of_nat n - 1) && (de =? 0) && (c <? rm_firstdatacol rm) then rm_firstdatacol rm else c in
    c ← skip_errors (Z.to_nat cols + 1) rm c ; ts ← set_tgt ts i c ; Ok (ts, c + 1)) (first_inv (i + 1)).
Proof.
  intros Hi (l & -> & Hll & Hc & Hlow & _). specialize (Hlow ltac:(lia)). cbv zeta. pose proof (choice_top l Hc) as Htl.
  match goal with |- context [skip_errors _ _ ?x] => set (b := x) end. assert (Hb : top l < b) by (unfold b; case_match eqn:E; [apply andb_true_iff in E as (_ & E) |]; lia).
  assert (Hlast : forall s, choice s -> length s = n -> i = Z.of_nat n - 1 -> admissible de s -> b <= top s).
  { intros s Hs Hls Ei Had. destruct s as [| y s _] using rev_ind; [simpl in Hls; lia |]. rewrite length_app in Hls. simpl in Hls.
    assert (Hge : top l + 1 <= y).
    { apply choice_app in Hs as (Hs & Hy & Hlt). pose proof (Forall2_top _ _ (proj2 Hlow s Hs ltac:(lia))) as Ht.
      destruct (decide (s = [])) as [-> | Hne]; [| specialize (Hlt (top s) y (top_elem s Hne) ltac:(by left)); lia].
      destruct (choice_usable _ y Hy ltac:(by left)) as (Hy0 & _). change (top []) with (-1) in Ht. lia. }
    rewrite top_snoc. unfold b. case_match eqn:E; [| done]. apply andb_true_iff in E as (E & _). apply andb_true_iff in E as (_ & E).
    specialize (Had ltac:(lia)). by rewrite top_snoc in Had. }
  assert (Hex : exists y, usable y /\ b <= y).
  { destruct (Z.eq_dec i (Z.of_nat n - 1)) as [Ei | Ei].
    - exists (top s0). split; [| by apply Hlast]. apply (choice_usable s0); [done |]. apply top_elem. intros ->. simpl in *. lia.
    - exists (mth s0 i). split; [apply (choice_usable s0); [done |]; apply mth_elem; lia |].
      unfold b. rewrite (proj2 (Z.eqb_neq i _)) by lia. cbn [andb].
      assert (Hm : choice (take (length l) s0)) by (rewrite <- (take_drop (length l) s0) in Hs0; by apply choice_app in Hs0 as (? & _)).
      pose proof (Forall2_top _ _ (proj2 Hlow _ Hm ltac:(rewrite length_take; lia))) as Ht.
      assert (Hlt : top (take (length l) s0) < mth s0 i); [| lia]. destruct (decide (take (length l) s0 = [])) as [E | Hne].
      + rewrite E. change (top []) with (-1). destruct (choice_usable s0 (mth s0 i) Hs0) as (? & _); [apply mth_elem; lia | lia].
      + pose proof Hs0 as Hs. rewrite <- (take_drop (length l) s0) in Hs. apply choice_app in Hs as (_ & _ & Hs). apply Hs; [by apply top_elem |].
        eapply list_elem_of_lookup_2. rewrite lookup_drop. replace (length l + 0)%nat with (Z.to_nat i) by lia. apply mth_lookup. lia. }
  destruct Hex as (y & Hy & Hby). pose proof Hy as (Hy1 & _).
  eapply runs_bind; [apply (skip_errors_spec _ _ y Hy); lia |]. intros x Hx.
  assert (Hxc : x < cols) by (pose proof (nxt_le _ _ _ Hx Hby Hy); lia).
  destruct (lowest_snoc_from l b x Hlow Hb Hx Hxc) as (Hcx & Hmin).
  destruct (lookup_lt_is_Some_2 a (Z.to_nat i)) as (v & Hv); [lia |]. rewrite (drop_S _ _ _ Hv), set_tgt_at, bind_Ok by lia.
  exists (l ++ [x]). split_and!.
  - rewrite top_snoc. replace (Z.to_nat (i + 1)) with (S (Z.to_nat i)) by lia. by rewrite <- app_assoc.
  - rewrite length_app. simpl. lia.
  - done.
  - intros Hi'. apply lowest_snoc; [done | | done]. unfold b in Hx. by rewrite (proj2 (Z.eqb_neq i _)) in Hx by lia.
  - intros Ei. split.
    + intros Hd. rewrite top_snoc. enough (rm_firstdatacol rm <= b) by (pose proof Hx as (? & _); lia).
      unfold b. rewrite (proj2 (Z.eqb_eq i _)), Hd by lia. cbn [andb Z.eqb]. destruct (Z.ltb_spec (top l + 1) (rm_firstdatacol rm)); lia.
    + intros s Hs Hls Had. apply Hmin; [done | lia |]. apply Hlast; (done || lia).
Qed.

Lemma init_targets_spec : runs (init_targets rm (Z.of_nat n) de (-1 :: a)) (fun ts =>
  exists t, ts = -1 :: t ++ drop n a /\ length t = n /\ choice t /\ admissible de t /\
    forall s, choice s -> length s = n -> admissible de s -> value t <= value s).
Proof.
  unfold init_targets. eapply runs_bind; [apply (for_range_inv _ _ _ _ first_inv) |].
  - lia.
  - exists []. simpl. rewrite drop_0. split_and!; [done | done | split; constructor | intros; apply lowest_nil | lia].
  - intros i st Hi HI. by apply (first_step i st).
  - intros (ts, c) (l & E & Hll & Hc & _ & Hend). injection E as -> ->. destruct (Hend eq_refl) as (Had & Hmin). cbn [runs].
    exists l. rewrite Nat2Z.id. split_and!; [done | lia | done | done |]. intros s Hs Hls Hads. apply val_le; [lia | by apply Hmin].
Qed.
End first.
End enum.

(** * What combinatorial reconstruction does

    An attempt rebuilds the targets and the columns in error; when the
    checksum is still wrong the targets are put back. The attempts go on until
    one succeeds or all choices of targets have failed. *)
(** ** Updates of the targets *)
(** [rm'] is [rm] with [f] applied to the columns of [t]. *)
Definition upd_all (f : nat -> raidz_col -> raidz_col) (t : list Z) (rm rm' : raidz_map) : Prop :=
  exists l, rm' = set_cols rm l /\ forall c, l !! c = (fun k => if bool_decide (Z.of_nat c ∈ t) then f c k else k) <$> rm_col rm !! c.

Lemma upd_all_nil f rm : upd_all f [] rm rm.
Proof. exists (rm_col rm). split; [by rewrite set_cols_id |]. intros c. by destruct (rm_col rm !! c). Qed.

Lemma upd_all_get f t rm rm' c k : upd_all f t rm rm' -> 0 <= c -> c ∉ t -> rm_col rm !! Z.to_nat c = Some k -> rm_col rm' !! Z.to_nat c = Some k.
Proof.
  intros (l & -> & Hl) Hc Hn Hk. cbn [rm_col set_cols]. rewrite Hl, Hk. simpl. by rewrite bool_decide_eq_false_2 by (by rewrite Z2Nat.id).
Qed.

Lemma upd_all_snoc f t rm rm' c k g : upd_all f t rm rm' -> 0 <= c -> c ∉ t -> rm_col rm !! Z.to_nat c = Some k -> g k = f (Z.to_nat c) k ->
  runs (upd_col rm' c g) (upd_all f (t ++ [c]) rm).
Proof.
  intros Hu Hc Hn Hk Hg. pose proof (upd_all_get _ _ _ _ _ _ Hu Hc Hn Hk) as Hk'. rewrite (upd_col_Some _ c k) by done. cbn [runs].
  destruct Hu as (l & -> & Hl). eexists. split; [done |]. intros i. cbn [rm_col set_cols] in *. destruct (decide (i = Z.to_nat c)) as [-> | Hne].
  - rewrite list_lookup_insert_eq by (by eapply lookup_lt_Some). rewrite Hk. simpl. rewrite Z2Nat.id by done.
    rewrite bool_decide_eq_true_2; [by rewrite Hg |]. apply elem_of_app. right. by left.
  - rewrite list_lookup_insert_ne, Hl by done. destruct (rm_col rm !! i) as [ki |]; [| done]. simpl.
    erewrite bool_decide_ext; [done |]. rewrite elem_of_app, list_elem_of_singleton. split; [by left | intros [? | ?]; [done | lia]].
Qed.

(** A loop over the targets, in order. *)
Lemma over_targets {A} (body : Z -> A -> result A) (I : list Z -> A -> Prop) t st :
  I [] st ->
  (forall i c u u' st, t = u ++ c :: u' -> i = Z.of_nat (length u) -> I u st -> runs (body i st) (I (u ++ [c]))) ->
  runs (for_range 0 (Z.of_nat (length t)) body st) (I t).
Proof.
  intros H0 Hstep. eapply runs_impl; [apply (for_range_inv _ _ _ _ (fun i st => I (take (Z.to_nat i) t) st)) |].
  - lia.
  - done.
  - intros i st' Hi HI. destruct (lookup_lt_is_Some_2 t (Z.to_nat i)) as (c & Hc); [lia |].
    replace (Z.to_nat (i + 1)) with (S (Z.to_nat i)) by lia. rewrite (take_S_r _ _ c) by done.
    apply (Hstep i c _ (drop (S (Z.to_nat i)) t)); [| rewrite length_take; lia | done]. rewrite <- (take_drop (Z.to_nat i) t) at 1.
    by rewrite (drop_S _ _ _ Hc).
  - intros st'. by rewrite Nat2Z.id, take_ge by lia.
Qed.

Lemma tgt_mid u c u' r i : i = Z.of_nat (length u) -> tgt (-1 :: (u ++ c :: u') ++ r) i = Ok c.
Proof. intros ->. rewrite <- app_assoc. by apply tgt_at. Qed.

(** ** Statistics *)
(** Two states that differ in the statistics only. *)
Definition same_but_corrected (io io' : raidz_io) : Prop :=
  io_zio io' = io_zio io /\ io_rm io' = io_rm io /\ io_env io' = io_env io /\ io_verified io' = io_verified io.

(** The counter of the code is one higher. *)
Definition counted (code : Z) (l l' : list Z) : Prop := exists v, l !! Z.to_nat code = Some v /\ l' = <[Z.to_nat code := u64_add v 1]> l.

Lemma count_spec io code : length (raidz_corrected io) = 8%nat -> 0 < code < 8 ->
  runs (count_corrected io code) (fun io' => same_but_corrected io io' /\ counted code (raidz_corrected io) (raidz_corrected io')).
Proof.
  intros Hl Hc. unfold count_corrected. destruct (lookup_lt_is_Some_2 (raidz_corrected io) (Z.to_nat code)) as (v & Hv); [lia |].
  rewrite (at_Ok _ _ v), bind_Ok by (done || lia). cbn [runs]. split; [by split_and! |]. by exists v.
Qed.

(** ** Columns that are kept *)
Section kept.
Context (rm0 : raidz_map).
Notation fdc := (rm_firstdatacol rm0).
Notation cols := (rm_cols rm0).

Definition err0 (c : Z) : bool := negb (col_error rm0 c =? 0).
(** Only data columns in error have other bytes than at the start. *)
Definition kept (rm : raidz_map) : Prop := rebuilt rm0 err0 rm.

Lemma kept_start : kept rm0.
Proof.
  exists (rm_col rm0). split; [by rewrite set_cols_id |]. split; [done |]. intros c k Hk. exists (rc_data k). by rewrite with_data_id.
Qed.

Lemma kept_params rm : kept rm -> rm_firstdatacol rm = fdc /\ rm_cols rm = cols /\ length (rm_col rm) = length (rm_col rm0).
Proof. by intros (l & -> & Hl & _). Qed.

Lemma kept_col rm c k : kept rm -> rm_col rm !! c = Some k -> exists k0, rm_col rm0 !! c = Some k0 /\ k = with_data k0 (rc_data k) /\
  (Z.of_nat c ∉ bads err0 fdc (cols - fdc) -> rc_data k = rc_data k0).
Proof.
  intros (l & -> & Hl & Hc) Hk. cbn [rm_col set_cols] in Hk. pose proof (lookup_lt_Some _ _ _ Hk).
  destruct (lookup_lt_is_Some_2 (rm_col rm0) c) as (k0 & Ek); [lia |]. exists k0. split; [done |].
  destruct (Hc c k0 Ek) as (d & Ed & _ & _ & Hd). assert (k = with_data k0 d) as -> by congruence. done.
Qed.

Lemma kept_error rm c : kept rm -> col_error rm c = col_error rm0 c.
Proof.
  intros Hk. unfold col_error. destruct (rm_col rm !! Z.to_nat c) as [k |] eqn:E.
  - destruct (kept_col _ _ _ Hk E) as (k0 & -> & -> & _). done.
  - destruct Hk as (l & -> & Hl & _). cbn [rm_col set_cols] in E. apply lookup_ge_None in E. by rewrite lookup_ge_None_2 by lia.
Qed.

Lemma kept_bad rm t c : kept rm -> is_bad rm t c = bool_decide (c ∈ t) || err0 c.
Proof. intros Hk. unfold is_bad, err0. by rewrite kept_error. Qed.

End kept.

Section comb.
Context (cx : raidz_ctx) (pcnt : Z) (Halloc : forall m, 0 <= m -> Z.of_nat (length (rx_alloc cx m)) = m /\ Forall is_byte (rx_alloc cx m)).
Context (rm0 : raidz_map) (zio : zio_t) (env0 : cksum_env).
Context (Hst0 : stripe rm0 pcnt) (He0 : exact rm0) (H255 : rm_cols rm0 <= 255).
Context (Hread : readable zio) (Hsize : length (io_data zio) = length (io_buffer rm0)).
Notation fdc := (rm_firstdatacol rm0).
Notation cols := (rm_cols rm0).
Notation V := (verdict (rx_host cx) env0 zio).

Notation err0 := (err0 rm0).
Notation kept := (kept rm0).

Lemma kept_stripe rm : kept rm -> stripe rm pcnt /\ exact rm /\ length (io_buffer rm) = length (io_buffer rm0).
Proof.
  intros Hk. pose proof (rebuilt_shape _ _ _ Hk) as Hs. split; [by eapply shape_stripe |]. split; [by eapply shape_exact |].
  eapply shape_buffer; [apply Hst0 | done].
Qed.

(** The state of the I/O during the attempts. *)
Definition trying (io : raidz_io) : Prop :=
  io_zio io = zio /\ kept (io_rm io) /\ (exists e, io_env io = set_errs env0 e) /\ length (raidz_corrected io) = 8%nat.

(** ** An attempt *)
Context (total_errors data_errors : Z) (Hte : total_errors = Z.of_nat (length (bads err0 0 cols))).
Context (Hde : data_errors = Z.of_nat (length (bads err0 fdc (cols - fdc)))).

(** The targets of an attempt. *)
Definition attempt (t : list Z) : Prop :=
  choice rm0 t /\ admissible rm0 data_errors t /\ (1 <= length t)%nat /\ Z.of_nat (length t) <= fdc - total_errors.

Lemma attempt_bads rm t : kept rm -> attempt t ->
  (1 <= length (bads (is_bad rm t) fdc (cols - fdc)))%nat /\ Z.of_nat (length (bads (is_bad rm t) 0 cols)) <= fdc.
Proof.
  intros Hk (Hc & Had & Hne & Hl). pose proof (st_ok _ _ Hst0) as []. split.
  - assert (Hx : exists x, x ∈ bads (is_bad rm t) fdc (cols - fdc)).
    + destruct (Z.eq_dec data_errors 0) as [E | E].
      * exists (top t). apply elem_bads. assert (Hin : top t ∈ t) by (apply top_elem; intros ->; simpl in Hne; lia).
        rewrite (kept_bad rm0 _ _ _ Hk), bool_decide_eq_true_2 by done. split; [done |]. specialize (Had E).
        destruct (choice_usable _ _ _ Hc Hin) as (? & _). lia.
      * destruct (bads err0 fdc (cols - fdc)) as [| x l] eqn:Eb; [simpl in Hde; lia |]. exists x.
        assert (Hin : x ∈ bads err0 fdc (cols - fdc)) by (rewrite Eb; left). apply elem_bads in Hin as (Hx & Hr). apply elem_bads.
        rewrite (kept_bad rm0 _ _ _ Hk), Hx, orb_true_r. done.
    + destruct Hx as (x & Hx). destruct (bads (is_bad rm t) fdc (cols - fdc)); [by apply not_elem_of_nil in Hx | simpl; lia].
  - assert (Hs : bads (is_bad rm t) 0 cols ⊆+ bads err0 0 cols ++ t).
    { apply NoDup_submseteq; [apply NoDup_filter, NoDup_seqZ |]. intros x Hx. apply elem_bads in Hx as (Hb & Hr).
      rewrite (kept_bad rm0 _ _ _ Hk) in Hb. apply elem_of_app. apply orb_prop in Hb as [Hb | Hb].
      - right. by apply bool_decide_eq_true in Hb.
      - left. by apply elem_bads. }
    apply submseteq_length in Hs. rewrite length_app in Hs. lia.
Qed.

Lemma attempt_rebuilds rm t : kept rm -> attempt t ->
  runs (vdev_raidz_reconstruct (rx_alloc cx) (vdev_raidz_default_to_general cx) rm t) (fun '(rm', code) =>
    rebuilt rm (is_bad rm t) rm' /\ used_code rm (is_bad rm t) code /\ 0 < code < 8).
Proof.
  intros Hk Ht. destruct (kept_stripe _ Hk) as (Hst & _). destruct (kept_params rm0 _ Hk) as (Ef & Ec & _).
  destruct (attempt_bads _ _ Hk Ht) as (Hone & Hfew). destruct Ht as ((Hr & Hu) & _).
  apply (reconstruct_any rm pcnt); rewrite ?Ef, ?Ec; try done.
  - by apply rising_ascending.
  - eapply Forall_impl; [exact Hu |]. intros x (Hx & _). done.
Qed.

(** ** The data of the targets *)
Definition buffers (n : nat) (orig : list (list Z)) : Prop := length orig = n /\ Forall (fun o => Z.of_nat (length o) = 8 * pcnt) orig.
(** The data of the targets are in [orig]. *)
Definition saved (rm : raidz_map) (t : list Z) (orig : list (list Z)) : Prop :=
  forall i c k, t !! i = Some c -> rm_col rm !! Z.to_nat c = Some k -> exists o, orig !! i = Some o /\
    Z.of_nat (length o) = 8 * pcnt /\ take (Z.to_nat (rc_size k)) o = rc_data k.

Lemma col_size rm c k : stripe rm pcnt -> 0 <= c < rm_cols rm -> rm_col rm !! Z.to_nat c = Some k -> 0 <= rc_size k <= 8 * pcnt.
Proof.
  intros Hst Hc Hk. destruct (st_ok _ _ Hst). destruct (Z.lt_ge_cases c (rm_firstdatacol rm)).
  - destruct (ok_par c k) as (-> & _); [lia | done | lia].
  - destruct (ok_data c k) as (? & _); [lia | done | lia].
Qed.

Lemma save_spec rm t r orig : kept rm -> choice rm0 t -> buffers (length t) orig ->
  runs (save_targets rm (Z.of_nat (length t)) (-1 :: t ++ r) orig) (fun orig' => buffers (length t) orig' /\ saved rm t orig').
Proof.
  intros Hk Ht Ho. destruct (kept_stripe _ Hk) as (Hst & He & _). destruct (kept_params rm0 _ Hk) as (Ef & Ec & El).
  unfold save_targets. apply (over_targets _ (fun u orig => buffers (length t) orig /\ saved rm u orig)).
  { split; [done |]. intros i c k Hi. by rewrite lookup_nil in Hi. }
  intros i c u u' o Et -> ((Hl & Hb) & Hs). rewrite Nat2Z.id.
  destruct (lookup_lt_is_Some_2 o (length u)) as (b & Hlb); [rewrite Hl, Et, length_app; simpl; lia |]. rewrite Hlb. cbn [deref]. rewrite bind_Ok.
  rewrite Et, tgt_mid, bind_Ok by done.
  assert (Hc : usable rm0 c) by (apply (choice_usable _ t); [done |]; rewrite Et; apply elem_of_app; right; left). destruct Hc as (Hc & _).
  rewrite !VERIFY_pass by (rewrite ?Ec; lia). destruct (ok_col _ _ c (st_ok _ _ Hst)) as (k & Hck); [lia |].
  rewrite (get_col_Some _ _ k), bind_Ok by (done || lia). pose proof (He c k ltac:(lia) Hck) as Hd.
  pose proof (col_size rm c k Hst ltac:(lia) Hck) as Hsz. rewrite Forall_lookup in Hb. pose proof (Hb _ _ Hlb) as Hlen.
  unfold bcopy. rewrite VERIFY_pass, bind_Ok by lia. cbn [runs].
  set (b' := take _ (rc_data k) ++ drop _ b).
  assert (Hb' : Z.of_nat (length b') = 8 * pcnt) by (unfold b'; rewrite length_app, length_take, length_drop; lia).
  assert (Et' : take (Z.to_nat (rc_size k)) b' = rc_data k) by (unfold b'; rewrite (take_ge (rc_data k)) by lia; rewrite take_app_le, take_ge by lia; done).
  split; [split; [by rewrite length_insert, Hl, Et |] |].
  - apply Forall_lookup. intros j x Hj. apply list_lookup_insert_Some in Hj as [(_ & -> & _) | (_ & Hj)]; [done | by eapply Hb].
  - intros j c' k' Hj Hk'. destruct (decide (j = length u)) as [-> | Hne].
    + rewrite lookup_app_r, Nat.sub_diag in Hj by lia. injection Hj as <-. assert (k' = k) as -> by congruence.
      exists b'. rewrite list_lookup_insert_eq by (by eapply lookup_lt_Some). done.
    + rewrite list_lookup_insert_ne by done. apply (Hs j c' k'); [| done]. rewrite lookup_app_l in Hj; [done |].
      apply lookup_lt_Some in Hj. rewrite length_app in Hj. simpl in Hj. lia.
Qed.

(** Targets as they were in [rm]. *)
Definition back (rm : raidz_map) (c : nat) (k : raidz_col) : raidz_col :=
  match rm_col rm !! c with Some k' => with_data k (rc_data k') | None => k end.

Lemma target_split t u c u' : choice rm0 t -> t = u ++ c :: u' -> 0 <= c < cols /\ c ∉ u /\ usable rm0 c.
Proof.
  intros Ht ->. apply choice_app in Ht as (_ & Hc & Hlt). destruct (choice_usable _ _ c Hc ltac:(left)) as (Hr & E).
  split; [done |]. split; [| done]. intros Hin. specialize (Hlt c c Hin ltac:(left)). lia.
Qed.

Lemma restore_spec rm rm1 t r orig : kept rm -> same_shape rm rm1 -> choice rm0 t -> saved rm t orig ->
  runs (restore_targets (Z.of_nat (length t)) (-1 :: t ++ r) orig rm1) (upd_all (back rm) t rm1).
Proof.
  intros Hk Hs Ht Ho. destruct (kept_stripe _ Hk) as (Hst & He & _). destruct (kept_params rm0 _ Hk) as (Ef & Ec & El).
  unfold restore_targets. apply (over_targets _ (fun u rm' => upd_all (back rm) u rm1 rm')); [apply upd_all_nil |].
  intros i c u u' rm' Et -> Hu. rewrite Nat2Z.id. destruct (target_split _ _ _ _ Ht Et) as (Hc & Hn & _).
  destruct (ok_col _ _ c (st_ok _ _ Hst)) as (k & Hck); [lia |].
  destruct (Ho (length u) c k) as (o & -> & Hlo & Eo); [by rewrite Et, list_lookup_middle | done |]. cbn [deref]. rewrite bind_Ok.
  rewrite Et, tgt_mid, bind_Ok by done.
  assert (Hk1 : exists k1, rm_col rm1 !! Z.to_nat c = Some k1 /\ rc_size k1 = rc_size k /\ length (rc_data k1) = length (rc_data k)).
  { destruct Hs as (l & -> & _ & Hl). destruct (Hl _ _ Hck) as (k1 & ? & ? & ? & _). by exists k1. }
  destruct Hk1 as (k1 & Hk1 & Es & Eld). pose proof (upd_all_get _ _ _ _ _ _ Hu (proj1 Hc) Hn Hk1) as Hk'.
  rewrite (get_col_Some _ _ k1), bind_Ok by (done || lia). pose proof (He c k ltac:(lia) Hck). pose proof (col_size rm c k Hst ltac:(lia) Hck).
  unfold bcopy. rewrite VERIFY_pass, bind_Ok by lia. rewrite Es, Eo, drop_ge, app_nil_r by lia.
  apply (upd_all_snoc _ _ _ _ _ k1); [done | lia | done | done |]. unfold back. by rewrite Hck.
Qed.

(** After an attempt that failed. *)
Lemma restored_kept rm rm1 t rm2 : kept rm -> choice rm0 t -> rebuilt rm (is_bad rm t) rm1 -> upd_all (back rm) t rm1 rm2 -> kept rm2.
Proof.
  intros Hk Ht Hr (l2 & -> & Hl2). destruct (kept_params rm0 _ Hk) as (Ef & Ec & El). destruct Hr as (l1 & -> & Hl1 & Hc1). pose proof Hk as (l & -> & Hl & Hc).
  cbn [rm_col set_cols rm_firstdatacol rm_cols] in *. exists l2. split; [done |]. split.
  { rewrite <- El, <- Hl1. apply Nat.le_antisymm; apply Nat.nlt_ge; intros H.
    - apply lookup_lt_is_Some_2 in H as (x & H). rewrite Hl2 in H. destruct (l1 !! length l1) eqn:E; [| done]. apply lookup_lt_Some in E. lia.
    - apply lookup_lt_is_Some_2 in H as (x & H). pose proof (Hl2 (length l2)) as E. rewrite H, lookup_ge_None_2 in E by lia. done. }
  intros c k0 Hk0. destruct (Hc c k0 Hk0) as (d & Ed & Hdl & Hdb & Hd). destruct (Hc1 c _ Ed) as (d1 & Ed1 & Hd1l & Hd1b & Hd1).
  rewrite Hl2, Ed1. simpl. unfold back. cbn [rm_col set_cols]. rewrite Ed. cbn [rc_data with_data] in *. case_bool_decide as Hin.
  - exists d. split; [done |]. split_and!; done.
  - exists d1. split; [done |]. split; [lia |]. split; [auto |]. intros Hb. rewrite Hd1; [by apply Hd |]. intros Hb1. apply Hb.
    apply elem_bads in Hb1 as (Hb1 & Hrange). apply elem_bads. rewrite (kept_bad rm0 _ _ _ Hk), bool_decide_eq_false_2 in Hb1 by done. done.
Qed.

(** ** Success *)
Definition in_error (c : nat) (k : raidz_col) : raidz_col := with_error k ECKSUM.

Lemma same_but_map_trans a b c : same_but_map a b -> same_but_map b c -> same_but_map a c.
Proof. intros (? & ? & ? & ? & ?) (? & ? & ? & ? & ?). split_and!; congruence. Qed.

Lemma mark_targets_spec rm io t r orig : kept rm -> rebuilt rm (is_bad rm t) (io_rm io) -> choice rm0 t -> saved rm t orig ->
  runs (mark_targets (Z.of_nat (length t)) (-1 :: t ++ r) orig io) (fun io' =>
    same_but_map io io' /\ upd_all in_error t (io_rm io) (io_rm io')).
Proof.
  intros Hk Hr Ht Ho. destruct (kept_stripe _ Hk) as (Hst & He & _). destruct (kept_params rm0 _ Hk) as (Ef & Ec & El).
  unfold mark_targets. apply (over_targets _ (fun u io' => same_but_map io io' /\ upd_all in_error u (io_rm io) (io_rm io')));
    [split; [by split_and! | apply upd_all_nil] |].
  intros i c u u' io' Et -> (Hsame & Hu). destruct (target_split _ _ _ _ Ht Et) as (Hc & Hn & (_ & E0)).
  destruct (ok_col _ _ c (st_ok _ _ Hst)) as (k & Hck); [lia |].
  destruct (Ho (length u) c k) as (o & Ho' & _ & _); [by rewrite Et, list_lookup_middle | done |].
  rewrite Et, tgt_mid, bind_Ok by done.
  assert (Hk1 : exists d, rm_col (io_rm io) !! Z.to_nat c = Some (with_data k d)).
  { destruct Hr as (l & -> & _ & Hl). destruct (Hl _ _ Hck) as (d & ? & _). by exists d. }
  destruct Hk1 as (d & Hk1). pose proof (upd_all_get _ _ _ _ _ _ Hu (proj1 Hc) Hn Hk1) as Hk'.
  rewrite (get_col_Some _ _ (with_data k d)), bind_Ok by (done || lia).
  assert (Ek : rc_error k = 0). { rewrite <- E0, <- (kept_error rm0 rm) by done. unfold col_error. by rewrite Hck. }
  rewrite VERIFY_pass by (simpl; by rewrite Ek). rewrite Nat2Z.id, Ho'. cbn [deref]. rewrite bind_Ok. cbv zeta.
  set (io2 := if rc_tried (with_data k d) then _ else io'). assert (H2 : same_but_map io' io2 /\ io_rm io2 = io_rm io').
  { unfold io2. destruct (rc_tried _); [apply checksum_error_fields | by split_and!]. }
  destruct H2 as (H2 & ->). eapply runs_bind; [apply (upd_all_snoc in_error u (io_rm io) _ c (with_data k d)); [done | lia | done | done | done] |].
  intros rm' Hrm'. cbn [runs]. split; [| done]. eapply same_but_map_trans; [exact Hsame |]. eapply same_but_map_trans; [exact H2 |]. by split_and!.
Qed.

(** An attempt that the checksum accepts whatever the columns in error hold. *)
Definition wins (t : list Z) : Prop := forall rm, kept rm ->
  runs (vdev_raidz_reconstruct (rx_alloc cx) (vdev_raidz_default_to_general cx) rm t) (fun '(rm', _) => V (io_buffer rm') = 0).

(** How the attempts end when one succeeds: the targets are in error. *)
Definition succeeded (corrected : list Z) (io : raidz_io) (code : Z) : Prop :=
  exists t rm rm', attempt t /\ kept rm /\ rebuilt rm (is_bad rm t) rm' /\ used_code rm (is_bad rm t) code /\ 0 < code < 8 /\
    V (io_buffer rm') = 0 /\ upd_all in_error t rm' (io_rm io) /\ io_zio io = zio /\ (exists e, io_env io = set_errs env0 e) /\
    counted code corrected (raidz_corrected io).

(** One attempt, up to the test of the checksum. *)
Lemma attempt_spec io t : trying io -> attempt t ->
  runs ('(rm, code) ← vdev_raidz_reconstruct (rx_alloc cx) (vdev_raidz_default_to_general cx) (io_rm io) t ;
        '(io', ret) ← raidz_checksum_verify cx (set_rm io rm) ; Ok (io', code, ret)) (fun '(io', code, ret) =>
    rebuilt (io_rm io) (is_bad (io_rm io) t) (io_rm io') /\ used_code (io_rm io) (is_bad (io_rm io) t) code /\ 0 < code < 8 /\
    io_zio io' = zio /\ (exists e, io_env io' = set_errs env0 e) /\ raidz_corrected io' = raidz_corrected io /\
    ret = V (io_buffer (io_rm io')) /\ (wins t -> ret = 0)).
Proof.
  intros (Ez & Hk & (e & Ee) & Hcl) Ht. pose proof (attempt_rebuilds _ _ Hk Ht) as H1.
  eapply (runs_bind _ _ (fun '(rm', code) => (rebuilt (io_rm io) (is_bad (io_rm io) t) rm' /\ used_code (io_rm io) (is_bad (io_rm io) t) code /\ 0 < code < 8) /\
    (wins t -> V (io_buffer rm') = 0))).
  { apply runs_Ok in H1 as ((rm', code) & E & H1). rewrite E. split; [done |]. intros Hw. specialize (Hw _ Hk). by rewrite E in Hw. }
  intros (rm', code) ((Hr & Hu & Hc) & Hw). pose proof (rebuilt_shape _ _ _ Hr) as Hs. destruct (kept_stripe _ Hk) as (Hst & He & Hb).
  eapply runs_bind; [apply (checksum_verify_spec cx (set_rm io rm') pcnt); cbn [io_rm io_zio set_rm] |].
  - apply (shape_stripe _ _ _ Hs Hst).
  - by eapply shape_exact.
  - by rewrite Ez.
  - rewrite Ez, (shape_buffer _ _ _ (st_ok _ _ Hst) Hs). congruence.
  - intros (io', ret) ((E1 & E2 & E3 & E4 & E5 & e' & E6) & Eret). cbn [io_zio io_rm io_env raidz_corrected set_rm] in *.
    rewrite Ee, Ez, verdict_errs in Eret. cbn [runs]. rewrite E1, E2, E3, E6, Ee. split_and!; try done; [lia | lia | | by subst ret].
    exists e'. done.
Qed.

(** ** All attempts with [n] targets *)
Notation value := (val (rm_cols rm0 + 1)).

(** How the loop ends: with success, or when no choice of as many targets from
    [t] on wins. *)
Definition tried_all (corrected : list Z) (t r : list Z) (res : raidz_io * list (list Z) * list Z * option Z) : Prop :=
  let '(io, orig, ts, ret) := res in
  match ret with
  | Some code => succeeded corrected io code
  | None => trying io /\ raidz_corrected io = corrected /\ buffers (length t) orig /\
      (exists t', ts = -1 :: t' ++ cols :: r /\ length t' = length t) /\
      forall s, attempt s -> length s = length t -> value t <= value s -> ~ wins s
  end.

Lemma attempt_next t t' : attempt t -> choice rm0 t' -> length t' = length t -> value t < value t' -> attempt t'.
Proof.
  intros (Hc & Had & Hne & Hl) Hc' El Hv. pose proof (ok_cols _ _ (st_ok _ _ Hst0)). pose proof (ok_np _ _ (st_ok _ _ Hst0)).
  split; [done |]. split; [| lia]. intros E. specialize (Had E).
  enough (top t <= top t') by lia. apply (top_le (cols + 1)); [lia | by eapply choice_digits | by eapply choice_digits | done | | lia].
  intros ->. simpl in Hne. lia.
Qed.

Lemma kept_choice rm t : kept rm -> choice rm t <-> choice rm0 t.
Proof.
  intros Hk. destruct (kept_params rm0 _ Hk) as (_ & Ec & _). unfold choice. split; intros (Hr & Hu); (split; [done |]); eapply Forall_impl; try exact Hu;
    intros x (Hx & E); (split; [lia |]); by rewrite <- E, (kept_error rm0 rm).
Qed.

Lemma advance_from rm t r : kept rm -> choice rm0 t -> (1 <= length t)%nat ->
  runs (advance (length t) rm (Z.of_nat (length t)) (-1 :: t ++ cols :: r) 0) (fun '(ts, curr, next) => advanced rm0 [] t r ts curr next).
Proof.
  intros Hk Hc Hne. destruct (kept_params rm0 _ Hk) as (_ & Ec & El). pose proof (ok_cols _ _ (st_ok _ _ Hst0)). pose proof (ok_np _ _ (st_ok _ _ Hst0)).
  pose proof (ok_len _ _ (st_ok _ _ Hst0)).
  pose proof (advance_spec rm ltac:(lia) ltac:(lia) r [] t (length t) (lowest_nil rm) (proj2 (kept_choice rm t Hk) Hc)) as Had.
  cbn [app length Nat.add] in Had. rewrite Ec in Had. eapply runs_impl; [apply Had; [intros ->; simpl in Hne; lia | lia] |]. clear Had.
  intros ((ts, curr), next). unfold advanced. rewrite Ec. intros [(A1 & A2 & A3) | (A1 & t' & A2 & A3 & A4 & A5 & A6)].
  - left. split_and!; [done | done |]. intros s Hs. by apply A3, kept_choice.
  - right. split; [done |]. exists t'. split_and!; [done | by apply (kept_choice rm) | done | done |]. intros s Hs. by apply A6, kept_choice.
Qed.

Lemma try_spec fuel io orig ts curr next t r : trying io -> attempt t -> buffers (length t) orig -> 0 <= curr < Z.of_nat (length t) ->
  set_tgt ts curr next = Ok (-1 :: t ++ cols :: r) -> (cols + 1) ^ Z.of_nat (length t) - value t < Z.of_nat fuel ->
  runs (try_targets fuel cx (Z.of_nat (length t)) io orig ts curr next) (tried_all (raidz_corrected io) t r).
Proof.
  revert io orig ts curr next t. induction fuel as [| f IH]; intros io orig ts curr next t Hio Ht Ho Hcu Hts Hf.
  all: pose proof (ok_cols _ _ (st_ok _ _ Hst0)); pose proof (ok_np _ _ (st_ok _ _ Hst0)); pose proof Ht as (Hc & _ & Hne & _).
  all: pose proof (val_range (cols + 1) ltac:(lia) t (choice_digits rm0 t Hc)) as Hv.
  { lia. }
  cbn [try_targets]. rewrite (proj2 (Z.eqb_neq curr _)), Hts, bind_Ok by lia. pose proof Hio as (Ez & Hk & Henv & Hcl).
  eapply runs_bind; [by apply save_spec |]. intros orig' (Ho' & Hs'). rewrite targets_arr by done.
  pose proof (attempt_spec io t Hio Ht) as Ha. apply runs_Ok in Ha as (((io', code), ret) & E & Hr & Hu & Hcode & Ez' & Henv' & Hcor & Hret & Hwin).
  apply bind_Ok_inv in E as ((rm1, code1) & E1 & E). rewrite E1, bind_Ok. apply bind_Ok_inv in E as ((io1, ret1) & E2 & E). rewrite E2, bind_Ok.
  injection E as -> -> ->. destruct (Z.eqb_spec ret 0) as [Er | Er].
  - eapply runs_bind; [apply (count_spec io' code); [congruence | done] |]. intros io2 ((S1 & S2 & S3 & _) & Hcnt).
    eapply runs_bind; [apply (mark_targets_spec (io_rm io) io2 t); [done | by rewrite S2 | done | done] |]. intros io3 ((M1 & M2 & M3 & _) & Hm). cbn [runs tried_all].
    exists t, (io_rm io), (io_rm io'). rewrite <- S2, M1, M2, M3, S1, S3, <- Hcor. rewrite S2 in Hm |- *. split_and!; try done; [lia | lia | congruence].
  - eapply runs_bind; [by apply (restore_spec (io_rm io)); [| eapply rebuilt_shape | |] |]. intros rm2 Hrm2.
    pose proof (restored_kept _ _ _ _ Hk Hc Hr Hrm2) as Hk2. destruct (kept_params rm0 _ Hk2) as (Ef2 & Ec2 & El2).
    eapply runs_bind; [rewrite Nat2Z.id; by apply advance_from |]. intros ((ts', curr'), next').
    assert (Hio2 : trying (set_rm io' rm2)) by (split_and!; [done | done | done | simpl; congruence]).
    assert (Hlose : forall s, attempt s -> length s = length t -> value s <= value t -> value t <= value s -> ~ wins s).
    { intros s Hs Hls H1 H2 Hw. apply Er, Hwin. assert (s = t) as <-; [| done].
      apply (val_inj (cols + 1)); [lia | by apply choice_digits, Hs | by apply choice_digits | done | lia]. }
    intros [(-> & Hts' & Hmax) | (Hcu' & t' & Hset & Hc' & Hl' & Hv' & Hmin)]; cbn [length Nat.add] in *.
    + destruct f as [| f]; [lia |]. cbn [try_targets]. rewrite Z.eqb_refl. cbn [runs tried_all]. split_and!; [done | simpl; congruence | done | done |].
      intros s Hs Hls Hle. apply Hlose; [done | done | | done]. rewrite <- (drop_0 s). apply Hmax; [apply Hs | done].
    + rewrite drop_0 in Hv'. pose proof (attempt_next _ _ Ht Hc' Hl' Hv') as Ht'. rewrite <- Hl'.
      replace (raidz_corrected io) with (raidz_corrected (set_rm io' rm2)) by (simpl; congruence).
      eapply runs_impl; [apply (IH _ _ _ _ _ t'); rewrite ?Hl'; try done; lia |].
      intros (((io3, orig3), ts3), [code3 |]); [done |]. cbn [tried_all]. rewrite Hl'. intros (T1 & T2 & T3 & T4 & T5). split_and!; try done.
      intros s Hs Hls Hle. destruct (Z.le_gt_cases (value s) (value t)); [by apply Hlose |]. apply T5; [done | done |].
      apply Hmin; [apply Hs | done |]. by rewrite drop_0.
Qed.

(** ** All attempts *)
Lemma choice_exists n : (1 <= n)%nat -> Z.of_nat n <= fdc - total_errors -> exists s, choice rm0 s /\ length s = n /\ admissible rm0 data_errors s.
Proof.
  intros Hn Hl. pose proof (ok_cols _ _ (st_ok _ _ Hst0)). pose proof (ok_np _ _ (st_ok _ _ Hst0)).
  set (g := goods err0 0 cols). assert (Hg : (length (bads err0 0 cols) + length g = Z.to_nat cols)%nat)
    by (unfold g, bads, goods; by rewrite filter_length, length_seqZ).
  assert (Hc : choice rm0 g).
  { split; [apply rising_filter, rising_seqZ |]. apply Forall_forall. intros x Hx. apply elem_goods in Hx as (Hx & Hr).
    split; [lia |]. unfold err0 in Hx. apply negb_false_iff in Hx. lia. }
  exists (drop (length g - n) g). rewrite <- (take_drop (length g - n) g) in Hc. apply choice_app in Hc as (_ & Hc & _).
  assert (Hd : length (drop (length g - n) g) = n) by (rewrite length_drop; lia). split; [done |]. split; [done |].
  intros E. assert (Hlast : cols - 1 ∈ g).
  { apply elem_goods. split; [| lia]. destruct (err0 (cols - 1)) eqn:Eb; [| done]. exfalso.
    assert (Hin : cols - 1 ∈ bads err0 fdc (cols - fdc)) by (apply elem_bads; split; [done | lia]).
    destruct (bads err0 fdc (cols - fdc)); [by apply not_elem_of_nil in Hin | simpl in Hde; lia]. }
  assert (Htop : top (drop (length g - n) g) = top g).
  { transitivity (top (take (length g - n) g ++ drop (length g - n) g)); [| by rewrite take_drop].
    destruct (drop (length g - n) g) as [| x l _] using rev_ind; [simpl in Hd; lia |]. by rewrite app_assoc, !top_snoc. }
  rewrite Htop. enough (cols - 1 <= top g) by lia. apply top_max; [apply rising_filter, rising_seqZ | done].
Qed.

Lemma first_attempt rm a n : kept rm -> (n < length a)%nat -> (1 <= n)%nat -> Z.of_nat n <= fdc - total_errors ->
  runs (ts ← init_targets rm (Z.of_nat n) data_errors (-1 :: a) ; set_tgt ts (Z.of_nat n) cols) (fun ts =>
    exists t, ts = -1 :: t ++ cols :: drop (S n) a /\ length t = n /\ attempt t /\
      forall s, attempt s -> length s = n -> value t <= value s).
Proof.
  intros Hk Ha Hn Hl. destruct (kept_params rm0 _ Hk) as (Ef & Ec & El). destruct (choice_exists n Hn Hl) as (s0 & Hs0 & Hls0 & Had0).
  pose proof (ok_cols _ _ (st_ok _ _ Hst0)). pose proof (ok_np _ _ (st_ok _ _ Hst0)). pose proof (ok_len _ _ (st_ok _ _ Hst0)).
  assert (Hadm : forall s, admissible rm data_errors s <-> admissible rm0 data_errors s) by (intros s; unfold admissible; by rewrite Ef).
  eapply runs_bind; [apply (init_targets_spec rm ltac:(lia) ltac:(lia) n data_errors a s0); [lia | lia | by apply kept_choice | done | by apply Hadm] |].
  intros ts (t & -> & Hlt & Hc & Had & Hmin). rewrite Ec in Hmin. destruct (lookup_lt_is_Some_2 a n Ha) as (v & Hv).
  rewrite (drop_S _ _ _ Hv), set_tgt_at by lia. cbn [runs]. exists t. split; [done |]. split; [done |]. split.
  - split_and!; [by apply (kept_choice rm) | by apply Hadm | lia | lia].
  - intros s (Hs & Hads & _) Hls. apply Hmin; [by apply kept_choice | done | by apply Hadm].
Qed.

Lemma set_first t r : (1 <= length t)%nat -> exists x, tgt (-1 :: t ++ r) 0 = Ok x /\ set_tgt (-1 :: t ++ r) 0 x = Ok (-1 :: t ++ r).
Proof.
  destruct t as [| x t]; [simpl; lia |]. intros _. exists x. cbn [app]. split; [by apply (tgt_at [] x) | by apply (set_tgt_at [] x)].
Qed.

Lemma combrec_for_spec corrected fuel io orig a n : trying io -> raidz_corrected io = corrected -> (1 <= n)%nat -> length a = 4%nat -> buffers (n - 1) orig ->
  (forall s, attempt s -> (length s < n)%nat -> ~ wins s) -> Z.of_nat n <= fdc - total_errors + 1 -> (4 < n + fuel)%nat ->
  runs (combrec_for fuel cx total_errors data_errors io orig (-1 :: a) (Z.of_nat n)) (fun '(io', code) =>
    succeeded corrected io' code \/ code = 0 /\ trying io' /\ raidz_corrected io' = corrected /\ forall s, attempt s -> ~ wins s).
Proof.
  revert io orig a n. induction fuel as [| f IH]; intros io orig a n Hio Hcor Hn Ha Ho Hlow Hmax Hf.
  all: pose proof Hio as (_ & Hk & _); destruct (kept_params rm0 _ Hk) as (Ef & Ec & El); pose proof (ok_np _ _ (st_ok _ _ Hst0)).
  - lia.
  - cbn [combrec_for]. rewrite Ef. destruct (Z.leb_spec (Z.of_nat n) (fdc - total_errors)) as [Hle | Hgt].
    2:{ right. split_and!; [done | done | done |]. intros s Hs. apply Hlow; [done |]. destruct Hs as (_ & _ & _ & Hs). lia. }
    pose proof (first_attempt (io_rm io) a n Hk ltac:(lia) Hn Hle) as Hi. apply runs_Ok in Hi as (ts & Ei & t & -> & Hlt & Hat & Hmin).
    apply bind_Ok_inv in Ei as (ts1 & Ei1 & Ei2). rewrite Ei1, bind_Ok, Ec, Ei2, bind_Ok.
    rewrite VERIFY_pass by (destruct Ho as (Ho & _); lia).
    destruct (kept_stripe _ Hk) as (Hst & _). pose proof (ok_cols _ _ (st_ok _ _ Hst)).
    destruct (ok_col _ _ 0 (st_ok _ _ Hst)) as (k & Hck); [lia |]. rewrite (get_col_Some _ 0 k), bind_Ok by (done || lia).
    destruct (ok_par _ _ (st_ok _ _ Hst) 0 k) as (Hsz & _); [lia | done |]. destruct (Halloc (rc_size k)) as (Hal & _); [pose proof (ok_pcnt _ _ (st_ok _ _ Hst)); lia |].
    destruct (set_first t (cols :: drop (S n) a) ltac:(lia)) as (x & Ex & Hset). rewrite Ex, bind_Ok. subst n.
    eapply runs_bind; [apply (try_spec _ _ _ _ _ _ t); [done | done | | lia | exact Hset |] |].
    + destruct Ho as (Ho & Hb). split; [rewrite length_app; simpl; lia |]. apply Forall_app. split; [done |]. constructor; [lia | done].
    + unfold try_fuel. rewrite Ec. pose proof (Z.pow_nonneg (cols + 1) (Z.of_nat (length t)) ltac:(lia)).
      pose proof (val_range (cols + 1) ltac:(lia) t (choice_digits rm0 t (proj1 Hat))). lia.
    + intros (((io', orig'), ts'), [code |]); cbn [tried_all]; [rewrite Hcor; by left |].
      intros (Hio' & Hcor' & Ho' & (t' & -> & Hlt') & Hlose). replace (Z.of_nat (length t) + 1) with (Z.of_nat (S (length t))) by lia.
      apply IH; [done | congruence | lia | | | | lia | lia].
      * rewrite length_app. cbn [length]. rewrite length_drop. lia.
      * by replace (S (length t) - 1)%nat with (length t) by lia.
      * intros s Hs Hls. destruct (decide (length s = length t)) as [E | E]; [| apply Hlow; [done | lia]].
        apply Hlose; [done | lia |]. by apply Hmin.
Qed.

(** [vdev_raidz_combrec] ends. When it returns 0 no attempt could win, and the
    columns without error are as they were. *)
Lemma combrec_spec io : trying io -> total_errors < fdc -> 
  runs (vdev_raidz_combrec cx io total_errors data_errors) (fun '(io', code) =>
    succeeded (raidz_corrected io) io' code \/
    code = 0 /\ trying io' /\ raidz_corrected io' = raidz_corrected io /\ forall s, attempt s -> ~ wins s).
Proof.
  intros Hio Ht. pose proof Hio as (_ & Hk & _). destruct (kept_params rm0 _ Hk) as (Ef & _). unfold vdev_raidz_combrec. rewrite VERIFY_pass by lia.
  apply (combrec_for_spec _ _ io [] [0; 0; 0; 0] 1); [done | done | lia | done | by split | | lia | ].
  - intros s (_ & _ & Hs & _) Hls. lia.
  - change (Z.to_nat VDEV_RAIDZ_MAXPARITY) with 3%nat. lia.
Qed.
End comb.
