(* ===== verification/RaidzHeal.v ===== *)
(** * Damaged stripes and the stripe that was written

    A map whose columns are those of a written stripe, but for the bytes of
    some of them: the attempt that takes the damaged columns for targets
    gives the data of the stripe back. *)
From S2P Require Import Prelude Bytes Words Fletcher FletcherSpec Blkptr ZioChecksum ZioChecksumSpec.
From S2P Require Import Gf256 Raidz RaidzSpec RaidzRec RaidzMap RaidzChoice RaidzStripe RaidzSolve RaidzIo RaidzComb RaidzCombSpec RaidzIoSpec.
Local Open Scope Z_scope.

(** Maps of the same block. *)
Definition twin (rmo rm : raidz_map) : Prop :=
  rm_firstdatacol rm = rm_firstdatacol rmo /\ rm_cols rm = rm_cols rmo /\
  forall c k, 0 <= c < rm_cols rm -> rm_col rm !! Z.to_nat c = Some k -> exists ko, rm_col rmo !! Z.to_nat c = Some ko /\ rc_size ko = rc_size k.

(** The columns of [rm] with the bytes of [rmo]. *)
Definition overlay (rmo rm : raidz_map) : raidz_map :=
  set_cols rm (imap (fun i k => if Z.of_nat i <? rm_cols rm then with_data k (col_bytes rmo (Z.of_nat i)) else k) (rm_col rm)).

Lemma twin_shape rmo rm rm' : twin rmo rm -> same_shape rm rm' -> twin rmo rm'.
Proof.
  intros (Ef & Ec & Hc) Hs. assert (rm_firstdatacol rm' = rm_firstdatacol rm /\ rm_cols rm' = rm_cols rm) as (E1 & E2) by (by destruct Hs as (l & -> & _)).
  split; [congruence |]. split; [congruence |]. intros c k Hcc Hk. destruct (shape_inv _ _ _ _ Hs Hk) as (k0 & Hk0 & -> & _). apply Hc; [lia | done].
Qed.

Lemma column_bytes rm pcnt c k : stripe rm pcnt -> 0 <= c < rm_cols rm -> rm_col rm !! Z.to_nat c = Some k -> Forall is_byte (rc_data k).
Proof.
  intros Hst Hc Hk. destruct (st_ok _ _ Hst). destruct (Z.lt_ge_cases c (rm_firstdatacol rm)); [apply (ok_par c k) | apply (ok_data c k)]; (done || lia).
Qed.

Section origin.
Context (rmo rm : raidz_map) (pcnt : Z) (Hsto : stripe rmo pcnt) (Heo : exact rmo) (Hright : parity_right rmo pcnt).
Context (Htw : twin rmo rm) (Hst : stripe rm pcnt) (He : exact rm).
Notation cols := (rm_cols rm).

Lemma overlay_col i k : rm_col rm !! i = Some k ->
  rm_col (overlay rmo rm) !! i = Some (if Z.of_nat i <? cols then with_data k (col_bytes rmo (Z.of_nat i)) else k).
Proof. intros Hk. cbn [rm_col overlay set_cols]. by rewrite list_lookup_imap, Hk. Qed.

Lemma twin_bytes c k : 0 <= c < cols -> rm_col rm !! Z.to_nat c = Some k ->
  length (col_bytes rmo c) = length (rc_data k) /\ Forall is_byte (col_bytes rmo c).
Proof.
  intros Hc Hk. destruct Htw as (Ef & Ec & Hcol). destruct (Hcol c k Hc Hk) as (ko & Hko & Es). unfold col_bytes. rewrite Hko. split.
  - pose proof (He c k Hc Hk). pose proof (Heo c ko ltac:(lia) Hko). lia.
  - apply (column_bytes rmo pcnt c ko); [done | lia | done].
Qed.

Lemma overlay_shape : same_shape (overlay rmo rm) rm.
Proof.
  exists (rm_col rm). split; [by destruct rm |]. split; [cbn; by rewrite length_imap |]. intros i k' Hk'.
  cbn [rm_col overlay set_cols] in Hk'. rewrite list_lookup_imap in Hk'. destruct (rm_col rm !! i) as [k |] eqn:Hk; [| done]. simpl in Hk'. injection Hk' as <-.
  exists k. split; [done |]. destruct (Z.ltb_spec (Z.of_nat i) cols) as [Hi | Hi]; [| done]. simpl.
  destruct (twin_bytes (Z.of_nat i) k) as (-> & _); [lia | by rewrite Nat2Z.id |]. split_and!; [done | done |]. intros _.
  apply (column_bytes rm pcnt (Z.of_nat i)); [done | lia | by rewrite Nat2Z.id].
Qed.

Lemma overlay_shape' : same_shape rm (overlay rmo rm).
Proof.
  eexists. split; [reflexivity |]. split; [by rewrite length_imap |]. intros i k Hk. rewrite list_lookup_imap, Hk. simpl. eexists. split; [done |].
  destruct (Z.ltb_spec (Z.of_nat i) cols) as [Hi | Hi]; [| done]. simpl.
  destruct (twin_bytes (Z.of_nat i) k) as (-> & Hb); [lia | by rewrite Nat2Z.id |]. done.
Qed.

Lemma overlay_stripe : stripe (overlay rmo rm) pcnt /\ exact (overlay rmo rm).
Proof. split; [eapply shape_stripe | eapply shape_exact]; try apply overlay_shape'; done. Qed.

Lemma overlay_lookup c : 0 <= c < cols -> exists k ko, rm_col (overlay rmo rm) !! Z.to_nat c = Some (with_data k (rc_data ko)) /\
  rm_col rmo !! Z.to_nat c = Some ko /\ rc_size ko = rc_size k.
Proof.
  intros Hc. destruct (ok_col _ _ c (st_ok _ _ Hst) Hc) as (k & Hk). destruct Htw as (_ & _ & Hcol). destruct (Hcol c k Hc Hk) as (ko & Hko & Es).
  exists k, ko. rewrite (overlay_col _ _ Hk), Z2Nat.id, (proj2 (Z.ltb_lt c _)) by lia. unfold col_bytes. by rewrite Hko.
Qed.

Lemma overlay_right : parity_right (overlay rmo rm) pcnt.
Proof.
  destruct Htw as (Ef & Ec & _). destruct (st_ok _ _ Hst). intros i k j Hi Hk Hj. cbn [rm_firstdatacol overlay set_cols] in Hi.
  destruct (overlay_lookup (Z.of_nat i)) as (k1 & ko & Hk1 & Hko & _); [lia |]. rewrite Nat2Z.id in Hk1, Hko. assert (k = with_data k1 (rc_data ko)) as -> by congruence.
  cbn [rc_data with_data]. rewrite (Hright i ko j) by (done || lia). unfold parity_byte, ndata. cbn [rm_firstdatacol rm_cols overlay set_cols]. rewrite Ef, Ec.
  apply hsum_ext. intros c Hc. destruct (overlay_lookup c) as (k2 & ko2 & Hk2 & Hko2 & Es2); [lia |]. unfold dbyte. rewrite Hk2, Hko2.
  unfold cbyte. cbn [rc_size rc_data with_data]. by rewrite Es2.
Qed.

Lemma overlay_data : io_buffer (overlay rmo rm) = io_buffer rmo.
Proof.
  destruct Htw as (Ef & Ec & _). pose proof (ok_len _ _ (st_ok _ _ Hsto)). pose proof (st_ok _ _ Hst) as [].
  unfold io_buffer. cbn [rm_firstdatacol rm_cols overlay set_cols]. rewrite <- Ef, <- Ec. f_equal. apply list_eq. intros i. rewrite !list_lookup_fmap.
  destruct (decide (i < Z.to_nat (cols - rm_firstdatacol rm))%nat) as [Hi | Hi]; [| by rewrite !lookup_take_ge by lia].
  rewrite !lookup_take_lt, !lookup_drop by done. destruct (overlay_lookup (rm_firstdatacol rm + Z.of_nat i)) as (k & ko & Hk & Hko & _); [lia |].
  cbn [rm_col overlay set_cols] in Hk |- *. replace (Z.to_nat (rm_firstdatacol rm) + i)%nat with (Z.to_nat (rm_firstdatacol rm + Z.of_nat i)) by lia.
  by rewrite Hk, Hko.
Qed.

(** The columns that are neither in [t] nor in error have the bytes written. *)
Definition intact_but (t : list Z) : Prop :=
  forall c, 0 <= c < cols -> c ∉ t -> col_error rm c = 0 -> col_bytes rm c = col_bytes rmo c.

Lemma overlay_damaged t : intact_but t -> damaged t (overlay rmo rm) rm.
Proof.
  intros Hi. split; [apply overlay_shape |]. intros i k' k Hk' Hk Hb. rewrite (overlay_col _ _ Hk) in Hk'. injection Hk' as <-.
  destruct (Z.ltb_spec (Z.of_nat i) cols) as [Hlt | Hge]; [| done]. cbn [rc_data with_data]. unfold is_bad in Hb. apply orb_false_iff in Hb as (Hb1 & Hb2).
  apply bool_decide_eq_false in Hb1. rewrite <- Hi; [| lia | done | lia]. unfold col_bytes. by rewrite Nat2Z.id, Hk.
Qed.

(** Rebuilding the damaged columns gives the data that were written. *)
Lemma rebuild_written t alloc general : intact_but t -> rm_cols rm <= 255 ->
  (forall m, 0 <= m -> Z.of_nat (length (alloc m)) = m /\ Forall is_byte (alloc m)) ->
  ascending t = true -> Forall (fun u => 0 <= u < cols) t ->
  (1 <= length (bads (is_bad rm t) (rm_firstdatacol rm) (cols - rm_firstdatacol rm)))%nat ->
  Z.of_nat (length (bads (is_bad rm t) 0 cols)) <= rm_firstdatacol rm ->
  runs (vdev_raidz_reconstruct alloc general rm t) (fun '(rm', _) => io_buffer rm' = io_buffer rmo).
Proof.
  intros Hi H255 Halloc Hasc Hr Hone Hfew. destruct overlay_stripe as (Hsov & Heov).
  assert (Hshape : rm_firstdatacol (overlay rmo rm) = rm_firstdatacol rm /\ rm_cols (overlay rmo rm) = rm_cols rm) by done.
  pose proof (ok_np _ _ (st_ok _ _ Hst)).
  eapply runs_impl; [apply (repair_spec (overlay rmo rm) rm pcnt t); try done |].
  - apply overlay_right.
  - by apply overlay_damaged.
  - intros c k Hc Hk. apply (Heov c k); [cbn in *; lia | done].
  - intros (rm', code) (E & _). rewrite <- overlay_data. unfold io_buffer at 1 2. unfold data_cols in E. congruence.
Qed.
End origin.
