(* ===== verification/RaidzPhases.v ===== *)
(** * The end of a RAID-Z read

    The counting of errors, the parts of [vdev_raidz_io_done] and its phases. *)
From S2P Require Import Prelude Bytes Words Fletcher FletcherSpec Blkptr ZioChecksum ZioChecksumSpec Gf256 Raidz.
From S2P Require Import RaidzSpec RaidzRec RaidzMap RaidzChoice RaidzStripe RaidzSolve RaidzIo RaidzComb RaidzCombSpec RaidzIoSpec.
From S2P Require Import RaidzHeal RaidzDone.
Local Open Scope Z_scope.

(** * The end of a RAID-Z read, step by step *)
(** ** Counting columns *)
Notation count f a n := (Z.of_nat (length (bads f a n))).

Lemma count_snoc f a n : 0 <= n -> count f a (n + 1) = count f a n + if f (a + n) then 1 else 0.
Proof. intros Hn. rewrite bads_snoc, length_app by done. destruct (f (a + n)); simpl; lia. Qed.

Lemma count_nonneg f a n : 0 <= count f a n.
Proof. lia. Qed.

Lemma count_below f fdc cols : 0 <= fdc <= cols -> count (fun c => f c && (c <? fdc)) 0 cols = count f 0 fdc.
Proof.
  intros Hc. do 2 f_equal. unfold bads. replace cols with (fdc + (cols - fdc)) by lia. rewrite seqZ_app, filter_app, Z.add_0_l by lia.
  rewrite (filter_drop _ (seqZ fdc _)), app_nil_r.
  - apply filter_same. intros x Hx. apply elem_of_seqZ in Hx. rewrite (proj2 (Z.ltb_lt x fdc)), andb_true_r by lia. done.
  - apply Forall_forall. intros x Hx. apply elem_of_seqZ in Hx. rewrite (proj2 (Z.ltb_ge x fdc)), andb_false_r by lia. done.
Qed.

Lemma count_above f fdc cols : 0 <= fdc <= cols -> count (fun c => f c && negb (c <? fdc)) 0 cols = count f fdc (cols - fdc).
Proof.
  intros Hc. do 2 f_equal. unfold bads. replace cols with (fdc + (cols - fdc)) at 1 by lia. rewrite seqZ_app, filter_app, Z.add_0_l by lia.
  rewrite (filter_drop _ (seqZ 0 _)); [cbn [app] |].
  - apply filter_same. intros x Hx. apply elem_of_seqZ in Hx. rewrite (proj2 (Z.ltb_ge x fdc)), andb_true_r by lia. done.
  - apply Forall_forall. intros x Hx. apply elem_of_seqZ in Hx. rewrite (proj2 (Z.ltb_lt x fdc)), andb_false_r by lia. done.
Qed.

Lemma count_app f a n m : 0 <= n -> 0 <= m -> count f a (n + m) = count f a n + count f (a + n) m.
Proof. intros Hn Hm. unfold bads. rewrite seqZ_app, filter_app, length_app by lia. lia. Qed.

Lemma count_split f fdc cols : 0 <= fdc <= cols -> count f 0 cols = count f 0 fdc + count f fdc (cols - fdc).
Proof. intros Hc. replace cols with (fdc + (cols - fdc)) at 1 by lia. by rewrite count_app by lia. Qed.

Lemma count_lt f a c n : f c = true -> a <= c < a + n -> count f a (c - a) < count f a n.
Proof.
  intros Hf Hc. replace n with ((c - a + 1) + (n - (c - a + 1))) by lia. rewrite count_app, count_snoc by lia.
  rewrite Zplus_minus, Hf. lia.
Qed.

Lemma count_le f g a n : 0 <= n -> (forall c, a <= c < a + n -> f c = true -> g c = true) -> count f a n <= count g a n.
Proof.
  intros Hn. revert f g. pattern n. apply natlike_ind; [done | | done]. clear n Hn. intros n Hn IH f g H. unfold Z.succ. rewrite !count_snoc by done.
  pose proof (IH f g ltac:(intros; apply H; [lia | done])). pose proof (H (a + n) ltac:(lia)) as Hl. destruct (f (a + n)); [rewrite Hl by done; lia |].
  destruct (g (a + n)); lia.
Qed.

Lemma count_zero f a n : count f a n = 0 -> forall c, a <= c < a + n -> f c = false.
Proof.
  intros E c Hc. destruct (f c) eqn:Ef; [| done]. assert (Hin : c ∈ bads f a n) by (by apply elem_bads).
  destruct (bads f a n); [by apply not_elem_of_nil in Hin | done].
Qed.

Lemma count_none f a n : (forall c, a <= c < a + n -> f c = false) -> count f a n = 0.
Proof.
  intros H. destruct (bads f a n) as [| x l] eqn:E; [done |]. assert (Hx : x ∈ bads f a n) by (rewrite E; by left).
  apply elem_bads in Hx as (Hf & Hx). rewrite H in Hf; [done | lia].
Qed.

Lemma count_ext f g a n : (forall c, a <= c < a + n -> f c = g c) -> count f a n = count g a n.
Proof.
  intros H. apply Z.le_antisymm; (destruct (Z.le_gt_cases 0 n); [apply count_le; [done |]; intros c Hc; by rewrite (H c Hc) |]); unfold bads; by rewrite !seqZ_nil by lia.
Qed.

Lemma count_union f g h a n : 0 <= n -> (forall c, a <= c < a + n -> f c = true -> g c = true -> False) ->
  (forall c, a <= c < a + n -> f c = true \/ g c = true -> h c = true) -> count f a n + count g a n <= count h a n.
Proof.
  intros Hn. pattern n. apply natlike_ind; [done | | done]. clear n Hn. intros n Hn IH Hd Hh. unfold Z.succ in *. rewrite !count_snoc by done.
  specialize (IH ltac:(intros c Hc; apply Hd; lia) ltac:(intros c Hc; apply Hh; lia)). specialize (Hd (a + n) ltac:(lia)). specialize (Hh (a + n) ltac:(lia)).
  destruct (f (a + n)), (g (a + n)); [by destruct Hd | rewrite Hh by (by left); lia | rewrite Hh by (by right); lia | destruct (h (a + n)); lia].
Qed.

Definition col_flag (f : raidz_col -> bool) (rm : raidz_map) (c : Z) : bool := match rm_col rm !! Z.to_nat c with Some k => f k | None => false end.
(** A column without error that was not read. *)
Definition untouched : raidz_map -> Z -> bool := col_flag (fun k => (rc_error k =? 0) && negb (rc_tried k)).
Definition unexpected : raidz_map -> Z -> bool := col_flag (fun k => negb (rc_error k =? 0) && negb (rc_skipped k)).

Lemma err_flag rm c k : rm_col rm !! Z.to_nat c = Some k -> err0 rm c = negb (rc_error k =? 0).
Proof. intros Hk. unfold err0, col_error. by rewrite Hk. Qed.

Lemma count_errors_spec rm pcnt : rz_ok rm pcnt -> (forall c, 0 <= c < rm_cols rm -> col_error rm c <> ECKSUM) ->
  runs (count_errors rm) (fun t =>
    unexpected_errors t = count (unexpected rm) 0 (rm_cols rm) /\
    parity_errors t = count (err0 rm) 0 (rm_firstdatacol rm) /\
    parity_untried t = count (untouched rm) 0 (rm_firstdatacol rm) /\
    data_errors t = count (err0 rm) (rm_firstdatacol rm) (rm_cols rm - rm_firstdatacol rm) /\
    total_errors t = count (err0 rm) 0 (rm_cols rm)).
Proof.
  intros Hok Hne. pose proof (ok_np _ _ Hok). pose proof (ok_cols _ _ Hok).
  eapply runs_impl; [apply (for_range_inv _ _ _ _ (fun c t => t = MkCounts (count (unexpected rm) 0 c)
    (count (fun x => err0 rm x && (x <? rm_firstdatacol rm)) 0 c) (count (fun x => untouched rm x && (x <? rm_firstdatacol rm)) 0 c)
    (count (fun x => err0 rm x && negb (x <? rm_firstdatacol rm)) 0 c) (count (err0 rm) 0 c))) |].
  - lia.
  - done.
  - intros c t Hc ->. destruct (ok_col _ _ c Hok) as (k & Hk); [lia |]. rewrite (get_col_Some _ _ k), bind_Ok by (done || lia).
    specialize (Hne c Hc). unfold col_error in Hne. rewrite Hk in Hne. rewrite !count_snoc by lia. rewrite Z.add_0_l, (err_flag _ _ _ Hk).
    unfold unexpected, untouched, col_flag. rewrite Hk. destruct (Z.eqb_spec (rc_error k) 0) as [E | E]; cbn [negb andb].
    + rewrite !Z.add_0_r. rewrite andb_comm. destruct (negb (rc_tried k) && (c <? rm_firstdatacol rm)); cbn [runs parity_untried unexpected_errors parity_errors data_errors total_errors];
        by rewrite ?Z.add_0_r.
    + rewrite VERIFY_pass by (by apply negb_true_iff, Z.eqb_neq). cbn [runs parity_untried unexpected_errors parity_errors data_errors total_errors].
      rewrite Z.add_0_r. destruct (rc_skipped k), (c <? rm_firstdatacol rm); cbn [negb]; by rewrite ?Z.add_0_r.
  - intros t ->. cbn [parity_untried unexpected_errors parity_errors data_errors total_errors]. rewrite !count_below, count_above by lia. done.
Qed.

(** Every column is in error, was read, or was not tried. *)
Lemma count_all rm n : 0 <= n <= Z.of_nat (length (rm_col rm)) -> count (err0 rm) 0 n + count (untouched rm) 0 n + count (col_read rm) 0 n = n.
Proof.
  intros (Hn & Hl). revert Hl. pattern n. apply natlike_ind; [done | | done]. clear n Hn. intros n Hn IH Hl. unfold Z.succ. rewrite !count_snoc by done.
  specialize (IH ltac:(lia)). rewrite Z.add_0_l. destruct (lookup_lt_is_Some_2 (rm_col rm) (Z.to_nat n)) as (k & Hk); [lia |].
  assert (Eu : untouched rm n = (rc_error k =? 0) && negb (rc_tried k)) by (unfold untouched, col_flag; by rewrite Hk).
  assert (Er : col_read rm n = negb (not_read k)) by (unfold col_read; by rewrite Hk).
  rewrite (err_flag _ _ _ Hk), Eu, Er. unfold not_read. destruct (rc_error k =? 0), (rc_tried k); cbn [negb andb orb]; lia.
Qed.

Lemma bad_data_columns_spec rm pcnt : rz_ok rm pcnt -> count (err0 rm) (rm_firstdatacol rm) (rm_cols rm - rm_firstdatacol rm) <= 3 ->
  bad_data_columns rm = Ok (bads (err0 rm) (rm_firstdatacol rm) (rm_cols rm - rm_firstdatacol rm)).
Proof.
  intros Hok H3. pose proof (ok_np _ _ Hok). pose proof (ok_cols _ _ Hok).
  assert (Hr : runs (bad_data_columns rm) (fun l => l = bads (err0 rm) (rm_firstdatacol rm) (rm_cols rm - rm_firstdatacol rm))).
  2:{ apply runs_Ok in Hr as (l & -> & ->). done. }
  unfold bad_data_columns. apply (for_range_inv _ _ _ _ (fun c l => l = bads (err0 rm) (rm_firstdatacol rm) (c - rm_firstdatacol rm))).
  - lia.
  - rewrite Z.sub_diag. done.
  - intros c l Hc ->. destruct (ok_col _ _ c Hok) as (k & Hk); [lia |]. rewrite (get_col_Some _ _ k), bind_Ok by (done || lia).
    replace (c + 1 - rm_firstdatacol rm) with (c - rm_firstdatacol rm + 1) by lia. rewrite bads_snoc by lia. rewrite Zplus_minus, (err_flag _ _ _ Hk).
    destruct (negb (rc_error k =? 0)) eqn:E; [| cbn [runs]; by rewrite app_nil_r]. rewrite VERIFY_pass; [done |].
    apply Z.ltb_lt. change VDEV_RAIDZ_MAXPARITY with 3. eapply Z.lt_le_trans; [| exact H3].
    apply count_lt; [| lia]. by rewrite (err_flag _ _ _ Hk), E.
Qed.

Lemma untried_spec rm pcnt : rz_ok rm pcnt -> untried rm = Ok (bads (col_flag (fun k => negb (rc_tried k)) rm) 0 (rm_cols rm)).
Proof.
  intros Hok. pose proof (ok_np _ _ Hok). pose proof (ok_cols _ _ Hok).
  assert (Hr : runs (untried rm) (fun l => l = bads (col_flag (fun k => negb (rc_tried k)) rm) 0 (rm_cols rm))).
  2:{ apply runs_Ok in Hr as (l & -> & ->). done. }
  unfold untried. apply (for_range_inv _ _ _ _ (fun c l => l = bads (col_flag (fun k => negb (rc_tried k)) rm) 0 c)); [lia | done |].
  intros c l Hc ->. destruct (ok_col _ _ c Hok) as (k & Hk); [lia |]. rewrite (get_col_Some _ _ k), bind_Ok by (done || lia). cbn [runs].
  rewrite bads_snoc by lia. rewrite Z.add_0_l. assert (E : col_flag (fun k => negb (rc_tried k)) rm c = negb (rc_tried k)) by (unfold col_flag; by rewrite Hk).
  rewrite E. destruct (rc_tried k); cbn [negb]; by rewrite ?app_nil_r.
Qed.

(** ** Errors of the I/O *)
Lemma rank_zero e : rank_of e zio_error_rank = 0%nat <-> e = 0.
Proof. unfold zio_error_rank, rank_of. destruct (Z.eqb_spec e 0); [done |]. split; [destruct (e =? ENXIO); done | done]. Qed.

Lemma worst_nonzero e1 e2 : e1 <> 0 \/ e2 <> 0 -> zio_worst_error e1 e2 <> 0.
Proof.
  intros H. unfold zio_worst_error. pose proof (rank_zero e1). pose proof (rank_zero e2).
  destruct (Nat.ltb_spec (rank_of e2 zio_error_rank) (rank_of e1 zio_error_rank)); [lia |]. intros ->.
  assert (rank_of 0 zio_error_rank = 0%nat) by done. lia.
Qed.

Lemma worst_error_spec rm pcnt : rz_ok rm pcnt -> 0 < count (err0 rm) 0 (rm_cols rm) -> runs (vdev_raidz_worst_error rm) (fun e => e <> 0).
Proof.
  intros Hok Hpos. pose proof (ok_np _ _ Hok). pose proof (ok_cols _ _ Hok).
  eapply runs_impl; [apply (for_range_inv _ _ _ _ (fun c e => 0 < count (err0 rm) 0 c -> e <> 0)) |]; [lia | simpl; lia | | intros e He; by apply He].
  intros c e Hc He. destruct (ok_col _ _ c Hok) as (k & Hk); [lia |]. rewrite (get_col_Some _ _ k), bind_Ok by (done || lia). cbn [runs].
  rewrite count_snoc by lia. rewrite Z.add_0_l, (err_flag _ _ _ Hk). intros Hlt. apply worst_nonzero.
  destruct (Z.eqb_spec (rc_error k) 0); cbn [negb] in Hlt; [left; apply He; lia | by right].
Qed.

Lemma start_reports_spec io pcnt : rz_ok (io_rm io) pcnt -> runs (start_reports io) (fun io' => same_but_map io io' /\ io_rm io' = io_rm io).
Proof.
  intros Hok. pose proof (ok_np _ _ Hok). pose proof (ok_cols _ _ Hok). unfold start_reports. destruct (io_speculative (io_zio io)); [by split_and! |].
  apply (for_range_inv _ _ _ _ (fun _ io' => same_but_map io io' /\ io_rm io' = io_rm io)); [lia | by split_and! |].
  intros c io' Hc (Hs & Er). rewrite Er. destruct (ok_col _ _ c Hok) as (k & Hk); [lia |]. rewrite (get_col_Some _ _ k), bind_Ok by (done || lia). cbn [runs].
  destruct (rc_error k =? 0); done.
Qed.

(** ** Maps with the same data *)
Lemma buffer_ext rm rm' : rm_firstdatacol rm' = rm_firstdatacol rm -> rm_cols rm' = rm_cols rm -> length (rm_col rm') = length (rm_col rm) ->
  0 <= rm_firstdatacol rm -> (forall c, rm_firstdatacol rm <= c < rm_cols rm -> col_bytes rm' c = col_bytes rm c) -> io_buffer rm' = io_buffer rm.
Proof.
  intros Ef Ec El H0 H. unfold io_buffer. rewrite Ef, Ec. f_equal. apply list_eq. intros i. rewrite !list_lookup_fmap.
  destruct (decide (i < Z.to_nat (rm_cols rm - rm_firstdatacol rm))%nat) as [Hi | Hi]; [| by rewrite !lookup_take_ge by lia].
  rewrite !lookup_take_lt, !lookup_drop by done. specialize (H (rm_firstdatacol rm + Z.of_nat i) ltac:(lia)). unfold col_bytes in H.
  replace (Z.to_nat (rm_firstdatacol rm + Z.of_nat i)) with (Z.to_nat (rm_firstdatacol rm) + i)%nat in H by lia.
  destruct (rm_col rm !! _) eqn:E, (rm_col rm' !! _) eqn:E'; simpl; [by rewrite H | | | done].
  - apply lookup_ge_None in E'. apply lookup_lt_Some in E. lia.
  - apply lookup_ge_None in E. apply lookup_lt_Some in E'. lia.
Qed.

(** [rm'] is [rm] but for the error codes. *)
Definition same_bytes (rm rm' : raidz_map) : Prop :=
  exists l, rm' = set_cols rm l /\ forall i, exists f : raidz_col -> Z, l !! i = (fun k => with_error k (f k)) <$> rm_col rm !! i.

Lemma same_bytes_shape rm rm' : same_bytes rm rm' -> same_shape rm rm'.
Proof.
  intros (l & -> & Hl). exists l. split; [done |]. split.
  - apply Nat.le_antisymm; apply Nat.nlt_ge; intros H; apply lookup_lt_is_Some_2 in H as (x & H).
    + destruct (Hl (length (rm_col rm))) as (f & E). by rewrite H, lookup_ge_None_2 in E by lia.
    + destruct (Hl (length l)) as (f & E). by rewrite H, lookup_ge_None_2 in E by lia.
  - intros c k Hk. destruct (Hl c) as (f & E). rewrite Hk in E. by eexists.
Qed.

Lemma same_bytes_buffer rm rm' : same_bytes rm rm' -> io_buffer rm' = io_buffer rm.
Proof.
  intros Hs. unfold io_buffer. destruct Hs as (l & -> & Hl). cbn [rm_cols rm_firstdatacol rm_col set_cols]. f_equal. apply list_eq. intros i.
  rewrite !list_lookup_fmap. destruct (decide (i < Z.to_nat (rm_cols rm - rm_firstdatacol rm))%nat) as [Hi | Hi]; [| by rewrite !lookup_take_ge by lia].
  rewrite !lookup_take_lt, !lookup_drop by done. destruct (Hl (Z.to_nat (rm_firstdatacol rm) + i)%nat) as (f & ->). by destruct (rm_col rm !! _).
Qed.

Lemma with_error_id k : with_error k (rc_error k) = k.
Proof. by destruct k. Qed.

Lemma marked_bytes rm rm1 c rm' : marked rm rm1 c rm' -> same_bytes rm1 rm'.
Proof.
  intros (l & -> & Hl). exists l. split; [done |]. intros i.
  exists (fun k => if (Z.of_nat i <? c) && differs rm rm1 (Z.of_nat i) then ECKSUM else rc_error k). rewrite Hl.
  destruct (rm_col rm1 !! i); [| done]. simpl. destruct (_ && _); by rewrite ?with_error_id.
Qed.

Lemma upd_all_bytes t rm rm' : upd_all in_error t rm rm' -> same_bytes rm rm'.
Proof.
  intros (l & -> & Hl). exists l. split; [done |]. intros i.
  exists (fun k => if bool_decide (Z.of_nat i ∈ t) then ECKSUM else rc_error k). rewrite Hl.
  destruct (rm_col rm !! i); [| done]. simpl. destruct (bool_decide _); by rewrite ?with_error_id.
Qed.

Lemma regenerated_buffer rm rm1 : same_shape rm rm1 -> 0 <= rm_firstdatacol rm -> regenerated rm rm1 -> io_buffer rm1 = io_buffer rm.
Proof.
  intros Hs H0 Hr. destruct Hs as (l0 & E & Hl0 & _). apply buffer_ext; [by subst | by subst | by subst | done |].
  intros c Hc. destruct Hr as (l & -> & Hl). unfold col_bytes. cbn [rm_col set_cols].
  destruct (rm_col rm !! Z.to_nat c) as [k |] eqn:Ek.
  - destruct (Hl _ _ Ek) as (d & -> & Hd). cbn [rc_data with_data]. apply Hd. lia.
  - assert (l = l0) as -> by (injection E; done). apply lookup_ge_None in Ek. by rewrite lookup_ge_None_2 by lia.
Qed.

Lemma shape_trans a b c : same_shape a b -> same_shape b c -> same_shape a c.
Proof.
  intros (l & -> & Hl & H1) (l' & -> & Hl' & H2). cbn [rm_col set_cols] in *. exists l'. split; [done |]. split; [congruence |].
  intros i k Hk. destruct (H1 _ _ Hk) as (k1 & E1 & ? & ? & ?). destruct (H2 _ _ E1) as (k2 & E2 & ? & ? & ?). exists k2. split_and!; [done | congruence | congruence | auto].
Qed.

(** * The phases of the end of a RAID-Z read

    What [vdev_raidz_io_done] does on a read, whatever the children returned:
    it fails no assertion, an I/O that ends without an error has data with the
    right checksum, and an I/O whose damage the parity covers ends without an
    error. *)
(** The state of a read when its children have ended. *)
Record ready (pcnt : Z) (io : raidz_io) : Prop := {
  rd_stripe : stripe (io_rm io) pcnt;
  rd_exact : exact (io_rm io);
  rd_255 : rm_cols (io_rm io) <= 255;
  rd_readable : readable (io_zio io);
  rd_size : length (io_data (io_zio io)) = length (io_buffer (io_rm io));
  rd_corrected : length (raidz_corrected io) = 8%nat;
  rd_errors : forall c, 0 <= c < rm_cols (io_rm io) -> col_error (io_rm io) c <> ECKSUM;
  rd_parity : count (untouched (io_rm io)) 0 (rm_firstdatacol (io_rm io)) = 0 \/ count (col_read (io_rm io)) 0 (rm_firstdatacol (io_rm io)) = 0
}.

Section phases.
Context (cx : raidz_ctx) (pcnt : Z) (Halloc : forall m, 0 <= m -> Z.of_nat (length (rx_alloc cx m)) = m /\ Forall is_byte (rx_alloc cx m)).
Context (io0 : raidz_io) (Hrd : ready pcnt io0).
Notation rm0 := (io_rm io0).
Notation fdc := (rm_firstdatacol (io_rm io0)).
Notation cols := (rm_cols (io_rm io0)).
Notation V := (verdict (rx_host cx) (io_env io0) (io_zio io0)).
Notation total := (count (err0 (io_rm io0)) 0 (rm_cols (io_rm io0))).
Notation ndata := (count (err0 (io_rm io0)) (rm_firstdatacol (io_rm io0)) (rm_cols (io_rm io0) - rm_firstdatacol (io_rm io0))).
Notation nparity := (count (err0 (io_rm io0)) 0 (rm_firstdatacol (io_rm io0))).
Notation nuntried := (count (untouched (io_rm io0)) 0 (rm_firstdatacol (io_rm io0))).
Notation kept := (kept (io_rm io0)).
Notation trying := (trying (io_rm io0) (io_zio io0) (io_env io0)).

(** The data have the right checksum. *)
Definition settled (io : raidz_io) : Prop :=
  io_zio io = io_zio io0 /\ (exists e, io_env io = set_errs (io_env io0) e) /\ same_shape rm0 (io_rm io) /\ V (io_buffer (io_rm io)) = 0.

Lemma params : 1 <= fdc <= 3 /\ fdc < cols /\ cols <= Z.of_nat (length (rm_col rm0)).
Proof. destruct (st_ok _ _ (rd_stripe _ _ Hrd)). done. Qed.

Lemma errors_split : total = nparity + ndata.
Proof. pose proof params. apply count_split. lia. Qed.

Lemma errs_same env : exists e, env = set_errs env e.
Proof. exists (zio_checksum_errs env). by destruct env. Qed.

Lemma errs_trans env e1 e2 : set_errs (set_errs env e1) e2 = set_errs env e2.
Proof. done. Qed.

Lemma trying_start : trying io0.
Proof. split_and!; [done | apply kept_start | apply errs_same | apply Hrd]. Qed.

(** A state whose map has the shape of the first one can be checked. *)
Lemma verify_any io : io_zio io = io_zio io0 -> (exists e, io_env io = set_errs (io_env io0) e) -> same_shape rm0 (io_rm io) ->
  runs (raidz_checksum_verify cx io) (fun '(io', ret) => same_io io io' /\ ret = V (io_buffer (io_rm io)) /\ exists e, io_env io' = set_errs (io_env io0) e).
Proof.
  intros Ez (e & Ee) Hs. pose proof (shape_stripe _ _ _ Hs (rd_stripe _ _ Hrd)) as Hst. pose proof (shape_exact _ _ Hs (rd_exact _ _ Hrd)) as He.
  eapply runs_impl; [apply (checksum_verify_spec cx io pcnt (st_ok _ _ Hst) He) |].
  - rewrite Ez. apply Hrd.
  - rewrite Ez, (shape_buffer _ _ _ (st_ok _ _ (rd_stripe _ _ Hrd)) Hs). apply Hrd.
  - intros (io', ret) (Hsame & ->). split; [done |]. rewrite Ee, Ez, verdict_errs. split; [done |].
    destruct Hsame as (_ & _ & _ & _ & _ & e' & E'). exists e'. by rewrite E', Ee.
Qed.

(** Checking the parity leaves the data alone. *)
Lemma parity_any io : settled io -> runs (raidz_parity_verify cx io) (fun '(io', ret) => settled io' /\ 0 <= ret <= count (col_read (io_rm io)) 0 fdc).
Proof.
  intros (Ez & He & Hs & Hv). pose proof params. assert (Ef : rm_firstdatacol (io_rm io) = fdc) by (by destruct Hs as (l & -> & _)).
  eapply runs_impl; [apply (parity_verify_spec cx pcnt Halloc io); [by eapply shape_stripe, Hrd | by eapply shape_exact, Hrd] |].
  intros (io', ret) ((E1 & E2 & _) & rm1 & Hst1 & Hs1 & Hp & Hreg & Hm & ->).
  assert (Ef1 : rm_firstdatacol rm1 = fdc) by (destruct Hs1 as (l & -> & _); done). pose proof (marked_bytes _ _ _ _ Hm) as Hb. split; [split_and! |].
  - congruence.
  - by rewrite E2.
  - eapply shape_trans; [exact Hs |]. eapply shape_trans; [exact Hs1 |]. by apply same_bytes_shape.
  - rewrite (same_bytes_buffer _ _ Hb), (regenerated_buffer _ _ Hs1); [done | lia | done].
  - split; [lia |]. rewrite Ef1. apply count_le; [lia |]. intros c _ Hd. unfold differs in Hd. by apply andb_true_iff in Hd as (? & _).
Qed.

(** The errors counted at the start. *)
Definition tally (t : err_counts) : Prop :=
  parity_errors t = nparity /\ parity_untried t = nuntried /\ data_errors t = ndata /\ total_errors t = total.

Lemma kept_read rm c : kept rm -> col_read rm c = col_read rm0 c.
Proof.
  intros Hk. unfold col_read. destruct (rm_col rm !! Z.to_nat c) as [k |] eqn:E.
  - destruct (kept_col _ _ _ _ Hk E) as (k0 & -> & -> & _). done.
  - destruct Hk as (l & -> & Hl & _). cbn [rm_col set_cols] in E. apply lookup_ge_None in E. by rewrite lookup_ge_None_2 by lia.
Qed.

Lemma kept_shape rm : kept rm -> same_shape rm0 rm.
Proof. apply rebuilt_shape. Qed.

Lemma check_parity_spec io t : settled io -> kept (io_rm io) -> tally t ->
  runs (check_parity cx io t) (fun '(io', u) => settled io' /\ u <> None).
Proof.
  intros Hse Hk (Tp & _). pose proof params. unfold check_parity. eapply runs_bind; [by apply parity_any |]. intros (io', n) (Hse' & Hn).
  assert (Ef : rm_firstdatacol (io_rm io') = fdc) by (destruct Hse' as (_ & _ & (l & -> & _) & _); done).
  assert (Er : count (col_read (io_rm io)) 0 fdc <= count (col_read rm0) 0 fdc) by (apply count_le; [lia |]; intros c _ Hc; by rewrite <- (kept_read (io_rm io))).
  pose proof (count_all rm0 fdc ltac:(lia)). rewrite VERIFY_pass by (rewrite Ef; lia). done.
Qed.

(** No original with the right checksum has its bytes in all columns without
    error. *)
Definition written (rmo : raidz_map) : Prop :=
  stripe rmo pcnt /\ exact rmo /\ parity_right rmo pcnt /\ twin rmo rm0 /\ V (io_buffer rmo) = 0.

Definition first_failed : Prop :=
  (ndata = 0 -> V (io_buffer rm0) <> 0) /\ (ndata <> 0 -> forall rmo, written rmo -> ~ intact_but rmo rm0 []).

Lemma is_bad_errors c : is_bad rm0 (bads (err0 rm0) fdc (cols - fdc)) c = err0 rm0 c.
Proof.
  unfold is_bad. change (negb (col_error rm0 c =? 0)) with (err0 rm0 c). case_bool_decide as Hin; [| done]. by apply elem_bads in Hin as (-> & _).
Qed.

Lemma bads_ext f g a n : (forall c, f c = g c) -> bads f a n = bads g a n.
Proof. intros H. apply filter_same. intros x _. by rewrite H. Qed.

Lemma rebuild_errors general : ndata <> 0 -> total <= fdc ->
  runs (vdev_raidz_reconstruct (rx_alloc cx) general rm0 (bads (err0 rm0) fdc (cols - fdc))) (fun '(rm', code) =>
    kept rm' /\ 0 < code < 8 /\ forall rmo, written rmo -> intact_but rmo rm0 [] -> io_buffer rm' = io_buffer rmo).
Proof.
  intros Hd Ht. pose proof params. set (t := bads (err0 rm0) fdc (cols - fdc)).
  assert (Hasc : ascending t = true) by apply rising_ascending, rising_filter, rising_seqZ.
  assert (Hr : Forall (fun u => 0 <= u < cols) t) by (apply Forall_forall; intros x Hx; apply elem_bads in Hx; lia).
  assert (Eb : forall a n, bads (is_bad rm0 t) a n = bads (err0 rm0) a n) by (intros; apply bads_ext, is_bad_errors).
  assert (Hone : (1 <= length (bads (is_bad rm0 t) fdc (cols - fdc)))%nat) by (rewrite Eb; lia).
  assert (Hfew : Z.of_nat (length (bads (is_bad rm0 t) 0 cols)) <= fdc) by (by rewrite Eb).
  pose proof (reconstruct_any rm0 pcnt (rd_stripe _ _ Hrd) (rd_255 _ _ Hrd) t (rx_alloc cx) Halloc Hasc Hr Hone Hfew general) as Hany.
  apply runs_Ok in Hany as ((rm', code) & E & Hb & _ & Hc). rewrite E. cbn [runs]. split; [| split; [done |]].
  - destruct Hb as (l & -> & Hl & Hcol). exists l. split; [done |]. split; [done |]. intros c k Hk. specialize (Hcol c k Hk). by rewrite Eb in Hcol.
  - intros rmo (Hsto & Heo & Hright & Htw & _) Hi.
    assert (Hit : intact_but rmo rm0 t).
    { intros c Hcc _ He. apply Hi; [done | apply not_elem_of_nil | done]. }
    pose proof (rebuild_written rmo rm0 pcnt Hsto Heo Hright Htw (rd_stripe _ _ Hrd) (rd_exact _ _ Hrd) t (rx_alloc cx) general Hit (rd_255 _ _ Hrd) Halloc Hasc Hr Hone Hfew) as Hw.
    by rewrite E in Hw.
Qed.

(** The first phase ends at [done] with the right checksum, or the I/O is as it
    was but for the data columns in error. *)
Lemma first_phase_spec t : tally t -> runs (first_phase cx io0 t) (fun '(io, u) =>
  match u with
  | Some _ => settled io
  | None => trying io /\ (total <= fdc - nuntried -> first_failed)
  end).
Proof.
  intros Ht. pose proof Ht as (Tp & Tu & Td & Tt). pose proof params. pose proof errors_split. unfold first_phase. rewrite Tt, Tu, Td.
  destruct (Z.leb_spec total (fdc - nuntried)) as [Hle | Hgt]; [| cbn [runs]; split; [apply trying_start | lia]].
  destruct (Z.eqb_spec ndata 0) as [Hd | Hd].
  - eapply runs_bind; [apply (verify_any io0); [done | apply errs_same | apply kept_shape, kept_start] |].
    intros (io1, ret) ((S1 & S2 & S3 & S4 & S5 & S6) & Hret & Henv). destruct (Z.eqb_spec ret 0) as [E | E].
    + assert (Hse : settled io1) by (split_and!; [done | done | rewrite S2; apply kept_shape, kept_start | by rewrite S2, <- Hret]).
      rewrite Tp. destruct (_ || _); [| done]. eapply runs_impl; [apply check_parity_spec; [done | rewrite S2; apply kept_start | done] |].
      intros (io2, [u |]) (Hse2 & Hu); done.
    + split; [split_and!; [done | rewrite S2; apply kept_start | done | rewrite S3; apply Hrd] |]. intros _. split; [congruence | done].
  - pose proof (count_all rm0 fdc ltac:(lia)) as Hall. pose proof (count_nonneg (col_read rm0) 0 fdc).
    pose proof (rd_parity _ _ Hrd) as Hpar. rewrite !VERIFY_pass by lia. rewrite (bad_data_columns_spec _ _ (st_ok _ _ (rd_stripe _ _ Hrd))), bind_Ok by lia.
    rewrite VERIFY_pass by lia. eapply runs_bind; [apply rebuild_errors; [done | lia] |]. intros (rm', code) (Hk & Hc & Horig).
    eapply runs_bind; [apply (verify_any (set_rm io0 rm')); [done | apply errs_same | by apply kept_shape] |].
    intros (io1, ret) ((S1 & S2 & S3 & S4 & S5 & S6) & Hret & Henv). cbn [io_rm io_zio raidz_corrected set_rm] in *. destruct (Z.eqb_spec ret 0) as [E | E].
    + eapply runs_bind; [apply (count_spec io1 code); [rewrite S3; apply Hrd | done] |]. intros io2 ((C1 & C2 & C3 & _) & _).
      assert (Hse : settled io2) by (split_and!; [congruence | by rewrite C3 | rewrite C2, S2; by apply kept_shape | rewrite C2, S2; congruence]).
      destruct (_ || _); [| done]. eapply runs_impl; [apply check_parity_spec; [done | by rewrite C2, S2 | done] |].
      intros (io3, [u |]) (Hse3 & Hu); done.
    + split; [split_and!; [done | by rewrite S2 | done | rewrite S3; apply Hrd] |]. intros _. split; [done |]. intros _ rmo Hw Hi.
      apply E. rewrite Hret, (Horig rmo Hw Hi). apply Hw.
Qed.

(** ** The last phase *)
Notation attempt := (attempt (io_rm io0) total ndata).
Notation wins := (wins cx (io_rm io0) (io_zio io0) (io_env io0)).

Lemma succeeded_settled corrected io code : succeeded cx rm0 (io_zio io0) (io_env io0) total ndata corrected io code -> settled io /\ code <> 0.
Proof.
  intros (t & rm & rm' & Ht & Hk & Hr & _ & Hc & Hv & Hu & Ez & Henv & _). pose proof (upd_all_bytes _ _ _ Hu) as Hb. split; [| lia].
  split; [done |]. split; [done |]. split; [| by rewrite (same_bytes_buffer _ _ Hb)].
  eapply shape_trans; [by apply kept_shape |]. eapply shape_trans; [by eapply rebuilt_shape |]. by apply same_bytes_shape.
Qed.

(** The I/O has failed. *)
Definition failed (io : raidz_io) : Prop := io_error (io_zio io) <> 0 /\ (total <= fdc -> forall s, attempt s -> ~ wins s).

Lemma report_failure io : trying io -> (total <= fdc -> forall s, attempt s -> ~ wins s) ->
  runs (start_reports (set_error io ECKSUM)) failed.
Proof.
  intros (_ & Hk & _) Hw. eapply runs_impl; [apply (start_reports_spec _ pcnt) |].
  - cbn [io_rm set_error]. apply (shape_stripe _ _ _ (kept_shape _ Hk)), Hrd.
  - intros io' ((E1 & _) & _). split; [by rewrite E1 | done].
Qed.

Lemma last_phase_spec io t : trying io -> tally t -> runs (last_phase cx io t) (fun io' => settled io' \/ failed io').
Proof.
  intros Hio (_ & _ & Td & Tt). pose proof Hio as (Ez & Hk & _). destruct (kept_params _ _ Hk) as (Ef & Ec & _). pose proof params.
  unfold last_phase. rewrite Ef, Td, Tt. destruct (Z.ltb_spec fdc total) as [Hgt | Hle].
  - eapply runs_bind; [apply (worst_error_spec _ pcnt) |].
    + apply (shape_stripe _ _ _ (kept_shape _ Hk)), Hrd.
    + rewrite Ec. eapply Z.lt_le_trans; [| apply (count_le (err0 rm0)); [lia |]]; [lia |]. intros c _ Hc. unfold err0 in *. by rewrite (kept_error rm0) by done.
    + intros e He. right. split; [done | lia].
  - destruct (Z.ltb_spec total fdc) as [Hlt | Hge].
    + eapply runs_bind; [apply (combrec_spec cx pcnt Halloc rm0 (io_zio io0) (io_env io0)); try done; apply Hrd |].
      intros (io', code) [Hsu | (-> & Hio' & _ & Hw)].
      * destruct (succeeded_settled _ _ _ Hsu) as (Hse & Hc). rewrite (proj2 (Z.eqb_neq code 0)) by done. cbn [negb].
        destruct (negb _); [| by left]. eapply runs_bind; [by apply parity_any |]. intros (io2, n) (Hse2 & _). by left.
      * cbn [Z.eqb negb]. eapply runs_impl; [by apply report_failure | by right].
    + rewrite bind_Ok. cbn [Z.eqb negb]. eapply runs_impl; [apply report_failure; [done |] | by right].
      intros _ s (_ & _ & H1 & H2). lia.
Qed.

(** ** The end *)
Definition repairs_of (io : raidz_io) : list (Z * list Z) :=
  map (fun c => (c, col_bytes (io_rm io) c)) (bads (err0 (io_rm io)) 0 (rm_cols (io_rm io))).

Lemma repairs_spec io : rz_ok (io_rm io) pcnt ->
  for_range 0 (rm_cols (io_rm io)) (fun c repairs =>
    rc ← get_col (io_rm io) c ;
    Ok (if rc_error rc =? 0 then repairs else repairs ++ [(c, rc_data rc)])) [] = Ok (repairs_of io).
Proof.
  intros Hok. pose proof (ok_np _ _ Hok). pose proof (ok_cols _ _ Hok). set (rm := io_rm io) in *.
  match goal with |- ?m = _ => assert (Hr : runs m (fun l => l = repairs_of io)) end.
  2:{ apply runs_Ok in Hr as (l & -> & ->). done. }
  unfold repairs_of. fold rm.
  apply (for_range_inv _ _ _ _ (fun c l => l = map (fun c => (c, col_bytes rm c)) (bads (err0 rm) 0 c))); [lia | done |].
  intros c l Hc ->. destruct (ok_col _ _ c Hok) as (k & Hk); [lia |]. rewrite (get_col_Some _ _ k), bind_Ok by (done || lia). cbn [runs].
  rewrite bads_snoc, map_app by lia. rewrite Z.add_0_l, (err_flag _ _ _ Hk). unfold col_bytes at 4. destruct (rc_error k =? 0); simpl; [by rewrite app_nil_r |].
  by rewrite Hk.
Qed.

Lemma done_settled io u : settled io -> io_error (io_zio io0) = 0 -> runs (done_phase cx io u) (fun o =>
  exists io' l, o = Finished io' l /\ settled io' /\ io_rm io' = io_rm io /\ io_verified io' = true /\ (l = [] \/ l = repairs_of io')).
Proof.
  intros (Ez & He & Hs & Hv) E0. unfold done_phase. cbv zeta.
  destruct (_ && _ && _); [| cbn [runs]; eexists _, []; split; [done |]; split_and!; [by split_and! | done | done | by left]].
  eapply runs_bind; [apply (verify_any (zio_checksum_verified io)); done |]. intros (io', n) ((S1 & S2 & S3 & S4 & S5 & S6) & -> & Henv).
  cbn [io_rm io_zio io_verified zio_checksum_verified] in *. rewrite Hv. cbn [Z.eqb negb].
  rewrite repairs_spec by (rewrite S2; eapply shape_stripe; [exact Hs | apply Hrd]). rewrite bind_Ok. cbn [runs]. exists io', (repairs_of io').
  split; [done |]. split_and!; [split_and!; [congruence | done | congruence | congruence] | done | done | by right].
Qed.

Lemma done_failed io u : io_error (io_zio io) <> 0 -> done_phase cx io u = Ok (Finished (zio_checksum_verified io) []).
Proof. intros E. unfold done_phase. cbv zeta. cbn [io_zio zio_checksum_verified]. by rewrite (proj2 (Z.eqb_neq _ 0)). Qed.

(** ** Damage that the parity covers *)
(** Columns without error whose bytes are not those written. *)
Definition silent (rmo : raidz_map) (c : Z) : bool := negb (err0 rm0 c) && negb (bool_decide (col_bytes rm0 c = col_bytes rmo c)).
Definition healable : Prop := exists rmo, written rmo /\ total + count (silent rmo) 0 cols <= fdc.

Lemma kept_col_bytes rm c : kept rm -> err0 rm0 c = false -> col_bytes rm c = col_bytes rm0 c.
Proof.
  intros Hk He. unfold col_bytes. destruct (rm_col rm !! Z.to_nat c) as [k |] eqn:E.
  - destruct (kept_col _ _ _ _ Hk E) as (k0 & -> & _ & Hd). apply Hd. rewrite elem_bads. intros (Hb & Hr). pose proof params.
    rewrite Z2Nat.id in Hb by lia. congruence.
  - destruct Hk as (l & -> & Hl & _). cbn [rm_col set_cols] in E. apply lookup_ge_None in E. by rewrite lookup_ge_None_2 by lia.
Qed.

Lemma silent_wins rmo : written rmo -> attempt (bads (silent rmo) 0 cols) -> wins (bads (silent rmo) 0 cols).
Proof.
  intros (Hsto & Heo & Hright & Htw & Hv) Ht rm Hk. set (t := bads (silent rmo) 0 cols) in *. pose proof params.
  destruct (kept_params _ _ Hk) as (Ef & Ec & _). pose proof (kept_shape _ Hk) as Hs.
  destruct (attempt_bads pcnt rm0 (io_zio io0) (rd_stripe _ _ Hrd) (rd_size _ _ Hrd) total ndata eq_refl eq_refl rm t Hk Ht) as (Hone & Hfew).
  eapply runs_impl; [apply (rebuild_written rmo rm pcnt Hsto Heo Hright (twin_shape _ _ _ Htw Hs) (shape_stripe _ _ _ Hs (rd_stripe _ _ Hrd))
    (shape_exact _ _ Hs (rd_exact _ _ Hrd)) t); rewrite ?Ef, ?Ec; try done |].
  - intros c Hc Hn E. rewrite Ec in Hc. rewrite (kept_error rm0) in E by done. assert (He : err0 rm0 c = false) by (unfold err0; by rewrite E).
    rewrite kept_col_bytes by done. destruct (bool_decide_reflect (col_bytes rm0 c = col_bytes rmo c)) as [| Hne]; [done |].
    destruct Hn. apply elem_bads. unfold silent. rewrite He, bool_decide_eq_false_2 by done. split; [done | lia].
  - apply Hrd.
  - apply rising_ascending, rising_filter, rising_seqZ.
  - apply Forall_forall. intros x Hx. apply elem_bads in Hx. lia.
  - intros (rm', code) E. by rewrite E.
Qed.

Lemma twin_buffer rmo : stripe rmo pcnt -> twin rmo rm0 -> (forall c, fdc <= c < cols -> col_bytes rm0 c = col_bytes rmo c) -> io_buffer rm0 = io_buffer rmo.
Proof.
  intros Hsto (Ef & Ec & _) Hc. pose proof params. pose proof (ok_len _ _ (st_ok _ _ Hsto)). unfold io_buffer. rewrite <- Ef, <- Ec. f_equal. apply list_eq. intros i.
  rewrite !list_lookup_fmap. destruct (decide (i < Z.to_nat (cols - fdc))%nat) as [Hi | Hi]; [| by rewrite !lookup_take_ge by lia].
  rewrite !lookup_take_lt, !lookup_drop by done. specialize (Hc (fdc + Z.of_nat i) ltac:(lia)). unfold col_bytes in Hc.
  replace (Z.to_nat (fdc + Z.of_nat i)) with (Z.to_nat fdc + i)%nat in Hc by lia.
  destruct (lookup_lt_is_Some_2 (rm_col rm0) (Z.to_nat fdc + i)) as (k & Hk); [lia |].
  destruct (lookup_lt_is_Some_2 (rm_col rmo) (Z.to_nat fdc + i)) as (k' & Hk'); [lia |]. rewrite Hk, Hk' in *. simpl. by rewrite Hc.
Qed.

(** When everything has failed, more columns are damaged than the parity
    covers. *)
Lemma not_healable io : nuntried = 0 -> (total <= fdc - nuntried -> first_failed) -> failed io -> ~ healable.
Proof.
  intros Hu Hfirst (_ & Hlose) (rmo & Hw & Hfew). pose proof params. pose proof (count_nonneg (silent rmo) 0 cols).
  destruct (Hfirst ltac:(lia)) as (F1 & F2). specialize (Hlose ltac:(lia)). set (t := bads (silent rmo) 0 cols) in *.
  pose proof Hw as (Hsto & Heo & Hright & Htw & Hv).
  assert (Hint : forall c, 0 <= c < cols -> c ∉ t -> err0 rm0 c = false -> col_bytes rm0 c = col_bytes rmo c).
  { intros c Hc Hn He. destruct (bool_decide_reflect (col_bytes rm0 c = col_bytes rmo c)) as [| Hne]; [done |]. destruct Hn. apply elem_bads.
    unfold silent. rewrite He, bool_decide_eq_false_2 by done. split; [done | lia]. }
  assert (Hdata : ndata = 0 -> (forall c, c ∈ t -> c < fdc) -> False).
  { intros Hd Hlow. apply (F1 Hd). rewrite <- Hv. f_equal. apply twin_buffer; [done | done |]. intros c Hc. apply Hint; [lia | |].
    - intros Hin. specialize (Hlow c Hin). lia.
    - apply (count_zero _ _ _ Hd). lia. }
  destruct (decide (t = [])) as [Et | Hne].
  - destruct (Z.eq_dec ndata 0) as [Hd | Hd]; [apply Hdata; [done |]; rewrite Et; intros c Hc; by apply not_elem_of_nil in Hc |].
    apply (F2 Hd rmo Hw). intros c Hc _ He. apply Hint; [done | rewrite Et; apply not_elem_of_nil | unfold err0; by rewrite He].
  - assert (Hr : rising t) by apply rising_filter, rising_seqZ.
    assert (Hat : attempt t); [| by apply (Hlose t Hat), silent_wins]. split; [split; [done |] |].
    + apply Forall_forall. intros x Hx. apply elem_bads in Hx as (Hx & Hxr). unfold silent in Hx. apply andb_true_iff in Hx as (Hx & _).
      split; [lia |]. unfold err0 in Hx. rewrite negb_involutive in Hx. lia.
    + split; [| split; [| lia]].
      * intros Hd. destruct (Z.le_gt_cases fdc (top t)) as [| Hgt]; [done |]. exfalso. apply Hdata; [done |]. intros c Hc. pose proof (top_max t c Hr Hc). lia.
      * destruct (length t) eqn:El; [by apply nil_length_inv in El | lia].
Qed.

(** ** [vdev_raidz_io_done] on a read *)
Definition not_tried : raidz_map -> Z -> bool := col_flag (fun k => negb (rc_tried k)).

(** The data that are returned have the right checksum. *)
Definition accepted (io : raidz_io) : Prop :=
  io_zio io = io_zio io0 /\ V (io_buffer (io_rm io)) = 0 /\ length (io_buffer (io_rm io)) = length (io_buffer rm0).

Definition read_done (o : outcome_t) : Prop :=
  match o with
  | Finished io l => io_verified io = true /\
      (io_error (io_zio io) = 0 /\ accepted io /\ (l = [] \/ l = repairs_of io) \/ io_error (io_zio io) <> 0 /\ l = [] /\
        bads (not_tried rm0) 0 cols = [] /\ ~ healable)
  | Redo io l => exists rm, kept rm /\ io_rm io = set_missing rm 0 0 /\ io_zio io = io_zio io0 /\ (exists e, io_env io = set_errs (io_env io0) e) /\
      length (raidz_corrected io) = 8%nat /\ l = bads (not_tried rm0) 0 cols /\ l <> []
  | Aggregated => False
  end.

Lemma settled_done io u : settled io -> io_error (io_zio io0) = 0 ->
  runs (done_phase cx io u) (fun o => exists io' l, o = Finished io' l /\ io_verified io' = true /\ io_error (io_zio io') = 0 /\ accepted io' /\
    (l = [] \/ l = repairs_of io')).
Proof.
  intros Hse He. eapply runs_impl; [by apply done_settled |]. intros o (io' & l & -> & (Ez & _ & Hs & Hv) & _ & Hver & Hl). exists io', l. split; [done |].
  split; [done |]. split; [by rewrite Ez |]. split; [| done]. split_and!; [done | done |]. eapply shape_buffer; [apply Hrd | done].
Qed.

Lemma kept_tried rm c : kept rm -> not_tried rm c = not_tried rm0 c.
Proof.
  intros Hk. unfold not_tried, col_flag. destruct (rm_col rm !! Z.to_nat c) as [k |] eqn:E.
  - destruct (kept_col _ _ _ _ Hk E) as (k0 & -> & -> & _). done.
  - destruct Hk as (l & -> & Hl & _). cbn [rm_col set_cols] in E. apply lookup_ge_None in E. by rewrite lookup_ge_None_2 by lia.
Qed.

Lemma reset_missing rm : kept rm -> rz_ok (set_missing rm 0 0) pcnt /\ bads (not_tried (set_missing rm 0 0)) 0 (rm_cols rm) = bads (not_tried rm0) 0 cols.
Proof.
  intros Hk. pose proof (shape_stripe _ _ _ (kept_shape _ Hk) (rd_stripe _ _ Hrd)) as [[] _ _ _]. split; [by split |].
  destruct (kept_params _ _ Hk) as (_ & -> & _). apply bads_ext. intros c. change (not_tried (set_missing rm 0 0) c) with (not_tried rm c). by apply kept_tried.
Qed.

Lemma all_tried : bads (not_tried rm0) 0 cols = [] -> nuntried = 0.
Proof.
  intros E. pose proof params. enough (nuntried <= count (not_tried rm0) 0 fdc /\ count (not_tried rm0) 0 fdc <= count (not_tried rm0) 0 cols) by (rewrite E in *; simpl in *; lia).
  split.
  - apply count_le; [lia |]. intros c _. unfold untouched, not_tried, col_flag. destruct (rm_col rm0 !! Z.to_nat c); [| done]. intros H'. by apply andb_true_iff in H' as (_ & ?).
  - rewrite (count_split _ fdc cols) by lia. lia.
Qed.

End phases.

(** The counters of missing columns play no part after the first phase. *)
Lemma ready_reset pcnt io : ready pcnt io -> ready pcnt (set_rm io (set_missing (io_rm io) 0 0)).
Proof. intros [[[] ? ? ?] ? ? ? ? ? ? ?]. by split; [split; [split | ..] | ..]. Qed.

Section done.
Context (cx : raidz_ctx) (pcnt : Z) (Halloc : forall m, 0 <= m -> Z.of_nat (length (rx_alloc cx m)) = m /\ Forall is_byte (rx_alloc cx m)).
Context (io0 : raidz_io) (Hrd : ready pcnt io0).

Lemma trying_reset io : trying (io_rm io0) (io_zio io0) (io_env io0) io ->
  trying (set_missing (io_rm io0) 0 0) (io_zio io0) (io_env io0) (set_rm io (set_missing (io_rm io) 0 0)).
Proof.
  intros (Ez & (l & El & Hl & Hc) & Henv & Hcl). split_and!; [done | | done | done]. cbn [io_rm set_rm]. rewrite El. by exists l.
Qed.

Lemma io_done_read b : io_bp (io_zio io0) = Some b -> BP_IS_TOGTHER b = false -> io_type (io_zio io0) = ZIO_TYPE_READ -> io_error (io_zio io0) = 0 ->
  rm_missingparity (io_rm io0) <= rm_firstdatacol (io_rm io0) -> rm_missingdata (io_rm io0) <= rm_cols (io_rm io0) - rm_firstdatacol (io_rm io0) ->
  runs (vdev_raidz_io_done cx io0) (read_done cx pcnt io0).
Proof.
  intros Hb Htog Hty He Hmp Hmd. unfold vdev_raidz_io_done. rewrite Hb. cbn [deref]. rewrite bind_Ok, Htog, !VERIFY_pass by lia.
  eapply runs_bind; [apply (count_errors_spec _ pcnt); apply Hrd |]. intros t (_ & Tp & Tu & Td & Tt). assert (Ht : tally io0 t) by (by split_and!).
  rewrite Hty. change (ZIO_TYPE_READ =? ZIO_TYPE_WRITE) with false. cbv iota. rewrite VERIFY_pass by done.
  eapply runs_bind; [by apply (first_phase_spec cx pcnt) |]. intros (io, [u |]); [intros Hse; eapply runs_impl; [by apply (settled_done cx pcnt io0 Hrd) |]; intros ? (? & ? & -> & ? & ? & ?); split; [done | by left] |].
  intros (Hio & Hfirst). pose proof Hio as (Ez & Hk & Henv & Hcl). destruct (reset_missing pcnt io0 Hrd _ Hk) as (Hok & Hl). cbn [io_rm set_rm].
  rewrite (untried_spec _ pcnt Hok), bind_Ok. change (rm_cols (set_missing (io_rm io) 0 0)) with (rm_cols (io_rm io)). fold (not_tried (set_missing (io_rm io) 0 0)).
  rewrite Hl. destruct (bads (not_tried (io_rm io0)) 0 (rm_cols (io_rm io0))) as [| c l] eqn:El; [| cbn [runs read_done]; exists (io_rm io); by split_and!].
  pose proof (all_tried pcnt io0 Hrd El) as Hu. set (io1 := set_rm io0 (set_missing (io_rm io0) 0 0)). pose proof (ready_reset _ _ Hrd) as Hrd1. fold io1 in Hrd1.
  eapply runs_bind; [apply (last_phase_spec cx pcnt Halloc io1 Hrd1); [by apply trying_reset | done] |]. intros io2 [Hse | Hf].
  - eapply runs_impl; [by apply (settled_done cx pcnt io1 Hrd1) |]. intros ? (? & ? & -> & ? & ? & ?). split; [done | by left].
  - rewrite done_failed by apply Hf. cbn [runs read_done]. split; [done |]. right. split; [apply Hf |]. split; [done |]. split; [done |].
    by apply (not_healable cx pcnt Halloc io1 Hrd1 io2).
Qed.
End done.
