(* ===== verification/RaidzRead.v ===== *)
(** * RAID-Z reads and writes

    The start of an I/O, a read with its two rounds, and writes. *)
From S2P Require Import Prelude Bytes Words Fletcher FletcherSpec Blkptr ZioChecksum ZioChecksumSpec Gf256 Raidz.
From S2P Require Import RaidzSpec RaidzRec RaidzMap RaidzChoice RaidzStripe RaidzBlock RaidzSolve RaidzIo RaidzComb RaidzCombSpec RaidzIoSpec.
From S2P Require Import RaidzCombSpec RaidzHeal RaidzDone RaidzPhases.
Local Open Scope Z_scope.

(** * The start of a RAID-Z I/O

    The columns that [vdev_raidz_io_start] reads or writes, and the state of
    the map when the children have returned. *)
(** ** I/Os on columns *)
Lemma upd_all_length f t rm rm' : upd_all f t rm rm' -> length (rm_col rm') = length (rm_col rm).
Proof.
  intros (l & -> & Hl). cbn [rm_col set_cols]. apply Nat.le_antisymm; apply Nat.nlt_ge; intros H; apply lookup_lt_is_Some_2 in H as (x & H).
  - specialize (Hl (length (rm_col rm))). by rewrite H, lookup_ge_None_2 in Hl by lia.
  - specialize (Hl (length l)). by rewrite H, lookup_ge_None_2 in Hl by lia.
Qed.

Lemma fold_columns f l rm : NoDup l -> Forall (fun c => 0 <= c < Z.of_nat (length (rm_col rm))) l ->
  runs (foldl (fun rm c => rm ← rm ; upd_col rm c f) (Ok rm) l) (upd_all (fun _ => f) l rm).
Proof.
  induction l as [| c l IH] using rev_ind; intros Hnd Hr; [apply upd_all_nil |].
  apply NoDup_app in Hnd as (Hnd & Hdis & _). apply Forall_app in Hr as (Hr & Hc). apply Forall_inv in Hc.
  rewrite foldl_app. cbn [foldl]. eapply runs_bind; [by apply IH |]. intros rm' Hu.
  destruct (lookup_lt_is_Some_2 (rm_col rm) (Z.to_nat c)) as (k & Hk); [lia |].
  apply (upd_all_snoc _ _ _ _ _ k); [done | lia | intros Hin; by apply (Hdis c Hin), list_elem_of_singleton | done | done].
Qed.

Lemma columns_of l : omap column_of (map Column l) = l.
Proof. induction l as [| c l IH]; [done |]. cbn. by rewrite IH. Qed.

(** A column after its read. *)
Definition read_col (dev : Z -> Z -> Z -> Z * list Z) (k : raidz_col) : raidz_col :=
  let '(error, data) := dev (rc_devidx k) (rc_offset k) (rc_size k) in vdev_raidz_child_done k error data.

Lemma read_columns_spec dev l rm : NoDup l -> Forall (fun c => 0 <= c < Z.of_nat (length (rm_col rm))) l ->
  runs (read_columns dev l rm) (upd_all (fun _ => read_col dev) l rm).
Proof. apply fold_columns. Qed.

(** ** The columns that are read first *)
Section start.
Context (cx : raidz_ctx) (vd : raidz_vdev) (rm : raidz_map) (pcnt : Z) (Hok : rz_ok rm pcnt).
Context (Hmd : rm_missingdata rm = 0) (Hmp : rm_missingparity rm = 0).
Notation fdc := (rm_firstdatacol rm).
Notation cols := (rm_cols rm).

Definition flagged (k : raidz_col) : raidz_col :=
  if negb (vdev_readable vd (rc_devidx k)) then with_flags k ENXIO true true
  else if vdev_dtl_missing vd (rc_devidx k) then with_flags k ESTALE (rc_tried k) true
  else k.
Definition online (k : raidz_col) : bool := vdev_readable vd (rc_devidx k) && negb (vdev_dtl_missing vd (rc_devidx k)).
Definition with_parity (md : Z) : bool := (0 <? md) || (flag_scrub cx || flag_resilver cx).

Definition start_inv (i : Z) (st : raidz_map * list Z) : Prop :=
  let '(rm', issued) := st in
  exists rm1 md mp, rm' = set_missing rm1 md mp /\ upd_all (fun _ => flagged) (map (fun i => cols - 1 - i) (seqZ 0 i)) rm rm1 /\
    0 <= md <= Z.min i (cols - fdc) /\ 0 <= mp <= Z.max 0 (fdc - (cols - i)) /\ NoDup issued /\
    forall c, c ∈ issued <-> cols - i <= c < cols /\ (exists k, rm_col rm !! Z.to_nat c = Some k /\ online k = true) /\ (fdc <= c \/ with_parity md = true).

Definition one (b : bool) : Z := if b then 1 else 0.

Lemma start_column_eq rm1 md mp issued c k : 0 <= c -> rm_col rm1 !! Z.to_nat c = Some k ->
  let high := rm_firstdatacol rm1 <=? c in
  exists rm2, upd_col rm1 c flagged = Ok rm2 /\
  start_column cx vd c (set_missing rm1 md mp, issued) =
    Ok (set_missing rm2 (md + one (negb (online k) && high)) (mp + one (negb (online k) && negb high)),
        if online k && (high || with_parity md) then issued ++ [c] else issued).
Proof using.
  intros Hc Hk high. eexists. split; [by apply upd_col_Some |]. unfold start_column.
  rewrite (get_col_Some _ _ k), bind_Ok by done. cbn [rm_firstdatacol rm_missingdata rm_missingparity set_missing]. fold high.
  assert (Hup : forall a b f, upd_col (set_missing rm1 a b) c f = Ok (set_missing (set_cols rm1 (<[Z.to_nat c := f k]> (rm_col rm1))) a b)) by (intros; by rewrite (upd_col_Some _ c k)).
  unfold flagged, online. destruct (vdev_readable vd (rc_devidx k)); cbn [negb andb];
    [destruct (vdev_dtl_missing vd (rc_devidx k)); cbn [negb andb] |].
  2:{ rewrite list_insert_id, set_cols_id by done. unfold one. rewrite !Z.add_0_r. unfold with_parity. by destruct high, (0 <? md), (flag_scrub cx), (flag_resilver cx). }
  all: destruct high; unfold one; cbn [negb andb]; rewrite Z.add_0_r;
    match goal with |- context [set_missing (set_missing _ _ _) ?x ?y] => change (set_missing (set_missing rm1 md mp) x y) with (set_missing rm1 x y) end;
    by rewrite Hup, bind_Ok.
Qed.

Lemma issue_iff i md issued c k x : 0 <= i -> c = cols - 1 - i -> 0 <= c -> rm_col rm !! Z.to_nat c = Some k -> c ∉ issued ->
  (forall c, c ∈ issued <-> cols - i <= c < cols /\ (exists k, rm_col rm !! Z.to_nat c = Some k /\ online k = true) /\ (fdc <= c \/ with_parity md = true)) ->
  x ∈ (if online k && ((fdc <=? c) || with_parity md) then issued ++ [c] else issued) <->
  cols - (i + 1) <= x < cols /\ (exists k, rm_col rm !! Z.to_nat x = Some k /\ online k = true) /\
    (fdc <= x \/ with_parity (md + one (negb (online k) && (fdc <=? c))) = true).
Proof using.
  intros Hi Hc H0 Hk Hnot Hin. destruct (decide (x = c)) as [-> | Hne].
  - transitivity (online k && ((fdc <=? c) || with_parity md) = true).
    + destruct (_ && _); [| done]. rewrite elem_of_app, list_elem_of_singleton. split; [done | by right].
    + rewrite andb_true_iff, orb_true_iff, Z.leb_le. destruct (online k) eqn:Eo; cbn [negb andb one]; rewrite ?Z.add_0_r.
      * split; [intros (_ & H); split; [lia |]; split; [by exists k | done] | by intros (_ & _ & H)].
      * split; [by intros (? & _) | intros (_ & (k' & Ek & Hk') & _); congruence].
  - transitivity (x ∈ issued); [destruct (_ && _); [| done]; rewrite elem_of_app, list_elem_of_singleton; split; [by intros [? | ?] | by left] |].
    rewrite Hin. destruct (Z.leb_spec fdc c) as [Hf | Hf]; [split; (intros (H1 & H2 & H3); split; [lia |]; split; [done |]; left; lia) |].
    rewrite andb_false_r. cbn [one]. rewrite Z.add_0_r. split; (intros (H1 & H2); split; [lia | done]).
Qed.

Lemma start_step i st : 0 <= i < cols -> start_inv i st -> runs (start_column cx vd (cols - 1 - i) st) (start_inv (i + 1)).
Proof using Hok.
  intros Hi. destruct st as (rm', issued). intros (rm1 & md & mp & -> & Hu & Hmd' & Hmp' & Hnd & Hin). set (c := cols - 1 - i) in *.
  pose proof (ok_np _ _ Hok). pose proof (ok_cols _ _ Hok). destruct (ok_col _ _ c Hok) as (k & Hk); [lia |].
  assert (Hn : c ∉ map (fun i => cols - 1 - i) (seqZ 0 i)) by (intros (x & Ex & Hx)%list_elem_of_fmap; apply elem_of_seqZ in Hx; lia).
  assert (Hk1 : rm_col rm1 !! Z.to_nat c = Some k) by (apply (upd_all_get _ _ _ _ _ _ Hu); (done || lia)).
  assert (Ef : rm_firstdatacol rm1 = fdc) by (by destruct Hu as (l & -> & _)).
  destruct (start_column_eq rm1 md mp issued c k) as (rm2 & Eu & ->); [lia | done |]. cbn [runs]. rewrite Ef.
  pose proof (upd_all_snoc _ _ _ _ c k flagged Hu ltac:(lia) Hn Hk eq_refl) as Hu2. rewrite Eu in Hu2. cbn [runs] in Hu2.
  eexists rm2, _, _. split; [done |]. split; [by rewrite seqZ_app, map_app by lia |].
  assert (Hm : (fdc <=? c) = true \/ c < fdc) by lia.
  split; [unfold one; destruct (online k), (Z.leb_spec fdc c); cbn [negb andb]; lia |].
  split; [unfold one; destruct (online k), (Z.leb_spec fdc c); cbn [negb andb]; lia |].
  assert (Hnot : c ∉ issued) by (rewrite Hin; lia). split.
  - destruct (_ && _); [| done]. apply NoDup_app. split; [done |]. split; [| apply NoDup_singleton]. intros x Hx ->%list_elem_of_singleton. done.
  - intros x. apply (issue_iff i md issued c k); (done || lia).
Qed.

Lemma start_columns : runs (for_range 0 cols (fun i st => start_column cx vd (cols - 1 - i) st) (rm, [])) (start_inv cols).
Proof using Hok Hmd Hmp.
  pose proof (ok_np _ _ Hok). pose proof (ok_cols _ _ Hok). apply (for_range_inv _ _ _ _ start_inv); [lia | | intros; by apply start_step].
  exists rm, 0, 0. split; [by destruct rm; simpl in *; subst |]. split; [apply upd_all_nil |]. split; [lia |]. split; [lia |]. split; [apply NoDup_nil_2 |].
  intros c. split; [by intros ?%not_elem_of_nil | lia].
Qed.
End start.

(** ** The state when children have returned *)
Section stage.
Context (vd : raidz_vdev) (dev : Z -> Z -> Z -> Z * list Z).

(** What a column that was tried tells of the child. *)
Definition reported (k : raidz_col) : Prop :=
  if vdev_readable vd (rc_devidx k) then
    rc_error k = fst (dev (rc_devidx k) (rc_offset k) (rc_size k)) /\
    (rc_error k = 0 -> rc_data k = snd (dev (rc_devidx k) (rc_offset k) (rc_size k)))
  else rc_error k <> 0.

Definition same_place (k0 k : raidz_col) : Prop :=
  rc_devidx k = rc_devidx k0 /\ rc_offset k = rc_offset k0 /\ rc_size k = rc_size k0 /\ length (rc_data k) = length (rc_data k0) /\
  (Forall is_byte (rc_data k0) -> Forall is_byte (rc_data k)).

Definition stage (rm rm' : raidz_map) : Prop :=
  exists l md mp, rm' = set_missing (set_cols rm l) md mp /\ length l = length (rm_col rm) /\
  forall c k0, rm_col rm !! c = Some k0 -> exists k, l !! c = Some k /\ same_place k0 k /\
    (Z.of_nat c < rm_cols rm -> rc_error k <> ECKSUM /\ if rc_tried k then reported k else vdev_readable vd (rc_devidx k) = true).

(** What a read of a child gives: no checksum error, and as many bytes as
    asked for. *)
Definition dev_ok : Prop := forall i offset size, 0 <= size ->
  fst (dev i offset size) <> ECKSUM /\ Z.of_nat (length (snd (dev i offset size))) = size /\ Forall is_byte (snd (dev i offset size)).

Context (Hdev : dev_ok).

Lemma read_place k : Z.of_nat (length (rc_data k)) = rc_size k -> same_place k (read_col dev k) /\
  (vdev_readable vd (rc_devidx k) = true -> rc_error (read_col dev k) <> ECKSUM /\ reported (read_col dev k)).
Proof.
  intros Hl. destruct (Hdev (rc_devidx k) (rc_offset k) (rc_size k)) as (H1 & H2 & H3); [lia |].
  unfold read_col, same_place, reported. destruct (dev (rc_devidx k) (rc_offset k) (rc_size k)) as (e, d) eqn:E. cbn [fst snd] in *. cbn.
  split; [split_and!; [done | done | done | lia | done] |]. intros ->. rewrite E. done.
Qed.

Context (cx : raidz_ctx) (rm : raidz_map) (pcnt : Z) (Hok : rz_ok rm pcnt) (Hexact : exact rm).
Context (Hfresh : forall c k, 0 <= c < rm_cols rm -> rm_col rm !! Z.to_nat c = Some k -> rc_error k = 0 /\ rc_tried k = false /\ rc_skipped k = false).
Notation fdc := (rm_firstdatacol rm).
Notation cols := (rm_cols rm).

Lemma elem_down c : c ∈ map (fun i => cols - 1 - i) (seqZ 0 cols) <-> 0 <= c < cols.
Proof.
  rewrite list_elem_of_fmap. split; [intros (x & -> & Hx); apply elem_of_seqZ in Hx; lia | intros Hc; exists (cols - 1 - c); rewrite elem_of_seqZ; lia].
Qed.

(** A column after the first reads. *)
Lemma first_col rm' issued rm2 c : start_inv cx vd rm cols (rm', issued) -> upd_all (fun _ => read_col dev) issued rm' rm2 ->
  rm_col rm2 !! c = (fun k => if bool_decide (Z.of_nat c ∈ issued) then read_col dev k else if Z.of_nat c <? cols then flagged vd k else k) <$> rm_col rm !! c.
Proof using.
  intros (rm1 & md & mp & -> & (l1 & -> & H1) & _ & _ & _ & Hin) (l2 & -> & H2). cbn [rm_col set_cols set_missing] in *. rewrite H2, H1.
  destruct (rm_col rm !! c) as [k |] eqn:Hk; [| done]. simpl. f_equal. erewrite (bool_decide_ext (Z.of_nat c ∈ map _ _)) by apply elem_down.
  destruct (bool_decide_reflect (Z.of_nat c ∈ issued)) as [Hi | Hi].
  - apply Hin in Hi as (_ & (k' & Hk' & Ho) & _). rewrite Nat2Z.id in Hk'. assert (k' = k) as -> by congruence.
    unfold flagged, online in *. apply andb_true_iff in Ho as (-> & Ho). apply negb_true_iff in Ho as ->. by destruct (bool_decide _).
  - destruct (Z.ltb_spec (Z.of_nat c) cols); [by rewrite bool_decide_eq_true_2 by lia | by rewrite bool_decide_eq_false_2 by lia].
Qed.

Lemma flagged_place k : same_place k (flagged vd k) /\ (rc_error k <> ECKSUM -> rc_error (flagged vd k) <> ECKSUM).
Proof using. unfold flagged, same_place. destruct (negb _); [done |]. by destruct (vdev_dtl_missing vd _). Qed.

Lemma flagged_cases k : online vd k = true /\ flagged vd k = k \/
  online vd k = false /\ rc_error (flagged vd k) <> 0 /\ (if rc_tried (flagged vd k) then rc_tried k = false -> reported (flagged vd k) else vdev_readable vd (rc_devidx k) = true).
Proof using.
  unfold flagged, online, reported. destruct (vdev_readable vd (rc_devidx k)) eqn:Er; cbn [negb andb].
  - destruct (vdev_dtl_missing vd (rc_devidx k)); [right | by left]. cbn. split_and!; [done | done |]. by destruct (rc_tried k).
  - right. cbn. by rewrite Er.
Qed.

Lemma first_stage rm' issued rm2 : start_inv cx vd rm cols (rm', issued) -> upd_all (fun _ => read_col dev) issued rm' rm2 -> stage rm rm2.
Proof using Hdev Hexact Hfresh.
  intros Hs Hu. assert (Hcol := fun c => first_col _ _ _ c Hs Hu).
  destruct Hs as (rm1 & md & mp & -> & (l1 & -> & H1) & _ & _ & _ & Hin). pose proof (upd_all_length _ _ _ _ Hu) as Hl.
  destruct Hu as (l2 & -> & _). cbn [rm_col set_cols set_missing] in *. exists l2, md, mp. split; [done |].
  split; [rewrite Hl; by apply (upd_all_length (fun _ => flagged vd) (map (fun i => cols - 1 - i) (seqZ 0 cols)) rm (set_cols rm l1)); exists l1 |].
  intros c k Hk. rewrite Hcol, Hk. simpl. eexists. split; [done |]. destruct (bool_decide_reflect (Z.of_nat c ∈ issued)) as [Hi | Hi].
  - apply Hin in Hi as (Hc & (k' & Hk' & Ho) & _). rewrite Nat2Z.id in Hk'. assert (k' = k) as -> by congruence.
    destruct (read_place k) as (Hp & Hr); [by apply (Hexact (Z.of_nat c)); [lia | rewrite Nat2Z.id] |]. split; [done |]. intros _.
    unfold online in Ho. apply andb_true_iff in Ho as (Ho & _). destruct (Hr Ho) as (H2 & H3). split; [done |]. by destruct (rc_tried _) eqn:E; [| unfold read_col in E; destruct (dev _ _ _)].
  - destruct (Z.ltb_spec (Z.of_nat c) cols) as [Hc | Hc]; [| by split; [split_and! | lia]]. destruct (flagged_place k) as (Hp & He). split; [done |]. intros _.
    destruct (Hfresh (Z.of_nat c) k) as (E0 & Et & _); [lia | by rewrite Nat2Z.id |]. split; [apply He; by rewrite E0 |].
    destruct (flagged_cases k) as [(Ho & ->) | (_ & _ & Hr)].
    + rewrite Et. unfold online in Ho. by apply andb_true_iff in Ho as (? & _).
    + destruct Hp as (-> & _). destruct (rc_tried (flagged vd k)); [by apply Hr | done].
Qed.

(** All the parity that can be read is, or none of it. *)
Lemma first_parity rm' issued rm2 : start_inv cx vd rm cols (rm', issued) -> upd_all (fun _ => read_col dev) issued rm' rm2 ->
  count (untouched rm2) 0 fdc = 0 \/ count (col_read rm2) 0 fdc = 0.
Proof using Hok Hfresh.
  intros Hs Hu. assert (Hcol := fun c => first_col _ _ _ c Hs Hu). destruct Hs as (rm1 & md & mp & _ & _ & _ & _ & _ & Hin).
  pose proof (ok_cols _ _ Hok). destruct (with_parity cx md) eqn:Ew; [left | right]; apply count_none; intros c Hc;
    unfold untouched, col_flag, col_read, not_read; rewrite Hcol; destruct (ok_col _ _ c Hok) as (k & Hk); try lia; rewrite Hk; simpl; rewrite !Z2Nat.id by lia;
    specialize (Hin c); destruct (Hfresh c k) as (E0 & Et & _); try (done || lia); rewrite (proj2 (Z.ltb_lt c cols)) by lia.
  - case_bool_decide as Hi; [unfold read_col; destruct (dev _ _ _); cbn; by rewrite andb_false_r |].
    destruct (flagged_cases k) as [(Ho & _) | (_ & He & _)]; [| by rewrite (proj2 (Z.eqb_neq _ 0))]. destruct Hi. apply Hin. split; [lia |]. split; [by exists k | by right].
  - rewrite bool_decide_eq_false_2 by (rewrite Hin; intros (_ & _ & [? | ?]); [lia | congruence]).
    destruct (flagged_cases k) as [(_ & ->) | (_ & He & _)]; [by rewrite Et |]. rewrite (proj2 (Z.eqb_neq _ 0)) by done. by rewrite orb_true_r.
Qed.
End stage.

(** * A RAID-Z read

    The two rounds of a read, and what is known of the columns after them. *)
Lemma stripe_missing rm pcnt md mp : stripe rm pcnt -> stripe (set_missing rm md mp) pcnt.
Proof. intros [[] ? ? ?]. by split; [split |..]. Qed.

Section read.
Context (cx : raidz_ctx) (vd : raidz_vdev) (dev : Z -> Z -> Z -> Z * list Z) (Hdev : dev_ok dev) (zio : zio_t).
Context (rm : raidz_map) (pcnt : Z) (Hst : stripe rm pcnt) (Hexact : exact rm) (H255 : rm_cols rm <= 255).
Notation fdc := (rm_firstdatacol rm).
Notation cols := (rm_cols rm).
Notation stage := (stage vd dev rm).

Lemma stage_shape rm' : stage rm' -> exists md mp, same_shape (set_missing rm md mp) rm'.
Proof using.
  intros (l & md & mp & -> & Hl & Hc). exists md, mp, l. split; [done |]. split; [done |]. intros c k0 Hk0.
  destruct (Hc c k0 Hk0) as (k & Hk & (_ & _ & Hs & Hd & Hb) & _). by exists k.
Qed.

Lemma stage_params rm' : stage rm' -> rm_firstdatacol rm' = fdc /\ rm_cols rm' = cols /\ stripe rm' pcnt /\ exact rm' /\ length (io_buffer rm') = length (io_buffer rm).
Proof using Hst Hexact.
  intros Hs. destruct (stage_shape _ Hs) as (md & mp & Hsh). split; [by destruct Hs as (l & ? & ? & -> & _) |]. split; [by destruct Hs as (l & ? & ? & -> & _) |].
  pose proof (stripe_missing _ _ md mp Hst) as Hst'. split; [by eapply shape_stripe |]. split; [by eapply shape_exact |].
  apply (shape_buffer _ _ _ (st_ok _ _ Hst') Hsh).
Qed.

Lemma stage_col rm' c k : stage rm' -> 0 <= c < cols -> rm_col rm' !! Z.to_nat c = Some k ->
  exists k0, rm_col rm !! Z.to_nat c = Some k0 /\ same_place k0 k /\ rc_error k <> ECKSUM /\ if rc_tried k then reported vd dev k else vdev_readable vd (rc_devidx k) = true.
Proof using.
  intros (l & md & mp & -> & Hl & Hc) Hcc Hk. cbn [rm_col set_missing set_cols] in Hk. pose proof (lookup_lt_Some _ _ _ Hk).
  destruct (lookup_lt_is_Some_2 (rm_col rm) (Z.to_nat c)) as (k0 & Hk0); [lia |]. exists k0. split; [done |].
  destruct (Hc _ _ Hk0) as (k' & Hk' & Hp & Hr). assert (k' = k) as -> by congruence. split; [done |]. apply Hr. lia.
Qed.

(** ** The second round *)
Lemma place_trans k1 k2 k3 : same_place k1 k2 -> same_place k2 k3 -> same_place k1 k3.
Proof using. intros (? & ? & ? & ? & ?) (? & ? & ? & ? & ?). split_and!; [congruence | congruence | congruence | congruence | auto]. Qed.

(** What is known of a column when it was tried, and when it was not. *)
Definition known (k : raidz_col) : Prop := rc_error k <> ECKSUM /\ if rc_tried k then reported vd dev k else vdev_readable vd (rc_devidx k) = true.

Lemma known_kept k d : known k -> rc_tried k = true -> (rc_error k = 0 -> d = rc_data k) -> known (with_data k d).
Proof using.
  unfold known, reported. cbn. intros (He & Hr) Ht Hd. rewrite Ht in *. split; [done |]. destruct (vdev_readable _ _); [| done]. destruct Hr as (Hr & Hz).
  split; [done |]. intros E. rewrite (Hd E). auto.
Qed.

Lemma known_read k d : known k -> rc_tried k = false -> Z.of_nat (length d) = rc_size k -> known (read_col dev (with_data k d)) /\
  rc_tried (read_col dev (with_data k d)) = true.
Proof using Hdev.
  intros (_ & Hr) Ht Hd. rewrite Ht in Hr. destruct (read_place vd dev Hdev (with_data k d) Hd) as (_ & H). destruct (H Hr) as (H1 & H2).
  assert (E : rc_tried (read_col dev (with_data k d)) = true) by (unfold read_col; by destruct (dev _ _ _)). split; [| done]. split; [done |]. by rewrite E.
Qed.

Lemma redo_stage rm1 rmk rm2 : stage rm1 -> kept rm1 rmk -> upd_all (fun _ => read_col dev) (bads (not_tried rm1) 0 cols) (set_missing rmk 0 0) rm2 ->
  stage rm2 /\ bads (not_tried rm2) 0 cols = [].
Proof using Hdev Hst Hexact.
  intros Hs Hk Hu. destruct (stage_params _ Hs) as (Ef & Ec & Hst1 & He1 & _). pose proof (upd_all_length _ _ _ _ Hu) as Hl2.
  destruct Hk as (lk & -> & Hlk & Hkc). destruct Hu as (l2 & -> & H2). cbn [rm_col set_cols set_missing rm_cols] in *.
  assert (Hcol : forall c k1, rm_col rm1 !! c = Some k1 -> exists k, l2 !! c = Some k /\ same_place k1 k /\
    (Z.of_nat c < cols -> known k1 -> known k /\ rc_tried k = true)).
  { intros c k1 Hk1. destruct (Hkc c k1 Hk1) as (d & Hd & Hdl & Hdb & Hdk). rewrite H2, Hd. simpl. eexists. split; [done |].
    assert (Hp1 : same_place k1 (with_data k1 d)) by (by split_and!).
    assert (Hnt : not_tried rm1 (Z.of_nat c) = negb (rc_tried k1)) by (unfold not_tried, col_flag; by rewrite Nat2Z.id, Hk1).
    case_bool_decide as Hin; rewrite elem_bads, Hnt, negb_true_iff in Hin.
    - destruct Hin as (Hin & Hc). assert (Hsz : Z.of_nat (length d) = rc_size k1) by (rewrite Hdl; apply (He1 (Z.of_nat c)); [lia | by rewrite Nat2Z.id]).
      split; [eapply place_trans; [done | by apply read_place] |]. intros _ Hkn. by apply known_read.
    - split; [done |]. intros Hc Hkn. destruct (rc_tried k1) eqn:Et; [| destruct Hin; split; [done | lia]]. split; [| done]. apply known_kept; [done | done |].
      intros E0. apply Hdk. rewrite elem_bads. unfold err0, col_error. rewrite Nat2Z.id, Hk1, E0. by intros (? & _). }
  destruct Hs as (l & md & mp & -> & Hl & Hc). cbn [rm_col set_cols set_missing rm_cols] in *. split.
  - exists l2, 0, 0. split; [done |]. split; [lia |]. intros c k0 Hk0. destruct (Hc c k0 Hk0) as (k1 & Hk1 & Hp & Hkn).
    destruct (Hcol c k1 Hk1) as (k & Hk & Hp' & Hkn'). exists k. split; [done |]. split; [by eapply place_trans |]. intros Hlt. by apply Hkn', Hkn.
  - apply nil_length_inv, (inj Z.of_nat), count_none. intros c Hcc. unfold not_tried, col_flag. cbn [rm_col set_cols set_missing].
    destruct (ok_col _ _ c (st_ok _ _ Hst)) as (k0 & Hk0); [lia |]. destruct (Hc _ k0 Hk0) as (k1 & Hk1 & _ & Hkn).
    destruct (Hcol _ k1 Hk1) as (k & -> & _ & Hkn'). rewrite Z2Nat.id in * by lia. by destruct (Hkn' ltac:(lia) (Hkn ltac:(lia))) as (_ & ->).
Qed.

(** ** Damage *)
(** Children that cannot be read, fail, or return other bytes than those of
    the column. *)
Definition lost (k : raidz_col) : bool :=
  negb (vdev_readable vd (rc_devidx k)) || negb (bool_decide (dev (rc_devidx k) (rc_offset k) (rc_size k) = (0, rc_data k))).

(** The stripe of the block as it was written, with the right checksum. *)
Record original (env : cksum_env) (rmw : raidz_map) : Prop := {
  or_stripe : stripe rmw pcnt;
  or_exact : exact rmw;
  or_parity : parity_right rmw pcnt;
  or_fdc : rm_firstdatacol rmw = fdc;
  or_cols : rm_cols rmw = cols;
  or_place : forall c k, 0 <= c < cols -> rm_col rm !! Z.to_nat c = Some k -> exists kw, rm_col rmw !! Z.to_nat c = Some kw /\
    rc_devidx kw = rc_devidx k /\ rc_offset kw = rc_offset k /\ rc_size kw = rc_size k;
  or_sum : verdict (rx_host cx) env zio (io_buffer rmw) = 0
}.

Lemma damage_lost rm1 rmw env c : stage rm1 -> original env rmw -> bads (not_tried rm1) 0 cols = [] -> 0 <= c < cols ->
  err0 rm1 c = true \/ col_bytes rm1 c <> col_bytes rmw c -> col_flag lost rmw c = true.
Proof using Hst Hexact.
  intros Hs Ho Hall Hc Hd. destruct (stage_params _ Hs) as (Ef & Ec & Hst1 & _). destruct (ok_col _ _ c (st_ok _ _ Hst1)) as (k1 & Hk1); [lia |].
  destruct (stage_col _ c k1 Hs Hc Hk1) as (k0 & Hk0 & (E1 & E2 & E3 & _) & _ & Hr). destruct (or_place _ _ Ho c k0 Hc Hk0) as (kw & Hkw & W1 & W2 & W3).
  assert (Ht : rc_tried k1 = true).
  { pose proof (count_zero (not_tried rm1) 0 cols ltac:(by rewrite Hall) c Hc) as Hz. unfold not_tried, col_flag in Hz. rewrite Hk1 in Hz. by apply negb_false_iff in Hz. }
  rewrite Ht in Hr. unfold reported in Hr. rewrite E1, E2, E3, <- W1, <- W2, <- W3 in Hr. unfold col_flag. rewrite Hkw. unfold lost.
  unfold col_bytes in Hd. rewrite Hk1, Hkw, (err_flag _ _ _ Hk1) in Hd.
  destruct (vdev_readable vd (rc_devidx kw)); [| done]. cbn [negb orb]. destruct Hr as (Hr & Hz). case_bool_decide as Hb; [| done].
  rewrite Hb in Hr, Hz. cbn [fst snd] in Hr, Hz. rewrite Hr in Hd. destruct Hd as [? | Hd]; [done |]. destruct Hd. by apply Hz.
Qed.

Lemma stage_healable io rmw : io_zio io = zio -> stage (io_rm io) -> bads (not_tried (io_rm io)) 0 cols = [] -> original (io_env io) rmw ->
  count (col_flag lost rmw) 0 cols <= fdc -> healable cx pcnt io.
Proof using Hst Hexact.
  intros Ez Hs Hall Ho Hfew. destruct (stage_params _ Hs) as (Ef & Ec & _). exists rmw. rewrite Ef, Ec. split.
  - split_and!; [apply Ho | apply Ho | apply Ho | | rewrite Ez; apply Ho]. split; [rewrite Ef; symmetry; apply Ho |]. split; [rewrite Ec; symmetry; apply Ho |].
    rewrite Ec. intros c k Hc Hk. destruct (stage_col _ c k Hs Hc Hk) as (k0 & Hk0 & (_ & _ & E3 & _) & _). destruct (or_place _ _ Ho c k0 Hc Hk0) as (kw & Hkw & _ & _ & W3).
    exists kw. split; [done | congruence].
  - etrans; [| exact Hfew]. pose proof (ok_np _ _ (st_ok _ _ Hst)). pose proof (ok_cols _ _ (st_ok _ _ Hst)).
    apply count_union; [lia | |].
    + intros c _ E Hsil. unfold silent in Hsil. by rewrite E in Hsil.
    + intros c Hc Hd. apply (damage_lost (io_rm io) rmw (io_env io)); try done. destruct Hd as [Hd | Hd]; [by left | right].
      unfold silent in Hd. apply andb_true_iff in Hd as (_ & Hd). apply negb_true_iff, bool_decide_eq_false in Hd. done.
Qed.

Context (Hread : readable zio) (Hsize : length (io_data zio) = length (io_buffer rm)).

Lemma stage_ready io : io_zio io = zio -> stage (io_rm io) -> length (raidz_corrected io) = 8%nat ->
  count (untouched (io_rm io)) 0 fdc = 0 \/ count (col_read (io_rm io)) 0 fdc = 0 -> ready pcnt io.
Proof using Hst Hexact H255 Hread Hsize.
  intros Ez Hs Hl Hp. destruct (stage_params _ Hs) as (Ef & Ec & Hst' & He & Hb). split; rewrite ?Ez, ?Ef, ?Ec, ?Hb; try done.
  intros c Hc. unfold col_error. destruct (ok_col _ _ c (st_ok _ _ Hst')) as (k & Hk); [lia |]. rewrite Hk.
  by destruct (stage_col _ c k Hs Hc Hk) as (_ & _ & _ & ? & _).
Qed.

Context (Halloc : forall m, 0 <= m -> Z.of_nat (length (rx_alloc cx m)) = m /\ Forall is_byte (rx_alloc cx m)).

(** How a read ends. *)
Definition read_ends (env : cksum_env) (o : outcome_t) : Prop :=
  exists io l, o = Finished io l /\ io_verified io = true /\
  (io_error (io_zio io) = 0 /\ io_zio io = zio /\ verdict (rx_host cx) env zio (io_buffer (io_rm io)) = 0 /\
     length (io_buffer (io_rm io)) = length (io_data zio) /\ (l = [] \/ l = repairs_of io) \/
   io_error (io_zio io) <> 0 /\ l = [] /\ forall rmw, original env rmw -> ~ count (col_flag lost rmw) 0 cols <= fdc).

Lemma finished_ends env io0 io l : io_zio io0 = zio -> (exists e, io_env io0 = set_errs env e) -> stage (io_rm io0) ->
  read_done cx pcnt io0 (Finished io l) -> read_ends env (Finished io l).
Proof using Hst Hexact Hsize.
  intros Ez (e & Ee) Hs (Hv & Hd). destruct (stage_params _ Hs) as (Ef & Ec & _ & _ & Hb). exists io, l. split; [done |]. split; [done |].
  destruct Hd as [(He & (E1 & Hver & Hl) & Hrep) | (He & -> & Hall & Hnot)]; [left | right].
  - rewrite Ee, Ez, verdict_errs in Hver. split_and!; [done | congruence | done | congruence | done].
  - split; [done |]. split; [done |]. intros rmw Ho Hfew. apply Hnot. rewrite Ec in Hall. apply (stage_healable io0 rmw); try done.
    rewrite Ee. destruct Ho. split; try done. by rewrite verdict_errs.
Qed.
(** What [vdev_raidz_io_done] does after a round. *)
Lemma round_done b io : io_bp zio = Some b -> BP_IS_TOGTHER b = false -> io_type zio = ZIO_TYPE_READ -> io_error zio = 0 ->
  io_zio io = zio -> stage (io_rm io) -> length (raidz_corrected io) = 8%nat ->
  count (untouched (io_rm io)) 0 fdc = 0 \/ count (col_read (io_rm io)) 0 fdc = 0 ->
  rm_missingparity (io_rm io) <= fdc -> rm_missingdata (io_rm io) <= cols - fdc ->
  runs (vdev_raidz_io_done cx io) (read_done cx pcnt io).
Proof using All.
  intros Hb Htog Hty He Ez Hs Hl Hp Hmp Hmd. destruct (stage_params _ Hs) as (Ef & Ec & _). pose proof (stage_ready _ Ez Hs Hl Hp) as Hrd.
  apply (io_done_read cx pcnt Halloc io Hrd b); rewrite ?Ez, ?Ef, ?Ec; done.
Qed.

(** All columns have been tried after the second round. *)
Lemma second_round b env io0 io l : io_bp zio = Some b -> BP_IS_TOGTHER b = false -> io_type zio = ZIO_TYPE_READ -> io_error zio = 0 ->
  io_zio io0 = zio -> (exists e, io_env io0 = set_errs env e) -> stage (io_rm io0) -> read_done cx pcnt io0 (Redo io l) ->
  runs (rm ← read_columns dev l (io_rm io) ; vdev_raidz_io_done cx (set_rm io rm)) (read_ends env).
Proof using All.
  intros Hb Htog Hty He Ez (e & Ee) Hs (rmk & Hk & Er & Ez1 & (e1 & Ee1) & Hl & -> & _). destruct (stage_params _ Hs) as (Ef & Ec & Hst1 & _).
  destruct (kept_params _ _ Hk) as (_ & _ & Elen). pose proof (ok_len _ _ (st_ok _ _ Hst1)) as Hlen. rewrite Ec in *.
  eapply runs_bind; [apply read_columns_spec |].
  - apply rising_NoDup, rising_filter, rising_seqZ.
  - apply Forall_forall. intros c Hc. apply elem_bads in Hc as (_ & Hc). rewrite Er. cbn [rm_col set_missing]. lia.
  - intros rm2 Hu. rewrite Er in Hu. destruct (redo_stage _ _ _ Hs Hk Hu) as (Hs2 & Hall).
    assert (Hmiss : rm_missingdata rm2 = 0 /\ rm_missingparity rm2 = 0) by (by destruct Hu as (l2 & -> & _)).
    assert (Hun : count (untouched rm2) 0 fdc = 0).
    { apply count_none. intros c Hc. pose proof (ok_cols _ _ (st_ok _ _ Hst)).
      pose proof (count_zero (not_tried rm2) 0 cols ltac:(by rewrite Hall) c ltac:(lia)) as Hz. unfold not_tried, untouched, col_flag in *.
      destruct (rm_col rm2 !! Z.to_nat c); [| done]. rewrite Hz. by rewrite andb_false_r. }
    eapply runs_impl; [apply (round_done b (set_rm io rm2)); try done; cbn [io_rm io_zio set_rm raidz_corrected] |].
    + congruence.
    + by left.
    + pose proof (ok_np _ _ (st_ok _ _ Hst)). lia.
    + pose proof (ok_cols _ _ (st_ok _ _ Hst)). lia.
    + intros [io2 l2 | io2 l2 |] Hd; [| | done].
      * eapply (finished_ends env (set_rm io rm2)); [cbn; congruence | | done | done]. exists e1. cbn. by rewrite Ee1, Ee.
      * destruct Hd as (_ & _ & _ & _ & _ & _ & El & Hne). destruct (stage_params _ Hs2) as (_ & Ec2 & _).
        cbn [io_rm set_rm] in El. rewrite Ec2, Hall in El. done.
Qed.
End read.

(** * RAID-Z reads and writes from start to end *)
(** An I/O of whole sectors on a vdev of at most 255 children, that takes none
    of the paths for aggregation and has met no error. *)
Record block_io (cx : raidz_ctx) (vd : raidz_vdev) (zio : zio_t) : Prop := {
  bi_io : io_ok (vdev_ashift vd) (vdev_children vd) (vdev_nparity vd) (io_offset zio) (io_size zio) (io_data zio);
  bi_sh : 3 <= vdev_ashift vd;
  bi_255 : vdev_children vd <= 255;
  bi_bytes : Forall is_byte (io_data zio);
  bi_alloc : alloc_ok (rx_alloc cx);
  bi_bp : exists b, io_bp zio = Some b /\ BP_IS_TOGTHER b = false;
  bi_aggre : io_aggre_io cx = false;
  bi_error : io_error zio = 0
}.

Definition io_words (vd : raidz_vdev) (zio : zio_t) : Z := parity_words (vdev_ashift vd) (vdev_children vd) (vdev_nparity vd) (io_size zio).
Definition io_map (cx : raidz_ctx) (vd : raidz_vdev) (zio : zio_t) : result raidz_map :=
  vdev_raidz_map_alloc (rx_alloc cx) (io_offset zio) (io_size zio) (io_data zio) (vdev_ashift vd) (vdev_children vd) (vdev_nparity vd).

Section block.
Context (cx : raidz_ctx) (vd : raidz_vdev) (zio : zio_t) (Hio : block_io cx vd zio).

Lemma map_ok : exists rm, io_map cx vd zio = Ok rm.
Proof. destruct (io_geometry (rx_alloc cx) _ _ _ _ _ _ (bi_io _ _ _ Hio)) as (s & _ & _ & E). by eexists. Qed.

Context (rm : raidz_map) (Hrm : io_map cx vd zio = Ok rm).

Lemma map_stripe : stripe rm (io_words vd zio) /\ rm_firstdatacol rm = vdev_nparity vd /\ rm_cols rm <= 255 /\ io_buffer rm = io_data zio /\ exact rm.
Proof.
  destruct Hio. destruct (io_stripe _ _ _ _ _ _ _ _ bi_io0 bi_sh0 bi_bytes0 bi_alloc0 Hrm) as (Hst & Enp & Hc & Hd & Hex).
  split_and!; [done | done | lia | done |]. intros c k Hc' Hk. destruct (Z.lt_ge_cases c (rm_firstdatacol rm)) as [Hlt | Hge].
  - destruct (ok_par _ _ (st_ok _ _ Hst) c k) as (-> & -> & _); [lia | done | done].
  - apply (Hex c k); [lia | done].
Qed.

Lemma start_map {A} (k : raidz_map -> result A) : 
  (rm ← vdev_raidz_map_alloc (rx_alloc cx) (io_offset zio) (io_size zio) (io_data zio) (vdev_ashift vd) (vdev_children vd) (vdev_nparity vd) ;
   VERIFY (rm_asize rm =? vdev_raidz_asize (vdev_ashift vd) (vdev_children vd) (vdev_nparity vd) (io_size zio)) ;; k rm) = k rm.
Proof.
  unfold io_map in Hrm. rewrite Hrm, bind_Ok. destruct (io_rest _ _ _ _ _ _ _ _ (bi_io _ _ _ Hio) Hrm) as (Ha & _). rewrite VERIFY_pass; [done | lia].
Qed.

(** ** The start of a read *)
Lemma start_read : io_type zio = ZIO_TYPE_READ ->
  runs (vdev_raidz_io_start cx vd zio) (fun o => exists rm' issued, o = Some (rm', map Column issued) /\ start_inv cx vd rm (rm_cols rm) (rm', issued)).
Proof.
  intros Hty. destruct map_stripe as (Hst & _). destruct (bi_bp _ _ _ Hio) as (b & Eb & Etog). unfold vdev_raidz_io_start.
  rewrite Eb. cbn [deref]. rewrite bind_Ok, Etog, Hty, (bi_aggre _ _ _ Hio). cbn [andb orb].
  change (ZIO_TYPE_READ =? ZIO_TYPE_WRITE) with false. cbv iota. rewrite start_map, VERIFY_pass by done.
  destruct (io_rest _ _ _ _ _ _ _ _ (bi_io _ _ _ Hio) Hrm) as (_ & H1 & H2 & _).
  eapply runs_bind; [apply (start_columns cx vd rm _ (st_ok _ _ Hst) H1 H2) |]. intros (rm', issued) Hs. by exists rm', issued.
Qed.

(** ** A read *)
Lemma read_main dev env corrected : dev_ok dev -> io_type zio = ZIO_TYPE_READ -> readable zio -> length corrected = 8%nat ->
  runs (raidz_read cx vd env corrected dev zio) (read_ends cx vd dev zio rm (io_words vd zio) env).
Proof.
  intros Hdev Hty Hread Hcor. destruct map_stripe as (Hst & Enp & H255 & Hbuf & Hex). destruct (bi_bp _ _ _ Hio) as (b & Eb & Etog).
  pose proof (bi_error _ _ _ Hio) as He. pose proof (bi_alloc _ _ _ Hio) as Ha.
  assert (Hfresh : forall c k, 0 <= c < rm_cols rm -> rm_col rm !! Z.to_nat c = Some k -> rc_error k = 0 /\ rc_tried k = false /\ rc_skipped k = false)
    by (intros c k Hc Hk; by apply (io_fresh _ _ _ _ _ _ _ _ c k (bi_io _ _ _ Hio) Hrm)).
  assert (Hsize : length (io_data zio) = length (io_buffer rm)) by (by rewrite Hbuf).
  unfold raidz_read. eapply runs_bind; [by apply start_read |]. intros o (rm' & issued & -> & Hs). cbv iota. rewrite columns_of.
  pose proof Hs as (rm1 & md & mp & Em & (l1 & El1 & Hl1) & Hmd & Hmp & Hnd & Hin). pose proof (ok_len _ _ (st_ok _ _ Hst)) as Hlen.
  pose proof (upd_all_length _ _ _ _ (ex_intro _ l1 (conj El1 Hl1))) as Hlen1.
  eapply runs_bind; [apply read_columns_spec; [done |] |].
  { apply Forall_forall. intros c Hc. apply Hin in Hc as (Hc & _). rewrite Em. cbn [rm_col set_missing]. lia. }
  intros rm2 Hu. pose proof (first_stage vd dev Hdev cx rm Hex Hfresh _ _ _ Hs Hu) as Hst2.
  pose proof (first_parity vd dev cx rm _ (st_ok _ _ Hst) Hfresh _ _ _ Hs Hu) as Hpar.
  assert (Hmiss : rm_missingparity rm2 = mp /\ rm_missingdata rm2 = md) by (by destruct Hu as (l2 & -> & _); subst).
  set (io0 := MkIo zio rm2 false env corrected [] false). pose proof (ok_np _ _ (st_ok _ _ Hst)).
  eapply runs_bind; [apply (round_done cx vd dev Hdev zio rm _ Hst Hex H255 Hread Hsize Ha b io0); try done; cbn [io_rm io0]; lia |].
  assert (Hee : exists e, io_env io0 = set_errs env e) by apply errs_same.
  intros [io l | io l |] Hd; [| | done].
  - by apply (finished_ends cx vd dev zio rm _ Hst Hex Hsize env io0).
  - by apply (second_round cx vd dev Hdev zio rm _ Hst Hex H255 Hread Hsize Ha b env io0).
Qed.

(** ** The start of a write *)
Lemma skips_spec rm' : 0 <= rm_skipstart rm' <= rm_scols rm' -> 0 < rm_scols rm' -> Z.of_nat (length (rm_col rm')) = rm_scols rm' -> 0 <= rm_nskip rm' ->
  runs (start_skips vd rm') (fun l => omap column_of l = [] /\ Z.of_nat (length l) = rm_nskip rm').
Proof using.
  intros Hs Hpos Hl Hn. unfold start_skips.
  eapply runs_bind; [apply (for_range_inv _ _ _ _ (fun i '(c, l) => 0 <= c <= rm_scols rm' /\ omap column_of l = [] /\ Z.of_nat (length l) = i)) |].
  - lia.
  - done.
  - intros i (c, l) Hi (Hc & Ho & Hli). rewrite VERIFY_pass by lia. set (c' := if c =? rm_scols rm' then 0 else c).
    assert (Hc' : 0 <= c' < rm_scols rm') by (unfold c'; destruct (Z.eqb_spec c (rm_scols rm')); lia).
    destruct (lookup_lt_is_Some_2 (rm_col rm') (Z.to_nat c')) as (k & Hk); [lia |]. rewrite (get_col_Some _ _ k), bind_Ok by (done || lia). cbn [runs].
    split; [lia |]. rewrite omap_app, Ho, length_app. split; [done |]. cbn [length]. lia.
  - intros (c, l) (_ & Ho & Hli). done.
Qed.

Lemma start_write : io_type zio = ZIO_TYPE_WRITE ->
  runs (vdev_raidz_io_start cx vd zio) (fun o => exists rm1 skips, vdev_raidz_generate_parity rm = Ok rm1 /\
    o = Some (rm1, map Column (seqZ 0 (rm_cols rm1)) ++ skips) /\ omap column_of skips = [] /\ Z.of_nat (length skips) = rm_nskip rm).
Proof.
  intros Hty. destruct map_stripe as (Hst & _). destruct (bi_bp _ _ _ Hio) as (b & Eb & Etog). unfold vdev_raidz_io_start.
  rewrite Eb. cbn [deref]. rewrite bind_Ok, Etog, Hty, (bi_aggre _ _ _ Hio). cbn [andb orb].
  change (ZIO_TYPE_WRITE =? ZIO_TYPE_WRITE) with true. cbv iota. rewrite start_map.
  pose proof (generate_right _ _ Hst) as Hg. destruct (vdev_raidz_generate_parity rm) as [rm1 |]; [| done]. destruct Hg as (_ & (l & -> & Hl & _) & _).
  rewrite bind_Ok. destruct (io_rest _ _ _ _ _ _ _ _ (bi_io _ _ _ Hio) Hrm) as (_ & _ & _ & H3 & H4 & H5).
  pose proof (ok_np _ _ (st_ok _ _ Hst)). pose proof (ok_cols _ _ (st_ok _ _ Hst)). pose proof (ok_len _ _ (st_ok _ _ Hst)).
  eapply runs_bind; [apply (skips_spec (set_cols rm l)); cbn [rm_skipstart rm_scols rm_col rm_nskip set_cols]; lia |].
  intros skips (Ho & Hk). by exists (set_cols rm l), skips.
Qed.
End block.

(** ** What a write leaves on the children *)
Section write.
Context (cx : raidz_ctx) (vd : raidz_vdev) (zio : zio_t) (Hio : block_io cx vd zio).
Context (rm rm1 : raidz_map) (Hrm : io_map cx vd zio = Ok rm) (Hgen : vdev_raidz_generate_parity rm = Ok rm1).

Lemma write_stripe : stripe rm1 (io_words vd zio) /\ exact rm1 /\ parity_right rm1 (io_words vd zio) /\ io_buffer rm1 = io_data zio /\ regenerated rm rm1 /\
  same_shape rm rm1.
Proof.
  destruct (map_stripe _ _ _ Hio _ Hrm) as (Hst & _ & _ & Hbuf & Hex). pose proof (generate_columns _ _ Hst) as Hg. rewrite Hgen in Hg.
  destruct Hg as (Hst1 & Hs & Hp & Hreg). pose proof (ok_np _ _ (st_ok _ _ Hst)).
  split_and!; [done | by eapply shape_exact | done | | done | done]. rewrite (regenerated_buffer _ _ Hs); [done | lia | done].
Qed.

(** It is the original of a later read of the block. *)
Lemma write_original cx' zio' rm' env : block_io cx' vd zio' -> io_map cx' vd zio' = Ok rm' -> io_offset zio' = io_offset zio -> io_size zio' = io_size zio ->
  verdict (rx_host cx') env zio' (io_data zio) = 0 -> original cx' zio' rm' (io_words vd zio') env rm1.
Proof.
  intros Hio' Hrm' Eo Es Hv. destruct write_stripe as (Hst & Hex & Hp & Hb & (l & El & Hreg) & _).
  assert (Ew : io_words vd zio' = io_words vd zio) by (unfold io_words; by rewrite Es).
  pose proof (bi_io _ _ _ Hio') as Hok. unfold io_map in Hrm'. rewrite Eo, Es in Hok, Hrm'.
  destruct (io_same _ _ _ _ _ _ _ _ _ _ _ (bi_io _ _ _ Hio) Hok Hrm Hrm') as (Ef & Ec & _).
  destruct (io_same _ _ _ _ _ _ _ _ _ _ _ Hok (bi_io _ _ _ Hio) Hrm' Hrm) as (_ & _ & _ & Hpl).
  split; rewrite ?Ew; try done; [by rewrite Ef; subst | by rewrite Ec; subst | | by rewrite Hb].
  intros c k Hc Hk. destruct (Hpl c k Hk Hc) as (k0 & Hk0 & H1 & H2 & H3). destruct (Hreg _ _ Hk0) as (d & Hd & _). rewrite El. by exists (with_data k0 d).
Qed.

(** ** The end of a write *)
Definition write_col (dev : Z -> Z -> list Z -> Z) (k : raidz_col) : raidz_col :=
  vdev_raidz_child_done k (dev (rc_devidx k) (rc_offset k) (rc_data k)) (rc_data k).
Definition write_failed (dev : Z -> Z -> list Z -> Z) (k : raidz_col) : bool := negb (dev (rc_devidx k) (rc_offset k) (rc_data k) =? 0).

Lemma write_cols dev rm2 : upd_all (fun _ => write_col dev) (seqZ 0 (rm_cols rm1)) rm1 rm2 -> same_shape rm1 rm2 /\
  forall c, 0 <= c < rm_cols rm1 -> err0 rm2 c = col_flag (write_failed dev) rm1 c.
Proof using.
  intros Hu. pose proof (upd_all_length _ _ _ _ Hu) as Hl. destruct Hu as (l & -> & Hc). cbn [rm_col set_cols] in Hl. split.
  - exists l. split; [done |]. split; [done |]. intros c k Hk. rewrite Hc, Hk. simpl. eexists. split; [done |]. by destruct (bool_decide _).
  - intros c Hcc. unfold err0, col_error, col_flag. cbn [rm_col set_cols]. rewrite Hc. destruct (rm_col rm1 !! Z.to_nat c); [| done]. simpl.
    by rewrite bool_decide_eq_true_2 by (rewrite elem_of_seqZ, Z2Nat.id by lia; lia).
Qed.

Lemma write_main dev env corrected : (forall i offset data, dev i offset data <> ECKSUM) -> io_type zio = ZIO_TYPE_WRITE ->
  runs (raidz_write cx vd env corrected dev zio) (fun o => exists io, o = Finished io [] /\
    upd_all (fun _ => write_col dev) (seqZ 0 (rm_cols rm1)) rm1 (io_rm io) /\
    (io_error (io_zio io) = 0 <-> count (col_flag (write_failed dev) rm1) 0 (rm_cols rm1) <= rm_firstdatacol rm1)).
Proof.
  intros Hdev Hty. destruct write_stripe as (Hst & Hex & _). destruct (bi_bp _ _ _ Hio) as (b & Eb & Etog). pose proof (bi_error _ _ _ Hio) as He.
  unfold raidz_write. eapply runs_bind; [by apply (start_write cx vd zio Hio rm Hrm) |]. intros o (rm1' & skips & Eg & -> & Hsk & _).
  assert (rm1' = rm1) as -> by congruence. cbv iota. rewrite omap_app, columns_of, Hsk, app_nil_r.
  pose proof (ok_len _ _ (st_ok _ _ Hst)). pose proof (ok_np _ _ (st_ok _ _ Hst)). pose proof (ok_cols _ _ (st_ok _ _ Hst)).
  eapply runs_bind; [apply (fold_columns (write_col dev)) |].
  - apply NoDup_seqZ.
  - apply Forall_forall. intros c Hc. apply elem_of_seqZ in Hc. lia.
  - intros rm2 Hu. destruct (write_cols _ _ Hu) as (Hs & Hfail). pose proof (shape_stripe _ _ _ Hs Hst) as Hst2.
    assert (Hpar : rm_missingparity rm2 = 0 /\ rm_missingdata rm2 = 0 /\ rm_firstdatacol rm2 = rm_firstdatacol rm1 /\ rm_cols rm2 = rm_cols rm1).
    { destruct (io_rest _ _ _ _ _ _ _ _ (bi_io _ _ _ Hio) Hrm) as (_ & H2 & H3 & _). destruct write_stripe as (_ & _ & _ & _ & (l1 & E1 & _) & _).
      destruct Hs as (l2 & -> & _). by subst rm1. }
    destruct Hpar as (P1 & P2 & P3 & P4). unfold vdev_raidz_io_done. cbn [io_zio io_rm]. rewrite Eb. cbn [deref]. rewrite bind_Ok, Etog, !VERIFY_pass by lia.
    eapply runs_bind; [apply (count_errors_spec _ _ (st_ok _ _ Hst2)) |].
    { rewrite P4. intros c Hc. destruct Hu as (l2 & -> & Hl2). unfold col_error. cbn [rm_col set_cols]. rewrite Hl2. destruct (rm_col rm1 !! Z.to_nat c); [| done].
      simpl. rewrite bool_decide_eq_true_2 by (rewrite elem_of_seqZ, Z2Nat.id by lia; lia). apply Hdev. }
    intros t (_ & _ & _ & _ & Ht). rewrite P4, (count_ext _ _ _ _ Hfail) in Ht. rewrite Hty, P3, Ht. change (ZIO_TYPE_WRITE =? ZIO_TYPE_WRITE) with true. cbv iota.
    destruct (Z.ltb_spec (rm_firstdatacol rm1) (count (col_flag (write_failed dev) rm1) 0 (rm_cols rm1))) as [Hlt | Hge].
    + eapply runs_bind; [apply (worst_error_spec _ _ (st_ok _ _ Hst2)); rewrite P4, (count_ext _ _ _ _ Hfail); lia |]. intros e Hne. cbn [runs].
      eexists. split; [done |]. split; [done |]. cbn. split; [done | lia].
    + cbn [runs]. eexists. split; [done |]. split; [done |]. by cbn.
Qed.

(** Columns that were written and are kept are not lost. *)
Lemma write_covers wdev rdev rm2 : upd_all (fun _ => write_col wdev) (seqZ 0 (rm_cols rm1)) rm1 rm2 ->
  (forall k, k ∈ rm_col rm2 -> rc_tried k = true -> rc_error k = 0 -> lost vd rdev k = false) ->
  count (col_flag (lost vd rdev) rm1) 0 (rm_cols rm1) <= count (col_flag (write_failed wdev) rm1) 0 (rm_cols rm1).
Proof using.
  intros (l & -> & Hl) Hkept. destruct (Z.le_gt_cases 0 (rm_cols rm1)) as [H0 | H0]; [| unfold bads; by rewrite !seqZ_nil by lia].
  apply count_le; [done |]. intros c Hc. unfold col_flag. destruct (rm_col rm1 !! Z.to_nat c) as [k |] eqn:Hk; [| done]. intros Hlost.
  unfold write_failed. destruct (Z.eqb_spec (wdev (rc_devidx k) (rc_offset k) (rc_data k)) 0) as [E |]; [| done].
  exfalso. enough (lost vd rdev k = false) by congruence. apply (Hkept (write_col wdev k)); [| done | done].
  apply list_elem_of_lookup_2 with (Z.to_nat c). cbn [rm_col set_cols]. rewrite Hl, Hk. simpl.
  by rewrite bool_decide_eq_true_2 by (rewrite elem_of_seqZ, Z2Nat.id by lia; lia).
Qed.
End write.

(** ** What attempts and checks leave *)
Lemma rebuilt_bytes rm f rm' c : rebuilt rm f rm' -> 0 <= c -> f c = false -> col_bytes rm' c = col_bytes rm c.
Proof.
  intros (l & -> & Hl & Hc) H0 Hf. unfold col_bytes. cbn [rm_col set_cols]. destruct (rm_col rm !! Z.to_nat c) as [k |] eqn:Hk.
  - destruct (Hc _ _ Hk) as (d & -> & _ & _ & Hd). cbn [rc_data with_data]. apply Hd. rewrite elem_bads, Z2Nat.id, Hf by done. by intros (? & _).
  - apply lookup_ge_None in Hk. by rewrite lookup_ge_None_2 by lia.
Qed.

Lemma same_bytes_col rm rm' c : same_bytes rm rm' -> col_bytes rm' c = col_bytes rm c.
Proof.
  intros (l & -> & Hl). unfold col_bytes. cbn [rm_col set_cols]. destruct (Hl (Z.to_nat c)) as (f & ->). by destruct (rm_col rm !! Z.to_nat c).
Qed.

Lemma same_bytes_parity rm rm' pcnt : same_bytes rm rm' -> parity_right rm pcnt -> parity_right rm' pcnt.
Proof.
  intros (l & -> & Hl) Hp i k j Hi Hk Hj. cbn [rm_col rm_firstdatacol set_cols] in *. destruct (Hl i) as (f & E). rewrite Hk in E.
  destruct (rm_col rm !! i) as [k0 |] eqn:Hk0; [| done]. injection E as ->. cbn [rc_data with_error]. rewrite (Hp i k0 j) by done.
  unfold parity_byte. apply hsum_ext. intros c _. unfold dbyte. cbn [rm_col set_cols]. destruct (Hl (Z.to_nat c)) as (g & ->). by destruct (rm_col rm !! Z.to_nat c).
Qed.

(** A success of combinatorial reconstruction. *)
Lemma succeeded_facts cx rm0 zio env te de corrected io code : rm_cols rm0 <= Z.of_nat (length (rm_col rm0)) ->
  succeeded cx rm0 zio env te de corrected io code -> code <> 0 /\ verdict (rx_host cx) env zio (io_buffer (io_rm io)) = 0 /\
  exists t, attempt rm0 te de t /\ (forall c, c ∈ t -> col_error (io_rm io) c = ECKSUM) /\
    forall c, 0 <= c -> c ∉ t -> err0 rm0 c = false -> col_bytes (io_rm io) c = col_bytes rm0 c.
Proof.
  intros Hlen (t & rm & rm' & Ht & Hk & Hr & _ & Hcode & Hv & Hu & _). pose proof (upd_all_bytes _ _ _ Hu) as Hb. split; [lia |].
  split; [by rewrite (same_bytes_buffer _ _ Hb) |]. exists t. split; [done |]. split.
  - intros c Hc. destruct Ht as (Hch & _). destruct (choice_usable _ _ c Hch Hc) as (Hr0 & _). destruct (kept_params _ _ Hk) as (_ & _ & Ek).
    destruct Hr as (l' & -> & El' & _), Hu as (l & -> & Hl). unfold col_error. cbn [rm_col set_cols] in *. rewrite Hl.
    destruct (lookup_lt_is_Some_2 l' (Z.to_nat c)) as (k & ->); [lia |]. simpl. by rewrite Z2Nat.id, bool_decide_eq_true_2 by (done || lia).
  - intros c H0 Hn He. rewrite (same_bytes_col _ _ _ Hb), (rebuilt_bytes _ _ _ _ Hr H0); [by apply (rebuilt_bytes _ _ _ _ Hk) |].
    by rewrite (kept_bad rm0 _ _ _ Hk), He, bool_decide_eq_false_2.
Qed.
