(* ===== verification/RaidzIoThms.v ===== *)
(** * Theorems on RAID-Z I/O *)
From S2P Require Import Prelude Bytes Words Fletcher FletcherSpec Blkptr ZioChecksum ZioChecksumSpec.
From S2P Require Import Gf256 Raidz RaidzSpec RaidzRec RaidzMap RaidzChoice RaidzStripe RaidzBlock RaidzSolve RaidzIo RaidzComb RaidzCombSpec RaidzIoSpec RaidzHeal RaidzDone RaidzPhases RaidzRead.
Local Open Scope Z_scope.

(** The number of columns of a map with some property. *)
Definition columns_with (f : raidz_col -> bool) (rm : raidz_map) : Z := Z.of_nat (length (bads (col_flag f rm) 0 (rm_cols rm))).

(** ** Reads *)
(** C5: whatever the children of a RAID-Z vdev return, errors or bytes, a read
    of a block ends after at most two rounds of reads without a failed
    assertion. When it reports no error the data have the checksum of the block
    pointer. Nothing is written to the children unless that is so, and then
    only columns in error are. *)
Theorem raidz_read_safe cx vd env corrected dev zio :
  block_io cx vd zio -> io_type zio = ZIO_TYPE_READ -> readable zio -> dev_ok dev -> length corrected = 8%nat ->
  exists io repairs, raidz_read cx vd env corrected dev zio = Ok (Finished io repairs) /\ io_verified io = true /\
    (io_error (io_zio io) = 0 -> verdict (rx_host cx) env zio (io_buffer (io_rm io)) = 0 /\ length (io_buffer (io_rm io)) = length (io_data zio)) /\
    (repairs = [] \/ io_error (io_zio io) = 0 /\ repairs = repairs_of io).
Proof.
  intros Hio Hty Hr Hdev Hc. destruct (map_ok _ _ _ Hio) as (rm & Hrm). pose proof (read_main _ _ _ Hio rm Hrm dev env corrected Hdev Hty Hr Hc) as H.
  apply runs_Ok in H as (o & E & io & l & -> & Hv & Hd). exists io, l. split; [done |]. split; [done |].
  destruct Hd as [(He & _ & Hs & Hl & Hrep) | (He & -> & _)]; [split; [done | naive_solver] | split; [done | by left]].
Qed.

(** C4: a RAID-Z vdev heals. The block was written as [vdev_raidz_io_start]
    writes it; now the children of at most [vdev_nparity] of its columns cannot
    be read, fail, or return other bytes without telling, whichever they are and
    also when they were out of date. Then the read reports no error and its
    data have the checksum of the block pointer. *)
Theorem raidz_read_heals cx vd env corrected dev zio cxw wzio rmw ios :
  block_io cx vd zio -> io_type zio = ZIO_TYPE_READ -> readable zio -> dev_ok dev -> length corrected = 8%nat ->
  block_io cxw vd wzio -> io_type wzio = ZIO_TYPE_WRITE -> io_offset zio = io_offset wzio -> io_size zio = io_size wzio ->
  vdev_raidz_io_start cxw vd wzio = Ok (Some (rmw, ios)) -> verdict (rx_host cx) env zio (io_data wzio) = 0 ->
  columns_with (lost vd dev) rmw <= vdev_nparity vd ->
  exists io repairs, raidz_read cx vd env corrected dev zio = Ok (Finished io repairs) /\ io_error (io_zio io) = 0 /\
    verdict (rx_host cx) env zio (io_buffer (io_rm io)) = 0.
Proof.
  intros Hio Hty Hr Hdev Hc Hiow Htyw Eo Es Hstart Hv Hlost. destruct (map_ok _ _ _ Hio) as (rm & Hrm). destruct (map_ok _ _ _ Hiow) as (rm0 & Hrm0).
  pose proof (start_write _ _ _ Hiow _ Hrm0 Htyw) as Hw. rewrite Hstart in Hw. destruct Hw as (rm1 & skips & Hgen & E & _). assert (rm1 = rmw) as -> by congruence.
  pose proof (read_main _ _ _ Hio rm Hrm dev env corrected Hdev Hty Hr Hc) as H. apply runs_Ok in H as (o & E' & io & l & -> & _ & Hd). exists io, l. split; [done |].
  destruct Hd as [(He & _ & Hs & _) | (_ & _ & Hno)]; [done |]. destruct (map_stripe _ _ _ Hio _ Hrm) as (_ & Enp & _).
  pose proof (write_original _ _ _ Hiow _ _ Hrm0 Hgen cx zio rm env Hio Hrm Eo Es Hv) as Hor. destruct (Hno rmw Hor).
  rewrite Enp, <- (or_cols _ _ _ _ _ _ Hor). exact Hlost.
Qed.

(** ** Writes *)
(** C22: a write of a block ends without a failed assertion, and reports an
    error exactly when the writes of more columns failed than there is parity
    for. Each column was written once, with the bytes of the stripe whose data
    are those of the I/O and whose parity is right. *)
Theorem raidz_write_correct cx vd env corrected dev zio :
  block_io cx vd zio -> io_type zio = ZIO_TYPE_WRITE -> (forall i offset data, dev i offset data <> ECKSUM) ->
  exists rm ios io, vdev_raidz_io_start cx vd zio = Ok (Some (rm, ios)) /\ omap column_of ios = seqZ 0 (rm_cols rm) /\
    io_buffer rm = io_data zio /\ parity_right rm (io_words vd zio) /\
    raidz_write cx vd env corrected dev zio = Ok (Finished io []) /\
    (io_error (io_zio io) = 0 <-> columns_with (write_failed dev) rm <= vdev_nparity vd).
Proof.
  intros Hio Hty Hdev. destruct (map_ok _ _ _ Hio) as (rm & Hrm). pose proof (start_write _ _ _ Hio _ Hrm Hty) as Hw.
  apply runs_Ok in Hw as (o & Es & rm1 & skips & Hgen & -> & Hsk & _). destruct (write_stripe _ _ _ Hio _ _ Hrm Hgen) as (_ & _ & Hp & Hb & _ & Hsh).
  pose proof (write_main _ _ _ Hio _ _ Hrm Hgen dev env corrected Hdev Hty) as Hm. apply runs_Ok in Hm as (o & Em & io & -> & _ & He).
  exists rm1, (map Column (seqZ 0 (rm_cols rm1)) ++ skips), io. split; [done |]. split; [by rewrite omap_app, columns_of, Hsk, app_nil_r |].
  split; [done |]. split; [done |]. split; [done |]. destruct (map_stripe _ _ _ Hio _ Hrm) as (_ & Enp & _).
  assert (rm_firstdatacol rm1 = vdev_nparity vd) as <- by (rewrite <- Enp; by destruct Hsh as (l & -> & _)). exact He.
Qed.

(** C20: what was written can be read. A write reported no error; the columns
    whose writes did not fail are on the children that can be read now, and
    the others hold anything or fail. Then a read of the block reports no error
    and its data have the checksum of the block pointer, that of the data
    written. *)
Theorem raidz_write_read cx vd env corrected dev zio cxw envw correctedw wdev wzio iow :
  block_io cxw vd wzio -> io_type wzio = ZIO_TYPE_WRITE -> (forall i offset data, wdev i offset data <> ECKSUM) ->
  raidz_write cxw vd envw correctedw wdev wzio = Ok (Finished iow []) -> io_error (io_zio iow) = 0 ->
  block_io cx vd zio -> io_type zio = ZIO_TYPE_READ -> readable zio -> dev_ok dev -> length corrected = 8%nat ->
  io_offset zio = io_offset wzio -> io_size zio = io_size wzio -> verdict (rx_host cx) env zio (io_data wzio) = 0 ->
  (forall k, k ∈ rm_col (io_rm iow) -> rc_tried k = true -> rc_error k = 0 -> lost vd dev k = false) ->
  exists io repairs, raidz_read cx vd env corrected dev zio = Ok (Finished io repairs) /\ io_error (io_zio io) = 0 /\
    verdict (rx_host cx) env zio (io_buffer (io_rm io)) = 0.
Proof.
  intros Hiow Htyw Hwdev Hwr Hwok Hio Hty Hr Hdev Hc Eo Es Hv Hkept. destruct (map_ok _ _ _ Hio) as (rm & Hrm). destruct (map_ok _ _ _ Hiow) as (rm0 & Hrm0).
  pose proof (start_write _ _ _ Hiow _ Hrm0 Htyw) as Hw. apply runs_Ok in Hw as (o & _ & rmw & _ & Hgen & _).
  pose proof (write_main _ _ _ Hiow _ _ Hrm0 Hgen wdev envw correctedw Hwdev Htyw) as Hm. rewrite Hwr in Hm. destruct Hm as (io1 & E1 & Hu & He).
  assert (io1 = iow) as -> by congruence. pose proof (proj1 He Hwok) as Hfew.
  pose proof (read_main _ _ _ Hio rm Hrm dev env corrected Hdev Hty Hr Hc) as H. apply runs_Ok in H as (o' & E' & io & l & -> & _ & Hd). exists io, l. split; [done |].
  destruct Hd as [(He' & _ & Hs & _) | (_ & _ & Hno)]; [done |].
  pose proof (write_original _ _ _ Hiow _ _ Hrm0 Hgen cx zio rm env Hio Hrm Eo Es Hv) as Hor. destruct (Hno rmw Hor).
  rewrite <- (or_cols _ _ _ _ _ _ Hor), <- (or_fdc _ _ _ _ _ _ Hor). etrans; [| exact Hfew].
  by apply write_covers with (io_rm iow).
Qed.

(** ** Combinatorial reconstruction *)
(** C21: [vdev_raidz_combrec] ends without a failed assertion. If it returns a
    code, the data now have the right checksum, the columns it took for
    targets are in error and the other columns without error are untouched. If
    it returns 0 then no choice of columns that the parity left could cover,
    taken for damaged, gives data with the right checksum, and all the columns
    without error are as before. *)
Theorem raidz_combrec_correct cx pcnt io total data :
  let rm := io_rm io in
  alloc_ok (rx_alloc cx) -> stripe rm pcnt -> exact rm -> rm_cols rm <= 255 -> readable (io_zio io) ->
  length (io_data (io_zio io)) = length (io_buffer rm) -> length (raidz_corrected io) = 8%nat ->
  total = columns_with (fun k => negb (rc_error k =? 0)) rm ->
  data = Z.of_nat (length (bads (err0 rm) (rm_firstdatacol rm) (rm_cols rm - rm_firstdatacol rm))) -> total < rm_firstdatacol rm ->
  exists io' code, vdev_raidz_combrec cx io total data = Ok (io', code) /\
    (code <> 0 -> verdict (rx_host cx) (io_env io) (io_zio io) (io_buffer (io_rm io')) = 0 /\
      exists t, attempt rm total data t /\ (forall c, c ∈ t -> col_error (io_rm io') c = ECKSUM) /\
        forall c, 0 <= c -> c ∉ t -> err0 rm c = false -> col_bytes (io_rm io') c = col_bytes rm c) /\
    (code = 0 -> (forall t, attempt rm total data t -> ~ wins cx rm (io_zio io) (io_env io) t) /\
      forall c, 0 <= c -> err0 rm c = false -> col_bytes (io_rm io') c = col_bytes rm c).
Proof.
  intros rm Ha Hst Hex H255 Hr Hsz Hc Ht Hd Hlt.
  assert (Et : total = Z.of_nat (length (bads (err0 rm) 0 (rm_cols rm)))).
  { rewrite Ht. apply count_ext. intros c _. unfold err0, col_error, col_flag. by destruct (rm_col rm !! Z.to_nat c). }
  assert (Htry : trying rm (io_zio io) (io_env io) io) by (split_and!; [done | apply kept_start | apply errs_same | done]).
  pose proof (combrec_spec cx pcnt Ha rm (io_zio io) (io_env io) Hst Hex H255 Hr Hsz total data Et Hd io Htry Hlt) as H.
  apply runs_Ok in H as ((io', code) & E & Hres). exists io', code. split; [done |]. destruct Hres as [Hs | (-> & (_ & Hk & _) & _ & Hno)].
  - destruct (succeeded_facts _ _ _ _ _ _ _ _ _ (ok_len _ _ (st_ok _ _ Hst)) Hs) as (Hne & Hfacts). by split.
  - split; [done |]. intros _. split; [done |]. intros c H0 He. by apply (rebuilt_bytes _ _ _ _ Hk).
Qed.

(** [raidz_parity_verify] leaves the data alone and makes the parity right.
    It returns the number of parity columns that had been read and were wrong;
    these are in error now, and the other columns have the errors they had. *)
Theorem raidz_parity_verify_correct cx pcnt io :
  let rm := io_rm io in
  alloc_ok (rx_alloc cx) -> stripe rm pcnt -> exact rm ->
  exists io', raidz_parity_verify cx io = Ok (io', Z.of_nat (length (bads (differs rm (io_rm io')) 0 (rm_firstdatacol rm)))) /\
    io_buffer (io_rm io') = io_buffer rm /\ parity_right (io_rm io') pcnt /\
    forall c, 0 <= c < rm_cols rm ->
      col_error (io_rm io') c = if (c <? rm_firstdatacol rm) && differs rm (io_rm io') c then ECKSUM else col_error rm c.
Proof.
  intros rm Ha Hst Hex. pose proof (parity_verify_spec cx pcnt Ha io Hst Hex) as H.
  apply runs_Ok in H as ((io', ret) & E & _ & rm1 & Hst1 & Hs & Hp & Hreg & Hm & ->). fold rm in Hs, Hreg, Hm. pose proof (marked_bytes _ _ _ _ Hm) as Hb.
  assert (Ef : rm_firstdatacol rm1 = rm_firstdatacol rm) by (by destruct Hs as (l & -> & _)). rewrite Ef in *.
  assert (Hd : forall c, differs rm (io_rm io') c = differs rm rm1 c) by (intros c; unfold differs; by rewrite (same_bytes_col _ _ _ Hb)).
  pose proof (ok_np _ _ (st_ok _ _ Hst)). exists io'. split; [rewrite E, (count_ext (differs rm (io_rm io')) (differs rm rm1)); [done | intros c _; apply Hd] |].
  split; [rewrite (same_bytes_buffer _ _ Hb); apply (regenerated_buffer _ _ Hs); [lia | done] |]. split; [by eapply same_bytes_parity |].
  intros c Hc. rewrite Hd. destruct (ok_col _ _ c (st_ok _ _ Hst) Hc) as (k & Hk). destruct Hreg as (l1 & E1 & Hl1), Hm as (l2 & E2 & Hl2).
  destruct (Hl1 _ _ Hk) as (d & Hd1 & _). unfold col_error. rewrite E2, Hk. cbn [rm_col set_cols]. rewrite Hl2. subst rm1. cbn [rm_col set_cols] in *.
  rewrite Hd1. simpl. rewrite Z2Nat.id by lia. by destruct (_ && _).
Qed.

(** ** Examples *)
(** Reads of [n] bytes from the start of [l]. *)
Definition fit (n : Z) (l : list Z) : list Z := map (fun i => nth i l 0 mod 256) (seq 0 (Z.to_nat n)).

Lemma fit_ok n l : 0 <= n -> Z.of_nat (length (fit n l)) = n /\ Forall is_byte (fit n l).
Proof.
  intros Hn. unfold fit. rewrite length_map, length_seq. split; [lia |]. apply Forall_map, Forall_true. intros i. unfold is_byte.
  pose proof (Z.mod_pos_bound (nth i l 0) 256). lia.
Qed.

(** A block of 512 bytes on four children with sectors of 256 bytes, two of
    them parity. *)
Definition pair_vd : raidz_vdev := MkVd 8 4 2 (fun _ => true) (fun _ => false).
Definition pair_cx : raidz_ctx := MkCtx BIG (fun n => fit n []) false true false false false true.
Definition quiet : cksum_env := MkEnv false [] (fun _ => 0) 0 false.
Definition pair_data : list Z := map (fun i => (Z.of_nat i * 7 + Z.of_nat i / 100) mod 256) (seq 0 512).
Definition pair_zio (bp : blkptr) (type : Z) (data : list Z) : zio_t :=
  MkZio (Some bp) 0 512 data 0 type 1 (MkZb 1 1 0 0) None 7 19 false false true false.
Definition blank_bp : blkptr := MkBp (MkDva 1 0) (MkDva 0 0) (MkDva 0 0) (Z.shiftl ZIO_CHECKSUM_FLETCHER_4 40) 0 0 0 10 1 zero_cksum.
Definition sealed_bp (data : list Z) : blkptr :=
  match fletcher_4_native BIG data 512 with Ok c => set_cksum c blank_bp | Panic => blank_bp end.
Definition pair_write : zio_t := pair_zio blank_bp ZIO_TYPE_WRITE pair_data.
Definition pair_read : zio_t := pair_zio (sealed_bp pair_data) ZIO_TYPE_READ (replicate 512 0).

(** The columns that are written. *)
Definition started (o : result (option (raidz_map * list child_io))) (i : Z) : list Z :=
  match o with Ok (Some (rm, _)) => col_bytes rm i | _ => [] end.
Definition pair_column : Z -> list Z := started (vdev_raidz_io_start pair_cx pair_vd pair_write).

(** Child 2 fails and child 0 returns zeroes without telling. *)
Definition pair_dev (i offset size : Z) : Z * list Z :=
  if i =? 2 then (EIO, fit size []) else (0, fit size (if i =? 0 then [] else pair_column i)).

Lemma pair_dev_ok : dev_ok pair_dev.
Proof.
  intros i offset size Hs. unfold pair_dev. destruct (i =? 2); (split; [done | by apply fit_ok]).
Qed.

Lemma pair_ok bp type data : BP_IS_TOGTHER bp = false -> length data = 512%nat -> Forall is_byte data -> block_io pair_cx pair_vd (pair_zio bp type data).
Proof.
  intros Hb Hl Hd. split; try done.
  - split; cbn; try lia. by exists 2.
  - intros n Hn. by apply fit_ok.
  - by exists bp.
Qed.

Lemma pair_data_ok : length pair_data = 512%nat /\ Forall is_byte pair_data.
Proof.
  unfold pair_data. rewrite length_map, length_seq. split; [done |]. apply Forall_map, Forall_true. intros i. unfold is_byte.
  pose proof (Z.mod_pos_bound (Z.of_nat i * 7 + Z.of_nat i / 100) 256). lia.
Qed.

Lemma sealed_readable d data : match fletcher_4_native BIG d 512 with Ok c => forallb (fun w => (0 <=? w) && (w <? 2 ^ 64)) [zc_word0 c; zc_word1 c; zc_word2 c; zc_word3 c] | Panic => false end = true ->
  length data = 512%nat -> Forall is_byte data -> readable (pair_zio (sealed_bp d) ZIO_TYPE_READ data).
Proof.
  intros Hc Hl Hd. unfold sealed_bp. destruct (fletcher_4_native BIG d 512) as [c |]; [| done].
  assert (Hw : cksum_u64 c).
  { cbn [forallb] in Hc. rewrite !andb_true_iff, !Z.leb_le, !Z.ltb_lt in Hc. unfold cksum_u64, is_u64. tauto. }
  split; [done |]. split; [cbn; rewrite Hl; reflexivity |]. split; [by exists 32 |]. split; [done |]. split; [done |].
  split; [intros ci [= <-]; done |]. split; [intros H; discriminate H |]. split; [done |]. split; [done |]. split; [done |]. intros H. discriminate H.
Qed.

Lemma pair_read_ok : block_io pair_cx pair_vd pair_read /\ readable pair_read.
Proof.
  split; [apply pair_ok | apply sealed_readable]; try (vm_compute; reflexivity); by apply Forall_replicate.
Qed.

Lemma pair_write_ok : block_io pair_cx pair_vd pair_write.
Proof. destruct pair_data_ok. by apply pair_ok. Qed.

(** How a read ended: the error, the data, the columns that are repaired. *)
Definition read_result (o : result outcome_t) : option (Z * list Z * list Z) :=
  match o with Ok (Finished io l) => Some (io_error (io_zio io), io_buffer (io_rm io), map fst l) | _ => None end.

Lemma raidz_read_heals_witness : exists io repairs,
  raidz_read pair_cx pair_vd quiet (replicate 8 0) pair_dev pair_read = Ok (Finished io repairs) /\ io_error (io_zio io) = 0 /\
  io_buffer (io_rm io) = pair_data /\ map fst repairs = [0; 2].
Proof.
  destruct pair_read_ok as (Hio & Hr).
  assert (Hl : match vdev_raidz_io_start pair_cx pair_vd pair_write with Ok (Some (rm, _)) => columns_with (lost pair_vd pair_dev) rm <=? 2 | _ => false end = true)
    by (vm_compute; reflexivity).
  assert (Hc : read_result (raidz_read pair_cx pair_vd quiet (replicate 8 0) pair_dev pair_read) = Some (0, pair_data, [0; 2])) by (vm_compute; reflexivity).
  assert (Hv : verdict BIG quiet pair_read pair_data = 0) by (vm_compute; reflexivity).
  destruct (vdev_raidz_io_start pair_cx pair_vd pair_write) as [[(rmw, ios) |] |] eqn:Es; [| discriminate Hl | discriminate Hl]. apply Z.leb_le in Hl.
  destruct (raidz_read_heals pair_cx pair_vd quiet (replicate 8 0) pair_dev pair_read pair_cx pair_write rmw ios Hio eq_refl Hr pair_dev_ok eq_refl
    pair_write_ok eq_refl eq_refl eq_refl Es Hv Hl) as (io & l & E & He & _).
  rewrite E in Hc. injection Hc as _ Hd Hrep. exists io, l. split; [exact E |]. split; [exact He |]. split; [exact Hd | exact Hrep].
Defined.

Lemma raidz_read_safe_witness : exists io repairs,
  raidz_read pair_cx pair_vd quiet (replicate 8 0) (fun _ _ size => (EIO, fit size [])) pair_read = Ok (Finished io repairs) /\
  io_error (io_zio io) = EIO /\ repairs = [].
Proof.
  destruct pair_read_ok as (Hio & Hr).
  assert (Hdev : dev_ok (fun _ _ size => (EIO, fit size []))) by (intros i offset size Hs; split; [done | by apply fit_ok]).
  assert (Hc : read_result (raidz_read pair_cx pair_vd quiet (replicate 8 0) (fun _ _ size => (EIO, fit size [])) pair_read) = Some (EIO, fit 512 [], []))
    by (vm_compute; reflexivity).
  destruct (raidz_read_safe pair_cx pair_vd quiet (replicate 8 0) _ pair_read Hio eq_refl Hr Hdev eq_refl) as (io & l & E & _ & _ & Hl).
  rewrite E in Hc. injection Hc as He _ _. exists io, l. split; [exact E |]. split; [exact He |]. destruct Hl as [Hl | (H0 & _)]; [exact Hl | rewrite He in H0; discriminate H0].
Defined.

(** Writes to child 1 fail. *)
Definition pair_wdev (i offset : Z) (data : list Z) : Z := if i =? 1 then EIO else 0.

Lemma pair_wdev_ok i offset data : pair_wdev i offset data <> ECKSUM.
Proof. unfold pair_wdev. by destruct (i =? 1). Qed.

Lemma raidz_write_correct_witness : exists io,
  raidz_write pair_cx pair_vd quiet (replicate 8 0) pair_wdev pair_write = Ok (Finished io []) /\ io_error (io_zio io) = 0.
Proof.
  assert (Hf : match vdev_raidz_io_start pair_cx pair_vd pair_write with Ok (Some (rm, _)) => columns_with (write_failed pair_wdev) rm <=? 2 | _ => false end = true)
    by (vm_compute; reflexivity).
  destruct (raidz_write_correct pair_cx pair_vd quiet (replicate 8 0) pair_wdev pair_write pair_write_ok eq_refl pair_wdev_ok)
    as (rm & ios & io & Es & _ & _ & _ & E & He). rewrite Es in Hf. apply Z.leb_le in Hf. exists io. split; [exact E | exact (proj2 He Hf)].
Defined.

(** What was written to the children but child 1, which returns zeroes. *)
Definition later_dev (i offset size : Z) : Z * list Z := (0, fit size (if i =? 1 then [] else pair_column i)).

Lemma later_dev_ok : dev_ok later_dev.
Proof. intros i offset size Hs. split; [done | by apply fit_ok]. Qed.

Definition keeps_all (dev : Z -> Z -> Z -> Z * list Z) (rm : raidz_map) : bool :=
  forallb (fun k => negb (rc_tried k) || negb (rc_error k =? 0) || negb (lost pair_vd dev k)) (rm_col rm).

Lemma keeps_all_spec dev rm : keeps_all dev rm = true -> forall k, k ∈ rm_col rm -> rc_tried k = true -> rc_error k = 0 -> lost pair_vd dev k = false.
Proof.
  intros H k Hk Ht He. unfold keeps_all in H. rewrite forallb_forall in H. specialize (H k (proj1 (list_elem_of_In _ _) Hk)). rewrite Ht, He in H. cbn in H. by apply negb_true_iff in H.
Qed.

Lemma raidz_write_read_witness : exists iow io repairs,
  raidz_write pair_cx pair_vd quiet (replicate 8 0) pair_wdev pair_write = Ok (Finished iow []) /\
  raidz_read pair_cx pair_vd quiet (replicate 8 0) later_dev pair_read = Ok (Finished io repairs) /\ io_error (io_zio io) = 0.
Proof.
  destruct pair_read_ok as (Hio & Hr).
  assert (Hc : match raidz_write pair_cx pair_vd quiet (replicate 8 0) pair_wdev pair_write with
               | Ok (Finished io []) => (io_error (io_zio io) =? 0) && keeps_all later_dev (io_rm io) | _ => false end = true) by (vm_compute; reflexivity).
  assert (Hv : verdict BIG quiet pair_read pair_data = 0) by (vm_compute; reflexivity).
  destruct (raidz_write pair_cx pair_vd quiet (replicate 8 0) pair_wdev pair_write) as [[iow [| ? ?] | ? ? |] |] eqn:Ew; try discriminate Hc.
  apply andb_true_iff in Hc as (He & Hk). apply Z.eqb_eq in He.
  destruct (raidz_write_read pair_cx pair_vd quiet (replicate 8 0) later_dev pair_read pair_cx quiet (replicate 8 0) pair_wdev pair_write iow
    pair_write_ok eq_refl pair_wdev_ok Ew He Hio eq_refl Hr later_dev_ok eq_refl eq_refl eq_refl Hv (keeps_all_spec _ _ Hk)) as (io & l & E & H0 & _).
  exists iow, io, l. split; [exact eq_refl |]. split; [exact E | exact H0].
Defined.

(** The block on three children, one of them parity. Its two columns were
    equal, so that the parity was zero; the second has been damaged. *)
Definition one_vd : raidz_vdev := MkVd 8 3 1 (fun _ => true) (fun _ => false).
Definition one_zio : zio_t := pair_zio (sealed_bp (replicate 512 5)) ZIO_TYPE_READ (replicate 256 5 ++ replicate 256 6).

Lemma one_ok bp type data : BP_IS_TOGTHER bp = false -> length data = 512%nat -> Forall is_byte data -> block_io pair_cx one_vd (pair_zio bp type data).
Proof.
  intros Hb Hl Hd. split; try done.
  - split; cbn; try lia. by exists 2.
  - intros n Hn. by apply fit_ok.
  - by exists bp.
Qed.

Lemma one_zio_ok : block_io pair_cx one_vd one_zio /\ readable one_zio.
Proof.
  assert (Hb : Forall is_byte (replicate 256 5 ++ replicate 256 6)) by (apply Forall_app; split; by apply Forall_replicate).
  split; [by apply one_ok; [vm_compute; reflexivity | reflexivity |] | by apply sealed_readable; [vm_compute; reflexivity | reflexivity |]].
Qed.

Definition one_io (rm : raidz_map) : raidz_io := MkIo one_zio rm false quiet (replicate 8 0) [] false.

Lemma raidz_combrec_correct_witness : exists rm io',
  io_map pair_cx one_vd one_zio = Ok rm /\ vdev_raidz_combrec pair_cx (one_io rm) 0 0 = Ok (io', 1) /\
  verdict BIG quiet one_zio (io_buffer (io_rm io')) = 0.
Proof.
  destruct one_zio_ok as (Hio & Hr).
  assert (Hm : match io_map pair_cx one_vd one_zio with
    | Ok rm => (columns_with (fun k => negb (rc_error k =? 0)) rm =? 0) && (Z.of_nat (length (bads (err0 rm) (rm_firstdatacol rm) (rm_cols rm - rm_firstdatacol rm))) =? 0) &&
        match vdev_raidz_combrec pair_cx (one_io rm) 0 0 with Ok (_, code) => code =? 1 | Panic => false end
    | Panic => false end = true) by (vm_compute; reflexivity).
  destruct (io_map pair_cx one_vd one_zio) as [rm |] eqn:Erm; [| discriminate Hm]. apply andb_true_iff in Hm as (Hm & Hcode).
  apply andb_true_iff in Hm as (Ht & Hd). apply Z.eqb_eq in Ht, Hd. destruct (map_stripe _ _ _ Hio _ Erm) as (Hst & Ef & Hc & Hb & Hex).
  assert (Hlt : 0 < rm_firstdatacol rm) by (rewrite Ef; done). assert (Hs : length (io_data one_zio) = length (io_buffer rm)) by (by rewrite Hb).
  destruct (raidz_combrec_correct pair_cx _ (one_io rm) 0 0 (bi_alloc _ _ _ Hio) Hst Hex Hc Hr Hs eq_refl (eq_sym Ht) (eq_sym Hd) Hlt) as (io' & code & E & Hok & _).
  rewrite E in Hcode. apply Z.eqb_eq in Hcode. subst code. exists rm, io'. split; [reflexivity |]. split; [exact E |]. apply Hok. discriminate.
Defined.

(** The same with all columns read; the parity read is not that of the data. *)
Definition tried_map : result raidz_map := rm ← io_map pair_cx one_vd one_zio ; write_columns (fun _ _ _ => 0) [0; 1; 2] rm.

Lemma tried_map_ok : exists rm, tried_map = Ok rm /\ stripe rm (io_words one_vd one_zio) /\ exact rm.
Proof.
  destruct one_zio_ok as (Hio & _). destruct (map_ok _ _ _ Hio) as (rm & E). destruct (map_stripe _ _ _ Hio _ E) as (Hst & _ & _ & _ & Hex).
  assert (Hc : rm_cols rm = 3).
  { assert (H : match io_map pair_cx one_vd one_zio with Ok rm => rm_cols rm =? 3 | Panic => false end = true) by (vm_compute; reflexivity).
    rewrite E in H. by apply Z.eqb_eq in H. }
  unfold tried_map. rewrite E, bind_Ok. pose proof (ok_len _ _ (st_ok _ _ Hst)).
  assert (Hw : runs (write_columns (fun _ _ _ => 0) [0; 1; 2] rm) (upd_all (fun _ => write_col (fun _ _ _ => 0)) [0; 1; 2] rm)).
  { apply fold_columns; [by apply (bool_decide_unpack _) | repeat constructor; lia]. }
  apply runs_Ok in Hw as (rm' & Ew & Hu). exists rm'. split; [done |]. change [0; 1; 2] with (seqZ 0 3) in Hu. rewrite <- Hc in Hu.
  destruct (write_cols _ _ _ Hu) as (Hs & _). split; [by eapply shape_stripe | by eapply shape_exact].
Qed.

Lemma raidz_parity_verify_correct_witness : exists rm io',
  tried_map = Ok rm /\ raidz_parity_verify pair_cx (one_io rm) = Ok (io', 1) /\ parity_right (io_rm io') (io_words one_vd one_zio).
Proof.
  destruct tried_map_ok as (rm & E & Hst & Hex). destruct one_zio_ok as (Hio & _).
  assert (Hc : match tried_map with Ok rm => match raidz_parity_verify pair_cx (one_io rm) with Ok (_, n) => n =? 1 | Panic => false end | Panic => false end = true)
    by (vm_compute; reflexivity). rewrite E in Hc.
  destruct (raidz_parity_verify_correct pair_cx _ (one_io rm) (bi_alloc _ _ _ Hio) Hst Hex) as (io' & Ev & _ & Hp & _).
  rewrite Ev in Hc. apply Z.eqb_eq in Hc. exists rm, io'. split; [exact E |]. rewrite <- Hc. split; [exact Ev | exact Hp].
Defined.


