(* ===== verification/RaidzVdev.v ===== *)
(** * Opening a RAID-Z vdev (zfs/module/zfs/vdev_raidz.c)

    [vdev_raidz_open] and [vdev_raidz_state_change], with the states of the
    children as they are after [vdev_open_children]. *)
From S2P Require Import Prelude Bytes Raidz Fletcher Words Blkptr ZioChecksum.
Local Open Scope Z_scope.

Record child_vdev : Type := MkChild { vdev_open_error : Z; vdev_asize : Z; vdev_max_asize : Z; child_ashift : Z }.

Inductive vdev_aux : Type := VDEV_AUX_NONE | VDEV_AUX_BAD_LABEL | VDEV_AUX_NO_REPLICAS.
Inductive vdev_state : Type := VDEV_STATE_CANT_OPEN | VDEV_STATE_DEGRADED | VDEV_STATE_HEALTHY.

(** The out parameters. *)
Record open_size : Type := MkOpen { op_asize : Z; op_max_asize : Z; op_ashift : Z }.

(** One child: the sizes, [lasterror] and [numerrors]. *)
Definition open_child (cvd : child_vdev) (st : open_size * Z * Z) : open_size * Z * Z :=
  let '(o, lasterror, numerrors) := st in
  if negb (vdev_open_error cvd =? 0) then (o, vdev_open_error cvd, numerrors + 1)
  else (MkOpen (u64_add (Z.min (u64_sub (op_asize o) 1) (u64_sub (vdev_asize cvd) 1)) 1)
          (u64_add (Z.min (u64_sub (op_max_asize o) 1) (u64_sub (vdev_max_asize cvd) 1)) 1)
          (Z.max (op_ashift o) (child_ashift cvd)), lasterror, numerrors).

(** The error, the state of the vdev that is left behind, the sizes. *)
Definition vdev_raidz_open (nparity : Z) (children : list child_vdev) (o : open_size) : result (Z * vdev_aux * open_size) :=
  VERIFY (0 <? nparity) ;;
  let n := Z.of_nat (length children) in
  if (VDEV_RAIDZ_MAXPARITY <? nparity) || (n <? u64_add nparity 1) then Ok (EINVAL, VDEV_AUX_BAD_LABEL, o)
  else
    let '(o, lasterror, numerrors) := fold_left (fun st cvd => open_child cvd st) children (o, 0, 0) in
    let o := MkOpen (u64 (op_asize o * n)) (u64 (op_max_asize o * n)) (op_ashift o) in
    if nparity <? numerrors then Ok (lasterror, VDEV_AUX_NO_REPLICAS, o) else Ok (0, VDEV_AUX_NONE, o).

Definition vdev_raidz_state_change (nparity faulted degraded : Z) : vdev_state * vdev_aux :=
  if nparity <? faulted then (VDEV_STATE_CANT_OPEN, VDEV_AUX_NO_REPLICAS)
  else if negb (degraded + faulted =? 0) then (VDEV_STATE_DEGRADED, VDEV_AUX_NONE)
  else (VDEV_STATE_HEALTHY, VDEV_AUX_NONE).

(** ** What opening gives *)
Definition opened (cvd : child_vdev) : bool := vdev_open_error cvd =? 0.
(** Children of at least one byte that fit into the address space [n] times. *)
Definition child_ok (n : Z) (cvd : child_vdev) : Prop :=
  0 < vdev_asize cvd /\ vdev_asize cvd * n < W64 /\ 0 < vdev_max_asize cvd /\ vdev_max_asize cvd * n < W64.

(** The smallest size so far, 0 before the first one. *)
Definition smaller (m c : Z) : Z := if m =? 0 then c else Z.min m c.
Definition smallest (f : child_vdev -> Z) (l : list child_vdev) (m : Z) : Z := fold_left (fun m cvd => if opened cvd then smaller m (f cvd) else m) l m.
Definition failures (l : list child_vdev) : Z := Z.of_nat (length (List.filter (fun cvd => negb (opened cvd)) l)).

Lemma min_wrap m c : 0 <= m < W64 -> 0 < c < W64 -> u64_add (Z.min (u64_sub m 1) (u64_sub c 1)) 1 = smaller m c.
Proof.
  intros Hm Hc. unfold smaller. rewrite (u64_sub_small c 1) by (unfold is_u64; lia). destruct (Z.eqb_spec m 0) as [-> | Hne].
  - change (u64_sub 0 1) with (W64 - 1). rewrite Z.min_r, u64_add_small by (unfold is_u64; lia). lia.
  - rewrite (u64_sub_small m 1), u64_add_small by (unfold is_u64; lia). lia.
Qed.

Lemma smallest_bound f n l m : 0 < n -> 0 <= m -> m * n < W64 -> Forall (fun cvd => opened cvd = true -> 0 < f cvd /\ f cvd * n < W64) l ->
  0 <= smallest f l m /\ smallest f l m * n < W64.
Proof.
  intros Hn. revert m. induction l as [| c l IH]; intros m Hm Hmn Hl; [done |]. apply Forall_cons in Hl as (Hc & Hl). cbn [smallest fold_left].
  destruct (opened c); [| by apply IH]. destruct (Hc eq_refl) as (H1 & H2). unfold smaller. destruct (m =? 0); apply IH; try done; lia || nia.
Qed.

(** The loop over the children. *)
Lemma open_fold n l : 0 < n -> Forall (fun cvd => opened cvd = true -> child_ok n cvd) l ->
  forall a m s e k, 0 <= a -> a * n < W64 -> 0 <= m -> m * n < W64 -> 0 <= k -> (0 < k -> e <> 0) ->
  exists s' e', fold_left (fun st cvd => open_child cvd st) l (MkOpen a m s, e, k) =
    (MkOpen (smallest vdev_asize l a) (smallest vdev_max_asize l m) s', e', k + failures l) /\ (0 < k + failures l -> e' <> 0).
Proof.
  intros Hn. induction l as [| c l IH]; intros Hl a m s e k Ha Han Hm Hmn Hk0 Hk.
  - exists s, e. cbn. by rewrite Z.add_0_r.
  - apply Forall_cons in Hl as (Hc & Hl). cbn [fold_left smallest]. unfold open_child at 2, failures. cbn [List.filter]. fold (opened c).
    destruct (opened c) eqn:Eo; cbn [negb].
    + destruct (Hc eq_refl) as (H1 & H2 & H3 & H4). cbn [op_asize op_max_asize op_ashift]. rewrite !min_wrap by nia.
      apply IH; try done; unfold smaller; repeat case_match; lia || nia.
    + assert (He : vdev_open_error c <> 0) by (unfold opened in Eo; lia). assert (Hf : 0 <= failures l) by (unfold failures; lia).
      destruct (IH Hl a m s (vdev_open_error c) (k + 1) Ha Han Hm Hmn ltac:(lia) ltac:(done)) as (s' & e' & E & He'). exists s', e'. rewrite E. unfold failures in *.
      cbn [length]. rewrite Nat2Z.inj_succ. match goal with |- context [k + Z.succ ?x] => replace (k + Z.succ x) with (k + 1 + x) by lia end. done.
Qed.

(** [vdev_raidz_open] succeeds when no more children have failed than there is
    parity for. The size is then that of the smallest child that was opened,
    times the number of children. *)
Lemma raidz_open_spec nparity children : 1 <= nparity <= 3 -> nparity < Z.of_nat (length children) < 2 ^ 32 ->
  Forall (fun cvd => opened cvd = true -> child_ok (Z.of_nat (length children)) cvd) children ->
  let n := Z.of_nat (length children) in
  exists error aux o, vdev_raidz_open nparity children (MkOpen 0 0 0) = Ok (error, aux, o) /\
    (error = 0 <-> failures children <= nparity) /\ (aux = VDEV_AUX_NONE <-> error = 0) /\
    op_asize o = smallest vdev_asize children 0 * n /\ op_max_asize o = smallest vdev_max_asize children 0 * n.
Proof.
  intros Hp Hlen Hl n. destruct (open_fold n children ltac:(lia) Hl 0 0 0 0 0) as (s & e & E & He); try done.
  assert (H1 : 0 <= smallest vdev_asize children 0 /\ smallest vdev_asize children 0 * n < W64).
  { apply smallest_bound; try (done || lia). eapply Forall_impl; [exact Hl |]. intros c Hc Ho. by destruct (Hc Ho) as (? & ? & _). }
  assert (H2 : 0 <= smallest vdev_max_asize children 0 /\ smallest vdev_max_asize children 0 * n < W64).
  { apply smallest_bound; try (done || lia). eapply Forall_impl; [exact Hl |]. intros c Hc Ho. by destruct (Hc Ho) as (_ & _ & ? & ?). }
  unfold vdev_raidz_open. rewrite VERIFY_pass by lia. fold n. change VDEV_RAIDZ_MAXPARITY with 3. rewrite u64_add_small by (unfold is_u64, W64; lia).
  rewrite (proj2 (Z.ltb_ge 3 nparity)), (proj2 (Z.ltb_ge n (nparity + 1))) by lia. cbn [orb]. rewrite E, Z.add_0_l in *. cbn [op_asize op_max_asize op_ashift].
  rewrite !u64_small by (unfold is_u64; lia || nia). destruct (Z.ltb_spec nparity (failures children)) as [Hlt | Hge].
  - eexists _, _, _. split; [done |]. assert (e <> 0) by (apply He; lia). split; [split; [done | lia] |]. split; [split; [done | done] |]. done.
  - eexists _, _, _. split; [done |]. done.
Qed.
