(* ===== verification/IdmConn.v ===== *)
(** * iSCSI data mover connections (zfs/module/idm)

    The data of a connection ([idm_conn_t], [idm_refcnt_t], [idm_pdu_t]), the
    reference counts of idm.c, and the event queue of idm_conn_sm.c. A
    connection, the PDUs it handles, its timers and the task queues form one
    state [sm]; calls into the client and the transport are recorded in a
    trace, and what they return is given by an [idm_env]. Failed assertions,
    accesses to freed PDUs and a thread taking [ic_state_mutex] twice are
    panics. *)
From S2P Require Import Prelude.
Local Open Scope Z_scope.

(** ** Enumerations *)
Inductive idm_conn_event_t : Type :=
  | CE_UNDEFINED
  | CE_CONNECT_REQ | CE_CONNECT_FAIL | CE_CONNECT_SUCCESS | CE_LOGIN_SND | CE_LOGIN_SUCCESS_RCV
  | CE_LOGIN_FAIL_RCV | CE_LOGOUT_THIS_CONN_SND | CE_LOGOUT_OTHER_CONN_SND | CE_LOGOUT_SESSION_SND
  | CE_LOGOUT_SUCCESS_RCV | CE_LOGOUT_FAIL_RCV | CE_ASYNC_LOGOUT_RCV | CE_ASYNC_DROP_CONN_RCV
  | CE_ASYNC_DROP_ALL_CONN_RCV
  | CE_CONNECT_ACCEPT | CE_CONNECT_REJECT | CE_LOGIN_RCV | CE_LOGIN_TIMEOUT | CE_LOGIN_SUCCESS_SND
  | CE_LOGIN_FAIL_SND | CE_LOGIN_FAIL_SND_DONE | CE_LOGOUT_THIS_CONN_RCV | CE_LOGOUT_OTHER_CONN_RCV
  | CE_LOGOUT_SESSION_RCV | CE_LOGOUT_SUCCESS_SND | CE_LOGOUT_SUCCESS_SND_DONE | CE_LOGOUT_FAIL_SND
  | CE_LOGOUT_FAIL_SND_DONE | CE_CLEANUP_TIMEOUT | CE_ASYNC_LOGOUT_SND | CE_ASYNC_DROP_CONN_SND
  | CE_ASYNC_DROP_ALL_CONN_SND | CE_LOGOUT_TIMEOUT
  | CE_TRANSPORT_FAIL | CE_MISC_TX | CE_TX_PROTOCOL_ERROR | CE_MISC_RX | CE_RX_PROTOCOL_ERROR
  | CE_LOGOUT_SESSION_SUCCESS | CE_CONN_REINSTATE | CE_CONN_REINSTATE_SUCCESS | CE_CONN_REINSTATE_FAIL
  | CE_ENABLE_DM_SUCCESS | CE_ENABLE_DM_FAIL
  | CE_MAX_EVENT.

Inductive idm_conn_state_t : Type :=
  | CS_S0_UNDEFINED
  | CS_S1_FREE | CS_S2_XPT_WAIT | CS_S3_XPT_UP | CS_S4_IN_LOGIN | CS_S5_LOGGED_IN | CS_S6_IN_LOGOUT
  | CS_S7_LOGOUT_REQ | CS_S8_CLEANUP | CS_S9_INIT_ERROR | CS_S10_IN_CLEANUP | CS_S11_COMPLETE
  | CS_S12_ENABLE_DM | CS_S9A_REJECTED | CS_S9B_WAIT_SND_DONE
  | CS_MAX_STATE.

Inductive idm_pdu_event_type_t : Type := CT_NONE | CT_RX_PDU | CT_TX_PDU.
Inductive idm_pdu_event_action_t : Type := CA_TX_PROTOCOL_ERROR | CA_RX_PROTOCOL_ERROR | CA_FORWARD | CA_DROP.
Inductive idm_status_t : Type :=
  | IDM_STATUS_SUCCESS | IDM_STATUS_FAIL | IDM_STATUS_NORESOURCES | IDM_STATUS_REJECT | IDM_STATUS_IO
  | IDM_STATUS_ABORTED | IDM_STATUS_SUSPENDED | IDM_STATUS_HEADER_DIGEST | IDM_STATUS_DATA_DIGEST
  | IDM_STATUS_PROTOCOL_ERROR | IDM_STATUS_LOGIN_FAIL.
Inductive idm_client_notify_t : Type :=
  | CN_CONNECT_ACCEPT | CN_LOGIN_FAIL | CN_READY_FOR_LOGIN | CN_FFP_ENABLED | CN_FFP_DISABLED
  | CN_CONNECT_LOST | CN_CONNECT_DESTROY | CN_CONNECT_FAIL | CN_MAX.
Inductive idm_ffp_disable_t : Type := FD_CONN_FAIL | FD_CONN_LOGOUT | FD_SESS_LOGOUT.
Inductive idm_abort_type_t : Type := AT_INTERNAL_SUSPEND | AT_INTERNAL_ABORT | AT_TASK_MGMT_ABORT.
Inductive idm_conn_type_t : Type := CONN_TYPE_INI | CONN_TYPE_TGT.
Inductive idm_refcnt_wait_t : Type := REF_NOWAIT | REF_WAIT_SYNC | REF_WAIT_ASYNC.

#[export] Instance event_eq_dec : EqDecision idm_conn_event_t.
Proof. solve_decision. Defined.
#[export] Instance state_eq_dec : EqDecision idm_conn_state_t.
Proof. solve_decision. Defined.
#[export] Instance pdu_type_eq_dec : EqDecision idm_pdu_event_type_t.
Proof. solve_decision. Defined.
#[export] Instance status_eq_dec : EqDecision idm_status_t.
Proof. solve_decision. Defined.
#[export] Instance conn_type_eq_dec : EqDecision idm_conn_type_t.
Proof. solve_decision. Defined.
#[export] Instance wait_eq_dec : EqDecision idm_refcnt_wait_t.
Proof. solve_decision. Defined.

(** The values of the enumeration of the states, for the one comparison the
    code makes. *)
Definition cs_num (st : idm_conn_state_t) : Z :=
  match st with
  | CS_S0_UNDEFINED => 0 | CS_S1_FREE => 1 | CS_S2_XPT_WAIT => 2 | CS_S3_XPT_UP => 3 | CS_S4_IN_LOGIN => 4
  | CS_S5_LOGGED_IN => 5 | CS_S6_IN_LOGOUT => 6 | CS_S7_LOGOUT_REQ => 7 | CS_S8_CLEANUP => 8
  | CS_S9_INIT_ERROR => 9 | CS_S10_IN_CLEANUP => 10 | CS_S11_COMPLETE => 11 | CS_S12_ENABLE_DM => 12
  | CS_S9A_REJECTED => 13 | CS_S9B_WAIT_SND_DONE => 14 | CS_MAX_STATE => 15
  end.

(** iSCSI opcodes, the low six bits of the first byte of a header. *)
Inductive iscsi_op : Type :=
  | ISCSI_OP_NOOP_OUT | ISCSI_OP_SCSI_CMD | ISCSI_OP_SCSI_TASK_MGT_MSG | ISCSI_OP_LOGIN_CMD | ISCSI_OP_TEXT_CMD
  | ISCSI_OP_SCSI_DATA | ISCSI_OP_LOGOUT_CMD | ISCSI_OP_SNACK_CMD
  | ISCSI_OP_NOOP_IN | ISCSI_OP_SCSI_RSP | ISCSI_OP_SCSI_TASK_MGT_RSP | ISCSI_OP_LOGIN_RSP | ISCSI_OP_TEXT_RSP
  | ISCSI_OP_SCSI_DATA_RSP | ISCSI_OP_LOGOUT_RSP | ISCSI_OP_RTT_RSP | ISCSI_OP_ASYNC_EVENT | ISCSI_OP_REJECT_MSG
  | ISCSI_OP_UNKNOWN.

Definition ISCSI_OPCODE_MASK : Z := 0x3F.
Definition iscsi_op_of (z : Z) : iscsi_op :=
  if z =? 0x00 then ISCSI_OP_NOOP_OUT else if z =? 0x01 then ISCSI_OP_SCSI_CMD
  else if z =? 0x02 then ISCSI_OP_SCSI_TASK_MGT_MSG else if z =? 0x03 then ISCSI_OP_LOGIN_CMD
  else if z =? 0x04 then ISCSI_OP_TEXT_CMD else if z =? 0x05 then ISCSI_OP_SCSI_DATA
  else if z =? 0x06 then ISCSI_OP_LOGOUT_CMD else if z =? 0x10 then ISCSI_OP_SNACK_CMD
  else if z =? 0x20 then ISCSI_OP_NOOP_IN else if z =? 0x21 then ISCSI_OP_SCSI_RSP
  else if z =? 0x22 then ISCSI_OP_SCSI_TASK_MGT_RSP else if z =? 0x23 then ISCSI_OP_LOGIN_RSP
  else if z =? 0x24 then ISCSI_OP_TEXT_RSP else if z =? 0x25 then ISCSI_OP_SCSI_DATA_RSP
  else if z =? 0x26 then ISCSI_OP_LOGOUT_RSP else if z =? 0x31 then ISCSI_OP_RTT_RSP
  else if z =? 0x32 then ISCSI_OP_ASYNC_EVENT else if z =? 0x3f then ISCSI_OP_REJECT_MSG
  else ISCSI_OP_UNKNOWN.

Definition CF_LOGIN_READY : Z := 0x00000001.
Definition CF_INITIAL_LOGIN : Z := 0x00000002.
Definition CF_ERROR : Z := 0x80000000.

(** ** Records *)
(** [isp_callback]: a function of the client or one of the callbacks the
    state machine puts in its place. *)
Inductive idm_pdu_cb_t : Type :=
  | client_cb (n : nat)
  | idm_state_s6_in_logout_success_snd_done
  | idm_state_s6_in_logout_fail_snd_done
  | idm_state_s9b_wait_snd_done_cb.

(** The header fields the state machine reads, the callback and the status. *)
Record idm_pdu_t : Type := MkPdu {
  hdr_opcode : Z;
  hdr_flags : Z;
  hdr_status_class : Z;
  hdr_response : Z;
  hdr_async_event : Z;
  hdr_cid : Z;
  isp_callback : option idm_pdu_cb_t;
  isp_status : idm_status_t;
  isp_alloc : bool
}.

Definition IDM_PDU_OPCODE (pdu : idm_pdu_t) : iscsi_op := iscsi_op_of (Z.land (hdr_opcode pdu) ISCSI_OPCODE_MASK).

(** [iec_info]: nothing, a PDU, or a connection. *)
Inductive event_info_t : Type := NoInfo | InfoPdu (p : nat) | InfoConn (c : nat).

Record idm_conn_event_ctx_t : Type := MkCtx {
  iec_event : idm_conn_event_t;
  iec_info : event_info_t;
  iec_pdu_event_type : idm_pdu_event_type_t
}.

Inductive refcnt_cb : Type := idm_conn_unref_cb | idm_conn_reject_unref_cb.

Record idm_refcnt_t : Type := MkRef { ir_refcnt : Z; ir_waiting : idm_refcnt_wait_t; ir_cb : option refcnt_cb }.

(** What a pending timer will do. *)
Inductive idm_timer : Type := idm_login_timeout | idm_logout_req_timeout | idm_cleanup_timeout.
#[export] Instance timer_eq_dec : EqDecision idm_timer.
Proof. solve_decision. Defined.

(** [struct timeout_id] until its function is called and it is freed. A timer
    that is [ti_expired] is on the list of a worker thread. *)
Record timeout_id : Type := MkTid { ti_id : nat; ti_func : idm_timer; ti_expired : bool }.
#[export] Instance timeout_id_eq_dec : EqDecision timeout_id.
Proof. solve_decision. Defined.

Record idm_conn_t : Type := MkConn {
  ic_refcnt : idm_refcnt_t;
  ic_state : idm_conn_state_t;
  ic_last_state : idm_conn_state_t;
  ic_state_mutex : bool;
  ic_state_flags : Z;
  ic_state_timeout : nat;
  ic_reinstate_conn : option nat;
  ic_pdu_events : Z;
  ic_login_info_valid : bool;
  ic_rdma_extensions : bool;
  ic_login_cid : Z;
  ic_conn_sm_status : idm_status_t;
  ic_ffp : bool;
  ic_conn_type : idm_conn_type_t;
  ic_client_callback : option idm_pdu_cb_t
}.

(** Calls out of the state machine. *)
Inductive effect : Type :=
  | Notify (cn : idm_client_notify_t) (data : Z)
  | TgtDisconnect | IniDisconnect
  | TaskAbort (t : idm_abort_type_t)
  | RxForward (p : nat) | TxForward (p : nat)
  | RxError (p : nat) (st : idm_status_t)
  | PduCallback (p n : nat) (st : idm_status_t)
  | PduFree (p : nat)
  | EventTo (c : nat) (e : idm_conn_event_t)
  | RefSignal
  | ConnDestroy.

(** [taskq] is [ic_state_taskq], a queue served by one thread; [global_taskq]
    holds the callbacks dispatched to [idm_global_taskq]; [timers] the timers
    whose function has not been called; [pdus] the PDUs, [None] once
    they are freed. *)
Record sm : Type := MkSm {
  ic : idm_conn_t;
  taskq : list idm_conn_event_ctx_t;
  global_taskq : list refcnt_cb;
  pdus : list (option idm_pdu_t);
  timers : list timeout_id;
  next_timer : nat;
  trace : list effect
}.

(** What the client and the transport answer, and whether the allocation of a
    [struct timeout_id] succeeds. *)
Record idm_env : Type := MkEnv {
  cc_cache_alloc : bool;
  icb_client_notify : idm_client_notify_t -> Z -> idm_status_t;
  it_ini_conn_connect : idm_status_t;
  it_tgt_conn_connect : idm_status_t;
  it_ini_enable_datamover : idm_status_t;
  it_tgt_enable_datamover : idm_status_t
}.

(** ** Updates *)
Definition upd_ic (f : idm_conn_t -> idm_conn_t) (s : sm) : sm :=
  MkSm (f (ic s)) (taskq s) (global_taskq s) (pdus s) (timers s) (next_timer s) (trace s).
Definition emit (e : effect) (s : sm) : sm :=
  MkSm (ic s) (taskq s) (global_taskq s) (pdus s) (timers s) (next_timer s) (trace s ++ [e]).

Definition with_refcnt (r : idm_refcnt_t) (c : idm_conn_t) : idm_conn_t :=
  MkConn r (ic_state c) (ic_last_state c) (ic_state_mutex c) (ic_state_flags c) (ic_state_timeout c)
    (ic_reinstate_conn c) (ic_pdu_events c) (ic_login_info_valid c) (ic_rdma_extensions c) (ic_login_cid c)
    (ic_conn_sm_status c) (ic_ffp c) (ic_conn_type c) (ic_client_callback c).
Definition with_state (st last : idm_conn_state_t) (c : idm_conn_t) : idm_conn_t :=
  MkConn (ic_refcnt c) st last (ic_state_mutex c) (ic_state_flags c) (ic_state_timeout c)
    (ic_reinstate_conn c) (ic_pdu_events c) (ic_login_info_valid c) (ic_rdma_extensions c) (ic_login_cid c)
    (ic_conn_sm_status c) (ic_ffp c) (ic_conn_type c) (ic_client_callback c).
Definition with_mutex (b : bool) (c : idm_conn_t) : idm_conn_t :=
  MkConn (ic_refcnt c) (ic_state c) (ic_last_state c) b (ic_state_flags c) (ic_state_timeout c)
    (ic_reinstate_conn c) (ic_pdu_events c) (ic_login_info_valid c) (ic_rdma_extensions c) (ic_login_cid c)
    (ic_conn_sm_status c) (ic_ffp c) (ic_conn_type c) (ic_client_callback c).
Definition with_flags (f : Z) (c : idm_conn_t) : idm_conn_t :=
  MkConn (ic_refcnt c) (ic_state c) (ic_last_state c) (ic_state_mutex c) f (ic_state_timeout c)
    (ic_reinstate_conn c) (ic_pdu_events c) (ic_login_info_valid c) (ic_rdma_extensions c) (ic_login_cid c)
    (ic_conn_sm_status c) (ic_ffp c) (ic_conn_type c) (ic_client_callback c).
Definition with_timeout (t : nat) (c : idm_conn_t) : idm_conn_t :=
  MkConn (ic_refcnt c) (ic_state c) (ic_last_state c) (ic_state_mutex c) (ic_state_flags c) t
    (ic_reinstate_conn c) (ic_pdu_events c) (ic_login_info_valid c) (ic_rdma_extensions c) (ic_login_cid c)
    (ic_conn_sm_status c) (ic_ffp c) (ic_conn_type c) (ic_client_callback c).
Definition with_reinstate (r : option nat) (c : idm_conn_t) : idm_conn_t :=
  MkConn (ic_refcnt c) (ic_state c) (ic_last_state c) (ic_state_mutex c) (ic_state_flags c) (ic_state_timeout c)
    r (ic_pdu_events c) (ic_login_info_valid c) (ic_rdma_extensions c) (ic_login_cid c)
    (ic_conn_sm_status c) (ic_ffp c) (ic_conn_type c) (ic_client_callback c).
Definition with_pdu_events (n : Z) (c : idm_conn_t) : idm_conn_t :=
  MkConn (ic_refcnt c) (ic_state c) (ic_last_state c) (ic_state_mutex c) (ic_state_flags c) (ic_state_timeout c)
    (ic_reinstate_conn c) n (ic_login_info_valid c) (ic_rdma_extensions c) (ic_login_cid c)
    (ic_conn_sm_status c) (ic_ffp c) (ic_conn_type c) (ic_client_callback c).
Definition with_login (valid : bool) (cid : Z) (c : idm_conn_t) : idm_conn_t :=
  MkConn (ic_refcnt c) (ic_state c) (ic_last_state c) (ic_state_mutex c) (ic_state_flags c) (ic_state_timeout c)
    (ic_reinstate_conn c) (ic_pdu_events c) valid (ic_rdma_extensions c) cid
    (ic_conn_sm_status c) (ic_ffp c) (ic_conn_type c) (ic_client_callback c).
Definition with_sm_status (st : idm_status_t) (c : idm_conn_t) : idm_conn_t :=
  MkConn (ic_refcnt c) (ic_state c) (ic_last_state c) (ic_state_mutex c) (ic_state_flags c) (ic_state_timeout c)
    (ic_reinstate_conn c) (ic_pdu_events c) (ic_login_info_valid c) (ic_rdma_extensions c) (ic_login_cid c)
    st (ic_ffp c) (ic_conn_type c) (ic_client_callback c).
Definition with_ffp (b : bool) (c : idm_conn_t) : idm_conn_t :=
  MkConn (ic_refcnt c) (ic_state c) (ic_last_state c) (ic_state_mutex c) (ic_state_flags c) (ic_state_timeout c)
    (ic_reinstate_conn c) (ic_pdu_events c) (ic_login_info_valid c) (ic_rdma_extensions c) (ic_login_cid c)
    (ic_conn_sm_status c) b (ic_conn_type c) (ic_client_callback c).
Definition with_callback (cb : option idm_pdu_cb_t) (c : idm_conn_t) : idm_conn_t :=
  MkConn (ic_refcnt c) (ic_state c) (ic_last_state c) (ic_state_mutex c) (ic_state_flags c) (ic_state_timeout c)
    (ic_reinstate_conn c) (ic_pdu_events c) (ic_login_info_valid c) (ic_rdma_extensions c) (ic_login_cid c)
    (ic_conn_sm_status c) (ic_ffp c) (ic_conn_type c) cb.

Definition IDM_CONN_ISTGT (s : sm) : bool := bool_decide (ic_conn_type (ic s) = CONN_TYPE_TGT).
Definition IDM_CONN_ISINI (s : sm) : bool := bool_decide (ic_conn_type (ic s) = CONN_TYPE_INI).

(** ** Locks, timers and PDUs *)
Definition mutex_enter (s : sm) : result sm :=
  VERIFY (negb (ic_state_mutex (ic s))) ;; Ok (upd_ic (with_mutex true) s).
Definition mutex_exit (s : sm) : result sm :=
  VERIFY (ic_state_mutex (ic s)) ;; Ok (upd_ic (with_mutex false) s).

(** [timeout] returns [TIMEOUT_ID_INVALID], 0, without memory. *)
Definition timeout (mem : bool) (t : idm_timer) (s : sm) : sm :=
  let id := next_timer s in
  if mem then
    MkSm (with_timeout id (ic s)) (taskq s) (global_taskq s) (pdus s) (MkTid id t false :: timers s) (S id) (trace s)
  else upd_ic (with_timeout 0) s.

(** [timeout_call_fn]: the timer goes to a worker thread. *)
Definition timeout_call_fn (id : nat) (s : sm) : sm :=
  MkSm (ic s) (taskq s) (global_taskq s) (pdus s)
    (map (fun t => if Nat.eqb (ti_id t) id then MkTid (ti_id t) (ti_func t) true else t) (timers s))
    (next_timer s) (trace s).

(** [untimeout] leaves a timer that has expired alone. *)
Definition untimeout (s : sm) : sm :=
  let id := ic_state_timeout (ic s) in
  MkSm (ic s) (taskq s) (global_taskq s) (pdus s)
    (List.filter (fun t => negb (Nat.eqb (ti_id t) id) || ti_expired t) (timers s)) (next_timer s) (trace s).

Definition get_pdu (s : sm) (p : nat) : result idm_pdu_t := o ← deref (pdus s !! p) ; deref o.
Definition set_pdu (p : nat) (o : option idm_pdu_t) (s : sm) : sm :=
  MkSm (ic s) (taskq s) (global_taskq s) (<[p := o]> (pdus s)) (timers s) (next_timer s) (trace s).
Definition with_isp_status (st : idm_status_t) (u : idm_pdu_t) : idm_pdu_t :=
  MkPdu (hdr_opcode u) (hdr_flags u) (hdr_status_class u) (hdr_response u) (hdr_async_event u) (hdr_cid u)
    (isp_callback u) st (isp_alloc u).
Definition with_isp_callback (cb : option idm_pdu_cb_t) (u : idm_pdu_t) : idm_pdu_t :=
  MkPdu (hdr_opcode u) (hdr_flags u) (hdr_status_class u) (hdr_response u) (hdr_async_event u) (hdr_cid u)
    cb (isp_status u) (isp_alloc u).
(** [(idm_pdu_t * )event_ctx->iec_info] *)
Definition info_pdu (i : event_info_t) : result nat :=
  match i with InfoPdu p => Ok p | _ => Panic end.

(** ** Reference counts *)
Definition idm_refcnt_reset : idm_refcnt_t := MkRef 0 REF_NOWAIT None.

Definition idm_refcnt_hold (s : sm) : result sm :=
  let r := ic_refcnt (ic s) in
  VERIFY (bool_decide (ir_waiting r = REF_NOWAIT)) ;;
  Ok (upd_ic (with_refcnt (MkRef (ir_refcnt r + 1) (ir_waiting r) (ir_cb r))) s).

Definition dispatch_global (cb : option refcnt_cb) (s : sm) : result sm :=
  c ← deref cb ;
  Ok (MkSm (ic s) (taskq s) (global_taskq s ++ [c]) (pdus s) (timers s) (next_timer s) (trace s)).

Definition idm_refcnt_rele (s : sm) : result sm :=
  let r := ic_refcnt (ic s) in
  VERIFY (0 <? ir_refcnt r) ;;
  let n := ir_refcnt r - 1 in
  let s := upd_ic (with_refcnt (MkRef n (ir_waiting r) (ir_cb r))) s in
  match ir_waiting r with
  | REF_NOWAIT => Ok s
  | w =>
      if n =? 0 then
        match w with
        | REF_WAIT_ASYNC => dispatch_global (ir_cb r) s
        | REF_WAIT_SYNC => Ok (emit RefSignal s)
        | REF_NOWAIT => Ok s
        end
      else Ok s
  end.

Definition idm_refcnt_async_wait_ref (cb : refcnt_cb) (s : sm) : result sm :=
  let r := ic_refcnt (ic s) in
  let s := upd_ic (with_refcnt (MkRef (ir_refcnt r) REF_WAIT_ASYNC (Some cb))) s in
  if ir_refcnt r =? 0 then dispatch_global (Some cb) s else Ok s.

Definition idm_conn_hold (s : sm) : result sm := idm_refcnt_hold s.
Definition idm_conn_rele (s : sm) : result sm := idm_refcnt_rele s.

(** ** Events *)
Definition terminal (st : idm_conn_state_t) : bool :=
  bool_decide (st = CS_S9_INIT_ERROR) || bool_decide (st = CS_S9A_REJECTED) || bool_decide (st = CS_S11_COMPLETE).

(** The normal handling of an event: a reference and a place in the queue. *)
Definition queue_event (e : idm_conn_event_t) (i : event_info_t) (ty : idm_pdu_event_type_t) (s : sm) : result sm :=
  s ← idm_conn_hold s ;
  Ok (MkSm (ic s) (taskq s ++ [MkCtx e i ty]) (global_taskq s) (pdus s) (timers s) (next_timer s) (trace s)).

(** [idm_conn_event] with [idm_conn_event_locked] at [CT_NONE]. *)
Definition idm_conn_event (e : idm_conn_event_t) (i : event_info_t) (s : sm) : result sm :=
  s ← mutex_enter s ;
  s ← (if terminal (ic_state (ic s)) then Ok s else queue_event e i CT_NONE s) ;
  mutex_exit s.

(** A worker thread calls the function of a timer that has expired and frees it. *)
Definition timer_event (t : idm_timer) : idm_conn_event_t :=
  match t with
  | idm_login_timeout => CE_LOGIN_TIMEOUT
  | idm_logout_req_timeout => CE_LOGOUT_TIMEOUT
  | idm_cleanup_timeout => CE_CLEANUP_TIMEOUT
  end.
Definition without_timer (t : timeout_id) (s : sm) : sm :=
  MkSm (ic s) (taskq s) (global_taskq s) (pdus s) (List.filter (fun u => negb (bool_decide (u = t))) (timers s))
    (next_timer s) (trace s).
Definition callout_worker_fn (t : timeout_id) (s : sm) : result sm :=
  idm_conn_event (timer_event (ti_func t)) NoInfo (without_timer t s).

Definition run_cb (cb : idm_pdu_cb_t) (p : nat) (st : idm_status_t) (s : sm) : result sm :=
  match cb with
  | client_cb n => Ok (emit (PduCallback p n st) s)
  | idm_state_s6_in_logout_success_snd_done => idm_conn_event CE_LOGOUT_SUCCESS_SND_DONE (InfoPdu p) s
  | idm_state_s6_in_logout_fail_snd_done => idm_conn_event CE_LOGOUT_FAIL_SND_DONE (InfoPdu p) s
  | idm_state_s9b_wait_snd_done_cb => idm_conn_event CE_LOGIN_FAIL_SND_DONE (InfoPdu p) s
  end.

Definition idm_pdu_complete (p : nat) (st : idm_status_t) (s : sm) : result sm :=
  u ← get_pdu s p ;
  match isp_callback u with
  | Some cb => run_cb cb p st (set_pdu p (Some (with_isp_status st u)) s)
  | None => VERIFY (isp_alloc u) ;; Ok (emit (PduFree p) (set_pdu p None s))
  end.

Definition idm_conn_event_locked (e : idm_conn_event_t) (i : event_info_t) (ty : idm_pdu_event_type_t) (s : sm) :
  result sm :=
  VERIFY (ic_state_mutex (ic s)) ;;
  if terminal (ic_state (ic s)) then
    match ty with
    | CT_NONE => Ok s
    | _ =>
        p ← info_pdu i ;
        idm_pdu_complete p IDM_STATUS_SUCCESS (upd_ic (with_pdu_events (ic_pdu_events (ic s) - 1)) s)
    end
  else queue_event e i ty s.

Definition idm_conn_tx_pdu_event (e : idm_conn_event_t) (p : nat) (s : sm) : result sm :=
  VERIFY (ic_state_mutex (ic s)) ;;
  idm_conn_event_locked e (InfoPdu p) CT_TX_PDU (upd_ic (with_pdu_events (ic_pdu_events (ic s) + 1)) s).
Definition idm_conn_rx_pdu_event (e : idm_conn_event_t) (p : nat) (s : sm) : result sm :=
  VERIFY (ic_state_mutex (ic s)) ;;
  idm_conn_event_locked e (InfoPdu p) CT_RX_PDU (upd_ic (with_pdu_events (ic_pdu_events (ic s) + 1)) s).

Definition idm_conn_sm_init (ty : idm_conn_type_t) (rdma : bool) (us : list (option idm_pdu_t)) : sm :=
  MkSm (MkConn idm_refcnt_reset CS_S1_FREE CS_S1_FREE false 0 0 None 0 false rdma 0 IDM_STATUS_SUCCESS false ty None)
    [] [] us [] 1 [].

(** [idm_conn_reinstate_event]: the old connection, known as [old] to the new
    one and the new one as [new] to the old. *)
Definition idm_conn_reinstate_event (old new : nat) (s_old s_new : sm) : result (idm_status_t * sm * sm) :=
  s_old ← mutex_enter s_old ;
  if (bool_decide (ic_conn_type (ic s_old) = CONN_TYPE_INI) && negb (bool_decide (ic_state (ic s_old) = CS_S8_CLEANUP)))
     || (bool_decide (ic_conn_type (ic s_old) = CONN_TYPE_TGT) && (cs_num (ic_state (ic s_old)) <? cs_num CS_S5_LOGGED_IN))
  then s_old ← mutex_exit s_old ; Ok (IDM_STATUS_FAIL, s_old, s_new)
  else
    s_old ← idm_conn_event_locked CE_CONN_REINSTATE (InfoConn new) CT_NONE s_old ;
    s_old ← mutex_exit s_old ;
    Ok (IDM_STATUS_SUCCESS, s_old, upd_ic (with_reinstate (Some old)) s_new).
