(* ===== verification/IdmConnSm.v ===== *)
(** * The connection state machine (zfs/module/idm/idm_conn_sm.c, idm_impl.c, idm.c)

    The handler of queued events with one function per state, the actions on
    entering a state, the validation of PDUs, and the entry points
    [idm_pdu_rx] and [idm_pdu_tx]. A handler returns the new state and whether
    it has already forwarded the PDU of its event ([iec_pdu_forwarded]). *)
From S2P Require Import Prelude IdmConn.
Local Open Scope Z_scope.

Section machine.
Context (env : idm_env).

(** ** Calls to the client and the transport *)
Definition idm_notify_client (cn : idm_client_notify_t) (data : Z) (s : sm) : result (idm_status_t * sm) :=
  VERIFY (negb (ic_state_mutex (ic s))) ;; Ok (icb_client_notify env cn data, emit (Notify cn data) s).
(** [(void) idm_notify_client(...)] *)
Definition notify_ (cn : idm_client_notify_t) (data : Z) (s : sm) : result sm :=
  '(_, s) ← idm_notify_client cn data s ; Ok s.

Definition disconnect (s : sm) : sm := if IDM_CONN_ISTGT s then emit TgtDisconnect s else emit IniDisconnect s.

(** The first statements of [idm_task_abort]; the tasks themselves are not
    part of the connection. *)
Definition idm_task_abort_all (t : idm_abort_type_t) (s : sm) : result sm :=
  VERIFY (negb (ic_ffp (ic s))) ;; Ok (emit (TaskAbort t) s).

Definition idm_ini_conn_finish (s : sm) : idm_status_t := it_ini_conn_connect env.
Definition idm_tgt_conn_finish (s : sm) : result (idm_status_t * sm) :=
  '(rc, s) ← idm_notify_client CN_CONNECT_ACCEPT 0 s ;
  if bool_decide (rc = IDM_STATUS_SUCCESS) then Ok (it_tgt_conn_connect env, s) else Ok (IDM_STATUS_REJECT, s).

Definition fd_num (d : idm_ffp_disable_t) : Z :=
  match d with FD_CONN_FAIL => 0 | FD_CONN_LOGOUT => 1 | FD_SESS_LOGOUT => 2 end.

Definition set_ffp (b : bool) (s : sm) : result sm :=
  s ← mutex_enter s ; mutex_exit (upd_ic (with_ffp b) s).
Definition idm_ffp_enable (s : sm) : result (idm_status_t * sm) :=
  s ← set_ffp true s ;
  '(rc, s) ← idm_notify_client CN_FFP_ENABLED 0 s ;
  s ← (if bool_decide (rc = IDM_STATUS_SUCCESS) then Ok s else set_ffp false s) ;
  Ok (rc, s).
Definition idm_ffp_disable (d : idm_ffp_disable_t) (s : sm) : result sm :=
  s ← set_ffp false s ; notify_ CN_FFP_DISABLED (fd_num d) s.

Definition idm_initial_login_actions (c : idm_conn_event_ctx_t) (s : sm) : result sm :=
  p ← info_pdu (iec_info c) ; u ← get_pdu s p ;
  VERIFY (bool_decide (iec_event c = CE_LOGIN_RCV) || bool_decide (iec_event c = CE_LOGIN_SND)) ;;
  VERIFY (ic_state_mutex (ic s)) ;;
  Ok (upd_ic (fun k => with_login (ic_login_info_valid k) (hdr_cid u)
                (with_flags (Z.lor (ic_state_flags k) CF_INITIAL_LOGIN) k)) s).

Definition idm_login_success_actions (c : idm_conn_event_ctx_t) (s : sm) : result sm :=
  VERIFY (bool_decide (iec_event c = CE_LOGIN_SUCCESS_RCV) || bool_decide (iec_event c = CE_LOGIN_SUCCESS_SND)) ;;
  s ← mutex_enter s ; mutex_exit (upd_ic (fun k => with_login true (ic_login_cid k) k) s).

Definition idm_pdu_tx_forward (p : nat) (s : sm) : sm := emit (TxForward p) s.
(** [idm_pdu_rx_forward_ffp]: the PDUs a client gets in full-feature phase. *)
Definition ffp_pdu (o : iscsi_op) : bool :=
  match o with
  | ISCSI_OP_SCSI_CMD | ISCSI_OP_SCSI_DATA | ISCSI_OP_SCSI_TASK_MGT_MSG | ISCSI_OP_NOOP_OUT | ISCSI_OP_TEXT_CMD
  | ISCSI_OP_SCSI_RSP | ISCSI_OP_SCSI_DATA_RSP | ISCSI_OP_RTT_RSP | ISCSI_OP_SCSI_TASK_MGT_RSP
  | ISCSI_OP_TEXT_RSP | ISCSI_OP_NOOP_IN => true
  | _ => false
  end.
Definition idm_pdu_rx_forward_ffp (p : nat) (s : sm) : result (bool * sm) :=
  u ← get_pdu s p ;
  if ffp_pdu (IDM_PDU_OPCODE u) then Ok (true, emit (RxForward p) s) else Ok (false, s).
Definition idm_pdu_rx_forward (p : nat) (s : sm) : result sm :=
  '(done, s) ← idm_pdu_rx_forward_ffp p s ;
  if done : bool then Ok s else Ok (emit (RxForward p) s).
Definition idm_pdu_tx_protocol_error (p : nat) (s : sm) : result sm := idm_pdu_complete p IDM_STATUS_PROTOCOL_ERROR s.
Definition idm_pdu_rx_protocol_error (p : nat) (s : sm) : sm := emit (RxError p IDM_STATUS_PROTOCOL_ERROR) s.

(** ** Entering a state *)
Definition enter_xpt_up (s : sm) : result sm :=
  '(rc, s) ← idm_tgt_conn_finish s ;
  s ← (match rc with
       | IDM_STATUS_SUCCESS => Ok s
       | IDM_STATUS_REJECT => idm_conn_event CE_CONNECT_REJECT NoInfo s
       | _ => idm_conn_event CE_CONNECT_FAIL NoInfo s
       end) ;
  Ok (timeout (cc_cache_alloc env) idm_login_timeout s).

Definition enter_in_login (s : sm) : result sm :=
  if bool_decide (ic_conn_type (ic s) = CONN_TYPE_INI) then
    s ← notify_ CN_READY_FOR_LOGIN 0 s ; s ← mutex_enter s ;
    mutex_exit (upd_ic (fun k => with_flags (Z.lor (ic_state_flags k) CF_LOGIN_READY) k) s)
  else Ok s.

Definition enter_logged_in (s : sm) : result sm :=
  VERIFY (negb (ic_ffp (ic s))) ;;
  '(rc, s) ← idm_ffp_enable s ;
  s ← (if bool_decide (rc = IDM_STATUS_SUCCESS) then Ok s else idm_conn_event CE_TRANSPORT_FAIL NoInfo s) ;
  match ic_reinstate_conn (ic s) with
  | Some c => Ok (emit (EventTo c CE_CONN_REINSTATE_SUCCESS) s)
  | None => Ok s
  end.

Definition enter_cleanup (s : sm) : result sm :=
  s ← idm_task_abort_all AT_INTERNAL_SUSPEND (disconnect s) ; Ok (timeout (cc_cache_alloc env) idm_cleanup_timeout s).

Definition connected_before (s : sm) : bool :=
  negb (bool_decide (ic_last_state (ic s) = CS_S1_FREE)) && negb (bool_decide (ic_last_state (ic s) = CS_S2_XPT_WAIT)).

Definition enter_complete (s : sm) : result sm :=
  s ← (if IDM_CONN_ISTGT s || connected_before s
       then notify_ CN_CONNECT_LOST (if bool_decide (ic_last_state (ic s) = CS_S4_IN_LOGIN) then 1 else 0) s else Ok s) ;
  s ← idm_task_abort_all AT_INTERNAL_ABORT s ;
  idm_refcnt_async_wait_ref idm_conn_unref_cb s.

Definition enter_init_error (s : sm) : result sm :=
  s ← (if IDM_CONN_ISTGT s then Ok (emit TgtDisconnect s)
       else
         s ← mutex_enter s ;
         s ← mutex_exit (upd_ic (fun k => with_sm_status IDM_STATUS_FAIL
                           (with_flags (Z.lor (ic_state_flags k) CF_ERROR) k)) s) ;
         if connected_before s then Ok (emit IniDisconnect s) else notify_ CN_CONNECT_FAIL 0 s) ;
  enter_complete s.

Definition enter_enable_dm (s : sm) : result sm :=
  let rc := if IDM_CONN_ISINI s then it_ini_enable_datamover env else it_tgt_enable_datamover env in
  if bool_decide (rc = IDM_STATUS_SUCCESS) then idm_conn_event CE_ENABLE_DM_SUCCESS NoInfo s
  else idm_conn_event CE_ENABLE_DM_FAIL NoInfo s.

Definition idm_update_state (new_state : idm_conn_state_t) (s : sm) : result sm :=
  VERIFY (negb (bool_decide (new_state = CS_S0_UNDEFINED))) ;;
  VERIFY (cs_num new_state <? cs_num CS_MAX_STATE) ;;
  s ← mutex_enter s ;
  s ← mutex_exit (upd_ic (fun k => with_state new_state (ic_state k) k) s) ;
  match new_state with
  | CS_S1_FREE => Panic
  | CS_S2_XPT_WAIT =>
      if bool_decide (idm_ini_conn_finish s = IDM_STATUS_SUCCESS) then idm_conn_event CE_CONNECT_SUCCESS NoInfo s
      else idm_conn_event CE_CONNECT_FAIL NoInfo s
  | CS_S3_XPT_UP => enter_xpt_up s
  | CS_S4_IN_LOGIN => enter_in_login s
  | CS_S5_LOGGED_IN => enter_logged_in s
  | CS_S6_IN_LOGOUT => Ok s
  | CS_S7_LOGOUT_REQ => if IDM_CONN_ISTGT s then Ok (timeout (cc_cache_alloc env) idm_logout_req_timeout s) else Ok s
  | CS_S8_CLEANUP => enter_cleanup s
  | CS_S10_IN_CLEANUP => Ok s
  | CS_S9A_REJECTED => idm_refcnt_async_wait_ref idm_conn_reject_unref_cb s
  | CS_S9B_WAIT_SND_DONE => Ok s
  | CS_S9_INIT_ERROR => enter_init_error s
  | CS_S11_COMPLETE => enter_complete s
  | CS_S12_ENABLE_DM => enter_enable_dm s
  | _ => Panic
  end.

(** ** The handlers of the states *)
(** [idm_update_state] as the last action of a handler. *)
Definition goto (st : idm_conn_state_t) (s : sm) : result (sm * bool) := s ← idm_update_state st s ; Ok (s, false).
Definition stay (s : sm) : result (sm * bool) := Ok (s, false).

Definition idm_state_s1_free (c : idm_conn_event_ctx_t) (s : sm) : result (sm * bool) :=
  match iec_event c with
  | CE_CONNECT_REQ => goto CS_S2_XPT_WAIT s
  | CE_CONNECT_ACCEPT => goto CS_S3_XPT_UP s
  | CE_TX_PROTOCOL_ERROR | CE_RX_PROTOCOL_ERROR => goto CS_S9_INIT_ERROR s
  | _ => Panic
  end.

Definition idm_state_s2_xpt_wait (c : idm_conn_event_ctx_t) (s : sm) : result (sm * bool) :=
  match iec_event c with
  | CE_CONNECT_SUCCESS => goto CS_S4_IN_LOGIN s
  | CE_TRANSPORT_FAIL | CE_CONNECT_FAIL | CE_LOGOUT_OTHER_CONN_RCV | CE_TX_PROTOCOL_ERROR | CE_RX_PROTOCOL_ERROR =>
      goto CS_S9_INIT_ERROR s
  | _ => Panic
  end.

Definition idm_state_s3_xpt_up (c : idm_conn_event_ctx_t) (s : sm) : result (sm * bool) :=
  match iec_event c with
  | CE_LOGIN_RCV =>
      s ← mutex_enter s ; s ← idm_initial_login_actions c s ; s ← mutex_exit s ; goto CS_S4_IN_LOGIN s
  | CE_LOGIN_TIMEOUT => s ← notify_ CN_LOGIN_FAIL 0 s ; goto CS_S9_INIT_ERROR s
  | CE_CONNECT_REJECT => goto CS_S9A_REJECTED (untimeout s)
  | CE_CONNECT_FAIL | CE_TRANSPORT_FAIL | CE_LOGOUT_OTHER_CONN_SND =>
      s ← notify_ CN_LOGIN_FAIL 0 (untimeout s) ; goto CS_S9_INIT_ERROR s
  | CE_TX_PROTOCOL_ERROR | CE_RX_PROTOCOL_ERROR => stay s
  | _ => Panic
  end.

(** Putting a callback of the state machine in the place of the client's. *)
Definition interpose (c : idm_conn_event_ctx_t) (cb : idm_pdu_cb_t) (s : sm) : result sm :=
  p ← info_pdu (iec_info c) ;
  VERIFY (bool_decide (ic_client_callback (ic s) = None)) ;;
  u ← get_pdu s p ;
  Ok (set_pdu p (Some (with_isp_callback (Some cb) u)) (upd_ic (with_callback (isp_callback u)) s)).
(** Giving the PDU its callback back and completing it. *)
Definition restore_callback (c : idm_conn_event_ctx_t) (s : sm) : result sm :=
  p ← info_pdu (iec_info c) ; u ← get_pdu s p ;
  let s := upd_ic (with_callback None) (set_pdu p (Some (with_isp_callback (ic_client_callback (ic s)) u)) s) in
  idm_pdu_complete p (isp_status u) s.

Definition idm_state_s4_in_login (c : idm_conn_event_ctx_t) (s : sm) : result (sm * bool) :=
  match iec_event c with
  | CE_LOGIN_SUCCESS_RCV | CE_LOGIN_SUCCESS_SND =>
      VERIFY (bool_decide (ic_client_callback (ic s) = None)) ;;
      s ← idm_login_success_actions c (untimeout s) ;
      if ic_rdma_extensions (ic s) then goto CS_S12_ENABLE_DM s else goto CS_S5_LOGGED_IN s
  | CE_LOGIN_TIMEOUT => s ← notify_ CN_LOGIN_FAIL 0 s ; goto CS_S9_INIT_ERROR s
  | CE_LOGIN_FAIL_SND => s ← interpose c idm_state_s9b_wait_snd_done_cb (untimeout s) ; goto CS_S9B_WAIT_SND_DONE s
  | CE_LOGIN_FAIL_RCV =>
      VERIFY (bool_decide (ic_client_callback (ic s) = None)) ;;
      p ← info_pdu (iec_info c) ; s ← idm_pdu_rx_forward p s ;
      s ← notify_ CN_LOGIN_FAIL 0 (untimeout s) ; s ← idm_update_state CS_S9_INIT_ERROR s ; Ok (s, true)
  | CE_TRANSPORT_FAIL | CE_LOGOUT_OTHER_CONN_SND | CE_LOGOUT_OTHER_CONN_RCV =>
      s ← notify_ CN_LOGIN_FAIL 0 (untimeout s) ; goto CS_S9_INIT_ERROR s
  | CE_LOGOUT_SESSION_SUCCESS =>
      s ← notify_ CN_LOGIN_FAIL 0 (untimeout (disconnect s)) ; goto CS_S11_COMPLETE s
  | CE_LOGIN_SND =>
      VERIFY (bool_decide (ic_client_callback (ic s) = None)) ;;
      s ← mutex_enter s ;
      s ← (if Z.land (ic_state_flags (ic s)) CF_INITIAL_LOGIN =? 0 then idm_initial_login_actions c s else Ok s) ;
      s ← mutex_exit s ; stay s
  | CE_MISC_TX | CE_MISC_RX | CE_LOGIN_RCV | CE_TX_PROTOCOL_ERROR | CE_RX_PROTOCOL_ERROR => stay s
  | _ => Panic
  end.

Definition idm_state_s5_logged_in (c : idm_conn_event_ctx_t) (s : sm) : result (sm * bool) :=
  match iec_event c with
  | CE_MISC_RX | CE_LOGOUT_THIS_CONN_RCV | CE_LOGOUT_THIS_CONN_SND | CE_LOGOUT_OTHER_CONN_RCV
  | CE_LOGOUT_OTHER_CONN_SND => s ← idm_ffp_disable FD_CONN_LOGOUT s ; goto CS_S6_IN_LOGOUT s
  | CE_LOGOUT_SESSION_RCV | CE_LOGOUT_SESSION_SND => s ← idm_ffp_disable FD_SESS_LOGOUT s ; goto CS_S6_IN_LOGOUT s
  | CE_LOGOUT_SESSION_SUCCESS => s ← idm_ffp_disable FD_SESS_LOGOUT s ; goto CS_S11_COMPLETE (disconnect s)
  | CE_ASYNC_LOGOUT_RCV | CE_ASYNC_LOGOUT_SND => goto CS_S7_LOGOUT_REQ s
  | CE_TRANSPORT_FAIL | CE_ASYNC_DROP_CONN_RCV | CE_ASYNC_DROP_CONN_SND | CE_ASYNC_DROP_ALL_CONN_RCV
  | CE_ASYNC_DROP_ALL_CONN_SND => s ← idm_ffp_disable FD_CONN_FAIL s ; goto CS_S8_CLEANUP s
  | CE_MISC_TX | CE_TX_PROTOCOL_ERROR | CE_RX_PROTOCOL_ERROR | CE_LOGIN_TIMEOUT => stay s
  | _ => Panic
  end.

Definition idm_state_s6_in_logout (c : idm_conn_event_ctx_t) (s : sm) : result (sm * bool) :=
  match iec_event c with
  | CE_LOGOUT_SUCCESS_SND_DONE =>
      VERIFY (IDM_CONN_ISTGT s) ;;
      s ← restore_callback c (emit TgtDisconnect s) ; goto CS_S11_COMPLETE s
  | CE_LOGOUT_FAIL_SND_DONE => s ← restore_callback c s ; goto CS_S8_CLEANUP s
  | CE_LOGOUT_SUCCESS_SND => s ← interpose c idm_state_s6_in_logout_success_snd_done s ; stay s
  | CE_LOGOUT_FAIL_SND => s ← interpose c idm_state_s6_in_logout_fail_snd_done s ; stay s
  | CE_LOGOUT_SUCCESS_RCV =>
      p ← info_pdu (iec_info c) ; s ← idm_pdu_rx_forward p s ;
      s ← idm_update_state CS_S11_COMPLETE (disconnect s) ; Ok (s, true)
  | CE_LOGOUT_SESSION_SUCCESS => goto CS_S11_COMPLETE (disconnect s)
  | CE_ASYNC_LOGOUT_RCV => stay s
  | CE_TRANSPORT_FAIL | CE_ASYNC_DROP_CONN_RCV | CE_ASYNC_DROP_CONN_SND | CE_ASYNC_DROP_ALL_CONN_RCV
  | CE_ASYNC_DROP_ALL_CONN_SND | CE_LOGOUT_FAIL_RCV => goto CS_S8_CLEANUP s
  | CE_TX_PROTOCOL_ERROR | CE_RX_PROTOCOL_ERROR | CE_MISC_TX | CE_MISC_RX | CE_LOGIN_TIMEOUT => stay s
  | _ => Panic
  end.

(** Cancelling the logout timer, which only target connections have. *)
Definition untimeout_tgt (s : sm) : sm := if IDM_CONN_ISTGT s then untimeout s else s.

Definition idm_state_s7_logout_req (c : idm_conn_event_ctx_t) (s : sm) : result (sm * bool) :=
  match iec_event c with
  | CE_LOGOUT_THIS_CONN_RCV | CE_LOGOUT_THIS_CONN_SND | CE_LOGOUT_OTHER_CONN_RCV | CE_LOGOUT_OTHER_CONN_SND =>
      s ← idm_ffp_disable FD_CONN_LOGOUT (untimeout_tgt s) ; goto CS_S6_IN_LOGOUT s
  | CE_LOGOUT_SESSION_RCV | CE_LOGOUT_SESSION_SND =>
      s ← idm_ffp_disable FD_SESS_LOGOUT (untimeout_tgt s) ; goto CS_S6_IN_LOGOUT s
  | CE_ASYNC_LOGOUT_RCV | CE_ASYNC_LOGOUT_SND => stay s
  | CE_TRANSPORT_FAIL | CE_ASYNC_DROP_CONN_RCV | CE_ASYNC_DROP_CONN_SND | CE_ASYNC_DROP_ALL_CONN_RCV
  | CE_ASYNC_DROP_ALL_CONN_SND => s ← idm_ffp_disable FD_CONN_FAIL (untimeout_tgt s) ; goto CS_S8_CLEANUP s
  | CE_LOGOUT_TIMEOUT => s ← idm_ffp_disable FD_CONN_FAIL s ; goto CS_S8_CLEANUP s
  | CE_LOGOUT_SESSION_SUCCESS =>
      s ← idm_ffp_disable FD_SESS_LOGOUT (untimeout_tgt s) ; goto CS_S11_COMPLETE (disconnect s)
  | CE_TX_PROTOCOL_ERROR | CE_RX_PROTOCOL_ERROR | CE_MISC_TX | CE_MISC_RX | CE_LOGIN_TIMEOUT => stay s
  | _ => Panic
  end.

Definition idm_state_s8_cleanup (c : idm_conn_event_ctx_t) (s : sm) : result (sm * bool) :=
  match iec_event c with
  | CE_LOGOUT_SUCCESS_RCV | CE_LOGOUT_SUCCESS_SND | CE_LOGOUT_SESSION_SUCCESS => goto CS_S11_COMPLETE (untimeout s)
  | CE_CLEANUP_TIMEOUT => goto CS_S11_COMPLETE s
  | CE_LOGOUT_OTHER_CONN_RCV | CE_LOGOUT_OTHER_CONN_SND => goto CS_S10_IN_CLEANUP s
  | CE_LOGOUT_SUCCESS_SND_DONE | CE_LOGOUT_FAIL_SND_DONE => s ← restore_callback c s ; stay s
  | CE_LOGOUT_SESSION_RCV | CE_LOGOUT_SESSION_SND | CE_TX_PROTOCOL_ERROR | CE_RX_PROTOCOL_ERROR | CE_MISC_TX
  | CE_MISC_RX | CE_TRANSPORT_FAIL | CE_LOGIN_TIMEOUT | CE_LOGOUT_TIMEOUT => stay s
  | _ => Panic
  end.

Definition idm_state_s9_init_error (c : idm_conn_event_ctx_t) (s : sm) : result (sm * bool) := stay s.
Definition idm_state_s9a_rejected (c : idm_conn_event_ctx_t) (s : sm) : result (sm * bool) := stay s.

Definition idm_state_s9b_wait_snd_done (c : idm_conn_event_ctx_t) (s : sm) : result (sm * bool) :=
  match iec_event c with
  | CE_LOGIN_FAIL_SND_DONE => s ← restore_callback c s ; goto CS_S9_INIT_ERROR s
  | _ => stay s
  end.

Definition idm_state_s10_in_cleanup (c : idm_conn_event_ctx_t) (s : sm) : result (sm * bool) :=
  match iec_event c with
  | CE_LOGOUT_FAIL_RCV | CE_LOGOUT_FAIL_SND => goto CS_S8_CLEANUP s
  | CE_LOGOUT_SUCCESS_SND | CE_LOGOUT_SUCCESS_RCV | CE_LOGOUT_SESSION_SUCCESS => goto CS_S11_COMPLETE (untimeout s)
  | CE_CLEANUP_TIMEOUT => goto CS_S11_COMPLETE s
  | CE_LOGOUT_SUCCESS_SND_DONE | CE_LOGOUT_FAIL_SND_DONE => s ← restore_callback c s ; stay s
  | CE_TX_PROTOCOL_ERROR | CE_RX_PROTOCOL_ERROR | CE_MISC_TX | CE_MISC_RX | CE_LOGIN_TIMEOUT
  | CE_LOGOUT_TIMEOUT => stay s
  | _ => Panic
  end.

Definition idm_state_s11_complete (c : idm_conn_event_ctx_t) (s : sm) : result (sm * bool) :=
  match iec_event c with
  | CE_LOGOUT_SUCCESS_SND_DONE | CE_LOGOUT_FAIL_SND_DONE => s ← restore_callback c s ; stay s
  | _ => stay s
  end.

Definition idm_state_s12_enable_dm (c : idm_conn_event_ctx_t) (s : sm) : result (sm * bool) :=
  match iec_event c with
  | CE_ENABLE_DM_SUCCESS => goto CS_S5_LOGGED_IN s
  | CE_ENABLE_DM_FAIL => goto CS_S9_INIT_ERROR s
  | CE_TRANSPORT_FAIL => stay s
  | _ => Panic
  end.

(** ** Validation of PDUs *)
Definition protocol_error (ty : idm_pdu_event_type_t) : idm_pdu_event_action_t :=
  if bool_decide (ty = CT_TX_PDU) then CA_TX_PROTOCOL_ERROR else CA_RX_PROTOCOL_ERROR.

(** The check of the direction: the action that ends the validation, if any. *)
Definition validate_direction (o : iscsi_op) (ct : idm_conn_type_t) (ty : idm_pdu_event_type_t) :
  option idm_pdu_event_action_t :=
  match o with
  | ISCSI_OP_NOOP_OUT | ISCSI_OP_SCSI_CMD | ISCSI_OP_SCSI_TASK_MGT_MSG | ISCSI_OP_LOGIN_CMD | ISCSI_OP_TEXT_CMD
  | ISCSI_OP_SCSI_DATA | ISCSI_OP_LOGOUT_CMD | ISCSI_OP_SNACK_CMD =>
      match ct, ty with
      | CONN_TYPE_INI, CT_RX_PDU => Some CA_RX_PROTOCOL_ERROR
      | CONN_TYPE_TGT, CT_TX_PDU => Some CA_TX_PROTOCOL_ERROR
      | _, _ => None
      end
  | ISCSI_OP_NOOP_IN | ISCSI_OP_SCSI_RSP | ISCSI_OP_SCSI_TASK_MGT_RSP | ISCSI_OP_LOGIN_RSP | ISCSI_OP_TEXT_RSP
  | ISCSI_OP_SCSI_DATA_RSP | ISCSI_OP_LOGOUT_RSP | ISCSI_OP_RTT_RSP | ISCSI_OP_ASYNC_EVENT | ISCSI_OP_REJECT_MSG =>
      match ct, ty with
      | CONN_TYPE_TGT, CT_RX_PDU => Some CA_RX_PROTOCOL_ERROR
      | CONN_TYPE_INI, CT_TX_PDU => Some CA_TX_PROTOCOL_ERROR
      | _, _ => None
      end
  | ISCSI_OP_UNKNOWN => Some (protocol_error ty)
  end.

(** The four groups of cases of the second switch. A [break] out of an inner
    switch falls through to the next group. *)
Definition validate_login (st : idm_conn_state_t) (ty : idm_pdu_event_type_t) : idm_pdu_event_action_t :=
  match st with
  | CS_S3_XPT_UP | CS_S4_IN_LOGIN => CA_FORWARD
  | _ => protocol_error ty
  end.
Definition validate_logout (st : idm_conn_state_t) (ty : idm_pdu_event_type_t) : idm_pdu_event_action_t :=
  match st with
  | CS_S5_LOGGED_IN | CS_S6_IN_LOGOUT | CS_S7_LOGOUT_REQ => CA_FORWARD
  | CS_S8_CLEANUP | CS_S10_IN_CLEANUP => let _action := CA_DROP in validate_login st ty
  | _ => protocol_error ty
  end.
Definition validate_scsi (st : idm_conn_state_t) (ty : idm_pdu_event_type_t) : idm_pdu_event_action_t :=
  match st with
  | CS_S5_LOGGED_IN | CS_S6_IN_LOGOUT | CS_S7_LOGOUT_REQ => CA_FORWARD
  | CS_S8_CLEANUP | CS_S10_IN_CLEANUP => let _action := CA_DROP in validate_logout st ty
  | _ => protocol_error ty
  end.
Definition validate_noop (st : idm_conn_state_t) (ty : idm_pdu_event_type_t) : idm_pdu_event_action_t :=
  match st with
  | CS_S4_IN_LOGIN | CS_S5_LOGGED_IN | CS_S6_IN_LOGOUT | CS_S7_LOGOUT_REQ => CA_FORWARD
  | CS_S8_CLEANUP | CS_S10_IN_CLEANUP => let _action := CA_DROP in validate_scsi st ty
  | _ => protocol_error ty
  end.

Definition idm_conn_sm_validate_pdu (c : idm_conn_event_ctx_t) (p : nat) (s : sm) : result idm_pdu_event_action_t :=
  let ty := iec_pdu_event_type c in
  VERIFY (bool_decide (ty = CT_RX_PDU) || bool_decide (ty = CT_TX_PDU)) ;;
  u ← get_pdu s p ;
  match validate_direction (IDM_PDU_OPCODE u) (ic_conn_type (ic s)) ty with
  | Some action => Ok action
  | None =>
      let st := ic_state (ic s) in
      match IDM_PDU_OPCODE u with
      | ISCSI_OP_NOOP_OUT | ISCSI_OP_NOOP_IN => Ok (validate_noop st ty)
      | ISCSI_OP_SCSI_CMD | ISCSI_OP_SCSI_RSP | ISCSI_OP_SCSI_TASK_MGT_MSG | ISCSI_OP_SCSI_TASK_MGT_RSP
      | ISCSI_OP_SCSI_DATA | ISCSI_OP_SCSI_DATA_RSP | ISCSI_OP_RTT_RSP | ISCSI_OP_SNACK_CMD | ISCSI_OP_TEXT_CMD
      | ISCSI_OP_TEXT_RSP => Ok (validate_scsi st ty)
      | ISCSI_OP_LOGOUT_CMD | ISCSI_OP_LOGOUT_RSP | ISCSI_OP_REJECT_MSG | ISCSI_OP_ASYNC_EVENT =>
          Ok (validate_logout st ty)
      | ISCSI_OP_LOGIN_CMD | ISCSI_OP_LOGIN_RSP => Ok (validate_login st ty)
      | ISCSI_OP_UNKNOWN => Panic
      end
  end.

(** ** The event handler *)
Definition dispatch_state (c : idm_conn_event_ctx_t) (s : sm) : result (sm * bool) :=
  match ic_state (ic s) with
  | CS_S1_FREE => idm_state_s1_free c s
  | CS_S2_XPT_WAIT => idm_state_s2_xpt_wait c s
  | CS_S3_XPT_UP => idm_state_s3_xpt_up c s
  | CS_S4_IN_LOGIN => idm_state_s4_in_login c s
  | CS_S5_LOGGED_IN => idm_state_s5_logged_in c s
  | CS_S6_IN_LOGOUT => idm_state_s6_in_logout c s
  | CS_S7_LOGOUT_REQ => idm_state_s7_logout_req c s
  | CS_S8_CLEANUP => idm_state_s8_cleanup c s
  | CS_S9A_REJECTED => idm_state_s9a_rejected c s
  | CS_S9B_WAIT_SND_DONE => idm_state_s9b_wait_snd_done c s
  | CS_S9_INIT_ERROR => idm_state_s9_init_error c s
  | CS_S10_IN_CLEANUP => idm_state_s10_in_cleanup c s
  | CS_S11_COMPLETE => idm_state_s11_complete c s
  | CS_S12_ENABLE_DM => idm_state_s12_enable_dm c s
  | _ => Panic
  end.

(** Before the state is updated: the event the action stands for. *)
Definition event_of_action (a : idm_pdu_event_action_t) (c : idm_conn_event_ctx_t) (p : nat) (s : sm) :
  result (idm_conn_event_ctx_t * sm) :=
  match a with
  | CA_TX_PROTOCOL_ERROR => Ok (MkCtx CE_TX_PROTOCOL_ERROR (iec_info c) (iec_pdu_event_type c), s)
  | CA_RX_PROTOCOL_ERROR => Ok (MkCtx CE_RX_PROTOCOL_ERROR (iec_info c) (iec_pdu_event_type c), s)
  | CA_FORWARD => Ok (c, s)
  | CA_DROP => s ← idm_pdu_complete p IDM_STATUS_FAIL s ; Ok (c, s)
  end.
(** After it: what happens to the PDU. *)
Definition deliver (a : idm_pdu_event_action_t) (c : idm_conn_event_ctx_t) (p : nat) (forwarded : bool) (s : sm) :
  result sm :=
  match a with
  | CA_TX_PROTOCOL_ERROR => idm_pdu_tx_protocol_error p s
  | CA_RX_PROTOCOL_ERROR => Ok (idm_pdu_rx_protocol_error p s)
  | CA_FORWARD =>
      if forwarded then Ok s
      else if bool_decide (iec_pdu_event_type c = CT_RX_PDU) then idm_pdu_rx_forward p s
      else Ok (idm_pdu_tx_forward p s)
  | CA_DROP => Panic
  end.

Definition idm_conn_event_handler (c : idm_conn_event_ctx_t) (s : sm) : result sm :=
  VERIFY (negb (bool_decide (iec_event c = CE_UNDEFINED))) ;;
  VERIFY (negb (bool_decide (iec_event c = CE_MAX_EVENT))) ;;
  VERIFY (negb (bool_decide (ic_state (ic s) = CS_S0_UNDEFINED))) ;;
  VERIFY (cs_num (ic_state (ic s)) <? cs_num CS_MAX_STATE) ;;
  s ← (match iec_pdu_event_type c with
       | CT_NONE => '(s, _) ← dispatch_state c s ; Ok s
       | _ =>
           p ← info_pdu (iec_info c) ;
           action ← idm_conn_sm_validate_pdu c p s ;
           '(c', s) ← event_of_action action c p s ;
           '(s, forwarded) ← dispatch_state c' s ;
           s ← deliver action c' p forwarded s ;
           s ← mutex_enter s ;
           mutex_exit (upd_ic (fun k => with_pdu_events (ic_pdu_events k - 1) k) s)
       end) ;
  idm_conn_rele s.
End machine.

(** The thread of [ic_state_taskq] takes the next event. *)
Definition run_taskq (env : idm_env) (s : sm) : result sm :=
  match taskq s with
  | [] => Ok s
  | c :: q => idm_conn_event_handler env c (MkSm (ic s) q (global_taskq s) (pdus s) (timers s) (next_timer s) (trace s))
  end.

(** The callbacks run on [idm_global_taskq] when the last reference is gone. *)
Definition idm_conn_unref (env : idm_env) (s : sm) : result sm :=
  s ← notify_ env CN_CONNECT_DESTROY 0 s ;
  if IDM_CONN_ISTGT s then Ok (emit ConnDestroy s) else Ok s.
Definition idm_conn_reject_unref (s : sm) : result sm :=
  VERIFY (IDM_CONN_ISTGT s) ;; Ok (emit ConnDestroy s).

(** ** PDUs from the peer and from the client *)
Definition ISCSI_FLAG_LOGIN_TRANSIT : Z := 0x80.
Definition ISCSI_FLAG_LOGIN_CONTINUE : Z := 0x40.
Definition ISCSI_LOGIN_NEXT_STAGE (flags : Z) : Z := Z.land flags 0x03.
Definition ISCSI_FULL_FEATURE_PHASE : Z := 3.
Definition ISCSI_STATUS_CLASS_SUCCESS : Z := 0x00.
Definition ISCSI_FLAG_LOGOUT_REASON_MASK : Z := 0x7F.
Definition ISCSI_LOGOUT_REASON_CLOSE_SESSION : Z := 0.
Definition ISCSI_LOGOUT_REASON_CLOSE_CONNECTION : Z := 1.
Definition ISCSI_LOGOUT_REASON_RECOVERY : Z := 2.

Definition pdu_event (rx : bool) (e : idm_conn_event_t) (p : nat) (s : sm) : result sm :=
  if rx then idm_conn_rx_pdu_event e p s else idm_conn_tx_pdu_event e p s.

Definition login_rsp_event (u : idm_pdu_t) (rx : bool) : idm_conn_event_t :=
  if hdr_status_class u =? ISCSI_STATUS_CLASS_SUCCESS then
    if (Z.land (hdr_flags u) ISCSI_FLAG_LOGIN_CONTINUE =? 0)
       && negb (Z.land (hdr_flags u) ISCSI_FLAG_LOGIN_TRANSIT =? 0)
       && (ISCSI_LOGIN_NEXT_STAGE (hdr_flags u) =? ISCSI_FULL_FEATURE_PHASE)
    then if rx then CE_LOGIN_SUCCESS_RCV else CE_LOGIN_SUCCESS_SND
    else if rx then CE_MISC_RX else CE_MISC_TX
  else if rx then CE_LOGIN_FAIL_RCV else CE_LOGIN_FAIL_SND.
Definition idm_parse_login_rsp (p : nat) (rx : bool) (s : sm) : result sm :=
  u ← get_pdu s p ; pdu_event rx (login_rsp_event u rx) p s.

Definition logout_req_event (u : idm_pdu_t) (rx : bool) (login_cid : Z) : idm_conn_event_t :=
  let reason := Z.land (hdr_flags u) ISCSI_FLAG_LOGOUT_REASON_MASK in
  if reason =? ISCSI_LOGOUT_REASON_CLOSE_SESSION then if rx then CE_LOGOUT_SESSION_RCV else CE_LOGOUT_SESSION_SND
  else if (reason =? ISCSI_LOGOUT_REASON_CLOSE_CONNECTION) || (reason =? ISCSI_LOGOUT_REASON_RECOVERY) then
    if hdr_cid u =? login_cid then if rx then CE_LOGOUT_THIS_CONN_RCV else CE_LOGOUT_THIS_CONN_SND
    else if rx then CE_MISC_RX else CE_MISC_TX
  else if rx then CE_RX_PROTOCOL_ERROR else CE_TX_PROTOCOL_ERROR.
Definition idm_parse_logout_req (p : nat) (rx : bool) (s : sm) : result sm :=
  u ← get_pdu s p ; pdu_event rx (logout_req_event u rx (ic_login_cid (ic s))) p s.

Definition idm_parse_logout_rsp (p : nat) (rx : bool) (s : sm) : result sm :=
  u ← get_pdu s p ;
  pdu_event rx (if hdr_response u =? ISCSI_STATUS_CLASS_SUCCESS
                then if rx then CE_LOGOUT_SUCCESS_RCV else CE_LOGOUT_SUCCESS_SND
                else if rx then CE_LOGOUT_FAIL_RCV else CE_LOGOUT_FAIL_SND) p s.

Definition async_event_rx (ev : Z) : idm_conn_event_t :=
  if ev =? 1 then CE_ASYNC_LOGOUT_RCV else if ev =? 2 then CE_ASYNC_DROP_CONN_RCV
  else if ev =? 3 then CE_ASYNC_DROP_ALL_CONN_RCV else CE_MISC_RX.
Definition async_event_tx (ev : Z) : idm_conn_event_t :=
  if ev =? 1 then CE_ASYNC_LOGOUT_SND else if ev =? 2 then CE_ASYNC_DROP_CONN_SND
  else if ev =? 3 then CE_ASYNC_DROP_ALL_CONN_SND else CE_MISC_TX.

(** The fast path is taken when no PDU event is outstanding. *)
Definition idm_pdu_rx (p : nat) (s : sm) : result sm :=
  s ← mutex_enter s ;
  '(done, s) ← (if ic_ffp (ic s) && (ic_pdu_events (ic s) =? 0) then
                  s ← mutex_exit s ;
                  '(fwd, s) ← idm_pdu_rx_forward_ffp p s ;
                  if fwd : bool then Ok (true, s) else s ← mutex_enter s ; Ok (false, s)
                else Ok (false, s)) ;
  if done : bool then Ok s else
  u ← get_pdu s p ;
  s ← (match IDM_PDU_OPCODE u with
       | ISCSI_OP_LOGIN_CMD => idm_conn_rx_pdu_event CE_LOGIN_RCV p s
       | ISCSI_OP_LOGIN_RSP => idm_parse_login_rsp p true s
       | ISCSI_OP_LOGOUT_CMD => idm_parse_logout_req p true s
       | ISCSI_OP_LOGOUT_RSP => idm_parse_logout_rsp p true s
       | ISCSI_OP_ASYNC_EVENT => idm_conn_rx_pdu_event (async_event_rx (hdr_async_event u)) p s
       | ISCSI_OP_SCSI_CMD | ISCSI_OP_SCSI_DATA | ISCSI_OP_SCSI_TASK_MGT_MSG | ISCSI_OP_NOOP_OUT | ISCSI_OP_TEXT_CMD
       | ISCSI_OP_SCSI_DATA_RSP | ISCSI_OP_RTT_RSP | ISCSI_OP_SNACK_CMD | ISCSI_OP_NOOP_IN | ISCSI_OP_TEXT_RSP
       | ISCSI_OP_REJECT_MSG | ISCSI_OP_SCSI_TASK_MGT_RSP => idm_conn_rx_pdu_event CE_MISC_RX p s
       | ISCSI_OP_SCSI_RSP | ISCSI_OP_UNKNOWN => Ok s
       end) ;
  mutex_exit s.

Definition ffp_tx_pdu (o : iscsi_op) : bool :=
  match o with
  | ISCSI_OP_SCSI_RSP | ISCSI_OP_SCSI_TASK_MGT_RSP | ISCSI_OP_SCSI_DATA_RSP | ISCSI_OP_RTT_RSP | ISCSI_OP_NOOP_IN
  | ISCSI_OP_TEXT_RSP | ISCSI_OP_TEXT_CMD | ISCSI_OP_NOOP_OUT | ISCSI_OP_SCSI_CMD | ISCSI_OP_SCSI_DATA
  | ISCSI_OP_SCSI_TASK_MGT_MSG => true
  | _ => false
  end.

Definition idm_pdu_tx (p : nat) (s : sm) : result sm :=
  s ← mutex_enter s ;
  u ← get_pdu s p ;
  '(done, s) ← (if ic_ffp (ic s) && (ic_pdu_events (ic s) =? 0) then
                  s ← mutex_exit s ;
                  if ffp_tx_pdu (IDM_PDU_OPCODE u) then Ok (true, idm_pdu_tx_forward p s)
                  else s ← mutex_enter s ; Ok (false, s)
                else Ok (false, s)) ;
  if done : bool then Ok s else
  s ← (match IDM_PDU_OPCODE u with
       | ISCSI_OP_LOGIN_CMD => idm_conn_tx_pdu_event CE_LOGIN_SND p s
       | ISCSI_OP_LOGIN_RSP => idm_parse_login_rsp p false s
       | ISCSI_OP_LOGOUT_CMD => idm_parse_logout_req p false s
       | ISCSI_OP_LOGOUT_RSP => idm_parse_logout_rsp p false s
       | ISCSI_OP_ASYNC_EVENT => idm_conn_tx_pdu_event (async_event_tx (hdr_async_event u)) p s
       | _ => idm_conn_tx_pdu_event CE_MISC_TX p s
       end) ;
  mutex_exit s.
