(* ===== verification/IdmSpec.v ===== *)
(** * The connection state machine as a transition system

    The transitions of the protocol, the invariant of a connection, and the
    proof that every handler keeps the invariant and follows the transitions.
    [tri b m P] says that [m] ends in [P] if it does not panic and, when [b]
    is true, that it does not panic. *)
From S2P Require Import Prelude IdmConn IdmConnSm.
Local Open Scope Z_scope.

(** ** Transitions *)
Inductive conn_trans : idm_conn_state_t -> idm_conn_event_t -> idm_conn_state_t -> Prop :=
  | T1 : conn_trans CS_S1_FREE CE_CONNECT_REQ CS_S2_XPT_WAIT
  | T3 : conn_trans CS_S1_FREE CE_CONNECT_ACCEPT CS_S3_XPT_UP
  | T1_error e : e ∈ [CE_TX_PROTOCOL_ERROR; CE_RX_PROTOCOL_ERROR] -> conn_trans CS_S1_FREE e CS_S9_INIT_ERROR
  | T2 e : e ∈ [CE_TRANSPORT_FAIL; CE_CONNECT_FAIL; CE_LOGOUT_OTHER_CONN_RCV; CE_TX_PROTOCOL_ERROR;
                CE_RX_PROTOCOL_ERROR] -> conn_trans CS_S2_XPT_WAIT e CS_S9_INIT_ERROR
  | T4_ini : conn_trans CS_S2_XPT_WAIT CE_CONNECT_SUCCESS CS_S4_IN_LOGIN
  | T4_tgt : conn_trans CS_S3_XPT_UP CE_LOGIN_RCV CS_S4_IN_LOGIN
  | T6 e : e ∈ [CE_LOGIN_TIMEOUT; CE_CONNECT_FAIL; CE_TRANSPORT_FAIL; CE_LOGOUT_OTHER_CONN_SND] ->
      conn_trans CS_S3_XPT_UP e CS_S9_INIT_ERROR
  | T6_reject : conn_trans CS_S3_XPT_UP CE_CONNECT_REJECT CS_S9A_REJECTED
  | T5 e : e ∈ [CE_LOGIN_SUCCESS_RCV; CE_LOGIN_SUCCESS_SND] -> conn_trans CS_S4_IN_LOGIN e CS_S5_LOGGED_IN
  | T19 e : e ∈ [CE_LOGIN_SUCCESS_RCV; CE_LOGIN_SUCCESS_SND] -> conn_trans CS_S4_IN_LOGIN e CS_S12_ENABLE_DM
  | T7 e : e ∈ [CE_LOGIN_TIMEOUT; CE_LOGIN_FAIL_RCV; CE_TRANSPORT_FAIL; CE_LOGOUT_OTHER_CONN_SND;
                CE_LOGOUT_OTHER_CONN_RCV] -> conn_trans CS_S4_IN_LOGIN e CS_S9_INIT_ERROR
  | T7_send : conn_trans CS_S4_IN_LOGIN CE_LOGIN_FAIL_SND CS_S9B_WAIT_SND_DONE
  | T7_sent : conn_trans CS_S9B_WAIT_SND_DONE CE_LOGIN_FAIL_SND_DONE CS_S9_INIT_ERROR
  | T8 st : st ∈ [CS_S4_IN_LOGIN; CS_S5_LOGGED_IN] -> conn_trans st CE_LOGOUT_SESSION_SUCCESS CS_S11_COMPLETE
  | T9 e : e ∈ [CE_MISC_RX; CE_LOGOUT_THIS_CONN_RCV; CE_LOGOUT_THIS_CONN_SND; CE_LOGOUT_OTHER_CONN_RCV;
                CE_LOGOUT_OTHER_CONN_SND; CE_LOGOUT_SESSION_RCV; CE_LOGOUT_SESSION_SND] ->
      conn_trans CS_S5_LOGGED_IN e CS_S6_IN_LOGOUT
  | T10 e : e ∈ [CE_LOGOUT_THIS_CONN_RCV; CE_LOGOUT_THIS_CONN_SND; CE_LOGOUT_OTHER_CONN_RCV;
                 CE_LOGOUT_OTHER_CONN_SND; CE_LOGOUT_SESSION_RCV; CE_LOGOUT_SESSION_SND] ->
      conn_trans CS_S7_LOGOUT_REQ e CS_S6_IN_LOGOUT
  | T11 e : e ∈ [CE_ASYNC_LOGOUT_RCV; CE_ASYNC_LOGOUT_SND] -> conn_trans CS_S5_LOGGED_IN e CS_S7_LOGOUT_REQ
  | T13 e : e ∈ [CE_LOGOUT_SUCCESS_SND_DONE; CE_LOGOUT_SUCCESS_RCV; CE_LOGOUT_SESSION_SUCCESS] ->
      conn_trans CS_S6_IN_LOGOUT e CS_S11_COMPLETE
  | T15 e : e ∈ [CE_TRANSPORT_FAIL; CE_ASYNC_DROP_CONN_RCV; CE_ASYNC_DROP_CONN_SND; CE_ASYNC_DROP_ALL_CONN_RCV;
                 CE_ASYNC_DROP_ALL_CONN_SND] -> conn_trans CS_S5_LOGGED_IN e CS_S8_CLEANUP
  | T16 e : e ∈ [CE_TRANSPORT_FAIL; CE_ASYNC_DROP_CONN_RCV; CE_ASYNC_DROP_CONN_SND; CE_ASYNC_DROP_ALL_CONN_RCV;
                 CE_ASYNC_DROP_ALL_CONN_SND; CE_LOGOUT_TIMEOUT] -> conn_trans CS_S7_LOGOUT_REQ e CS_S8_CLEANUP
  | T17 e : e ∈ [CE_TRANSPORT_FAIL; CE_ASYNC_DROP_CONN_RCV; CE_ASYNC_DROP_CONN_SND; CE_ASYNC_DROP_ALL_CONN_RCV;
                 CE_ASYNC_DROP_ALL_CONN_SND; CE_LOGOUT_FAIL_RCV; CE_LOGOUT_FAIL_SND_DONE] ->
      conn_trans CS_S6_IN_LOGOUT e CS_S8_CLEANUP
  | T18 : conn_trans CS_S7_LOGOUT_REQ CE_LOGOUT_SESSION_SUCCESS CS_S11_COMPLETE
  | T20 : conn_trans CS_S12_ENABLE_DM CE_ENABLE_DM_SUCCESS CS_S5_LOGGED_IN
  | T21 : conn_trans CS_S12_ENABLE_DM CE_ENABLE_DM_FAIL CS_S9_INIT_ERROR
  | M1 st e : st ∈ [CS_S8_CLEANUP; CS_S10_IN_CLEANUP] ->
      e ∈ [CE_LOGOUT_SUCCESS_RCV; CE_LOGOUT_SUCCESS_SND; CE_LOGOUT_SESSION_SUCCESS; CE_CLEANUP_TIMEOUT] ->
      conn_trans st e CS_S11_COMPLETE
  | M2 e : e ∈ [CE_LOGOUT_OTHER_CONN_RCV; CE_LOGOUT_OTHER_CONN_SND] -> conn_trans CS_S8_CLEANUP e CS_S10_IN_CLEANUP
  | M3 e : e ∈ [CE_LOGOUT_FAIL_RCV; CE_LOGOUT_FAIL_SND] -> conn_trans CS_S10_IN_CLEANUP e CS_S8_CLEANUP.

(** ** Partial and total correctness *)
Definition tri {A} (b : bool) (m : result A) (P : A -> Prop) : Prop :=
  match m with Ok a => P a | Panic => b = false end.

Lemma tri_bind {A B} b (m : result A) (f : A -> result B) (P : A -> Prop) (Q : B -> Prop) :
  tri b m P -> (forall a, P a -> tri b (f a) Q) -> tri b (x ← m ; f x) Q.
Proof. destruct m as [a |]; simpl; auto. Qed.

Lemma tri_impl {A} b (m : result A) (P Q : A -> Prop) : tri b m P -> (forall a, P a -> Q a) -> tri b m Q.
Proof. destruct m; simpl; auto. Qed.

Lemma tri_VERIFY {A} b c (k : result A) Q :
  (b = true -> c = true) -> (c = true -> tri b k Q) -> tri b (VERIFY c ;; k) Q.
Proof. destruct b, c; simpl; intros H1 H2; auto; by specialize (H1 eq_refl). Qed.

(** ** The invariant *)
(** Full-feature phase, the waiting state and the login flag that go with a
    state of the machine. *)
Definition is_pdu_event (c : idm_conn_event_ctx_t) : bool := negb (bool_decide (iec_pdu_event_type c = CT_NONE)).
Definition pdu_count (q : list idm_conn_event_ctx_t) : Z := Z.of_nat (length (List.filter is_pdu_event q)).
Definition logged_in (st : idm_conn_state_t) : bool :=
  match st with
  | CS_S5_LOGGED_IN | CS_S6_IN_LOGOUT | CS_S7_LOGOUT_REQ | CS_S8_CLEANUP | CS_S10_IN_CLEANUP | CS_S12_ENABLE_DM => true
  | _ => false
  end.
Definition wait_for (st : idm_conn_state_t) : idm_refcnt_wait_t := if terminal st then REF_WAIT_ASYNC else REF_NOWAIT.

(** A PDU that can be completed. *)
Definition good_pdu (s : sm) (p : nat) : Prop :=
  exists u, pdus s !! p = Some (Some u) /\ (isp_callback u <> None \/ isp_alloc u = true).

(** The connection while an event is handled: [k] references besides those
    of the queued events, [d] PDU events besides the queued ones. *)
Record cfg : Type := MkCfg {
  g_st : idm_conn_state_t;
  g_ffp : bool;
  g_wait : idm_refcnt_wait_t;
  g_valid : bool;
  g_k : Z;
  g_d : Z;
  g_live : list nat
}.

Record J (g : cfg) (s : sm) : Prop := {
  J_mutex : ic_state_mutex (ic s) = false;
  J_state : ic_state (ic s) = g_st g;
  J_ffp : ic_ffp (ic s) = g_ffp g;
  J_wait : ir_waiting (ic_refcnt (ic s)) = g_wait g;
  J_cb : g_wait g = REF_WAIT_ASYNC -> ir_cb (ic_refcnt (ic s)) <> None;
  J_valid : ic_login_info_valid (ic s) = g_valid g;
  J_ref : ir_refcnt (ic_refcnt (ic s)) = Z.of_nat (length (taskq s)) + g_k g;
  J_pdu : ic_pdu_events (ic s) = pdu_count (taskq s) + g_d g;
  J_global : global_taskq s = [];
  J_live : Forall (good_pdu s) (g_live g)
}.

Definition set_st (st : idm_conn_state_t) (g : cfg) : cfg :=
  MkCfg st (g_ffp g) (g_wait g) (g_valid g) (g_k g) (g_d g) (g_live g).
Definition set_f (f : bool) (g : cfg) : cfg :=
  MkCfg (g_st g) f (g_wait g) (g_valid g) (g_k g) (g_d g) (g_live g).
Definition set_w (w : idm_refcnt_wait_t) (g : cfg) : cfg :=
  MkCfg (g_st g) (g_ffp g) w (g_valid g) (g_k g) (g_d g) (g_live g).
Definition set_v (v : bool) (g : cfg) : cfg :=
  MkCfg (g_st g) (g_ffp g) (g_wait g) v (g_k g) (g_d g) (g_live g).

(** ** What the operations do to it *)
Lemma pdu_count_app q q' : pdu_count (q ++ q') = pdu_count q + pdu_count q'.
Proof. unfold pdu_count. rewrite List.filter_app, length_app. lia. Qed.

(** Changes that [J] does not see. *)
Definition same_conn (c c' : idm_conn_t) : Prop :=
  ic_state_mutex c' = ic_state_mutex c /\ ic_state c' = ic_state c /\ ic_ffp c' = ic_ffp c /\
  ic_refcnt c' = ic_refcnt c /\ ic_login_info_valid c' = ic_login_info_valid c /\ ic_pdu_events c' = ic_pdu_events c.

Lemma J_frame g s s' :
  J g s -> same_conn (ic s) (ic s') -> taskq s' = taskq s -> global_taskq s' = global_taskq s ->
  (forall p, good_pdu s p -> good_pdu s' p) -> J g s'.
Proof.
  intros [] (E1 & E2 & E3 & E4 & E5 & E6) Eq Eg Hp.
  split; rewrite ?E1, ?E2, ?E3, ?E4, ?E5, ?E6, ?Eq, ?Eg; try done.
  eapply Forall_impl; [exact J_live0 | done].
Qed.

Lemma J_emit g s e : J g s -> J g (emit e s).
Proof. intros H. eapply J_frame; [exact H | ..]; done. Qed.
Lemma J_timeout g s mem t : J g s -> J g (timeout mem t s).
Proof. intros H. destruct mem; (eapply J_frame; [exact H | ..]; done). Qed.
Lemma J_untimeout g s : J g s -> J g (untimeout s).
Proof. intros H. eapply J_frame; [exact H | ..]; done. Qed.
Lemma J_disconnect g s : J g s -> J g (disconnect s).
Proof. intros H. unfold disconnect. destruct (IDM_CONN_ISTGT s); by apply J_emit. Qed.
Lemma J_untimeout_tgt g s : J g s -> J g (untimeout_tgt s).
Proof. intros H. unfold untimeout_tgt. destruct (IDM_CONN_ISTGT s); [by apply J_untimeout | done]. Qed.

(** A change of the connection under its lock. *)
Definition unlocked (f : idm_conn_t -> idm_conn_t) : Prop :=
  forall k, ic_state_mutex (f (with_mutex true k)) = true /\ with_mutex false (f (with_mutex true k)) = with_mutex false (f k).

Lemma tri_locked b s f (P : sm -> Prop) :
  ic_state_mutex (ic s) = false -> unlocked f -> P (upd_ic (fun k => with_mutex false (f k)) s) ->
  tri b (s ← mutex_enter s ; mutex_exit (upd_ic f s)) P.
Proof.
  intros Hm Hf HP. destruct (Hf (ic s)) as (H1 & H2). unfold mutex_enter, mutex_exit. rewrite Hm. simpl.
  rewrite H1. simpl. unfold upd_ic in *. simpl. by rewrite H2.
Qed.

Lemma J_upd g g' s f :
  J g s -> (forall k, ic_state_mutex k = false -> ic_state_mutex (f k) = false) ->
  (forall k, ic_refcnt (f k) = ic_refcnt k) -> g_wait g' = g_wait g -> g_k g' = g_k g -> g_live g' = g_live g ->
  ic_state (f (ic s)) = g_st g' -> ic_ffp (f (ic s)) = g_ffp g' -> ic_login_info_valid (f (ic s)) = g_valid g' ->
  ic_pdu_events (f (ic s)) - ic_pdu_events (ic s) = g_d g' - g_d g -> J g' (upd_ic f s).
Proof.
  intros [] Hm Hr Ew Ek El Es Ef Ev Ed. split; simpl; rewrite ?Hr, ?Ew, ?Ek, ?El; try done.
  - by apply Hm.
  - lia.
Qed.

Ltac solve_unlocked := intros k; destruct k; split; reflexivity.
(** A locked update that turns [J g] into [J g']. *)
Ltac locked_J g' :=
  match goal with H : J ?g ?s |- _ =>
    apply tri_locked; [exact (J_mutex _ _ H) | solve_unlocked |
      apply (J_upd g g'); [exact H | done | done | done | done | done | ..]; simpl;
        rewrite ?(J_state _ _ H), ?(J_ffp _ _ H), ?(J_valid _ _ H); (done || lia)] end.

Section operations.
Context (b : bool) (env : idm_env).

Lemma set_ffp_J g s f : J g s -> tri b (set_ffp f s) (J (set_f f g)).
Proof. intros H. unfold set_ffp. locked_J (set_f f g). Qed.

Lemma notify_J g s cn x : J g s -> tri b (notify_ env cn x s) (J g).
Proof.
  intros H. unfold notify_, idm_notify_client. rewrite (J_mutex _ _ H). simpl. by apply J_emit.
Qed.

Lemma ffp_disable_J g s d : J g s -> tri b (idm_ffp_disable env d s) (J (set_f false g)).
Proof. intros H. unfold idm_ffp_disable. eapply tri_bind; [by apply set_ffp_J |]. intros s' H'. by apply notify_J. Qed.

Lemma ffp_enable_J g s : J g s -> g_ffp g = false ->
  tri b (idm_ffp_enable env s) (fun '(rc, s') => J (set_f (bool_decide (rc = IDM_STATUS_SUCCESS)) g) s').
Proof.
  intros H Hf. unfold idm_ffp_enable. eapply tri_bind; [by apply (set_ffp_J g) |]. intros s1 H1.
  unfold idm_notify_client. rewrite (J_mutex _ _ H1). simpl. case_bool_decide as Hr.
  - simpl. rewrite bool_decide_true by done. by apply J_emit.
  - eapply tri_bind; [apply set_ffp_J, J_emit; exact H1 |]. intros s2 H2. simpl. by rewrite bool_decide_false.
Qed.

(** Queueing an event: the count of the references and of the PDU events. *)
Lemma queue_event_J g s e i ty : J g s -> g_wait g = REF_NOWAIT ->
  tri b (queue_event e i ty s)
    (J (MkCfg (g_st g) (g_ffp g) (g_wait g) (g_valid g) (g_k g) (g_d g - pdu_count [MkCtx e i ty]) (g_live g))).
Proof.
  intros [] Hw. unfold queue_event, idm_conn_hold, idm_refcnt_hold. rewrite J_wait0, Hw. simpl.
  split; simpl; try done; rewrite ?Hw; try done.
  - rewrite length_app. simpl. lia.
  - rewrite pdu_count_app. lia.
Qed.

Lemma J_mutex_flip g s : J g s -> J g (upd_ic (with_mutex false) (upd_ic (with_mutex true) s)).
Proof. intros H. eapply J_frame; [exact H | ..]; simpl; try done. unfold same_conn. simpl. by rewrite (J_mutex _ _ H). Qed.

Lemma conn_event_J g s e i : J g s -> (terminal (g_st g) = false -> g_wait g = REF_NOWAIT) ->
  tri b (idm_conn_event e i s) (J g).
Proof.
  intros H Hw. unfold idm_conn_event, mutex_enter. rewrite (J_mutex _ _ H). simpl. rewrite (J_state _ _ H).
  destruct (terminal (g_st g)); simpl.
  - by apply J_mutex_flip.
  - pose proof (queue_event_J g s e i CT_NONE H (Hw eq_refl)) as Hq. unfold queue_event, idm_conn_hold, idm_refcnt_hold in *.
    simpl in *. destruct (bool_decide _) eqn:E; simpl in *; [| done].
    replace (g_d g - pdu_count _) with (g_d g) in Hq by (unfold pdu_count; simpl; lia).
    destruct g. by apply (J_mutex_flip _ _ Hq).
Qed.

Lemma task_abort_J g s t : J g s -> g_ffp g = false -> tri b (idm_task_abort_all t s) (J g).
Proof. intros H Hf. unfold idm_task_abort_all. rewrite (J_ffp _ _ H), Hf. simpl. by apply J_emit. Qed.

Lemma async_wait_J g s cb : J g s -> 0 < g_k g -> tri b (idm_refcnt_async_wait_ref cb s) (J (set_w REF_WAIT_ASYNC g)).
Proof.
  intros [] Hk. unfold idm_refcnt_async_wait_ref. rewrite (proj2 (Z.eqb_neq _ 0)) by lia. simpl. split; simpl; done.
Qed.

Lemma enter_complete_J g s : J g s -> g_ffp g = false -> 0 < g_k g ->
  tri b (enter_complete env s) (J (set_w REF_WAIT_ASYNC g)).
Proof.
  intros H Hf Hk. unfold enter_complete. eapply (tri_bind _ _ _ (J g)).
  { destruct (_ || _); [by apply notify_J | done]. }
  intros s1 H1. eapply tri_bind; [by apply task_abort_J |]. intros s2 H2. by apply async_wait_J.
Qed.

Lemma enter_init_error_J g s : J g s -> g_ffp g = false -> 0 < g_k g ->
  tri b (enter_init_error env s) (J (set_w REF_WAIT_ASYNC g)).
Proof.
  intros H Hf Hk. unfold enter_init_error. eapply (tri_bind _ _ _ (J g)); [| intros; by apply enter_complete_J].
  destruct (IDM_CONN_ISTGT s); [by apply J_emit |].
  assert (Hl : tri b (s ← mutex_enter s ; mutex_exit (upd_ic (fun k => with_sm_status IDM_STATUS_FAIL
                           (with_flags (Z.lor (ic_state_flags k) CF_ERROR) k)) s)) (J g)) by locked_J g.
  destruct (mutex_enter s) as [s1 |]; simpl in *; [| done].
  eapply tri_bind; [exact Hl |]. intros s2 H2. destruct (connected_before s2); [by apply J_emit | by apply notify_J].
Qed.

(** ** Entering a state *)
(** [g] after the machine has moved to [st]. *)
Definition moved (g : cfg) (st : idm_conn_state_t) (s' : sm) : Prop :=
  exists f, J (MkCfg st f (wait_for st) (g_valid g) (g_k g) (g_d g) (g_live g)) s' /\
    (f = true -> st = CS_S5_LOGGED_IN \/ st = CS_S7_LOGOUT_REQ).

Lemma moved_intro g st s' : J (set_w (wait_for st) (set_st st g)) s' -> g_ffp g = false \/ st = CS_S7_LOGOUT_REQ ->
  moved g st s'.
Proof. intros H Hf. exists (g_ffp g). split; [exact H |]. destruct Hf as [-> | ->]; auto; done. Qed.

Lemma enter_logged_in_J g s :
  J g s -> g_st g = CS_S5_LOGGED_IN -> g_wait g = REF_NOWAIT -> g_ffp g = false ->
  tri b (enter_logged_in env s) (fun s' => exists f, J (set_f f g) s').
Proof.
  intros H Hst Hw Hf. unfold enter_logged_in. rewrite (J_ffp _ _ H), Hf.
  apply tri_VERIFY; [done |]. intros _. eapply tri_bind; [by apply (ffp_enable_J g) |]. intros (rc, s1) H1.
  eapply (tri_bind _ _ _ (J (set_f (bool_decide (rc = IDM_STATUS_SUCCESS)) g))).
  { case_bool_decide; [done |]. apply conn_event_J; [done |]. by intros _. }
  intros s2 H2. destruct (ic_reinstate_conn (ic s2)); eexists; [apply J_emit |]; exact H2.
Qed.

Lemma enter_in_login_J g s : J g s -> tri b (enter_in_login env s) (J g).
Proof.
  intros H. unfold enter_in_login. case_bool_decide; [| done].
  eapply tri_bind; [by apply notify_J |]. intros s1 H1. clear H. locked_J g.
Qed.

Lemma enter_xpt_up_J g s : J g s -> g_st g = CS_S3_XPT_UP -> g_wait g = REF_NOWAIT -> tri b (enter_xpt_up env s) (J g).
Proof.
  intros H Hst Hw. unfold enter_xpt_up.
  assert (Hf : tri b (idm_tgt_conn_finish env s) (fun '(_, s') => J g s')).
  { unfold idm_tgt_conn_finish, idm_notify_client. rewrite (J_mutex _ _ H). simpl.
    case_bool_decide; simpl; by apply J_emit. }
  eapply tri_bind; [exact Hf |]. intros (rc, s1) H1.
  eapply (tri_bind _ _ _ (J g)); [destruct rc; try done; by apply conn_event_J |].
  intros s2 H2. by apply J_timeout.
Qed.

Lemma update_state_J g s st :
  J g s -> g_wait g = REF_NOWAIT -> 0 < g_k g -> g_ffp g = false \/ st = CS_S7_LOGOUT_REQ ->
  st ∉ [CS_S0_UNDEFINED; CS_S1_FREE; CS_MAX_STATE] ->
  tri b (idm_update_state env st s) (moved g st).
Proof.
  intros H Hw Hk Hf Hst. unfold idm_update_state.
  apply tri_VERIFY; [intros _; rewrite bool_decide_false by (intros ->; apply Hst; left); done |]. intros _.
  apply tri_VERIFY; [intros _; destruct st; try reflexivity; exfalso; apply Hst; do 2 right; left |]. intros _.
  assert (Hl : tri b (s ← mutex_enter s ; mutex_exit (upd_ic (fun k => with_state st (ic_state k) k) s)) (J (set_st st g))).
  { locked_J (set_st st g). }
  destruct (mutex_enter s) as [s1 |]; simpl in *; [| done].
  eapply tri_bind; [exact Hl |]. intros s2 H2. clear Hl H s1 s.
  assert (Hm : forall s', J (set_w (wait_for st) (set_st st g)) s' -> moved g st s') by (intros; by apply moved_intro).
  assert (Hgw : forall s', terminal st = false -> J (set_st st g) s' -> moved g st s').
  { intros s' Ht H. apply Hm. unfold wait_for. rewrite Ht, <- Hw. by destruct g. }
  assert (Hgf : st <> CS_S7_LOGOUT_REQ -> g_ffp g = false) by (intros; by destruct Hf).
  destruct st; try (exfalso; apply Hst; first [by left | right; by left | do 2 right; by left]).
  - destruct (bool_decide _); (eapply tri_impl; [by apply (conn_event_J (set_st CS_S2_XPT_WAIT g)) | intros; by apply Hgw]).
  - eapply tri_impl; [by apply (enter_xpt_up_J (set_st CS_S3_XPT_UP g)) | intros; by apply Hgw].
  - eapply tri_impl; [by apply (enter_in_login_J (set_st CS_S4_IN_LOGIN g)) | intros; by apply Hgw].
  - eapply tri_impl; [apply (enter_logged_in_J (set_st CS_S5_LOGGED_IN g)); try done; by apply Hgf |].
    intros s3 (f & H3). exists f. split; [| auto]. unfold wait_for. simpl. rewrite <- Hw. exact H3.
  - by apply Hgw.
  - destruct (IDM_CONN_ISTGT s2); apply Hgw; try done. by apply J_timeout.
  - unfold enter_cleanup. eapply tri_bind; [apply task_abort_J; [by apply J_disconnect | by apply Hgf] |].
    intros s3 H3. apply Hgw; [done |]. by apply J_timeout.
  - eapply tri_impl; [apply enter_init_error_J; [exact H2 | by apply Hgf | done] | exact Hm].
  - by apply Hgw.
  - eapply tri_impl; [apply enter_complete_J; [exact H2 | by apply Hgf | done] | exact Hm].
  - unfold enter_enable_dm. destruct (bool_decide (_ = IDM_STATUS_SUCCESS));
      (eapply tri_impl; [by apply (conn_event_J (set_st CS_S12_ENABLE_DM g)) | intros; by apply Hgw]).
  - eapply tri_impl; [apply async_wait_J; [exact H2 | done] | exact Hm].
  - by apply Hgw.
Qed.

(** ** PDUs *)
Definition set_l (l : list nat) (g : cfg) : cfg :=
  MkCfg (g_st g) (g_ffp g) (g_wait g) (g_valid g) (g_k g) (g_d g) l.
(** The PDUs known to be alive once [p] may have been freed. *)
Definition without (p : nat) (l : list nat) : list nat := List.filter (fun q => negb (Nat.eqb q p)) l.

Lemma J_sub g s l : J g s -> (forall p, p ∈ l -> p ∈ g_live g) -> J (set_l l g) s.
Proof.
  intros [] Hl. split; simpl; try done. rewrite Forall_forall in *. intros p Hp. by apply J_live0, Hl.
Qed.

Lemma without_sub p l q : q ∈ without p l -> q ∈ l /\ q <> p.
Proof.
  unfold without. rewrite !list_elem_of_In, filter_In. intros (Hq & Hn). split; [done |].
  intros ->. by rewrite Nat.eqb_refl in Hn.
Qed.

Lemma J_good g s p : J g s -> p ∈ g_live g -> good_pdu s p.
Proof. intros [] Hp. rewrite Forall_forall in J_live0. by apply J_live0. Qed.

Lemma tri_info {B} i (k : nat -> result B) Q :
  (b = true -> exists p, i = InfoPdu p) -> (forall p, i = InfoPdu p -> tri b (k p) Q) -> tri b (p ← info_pdu i ; k p) Q.
Proof.
  intros Hs Hk. destruct i as [| p | c]; simpl; [| by apply Hk |];
    (destruct b; [destruct (Hs eq_refl); discriminate | done]).
Qed.

Lemma tri_get_pdu {B} s p (k : idm_pdu_t -> result B) Q :
  (b = true -> good_pdu s p) -> (forall u, pdus s !! p = Some (Some u) -> tri b (k u) Q) ->
  tri b (u ← get_pdu s p ; k u) Q.
Proof.
  intros Hs Hk. unfold get_pdu, good_pdu in *. destruct (pdus s !! p) as [[u |] |]; simpl; [by apply Hk | |];
    (destruct b; [destruct (Hs eq_refl) as (? & ? & _); discriminate | done]).
Qed.

Lemma good_set_other s p q o : q <> p -> good_pdu s q -> good_pdu (set_pdu p o s) q.
Proof. intros Hn (u & Hu & Hc). exists u. split; [| done]. simpl. by rewrite list_lookup_insert_ne. Qed.

Lemma good_set_same s p u : (p < length (pdus s))%nat -> isp_callback u <> None \/ isp_alloc u = true ->
  good_pdu (set_pdu p (Some u) s) p.
Proof. intros Hl Hc. exists u. split; [| done]. simpl. by rewrite list_lookup_insert_eq. Qed.

Lemma J_set_pdu g s p o :
  J g s -> (p ∈ g_live g -> good_pdu (set_pdu p o s) p) -> J g (set_pdu p o s).
Proof.
  intros [] Hp. split; try done. rewrite Forall_forall in *. intros q Hq.
  destruct (decide (q = p)) as [-> | Hn]; [by apply Hp | apply good_set_other; auto].
Qed.

Lemma rx_forward_J g s p : J g s -> (b = true -> good_pdu s p) -> tri b (idm_pdu_rx_forward p s) (J g).
Proof.
  intros H Hp. unfold idm_pdu_rx_forward, idm_pdu_rx_forward_ffp. rewrite bind_assoc.
  apply tri_get_pdu; [done |]. intros u Hu. destruct (ffp_pdu _); simpl; by apply J_emit.
Qed.

Lemma pdu_complete_J g s p st :
  J g s -> (terminal (g_st g) = false -> g_wait g = REF_NOWAIT) -> (b = true -> good_pdu s p) ->
  tri b (idm_pdu_complete p st s) (J (set_l (without p (g_live g)) g)).
Proof.
  intros H Hw Hp. unfold idm_pdu_complete.
  assert (Hs : forall o, J (set_l (without p (g_live g)) g) (set_pdu p o s)).
  { intros o. apply J_set_pdu; [apply J_sub; [done |]; intros q Hq; by apply without_sub in Hq as [? _] |].
    simpl. intros Hin. by apply without_sub in Hin as (_ & ?). }
  apply tri_get_pdu; [done |]. intros u Hu. destruct (isp_callback u) as [cb |] eqn:Ecb.
  - destruct cb; simpl; [by apply J_emit | by apply conn_event_J ..].
  - apply tri_VERIFY; [| intros _; by apply J_emit]. intros Hb. destruct (Hp Hb) as (u' & Hu' & [Hc | Ha]); congruence.
Qed.

Lemma interpose_J g s c cb :
  J g s -> (b = true -> ic_client_callback (ic s) = None /\ exists p, iec_info c = InfoPdu p /\ p ∈ g_live g) ->
  tri b (interpose c cb s) (J g).
Proof.
  intros H Hs. unfold interpose. apply tri_info; [intros Hb; destruct (Hs Hb) as (_ & p & -> & _); eauto |].
  intros p Hp. apply tri_VERIFY; [intros Hb; apply bool_decide_true; by apply Hs |]. intros _.
  apply tri_get_pdu.
  { intros Hb. destruct (Hs Hb) as (_ & p' & Hp' & Hin). rewrite Hp in Hp'. injection Hp' as <-. by eapply J_good. }
  intros u Hu. assert (H' : J g (upd_ic (with_callback (isp_callback u)) s)) by (eapply J_frame; [exact H | ..]; done).
  apply J_set_pdu; [exact H' |]. intros _. apply good_set_same; [apply lookup_lt_Some in Hu; done | by left].
Qed.

Lemma restore_J g s c :
  J g s -> (terminal (g_st g) = false -> g_wait g = REF_NOWAIT) ->
  (b = true -> ic_client_callback (ic s) <> None /\ exists p, iec_info c = InfoPdu p /\ p ∈ g_live g) ->
  tri b (restore_callback c s) (fun s' => exists p, iec_info c = InfoPdu p /\ J (set_l (without p (g_live g)) g) s').
Proof.
  intros H Hw Hs. unfold restore_callback.
  apply tri_info; [intros Hb; destruct (Hs Hb) as (_ & p & -> & _); eauto |]. intros p Hp.
  apply tri_get_pdu.
  { intros Hb. destruct (Hs Hb) as (_ & p' & Hp' & Hin). rewrite Hp in Hp'. injection Hp' as <-. by eapply J_good. }
  intros u Hu. set (s1 := upd_ic (with_callback None) _).
  assert (H1 : J (set_l (without p (g_live g)) g) s1).
  { eapply (J_frame _ (set_pdu p (Some (with_isp_callback (ic_client_callback (ic s)) u)) s)); [| done ..].
    apply J_set_pdu; [apply J_sub; [done |]; intros q Hq; by apply without_sub in Hq as [? _] |].
    intros Hin. by apply without_sub in Hin as (_ & ?). }
  eapply tri_impl; [apply (pdu_complete_J _ s1 p (isp_status u) H1); [done |] |].
  - intros Hb. destruct (Hs Hb) as (Hc & _). exists (with_isp_callback (ic_client_callback (ic s)) u).
    split; [simpl; apply list_lookup_insert_eq; by eapply lookup_lt_Some | by left].
  - intros s' H'. exists p. split; [done |]. eapply (J_sub _ _ (without p (g_live g)) H').
    simpl. intros q Hq. unfold without in *. rewrite !list_elem_of_In, !filter_In in *. tauto.
Qed.

(** The first login PDU, handled under the lock. *)
Lemma login_actions_J {B} g s c (k : sm -> result B) Q :
  J g s -> (b = true -> exists p, iec_info c = InfoPdu p /\ p ∈ g_live g) ->
  iec_event c = CE_LOGIN_RCV \/ iec_event c = CE_LOGIN_SND -> (forall s', J g s' -> tri b (k s') Q) ->
  tri b (s ← mutex_enter s ; s ← idm_initial_login_actions c s ; s ← mutex_exit s ; k s) Q.
Proof.
  intros H Hs He Hk. unfold mutex_enter. rewrite (J_mutex _ _ H). simpl. unfold idm_initial_login_actions.
  rewrite bind_assoc. apply tri_info; [intros Hb; destruct (Hs Hb) as (p & -> & _); eauto |]. intros p Hp.
  rewrite bind_assoc. apply tri_get_pdu.
  { intros Hb. destruct (Hs Hb) as (p' & Hp' & Hin). rewrite Hp in Hp'. injection Hp' as <-.
    by apply (J_good _ _ _ H). }
  intros u Hu. simpl.
  replace (bool_decide _ || bool_decide _) with true by (destruct He as [-> | ->]; reflexivity). simpl.
  apply Hk. eapply J_frame; [exact H | ..]; simpl; try done. unfold same_conn. simpl. by rewrite (J_mutex _ _ H).
Qed.

Lemma success_actions_J g s c :
  J g s -> iec_event c = CE_LOGIN_SUCCESS_RCV \/ iec_event c = CE_LOGIN_SUCCESS_SND ->
  tri b (idm_login_success_actions c s) (J (set_v true g)).
Proof.
  intros H He. unfold idm_login_success_actions. apply tri_VERIFY.
  { intros _. by destruct He as [-> | ->]. }
  intros _. locked_J (set_v true g).
Qed.
End operations.
