(* ===== verification/IdmInv.v ===== *)
(** * Every handler keeps the invariant and follows the transitions *)
From S2P Require Import Prelude IdmConn IdmConnSm IdmSpec.
Local Open Scope Z_scope.

(** The events the handler of a state has a case for; any other event is a
    failed assertion. *)
Definition handled_events (st : idm_conn_state_t) : list idm_conn_event_t :=
  match st with
  | CS_S1_FREE => [CE_CONNECT_REQ; CE_CONNECT_ACCEPT; CE_TX_PROTOCOL_ERROR; CE_RX_PROTOCOL_ERROR]
  | CS_S2_XPT_WAIT => [CE_CONNECT_SUCCESS; CE_TRANSPORT_FAIL; CE_CONNECT_FAIL; CE_LOGOUT_OTHER_CONN_RCV;
      CE_TX_PROTOCOL_ERROR; CE_RX_PROTOCOL_ERROR]
  | CS_S3_XPT_UP => [CE_LOGIN_RCV; CE_LOGIN_TIMEOUT; CE_CONNECT_REJECT; CE_CONNECT_FAIL; CE_TRANSPORT_FAIL;
      CE_LOGOUT_OTHER_CONN_SND; CE_TX_PROTOCOL_ERROR; CE_RX_PROTOCOL_ERROR]
  | CS_S4_IN_LOGIN => [CE_LOGIN_SUCCESS_RCV; CE_LOGIN_SUCCESS_SND; CE_LOGIN_TIMEOUT; CE_LOGIN_FAIL_SND;
      CE_LOGIN_FAIL_RCV; CE_TRANSPORT_FAIL; CE_LOGOUT_OTHER_CONN_SND; CE_LOGOUT_OTHER_CONN_RCV;
      CE_LOGOUT_SESSION_SUCCESS; CE_LOGIN_SND; CE_MISC_TX; CE_MISC_RX; CE_LOGIN_RCV; CE_TX_PROTOCOL_ERROR;
      CE_RX_PROTOCOL_ERROR]
  | CS_S5_LOGGED_IN => [CE_MISC_RX; CE_LOGOUT_THIS_CONN_RCV; CE_LOGOUT_THIS_CONN_SND; CE_LOGOUT_OTHER_CONN_RCV;
      CE_LOGOUT_OTHER_CONN_SND; CE_LOGOUT_SESSION_RCV; CE_LOGOUT_SESSION_SND; CE_LOGOUT_SESSION_SUCCESS;
      CE_ASYNC_LOGOUT_RCV; CE_ASYNC_LOGOUT_SND; CE_TRANSPORT_FAIL; CE_ASYNC_DROP_CONN_RCV; CE_ASYNC_DROP_CONN_SND;
      CE_ASYNC_DROP_ALL_CONN_RCV; CE_ASYNC_DROP_ALL_CONN_SND; CE_MISC_TX; CE_TX_PROTOCOL_ERROR;
      CE_RX_PROTOCOL_ERROR; CE_LOGIN_TIMEOUT]
  | CS_S6_IN_LOGOUT => [CE_LOGOUT_SUCCESS_SND_DONE; CE_LOGOUT_FAIL_SND_DONE; CE_LOGOUT_SUCCESS_SND;
      CE_LOGOUT_FAIL_SND; CE_LOGOUT_SUCCESS_RCV; CE_LOGOUT_SESSION_SUCCESS; CE_ASYNC_LOGOUT_RCV; CE_TRANSPORT_FAIL;
      CE_ASYNC_DROP_CONN_RCV; CE_ASYNC_DROP_CONN_SND; CE_ASYNC_DROP_ALL_CONN_RCV; CE_ASYNC_DROP_ALL_CONN_SND;
      CE_LOGOUT_FAIL_RCV; CE_TX_PROTOCOL_ERROR; CE_RX_PROTOCOL_ERROR; CE_MISC_TX; CE_MISC_RX; CE_LOGIN_TIMEOUT]
  | CS_S7_LOGOUT_REQ => [CE_LOGOUT_THIS_CONN_RCV; CE_LOGOUT_THIS_CONN_SND; CE_LOGOUT_OTHER_CONN_RCV;
      CE_LOGOUT_OTHER_CONN_SND; CE_LOGOUT_SESSION_RCV; CE_LOGOUT_SESSION_SND; CE_ASYNC_LOGOUT_RCV;
      CE_ASYNC_LOGOUT_SND; CE_TRANSPORT_FAIL; CE_ASYNC_DROP_CONN_RCV; CE_ASYNC_DROP_CONN_SND;
      CE_ASYNC_DROP_ALL_CONN_RCV; CE_ASYNC_DROP_ALL_CONN_SND; CE_LOGOUT_TIMEOUT; CE_LOGOUT_SESSION_SUCCESS;
      CE_TX_PROTOCOL_ERROR; CE_RX_PROTOCOL_ERROR; CE_MISC_TX; CE_MISC_RX; CE_LOGIN_TIMEOUT]
  | CS_S8_CLEANUP => [CE_LOGOUT_SUCCESS_RCV; CE_LOGOUT_SUCCESS_SND; CE_LOGOUT_SESSION_SUCCESS; CE_CLEANUP_TIMEOUT;
      CE_LOGOUT_OTHER_CONN_RCV; CE_LOGOUT_OTHER_CONN_SND; CE_LOGOUT_SUCCESS_SND_DONE; CE_LOGOUT_FAIL_SND_DONE;
      CE_LOGOUT_SESSION_RCV; CE_LOGOUT_SESSION_SND; CE_TX_PROTOCOL_ERROR; CE_RX_PROTOCOL_ERROR; CE_MISC_TX;
      CE_MISC_RX; CE_TRANSPORT_FAIL; CE_LOGIN_TIMEOUT; CE_LOGOUT_TIMEOUT]
  | CS_S10_IN_CLEANUP => [CE_LOGOUT_FAIL_RCV; CE_LOGOUT_FAIL_SND; CE_LOGOUT_SUCCESS_SND; CE_LOGOUT_SUCCESS_RCV;
      CE_LOGOUT_SESSION_SUCCESS; CE_CLEANUP_TIMEOUT; CE_LOGOUT_SUCCESS_SND_DONE; CE_LOGOUT_FAIL_SND_DONE;
      CE_TX_PROTOCOL_ERROR; CE_RX_PROTOCOL_ERROR; CE_MISC_TX; CE_MISC_RX; CE_LOGIN_TIMEOUT; CE_LOGOUT_TIMEOUT]
  | CS_S12_ENABLE_DM => [CE_ENABLE_DM_SUCCESS; CE_ENABLE_DM_FAIL; CE_TRANSPORT_FAIL]
  | _ => []
  end.
(** States whose handler has no assertion. *)
Definition ignores (st : idm_conn_state_t) : bool := terminal st || bool_decide (st = CS_S9B_WAIT_SND_DONE).
Definition handled (st : idm_conn_state_t) (e : idm_conn_event_t) : bool :=
  ignores st || bool_decide (e ∈ handled_events st).

(** What the handlers need of the client: which events use their PDU, which
    put a callback in the place of the client's and which put it back. *)
Definition needs_pdu (st : idm_conn_state_t) (e : idm_conn_event_t) : bool :=
  match st, e with
  | CS_S3_XPT_UP, CE_LOGIN_RCV | CS_S4_IN_LOGIN, (CE_LOGIN_SND | CE_LOGIN_FAIL_RCV)
  | CS_S6_IN_LOGOUT, CE_LOGOUT_SUCCESS_RCV => true
  | _, _ => false
  end.
Definition interposes (st : idm_conn_state_t) (e : idm_conn_event_t) : bool :=
  match st, e with
  | CS_S4_IN_LOGIN, CE_LOGIN_FAIL_SND | CS_S6_IN_LOGOUT, (CE_LOGOUT_SUCCESS_SND | CE_LOGOUT_FAIL_SND) => true
  | _, _ => false
  end.
Definition no_callback (st : idm_conn_state_t) (e : idm_conn_event_t) : bool :=
  match st, e with
  | CS_S4_IN_LOGIN, (CE_LOGIN_SUCCESS_RCV | CE_LOGIN_SUCCESS_SND | CE_LOGIN_FAIL_RCV | CE_LOGIN_SND) => true
  | _, _ => interposes st e
  end.
Definition restores (st : idm_conn_state_t) (e : idm_conn_event_t) : bool :=
  match st, e with
  | (CS_S6_IN_LOGOUT | CS_S8_CLEANUP | CS_S10_IN_CLEANUP | CS_S11_COMPLETE),
    (CE_LOGOUT_SUCCESS_SND_DONE | CE_LOGOUT_FAIL_SND_DONE) => true
  | CS_S9B_WAIT_SND_DONE, CE_LOGIN_FAIL_SND_DONE => true
  | _, _ => false
  end.

Record ready (g : cfg) (c : idm_conn_event_ctx_t) (s : sm) : Prop := {
  rd_handled : handled (g_st g) (iec_event c) = true;
  rd_pdu : needs_pdu (g_st g) (iec_event c) || interposes (g_st g) (iec_event c)
             || restores (g_st g) (iec_event c) = true -> exists p, iec_info c = InfoPdu p /\ p ∈ g_live g;
  rd_free : no_callback (g_st g) (iec_event c) = true -> ic_client_callback (ic s) = None;
  rd_taken : restores (g_st g) (iec_event c) = true -> ic_client_callback (ic s) <> None;
  rd_tgt : g_st g = CS_S6_IN_LOGOUT -> iec_event c = CE_LOGOUT_SUCCESS_SND_DONE -> IDM_CONN_ISTGT s = true
}.

(** The PDUs known to be alive after the handler. *)
Definition live_after (c : idm_conn_event_ctx_t) (l : list nat) : list nat :=
  match iec_event c, iec_info c with
  | (CE_LOGOUT_SUCCESS_SND_DONE | CE_LOGOUT_FAIL_SND_DONE | CE_LOGIN_FAIL_SND_DONE), InfoPdu p => without p l
  | _, _ => l
  end.

(** The invariant as far as the state determines it. *)
Record inv_g (g : cfg) : Prop := {
  ig_ffp : g_ffp g = true -> g_st g = CS_S5_LOGGED_IN \/ g_st g = CS_S7_LOGOUT_REQ;
  ig_wait : g_wait g = wait_for (g_st g);
  ig_valid : logged_in (g_st g) = true -> g_valid g = true;
  ig_k : 0 < g_k g
}.

(** The result of a handler: the state is as before, or one transition on. *)
Definition stepped (g : cfg) (c : idm_conn_event_ctx_t) (r : sm * bool) : Prop :=
  J (set_l (live_after c (g_live g)) g) (fst r) \/
  exists st v, conn_trans (g_st g) (iec_event c) st /\ (logged_in st = true -> v = true) /\
    moved (set_l (live_after c (g_live g)) (set_v v g)) st (fst r).

Lemma live_after_sub c l p : p ∈ live_after c l -> p ∈ l.
Proof.
  unfold live_after. destruct (iec_event c), (iec_info c); try done; intros H; by apply without_sub in H as [? _].
Qed.

Lemma trans_target st e st' : conn_trans st e st' -> st' ∉ [CS_S0_UNDEFINED; CS_S1_FREE; CS_MAX_STATE].
Proof. intros []; rewrite !not_elem_of_cons; repeat split; try done; apply not_elem_of_nil. Qed.

Lemma tri_panic {A} b (Q : A -> Prop) : (b = true -> False) -> tri b Panic Q.
Proof. destruct b; [intros H; by destruct H | done]. Qed.

Section handlers.
Context (b : bool) (env : idm_env) (c : idm_conn_event_ctx_t) (g : cfg) (Hg : inv_g g).

Lemma stay_J s : J (set_l (live_after c (g_live g)) g) s -> tri b (stay s) (stepped g c).
Proof. intros H. by left. Qed.

Lemma J_after s : J g s -> J (set_l (live_after c (g_live g)) g) s.
Proof. intros H. eapply J_sub; [exact H |]. apply live_after_sub. Qed.

(** Moving on from a state [g1] reached in the handler. *)
Lemma update_J g1 s st :
  J g1 s -> g_k g1 = g_k g -> g_d g1 = g_d g -> (forall p, p ∈ live_after c (g_live g) -> p ∈ g_live g1) ->
  g_wait g1 = REF_NOWAIT -> g_ffp g1 = false \/ st = CS_S7_LOGOUT_REQ ->
  conn_trans (g_st g) (iec_event c) st -> (logged_in st = true -> g_valid g1 = true) ->
  tri b (idm_update_state env st s) (fun s' => forall f, stepped g c (s', f)).
Proof.
  intros H Ek Ed El Hw Hf Ht Hv. pose proof (ig_k _ Hg) as Hk.
  assert (H1 : J (set_l (live_after c (g_live g)) g1) s) by (by apply J_sub).
  eapply tri_impl; [apply (update_state_J b env (set_l (live_after c (g_live g)) g1)); try done |].
  - simpl. lia.
  - by eapply trans_target.
  - intros s' (f & HJ & HF) fw. right. exists st, (g_valid g1). split; [done |]. split; [done |].
    exists f. split; [| done]. simpl in *. rewrite <- Ek, <- Ed. exact HJ.
Qed.

Lemma goto_J g1 s st :
  J g1 s -> g_k g1 = g_k g -> g_d g1 = g_d g -> (forall p, p ∈ live_after c (g_live g) -> p ∈ g_live g1) ->
  g_wait g1 = REF_NOWAIT -> g_ffp g1 = false \/ st = CS_S7_LOGOUT_REQ ->
  conn_trans (g_st g) (iec_event c) st -> (logged_in st = true -> g_valid g1 = true) ->
  tri b (goto env st s) (stepped g c).
Proof.
  intros. unfold goto. eapply tri_bind; [by apply (update_J g1) |]. intros s' Hs'. apply Hs'.
Qed.
End handlers.

Ltac mem := rewrite list_elem_of_In; simpl; tauto.
(** An event the handler has no case for. *)
Ltac no_case Hr Hst E :=
  apply tri_panic; let Hb := fresh in let Hh := fresh in intros Hb; destruct (Hr Hb) as [Hh _ _ _ _];
  rewrite Hst, E in Hh; vm_compute in Hh; discriminate Hh.
(** The side conditions of a move. *)
Ltac advance Hst E Hg H :=
  eapply goto_J; [exact Hg | exact H | done | done | intros ? ?; by eapply live_after_sub
    | simpl; by rewrite ?(ig_wait _ Hg), ?Hst
    | simpl; try (by right); left;
      first [done | destruct (g_ffp _) eqn:?; [destruct (ig_ffp _ Hg) as [?|?]; [done | congruence | congruence] | done]]
    | rewrite Hst, E; solve [constructor; mem | constructor]
    | intros ?; first [done | by apply (ig_valid _ Hg); rewrite Hst]].
Ltac kept H := apply stay_J, J_after; exact H.

Section states.
Context (b : bool) (env : idm_env) (c : idm_conn_event_ctx_t) (g : cfg) (Hg : inv_g g).

Lemma s1_J s : J g s -> g_st g = CS_S1_FREE -> (b = true -> ready g c s) -> tri b (idm_state_s1_free env c s) (stepped g c).
Proof.
  intros H Hst Hr. unfold idm_state_s1_free. destruct (iec_event c) eqn:E; try (no_case Hr Hst E); advance Hst E Hg H.
Qed.

Lemma s2_J s : J g s -> g_st g = CS_S2_XPT_WAIT -> (b = true -> ready g c s) ->
  tri b (idm_state_s2_xpt_wait env c s) (stepped g c).
Proof.
  intros H Hst Hr. unfold idm_state_s2_xpt_wait. destruct (iec_event c) eqn:E; try (no_case Hr Hst E); advance Hst E Hg H.
Qed.

Lemma s12_J s : J g s -> g_st g = CS_S12_ENABLE_DM -> (b = true -> ready g c s) ->
  tri b (idm_state_s12_enable_dm env c s) (stepped g c).
Proof.
  intros H Hst Hr. unfold idm_state_s12_enable_dm. destruct (iec_event c) eqn:E; try (no_case Hr Hst E);
    first [kept H | advance Hst E Hg H].
Qed.

Lemma s3_J s : J g s -> g_st g = CS_S3_XPT_UP -> (b = true -> ready g c s) ->
  tri b (idm_state_s3_xpt_up env c s) (stepped g c).
Proof.
  intros H Hst Hr. unfold idm_state_s3_xpt_up. destruct (iec_event c) eqn:E; try (no_case Hr Hst E); try (kept H).
  - eapply tri_bind; [apply notify_J, J_untimeout; exact H |]. intros s1 H1. advance Hst E Hg H1.
  - eapply tri_bind; [apply notify_J, J_untimeout; exact H |]. intros s1 H1. advance Hst E Hg H1.
  - apply (J_untimeout _ _) in H. advance Hst E Hg H.
  - eapply login_actions_J; [exact H | | by left |].
    { intros Hb. apply (rd_pdu _ _ _ (Hr Hb)). by rewrite Hst, E. }
    intros s1 H1. advance Hst E Hg H1.
  - eapply tri_bind; [apply notify_J; exact H |]. intros s1 H1. advance Hst E Hg H1.
  - eapply tri_bind; [apply notify_J, J_untimeout; exact H |]. intros s1 H1. advance Hst E Hg H1.
Qed.

(** What [ready] gives in a given case. *)
Lemma ready_pdu s : (b = true -> ready g c s) ->
  needs_pdu (g_st g) (iec_event c) || interposes (g_st g) (iec_event c) || restores (g_st g) (iec_event c) = true ->
  b = true -> exists p, iec_info c = InfoPdu p /\ p ∈ g_live g.
Proof. intros Hr Hn Hb. by apply (rd_pdu _ _ _ (Hr Hb)). Qed.

Lemma ready_free s : (b = true -> ready g c s) -> no_callback (g_st g) (iec_event c) = true ->
  b = true -> ic_client_callback (ic s) = None.
Proof. intros Hr Hn Hb. by apply (rd_free _ _ _ (Hr Hb)). Qed.

Lemma login_success_J s :
  J g s -> g_st g = CS_S4_IN_LOGIN -> (b = true -> ready g c s) ->
  iec_event c = CE_LOGIN_SUCCESS_RCV \/ iec_event c = CE_LOGIN_SUCCESS_SND ->
  tri b (VERIFY (bool_decide (ic_client_callback (ic s) = None)) ;;
         s ← idm_login_success_actions c (untimeout s) ;
         if ic_rdma_extensions (ic s) then goto env CS_S12_ENABLE_DM s else goto env CS_S5_LOGGED_IN s) (stepped g c).
Proof.
  intros H Hst Hr He.
  apply tri_VERIFY.
  { intros Hb. apply bool_decide_true. apply ready_free; [done | | done]. rewrite Hst. by destruct He as [-> | ->]. }
  intros _. eapply tri_bind; [apply success_actions_J; [apply J_untimeout; exact H | done] |]. intros s1 H1.
  destruct (ic_rdma_extensions (ic s1)); destruct He as [E | E]; advance Hst E Hg H1.
Qed.

Lemma login_fail_rcv_J s : J g s -> g_st g = CS_S4_IN_LOGIN -> (b = true -> ready g c s) ->
  iec_event c = CE_LOGIN_FAIL_RCV ->
  tri b (VERIFY (bool_decide (ic_client_callback (ic s) = None)) ;;
      p ← info_pdu (iec_info c) ; s ← idm_pdu_rx_forward p s ;
      s ← notify_ env CN_LOGIN_FAIL 0 (untimeout s) ; s ← idm_update_state env CS_S9_INIT_ERROR s ; Ok (s, true)) (stepped g c).
Proof.
  intros H Hst Hr E.
  apply tri_VERIFY; [intros Hb; apply bool_decide_true, ready_free; (done || by rewrite Hst, E) |]. intros _.
  assert (Hp : b = true -> exists p, iec_info c = InfoPdu p /\ p ∈ g_live g).
  { apply (ready_pdu s Hr). by rewrite Hst, E. }
  apply tri_info; [intros Hb; destruct (Hp Hb) as (p & -> & _); eauto |]. intros p Ep.
  eapply tri_bind; [apply (rx_forward_J _ g); [exact H |] |].
  { intros Hb. destruct (Hp Hb) as (p' & Ep' & Hin). rewrite Ep in Ep'. injection Ep' as <-. by eapply J_good. }
  intros s1 H1. eapply tri_bind; [apply notify_J, J_untimeout; exact H1 |]. intros s2 H2.
  eapply (tri_bind _ _ _ (fun s' => forall f, stepped g c (s', f))); [| intros s3 H3; apply H3].
  eapply (update_J _ _ _ _ Hg g); try done; [apply live_after_sub | by rewrite (ig_wait _ Hg), Hst | | rewrite Hst, E; apply T7; mem].
  left. destruct (g_ffp g) eqn:Ef; [destruct (ig_ffp _ Hg Ef); congruence | done].
Qed.

Lemma s4_J s : J g s -> g_st g = CS_S4_IN_LOGIN -> (b = true -> ready g c s) ->
  tri b (idm_state_s4_in_login env c s) (stepped g c).
Proof.
  intros H Hst Hr. unfold idm_state_s4_in_login. destruct (iec_event c) eqn:E; try (no_case Hr Hst E); try (kept H).
  - apply tri_VERIFY; [intros Hb; apply bool_decide_true, ready_free; (done || by rewrite Hst, E) |]. intros _.
    destruct (Z.land (ic_state_flags (ic s)) CF_INITIAL_LOGIN =? 0) eqn:Ef.
    + assert (Hl : tri b (s ← mutex_enter s ; s ← idm_initial_login_actions c s ; s ← mutex_exit s ; stay s) (stepped g c)).
      { eapply login_actions_J; [exact H | | by right | intros s1 H1; kept H1]. apply (ready_pdu s Hr). by rewrite Hst, E. }
      unfold mutex_enter in *. destruct (VERIFY _); simpl in *; [| done]. by rewrite Ef.
    + unfold mutex_enter. rewrite (J_mutex _ _ H). simpl. rewrite Ef. apply stay_J, J_after. by apply J_mutex_flip.
  - apply login_success_J; auto.
  - by apply login_fail_rcv_J.
  - eapply tri_bind; [apply notify_J, J_untimeout; exact H |]. intros s1 H1. advance Hst E Hg H1.
  - eapply tri_bind; [apply notify_J; exact H |]. intros s1 H1. advance Hst E Hg H1.
  - apply login_success_J; auto.
  - eapply tri_bind; [apply interpose_J; [apply J_untimeout; exact H |] |].
    { intros Hb. split; [apply (ready_free s Hr); (done || by rewrite Hst, E) | apply (ready_pdu s Hr); (done || by rewrite Hst, E)]. }
    intros s1 H1. advance Hst E Hg H1.
  - eapply tri_bind; [apply notify_J, J_untimeout; exact H |]. intros s1 H1. advance Hst E Hg H1.
  - eapply tri_bind; [apply notify_J, J_untimeout; exact H |]. intros s1 H1. advance Hst E Hg H1.
  - eapply tri_bind; [apply notify_J, J_untimeout, J_disconnect; exact H |]. intros s1 H1. advance Hst E Hg H1.
Qed.

Lemma s5_J s : J g s -> g_st g = CS_S5_LOGGED_IN -> (b = true -> ready g c s) ->
  tri b (idm_state_s5_logged_in env c s) (stepped g c).
Proof.
  intros H Hst Hr. unfold idm_state_s5_logged_in.
  destruct (iec_event c) eqn:E; try (no_case Hr Hst E); try (kept H); try (advance Hst E Hg H);
    (eapply tri_bind; [apply ffp_disable_J; exact H |]; intros s1 H1; first [advance Hst E Hg H1 |
       apply J_disconnect in H1; advance Hst E Hg H1]).
Qed.

Lemma s7_J s : J g s -> g_st g = CS_S7_LOGOUT_REQ -> (b = true -> ready g c s) ->
  tri b (idm_state_s7_logout_req env c s) (stepped g c).
Proof.
  intros H Hst Hr. unfold idm_state_s7_logout_req. apply J_untimeout_tgt in H as Hu.
  destruct (iec_event c) eqn:E; try (no_case Hr Hst E); try (kept H);
    (eapply tri_bind; [apply ffp_disable_J; first [exact H | exact Hu] |]; intros s1 H1; first [advance Hst E Hg H1 |
       apply J_disconnect in H1; advance Hst E Hg H1]).
Qed.

(** Completing a delayed PDU, then staying or moving on. *)
Lemma restored_J {B} s (k : sm -> result B) Q :
  J g s -> (b = true -> ready g c s) -> restores (g_st g) (iec_event c) = true ->
  (forall s', J (set_l (live_after c (g_live g)) g) s' -> tri b (k s') Q) ->
  tri b (s ← restore_callback c s ; k s) Q.
Proof.
  intros H Hr Hn Hk. eapply tri_bind; [apply (restore_J b g s c H) |].
  - intros Ht. rewrite (ig_wait _ Hg). unfold wait_for. by rewrite Ht.
  - intros Hb. split; [by apply (rd_taken _ _ _ (Hr Hb)) |]. apply (ready_pdu s Hr); [| done]. by rewrite Hn, orb_true_r.
  - intros s1 (p & Ep & H1). apply Hk. unfold live_after. rewrite Ep.
    destruct (g_st g), (iec_event c); try discriminate Hn; exact H1.
Qed.

Lemma logout_success_rcv_J s : J g s -> g_st g = CS_S6_IN_LOGOUT -> (b = true -> ready g c s) ->
  iec_event c = CE_LOGOUT_SUCCESS_RCV ->
  tri b (p ← info_pdu (iec_info c) ; s ← idm_pdu_rx_forward p s ;
         s ← idm_update_state env CS_S11_COMPLETE (disconnect s) ; Ok (s, true)) (stepped g c).
Proof.
  intros H Hst Hr E.
  assert (Hp : b = true -> exists p, iec_info c = InfoPdu p /\ p ∈ g_live g).
  { apply (ready_pdu s Hr). by rewrite Hst, E. }
  apply tri_info; [intros Hb; destruct (Hp Hb) as (p & -> & _); eauto |]. intros p Ep.
  eapply tri_bind; [apply (rx_forward_J _ g); [exact H |] |].
  { intros Hb. destruct (Hp Hb) as (p' & Ep' & Hin). rewrite Ep in Ep'. injection Ep' as <-. by eapply J_good. }
  intros s1 H1. apply J_disconnect in H1.
  eapply (tri_bind _ _ _ (fun s' => forall f, stepped g c (s', f))); [| intros s3 H3; apply H3].
  eapply (update_J _ _ _ _ Hg g); try done; [apply live_after_sub | by rewrite (ig_wait _ Hg), Hst | | rewrite Hst, E; apply T13; mem].
  left. destruct (g_ffp g) eqn:Ef; [destruct (ig_ffp _ Hg Ef); congruence | done].
Qed.

(** A move after the PDU of the event may have been freed. *)
Lemma goto_restored_J s st :
  J (set_l (live_after c (g_live g)) g) s -> terminal (g_st g) = false -> g_ffp g = false ->
  conn_trans (g_st g) (iec_event c) st -> (logged_in st = true -> g_valid g = true) -> tri b (goto env st s) (stepped g c).
Proof.
  intros H Ht Hf Htr Hv. eapply (goto_J _ _ _ _ Hg); [exact H | ..]; try done; [| by left].
  simpl. rewrite (ig_wait _ Hg). unfold wait_for. by rewrite Ht.
Qed.

Lemma not_ffp : g_st g <> CS_S5_LOGGED_IN -> g_st g <> CS_S7_LOGOUT_REQ -> g_ffp g = false.
Proof. intros H5 H7. destruct (g_ffp g) eqn:E; [by destruct (ig_ffp _ Hg E) | done]. Qed.

Lemma s6_J s : J g s -> g_st g = CS_S6_IN_LOGOUT -> (b = true -> ready g c s) ->
  tri b (idm_state_s6_in_logout env c s) (stepped g c).
Proof.
  intros H Hst Hr. apply J_disconnect in H as Hd. unfold idm_state_s6_in_logout.
  assert (Hf : g_ffp g = false) by (apply not_ffp; by rewrite Hst).
  assert (Hv : g_valid g = true) by (apply (ig_valid _ Hg); by rewrite Hst).
  assert (Hi : forall e cb, iec_event c = e -> interposes (g_st g) e = true ->
    tri b (s ← interpose c cb s ; stay s) (stepped g c)).
  { intros e cb E Hi. eapply tri_bind; [apply interpose_J; [exact H |] | intros s1 H1; kept H1].
    intros Hb. split; [apply (ready_free s Hr) | apply (ready_pdu s Hr)]; rewrite ?E, ?Hi, ?orb_true_r; try done.
    unfold no_callback. rewrite Hst in *. destruct e; done. }
  destruct (iec_event c) eqn:E; try (no_case Hr Hst E); try (kept H);
    try (advance Hst E Hg H); try (advance Hst E Hg Hd); try (eapply Hi; [reflexivity | by rewrite Hst]).
  - by apply logout_success_rcv_J.
  - apply tri_VERIFY; [intros Hb; by apply (rd_tgt _ _ _ (Hr Hb)) |]. intros Ht.
    apply restored_J; [by apply J_emit | | by rewrite Hst, E |].
    + intros Hb. destruct (Hr Hb). by split.
    + intros s1 H1. apply goto_restored_J; try done; rewrite Hst, ?E; [done | apply T13; mem].
  - apply restored_J; [done | done | by rewrite Hst, E |].
    intros s1 H1. apply goto_restored_J; try done; rewrite Hst, ?E; [done | apply T17; mem].
Qed.

Lemma s8_J s : J g s -> g_st g = CS_S8_CLEANUP -> (b = true -> ready g c s) ->
  tri b (idm_state_s8_cleanup env c s) (stepped g c).
Proof.
  intros H Hst Hr. apply J_untimeout in H as Hu. unfold idm_state_s8_cleanup.
  destruct (iec_event c) eqn:E; try (no_case Hr Hst E); try (kept H); try (advance Hst E Hg H); try (advance Hst E Hg Hu);
    (apply restored_J; [done | done | by rewrite Hst, E | intros s1 H1; by apply stay_J]).
Qed.

Lemma s10_J s : J g s -> g_st g = CS_S10_IN_CLEANUP -> (b = true -> ready g c s) ->
  tri b (idm_state_s10_in_cleanup env c s) (stepped g c).
Proof.
  intros H Hst Hr. apply J_untimeout in H as Hu. unfold idm_state_s10_in_cleanup.
  destruct (iec_event c) eqn:E; try (no_case Hr Hst E); try (kept H); try (advance Hst E Hg H); try (advance Hst E Hg Hu);
    (apply restored_J; [done | done | by rewrite Hst, E | intros s1 H1; by apply stay_J]).
Qed.

Lemma s11_J s : J g s -> g_st g = CS_S11_COMPLETE -> (b = true -> ready g c s) ->
  tri b (idm_state_s11_complete c s) (stepped g c).
Proof.
  intros H Hst Hr. unfold idm_state_s11_complete. destruct (iec_event c) eqn:E; try (kept H);
    (apply restored_J; [done | done | by rewrite Hst, E | intros s1 H1; by apply stay_J]).
Qed.

Lemma s9b_J s : J g s -> g_st g = CS_S9B_WAIT_SND_DONE -> (b = true -> ready g c s) ->
  tri b (idm_state_s9b_wait_snd_done env c s) (stepped g c).
Proof.
  intros H Hst Hr. unfold idm_state_s9b_wait_snd_done. destruct (iec_event c) eqn:E; try (kept H).
  apply restored_J; [done | done | by rewrite Hst, E |]. intros s1 H1.
  apply goto_restored_J; try done; [by rewrite Hst | apply not_ffp; by rewrite Hst | rewrite Hst, E; apply T7_sent].
Qed.

Definition real_state (st : idm_conn_state_t) : Prop := st <> CS_S0_UNDEFINED /\ st <> CS_MAX_STATE.

Lemma dispatch_J s : J g s -> real_state (g_st g) -> (b = true -> ready g c s) ->
  tri b (dispatch_state env c s) (stepped g c).
Proof.
  intros H (H0 & Hmax) Hr. unfold dispatch_state. rewrite (J_state _ _ H).
  destruct (g_st g) eqn:E; try done.
  - by apply s1_J.
  - by apply s2_J.
  - by apply s3_J.
  - by apply s4_J.
  - by apply s5_J.
  - by apply s6_J.
  - by apply s7_J.
  - by apply s8_J.
  - kept H.
  - by apply s10_J.
  - by apply s11_J.
  - by apply s12_J.
  - kept H.
  - by apply s9b_J.
Qed.
End states.
