(* ===== verification/IdmSafe.v ===== *)
(** * The invariant of reachable connections

    The handler of a queued event as a whole, the other operations on a
    connection, and the steps a connection takes. *)
From S2P Require Import Prelude IdmConn IdmConnSm IdmSpec IdmInv.
Local Open Scope Z_scope.

(** ** After a handler *)
Record after_event (g : cfg) (c : idm_conn_event_ctx_t) (l : list nat) (g' : cfg) : Prop := {
  ae_inv : inv_g g';
  ae_real : real_state (g_st g');
  ae_k : g_k g' = g_k g;
  ae_d : g_d g' = g_d g;
  ae_live : g_live g' = l;
  ae_trans : g_st g' = g_st g \/ conn_trans (g_st g) (iec_event c) (g_st g')
}.

Lemma stepped_J g c r : stepped g c r -> inv_g g -> real_state (g_st g) ->
  exists g', J g' (fst r) /\ after_event g c (live_after c (g_live g)) g'.
Proof.
  intros [H | (st & v & Ht & Hv & f & H & Hf)] Hg Hr.
  - eexists. split; [exact H |]. destruct Hg. split; try done; by left.
  - eexists. split; [exact H |]. pose proof (ig_k _ Hg). split; try done; [| by right].
    pose proof (trans_target _ _ _ Ht) as Hn. rewrite !not_elem_of_cons in Hn. split; simpl; naive_solver.
Qed.

(** ** Validation *)
Definition validated (c : idm_conn_event_ctx_t) (a : idm_pdu_event_action_t) : idm_conn_event_ctx_t :=
  match a with
  | CA_TX_PROTOCOL_ERROR => MkCtx CE_TX_PROTOCOL_ERROR (iec_info c) (iec_pdu_event_type c)
  | CA_RX_PROTOCOL_ERROR => MkCtx CE_RX_PROTOCOL_ERROR (iec_info c) (iec_pdu_event_type c)
  | _ => c
  end.

Lemma protocol_error_not_drop ty : protocol_error ty <> CA_DROP.
Proof. by destruct ty. Qed.

Lemma validate_not_drop c p s a : idm_conn_sm_validate_pdu c p s = Ok a -> a <> CA_DROP.
Proof.
  unfold idm_conn_sm_validate_pdu. intros H.
  apply bind_Ok_inv in H as (_ & _ & H). apply bind_Ok_inv in H as (u & _ & H).
  destruct (validate_direction _ _ _) as [a' |] eqn:E.
  - injection H as <-. unfold validate_direction in E.
    destruct (IDM_PDU_OPCODE u), (ic_conn_type (ic s)), (iec_pdu_event_type c); try discriminate E; by injection E as <-.
  - assert (Hp : forall st ty, validate_noop st ty <> CA_DROP /\ validate_scsi st ty <> CA_DROP /\
                  validate_logout st ty <> CA_DROP /\ validate_login st ty <> CA_DROP).
    { intros st ty. destruct st, ty; done. }
    destruct (Hp (ic_state (ic s)) (iec_pdu_event_type c)) as (? & ? & ? & ?).
    destruct (IDM_PDU_OPCODE u); try discriminate H; by injection H as <-.
Qed.

Lemma validate_J b g c p s :
  J g s -> is_pdu_event c = true -> (b = true -> good_pdu s p) ->
  tri b (idm_conn_sm_validate_pdu c p s) (fun a => idm_conn_sm_validate_pdu c p s = Ok a).
Proof.
  intros H Hc Hp. destruct (idm_conn_sm_validate_pdu c p s) as [a |] eqn:E; [done |]. simpl.
  assert (H1 : tri b (idm_conn_sm_validate_pdu c p s) (fun _ => True)); [| by rewrite E in H1].
  unfold idm_conn_sm_validate_pdu. apply tri_VERIFY.
  { intros _. unfold is_pdu_event in Hc. by destruct (iec_pdu_event_type c). }
  intros _. apply tri_get_pdu; [done |]. intros u Hu.
  destruct (validate_direction _ _ _) eqn:Ed; [done |]. by destruct (IDM_PDU_OPCODE u).
Qed.

(** ** Delivery of the PDU *)
Lemma deliver_J b g c p a f s :
  J g s -> inv_g g -> a <> CA_DROP -> (b = true -> good_pdu s p) ->
  tri b (deliver a c p f s) (J (set_l (without p (g_live g)) g)).
Proof.
  intros H Hg Ha Hp.
  assert (Hw : terminal (g_st g) = false -> g_wait g = REF_NOWAIT).
  { intros Ht. rewrite (ig_wait _ Hg). unfold wait_for. by rewrite Ht. }
  assert (H' : J (set_l (without p (g_live g)) g) s).
  { apply J_sub; [done |]. intros q Hq. by apply without_sub in Hq as [? _]. }
  destruct a; simpl; [by apply pdu_complete_J | by apply J_emit | | done].
  destruct f; [done |]. case_bool_decide; [by apply rx_forward_J | by apply J_emit].
Qed.

(** ** The whole handler *)
(** The connection between events: [h] references are held elsewhere. *)
Record Inv (h : Z) (s : sm) : Prop := {
  I_mutex : ic_state_mutex (ic s) = false;
  I_real : real_state (ic_state (ic s));
  I_ffp : ic_ffp (ic s) = true -> ic_state (ic s) = CS_S5_LOGGED_IN \/ ic_state (ic s) = CS_S7_LOGOUT_REQ;
  I_wait : ir_waiting (ic_refcnt (ic s)) = wait_for (ic_state (ic s));
  I_valid : logged_in (ic_state (ic s)) = true -> ic_login_info_valid (ic s) = true;
  I_ref : ir_refcnt (ic_refcnt (ic s)) = Z.of_nat (length (taskq s)) + h;
  I_pdu : ic_pdu_events (ic s) = pdu_count (taskq s);
  I_global : if terminal (ic_state (ic s)) && (ir_refcnt (ic_refcnt (ic s)) =? 0)
             then exists cb, ir_cb (ic_refcnt (ic s)) = Some cb /\ global_taskq s = [cb]
             else global_taskq s = [];
  I_cb : terminal (ic_state (ic s)) = true -> ir_cb (ic_refcnt (ic s)) <> None;
  I_h : 0 <= h
}.

Definition live_in (l : list nat) (s : sm) : Prop := Forall (good_pdu s) l.

Lemma rele_Inv b g s : J g s -> inv_g g -> real_state (g_st g) -> g_d g = 0 ->
  tri b (idm_conn_rele s) (fun s' => Inv (g_k g - 1) s' /\ ic_state (ic s') = g_st g /\ live_in (g_live g) s').
Proof.
  intros [] [] Hr Hd. unfold idm_conn_rele, idm_refcnt_rele. apply tri_VERIFY; [intros _; lia |]. intros _.
  rewrite J_wait, ig_wait. unfold wait_for. destruct (terminal (g_st g)) eqn:Et.
  - assert (Ew : REF_WAIT_ASYNC = wait_for (g_st g)) by (unfold wait_for; by rewrite Et).
    destruct (Z.eqb_spec (ir_refcnt (ic_refcnt (ic s)) - 1) 0) as [E0 | E0].
    + unfold dispatch_global. destruct (ir_cb (ic_refcnt (ic s))) as [cb |] eqn:Ec; [| exfalso; apply J_cb; congruence].
      simpl. split; [| done]. split; simpl; rewrite ?J_state, ?J_ffp, ?J_valid, ?Et, ?E0; try done; try lia.
      rewrite J_global. simpl. eauto.
    + simpl. split; [| done]. split; simpl; rewrite ?J_state, ?J_ffp, ?J_valid, ?Et; try done; try lia.
      * by rewrite (proj2 (Z.eqb_neq _ 0) E0).
      * intros _. apply J_cb. congruence.
  - assert (Ew : REF_NOWAIT = wait_for (g_st g)) by (unfold wait_for; by rewrite Et).
    simpl. split; [| done]. split; simpl; rewrite ?J_state, ?J_ffp, ?J_valid, ?Et; try done; lia.
Qed.

(** What the handler needs of the event not to panic. *)
Definition head_ready (l : list nat) (g : cfg) (c : idm_conn_event_ctx_t) (s : sm) : Prop :=
  iec_event c <> CE_UNDEFINED /\ iec_event c <> CE_MAX_EVENT /\
  if is_pdu_event c then
    exists p, iec_info c = InfoPdu p /\ p ∈ l /\
      forall a, idm_conn_sm_validate_pdu c p s = Ok a ->
        ready g (validated c a) s /\ p ∈ live_after (validated c a) l
  else ready g c s.

(** The PDUs alive after it. *)
Definition live_done (c : idm_conn_event_ctx_t) (l : list nat) : list nat :=
  match iec_info c with InfoPdu p => without p l | _ => l end.

Lemma live_done_sub c l q : q ∈ live_done c l -> q ∈ live_after c l.
Proof.
  unfold live_done, live_after. destruct (iec_info c); try (by destruct (iec_event c)).
  destruct (iec_event c); try done; intros H; by apply without_sub in H as [? _].
Qed.

Lemma without_in p l q : q ∈ without p l <-> q ∈ l /\ q <> p.
Proof. unfold without. rewrite !list_elem_of_In, filter_In, negb_true_iff, Nat.eqb_neq. done. Qed.

Lemma without_after p c l q : iec_info c = InfoPdu p -> q ∈ without p l -> q ∈ without p (live_after c l).
Proof.
  intros Hp. unfold live_after. rewrite Hp. destruct (iec_event c); try done; rewrite !without_in; tauto.
Qed.

Definition handler_post (g : cfg) (c : idm_conn_event_ctx_t) (s' : sm) : Prop :=
  Inv (g_k g - 1) s' /\ live_in (live_done c (g_live g)) s' /\
  (ic_state (ic s') = g_st g \/
   exists e, (e = iec_event c \/ iec_pdu_event_type c <> CT_NONE /\ (e = CE_TX_PROTOCOL_ERROR \/ e = CE_RX_PROTOCOL_ERROR)) /\
     conn_trans (g_st g) e (ic_state (ic s'))).

Lemma live_in_sub l l' s : live_in l s -> (forall p, p ∈ l' -> p ∈ l) -> live_in l' s.
Proof. unfold live_in. rewrite !Forall_forall. auto. Qed.

Lemma plain_event_J b env g c s :
  J g s -> inv_g g -> real_state (g_st g) -> g_d g = 0 -> (b = true -> ready g c s) ->
  tri b (s ← ('(s, _) ← dispatch_state env c s ; Ok s) ; idm_conn_rele s) (handler_post g c).
Proof.
  intros H Hg Hr Hd Hs. rewrite bind_assoc. eapply tri_bind; [by apply (dispatch_J b env c g Hg) |].
  intros (s1, f) Hst. destruct (stepped_J _ _ _ Hst Hg Hr) as (g' & H' & [Ai Ar Ak Ad Al At]). simpl in H' |- *.
  eapply tri_impl; [apply (rele_Inv b g'); try done; congruence |].
  intros s2 (HI & Es & Hl). split; [by rewrite <- Ak | split].
  - eapply live_in_sub; [exact Hl |]. rewrite Al. intros p. apply live_done_sub.
  - rewrite Es. destruct At as [-> | Ht]; [by left | right; eauto].
Qed.

Lemma pdu_event_J b env g c p s :
  J g s -> inv_g g -> real_state (g_st g) -> g_d g = 1 -> is_pdu_event c = true -> iec_info c = InfoPdu p ->
  (b = true -> p ∈ g_live g /\ forall a, idm_conn_sm_validate_pdu c p s = Ok a ->
     ready g (validated c a) s /\ p ∈ live_after (validated c a) (g_live g)) ->
  tri b (s ← (action ← idm_conn_sm_validate_pdu c p s ;
              '(c', s) ← event_of_action action c p s ;
              '(s, forwarded) ← dispatch_state env c' s ;
              s ← deliver action c' p forwarded s ;
              s ← mutex_enter s ;
              mutex_exit (upd_ic (fun k => with_pdu_events (ic_pdu_events k - 1) k) s)) ;
         idm_conn_rele s) (handler_post g c).
Proof.
  intros H Hg Hr Hd Hpe Hp Hs. rewrite bind_assoc.
  eapply tri_bind; [apply (validate_J b g); [done | done |] |].
  { intros Hb. eapply J_good; [done | by apply Hs]. }
  intros a Ea. pose proof (validate_not_drop _ _ _ _ Ea) as Hnd.
  assert (Ev : event_of_action a c p s = Ok (validated c a, s)) by (by destruct a).
  rewrite Ev, bind_Ok, bind_assoc. eapply tri_bind; [apply (dispatch_J b env (validated c a) g Hg); try done |].
  { intros Hb. by apply Hs. }
  intros (s1, f) Hst. destruct (stepped_J _ _ _ Hst Hg Hr) as (g' & H' & [Ai Ar Ak Ad Al At]). simpl in H'. rewrite bind_assoc.
  eapply tri_bind; [apply (deliver_J b g'); try done |].
  { intros Hb. eapply J_good; [exact H' |]. rewrite Al. by apply (Hs Hb). }
  intros s2 H2. set (g2 := set_l _ g') in H2.
  eapply (tri_bind _ _ _ (J (MkCfg (g_st g2) (g_ffp g2) (g_wait g2) (g_valid g2) (g_k g2) 0 (g_live g2)))).
  { locked_J (MkCfg (g_st g2) (g_ffp g2) (g_wait g2) (g_valid g2) (g_k g2) 0 (g_live g2)). }
  intros s3 H3. destruct Ai. eapply tri_impl; [eapply (rele_Inv b); [exact H3 | by split | done | done] |].
  intros s4 (HI & Es & Hl). simpl in HI, Es, Hl. split; [by rewrite <- Ak | split].
  - eapply live_in_sub; [exact Hl |]. rewrite Al. unfold live_done. rewrite Hp. intros q Hq.
    apply without_after; [by destruct a | done].
  - rewrite Es. destruct At as [-> | Ht]; [by left | right].
    eexists. split; [| exact Ht].
    assert (Hty : iec_pdu_event_type c <> CT_NONE) by (intros En; unfold is_pdu_event in Hpe; by rewrite En in Hpe).
    destruct a; simpl; auto.
Qed.

(** ** The operations outside the handler *)
Lemma Inv_frame h s s' :
  Inv h s -> same_conn (ic s) (ic s') -> taskq s' = taskq s -> global_taskq s' = global_taskq s -> Inv h s'.
Proof.
  intros [] (E1 & E2 & E3 & E4 & E5 & E6) Eq Eg.
  split; rewrite ?E1, ?E2, ?E3, ?E4, ?E5, ?E6, ?Eq, ?Eg; done.
Qed.

(** A new event in the queue. *)
Lemma queue_Inv h s e i ty :
  Inv h s -> terminal (ic_state (ic s)) = false ->
  Inv h (MkSm (with_pdu_events (ic_pdu_events (ic s) + pdu_count [MkCtx e i ty])
                (with_refcnt (MkRef (ir_refcnt (ic_refcnt (ic s)) + 1) (ir_waiting (ic_refcnt (ic s))) (ir_cb (ic_refcnt (ic s)))) (ic s)))
           (taskq s ++ [MkCtx e i ty]) (global_taskq s) (pdus s) (timers s) (next_timer s) (trace s)).
Proof.
  intros H Ht. destruct H as [H1 H2 H3 H4 H5 H6 H7 H8 H9 H10]. split; simpl; rewrite ?Ht in *; try done.
  - rewrite length_app. simpl. lia.
  - rewrite pdu_count_app. lia.
Qed.

Lemma conn_event_Inv h s e i : Inv h s -> runs (idm_conn_event e i s) (Inv h).
Proof.
  intros H. unfold idm_conn_event, mutex_enter. rewrite (I_mutex _ _ H). simpl.
  destruct (terminal (ic_state (ic s))) eqn:Et; simpl.
  - eapply Inv_frame; [exact H | | done | done]. unfold same_conn. simpl. by rewrite (I_mutex _ _ H).
  - unfold queue_event, idm_conn_hold, idm_refcnt_hold. rewrite bool_decide_true; simpl.
    + pose proof (queue_Inv h s e i CT_NONE H Et) as HI. eapply Inv_frame; [exact HI | | done | done].
      unfold same_conn. simpl. rewrite (I_mutex _ _ H). unfold pdu_count. simpl. repeat split; lia.
    + simpl. rewrite (I_wait _ _ H). unfold wait_for. by rewrite Et.
Qed.

(** Completing a PDU. *)
Lemma complete_Inv b h s p st : Inv h s -> (b = true -> good_pdu s p) -> tri b (idm_pdu_complete p st s) (Inv h).
Proof.
  intros H Hp. unfold idm_pdu_complete. apply tri_get_pdu; [done |]. intros u Hu.
  assert (Hs : forall o, Inv h (set_pdu p o s)) by (intros o; eapply Inv_frame; [exact H | ..]; done).
  assert (He : forall e i s', Inv h s' -> tri b (idm_conn_event e i s') (Inv h)).
  { intros e i s' H'. pose proof (conn_event_Inv h s' e i H'). by destruct (idm_conn_event e i s'). }
  destruct (isp_callback u) as [cb |] eqn:Ecb.
  - destruct cb; simpl; try (by apply He). eapply (Inv_frame h s); done.
  - apply tri_VERIFY; [| intros _; eapply (Inv_frame h s); done].
    intros Hb. destruct (Hp Hb) as (u' & Hu' & [Hc | Ha]); congruence.
Qed.

(** A PDU event, with the lock held: a PDU the client owns is completed by its
    own callback. *)
Definition client_pdu (s : sm) (p : nat) : Prop :=
  exists u, pdus s !! p = Some (Some u) /\ ((exists n, isp_callback u = Some (client_cb n)) \/
    isp_callback u = None /\ isp_alloc u = true).

Lemma locked_complete b h s p st :
  Inv h s -> (b = true -> client_pdu s p) ->
  tri b (s ← idm_pdu_complete p st (upd_ic (with_mutex true) s) ; mutex_exit s) (Inv h).
Proof.
  intros H Hp. unfold idm_pdu_complete. rewrite bind_assoc. apply tri_get_pdu.
  { intros Hb. destruct (Hp Hb) as (u & Hu & Hc). exists u. split; [done |]. destruct Hc as [(n & ->) | (-> & ?)]; auto. }
  intros u Hu. simpl in Hu.
  assert (Hm : forall s', same_conn (upd_ic (with_mutex true) s).(ic) (ic s') -> taskq s' = taskq s ->
    global_taskq s' = global_taskq s -> Inv h (upd_ic (with_mutex false) s')).
  { intros s' (E1 & E2 & E3 & E4 & E5 & E6) Eq Eg. eapply Inv_frame; [exact H | | done | done].
    simpl in *. unfold same_conn. simpl. by rewrite (I_mutex _ _ H). }
  destruct (isp_callback u) as [cb |] eqn:Ecb.
  - destruct cb; simpl; [by apply Hm | ..]; (destruct b; [exfalso | done]; destruct (Hp eq_refl) as (u' & Hu' & Hc);
      rewrite Hu in Hu'; injection Hu' as <-; rewrite Ecb in Hc; destruct Hc as [(n & Hc) | (Hc & _)]; discriminate).
  - rewrite bind_assoc. apply tri_VERIFY; [| intros _; simpl; by apply Hm].
    intros Hb. destruct (Hp Hb) as (u' & Hu' & Hc). rewrite Hu in Hu'. injection Hu' as <-. rewrite Ecb in Hc.
    by destruct Hc as [(n & Hc) | (_ & Hc)].
Qed.

Lemma event_locked_Inv b h s e p ty :
  Inv h s -> ty <> CT_NONE -> (b = true -> client_pdu s p) ->
  tri b (s ← idm_conn_event_locked e (InfoPdu p) ty
              (upd_ic (fun k => with_pdu_events (ic_pdu_events k + 1) k) (upd_ic (with_mutex true) s)) ; mutex_exit s) (Inv h).
Proof.
  intros H Hty Hp. unfold idm_conn_event_locked. rewrite bind_assoc. apply tri_VERIFY; [done |]. intros _. simpl.
  destruct (terminal (ic_state (ic s))) eqn:Et.
  - pose proof (locked_complete b h s p IDM_STATUS_SUCCESS H Hp) as Hc. destruct ty; [done | ..]; simpl;
      unfold upd_ic in *; simpl; (replace (_ + 1 - 1) with (ic_pdu_events (ic s)) by lia); exact Hc.
  - unfold queue_event, idm_conn_hold, idm_refcnt_hold. simpl. rewrite bool_decide_true; simpl.
    + pose proof (queue_Inv h s e (InfoPdu p) ty H Et) as HI. eapply Inv_frame; [exact HI | | done | done].
      unfold same_conn. simpl. rewrite (I_mutex _ _ H). unfold pdu_count. simpl. unfold is_pdu_event. simpl.
      rewrite bool_decide_false by done. simpl. done.
    + rewrite (I_wait _ _ H). unfold wait_for. by rewrite Et.
Qed.

Lemma pdu_event_Inv b h s rx e p :
  Inv h s -> (b = true -> client_pdu s p) ->
  tri b (s ← pdu_event rx e p (upd_ic (with_mutex true) s) ; mutex_exit s) (Inv h).
Proof.
  intros H Hp. destruct rx; unfold pdu_event, idm_conn_rx_pdu_event, idm_conn_tx_pdu_event; rewrite bind_assoc;
    (apply tri_VERIFY; [done |]; intros _; by apply event_locked_Inv).
Qed.

Lemma tri_read {B} b s p (k : idm_pdu_t -> result B) Q :
  (b = true -> client_pdu s p) -> (forall u, pdus s !! p = Some (Some u) -> tri b (k u) Q) ->
  tri b (u ← get_pdu s p ; k u) Q.
Proof.
  intros Hs Hk. apply tri_get_pdu; [| done]. intros Hb. destruct (Hs Hb) as (u & Hu & Hc).
  exists u. split; [done |]. destruct Hc as [(n & ->) | (-> & ?)]; auto.
Qed.

Lemma parse_Inv b h s rx p (f : idm_pdu_t -> idm_conn_event_t) :
  Inv h s -> (b = true -> client_pdu s p) ->
  tri b (s ← (u ← get_pdu (upd_ic (with_mutex true) s) p ; pdu_event rx (f u) p (upd_ic (with_mutex true) s)) ; mutex_exit s) (Inv h).
Proof. intros H Hp. rewrite bind_assoc. apply tri_read; [done |]. intros u _. by apply pdu_event_Inv. Qed.

Lemma unlock_Inv h s : Inv h s -> Inv h (upd_ic (with_mutex false) (upd_ic (with_mutex true) s)).
Proof. intros H. eapply Inv_frame; [exact H | | done | done]. unfold same_conn. simpl. by rewrite (I_mutex _ _ H). Qed.

Lemma pdu_rx_Inv b h s p : Inv h s -> (b = true -> client_pdu s p) -> tri b (idm_pdu_rx p s) (Inv h).
Proof.
  intros H Hp. unfold idm_pdu_rx, mutex_enter. rewrite (I_mutex _ _ H). simpl.
  match goal with |- tri b (_ ≫= ?k) _ => set (slow := k) end.
  assert (Hslow : tri b (slow (false, upd_ic (with_mutex true) s)) (Inv h)).
  { unfold slow. apply tri_read; [done |]. intros u Hu.
    destruct (IDM_PDU_OPCODE u); try (by apply (pdu_event_Inv b h s true)); try (by apply unlock_Inv);
      by apply (parse_Inv b h s true). }
  destruct (ic_ffp (ic s) && (ic_pdu_events (ic s) =? 0)); [| exact Hslow]. simpl.
  unfold idm_pdu_rx_forward_ffp. rewrite !bind_assoc. apply tri_read; [done |]. intros u Hu.
  destruct (ffp_pdu (IDM_PDU_OPCODE u)); simpl.
  - eapply Inv_frame; [exact (unlock_Inv _ _ H) | ..]; done.
  - exact Hslow.
Qed.

Lemma pdu_tx_Inv b h s p : Inv h s -> (b = true -> client_pdu s p) -> tri b (idm_pdu_tx p s) (Inv h).
Proof.
  intros H Hp. unfold idm_pdu_tx, mutex_enter. rewrite (I_mutex _ _ H). simpl. apply tri_read; [done |]. intros u Hu.
  match goal with |- tri b (_ ≫= ?k) _ => set (slow := k) end.
  assert (Hslow : tri b (slow (false, upd_ic (with_mutex true) s)) (Inv h)).
  { unfold slow. destruct (IDM_PDU_OPCODE u); try (by apply (pdu_event_Inv b h s false)); by apply (parse_Inv b h s false). }
  destruct (ic_ffp (ic s) && (ic_pdu_events (ic s) =? 0)); [| exact Hslow]. simpl.
  destruct (ffp_tx_pdu (IDM_PDU_OPCODE u)); simpl; [| exact Hslow].
  eapply Inv_frame; [exact (unlock_Inv _ _ H) | ..]; done.
Qed.

(** ** References held elsewhere *)
Lemma hold_Inv b h s : Inv h s -> (b = true -> terminal (ic_state (ic s)) = false) -> tri b (idm_conn_hold s) (Inv (h + 1)).
Proof.
  intros H Ht. unfold idm_conn_hold, idm_refcnt_hold. apply tri_VERIFY.
  - intros Hb. apply bool_decide_true. rewrite (I_wait _ _ H). unfold wait_for. by rewrite Ht.
  - intros Hw. apply bool_decide_eq_true in Hw. destruct H as [H1 H2 H3 H4 H5 H6 H7 H8 H9 H10].
    assert (Et : terminal (ic_state (ic s)) = false).
    { rewrite H4 in Hw. unfold wait_for in Hw. by destruct (terminal _). }
    split; simpl; rewrite ?Et in *; try done; lia.
Qed.

Lemma ext_rele_Inv b h s : Inv h s -> 0 < h -> tri b (idm_conn_rele s) (Inv (h - 1)).
Proof.
  intros H Hh. destruct (I_ref _ _ H).
  set (g := MkCfg (ic_state (ic s)) (ic_ffp (ic s)) (ir_waiting (ic_refcnt (ic s))) (ic_login_info_valid (ic s)) h 0 []).
  assert (HJ : J g s).
  { destruct H as [H1 H2 H3 H4 H5 H6 H7 H8 H9 H10]. split; simpl; try done; try lia.
    - intros Hw. rewrite H4 in Hw. unfold wait_for in Hw. apply H9. by destruct (terminal _).
    - rewrite (proj2 (Z.eqb_neq _ 0)), andb_false_r in H8 by lia. done. }
  eapply tri_impl; [apply (rele_Inv b g s HJ) |].
  - destruct H as [H1 H2 H3 H4 H5 H6 H7 H8 H9 H10]. split; simpl; try done; by rewrite H4.
  - exact (I_real _ _ H).
  - done.
  - intros s' (HI & _). exact HI.
Qed.

(** ** The next event of the queue *)
Definition pop (q : list idm_conn_event_ctx_t) (s : sm) : sm :=
  MkSm (ic s) q (global_taskq s) (pdus s) (timers s) (next_timer s) (trace s).
Definition head_cfg (h : Z) (l : list nat) (c : idm_conn_event_ctx_t) (s : sm) : cfg :=
  MkCfg (ic_state (ic s)) (ic_ffp (ic s)) (ir_waiting (ic_refcnt (ic s))) (ic_login_info_valid (ic s)) (h + 1)
    (if is_pdu_event c then 1 else 0) l.

Lemma head_J h l c q s : Inv h s -> live_in l s -> taskq s = c :: q ->
  J (head_cfg h l c s) (pop q s) /\ inv_g (head_cfg h l c s).
Proof.
  intros H Hl Hq. destruct H as [H1 H2 H3 H4 H5 H6 H7 H8 H9 H10]. rewrite Hq in *. split; split; simpl; try done; try lia.
  - intros Hw. rewrite H4 in Hw. unfold wait_for in Hw. apply H9. by destruct (terminal _).
  - rewrite H6. simpl. lia.
  - rewrite H7. unfold pdu_count. simpl. destruct (is_pdu_event c); simpl; lia.
  - simpl in H6. rewrite (proj2 (Z.eqb_neq _ 0)), andb_false_r in H8 by lia. done.
Qed.

Lemma run_taskq_J b env h l c q s :
  Inv h s -> live_in l s -> taskq s = c :: q -> (b = true -> head_ready l (head_cfg h l c s) c (pop q s)) ->
  tri b (run_taskq env s) (handler_post (head_cfg h l c s) c).
Proof.
  intros H Hl Hq Hs. destruct (head_J h l c q s H Hl Hq) as (HJ & Hg). unfold run_taskq. rewrite Hq. fold (pop q s).
  set (g := head_cfg h l c s) in *. pose proof (I_real _ _ H) as (R0 & Rm).
  unfold idm_conn_event_handler.
  apply tri_VERIFY; [intros Hb; destruct (Hs Hb) as (Hu & _); by rewrite bool_decide_false |]. intros _.
  apply tri_VERIFY; [intros Hb; destruct (Hs Hb) as (_ & Hm & _); by rewrite bool_decide_false |]. intros _.
  apply tri_VERIFY; [intros _; by rewrite bool_decide_false |]. intros _.
  apply tri_VERIFY; [intros _; simpl; by destruct (ic_state (ic s)) |]. intros _.
  assert (Hr : real_state (g_st g)) by done.
  destruct (is_pdu_event c) eqn:Ep.
  - assert (Hp : tri b (s ← (p ← info_pdu (iec_info c) ;
              action ← idm_conn_sm_validate_pdu c p (pop q s) ;
              '(c', s) ← event_of_action action c p (pop q s) ;
              '(s, forwarded) ← dispatch_state env c' s ;
              s ← deliver action c' p forwarded s ;
              s ← mutex_enter s ;
              mutex_exit (upd_ic (fun k => with_pdu_events (ic_pdu_events k - 1) k) s)) ;
         idm_conn_rele s) (handler_post g c)).
    { rewrite bind_assoc. unfold head_ready in Hs. rewrite Ep in Hs. apply tri_info.
      - intros Hb. destruct (Hs Hb) as (_ & _ & p & -> & _). eauto.
      - intros p Hp. apply pdu_event_J; try done; [unfold g, head_cfg; by rewrite Ep |].
        intros Hb. destruct (Hs Hb) as (_ & _ & p' & Hp' & Hin & Ha). rewrite Hp in Hp'. by injection Hp' as <-. }
    unfold is_pdu_event in Ep. by destruct (iec_pdu_event_type c).
  - assert (Hc : iec_pdu_event_type c = CT_NONE) by (unfold is_pdu_event in Ep; by destruct (iec_pdu_event_type c)).
    rewrite Hc. apply plain_event_J; try done; [unfold g, head_cfg; by rewrite Ep |].
    intros Hb. destruct (Hs Hb) as (_ & _ & Hr'). by rewrite Ep in Hr'.
Qed.
