(* ===== verification/IdmThms.v ===== *)
(** * Theorems on iSCSI connections *)
From S2P Require Import Prelude IdmConn IdmConnSm IdmSpec IdmInv IdmSafe.
Local Open Scope Z_scope.

(** ** The steps of a connection *)
(** The thread of the queue runs a handler, the client or the transport posts
    an event, a PDU is allocated, received, sent or completed, a timer
    expires, a worker calls the function of a timer, a reference is taken or dropped by other code. The number counts
    the references other code holds. *)
Inductive idm_step : sm * Z -> sm * Z -> Prop :=
  | step_task env s s' h : run_taskq env s = Ok s' -> idm_step (s, h) (s', h)
  | step_event e s s' h : idm_conn_event e NoInfo s = Ok s' -> idm_step (s, h) (s', h)
  | step_alloc u s h :
      idm_step (s, h) (MkSm (ic s) (taskq s) (global_taskq s) (pdus s ++ [Some u]) (timers s) (next_timer s) (trace s), h)
  | step_rx p s s' h : idm_pdu_rx p s = Ok s' -> idm_step (s, h) (s', h)
  | step_tx p s s' h : idm_pdu_tx p s = Ok s' -> idm_step (s, h) (s', h)
  | step_complete p st s s' h : idm_pdu_complete p st s = Ok s' -> idm_step (s, h) (s', h)
  | step_expire id s h : idm_step (s, h) (timeout_call_fn id s, h)
  | step_timer t s s' h : t ∈ timers s -> ti_expired t = true -> callout_worker_fn t s = Ok s' -> idm_step (s, h) (s', h)
  | step_hold s s' h : idm_conn_hold s = Ok s' -> idm_step (s, h) (s', h + 1)
  | step_rele s s' h : 0 < h -> idm_conn_rele s = Ok s' -> idm_step (s, h) (s', h - 1).

Definition reachable (ty : idm_conn_type_t) (rdma : bool) (s : sm) (h : Z) : Prop :=
  rtc idm_step (idm_conn_sm_init ty rdma [], 0) (s, h).

Lemma tri_Ok {A} (m : result A) a P : tri false m P -> m = Ok a -> P a.
Proof. by intros H ->. Qed.

Lemma init_Inv ty rdma us : Inv 0 (idm_conn_sm_init ty rdma us).
Proof. by split. Qed.

Lemma run_taskq_Inv env h s s' : Inv h s -> run_taskq env s = Ok s' -> Inv h s'.
Proof.
  intros H E. destruct (taskq s) as [| c q] eqn:Hq; [unfold run_taskq in E; rewrite Hq in E; by injection E as <- |].
  assert (Hp : tri false (run_taskq env s) (handler_post (head_cfg h [] c s) c)).
  { apply (run_taskq_J false env h [] c q); try done. constructor. }
  destruct (tri_Ok _ _ _ Hp E) as (HI & _). simpl in HI. by replace (h + 1 - 1) with h in HI by lia.
Qed.

Lemma step_Inv x y : idm_step x y -> Inv (snd x) (fst x) -> Inv (snd y) (fst y).
Proof.
  intros [env s s' h E | e s s' h E | u s h | p s s' h E | p s s' h E | p st s s' h E | id s h | t s s' h Hin Hx E
         | s s' h E | s s' h Hh E] H; simpl in *.
  - by eapply run_taskq_Inv.
  - pose proof (conn_event_Inv h s e NoInfo H) as Hr. by rewrite E in Hr.
  - eapply Inv_frame; [exact H | ..]; done.
  - eapply tri_Ok; [by apply pdu_rx_Inv | exact E].
  - eapply tri_Ok; [by apply pdu_tx_Inv | exact E].
  - eapply tri_Ok; [by apply complete_Inv | exact E].
  - eapply Inv_frame; [exact H | ..]; done.
  - assert (H' : Inv h (without_timer t s)) by (eapply Inv_frame; [exact H | ..]; done).
    pose proof (conn_event_Inv h _ (timer_event (ti_func t)) NoInfo H') as Hr. unfold callout_worker_fn in E.
    by rewrite E in Hr.
  - eapply tri_Ok; [by apply hold_Inv | exact E].
  - eapply tri_Ok; [by apply ext_rele_Inv | exact E].
Qed.

Lemma reachable_Inv ty rdma s h : reachable ty rdma s h -> Inv h s.
Proof.
  unfold reachable. intros Hr. remember (idm_conn_sm_init ty rdma [], 0) as x eqn:Ex. remember (s, h) as y eqn:Ey.
  assert (Hi : Inv (snd x) (fst x)) by (subst x; apply init_Inv). clear Ex.
  assert (Hy : Inv (snd y) (fst y)); [| by subst y].
  clear Ey. induction Hr as [x | x y z Hs Hr IH]; [done |]. apply IH. by eapply step_Inv.
Qed.

(** ** The invariant *)
(** C14: in every reachable state of a connection full-feature phase implies
    that the machine is logged in or has been asked to log out and that a
    login has succeeded; the reference count is the number of queued events
    plus the references held elsewhere; [ic_pdu_events] is the number of
    queued PDU events; and the destruction of the connection is dispatched
    only in a terminal state, at most once, with no event queued and no
    reference held. *)
Theorem idm_reachable_safe ty rdma s h : reachable ty rdma s h ->
  (ic_ffp (ic s) = true ->
     (ic_state (ic s) = CS_S5_LOGGED_IN \/ ic_state (ic s) = CS_S7_LOGOUT_REQ) /\ ic_login_info_valid (ic s) = true) /\
  ir_refcnt (ic_refcnt (ic s)) = Z.of_nat (length (taskq s)) + h /\
  ic_pdu_events (ic s) = Z.of_nat (length (List.filter is_pdu_event (taskq s))) /\
  (global_taskq s <> [] ->
     terminal (ic_state (ic s)) = true /\ taskq s = [] /\ h = 0 /\ length (global_taskq s) = 1%nat).
Proof.
  intros Hr. destruct (reachable_Inv _ _ _ _ Hr) as [I1 I2 I3 I4 I5 I6 I7 I8 I9 I10].
  split; [| split; [done | split; [done |]]].
  - intros Hf. split; [by apply I3 |]. apply I5. by destruct (I3 Hf) as [-> | ->].
  - intros Hg. destruct (terminal _ && _) eqn:Et; [| done]. apply andb_prop in Et as (Et & E0). apply Z.eqb_eq in E0.
    destruct I8 as (cb & _ & ->). split; [done |]. split; [apply nil_length_inv; lia |]. split; [lia | done].
Qed.

(** ** Runs of a connection, for examples *)
Inductive idm_act : Type :=
  | ATask | AEvent (e : idm_conn_event_t) | AAlloc (u : idm_pdu_t) | ARx (p : nat) | ATx (p : nat)
  | AComplete (p : nat) | AExpire (id : nat) | ATimer (t : timeout_id).

Definition do_act (env : idm_env) (a : idm_act) (s : sm) : result sm :=
  match a with
  | ATask => run_taskq env s
  | AEvent e => idm_conn_event e NoInfo s
  | AAlloc u => Ok (MkSm (ic s) (taskq s) (global_taskq s) (pdus s ++ [Some u]) (timers s) (next_timer s) (trace s))
  | ARx p => idm_pdu_rx p s
  | ATx p => idm_pdu_tx p s
  | AComplete p => idm_pdu_complete p IDM_STATUS_SUCCESS s
  | AExpire id => Ok (timeout_call_fn id s)
  | ATimer t => VERIFY (bool_decide (t ∈ timers s) && ti_expired t) ;; callout_worker_fn t s
  end.

Fixpoint do_acts (env : idm_env) (l : list idm_act) (s : sm) : result sm :=
  match l with [] => Ok s | a :: l => s ← do_act env a s ; do_acts env l s end.

Lemma do_act_step env a s s' : do_act env a s = Ok s' -> idm_step (s, 0) (s', 0).
Proof.
  destruct a; simpl; intros E.
  - by eapply step_task.
  - by eapply step_event.
  - injection E as <-. apply step_alloc.
  - by eapply step_rx.
  - by eapply step_tx.
  - by eapply step_complete.
  - injection E as <-. apply step_expire.
  - apply bind_Ok_inv in E as ([] & Hv & E). apply VERIFY_Ok_inv, andb_prop in Hv as (Hi & Ht).
    eapply step_timer; [by apply bool_decide_eq_true in Hi | exact Ht | exact E].
Qed.

Lemma do_acts_reachable env ty rdma l s :
  do_acts env l (idm_conn_sm_init ty rdma []) = Ok s -> reachable ty rdma s 0.
Proof.
  unfold reachable. generalize (idm_conn_sm_init ty rdma []). induction l as [| a l IH]; simpl; intros s0 E.
  - injection E as <-. apply rtc_refl.
  - apply bind_Ok_inv in E as (s1 & E1 & E). eapply rtc_l; [by eapply do_act_step | by apply IH].
Qed.

(** A client and a transport that agree to everything. *)
Definition agreeable : idm_env :=
  MkEnv true (fun _ _ => IDM_STATUS_SUCCESS) IDM_STATUS_SUCCESS IDM_STATUS_SUCCESS IDM_STATUS_SUCCESS IDM_STATUS_SUCCESS.
Definition simple_pdu (op flags : Z) : idm_pdu_t :=
  MkPdu op flags 0 0 1 7 (Some (client_cb 0)) IDM_STATUS_SUCCESS false.

(** A target connection up to full-feature phase: the connection is accepted,
    a login request arrives and the response that ends the login is sent. *)
Definition target_login : list idm_act :=
  [AEvent CE_CONNECT_ACCEPT; ATask;
   AAlloc (simple_pdu 0x03 0); ARx 0; ATask;
   AAlloc (simple_pdu 0x23 0x83); ATx 1; ATask].

Lemma idm_reachable_safe_witness :
  exists s, reachable CONN_TYPE_TGT false s 0 /\ ic_ffp (ic s) = true /\ ic_login_info_valid (ic s) = true /\
    ir_refcnt (ic_refcnt (ic s)) = 0.
Proof.
  destruct (do_acts agreeable target_login (idm_conn_sm_init CONN_TYPE_TGT false [])) as [s |] eqn:E; [| vm_compute in E; discriminate].
  exists s. assert (Hr : reachable CONN_TYPE_TGT false s 0) by (exact (do_acts_reachable agreeable _ _ _ s E)).
  split; [exact Hr |]. destruct (idm_reachable_safe CONN_TYPE_TGT false s 0 Hr) as (Hf & Hr' & _).
  assert (Hffp : ic_ffp (ic s) = true) by (vm_compute in E; injection E as <-; reflexivity).
  assert (Hq : taskq s = []) by (vm_compute in E; injection E as <-; reflexivity).
  split; [exact Hffp |]. split; [apply Hf; exact Hffp |]. rewrite Hr', Hq. reflexivity.
Defined.




(** ** Assertions *)
Lemma tri_true {A} (m : result A) P : tri true m P -> exists a, m = Ok a /\ P a.
Proof. destruct m as [a |]; simpl; [eauto | done]. Qed.

(** In a reachable state no assertion of the code fails on an event its
    state has a case for. The next queued event is handled without a panic
    when it is such an event after validation, when its PDU is alive, and when
    the client keeps to one delayed response at a time ([head_ready]). Posting
    an event never fails, and receiving or sending a PDU of the client never
    does. *)
Theorem idm_no_panic ty rdma s h env l c q :
  reachable ty rdma s h -> live_in l s -> taskq s = c :: q -> head_ready l (head_cfg h l c s) c (pop q s) ->
  (exists s', run_taskq env s = Ok s') /\
  (forall e, exists s', idm_conn_event e NoInfo s = Ok s') /\
  (forall p, client_pdu s p -> (exists s', idm_pdu_rx p s = Ok s') /\ (exists s', idm_pdu_tx p s = Ok s')).
Proof.
  intros Hr Hl Hq Hh. pose proof (reachable_Inv _ _ _ _ Hr) as H. split; [| split].
  - destruct (tri_true _ _ (run_taskq_J true env h l c q s H Hl Hq (fun _ => Hh))) as (s' & E & _). eauto.
  - intros e. pose proof (conn_event_Inv h s e NoInfo H) as Hc. destruct (idm_conn_event e NoInfo s); [eauto | done].
  - intros p Hp.
    destruct (tri_true _ _ (pdu_rx_Inv true h s p H (fun _ => Hp))) as (s1 & E1 & _).
    destruct (tri_true _ _ (pdu_tx_Inv true h s p H (fun _ => Hp))) as (s2 & E2 & _). eauto.
Qed.

(** A target in full-feature phase whose peer asks to be logged out. *)
Lemma idm_no_panic_witness :
  exists s, (exists s', run_taskq agreeable s = Ok s') /\ ic_state (ic s) = CS_S5_LOGGED_IN.
Proof.
  destruct (do_acts agreeable (target_login ++ [AAlloc (simple_pdu 0x06 0x81); ARx 2]) (idm_conn_sm_init CONN_TYPE_TGT false []))
    as [s |] eqn:E; [| vm_compute in E; discriminate].
  exists s. assert (Hr : reachable CONN_TYPE_TGT false s 0) by (exact (do_acts_reachable agreeable _ _ _ s E)).
  assert (Hl : live_in [2%nat] s).
  { vm_compute in E. injection E as <-. repeat constructor. eexists. split; [reflexivity | by left]. }
  assert (Hq : taskq s = [MkCtx CE_LOGOUT_THIS_CONN_RCV (InfoPdu 2) CT_RX_PDU]) by (vm_compute in E; by injection E as <-).
  assert (Hst : ic_state (ic s) = CS_S5_LOGGED_IN) by (vm_compute in E; by injection E as <-).
  split; [| exact Hst].
  refine (proj1 (idm_no_panic CONN_TYPE_TGT false s 0 agreeable [2%nat] _ [] Hr Hl Hq _)).
  split; [done |]. split; [done |]. exists 2%nat. split; [done |]. split; [by left |]. intros a Ha.
  assert (Hf : a = CA_FORWARD).
  { vm_compute in E. injection E as <-. vm_compute in Ha. by injection Ha as <-. }
  subst a. split; [| by left]. split; simpl; rewrite Hst; done.
Defined.

















(** ** Validation of PDUs and a race *)
(** C36: the validation of a PDU never asks for it to be dropped: in the cleanup
    states, where the code sets [CA_DROP], control falls through to the login
    case and the PDU becomes a protocol error. *)
Theorem idm_validate_never_drops c p s a :
  idm_conn_sm_validate_pdu c p s = Ok a ->
  a <> CA_DROP /\
  (ic_state (ic s) = CS_S8_CLEANUP \/ ic_state (ic s) = CS_S10_IN_CLEANUP ->
   a = CA_TX_PROTOCOL_ERROR \/ a = CA_RX_PROTOCOL_ERROR).
Proof.
  intros H. split; [by eapply validate_not_drop |]. intros Hst. unfold idm_conn_sm_validate_pdu in H.
  apply bind_Ok_inv in H as (_ & _ & H). apply bind_Ok_inv in H as (u & _ & H).
  destruct (validate_direction _ _ _) as [a' |] eqn:Ed.
  - injection H as <-. unfold validate_direction in Ed.
    destruct (IDM_PDU_OPCODE u), (ic_conn_type (ic s)), (iec_pdu_event_type c); try discriminate Ed;
      injection Ed as <-; auto.
  - destruct Hst as [Est | Est]; rewrite Est in H; destruct (IDM_PDU_OPCODE u); try discriminate H; injection H as <-;
      destruct (iec_pdu_event_type c); simpl; auto.
Qed.

(** A target in cleanup that receives a NOP. *)
Lemma idm_validate_never_drops_witness :
  let c := MkCtx CE_MISC_RX (InfoPdu 0) CT_RX_PDU in
  let s := upd_ic (with_state CS_S8_CLEANUP CS_S5_LOGGED_IN) (idm_conn_sm_init CONN_TYPE_TGT false [Some (simple_pdu 0x00 0)]) in
  idm_conn_sm_validate_pdu c 0 s = Ok CA_RX_PROTOCOL_ERROR /\ CA_RX_PROTOCOL_ERROR <> CA_DROP.
Proof.
  intros c s. assert (E : idm_conn_sm_validate_pdu c 0 s = Ok CA_RX_PROTOCOL_ERROR) by (vm_compute; reflexivity).
  split; [exact E |]. exact (proj1 (idm_validate_never_drops c 0 s CA_RX_PROTOCOL_ERROR E)).
Defined.


